(* ===== verification/_CoqProject ===== *)
-Q . S2P
Prelude.v
KV.v
Binary.v
Sha256.v
Node.v
Hash.v
Snapshot.v
Persisted.v
Tree.v
CowHeap.v
CowOps.v
CowTree.v
Proto.v
Iterator.v
Ics23.v
Export.v
Import.v
TreeImport.v
Wal.v
MultiTree.v
MultiSnapshot.v
SnapshotName.v
Hardhat.v
OAuth2.v
GoIO.v
ChangeSetFile.v
ExtSort.v
SorterItem.v
VersionStore.v
VersionIter.v
Convert.v
ConvertProps.v
Db.v
DbDisk.v
NameSort.v
DbHistory.v
DbPending.v
DbInv.v
DbStep.v
DbTasks.v
DbLoad.v
DbRun.v
DbProps.v
DbAsync.v
StateSync.v
VersionRestore.v
Verify.v
Dump.v
RootMulti.v
RootProps.v
RootQuery.v
RootExample.v
Ctx.v
CronosTypes.v
CronosKeeper.v
CronosGenesis.v
Crc21.v
CronosBridge.v
CronosPath.v
CronosPeg.v
CronosMsgs.v
CronosHooks.v
CronosBacking.v
BlockList.v
Precompiles.v
Ica.v
E2ee.v
