(* ===== verification/Prelude.v ===== *)
(** * Verification of the state machine of the GenesisL1 chain

    The repository is a Go program, a chain built on the Cosmos SDK, with token
    contracts in Solidity and some configuration in other languages.  This
    development models the code of its own that keeps and changes the state:
    - the storage engine [src/memiavl]: one balanced Merkle tree per store, in
      memory over files that are mapped, a write-ahead log of change sets, and
      snapshots of all trees written in the background;
    - the commit multi-store [src/store] on top of it, which the SDK uses, with
      state sync;
    - [src/versiondb]: historical versions in RocksDB, beside the trees, with the
      tools that dump, verify, convert and restore them;
    - [src/x/cronos]: the bridge between native coins, IBC vouchers and token
      contracts, its message handlers, EVM hooks and precompiled contracts, and
      the contracts of [src/contracts];
    - [src/x/e2ee], a registry of encryption keys, and the block list of [src/app]
      that uses it;
    - the redirect page of the API documentation ([src/client]) and the build
      configuration of the test contracts.

    ** Conventions

    Fixed-width integers are [Z] with the wrap-around written out ([u8] to [i64]).
    A call that can panic returns an [option], one that can fail a [result], and
    code that changes a receiver is a computation in the monad [SE] of this file,
    which keeps the state a failing call leaves behind.  Code outside the
    repository is an interface with the laws it documents, and each interface has
    an instance at which the theorems are applied: the read cache ([Cache], in
    [Tree]), the log of [tidwall/wal] ([WalLog], in [Wal]), the operations of the
    [ics23] verifier (in [Ics23]), RocksDB with timestamps ([TSDB], in
    [VersionStore]; its iterators in [VersionIter]; its SST writer and ingestion in
    [Convert]), [sort.Slice] and snappy (in [ExtSort]), the SDK's other stores
    ([ExtStores], in [RootMulti]), its key-value store, addresses and coins (in
    [Ctx]), the bank, the EVM and the transfer module (in [CronosBridge]), the
    contracts [DSToken] and [DSMath] (in [Crc21]), the ABI, native actions and IBC
    handlers ([PrecompileABI], [ExtStateDB], [IbcHandlers], in [Precompiles]), the
    interchain account controller (in [Ica]), the [age] package (in [BlockList] and
    [E2ee]), Hardhat's choice of a compiler (in [Hardhat]).

    ** Files

    - [Prelude], [KV], [NameSort]: shared lemmas; a store as its users see it, a
      sorted association list; sorting by name.
    - [Binary], [Sha256], [GoIO]: Go's [encoding/binary], [crypto/sha256], readers.
    - [Node], [Hash]: [memiavl/node.go], [mem_node.go]: insertion, removal,
      rotations, hashes.
    - [CowHeap], [CowOps], [CowTree]: the same code on a heap of nodes that trees
      and their copies share, with modification in place, cached hashes and copy
      on write; [CowTree] also has the operations of [tree.go] on it.
    - [Snapshot], [Persisted]: [snapshot.go], [layout_little_endian.go],
      [persisted_node.go]: the files, their writer, the nodes read from them.
    - [Tree], [Iterator], [Ics23], [Export], [Import], [TreeImport]: [tree.go],
      [iterator.go], [proof.go], [export.go], [import.go], the last two with their
      goroutines.
    - [Proto]: the generated code of [changeset.pb.go], [commit_info.pb.go],
      [wal.pb.go].
    - [Wal]: [wal.go].
    - [MultiTree], [MultiSnapshot]: [multitree.go].
    - [SnapshotName], [Db]: [db.go]; the disk is part of the state, the methods are
      atomic under the mutex; the log writer takes a batch of entries at a time, the
      snapshot rewriter a phase, of which the writing of all stores and their
      loading are one each, and the pruner one operation on the disk.
    - [DbDisk] to [DbLoad]: lemmas: names on disk, the history of committed
      entries, pending changes, the invariant, and that every method and every
      step of a goroutine keeps it.  [DbRun]: the transition system of methods,
      goroutines, crashes with reopening, and rollbacks.  [DbProps], [DbAsync]: its
      properties.
    - [StateSync]: export and import of all stores, [store/rootmulti/snapshot.go]
      and [import.go].
    - [RootMulti], [RootProps], [RootQuery], [RootExample]: [store/rootmulti] and
      [store/memiavlstore]; the properties of blocks, queries and restarts.
    - [ChangeSetFile], [ExtSort], [SorterItem]: change set files of
      [versiondb/client/changeset.go], [versiondb/extsort], the items of
      [convert_to_sst.go].
    - [VersionStore], [VersionIter]: [versiondb/tsrocksdb] and the adapters of
      [versiondb] to the SDK.
    - [Convert], [ConvertProps], [VersionRestore], [Verify], [Dump]: the commands of
      [versiondb/client]: [convert_to_sst.go] and [ingest_sst.go], [restore.go],
      [verify.go], [dump.go].
    - [Ctx], [CronosTypes], [CronosKeeper], [CronosGenesis]: [x/cronos/types], the
      module's store, message handlers, queries and genesis.
    - [CronosBridge]: [x/cronos/keeper/evm.go], [ibc.go] and the middleware.
      [CronosPath]: runs taken apart into the calls of contracts and what happens
      between them.  [CronosPeg], [CronosMsgs]: the CRO peg; all messages.
    - [Crc21], [CronosHooks], [CronosBacking]: [contracts/src], the EVM hooks, and
      both together with the bridge.
    - [Precompiles], [Ica]: [x/cronos/keeper/precompiles].
    - [BlockList], [E2ee]: [app/proposal.go] and [block_address.go], [x/e2ee].
    - [Hardhat]: [integration_tests/contracts/hardhat.config.ts] and the pragmas
      and imports of the contracts it builds.  [OAuth2]:
      [client/docs/swagger-ui/oauth2-redirect.html].

    ** What is shown

    - Trees: change sets act as map updates and keep the tree ordered and
      balanced; lookups by key and rank, the iterator and the export agree with
      the map; equal root hashes mean equal trees up to a collision of SHA-256;
      proofs evaluate to the root hash.  Trees that share nodes behave as these
      values, and a copy of a committed tree is isolated from later changes.
    - Files: a snapshot read back is the tree that was written, for one store and
      for a directory of stores; importing an export writes the same files; the
      messages of the log survive encoding.
    - The database: in every reachable state a commit whose sizes are in range
      succeeds, unless a finished snapshot waits for the pruner, and is the replay
      of the history with one more entry; after a crash of the process at any
      moment reopening finds a state at least as new as the log; old versions
      load exactly; a rollback cuts the history; the goroutines go on whatever else
      happens, and end with the right results.
    - The multi-store: a block's writes reach the trees at the flush, the working
      hash is that of the commit that follows, queries answer with values and
      proofs of their version, a restart continues from the committed state.  State
      sync carries a version to another node; a restore that fails, or stops at a
      message it cannot deal with, leaves the old state in place.
    - Historical versions: reads and iterators at a version see exactly the change
      sets up to it, also in a database built by the conversion of dumped files;
      change set files read back, also without their end; a dump is complete;
      verification replays exactly the change sets up to its target, or one when it
      is past it.
    - The cronos module: entries of its store are changed only by those who may;
      its handlers return on validated messages, but for the causes of panics
      listed, and keep the store well typed; between the calls of contracts the
      supply of the EVM's coin stays covered by vouchers; the tokens of a contract
      are covered by native coins; genesis round trips.  The precompiles act only for
      their caller, and leave the state alone when they fail.
    - Block list and keys: a proposal with a blocked address is refused and never
      built; the registry survives export and import.
    - The redirect page: what it makes of any query, and that it tells the window
      that opened it.  The build: the newest compiler that is accepted is chosen.
    - Flaws: [GetByIndex_wraps], [truncateCorruptedTail_misses],
      [snapshotName_parse], [stale_link_blocks], [uncommitted_copy_shared],
      [bad_node_blocks], [leftover_restored], [unknown_store_panics],
      [version_truncated], [working_hash_exposes], [genesis_source_panics],
      [genesis_forgets], [proxy_lock_unlock], [evm_chain_unhandled],
      [restored_versiondb], [broken_stream_accepted], [target_overrun],
      [branch_crashes], [auto_contract_clash], [redirect_outcome] and
      [unknown_method_panics] describe behaviour that differs from what the code
      intends.

    ** Fuel and bounds

    Traversals with an explicit stack ([scan_loop], [next_loop]) take as fuel a
    count of the nodes on it, which their correctness theorems show to be
    enough; the binary search takes the length of its interval; varints have at
    most ten bytes; loops over a reader take the number of bytes left, with the
    theorem that more changes nothing; loops over an iterator, over the messages
    of a state-sync stream or over the items of the external sort take a bound on
    their number, and the theorems hold for every larger one; the cut of a range of
    versions takes its length, and the parser of the redirect page that of its
    text; the import depth of the contracts is at most three; recursion on the heap of nodes takes a bound on the height of a tree
    ([depth], 200, where 125 is the height of 2^63 leaves).  The database theorems
    assume versions below 2^31, which [parseVersion] requires, and sizes that fit
    the fields they are stored in ([commit_fits], [storable_state]).

    ** Not modelled

    Data races: an operation on a tree is one step, and the multi-tree and the
    database are built on trees as values, which [CowTree] justifies for copies of
    committed trees, the only ones the transition system of [DbRun] takes.  Failures
    of reads and writes of files, the loss of unsynced writes when the operating
    system crashes, the file lock, mmap.  Of [store]: tracing, listeners and the
    cache of the SDK, and the reading of the configuration.  Of [versiondb]:
    [client/restore_app_db.go], which writes nodes in a format of the [iavl]
    package, printing, flags and worker pools.  Of [x/cronos]: JSON-RPC, command
    line, migrations, simulation, and [events], which converts events of the SDK
    with generated bindings.  Of [x/e2ee]: the keyring and the command line.  Of
    [app] and [cmd]: the wiring of modules and upgrades, which are calls into the
    SDK and Ethermint.  In a state-sync stream, names of stores that are not plain
    names of files.  Of the JSON texts that the redirect page can build from a query
    with backslashes, those with values other than strings.  The other files of
    [client/docs/swagger-ui] are minified files of a third-party package. *)

From stdpp Require Export base list sorting gmap strings.
From Stdlib Require Export ZArith Lia.
From Stdlib Require Import Strings.Byte Structures.OrdersTac.

Open Scope Z_scope.

(** ** Machine integers

    Go's fixed-width integers are [Z] values with the wrap-around written
    out at each conversion or arithmetic operation that can overflow. *)
Definition u8 (z : Z) : Z := z mod 2 ^ 8.
Definition u32 (z : Z) : Z := z mod 2 ^ 32.
Definition u64 (z : Z) : Z := z mod 2 ^ 64.
Definition i8 (z : Z) : Z := (z + 2 ^ 7) mod 2 ^ 8 - 2 ^ 7.
Definition i32 (z : Z) : Z := (z + 2 ^ 31) mod 2 ^ 32 - 2 ^ 31.
Definition i64 (z : Z) : Z := (z + 2 ^ 63) mod 2 ^ 64 - 2 ^ 63.

Definition MaxUint32 : Z := 2 ^ 32 - 1.

Lemma u8_id z : 0 <= z < 2 ^ 8 -> u8 z = z.
Proof. apply Z.mod_small. Qed.

Lemma u32_id z : 0 <= z < 2 ^ 32 -> u32 z = z.
Proof. apply Z.mod_small. Qed.

Lemma u64_id z : 0 <= z < 2 ^ 64 -> u64 z = z.
Proof. apply Z.mod_small. Qed.

Lemma i64_id z : - 2 ^ 63 <= z < 2 ^ 63 -> i64 z = z.
Proof. intros H. unfold i64. rewrite Z.mod_small by lia. lia. Qed.

Lemma i8_id z : - 2 ^ 7 <= z < 2 ^ 7 -> i8 z = z.
Proof. intros H. unfold i8. rewrite Z.mod_small by lia. lia. Qed.

Lemma u8_range z : 0 <= u8 z < 2 ^ 8.
Proof. apply Z.mod_pos_bound. lia. Qed.

Lemma u32_range z : 0 <= u32 z < 2 ^ 32.
Proof. apply Z.mod_pos_bound. lia. Qed.

Lemma u64_range z : 0 <= u64 z < 2 ^ 64.
Proof. apply Z.mod_pos_bound. lia. Qed.

(** ** Bytes and byte slices *)

Abbreviation byte := Byte.byte.
Abbreviation bytes := (list byte).

#[global] Instance byte_eq_dec : EqDecision byte := Byte.byte_eq_dec.

Definition byte_to_Z (b : byte) : Z := Z.of_N (Byte.to_N b).

Definition byte_of_Z (z : Z) : byte :=
  default Byte.x00 (Byte.of_N (Z.to_N (u8 z))).

Lemma byte_to_Z_range b : 0 <= byte_to_Z b < 2 ^ 8.
Proof. unfold byte_to_Z. pose proof (Byte.to_N_bounded b). lia. Qed.

Lemma byte_of_to_Z b : byte_of_Z (byte_to_Z b) = b.
Proof.
  unfold byte_of_Z. rewrite u8_id by apply byte_to_Z_range.
  unfold byte_to_Z. by rewrite N2Z.id, Byte.of_to_N.
Qed.

Lemma byte_to_of_Z z : byte_to_Z (byte_of_Z z) = u8 z.
Proof.
  unfold byte_of_Z, byte_to_Z. pose proof (u8_range z).
  destruct (Byte.of_N (Z.to_N (u8 z))) as [b|] eqn:E; simpl.
  - apply Byte.to_of_N in E. rewrite E. lia.
  - apply Byte.of_N_None_iff in E. lia.
Qed.

#[global] Instance byte_to_Z_inj : Inj (=) (=) byte_to_Z.
Proof. intros a b E. by rewrite <- (byte_of_to_Z a), E, byte_of_to_Z. Qed.

#[global] Instance byte_countable : Countable byte :=
  inj_countable' byte_to_Z byte_of_Z byte_of_to_Z.

(** Go's [len], as an integer. *)
Abbreviation zlen l := (Z.of_nat (length l)).

(** [bytes.Compare]: lexicographic comparison. *)
Fixpoint bytes_compare (a b : bytes) : comparison :=
  match a, b with
  | [], [] => Eq
  | [], _ :: _ => Lt
  | _ :: _, [] => Gt
  | x :: a', y :: b' =>
      match byte_to_Z x ?= byte_to_Z y with
      | Eq => bytes_compare a' b'
      | c => c
      end
  end.

Definition bytes_lt (a b : bytes) : Prop := bytes_compare a b = Lt.
Definition bytes_le (a b : bytes) : Prop := bytes_compare a b <> Gt.
(** [bytes.Equal] *)
Definition bytes_eqb (a b : bytes) : bool := bool_decide (a = b).

(** [bytes.Compare(a, b) == -1], also written [bytes.Compare(a, b) < 0] *)
Definition bytes_ltb (a b : bytes) : bool :=
  match bytes_compare a b with Lt => true | _ => false end.

Infix "<b" := bytes_lt (at level 70, no associativity).
Infix "<=b" := bytes_le (at level 70, no associativity).

Lemma bytes_compare_refl a : bytes_compare a a = Eq.
Proof. induction a; simpl; by rewrite ?Z.compare_refl. Qed.

Lemma bytes_compare_eq a b : bytes_compare a b = Eq <-> a = b.
Proof.
  split; [|intros ->; apply bytes_compare_refl].
  revert b. induction a as [|x a IH]; intros [|y b]; simpl; try done.
  destruct (Z.compare_spec (byte_to_Z x) (byte_to_Z y)) as [E| |]; try done.
  apply (inj byte_to_Z) in E as ->. intros H. f_equal. auto.
Qed.

Lemma bytes_compare_antisym a b :
  bytes_compare a b = CompOpp (bytes_compare b a).
Proof.
  revert b. induction a as [|x a IH]; intros [|y b]; simpl; try done.
  rewrite (Z.compare_antisym (byte_to_Z y)).
  destruct (byte_to_Z y ?= byte_to_Z x); simpl; auto.
Qed.

Lemma bytes_lt_trans a b c : a <b b -> b <b c -> a <b c.
Proof.
  unfold bytes_lt. revert b c.
  induction a as [|x a IH]; intros [|y b] [|z c]; simpl; try done.
  destruct (Z.compare_spec (byte_to_Z x) (byte_to_Z y)) as [E|E|E]; try done.
  - rewrite E. destruct (byte_to_Z y ?= byte_to_Z z); eauto.
  - destruct (Z.compare_spec (byte_to_Z y) (byte_to_Z z)) as [F|F|F]; try done;
      intros _ _; rewrite (proj2 (Z.compare_lt_iff _ _)) by lia; done.
Qed.

Lemma bytes_lt_irrefl a : ~ a <b a.
Proof. unfold bytes_lt. by rewrite bytes_compare_refl. Qed.

Lemma bytes_compare_gt a b : bytes_compare a b = Gt <-> b <b a.
Proof.
  unfold bytes_lt. rewrite bytes_compare_antisym.
  by destruct (bytes_compare b a).
Qed.

Lemma bytes_le_lteq a b : a <=b b <-> a <b b \/ a = b.
Proof.
  unfold bytes_le, bytes_lt. rewrite <- bytes_compare_eq.
  destruct (bytes_compare a b); naive_solver.
Qed.

Lemma bytes_compare_spec a b :
  CompareSpec (a = b) (a <b b) (b <b a) (bytes_compare a b).
Proof.
  destruct (bytes_compare a b) eqn:E; constructor.
  - by apply bytes_compare_eq.
  - done.
  - by apply bytes_compare_gt.
Qed.

Lemma bytes_ltb_spec a b : BoolSpec (a <b b) (b <=b a) (bytes_ltb a b).
Proof.
  unfold bytes_ltb. destruct (bytes_compare_spec a b) as [->| |]; constructor; try done;
    apply bytes_le_lteq; auto.
Qed.

(** An [order] decision tactic for the strict total order on byte slices. *)
Module BytesOT.
Definition t := bytes.
Definition eq (a b : t) : Prop := a = b.
Definition lt : t -> t -> Prop := bytes_lt.
Definition le : t -> t -> Prop := bytes_le.
#[global] Instance eq_equiv : Equivalence eq.
Proof. unfold eq. split; congruence. Qed.
#[global] Instance lt_strorder : StrictOrder lt.
Proof. split; [exact bytes_lt_irrefl | exact bytes_lt_trans]. Qed.
#[global] Instance lt_compat : Proper (eq ==> eq ==> iff) lt.
Proof. unfold eq. intros ? ? -> ? ? ->. done. Qed.
Lemma le_lteq : forall x y, le x y <-> lt x y \/ eq x y.
Proof. exact bytes_le_lteq. Qed.
Lemma lt_total : forall x y, lt x y \/ eq x y \/ lt y x.
Proof. intros x y. destruct (bytes_compare_spec x y); auto. Qed.
End BytesOT.

Module BytesTac := OrdersTac.MakeOrderTac BytesOT BytesOT.

Ltac bytes_order :=
  change bytes_lt with BytesOT.lt in *;
  change bytes_le with BytesOT.le in *;
  change (@eq bytes) with BytesOT.eq in *;
  BytesTac.order.

Lemma bytes_le_antisym a b : a <=b b -> b <=b a -> a = b.
Proof. rewrite !bytes_le_lteq. intros [H1|H1] [H2|H2]; (done || exfalso; bytes_order). Qed.

#[global] Instance bytes_lt_dec a b : Decision (a <b b).
Proof. unfold bytes_lt. apply _. Defined.

Lemma bytes_eqb_eq a b : bytes_eqb a b = true <-> a = b.
Proof. apply bool_decide_eq_true. Qed.

Lemma bytes_eqb_refl a : bytes_eqb a a = true.
Proof. by apply bytes_eqb_eq. Qed.

Lemma bytes_eqb_neq a b : bytes_eqb a b = false <-> a <> b.
Proof. apply bool_decide_eq_false. Qed.

(** ** Lists *)
Lemma StronglySorted_app_iff {A} (R : A -> A -> Prop) (l1 l2 : list A) :
  StronglySorted R (l1 ++ l2) <->
  StronglySorted R l1 /\ StronglySorted R l2 /\
  (forall x y, x ∈ l1 -> y ∈ l2 -> R x y).
Proof.
  induction l1 as [|a l1 IH]; simpl.
  - split; [intros H; repeat split; [constructor|done|set_solver]|naive_solver].
  - split.
    + intros H. apply StronglySorted_inv in H as [H1 H2].
      apply IH in H1 as (?&?&?). apply Forall_app in H2 as [F1 F2].
      rewrite Forall_forall in F2.
      split; [by constructor|]. split; [done|].
      intros x y Hx Hy. apply elem_of_cons in Hx as [->|]; auto.
    + intros (H1&H2&H3). apply StronglySorted_inv in H1 as [H1 F1].
      constructor.
      * apply IH. repeat split; [done..|]. intros. apply H3; [by constructor|done].
      * apply Forall_app. split; [done|]. apply Forall_forall.
        intros. apply H3; [constructor|done].
Qed.

(** Modular subtraction of two [uint32] conversions. *)
Lemma u32_sub a b : u32 (u32 a - u32 b) = u32 (a - b).
Proof. unfold u32. by rewrite <- Zminus_mod. Qed.

Lemma u32_add_l a b : u32 (u32 a + b) = u32 (a + b).
Proof. unfold u32. by rewrite Zplus_mod_idemp_l. Qed.

Lemma u32_add_r a b : u32 (a + u32 b) = u32 (a + b).
Proof. unfold u32. by rewrite Zplus_mod_idemp_r. Qed.

(** ** Errors

    A Go function that returns [(T, error)] is a [result T]; a function that
    can panic is an [option]. *)
Definition error := string.

Inductive result (A : Type) : Type :=
| Ok (a : A)
| Err (e : error).
Arguments Ok {A} a.
Arguments Err {A} e.

#[global] Instance result_ret : MRet result := fun A a => Ok a.
#[global] Instance result_bind : MBind result :=
  fun A B f r => match r with Ok a => f a | Err e => Err e end.
#[global] Instance result_fmap : FMap result :=
  fun A B f r => match r with Ok a => Ok (f a) | Err e => Err e end.

(** [if cond { return err }] *)
Definition fail_if (b : bool) (e : error) : result unit := if b then Err e else Ok tt.

(** A loop [for x := range l { if err := f(x); err != nil { return err } }]
    over a state. *)
Fixpoint foldM {A S} (f : S -> A -> result S) (s : S) (l : list A) : result S :=
  match l with
  | [] => Ok s
  | a :: l => s ← f s a; foldM f s l
  end.

(** ** State and errors

    A method that changes its receiver and can fail: the receiver after the
    call is kept on the error path too, [None] is a panic. *)
Definition SE (S A : Type) : Type := S -> option (result A * S).

#[global] Instance SE_ret {S} : MRet (SE S) := fun A a s => Some (Ok a, s).
#[global] Instance SE_bind {S} : MBind (SE S) := fun A B f m s =>
  match m s with
  | Some (Ok a, s) => f a s
  | Some (Err e, s) => Some (Err e, s)
  | None => None
  end.

Definition gets {S A} (f : S -> A) : SE S A := fun s => Some (Ok (f s), s).
Definition modify {S} (f : S -> S) : SE S unit := fun s => Some (Ok tt, f s).
Definition throw {S A} (e : error) : SE S A := fun s => Some (Err e, s).
Definition orPanic {S A} (a : option A) : SE S A := fun s => a ← a; Some (Ok a, s).
Definition orErr {S A} (a : result A) : SE S A := fun s => Some (a, s).

(** A loop over a list whose body can return an error. *)
Fixpoint forM {S A} (l : list A) (f : A -> SE S unit) : SE S unit :=
  match l with
  | [] => mret tt
  | a :: l => _ ← f a; forM l f
  end.

Lemma last_take_lookup {A} (l : list A) n :
  (0 < n <= length l)%nat -> last (take n l) = l !! pred n.
Proof.
  intros Hn. rewrite last_lookup, length_take, Nat.min_l by lia.
  apply lookup_take_lt. lia.
Qed.

Lemma head_drop {A} (l : list A) n : head (drop n l) = l !! n.
Proof. by rewrite head_lookup, lookup_drop, Nat.add_0_r. Qed.

Lemma foldM_app {A S} (f : S -> A -> result S) s l1 l2 :
  foldM f s (l1 ++ l2) = (s ← foldM f s l1; foldM f s l2).
Proof.
  revert s. induction l1 as [|a l1 IH]; intros s; simpl; [done|].
  destruct (f s a); simpl; [apply IH|done].
Qed.

Lemma forM_app {S A} (l1 l2 : list A) (f : A -> SE S unit) s :
  forM (l1 ++ l2) f s = (_ ← forM l1 f; forM l2 f) s.
Proof.
  revert s. induction l1 as [|a l1 IH]; intros s; [done|].
  cbn [forM app]. unfold mbind, SE_bind in *. destruct (f a s) as [[[]]|]; [apply IH|done|done].
Qed.

(** Reduce the binds of the option and result monads. *)
Ltac sbind := cbn [mbind option_bind result_bind mret fmap option_fmap option_map result_fmap].

(** The laws of the state monad, as rewrite rules. *)
Section Laws.
Context {S A B : Type}.
Implicit Types k : A -> SE S B.

Lemma SE_mret (a : A) (s : S) : (mret a : SE S A) s = Some (Ok a, s).
Proof. done. Qed.

Lemma SE_bind_mret (a : A) k s : ((mret a : SE S A) ≫= k) s = k a s.
Proof. done. Qed.

Lemma SE_bind_gets (f : S -> A) k s : (gets f ≫= k) s = k (f s) s.
Proof. done. Qed.

Lemma SE_bind_modify f (k : unit -> SE S B) s : (modify f ≫= k) s = k tt (f s).
Proof. done. Qed.

Lemma SE_bind_throw e k s : (throw e ≫= k) s = Some (Err e, s).
Proof. done. Qed.

Lemma SE_bind_orPanic a k s : (orPanic (Some a) ≫= k) s = k a s.
Proof. done. Qed.

Lemma SE_bind_orErr a k s : (orErr (Ok a) ≫= k) s = k a s.
Proof. done. Qed.

Lemma SE_bind_ok (m : SE S A) k s a s' : m s = Some (Ok a, s') -> (m ≫= k) s = k a s'.
Proof. unfold mbind, SE_bind. by intros ->. Qed.

Lemma SE_bind_err (m : SE S A) k s e s' : m s = Some (Err e, s') -> (m ≫= k) s = Some (Err e, s').
Proof. unfold mbind, SE_bind. by intros ->. Qed.

(** A successful sequence is a success of both parts. *)
Lemma SE_bind_inv (m : SE S A) k s r :
  (m ≫= k) s = r ->
  match m s with
  | Some (Ok a, s') => k a s' = r
  | Some (Err e, s') => r = Some (Err e, s')
  | None => r = None
  end.
Proof. unfold mbind, SE_bind. by destruct (m s) as [[[]]|]. Qed.
End Laws.

Create Rewrite HintDb sstate.
#[export] Hint Rewrite @SE_mret @SE_bind_mret @SE_bind_gets @SE_bind_modify @SE_bind_throw
  @SE_bind_orPanic @SE_bind_orErr : sstate.

(** Run a state computation as far as its steps are known. *)
Ltac sstate := autorewrite with sstate.

(** Computations that keep a property of the state, errors included. *)
Section Preserves.
Context {S : Type} (I : S -> Prop).

Definition preserves {A} (m : SE S A) : Prop :=
  forall s r s', m s = Some (r, s') -> I s -> I s'.

Lemma preserves_bind {A B} (m : SE S A) (k : A -> SE S B) :
  preserves m -> (forall a, preserves (k a)) -> preserves (m ≫= k).
Proof.
  intros Hm Hk s r s' E Hs. apply SE_bind_inv in E. specialize (Hm s).
  destruct (m s) as [[[a|e] s1]|]; [|by simplify_eq; eapply Hm|done].
  eapply Hk; [exact E|]. by eapply Hm.
Qed.

Lemma preserves_read {A} (m : SE S A) :
  (forall s r s', m s = Some (r, s') -> s' = s) -> preserves m.
Proof. intros Hm s r s' E Hs. by rewrite (Hm s r s' E). Qed.

Lemma preserves_gets {A} (f : S -> A) : preserves (gets f).
Proof. apply preserves_read. by intros s r s' [= _ <-]. Qed.

Lemma preserves_mret {A} (a : A) : preserves (mret a).
Proof. apply preserves_read. by intros s r s' [= _ <-]. Qed.

Lemma preserves_throw {A} e : preserves (throw e : SE S A).
Proof. apply preserves_read. by intros s r s' [= _ <-]. Qed.

Lemma preserves_orErr {A} (r : result A) : preserves (orErr r).
Proof. apply preserves_read. intros s r' s' E. destruct r; by injection E. Qed.

Lemma preserves_orPanic {A} (r : option A) : preserves (orPanic r).
Proof. apply preserves_read. intros s r' s' E. destruct r; by simplify_eq/=. Qed.

Lemma preserves_modify f : (forall s, I s -> I (f s)) -> preserves (modify f).
Proof. intros Hf s r s' E Hs. injection E as _ <-. by apply Hf. Qed.

Lemma preserves_forM {A} (l : list A) (f : A -> SE S unit) :
  (forall a, a ∈ l -> preserves (f a)) -> preserves (forM l f).
Proof.
  induction l as [|a l IH]; intros Hf; cbn [forM]; [apply preserves_mret|].
  apply preserves_bind; [apply Hf; by left|]. intros _. apply IH. intros b Hb. apply Hf. by right.
Qed.
End Preserves.

Create HintDb preserves.
#[export] Hint Resolve preserves_bind preserves_gets preserves_mret preserves_throw preserves_orErr
  preserves_orPanic preserves_modify preserves_forM : preserves.

Lemma StronglySorted_lookup_lt {A} (R : A -> A -> Prop) (l : list A) i j x y :
  StronglySorted R l -> l !! i = Some x -> l !! j = Some y -> (i < j)%nat -> R x y.
Proof.
  intros Hs Hx Hy Hij. rewrite <- (take_drop j l) in Hs.
  apply StronglySorted_app_iff in Hs as (_ & _ & H). apply H.
  - apply list_elem_of_lookup. exists i. rewrite lookup_take_lt by done. done.
  - apply list_elem_of_lookup. exists 0%nat. rewrite lookup_drop, Nat.add_0_r. done.
Qed.
