(* ===== verification/KV.v ===== *)
(** * Sorted association lists: the abstract state of a store

    The value of a store as its users see it: the key-value pairs in strictly
    ascending key order, with lookup, insertion, deletion, rank and range.
    The tree, snapshot and iterator theorems are stated against these
    operations; the lemmas here are their algebra. *)

From S2P Require Import Prelude.

(** ** Sorted association lists

    The abstract state of a store: the key-value pairs in strictly
    ascending key order.  Every component's theorems are stated against
    these operations. *)
Abbreviation kvs := (list (bytes * bytes)).

Definition keys (l : kvs) : list bytes := l.*1.
Definition kv_sorted (l : kvs) : Prop := StronglySorted bytes_lt (keys l).

Fixpoint kv_get (k : bytes) (l : kvs) : option bytes :=
  match l with
  | [] => None
  | (k', v) :: l' => if bytes_eqb k k' then Some v else kv_get k l'
  end.

Fixpoint kv_set (k v : bytes) (l : kvs) : kvs :=
  match l with
  | [] => [(k, v)]
  | (k', v') :: l' =>
      match bytes_compare k k' with
      | Lt => (k, v) :: (k', v') :: l'
      | Eq => (k, v) :: l'
      | Gt => (k', v') :: kv_set k v l'
      end
  end.

Definition kv_remove (k : bytes) (l : kvs) : kvs :=
  base.filter (fun p => p.1 <> k) l.

(** The number of keys strictly below [k]: the rank of [k]. *)
Definition kv_rank (k : bytes) (l : kvs) : Z :=
  Z.of_nat (length (base.filter (fun p => bytes_compare p.1 k = Lt) l)).

Lemma keys_app l1 l2 : keys (l1 ++ l2) = keys l1 ++ keys l2.
Proof. apply fmap_app. Qed.


Lemma kv_sorted_app l1 l2 :
  kv_sorted (l1 ++ l2) <->
  kv_sorted l1 /\ kv_sorted l2 /\
  (forall x y, x ∈ keys l1 -> y ∈ keys l2 -> x <b y).
Proof. unfold kv_sorted. rewrite keys_app. apply StronglySorted_app_iff. Qed.

Lemma kv_sorted_cons k v l :
  kv_sorted ((k, v) :: l) <-> kv_sorted l /\ forall y, y ∈ keys l -> k <b y.
Proof.
  unfold kv_sorted; simpl. split.
  - intros H. apply StronglySorted_inv in H as [H F].
    by rewrite Forall_forall in F.
  - intros [H F]. constructor; [done|]. by apply Forall_forall.
Qed.

Lemma kv_set_app_l k v l1 l2 :
  (forall y, y ∈ keys l2 -> k <b y) ->
  kv_set k v (l1 ++ l2) = kv_set k v l1 ++ l2.
Proof.
  intros H. induction l1 as [|[k1 v1] l1 IH]; simpl.
  - destruct l2 as [|[k2 v2] l2]; simpl; [done|].
    rewrite (H k2); [done|]. simpl. set_solver.
  - destruct (bytes_compare k k1); simpl; by rewrite ?IH.
Qed.

Lemma kv_set_app_r k v l1 l2 :
  (forall x, x ∈ keys l1 -> x <b k) ->
  kv_set k v (l1 ++ l2) = l1 ++ kv_set k v l2.
Proof.
  induction l1 as [|[k1 v1] l1 IH]; simpl; intros H; [done|].
  assert (k1 <b k) as Hk%bytes_compare_gt by (apply H; set_solver).
  rewrite Hk. f_equal. apply IH. intros x Hx. apply H. set_solver.
Qed.

Lemma kv_set_keys k v l x : x ∈ keys (kv_set k v l) <-> x = k \/ x ∈ keys l.
Proof.
  induction l as [|[k' v'] l IH]; simpl; [set_solver|].
  destruct (bytes_compare_spec k k') as [->| |]; simpl; set_solver.
Qed.

Lemma kv_set_sorted k v l : kv_sorted l -> kv_sorted (kv_set k v l).
Proof.
  induction l as [|[k' v'] l IH]; simpl; intros H.
  { apply kv_sorted_cons. split; [done|set_solver]. }
  apply kv_sorted_cons in H as [H F].
  destruct (bytes_compare_spec k k') as [->|Hlt|Hlt]; apply kv_sorted_cons.
  - done.
  - split; [by apply kv_sorted_cons|]. simpl. intros y Hy.
    apply elem_of_cons in Hy as [->|Hy]; [done|]. specialize (F _ Hy). bytes_order.
  - split; [auto|]. intros y [->|Hy]%kv_set_keys; auto.
Qed.

Lemma kv_get_set_eq k v l : kv_sorted l -> kv_get k (kv_set k v l) = Some v.
Proof.
  induction l as [|[k' v'] l IH]; simpl; intros H.
  { by rewrite bytes_eqb_refl. }
  apply kv_sorted_cons in H as [H F].
  destruct (bytes_compare_spec k k') as [->|Hlt|Hlt]; simpl;
    rewrite ?bytes_eqb_refl; [done..|].
  rewrite (proj2 (bytes_eqb_neq k k')) by (intros ->; by apply bytes_lt_irrefl in Hlt).
  auto.
Qed.

Lemma kv_get_set_ne k k' v l : k' <> k -> kv_get k' (kv_set k v l) = kv_get k' l.
Proof.
  intros Hne%bytes_eqb_neq. induction l as [|[k1 v1] l IH]; simpl.
  { by rewrite Hne. }
  destruct (bytes_compare_spec k k1) as [->| |]; simpl; by rewrite ?Hne, ?IH.
Qed.

Lemma kv_get_None k l : kv_get k l = None <-> k ∉ keys l.
Proof.
  induction l as [|[k' v] l IH]; simpl; [set_solver|].
  destruct (bytes_eqb k k') eqn:E.
  - apply bytes_eqb_eq in E as ->. set_solver.
  - apply bytes_eqb_neq in E. rewrite IH. set_solver.
Qed.

Lemma kv_get_app k l1 l2 :
  kv_get k (l1 ++ l2) = match kv_get k l1 with Some v => Some v | None => kv_get k l2 end.
Proof.
  induction l1 as [|[k' v] l1 IH]; simpl; [done|]. by destruct (bytes_eqb k k').
Qed.

Lemma kv_remove_app k l1 l2 : kv_remove k (l1 ++ l2) = kv_remove k l1 ++ kv_remove k l2.
Proof. apply filter_app. Qed.

Lemma kv_remove_notin k l : k ∉ keys l -> kv_remove k l = l.
Proof.
  intros H. unfold kv_remove. induction l as [|[k' v] l IH]; [done|].
  rewrite filter_cons_True by (simpl in *; set_solver).
  f_equal. apply IH. simpl in H. set_solver.
Qed.

Lemma kv_remove_keys k l x : x ∈ keys (kv_remove k l) <-> x <> k /\ x ∈ keys l.
Proof.
  unfold keys, kv_remove. rewrite !list_elem_of_fmap. setoid_rewrite list_elem_of_filter.
  naive_solver.
Qed.

Lemma kv_remove_sorted k l : kv_sorted l -> kv_sorted (kv_remove k l).
Proof.
  unfold kv_remove. induction l as [|[k' v] l IH]; intros H; [done|].
  apply kv_sorted_cons in H as [H F]. rewrite filter_cons.
  case_decide; [|auto]. apply kv_sorted_cons. split; [auto|].
  intros y [_ Hy]%kv_remove_keys. auto.
Qed.

Lemma kv_get_remove_eq k l : kv_get k (kv_remove k l) = None.
Proof. apply kv_get_None. rewrite kv_remove_keys. naive_solver. Qed.

Lemma kv_get_remove_ne k k' l : k' <> k -> kv_get k' (kv_remove k l) = kv_get k' l.
Proof.
  intros Hne. unfold kv_remove. induction l as [|[k1 v1] l IH]; [done|].
  rewrite filter_cons. case_decide as Hd; simpl; [by rewrite IH|].
  simpl in Hd. subst k1.
  by rewrite (proj2 (bytes_eqb_neq k' k) Hne).
Qed.

Lemma kv_rank_app k l1 l2 : kv_rank k (l1 ++ l2) = kv_rank k l1 + kv_rank k l2.
Proof. unfold kv_rank. rewrite filter_app, length_app. lia. Qed.

Lemma kv_rank_all k l : (forall x, x ∈ keys l -> x <b k) -> kv_rank k l = Z.of_nat (length l).
Proof.
  intros H. unfold kv_rank. f_equal. induction l as [|[k' v] l IH]; [done|].
  rewrite filter_cons_True by (apply H; simpl; set_solver). simpl. f_equal.
  apply IH. intros. apply H. simpl. set_solver.
Qed.

Lemma kv_rank_none k l : (forall x, x ∈ keys l -> k <=b x) -> kv_rank k l = 0.
Proof.
  intros H. unfold kv_rank. induction l as [|[k' v] l IH]; [done|].
  rewrite filter_cons_False; [apply IH; intros; apply H; simpl; set_solver|].
  simpl. assert (k <=b k') by (apply H; simpl; set_solver).
  change (~ k' <b k). intros ?. bytes_order.
Qed.

Lemma kv_set_head k0 k v l :
  head (keys l) = Some k0 -> k0 <=b k -> head (keys (kv_set k v l)) = Some k0.
Proof.
  destruct l as [|[k' v'] l]; simpl; [done|]. intros [= ->] Hle.
  destruct (bytes_compare_spec k k0) as [->|Hlt|Hlt]; simpl; [done| |done].
  exfalso. bytes_order.
Qed.

Lemma kv_set_length k v l :
  kv_sorted l ->
  Z.of_nat (length (kv_set k v l)) =
  Z.of_nat (length l) + (if bool_decide (k ∈ keys l) then 0 else 1).
Proof.
  induction l as [|[k' v'] l IH]; [done|]. intros [H F]%kv_sorted_cons. cbn [kv_set].
  destruct (bytes_compare_spec k k') as [->|Hlt|Hlt]; cbn [length].
  - rewrite bool_decide_true by (simpl; set_solver). lia.
  - rewrite bool_decide_false; [lia|]. intros [->|Hin]%elem_of_cons.
    + by apply bytes_lt_irrefl in Hlt.
    + specialize (F _ Hin). bytes_order.
  - rewrite Nat2Z.inj_succ, IH by done.
    assert (k ∈ keys ((k', v') :: l) <-> k ∈ keys l) as Hiff.
    { simpl. rewrite elem_of_cons. split; [|auto]. intros [->|]; [|done].
      by apply bytes_lt_irrefl in Hlt. }
    rewrite (bool_decide_ext _ _ Hiff). lia.
Qed.

(** The smallest key of a sorted list bounds all others from below. *)
Lemma kv_head_le k0 l y : kv_sorted l -> head (keys l) = Some k0 -> y ∈ keys l -> k0 <=b y.
Proof.
  destruct l as [|[k v] l]; simpl; [done|]. intros [_ F]%kv_sorted_cons [= ->] Hy.
  apply bytes_le_lteq. apply elem_of_cons in Hy as [->|Hy]; auto.
Qed.

Lemma head_keys_elem k0 l : head (keys l) = Some k0 -> k0 ∈ keys l.
Proof. unfold keys. destruct l; simpl; [done|]. intros [= ->]. set_solver. Qed.

Lemma kv_remove_length_le k l : (length (kv_remove k l) <= length l)%nat.
Proof. apply length_filter. Qed.

Lemma kv_get_elem k l v : kv_get k l = Some v -> k ∈ keys l.
Proof.
  intros H. destruct (decide (k ∈ keys l)) as [|Hn]; [done|].
  apply kv_get_None in Hn. congruence.
Qed.

Lemma kv_rank_bound k l : 0 <= kv_rank k l <= Z.of_nat (length l).
Proof.
  unfold kv_rank.
  pose proof (length_filter (fun p : bytes * bytes => bytes_compare p.1 k = Lt) l). lia.
Qed.

Lemma kv_sorted_singleton k v : kv_sorted [(k, v)].
Proof. repeat constructor. Qed.

(** A sorted list has no key twice, and is determined by its pairs. *)
Lemma sorted_NoDup (l : list bytes) : StronglySorted bytes_lt l -> NoDup l.
Proof.
  induction 1 as [|k l Hs IH Hall]; constructor; [|done]. intros Hin.
  rewrite Forall_forall in Hall. by apply (bytes_lt_irrefl k), Hall.
Qed.

Lemma kv_sorted_ext (l l' : kvs) : kv_sorted l -> kv_sorted l' -> (forall x, x ∈ l <-> x ∈ l') -> l = l'.
Proof.
  unfold kv_sorted. revert l'. induction l as [|[k v] l IH]; intros [|[k' v'] l'] Hs Hs' Hx; [done|..].
  - exfalso. apply (not_elem_of_nil (k', v')). apply Hx. by left.
  - exfalso. apply (not_elem_of_nil (k, v)). apply Hx. by left.
  - cbn in Hs, Hs'. apply StronglySorted_inv in Hs as [Hs Hf], Hs' as [Hs' Hf']. rewrite Forall_forall in Hf, Hf'.
    assert (forall x, x ∈ l -> k <b x.1) as Hlt by (intros x Hin; apply Hf; by apply (list_elem_of_fmap_2 fst)).
    assert (forall x, x ∈ l' -> k' <b x.1) as Hlt' by (intros x Hin; apply Hf'; by apply (list_elem_of_fmap_2 fst)).
    assert ((k, v) = (k', v')) as Eq.
    { assert ((k, v) ∈ (k', v') :: l') as Hin by (apply Hx; by left).
      assert ((k', v') ∈ (k, v) :: l) as Hin' by (apply Hx; by left).
      apply elem_of_cons in Hin as [->|Hin], Hin' as [Hin'|Hin']; try done.
      apply Hlt' in Hin. apply Hlt in Hin'. cbn in *. exfalso. bytes_order. }
    injection Eq as <- <-. f_equal. apply IH; [done|done|]. intros x. specialize (Hx x). rewrite !elem_of_cons in Hx.
    split; intros Hin; [destruct (proj1 Hx (or_intror Hin)) as [->|]|destruct (proj2 Hx (or_intror Hin)) as [->|]]; try done;
      exfalso; [apply Hlt in Hin|apply Hlt' in Hin]; cbn in Hin; by apply bytes_lt_irrefl in Hin.
Qed.

(** The rank of a present key is its position. *)
Lemma kv_rank_lookup k l v :
  kv_sorted l -> kv_get k l = Some v -> l !! Z.to_nat (kv_rank k l) = Some (k, v).
Proof.
  induction l as [|[k' v'] l IH]; [done|]. intros [Hs F]%kv_sorted_cons. cbn [kv_get].
  change ((k', v') :: l) with ([(k', v')] ++ l). rewrite kv_rank_app.
  destruct (bytes_eqb k k') eqn:E.
  - apply bytes_eqb_eq in E as ->. intros [= ->]. rewrite !kv_rank_none; [done| |].
    + intros x Hx. specialize (F x Hx). bytes_order.
    + intros x ->%list_elem_of_singleton. simpl. bytes_order.
  - intros Hg. assert (k' <b k) by (apply F; by eapply kv_get_elem).
    rewrite (kv_rank_all k [(k', v')]) by (by intros x ->%list_elem_of_singleton).
    pose proof (kv_rank_bound k l). cbn [length].
    replace (Z.to_nat (Z.of_nat 1 + kv_rank k l)) with (S (Z.to_nat (kv_rank k l))) by lia.
    simpl. auto.
Qed.

Lemma kv_get_lookup k l v i : kv_sorted l -> l !! i = Some (k, v) -> kv_get k l = Some v.
Proof.
  revert i. induction l as [|[k' v'] l IH]; intros i; [done|]. intros [Hs F]%kv_sorted_cons.
  destruct i as [|i]; cbn [lookup list_lookup kv_get].
  - intros [= -> ->]. by rewrite bytes_eqb_refl.
  - intros Hi. rewrite (proj2 (bytes_eqb_neq k k')); [eauto|]. intros ->.
    assert (k' <b k'); [|bytes_order]. apply F.
    apply list_elem_of_lookup_2 in Hi. by apply (list_elem_of_fmap_2 fst) in Hi.
Qed.

(** The rank of an absent key splits the list into the smaller and the larger
    keys. *)
Lemma kv_rank_split k l :
  kv_sorted l -> kv_get k l = None ->
  (forall x, x ∈ keys (take (Z.to_nat (kv_rank k l)) l) -> x <b k) /\
  (forall x, x ∈ keys (drop (Z.to_nat (kv_rank k l)) l) -> k <b x).
Proof.
  induction l as [|[k' v'] l IH]; [by split; intros x ?%elem_of_nil|].
  intros [Hs F]%kv_sorted_cons. cbn [kv_get]. destruct (bytes_eqb k k') eqn:E; [done|].
  apply bytes_eqb_neq in E. intros Hg. specialize (IH Hs Hg) as [IH1 IH2].
  change ((k', v') :: l) with ([(k', v')] ++ l). rewrite kv_rank_app.
  destruct (bytes_compare_spec k' k) as [->|Hlt|Hgt]; [done| |].
  - rewrite (kv_rank_all k [(k', v')]) by (by intros x ->%list_elem_of_singleton).
    pose proof (kv_rank_bound k l). cbn [length].
    replace (Z.to_nat (Z.of_nat 1 + kv_rank k l)) with (S (Z.to_nat (kv_rank k l))) by lia.
    split; [|done]. intros x [->|Hx]%elem_of_cons; auto.
  - assert (forall x, x ∈ keys ([(k', v')] ++ l) -> k <b x) as Hall.
    { intros x [->|Hx]%elem_of_cons; [done|]. specialize (F x Hx). bytes_order. }
    rewrite !kv_rank_none; [by split; [intros x ?%elem_of_nil|]| |];
      intros x Hx; (assert (k <b x) by (apply Hall; rewrite keys_app; set_solver)); bytes_order.
Qed.

(** ** Ranges: [start] inclusive, [end] exclusive, [None] unbounded. *)

Definition in_domain (start end_ : option bytes) (k : bytes) : bool :=
  match start with None => true | Some s => negb (bytes_ltb k s) end &&
  match end_ with None => true | Some e => bytes_ltb k e end.

Definition kv_range (start end_ : option bytes) (l : kvs) : kvs :=
  base.filter (fun p => in_domain start end_ p.1 = true) l.

Lemma kv_range_app s e l1 l2 : kv_range s e (l1 ++ l2) = kv_range s e l1 ++ kv_range s e l2.
Proof. apply filter_app. Qed.

Lemma kv_range_empty s e l :
  (forall k, k ∈ keys l -> in_domain s e k = false) -> kv_range s e l = [].
Proof.
  unfold kv_range. induction l as [|[k v] l IH]; intros F; [done|].
  rewrite filter_cons_False; [apply IH; intros; apply F; simpl; set_solver|].
  simpl. rewrite F by (simpl; set_solver). done.
Qed.

Lemma kv_range_sorted s e l : kv_sorted l -> kv_sorted (kv_range s e l).
Proof.
  unfold kv_range. induction l as [|[k v] l IH]; [done|]. intros [H F]%kv_sorted_cons.
  rewrite filter_cons. case_decide; [|auto]. apply kv_sorted_cons. split; [auto|].
  intros y Hy. apply F. unfold keys in *. apply list_elem_of_fmap in Hy as (p & -> & Hp).
  apply list_elem_of_filter in Hp as [_ Hp]. by apply list_elem_of_fmap_2.
Qed.
