(* ===== verification/Binary.v ===== *)
(** * Go's [encoding/binary] as used by the storage code

    Varints ([PutUvarint], [PutVarint], [Uvarint]) and fixed-width
    little-endian integers, with the round trips the other files use. *)

From S2P Require Import Prelude.

(** ** Fixed width, little endian *)

Fixpoint le_bytes (n : nat) (z : Z) : bytes :=
  match n with
  | O => []
  | S n => byte_of_Z z :: le_bytes n (z / 256)
  end.

Fixpoint le_val (b : bytes) : Z :=
  match b with
  | [] => 0
  | x :: b => byte_to_Z x + 256 * le_val b
  end.

(** [binary.LittleEndian.PutUint32] and [PutUint64]: the bytes written. *)
Definition PutUint32 (v : Z) : bytes := le_bytes 4 v.
Definition PutUint64 (v : Z) : bytes := le_bytes 8 v.

(** [binary.LittleEndian.Uint32] and [Uint64]; [None] is the index panic. *)
Definition Uint32 (b : bytes) : option Z :=
  if (length b <? 4)%nat then None else Some (le_val (take 4 b)).
Definition Uint64 (b : bytes) : option Z :=
  if (length b <? 8)%nat then None else Some (le_val (take 8 b)).

(** A Go slice expression [b[lo:hi]]; [None] is the bounds panic. *)
Definition slice (b : bytes) (lo hi : Z) : option bytes :=
  if (0 <=? lo) && (lo <=? hi) && (hi <=? Z.of_nat (length b))
  then Some (take (Z.to_nat (hi - lo)) (drop (Z.to_nat lo) b))
  else None.

(** [b[lo:]] *)
Definition slice_from (b : bytes) (lo : Z) : option bytes :=
  slice b lo (Z.of_nat (length b)).

Lemma length_le_bytes n z : length (le_bytes n z) = n.
Proof. revert z. induction n; intros; simpl; auto. Qed.

Lemma length_PutUint32 v : length (PutUint32 v) = 4%nat.
Proof. apply length_le_bytes. Qed.

Lemma length_PutUint64 v : length (PutUint64 v) = 8%nat.
Proof. apply length_le_bytes. Qed.

Lemma le_val_bytes n z : le_val (le_bytes n z) = z mod 256 ^ Z.of_nat n.
Proof.
  revert z. induction n as [|n IH]; intros z; [by rewrite Z.mod_1_r|].
  cbn [le_bytes le_val]. rewrite byte_to_of_Z, IH. unfold u8. change (2 ^ 8) with 256.
  rewrite Nat2Z.inj_succ, Z.pow_succ_r by lia.
  rewrite Z.rem_mul_r by lia. lia.
Qed.

Lemma Uint32_Put v rest : 0 <= v < 2 ^ 32 -> Uint32 (PutUint32 v ++ rest) = Some v.
Proof.
  intros H. unfold Uint32, PutUint32. rewrite length_app, length_le_bytes.
  rewrite (proj2 (Nat.ltb_ge _ _)) by lia.
  rewrite take_app_length' by (by rewrite length_le_bytes).
  f_equal. rewrite le_val_bytes. apply Z.mod_small. lia.
Qed.

Lemma Uint64_Put v rest : 0 <= v < 2 ^ 64 -> Uint64 (PutUint64 v ++ rest) = Some v.
Proof.
  intros H. unfold Uint64, PutUint64. rewrite length_app, length_le_bytes.
  rewrite (proj2 (Nat.ltb_ge _ _)) by lia.
  rewrite take_app_length' by (by rewrite length_le_bytes).
  f_equal. rewrite le_val_bytes. apply Z.mod_small. lia.
Qed.

Lemma slice_app a b c lo hi :
  lo = Z.of_nat (length a) -> hi = lo + Z.of_nat (length b) ->
  slice (a ++ b ++ c) lo hi = Some b.
Proof.
  intros -> ->. unfold slice. rewrite !length_app.
  rewrite !(proj2 (Z.leb_le _ _)) by lia. simpl. f_equal.
  rewrite Nat2Z.id, drop_app_length.
  replace (Z.to_nat _) with (length b) by lia. apply take_app_length.
Qed.

Lemma slice_from_app a b lo :
  lo = Z.of_nat (length a) -> slice_from (a ++ b) lo = Some b.
Proof.
  intros ->. unfold slice_from. rewrite <- (app_nil_r b) at 1.
  apply slice_app; [done|]. rewrite length_app. lia.
Qed.

(** ** Varints *)

Definition MaxVarintLen64 : Z := 10.

(** The loop of [PutUvarint]; ten rounds are enough for a [uint64]. *)
Fixpoint put_uvarint (fuel : nat) (x : Z) : bytes :=
  match fuel with
  | O => []
  | S fuel =>
      if 128 <=? x then byte_of_Z (Z.lor (u8 x) 128) :: put_uvarint fuel (Z.shiftr x 7)
      else [byte_of_Z x]
  end.

Definition PutUvarint (x : Z) : bytes := put_uvarint 10 x.

(** [PutVarint]: zig-zag, then [PutUvarint]. *)
Definition PutVarint (x : Z) : bytes :=
  let ux := u64 (Z.shiftl x 1) in
  PutUvarint (if x <? 0 then u64 (Z.lnot ux) else ux).

(** [Uvarint]: the value and the number of bytes read; [n = 0] is a short
    buffer, [n < 0] an overflow after [-n] bytes. *)
Fixpoint uvarint_loop (buf : bytes) (i x s : Z) : Z * Z :=
  match buf with
  | [] => (0, 0)
  | b :: buf =>
      let b := byte_to_Z b in
      if i =? MaxVarintLen64 then (0, - (i + 1))
      else if b <? 128 then
        if (i =? MaxVarintLen64 - 1) && (1 <? b) then (0, - (i + 1))
        else (Z.lor x (u64 (Z.shiftl b s)), i + 1)
      else uvarint_loop buf (i + 1) (Z.lor x (u64 (Z.shiftl (Z.land b 127) s))) (s + 7)
  end.

Definition Uvarint (buf : bytes) : Z * Z := uvarint_loop buf 0 0 0.

(** A value below [2 ^ s] and a multiple of [2 ^ s] share no bit. *)
Lemma lor_shiftl_add a b s : 0 <= s -> 0 <= a < 2 ^ s -> Z.lor a (Z.shiftl b s) = a + Z.shiftl b s.
Proof.
  intros Hs Ha. assert (Z.land a (Z.shiftl b s) = 0) as Hd.
  { apply Z.bits_inj_0. intros n. rewrite Z.land_spec.
    destruct (Z.ltb_spec n s).
    - rewrite Z.shiftl_spec_low by done. apply andb_false_r.
    - rewrite <- (Z.mod_small a (2 ^ s)) by done.
      rewrite Z.mod_pow2_bits_high by lia. done. }
  by rewrite <- Z.lxor_lor, Z.add_nocarry_lxor.
Qed.

Lemma land_127 x : Z.land x 127 = x mod 128.
Proof. change 127 with (Z.ones 7). rewrite Z.land_ones by lia. done. Qed.

Lemma varint_byte_low x : Z.land (Z.lor (u8 x) 128) 127 = x mod 128.
Proof.
  rewrite <- land_127. unfold u8. rewrite <- (Z.land_ones x 8) by lia.
  apply Z.bits_inj'. intros n Hn.
  rewrite !Z.land_spec, Z.lor_spec, Z.land_spec.
  change 127 with (Z.ones 7). change 128 with (2 ^ 7).
  destruct (Z.ltb_spec n 7).
  - rewrite !Z.ones_spec_low by lia. rewrite Z.pow2_bits_false by lia.
    by rewrite orb_false_r, !andb_true_r.
  - rewrite !(Z.ones_spec_high 7) by lia. by rewrite !andb_false_r.
Qed.

Lemma varint_byte_range x : 128 <= Z.lor (u8 x) 128 < 256.
Proof.
  pose proof (u8_range x) as Hr. change (2 ^ 8) with 256 in Hr.
  assert (Z.log2 (Z.lor (u8 x) 128) = 7) as Hl.
  { rewrite Z.log2_lor by lia. change (Z.log2 128) with 7.
    pose proof (Z.log2_le_mono (u8 x) 255 ltac:(lia)) as Hm.
    change (Z.log2 255) with 7 in Hm. lia. }
  assert (0 < Z.lor (u8 x) 128) as Hp.
  { destruct (Z.lt_ge_cases 0 (Z.lor (u8 x) 128)); [done|].
    rewrite Z.log2_nonpos in Hl by done. done. }
  pose proof (Z.log2_spec _ Hp) as Hs. rewrite Hl in Hs.
  change (2 ^ 7) with 128 in Hs. change (2 ^ Z.succ 7) with 256 in Hs. lia.
Qed.

Lemma uvarint_loop_put fuel x rest i acc :
  0 <= i <= 9 -> (10 <= Z.to_nat i + fuel)%nat -> 0 <= acc < 2 ^ (7 * i) ->
  0 <= x < 2 ^ (64 - 7 * i) ->
  uvarint_loop (put_uvarint fuel x ++ rest) i acc (7 * i) =
  (acc + x * 2 ^ (7 * i), i + Z.of_nat (length (put_uvarint fuel x))).
Proof.
  revert x i acc. induction fuel as [|fuel IH]; intros x i acc Hi Hf Ha Hx; [lia|].
  assert (x * 2 ^ (7 * i) < 2 ^ 64) as Hbound.
  { replace 64 with (64 - 7 * i + 7 * i) by lia. rewrite Z.pow_add_r by lia.
    apply Z.mul_lt_mono_pos_r; lia. }
  pose proof (Z.pow_pos_nonneg 2 (7 * i) ltac:(lia) ltac:(lia)) as Hp.
  cbn [put_uvarint]. destruct (Z.leb_spec 128 x) as [Hge|Hlt].
  - cbn [app uvarint_loop length]. rewrite byte_to_of_Z, u8_id.
    2:{ pose proof (varint_byte_range x). lia. }
    assert (i <> 9) by (intros ->; change (2 ^ (64 - 7 * 9)) with 2 in Hx; lia).
    unfold MaxVarintLen64. rewrite (proj2 (Z.eqb_neq i 10)) by lia.
    rewrite (proj2 (Z.ltb_ge _ _)) by (pose proof (varint_byte_range x); lia).
    rewrite varint_byte_low. rewrite Z.shiftr_div_pow2 by lia. change (2 ^ 7) with 128.
    pose proof (Z.mod_pos_bound x 128 ltac:(lia)). pose proof (Z.mod_le x 128 ltac:(lia) ltac:(lia)).
    rewrite u64_id by (rewrite Z.shiftl_mul_pow2 by lia; nia).
    rewrite lor_shiftl_add by lia. rewrite Z.shiftl_mul_pow2 by lia.
    replace (7 * i + 7) with (7 * (i + 1)) by lia.
    rewrite IH; try lia.
    + f_equal; [|lia]. replace (7 * (i + 1)) with (7 * i + 7) by lia.
      rewrite Z.pow_add_r by lia. change (2 ^ 7) with 128.
      rewrite (Z.div_mod x 128) at 3 by lia. ring.
    + replace (7 * (i + 1)) with (7 * i + 7) by lia.
      rewrite Z.pow_add_r by lia. change (2 ^ 7) with 128. nia.
    + split; [apply Z.div_pos; lia|]. apply Z.div_lt_upper_bound; [lia|].
      change 128 with (2 ^ 7). rewrite <- Z.pow_add_r by lia.
      replace (7 + (64 - 7 * (i + 1))) with (64 - 7 * i) by lia. lia.
  - cbn [app uvarint_loop length]. rewrite byte_to_of_Z, u8_id by lia.
    unfold MaxVarintLen64. rewrite (proj2 (Z.eqb_neq i 10)) by lia.
    rewrite (proj2 (Z.ltb_lt _ _)) by lia.
    replace ((i =? 10 - 1) && (1 <? x)) with false.
    2:{ symmetry. apply andb_false_iff. destruct (Z.eqb_spec i (10 - 1)) as [->|]; [|auto].
        right. apply Z.ltb_ge. change (2 ^ (64 - 7 * (10 - 1))) with 2 in Hx. lia. }
    rewrite u64_id by (rewrite Z.shiftl_mul_pow2 by lia; nia).
    rewrite lor_shiftl_add by lia. rewrite Z.shiftl_mul_pow2 by lia. done.
Qed.

(** Decoding what was encoded, whatever follows it. *)
Lemma Uvarint_Put x rest :
  0 <= x < 2 ^ 64 ->
  Uvarint (PutUvarint x ++ rest) = (x, Z.of_nat (length (PutUvarint x))).
Proof.
  intros H. unfold Uvarint, PutUvarint. change 0 with (7 * 0) at 3.
  rewrite uvarint_loop_put by (simpl; lia). f_equal; simpl; lia.
Qed.

Lemma PutUvarint_pos x : (0 < length (PutUvarint x))%nat.
Proof.
  unfold PutUvarint. generalize 9%nat as m. intros m. cbn [put_uvarint].
  destruct (128 <=? x); apply Nat.lt_0_succ.
Qed.

(** [PutVarint] through the zig-zag map. *)
Definition zigzag (x : Z) : Z :=
  let ux := u64 (Z.shiftl x 1) in if x <? 0 then u64 (Z.lnot ux) else ux.

Lemma PutVarint_zigzag x : PutVarint x = PutUvarint (zigzag x).
Proof. reflexivity. Qed.

#[global] Opaque PutUvarint PutVarint.
Arguments PutUint32 : simpl never.
Arguments PutUint64 : simpl never.
Arguments le_bytes : simpl never.
Arguments le_val : simpl never.
