(* ===== verification/Sha256.v ===== *)
(** * Go's [crypto/sha256]

    SHA-256 (FIPS 180-4), executable, on lists of bytes.  The storage theorems
    use only that a digest has 32 bytes; the test vectors tie the definition
    to the standard. *)

From S2P Require Import Prelude.

Module Sha256.

Definition add32 (a b : Z) : Z := u32 (a + b).

Definition rotr (x n : Z) : Z := Z.lor (Z.shiftr x n) (u32 (Z.shiftl x (32 - n))).

Definition bsig0 (x : Z) : Z := Z.lxor (rotr x 2) (Z.lxor (rotr x 13) (rotr x 22)).
Definition bsig1 (x : Z) : Z := Z.lxor (rotr x 6) (Z.lxor (rotr x 11) (rotr x 25)).
Definition ssig0 (x : Z) : Z := Z.lxor (rotr x 7) (Z.lxor (rotr x 18) (Z.shiftr x 3)).
Definition ssig1 (x : Z) : Z := Z.lxor (rotr x 17) (Z.lxor (rotr x 19) (Z.shiftr x 10)).
Definition ch (x y z : Z) : Z := Z.lxor (Z.land x y) (Z.land (Z.lxor x MaxUint32) z).
Definition maj (x y z : Z) : Z :=
  Z.lxor (Z.land x y) (Z.lxor (Z.land x z) (Z.land y z)).

(** The round constants and the initial state. *)
Definition K : list Z :=
  [1116352408; 1899447441; 3049323471; 3921009573; 961987163; 1508970993;
   2453635748; 2870763221; 3624381080; 310598401; 607225278; 1426881987;
   1925078388; 2162078206; 2614888103; 3248222580; 3835390401; 4022224774;
   264347078; 604807628; 770255983; 1249150122; 1555081692; 1996064986;
   2554220882; 2821834349; 2952996808; 3210313671; 3336571891; 3584528711;
   113926993; 338241895; 666307205; 773529912; 1294757372; 1396182291;
   1695183700; 1986661051; 2177026350; 2456956037; 2730485921; 2820302411;
   3259730800; 3345764771; 3516065817; 3600352804; 4094571909; 275423344;
   430227734; 506948616; 659060556; 883997877; 958139571; 1322822218;
   1537002063; 1747873779; 1955562222; 2024104815; 2227730452; 2361852424;
   2428436474; 2756734187; 3204031479; 3329325298].

Record state := mkState { sa : Z; sb : Z; sc : Z; sd : Z; se : Z; sf : Z; sg : Z; sh : Z }.

Definition H0 : state :=
  mkState 1779033703 3144134277 1013904242 2773480762 1359893119 2600822924 528734635 1541459225.

(** Big-endian words. *)
Definition be32 (z : Z) : bytes :=
  [byte_of_Z (Z.shiftr z 24); byte_of_Z (Z.shiftr z 16); byte_of_Z (Z.shiftr z 8); byte_of_Z z].

Definition be64 (z : Z) : bytes := be32 (u32 (Z.shiftr z 32)) ++ be32 (u32 z).

Fixpoint words (b : bytes) : list Z :=
  match b with
  | b0 :: b1 :: b2 :: b3 :: b =>
      (Z.shiftl (byte_to_Z b0) 24 + Z.shiftl (byte_to_Z b1) 16 +
       Z.shiftl (byte_to_Z b2) 8 + byte_to_Z b3) :: words b
  | _ => []
  end.

(** Message, one 1 bit, zeros, and the bit length, a multiple of 64 bytes. *)
Definition pad (m : bytes) : bytes :=
  let len := Z.of_nat (length m) in
  m ++ [Byte.x80] ++ replicate (Z.to_nat ((55 - len) mod 64)) Byte.x00 ++ be64 (u64 (8 * len)).

(** The message schedule, newest word first. *)
Fixpoint schedule (n : nat) (ws : list Z) : list Z :=
  match n with
  | O => ws
  | S n =>
      let w := add32 (add32 (ssig1 (nth 1 ws 0)) (nth 6 ws 0))
                     (add32 (ssig0 (nth 14 ws 0)) (nth 15 ws 0)) in
      schedule n (w :: ws)
  end.

Definition round (s : state) (kw : Z * Z) : state :=
  let '(k, w) := kw in
  let t1 := add32 (add32 (sh s) (bsig1 (se s)))
                  (add32 (ch (se s) (sf s) (sg s)) (add32 k w)) in
  let t2 := add32 (bsig0 (sa s)) (maj (sa s) (sb s) (sc s)) in
  mkState (add32 t1 t2) (sa s) (sb s) (sc s) (add32 (sd s) t1) (se s) (sf s) (sg s).

Definition block (s : state) (ws : list Z) : state :=
  let r := fold_left round (combine K (rev (schedule 48 (rev ws)))) s in
  mkState (add32 (sa s) (sa r)) (add32 (sb s) (sb r)) (add32 (sc s) (sc r))
          (add32 (sd s) (sd r)) (add32 (se s) (se r)) (add32 (sf s) (sf r))
          (add32 (sg s) (sg r)) (add32 (sh s) (sh r)).

Fixpoint blocks (n : nat) (s : state) (ws : list Z) : state :=
  match n with
  | O => s
  | S n => blocks n (block s (take 16 ws)) (drop 16 ws)
  end.

Definition digest (s : state) : bytes :=
  be32 (sa s) ++ be32 (sb s) ++ be32 (sc s) ++ be32 (sd s) ++
  be32 (se s) ++ be32 (sf s) ++ be32 (sg s) ++ be32 (sh s).

Definition Sum256 (m : bytes) : bytes :=
  let p := pad m in
  digest (blocks (length p / 64) H0 (words p)).

Definition Size : Z := 32.

Lemma length_Sum256 m : length (Sum256 m) = 32%nat.
Proof. reflexivity. Qed.

End Sha256.

Example Sum256_empty : Sha256.Sum256 [] =
  [Byte.xe3; Byte.xb0; Byte.xc4; Byte.x42; Byte.x98; Byte.xfc; Byte.x1c; Byte.x14; Byte.x9a; Byte.xfb; Byte.xf4; Byte.xc8; Byte.x99; Byte.x6f; Byte.xb9; Byte.x24; Byte.x27; Byte.xae; Byte.x41; Byte.xe4; Byte.x64; Byte.x9b; Byte.x93; Byte.x4c; Byte.xa4; Byte.x95; Byte.x99; Byte.x1b; Byte.x78; Byte.x52; Byte.xb8; Byte.x55].
Proof. vm_compute. reflexivity. Qed.

Example Sum256_abc : Sha256.Sum256 [Byte.x61; Byte.x62; Byte.x63] =
  [Byte.xba; Byte.x78; Byte.x16; Byte.xbf; Byte.x8f; Byte.x01; Byte.xcf; Byte.xea; Byte.x41; Byte.x41; Byte.x40; Byte.xde; Byte.x5d; Byte.xae; Byte.x22; Byte.x23; Byte.xb0; Byte.x03; Byte.x61; Byte.xa3; Byte.x96; Byte.x17; Byte.x7a; Byte.x9c; Byte.xb4; Byte.x10; Byte.xff; Byte.x61; Byte.xf2; Byte.x00; Byte.x15; Byte.xad].
Proof. vm_compute. reflexivity. Qed.

Example Sum256_two_blocks : Sha256.Sum256 (replicate 60 Byte.x61) =
  [Byte.x11; Byte.xee; Byte.x39; Byte.x12; Byte.x11; Byte.xc6; Byte.x25; Byte.x64; Byte.x60; Byte.xb6; Byte.xed; Byte.x37; Byte.x59; Byte.x57; Byte.xfa; Byte.xdd; Byte.x80; Byte.x61; Byte.xca; Byte.xfb; Byte.xb3; Byte.x1d; Byte.xaf; Byte.x96; Byte.x7d; Byte.xb8; Byte.x75; Byte.xae; Byte.xbd; Byte.x5a; Byte.xaa; Byte.xd4].
Proof. vm_compute. reflexivity. Qed.

#[global] Opaque Sha256.Sum256.
