(* ===== verification/Node.v ===== *)
(** * The AVL tree of [memiavl/node.go] and [memiavl/mem_node.go]

    The value-level reading of the [Node] interface: a [Node] here is what a
    [*MemNode] or a [PersistedNode] denotes when it is read through the
    interface.  The stored fields ([height], [size], [version], [key]) are
    kept as fields, with the wrap-around of their Go types, and a
    nil dereference is the result [None].  Nodes are values: the in-place
    mutation of nodes younger than the copy-on-write version is not visible
    here but in file [CowHeap].  File [Persisted] shows that an on-disk node denotes such a value. *)

From S2P Require Import Prelude KV.

Inductive Node : Type :=
| Leaf (version : Z) (key value : bytes)
| Branch (height size version : Z) (key : bytes) (left right : Node).

(** ** Accessors of the interface *)

Definition Height (n : Node) : Z :=
  match n with Leaf _ _ _ => 0 | Branch h _ _ _ _ _ => h end.

Definition IsLeaf (n : Node) : bool :=
  match n with Leaf _ _ _ => true | Branch _ _ _ _ _ _ => false end.

Definition Size (n : Node) : Z :=
  match n with Leaf _ _ _ => 1 | Branch _ s _ _ _ _ => s end.

Definition Version (n : Node) : Z :=
  match n with Leaf v _ _ => v | Branch _ _ v _ _ _ => v end.

Definition Key (n : Node) : bytes :=
  match n with Leaf _ k _ => k | Branch _ _ _ k _ _ => k end.

(** [nil] for a branch. *)
Definition Value (n : Node) : option bytes :=
  match n with Leaf _ _ v => Some v | Branch _ _ _ _ _ _ => None end.

Definition Left (n : Node) : option Node :=
  match n with Leaf _ _ _ => None | Branch _ _ _ _ l _ => Some l end.

Definition Right (n : Node) : option Node :=
  match n with Leaf _ _ _ => None | Branch _ _ _ _ _ r => Some r end.

Definition newLeafNode (key value : bytes) (version : Z) : Node :=
  Leaf version key value.

(** The clone-or-modify of [Mutate]: as a value, the same node at [version]. *)
Definition Mutate (version : Z) (n : Node) : Node :=
  match n with
  | Leaf _ k v => Leaf version k v
  | Branch h s _ k l r => Branch h s version k l r
  end.

(** ** Balancing *)

Definition updateHeightSize (n : Node) : option Node :=
  match n with
  | Leaf _ _ _ => None
  | Branch _ _ v k l r =>
      Some (Branch (u8 (Z.max (Height l) (Height r) + 1))
                   (i64 (Size l + Size r)) v k l r)
  end.

Definition calcBalance (n : Node) : option Z :=
  match n with
  | Leaf _ _ _ => None
  | Branch _ _ _ _ l r => Some (Height l - Height r)
  end.

(** The assignments to [node.left] and [node.right] of a mutable node. *)
Definition setLeft (n l : Node) : option Node :=
  match n with
  | Leaf _ _ _ => None
  | Branch h s v k _ r => Some (Branch h s v k l r)
  end.

Definition setRight (n r : Node) : option Node :=
  match n with
  | Leaf _ _ _ => None
  | Branch h s v k l _ => Some (Branch h s v k l r)
  end.

Definition rotateRight (version : Z) (node : Node) : option Node :=
  l ← Left node;
  lr ← Right l;
  node ← setLeft node lr;
  node ← updateHeightSize node;
  newSelf ← setRight (Mutate version l) node;
  updateHeightSize newSelf.

Definition rotateLeft (version : Z) (node : Node) : option Node :=
  r ← Right node;
  rl ← Left r;
  node ← setRight node rl;
  node ← updateHeightSize node;
  newSelf ← setLeft (Mutate version r) node;
  updateHeightSize newSelf.

Definition reBalance (version : Z) (node : Node) : option Node :=
  balance ← calcBalance node;
  if 1 <? balance then
    l ← Left node;
    leftBalance ← calcBalance l;
    if 0 <=? leftBalance then rotateRight version node
    else
      l ← rotateLeft version (Mutate version l);
      node ← setLeft node l;
      rotateRight version node
  else if balance <? -1 then
    r ← Right node;
    rightBalance ← calcBalance r;
    if rightBalance <=? 0 then rotateLeft version node
    else
      r ← rotateRight version (Mutate version r);
      node ← setRight node r;
      rotateLeft version node
  else Some node.

(** ** Insertion *)

(** [setRecursive] on a non-nil node; the flag says that the key was there. *)
Fixpoint setNode (node : Node) (key value : bytes) (version : Z)
    : option (Node * bool) :=
  match node with
  | Leaf v nodeKey _ =>
      match bytes_compare key nodeKey with
      | Lt => Some (Branch 1 2 version nodeKey (newLeafNode key value version) node, false)
      | Gt => Some (Branch 1 2 version key node (newLeafNode key value version), false)
      | Eq => Some (Leaf version nodeKey value, true)
      end
  | Branch h s _ nodeKey l r =>
      '(newNode, updated) ←
        (if bytes_ltb key nodeKey then
           '(newChild, updated) ← setNode l key value version;
           Some (Branch h s version nodeKey newChild r, updated)
         else
           '(newChild, updated) ← setNode r key value version;
           Some (Branch h s version nodeKey l newChild, updated));
      if (updated : bool) then Some (newNode, updated)
      else
        newNode ← updateHeightSize newNode;
        newNode ← reBalance version newNode;
        Some (newNode, updated)
  end.

Definition setRecursive (node : option Node) (key value : bytes) (version : Z)
    : option (Node * bool) :=
  match node with
  | None => Some (newLeafNode key value version, true)
  | Some n => setNode n key value version
  end.

(** ** Deletion *)

(** [removeRecursive] on a non-nil node: [(value, newNode, newKey)], with [None]
    for the nils; [value = None] is "key not found, nothing changed". *)
Fixpoint removeNode (node : Node) (key : bytes) (version : Z)
    : option (option bytes * option Node * option bytes) :=
  match node with
  | Leaf _ nodeKey value =>
      if bytes_eqb nodeKey key then Some (Some value, None, None)
      else Some (None, Some node, None)
  | Branch h s _ nodeKey l r =>
      if bytes_ltb key nodeKey then
        '(value, newLeft, newKey) ← removeNode l key version;
        match value, newLeft with
        | None, _ => Some (None, Some node, None)
        | Some _, None => Some (value, Some r, Some nodeKey)
        | Some _, Some newLeft =>
            newNode ← updateHeightSize (Branch h s version nodeKey newLeft r);
            newNode ← reBalance version newNode;
            Some (value, Some newNode, newKey)
        end
      else
        '(value, newRight, newKey) ← removeNode r key version;
        match value, newRight with
        | None, _ => Some (None, Some node, None)
        | Some _, None => Some (value, Some l, None)
        | Some _, Some newRight =>
            newNode ← updateHeightSize
              (Branch h s version (default nodeKey newKey) l newRight);
            newNode ← reBalance version newNode;
            Some (value, Some newNode, None)
        end
  end.

Definition removeRecursive (node : option Node) (key : bytes) (version : Z)
    : option (option bytes * option Node * option bytes) :=
  match node with
  | None => Some (None, None, None)
  | Some n => removeNode n key version
  end.

(** ** Lookup *)

(** [MemNode.Get]: the value and the index, a [uint32]. *)
Fixpoint Get (node : Node) (key : bytes) : option bytes * Z :=
  match node with
  | Leaf _ nodeKey value =>
      match bytes_compare nodeKey key with
      | Lt => (None, 1)
      | Gt => (None, 0)
      | Eq => (Some value, 0)
      end
  | Branch _ s _ nodeKey l r =>
      if bytes_ltb key nodeKey then Get l key
      else
        let '(value, index) := Get r key in
        (value, u32 (u32 (index + u32 s) - u32 (Size r)))
  end.

(** [MemNode.GetByIndex]; [None] is the pair of nils. *)
Fixpoint GetByIndex (node : Node) (index : Z) : option (bytes * bytes) :=
  match node with
  | Leaf _ key value => if index =? 0 then Some (key, value) else None
  | Branch _ _ _ _ l r =>
      let leftSize := u32 (Size l) in
      if index <? leftSize then GetByIndex l index
      else GetByIndex r (u32 (index - leftSize))
  end.

(** ** Abstraction and invariant *)

(** The content of a tree: its leaves in order. *)
Fixpoint to_list (n : Node) : kvs :=
  match n with
  | Leaf _ k v => [(k, v)]
  | Branch _ _ _ _ l r => to_list l ++ to_list r
  end.

Definition content (n : option Node) : kvs :=
  match n with None => [] | Some n => to_list n end.

(** Cached heights and sizes are right and every branch is balanced. *)
Fixpoint avl (n : Node) : Prop :=
  match n with
  | Leaf _ _ _ => True
  | Branch h s _ _ l r =>
      avl l /\ avl r /\ h = Z.max (Height l) (Height r) + 1 /\
      s = Size l + Size r /\ -1 <= Height l - Height r <= 1
  end.

(** A branch's key is the smallest key of its right subtree. *)
Fixpoint keyed (n : Node) : Prop :=
  match n with
  | Leaf _ _ _ => True
  | Branch _ _ _ k l r => keyed l /\ keyed r /\ head (keys (to_list r)) = Some k
  end.

Definition wf (n : Node) : Prop := avl n /\ keyed n /\ kv_sorted (to_list n).

Definition wf_root (n : option Node) : Prop :=
  match n with None => True | Some n => wf n end.

(** The number of nodes, the fuel of the traversals. *)
Fixpoint nodeCount (n : Node) : nat :=
  match n with
  | Leaf _ _ _ => 1
  | Branch _ _ _ _ l r => S (nodeCount l + nodeCount r)
  end.

Lemma nodeCount_pos n : (0 < nodeCount n)%nat.
Proof. destruct n; simpl; lia. Qed.

(** ** Basic facts *)

Lemma avl_pos n : avl n -> 0 <= Height n /\ 0 < Size n.
Proof.
  induction n as [|h s v k l IHl r IHr]; simpl; [lia|].
  intros (Hl & Hr & -> & -> & _). apply IHl in Hl. apply IHr in Hr. lia.
Qed.

Lemma avl_size n : avl n -> Size n = Z.of_nat (length (to_list n)).
Proof.
  induction n as [|h s v k l IHl r IHr]; simpl; [done|].
  intros (Hl & Hr & _ & -> & _). rewrite length_app, IHl, IHr by done. lia.
Qed.

(** An AVL tree is shallow: [2 ^ (height / 2) <= size]. *)
Lemma avl_height_size n : avl n -> 2 ^ (Height n / 2) <= Size n.
Proof.
  induction n as [|h s v k l IHl r IHr]; [done|].
  intros (Hl & Hr & Hh & Hs & Hb). cbn [Height Size]. subst.
  pose proof (avl_pos _ Hl). pose proof (avl_pos _ Hr).
  remember (Z.max (Height l) (Height r)) as m eqn:Em.
  destruct (decide (m = 0)) as [E0|]; [rewrite E0; change (2 ^ ((0 + 1) / 2)) with 1; lia|].
  assert (forall t, avl t -> 2 ^ (Height t / 2) <= Size t -> m - 1 <= Height t ->
    2 ^ ((m - 1) / 2) <= Size t) as Hmono.
  { intros t Ht IH Hm. etransitivity; [|exact IH]. apply Z.pow_le_mono_r; [lia|].
    apply Z.div_le_mono; lia. }
  assert (2 ^ ((m - 1) / 2) <= Size l) by (apply Hmono; auto; lia).
  assert (2 ^ ((m - 1) / 2) <= Size r) by (apply Hmono; auto; lia).
  replace (m + 1) with (m - 1 + 1 * 2) by lia. rewrite Z.div_add by lia.
  rewrite Z.pow_add_r by first [lia | apply Z.div_pos; lia]. change (2 ^ 1) with 2. lia.
Qed.

(** Trees of fewer than [2 ^ 63] leaves have height at most 125, so the
    [uint8] height never wraps. *)
Lemma avl_height_bound n : avl n -> Size n < 2 ^ 63 -> Height n <= 125.
Proof.
  intros Ha Hs. pose proof (avl_height_size _ Ha). pose proof (avl_pos _ Ha).
  assert (Height n / 2 < 63) as Hlt.
  { apply (Z.pow_lt_mono_r_iff 2); lia. }
  pose proof (Z.mul_div_le (Height n) 2). pose proof (Z.mod_pos_bound (Height n) 2).
  pose proof (Z.div_mod (Height n) 2). lia.
Qed.

Lemma to_list_nonempty n : to_list n <> [].
Proof. induction n; simpl; [done|]. intros [? ?]%app_nil. done. Qed.

Lemma head_keys_app l1 l2 :
  l1 <> [] -> head (keys (l1 ++ l2)) = head (keys l1).
Proof. by destruct l1. Qed.

Lemma Key_Mutate v n : Key (Mutate v n) = Key n.
Proof. by destruct n. Qed.

Lemma Height_Mutate v n : Height (Mutate v n) = Height n.
Proof. by destruct n. Qed.

Lemma Size_Mutate v n : Size (Mutate v n) = Size n.
Proof. by destruct n. Qed.

Lemma to_list_Mutate v n : to_list (Mutate v n) = to_list n.
Proof. by destruct n. Qed.

(** ** Balancing is correct *)

(** The cached fields fit their Go types. *)
Definition fits (n : Node) : Prop := 0 <= Height n < 200 /\ 0 < Size n.

Lemma fits_of_avl n : avl n -> Size n < 2 ^ 63 -> fits n.
Proof.
  intros Ha Hs. pose proof (avl_height_bound _ Ha Hs).
  pose proof (avl_pos _ Ha). unfold fits. lia.
Qed.

(** A branch with right cached fields, before balancing. *)
Definition mkBranch (v : Z) (k : bytes) (l r : Node) : Node :=
  Branch (Z.max (Height l) (Height r) + 1) (Size l + Size r) v k l r.

Lemma updateHeightSize_mk h s v k l r :
  fits l -> fits r -> Size l + Size r < 2 ^ 63 ->
  updateHeightSize (Branch h s v k l r) = Some (mkBranch v k l r).
Proof.
  intros [? ?] [? ?] ?. simpl. rewrite u8_id, i64_id by lia. done.
Qed.

Lemma fits_mkBranch v k l r :
  fits l -> fits r -> Z.max (Height l) (Height r) < 199 -> fits (mkBranch v k l r).
Proof. unfold fits, mkBranch; simpl. lia. Qed.

Lemma rotateRight_mk version h s v k lh ls lv lk ll lr r :
  fits ll -> fits lr -> fits r ->
  Z.max (Height lr) (Height r) < 199 -> Size ll + Size lr + Size r < 2 ^ 63 ->
  rotateRight version (Branch h s v k (Branch lh ls lv lk ll lr) r) =
  Some (mkBranch version lk ll (mkBranch v k lr r)).
Proof.
  intros Fll Flr Fr Hh Hs. pose proof Fll. pose proof Flr. pose proof Fr.
  unfold fits in *. unfold rotateRight. cbn [Left Right setLeft mbind option_bind].
  rewrite updateHeightSize_mk by (unfold fits; lia).
  cbn [Mutate setRight mbind option_bind].
  apply updateHeightSize_mk; [done| |simpl; lia].
  apply fits_mkBranch; done.
Qed.

Lemma rotateLeft_mk version h s v k l rh rs rv rk rl rr :
  fits l -> fits rl -> fits rr ->
  Z.max (Height l) (Height rl) < 199 -> Size l + Size rl + Size rr < 2 ^ 63 ->
  rotateLeft version (Branch h s v k l (Branch rh rs rv rk rl rr)) =
  Some (mkBranch version rk (mkBranch v k l rl) rr).
Proof.
  intros Fl Frl Frr Hh Hs. pose proof Fl. pose proof Frl. pose proof Frr.
  unfold fits in *. unfold rotateLeft. cbn [Left Right setRight mbind option_bind].
  rewrite updateHeightSize_mk by (unfold fits; lia).
  cbn [Mutate setLeft mbind option_bind].
  apply updateHeightSize_mk; [|done|simpl; lia].
  apply fits_mkBranch; done.
Qed.

(** What [reBalance] promises: never a nil dereference, the content and the key
    discipline kept, a balanced tree of nearly the same height. *)
Definition rebalanced (n n' : Node) : Prop :=
  avl n' /\ to_list n' = to_list n /\ (keyed n -> keyed n') /\ Size n' = Size n /\
  Height n - 1 <= Height n' <= Height n.

(** The height analysis of the four rotation cases. *)
Ltac solve_rebalanced :=
  unfold rebalanced, mkBranch in *; cbn [Height Size avl keyed to_list] in *;
  rewrite <- ?app_assoc in *; rewrite ?head_keys_app in * by apply to_list_nonempty;
  repeat split; try done; try tauto; lia.

Lemma reBalance_left version v k l r :
  avl l -> avl r -> Height l = Height r + 2 -> Height l <= 125 ->
  Size l + Size r < 2 ^ 63 ->
  exists n', reBalance version (mkBranch v k l r) = Some n' /\
    rebalanced (mkBranch v k l r) n'.
Proof.
  intros Al Ar Hb Hh Hs. pose proof (avl_pos _ Ar).
  unfold reBalance, mkBranch. cbn [calcBalance mbind option_bind].
  rewrite (proj2 (Z.ltb_lt _ _)) by lia. cbn [Left mbind option_bind].
  destruct l as [lv lk lval|lh ls lv lk ll lr]; [simpl in *; lia|].
  destruct Al as (All & Alr & Elh & Els & Hlb). cbn [Height Size] in *.
  pose proof (avl_pos _ All). pose proof (avl_pos _ Alr).
  cbn [calcBalance mbind option_bind].
  destruct (Z.leb_spec 0 (Height ll - Height lr)).
  - rewrite rotateRight_mk by (unfold fits; lia).
    eexists; split; [reflexivity|]. solve_rebalanced.
  - destruct lr as [|lrh lrs lrv lrk lrl lrr]; [simpl in *; lia|].
    destruct Alr as (Alrl & Alrr & Elrh & Elrs & Hlrb). cbn [Height Size] in *.
    pose proof (avl_pos _ Alrl). pose proof (avl_pos _ Alrr).
    cbn [Mutate]. rewrite rotateLeft_mk by (unfold fits; lia).
    cbn [mbind option_bind setLeft]. unfold mkBranch at 1.
    rewrite rotateRight_mk by (unfold fits, mkBranch; cbn [Height Size]; lia).
    eexists; split; [reflexivity|]. solve_rebalanced.
Qed.

Lemma reBalance_right version v k l r :
  avl l -> avl r -> Height r = Height l + 2 -> Height r <= 125 ->
  Size l + Size r < 2 ^ 63 ->
  exists n', reBalance version (mkBranch v k l r) = Some n' /\
    rebalanced (mkBranch v k l r) n'.
Proof.
  intros Al Ar Hb Hh Hs. pose proof (avl_pos _ Al).
  unfold reBalance, mkBranch. cbn [calcBalance mbind option_bind].
  rewrite (proj2 (Z.ltb_ge _ _)), (proj2 (Z.ltb_lt _ _)) by lia.
  cbn [Right mbind option_bind].
  destruct r as [rv rk rval|rh rs rv rk rl rr]; [simpl in *; lia|].
  destruct Ar as (Arl & Arr & Erh & Ers & Hrb). cbn [Height Size] in *.
  pose proof (avl_pos _ Arl). pose proof (avl_pos _ Arr).
  cbn [calcBalance mbind option_bind].
  destruct (Z.leb_spec (Height rl - Height rr) 0).
  - rewrite rotateLeft_mk by (unfold fits; lia).
    eexists; split; [reflexivity|]. solve_rebalanced.
  - destruct rl as [|rlh rls rlv rlk rll rlr]; [simpl in *; lia|].
    destruct Arl as (Arll & Arlr & Erlh & Erls & Hrlb). cbn [Height Size] in *.
    pose proof (avl_pos _ Arll). pose proof (avl_pos _ Arlr).
    cbn [Mutate]. rewrite rotateRight_mk by (unfold fits; lia).
    cbn [mbind option_bind setRight]. unfold mkBranch at 1.
    rewrite rotateLeft_mk by (unfold fits, mkBranch; cbn [Height Size]; lia).
    eexists; split; [reflexivity|]. solve_rebalanced.
Qed.

Lemma reBalance_id version v k l r :
  -1 <= Height l - Height r <= 1 ->
  reBalance version (mkBranch v k l r) = Some (mkBranch v k l r).
Proof.
  intros Hb. unfold reBalance, mkBranch. cbn [calcBalance mbind option_bind].
  by rewrite !(proj2 (Z.ltb_ge _ _)) by lia.
Qed.

Lemma reBalance_correct version v k l r :
  avl l -> avl r -> -2 <= Height l - Height r <= 2 ->
  Size l + Size r < 2 ^ 63 ->
  exists n', reBalance version (mkBranch v k l r) = Some n' /\
    rebalanced (mkBranch v k l r) n' /\
    (-1 <= Height l - Height r <= 1 -> n' = mkBranch v k l r).
Proof.
  intros Al Ar Hb Hs.
  pose proof (avl_pos _ Al). pose proof (avl_pos _ Ar).
  pose proof (avl_height_bound _ Al ltac:(lia)).
  pose proof (avl_height_bound _ Ar ltac:(lia)).
  destruct (decide (Height l = Height r + 2)); [|destruct (decide (Height r = Height l + 2))].
  - destruct (reBalance_left version v k l r) as (n' & ? & ?); auto; [].
    exists n'. split; [done|]. split; [done|lia].
  - destruct (reBalance_right version v k l r) as (n' & ? & ?); auto; [].
    exists n'. split; [done|]. split; [done|lia].
  - eexists. split; [apply reBalance_id; lia|]. split; [|done].
    unfold rebalanced, mkBranch. simpl. repeat split; try done; try tauto; lia.
Qed.

(** ** Insertion is correct *)

(** The search-tree reading of [wf] at a branch. *)
Lemma wf_branch h s v k l r :
  wf (Branch h s v k l r) ->
  wf l /\ wf r /\ avl (Branch h s v k l r) /\ head (keys (to_list r)) = Some k /\
  (forall x, x ∈ keys (to_list l) -> x <b k) /\
  (forall y, y ∈ keys (to_list r) -> k <=b y).
Proof.
  intros (Ha & (Kl & Kr & Hk) & Hsort). simpl in Hsort.
  apply kv_sorted_app in Hsort as (Sl & Sr & Hlr).
  pose proof Ha as (Al & Ar & _).
  split_and!; try done.
  - intros x Hx. apply Hlr; [done|]. by apply head_keys_elem.
  - intros y. by apply kv_head_le.
Qed.

Definition set_post (node : Node) (key value : bytes) (node' : Node) (updated : bool) : Prop :=
  avl node' /\ keyed node' /\
  to_list node' = kv_set key value (to_list node) /\
  updated = bool_decide (key ∈ keys (to_list node)) /\
  Height node <= Height node' <= Height node + 1 /\
  (updated = true -> Height node' = Height node).

Lemma set_post_size node key value node' updated :
  wf node -> set_post node key value node' updated ->
  Size node' = Size node + (if updated then 0 else 1).
Proof.
  intros (Ha & _ & Hs) (Ha' & _ & E & -> & _).
  rewrite (avl_size _ Ha), (avl_size _ Ha'), E. by apply kv_set_length.
Qed.

Lemma set_post_wf node key value node' updated :
  wf node -> set_post node key value node' updated -> wf node'.
Proof.
  intros (_ & _ & Hs) (Ha' & Hk' & E & _). split_and!; try done.
  rewrite E. by apply kv_set_sorted.
Qed.

(** The common end of both descents: rebuild, rebalance, or keep the branch. *)
Lemma set_finish version h s v k l r l' r' updated lst :
  avl (Branch h s v k l r) -> keyed (mkBranch version k l' r') -> avl l' -> avl r' ->
  Height l <= Height l' <= Height l + 1 -> Height r <= Height r' <= Height r + 1 ->
  (Height l' = Height l \/ Height r' = Height r) ->
  (updated = true -> Height l' = Height l /\ Height r' = Height r /\ Size l' + Size r' = s) ->
  Size l' + Size r' < 2 ^ 63 ->
  to_list l' ++ to_list r' = lst ->
  exists node',
    (if updated then Some (Branch h s version k l' r', updated)
     else newNode ← updateHeightSize (Branch h s version k l' r');
          newNode ← reBalance version newNode; Some (newNode, updated))
    = Some (node', updated) /\
    avl node' /\ keyed node' /\ to_list node' = lst /\
    h <= Height node' <= h + 1 /\ (updated = true -> Height node' = h).
Proof.
  intros (Al & Ar & Eh & Es & Hb) Hk Al' Ar' Hl Hr Hone Hupd Hs <-.
  pose proof (avl_pos _ Al'). pose proof (avl_pos _ Ar').
  destruct updated.
  - destruct (Hupd eq_refl) as (El & Er & E). eexists. split; [reflexivity|].
    simpl in *. split_and!; try tauto; try done; lia.
  - rewrite updateHeightSize_mk by first [apply fits_of_avl; [done|lia] | lia].
    cbn [mbind option_bind].
    destruct (reBalance_correct version version k l' r') as (n' & E & (R1&R2&R3&R4&R5) & Hid);
      [done|done|lia|lia|].
    rewrite E. exists n'. split; [done|]. split_and!; auto; try done.
    + destruct (decide (-1 <= Height l' - Height r' <= 1)) as [Hd|Hd].
      * rewrite (Hid Hd). simpl. lia.
      * simpl in R5. lia.
    + destruct (decide (-1 <= Height l' - Height r' <= 1)) as [Hd|Hd].
      * rewrite (Hid Hd). simpl. lia.
      * simpl in R5. lia.
Qed.

Lemma setNode_correct node key value version :
  wf node -> Size node < 2 ^ 63 - 1 ->
  exists node' updated,
    setNode node key value version = Some (node', updated) /\
    set_post node key value node' updated.
Proof.
  induction node as [v k val|h s v k l IHl r IHr]; intros Hwf Hsz.
  - cbn [setNode]. unfold set_post. destruct (bytes_compare_spec key k) as [->|Hlt|Hlt].
    + do 2 eexists. split; [reflexivity|]. cbn.
      rewrite bytes_compare_refl. rewrite bool_decide_true by set_solver.
      split_and!; try done; lia.
    + do 2 eexists. split; [reflexivity|]. cbn. rewrite Hlt.
      rewrite bool_decide_false; [split_and!; try done; lia|].
      intros ->%list_elem_of_singleton. by apply bytes_lt_irrefl in Hlt.
    + do 2 eexists. split; [reflexivity|]. cbn.
      rewrite (proj2 (bytes_compare_gt key k) Hlt).
      rewrite bool_decide_false; [split_and!; try done; lia|].
      intros ->%list_elem_of_singleton. by apply bytes_lt_irrefl in Hlt.
  - pose proof (wf_branch _ _ _ _ _ _ Hwf) as (Wl & Wr & Ha & Hk & Hlk & Hrk).
    pose proof Ha as (Al & Ar & Eh & Es & Hb). cbn [Size] in Hsz.
    pose proof (avl_pos _ Al). pose proof (avl_pos _ Ar).
    cbn [setNode]. destruct (bytes_ltb_spec key k) as [Hlt|Hge].
    + destruct IHl as (l' & u & El & Hpost); [done|lia|].
      rewrite El. cbn [mbind option_bind].
      pose proof (set_post_size _ _ _ _ _ Wl Hpost) as Esz.
      destruct Hpost as (Al' & Kl' & Ell & Eu & Hh & Hu).
      destruct (set_finish version h s v k l r l' r u (kv_set key value (to_list l ++ to_list r)))
        as (n' & E & ? & ? & ? & ? & ?); try done; try lia.
      * simpl. split_and!; try done. apply Wr.
      * intros ->. rewrite Hu by done. lia.
      * destruct u; lia.
      * rewrite Ell. symmetry. apply kv_set_app_l. intros y Hy. specialize (Hrk y Hy). bytes_order.
      * exists n', u. split; [done|]. unfold set_post. cbn [Height]. split_and!; try done; try lia; [].
        rewrite Eu. apply bool_decide_ext. cbn [to_list]. rewrite keys_app, elem_of_app.
        split; [auto|]. intros [|Hin]; [done|]. specialize (Hrk _ Hin). exfalso. bytes_order.
    + destruct IHr as (r' & u & Er & Hpost); [done|lia|].
      rewrite Er. cbn [mbind option_bind].
      pose proof (set_post_size _ _ _ _ _ Wr Hpost) as Esz.
      destruct Hpost as (Ar' & Kr' & Err & Eu & Hh & Hu).
      destruct (set_finish version h s v k l r l r' u (kv_set key value (to_list l ++ to_list r)))
        as (n' & E & ? & ? & ? & ? & ?); try done; try lia.
      * simpl. split_and!; try done; [apply Wl|]. rewrite Err. by apply kv_set_head.
      * intros ->. rewrite Hu by done. lia.
      * destruct u; lia.
      * rewrite Err. symmetry. apply kv_set_app_r. intros x Hx. specialize (Hlk x Hx). bytes_order.
      * exists n', u. split; [done|]. unfold set_post. cbn [Height]. split_and!; try done; try lia; [].
        rewrite Eu. apply bool_decide_ext. cbn [to_list]. rewrite keys_app, elem_of_app.
        split; [auto|]. intros [Hin|]; [|done]. specialize (Hlk _ Hin). exfalso. bytes_order.
Qed.

(** ** Deletion is correct *)

Definition remove_post (node : Node) (key : bytes) (value : option bytes)
    (node' : option Node) (newKey : option bytes) : Prop :=
  value = kv_get key (to_list node) /\
  match value with
  | None => node' = Some node /\ newKey = None
  | Some _ =>
      content node' = kv_remove key (to_list node) /\
      match node' with
      | None => Height node = 0 /\ newKey = None
      | Some n' =>
          avl n' /\ keyed n' /\ Height node - 1 <= Height n' <= Height node /\
          head (keys (to_list n')) =
            match newKey with Some k => Some k | None => head (keys (to_list node)) end
      end
  end.

(** The common end of both descents of a deletion. *)
Lemma remove_finish version h s v k k' l r l' r' :
  avl (Branch h s v k l r) -> keyed (mkBranch version k' l' r') -> avl l' -> avl r' ->
  Height l - 1 <= Height l' <= Height l -> Height r - 1 <= Height r' <= Height r ->
  (Height l' = Height l \/ Height r' = Height r) ->
  Size l' + Size r' < 2 ^ 63 ->
  exists node' newNode,
    updateHeightSize (Branch h s version k' l' r') = Some newNode /\
    reBalance version newNode = Some node' /\
    avl node' /\ keyed node' /\ to_list node' = to_list l' ++ to_list r' /\
    h - 1 <= Height node' <= h.
Proof.
  intros (Al & Ar & Eh & Es & Hb) Hk Al' Ar' Hl Hr Hone Hs.
  pose proof (avl_pos _ Al'). pose proof (avl_pos _ Ar').
  destruct (reBalance_correct version version k' l' r') as (n' & E & (R1&R2&R3&R4&R5) & Hid);
    [done|done|lia|lia|].
  exists n', (mkBranch version k' l' r'). split_and!; auto.
  - apply updateHeightSize_mk; [apply fits_of_avl; [done|lia]..|lia].
  - destruct (decide (-1 <= Height l' - Height r' <= 1)) as [Hd|Hd].
    + rewrite (Hid Hd). simpl. lia.
    + simpl in R5. lia.
  - destruct (decide (-1 <= Height l' - Height r' <= 1)) as [Hd|Hd].
    + rewrite (Hid Hd). simpl. lia.
    + simpl in R5. lia.
Qed.

Lemma avl_size_le n n' :
  avl n -> avl n' -> (length (to_list n') <= length (to_list n))%nat -> Size n' <= Size n.
Proof. intros Ha Ha' Hl. rewrite (avl_size _ Ha), (avl_size _ Ha'). lia. Qed.

Definition remove_ok (node : Node) (key : bytes) (version : Z) : Prop :=
  exists value node' newKey,
    removeNode node key version = Some (value, node', newKey) /\
    remove_post node key value node' newKey.

Lemma removeNode_left h s v k l r key version :
  wf (Branch h s v k l r) -> s < 2 ^ 63 -> key <b k ->
  remove_ok l key version -> remove_ok (Branch h s v k l r) key version.
Proof.
  intros Hwf Hsz Hlt (val & l' & nk & El & Ev & Hpost).
  pose proof (wf_branch _ _ _ _ _ _ Hwf) as (Wl & Wr & Ha & Hk & Hlk & Hrk).
  pose proof Ha as (Al & Ar & Eh & Es & Hb).
  pose proof (avl_pos _ Al). pose proof (avl_pos _ Ar).
  assert (key ∉ keys (to_list r)) as Hnr.
  { intros Hin. specialize (Hrk _ Hin). bytes_order. }
  assert (val = kv_get key (to_list (Branch h s v k l r))) as Ev'.
  { simpl. rewrite kv_get_app, <- Ev. destruct val; [done|].
    symmetry. by apply kv_get_None. }
  assert (kv_remove key (to_list l ++ to_list r) =
          kv_remove key (to_list l) ++ to_list r) as Erm.
  { rewrite kv_remove_app. f_equal. by apply kv_remove_notin. }
  unfold remove_ok. cbn [removeNode].
  destruct (bytes_ltb_spec key k); [|exfalso; bytes_order].
  rewrite El. cbn [mbind option_bind].
  destruct val as [val|]; [|by do 3 eexists; split; [reflexivity|]].
  destruct Hpost as [Ec Hpost]. destruct l' as [l'|].
  - destruct Hpost as (Al' & Kl' & Hh & Hhd). simpl in Ec.
    assert (Size l' <= Size l).
    { apply avl_size_le; [done..|]. rewrite Ec. apply kv_remove_length_le. }
    destruct (remove_finish version h s v k k l r l' r) as (n' & b & E1 & E2 & ? & ? & Et & ?);
      try done; try lia; [simpl; split_and!; try done; apply Wr|].
    rewrite E1. cbn [mbind option_bind]. rewrite E2.
    do 3 eexists. split; [reflexivity|]. split; [done|]. cbn [content to_list Height].
    split_and!; try done; try lia; rewrite Et.
    + by rewrite Erm, Ec.
    + by rewrite !head_keys_app by apply to_list_nonempty.
  - destruct Hpost as [Hl0 ->]. do 3 eexists. split; [reflexivity|].
    split; [done|]. simpl in *. rewrite Erm, <- Ec.
    split_and!; try done; try apply Wr; lia.
Qed.

Lemma removeNode_right h s v k l r key version :
  wf (Branch h s v k l r) -> s < 2 ^ 63 -> k <=b key ->
  remove_ok r key version -> remove_ok (Branch h s v k l r) key version.
Proof.
  intros Hwf Hsz Hge (val & r' & nk & Er & Ev & Hpost).
  pose proof (wf_branch _ _ _ _ _ _ Hwf) as (Wl & Wr & Ha & Hk & Hlk & Hrk).
  pose proof Ha as (Al & Ar & Eh & Es & Hb).
  pose proof (avl_pos _ Al). pose proof (avl_pos _ Ar).
  assert (key ∉ keys (to_list l)) as Hnl.
  { intros Hin. specialize (Hlk _ Hin). bytes_order. }
  assert (val = kv_get key (to_list (Branch h s v k l r))) as Ev'.
  { simpl. rewrite kv_get_app, (proj2 (kv_get_None _ _)); done. }
  assert (kv_remove key (to_list l ++ to_list r) =
          to_list l ++ kv_remove key (to_list r)) as Erm.
  { rewrite kv_remove_app. f_equal. by apply kv_remove_notin. }
  unfold remove_ok. cbn [removeNode].
  destruct (bytes_ltb_spec key k); [exfalso; bytes_order|].
  rewrite Er. cbn [mbind option_bind].
  destruct val as [val|]; [|by do 3 eexists; split; [reflexivity|]].
  destruct Hpost as [Ec Hpost]. destruct r' as [r'|].
  - destruct Hpost as (Ar' & Kr' & Hh & Hhd). simpl in Ec.
    assert (Size r' <= Size r).
    { apply avl_size_le; [done..|]. rewrite Ec. apply kv_remove_length_le. }
    destruct (remove_finish version h s v k (default k nk) l r l r')
      as (n' & b & E1 & E2 & ? & ? & Et & ?); try done; try lia.
    { simpl. split_and!; try done; [apply Wl|]. rewrite Hhd. by destruct nk. }
    rewrite E1. cbn [mbind option_bind]. rewrite E2.
    do 3 eexists. split; [reflexivity|]. split; [done|]. cbn [content to_list Height].
    split_and!; try done; try lia; rewrite Et.
    + by rewrite Erm, Ec.
    + by rewrite !head_keys_app by apply to_list_nonempty.
  - destruct Hpost as [Hr0 ->]. do 3 eexists. split; [reflexivity|].
    split; [done|]. simpl in *. rewrite Erm, <- Ec, app_nil_r.
    rewrite head_keys_app by apply to_list_nonempty.
    split_and!; try done; try apply Wl; lia.
Qed.

Lemma removeNode_correct node key version :
  wf node -> Size node < 2 ^ 63 -> remove_ok node key version.
Proof.
  induction node as [v k val|h s v k l IHl r IHr]; intros Hwf Hsz.
  - unfold remove_ok, remove_post; simpl. destruct (bytes_eqb k key) eqn:E.
    + apply bytes_eqb_eq in E as ->. do 3 eexists. split; [reflexivity|].
      rewrite bytes_eqb_refl. split_and!; try done.
      unfold kv_remove. by rewrite filter_cons_False by (simpl; naive_solver).
    + apply bytes_eqb_neq in E. do 3 eexists. split; [reflexivity|].
      rewrite (proj2 (bytes_eqb_neq key k)) by done. done.
  - pose proof (wf_branch _ _ _ _ _ _ Hwf) as (Wl & Wr & Ha & _).
    pose proof Ha as (Al & Ar & Eh & Es & Hb). cbn [Size] in Hsz.
    pose proof (avl_pos _ Al). pose proof (avl_pos _ Ar).
    destruct (bytes_ltb_spec key k).
    + apply removeNode_left; auto. apply IHl; [done|lia].
    + apply removeNode_right; auto. apply IHr; [done|lia].
Qed.

(** ** Lookup is correct *)

Lemma Get_correct n key :
  wf n -> Size n < 2 ^ 32 ->
  Get n key = (kv_get key (to_list n), kv_rank key (to_list n)).
Proof.
  induction n as [v k val|h s v k l IHl r IHr]; intros Hwf Hsz.
  - cbn [Get to_list kv_get]. destruct (bytes_compare_spec k key) as [->|Hlt|Hgt].
    + rewrite bytes_eqb_refl, kv_rank_none; [done|].
      intros x ->%list_elem_of_singleton. simpl. bytes_order.
    + rewrite (proj2 (bytes_eqb_neq key k)) by (intros ?; bytes_order).
      rewrite kv_rank_all; [done|]. by intros x ->%list_elem_of_singleton.
    + rewrite (proj2 (bytes_eqb_neq key k)) by (intros ?; bytes_order).
      rewrite kv_rank_none; [done|]. intros x ->%list_elem_of_singleton. simpl. bytes_order.
  - pose proof (wf_branch _ _ _ _ _ _ Hwf) as (Wl & Wr & Ha & Hk & Hlk & Hrk).
    pose proof Ha as (Al & Ar & Eh & Es & Hb). cbn [Size] in Hsz.
    pose proof (avl_pos _ Al). pose proof (avl_pos _ Ar).
    cbn [Get to_list]. rewrite kv_get_app, kv_rank_app.
    destruct (bytes_ltb_spec key k) as [Hlt|Hge].
    + rewrite IHl by (done || lia).
      rewrite (kv_rank_none key (to_list r)), Z.add_0_r.
      2:{ intros y Hy. specialize (Hrk y Hy). bytes_order. }
      destruct (kv_get key (to_list l)) eqn:E; [done|].
      rewrite (proj2 (kv_get_None key (to_list r))); [done|].
      intros Hin. specialize (Hrk _ Hin). bytes_order.
    + rewrite IHr by (done || lia).
      rewrite (kv_rank_all key (to_list l)).
      2:{ intros x Hx. specialize (Hlk x Hx). bytes_order. }
      rewrite (proj2 (kv_get_None key (to_list l))).
      2:{ intros Hin. specialize (Hlk _ Hin). bytes_order. }
      f_equal. rewrite u32_add_r, u32_sub. rewrite <- avl_size by done.
      pose proof (kv_rank_bound key (to_list r)) as Hrb. rewrite <- avl_size in Hrb by done.
      rewrite u32_id; lia.
Qed.

Lemma GetByIndex_correct n i :
  avl n -> Size n < 2 ^ 32 -> 0 <= i < 2 ^ 32 ->
  GetByIndex n i = to_list n !! Z.to_nat i.
Proof.
  revert i. induction n as [v k val|h s v k l IHl r IHr]; intros i Ha Hsz Hi.
  - simpl. destruct (Z.eqb_spec i 0) as [->|]; [done|].
    symmetry. apply lookup_ge_None. simpl. lia.
  - pose proof Ha as (Al & Ar & Eh & Es & Hb). cbn [Size] in Hsz.
    pose proof (avl_pos _ Al). pose proof (avl_pos _ Ar).
    cbn [GetByIndex to_list]. rewrite (u32_id (Size l)) by lia.
    pose proof (avl_size _ Al) as El. destruct (Z.ltb_spec i (Size l)).
    + rewrite IHl by (done || lia). rewrite lookup_app_l; [done|lia].
    + rewrite u32_id by lia. rewrite IHr by (done || lia).
      rewrite lookup_app_r by lia. f_equal. lia.
Qed.

(** ** A concrete tree, for the witnesses *)

Definition ex3 : Node :=
  Branch 2 3 1 [Byte.x02] (Leaf 1 [Byte.x01] [Byte.x0a])
    (Branch 1 2 1 [Byte.x03] (Leaf 1 [Byte.x02] [Byte.x0b]) (Leaf 1 [Byte.x03] [Byte.x0c])).

Lemma ex3_wf : wf ex3.
Proof.
  unfold wf, ex3, kv_sorted; simpl. split_and!; try done.
  repeat constructor; vm_compute; done.
Qed.
