(* ===== verification/Hash.v ===== *)
(** * Node hashes: [writeHashBytes], [HashNode], [EncodeBytes]

    The hash a node's [Hash] method returns, as a function of the tree.  The
    caching of hashes in [MemNode.hash] is in file [CowHeap]; the bytes that
    are hashed are [writeHashBytes] here, with the children's hashes as
    arguments. *)

From S2P Require Import Prelude KV Binary Sha256 Node.

(** [EncodeBytes]: the bytes written. *)
Definition EncodeBytes (bz : bytes) : bytes :=
  PutUvarint (u64 (Z.of_nat (length bz))) ++ bz.

(** [writeHashBytes]: the bytes written for a node whose children have the
    hashes [lh] and [rh]. *)
Definition writeHashBytes (node : Node) (lh rh : bytes) : bytes :=
  PutVarint (Height node) ++ PutVarint (Size node) ++ PutVarint (Version node) ++
  match node with
  | Leaf _ key value => EncodeBytes key ++ EncodeBytes (Sha256.Sum256 value)
  | Branch _ _ _ _ _ _ => EncodeBytes lh ++ EncodeBytes rh
  end.

Arguments EncodeBytes : simpl never.
Arguments writeHashBytes : simpl never.

Fixpoint HashNode (node : Node) : bytes :=
  Sha256.Sum256
    match node with
    | Leaf _ _ _ => writeHashBytes node [] []
    | Branch _ _ _ _ l r => writeHashBytes node (HashNode l) (HashNode r)
    end.

Definition emptyHash : bytes := Sha256.Sum256 [].

(** What is hashed for the root of a tree. *)
Definition preimage (node : Node) : bytes :=
  match node with
  | Leaf _ _ _ => writeHashBytes node [] []
  | Branch _ _ _ _ l r => writeHashBytes node (HashNode l) (HashNode r)
  end.

Lemma HashNode_preimage n : HashNode n = Sha256.Sum256 (preimage n).
Proof. by destruct n. Qed.

Lemma length_HashNode n : length (HashNode n) = 32%nat.
Proof. rewrite HashNode_preimage. apply Sha256.length_Sum256. Qed.

(** ** The encoding is injective *)

Lemma PutUvarint_inj x y r1 r2 :
  0 <= x < 2 ^ 64 -> 0 <= y < 2 ^ 64 ->
  PutUvarint x ++ r1 = PutUvarint y ++ r2 -> x = y /\ r1 = r2.
Proof.
  intros Hx Hy E. pose proof (Uvarint_Put x r1 Hx) as E1.
  pose proof (Uvarint_Put y r2 Hy) as E2. rewrite E, E2 in E1.
  injection E1 as -> _. split; [done|]. by apply app_inv_head in E.
Qed.

Lemma zigzag_nonneg x : 0 <= x < 2 ^ 63 -> zigzag x = 2 * x.
Proof.
  intros H. unfold zigzag. rewrite (proj2 (Z.ltb_ge x 0)) by lia.
  rewrite Z.shiftl_mul_pow2 by lia. rewrite u64_id; lia.
Qed.

Lemma PutVarint_inj x y r1 r2 :
  0 <= x < 2 ^ 63 -> 0 <= y < 2 ^ 63 ->
  PutVarint x ++ r1 = PutVarint y ++ r2 -> x = y /\ r1 = r2.
Proof.
  intros Hx Hy E. rewrite !PutVarint_zigzag in E.
  rewrite !zigzag_nonneg in E by done. apply PutUvarint_inj in E; [|lia..].
  split; [lia|tauto].
Qed.

Lemma EncodeBytes_inj a b r1 r2 :
  Z.of_nat (length a) < 2 ^ 64 -> Z.of_nat (length b) < 2 ^ 64 ->
  EncodeBytes a ++ r1 = EncodeBytes b ++ r2 -> a = b /\ r1 = r2.
Proof.
  unfold EncodeBytes. intros Ha Hb E. rewrite <- !app_assoc in E.
  rewrite !u64_id in E by lia. apply PutUvarint_inj in E as [El E]; [|lia..].
  apply Nat2Z.inj in El. by apply app_inj_1 in E.
Qed.

Lemma EncodeBytes_inj_end a b :
  Z.of_nat (length a) < 2 ^ 64 -> Z.of_nat (length b) < 2 ^ 64 ->
  EncodeBytes a = EncodeBytes b -> a = b.
Proof.
  intros Ha Hb E. apply (EncodeBytes_inj a b [] []); [done..|]. by rewrite E.
Qed.

(** ** The root hash binds the tree

    The inputs of the hash function over a whole tree: node encodings and
    values. *)
Fixpoint hashed (node : Node) : list bytes :=
  preimage node ::
  match node with
  | Leaf _ _ value => [value]
  | Branch _ _ _ _ l r => hashed l ++ hashed r
  end.

(** Two inputs, one hashed for each tree, that collide. *)
Definition collide (t1 t2 : Node) : Prop :=
  exists x y, x ∈ hashed t1 /\ y ∈ hashed t2 /\ x <> y /\
              Sha256.Sum256 x = Sha256.Sum256 y.

(** Fields fit their Go types and keys are shorter than [2 ^ 64]. *)
Fixpoint in_range (n : Node) : Prop :=
  match n with
  | Leaf v k _ => 0 <= v < 2 ^ 32 /\ Z.of_nat (length k) < 2 ^ 64
  | Branch h s v _ l r =>
      0 < h < 2 ^ 8 /\ 0 <= s < 2 ^ 63 /\ 0 <= v < 2 ^ 32 /\ in_range l /\ in_range r
  end.

Lemma collide_mono t1 t2 u1 u2 :
  collide t1 t2 -> (forall x, x ∈ hashed t1 -> x ∈ hashed u1) ->
  (forall x, x ∈ hashed t2 -> x ∈ hashed u2) -> collide u1 u2.
Proof. intros (x&y&?&?&?&?) F1 F2. exists x, y. auto. Qed.

Lemma preimage_hashed t : preimage t ∈ hashed t.
Proof. destruct t; left. Qed.

Lemma value_hashed v k x : x ∈ hashed (Leaf v k x).
Proof. right. left. Qed.

Lemma left_hashed h s v k l r x : x ∈ hashed l -> x ∈ hashed (Branch h s v k l r).
Proof. intros H. right. apply elem_of_app. auto. Qed.

Lemma right_hashed h s v k l r x : x ∈ hashed r -> x ∈ hashed (Branch h s v k l r).
Proof. intros H. right. apply elem_of_app. auto. Qed.

Lemma collide_preimage t1 t2 :
  HashNode t1 = HashNode t2 -> preimage t1 <> preimage t2 -> collide t1 t2.
Proof.
  rewrite !HashNode_preimage. intros E Hne.
  exists (preimage t1), (preimage t2). auto using preimage_hashed.
Qed.

Lemma writeHashBytes_fields n1 n2 l1 r1 l2 r2 :
  in_range n1 -> in_range n2 ->
  writeHashBytes n1 l1 r1 = writeHashBytes n2 l2 r2 ->
  Height n1 = Height n2 /\ Size n1 = Size n2 /\ Version n1 = Version n2 /\
  (match n1 with
   | Leaf _ key value => EncodeBytes key ++ EncodeBytes (Sha256.Sum256 value)
   | Branch _ _ _ _ _ _ => EncodeBytes l1 ++ EncodeBytes r1
   end =
   match n2 with
   | Leaf _ key value => EncodeBytes key ++ EncodeBytes (Sha256.Sum256 value)
   | Branch _ _ _ _ _ _ => EncodeBytes l2 ++ EncodeBytes r2
   end).
Proof.
  intros R1 R2 E. unfold writeHashBytes in E.
  apply PutVarint_inj in E as [E1 E]; [|destruct n1; simpl in *; lia|destruct n2; simpl in *; lia].
  apply PutVarint_inj in E as [E2 E]; [|destruct n1; simpl in *; lia|destruct n2; simpl in *; lia].
  apply PutVarint_inj in E as [E3 E]; [|destruct n1; simpl in *; lia|destruct n2; simpl in *; lia].
  done.
Qed.

(** Equality of trees up to the branch keys, which are not hashed. *)
Fixpoint same_shape (t1 t2 : Node) : Prop :=
  match t1, t2 with
  | Leaf v1 k1 x1, Leaf v2 k2 x2 => v1 = v2 /\ k1 = k2 /\ x1 = x2
  | Branch h1 s1 v1 _ l1 r1, Branch h2 s2 v2 _ l2 r2 =>
      h1 = h2 /\ s1 = s2 /\ v1 = v2 /\ same_shape l1 l2 /\ same_shape r1 r2
  | _, _ => False
  end.

Lemma hash_shape t1 t2 :
  in_range t1 -> in_range t2 -> HashNode t1 = HashNode t2 ->
  same_shape t1 t2 \/ collide t1 t2.
Proof.
  revert t2. induction t1 as [v1 k1 x1|h1 s1 v1 k1 l1 IHl r1 IHr]; intros t2 R1 R2 E.
  - destruct (decide (preimage (Leaf v1 k1 x1) = preimage t2)) as [Ep|Hne];
      [|right; by apply collide_preimage].
    destruct t2 as [v2 k2 x2|h2 s2 v2 k2 l2 r2];
      apply writeHashBytes_fields in Ep as (Eh & Es & Ev & Ep); try done.
    2:{ simpl in *. lia. }
    apply EncodeBytes_inj in Ep as [-> Ep]; [|simpl in *; lia..].
    apply EncodeBytes_inj_end in Ep as Ex; [|rewrite Sha256.length_Sum256; lia..].
    destruct (decide (x1 = x2)) as [->|Hne]; [left; simpl in *; tauto|].
    right. exists x1, x2. auto using value_hashed.
  - destruct (decide (preimage (Branch h1 s1 v1 k1 l1 r1) = preimage t2)) as [Ep|Hne];
      [|right; by apply collide_preimage].
    destruct t2 as [v2 k2 x2|h2 s2 v2 k2 l2 r2];
      apply writeHashBytes_fields in Ep as (Eh & Es & Ev & Ep); try done.
    1:{ simpl in *. lia. }
    apply EncodeBytes_inj in Ep as [El Ep]; [|rewrite length_HashNode; lia..].
    apply EncodeBytes_inj_end in Ep as Er; [|rewrite length_HashNode; lia..].
    destruct R1 as (_&_&_&Rl1&Rr1), R2 as (_&_&_&Rl2&Rr2).
    destruct (IHl _ Rl1 Rl2 El) as [Sl|C].
    2:{ right. eapply collide_mono; eauto using left_hashed. }
    destruct (IHr _ Rr1 Rr2 Er) as [Sr|C].
    2:{ right. eapply collide_mono; eauto using right_hashed. }
    left. simpl in *. tauto.
Qed.

Lemma same_shape_list t1 t2 : same_shape t1 t2 -> to_list t1 = to_list t2.
Proof.
  revert t2. induction t1; intros []; simpl; try tauto; [naive_solver|].
  intros (_&_&_&?&?). f_equal; auto.
Qed.

Lemma same_shape_eq t1 t2 : keyed t1 -> keyed t2 -> same_shape t1 t2 -> t1 = t2.
Proof.
  revert t2. induction t1 as [|h1 s1 v1 k1 l1 IHl r1 IHr]; intros [|h2 s2 v2 k2 l2 r2];
    simpl; try tauto; [naive_solver|].
  intros (Kl1&Kr1&H1) (Kl2&Kr2&H2) (->&->&->&Sl&Sr).
  rewrite (same_shape_list _ _ Sr) in H1. rewrite H1 in H2. injection H2 as ->.
  f_equal; auto.
Qed.

(** C26: equal root hashes mean equal trees (versions, shape, keys and values),
    unless two inputs that were hashed for the two trees are a SHA-256
    collision. *)
Theorem root_hash_binding t1 t2 :
  wf t1 -> wf t2 -> in_range t1 -> in_range t2 ->
  HashNode t1 = HashNode t2 -> t1 = t2 \/ collide t1 t2.
Proof.
  intros (_ & K1 & _) (_ & K2 & _) R1 R2 E.
  destruct (hash_shape t1 t2 R1 R2 E); [left; by apply same_shape_eq|by right].
Qed.

Lemma root_hash_binding_witness : ex3 = ex3 \/ collide ex3 ex3.
Proof.
  apply (root_hash_binding ex3 ex3 ex3_wf ex3_wf); [| |reflexivity]; simpl; lia.
Defined.
