(* ===== verification/Snapshot.v ===== *)
(** * Snapshot files: [memiavl/snapshot.go] and [memiavl/layout_little_endian.go]

    The writer of a snapshot directory, the record layouts of the [nodes] and
    [leaves] files, and the reader's accessors.  A file is its byte content;
    failures of the operating system's writes are not modelled, cancellation
    of the writer's context is. *)

From S2P Require Import Prelude KV Binary Sha256 Node Hash.
From Stdlib Require Import Strings.Byte.

Open Scope string_scope.
Open Scope Z_scope.
Open Scope list_scope.

(** ** Constants *)

Definition SnapshotFileMagic : Z := 1280721225.
Definition SnapshotFormat : Z := 0.
Definition SizeMetadata : Z := 12.
Definition CancelCheckInterval : Z := 1000.

Definition SizeHash : Z := Sha256.Size.
Definition OffsetHeight : Z := 0.
Definition OffsetPreTrees : Z := OffsetHeight + 1.
Definition OffsetVersion : Z := OffsetHeight + 4.
Definition OffsetSize : Z := OffsetVersion + 4.
Definition OffsetKeyLeaf : Z := OffsetSize + 4.
Definition OffsetHash : Z := OffsetKeyLeaf + 4.
Definition SizeNodeWithoutHash : Z := OffsetHash.
Definition SizeNode : Z := SizeNodeWithoutHash + SizeHash.
Definition OffsetLeafVersion : Z := 0.
Definition OffsetLeafKeyLen : Z := OffsetLeafVersion + 4.
Definition OffsetLeafKeyOffset : Z := OffsetLeafKeyLen + 4.
Definition OffsetLeafHash : Z := OffsetLeafKeyOffset + 8.
Definition SizeLeafWithoutHash : Z := OffsetLeafHash.
Definition SizeLeaf : Z := SizeLeafWithoutHash + SizeHash.

(** ** Writer *)

Record snapshotWriter := mkWriter {
  nodesW : bytes;
  leavesW : bytes;
  kvsW : bytes;
  branchCounter : Z;
  leafCounter : Z;
  kvsOffset : Z
}.

Definition newSnapshotWriter : snapshotWriter := mkWriter [] [] [] 0 0 0.

Definition writeKeyValue (w : snapshotWriter) (key value : bytes) : snapshotWriter :=
  let klen := Z.of_nat (length key) in
  let vlen := Z.of_nat (length value) in
  mkWriter (nodesW w) (leavesW w)
    (kvsW w ++ PutUint32 (u32 klen) ++ key ++ PutUint32 (u32 vlen) ++ value)
    (branchCounter w) (leafCounter w)
    (u64 (kvsOffset w + (4 + 4 + klen + vlen))).

(** The fixed part of a leaf record, and the record with its hash. *)
Definition leafRecord (version keyLen keyOffset : Z) (hash : bytes) : bytes :=
  PutUint32 version ++ PutUint32 (u32 keyLen) ++ PutUint64 keyOffset ++ hash.

Definition branchRecord (version size height preTrees keyLeaf : Z) (hash : bytes) : bytes :=
  [byte_of_Z height; byte_of_Z preTrees; x00; x00] ++
  PutUint32 version ++ PutUint32 size ++ PutUint32 keyLeaf ++ hash.

Arguments leafRecord : simpl never.
Arguments branchRecord : simpl never.
Arguments HashNode : simpl never.

Section Writer.
(** Whether the context is cancelled when the given number of leaves has
    been written. *)
Context (ctxDone : Z -> bool).

Definition ctxErr : error := "context canceled".

Definition writeLeaf (w : snapshotWriter) (version : Z) (key value hash : bytes)
    : result snapshotWriter :=
  fail_if ((leafCounter w mod CancelCheckInterval =? 0) && ctxDone (leafCounter w)) ctxErr ;;
  let buf := leafRecord version (Z.of_nat (length key)) (kvsOffset w) hash in
  let w := writeKeyValue w key value in
  Ok (mkWriter (nodesW w) (leavesW w ++ buf) (kvsW w)
        (branchCounter w) (u32 (leafCounter w + 1)) (kvsOffset w)).

Definition writeBranch (w : snapshotWriter) (version size height preTrees keyLeaf : Z)
    (hash : bytes) : snapshotWriter :=
  mkWriter (nodesW w ++ branchRecord version size height preTrees keyLeaf hash)
    (leavesW w) (kvsW w) (u32 (branchCounter w + 1)) (leafCounter w) (kvsOffset w).

Fixpoint writeRecursive (w : snapshotWriter) (node : Node) : result snapshotWriter :=
  match node with
  | Leaf version key value => writeLeaf w version key value (HashNode node)
  | Branch height size version _ l r =>
      let preTrees := u8 (u32 (leafCounter w - branchCounter w)) in
      w ← writeRecursive w l;
      let keyLeaf := leafCounter w in
      w ← writeRecursive w r;
      Ok (writeBranch w version (u32 size) height preTrees keyLeaf (HashNode node))
  end.

(** The files of a snapshot directory. *)
Record snapshotFiles := mkFiles {
  fMetadata : bytes;
  fNodes : bytes;
  fLeaves : bytes;
  fKvs : bytes
}.

(** [writeSnapshot]: run [doWrite], flush when there are leaves, write the
    metadata file last. *)
Definition writeSnapshot (version : Z)
    (doWrite : snapshotWriter -> result (snapshotWriter * Z)) : result snapshotFiles :=
  '(w, leaves) ← doWrite newSnapshotWriter;
  let metadata :=
    PutUint32 SnapshotFileMagic ++ PutUint32 SnapshotFormat ++ PutUint32 version in
  if 0 <? leaves then Ok (mkFiles metadata (nodesW w) (leavesW w) (kvsW w))
  else Ok (mkFiles metadata [] [] []).

(** [Tree.WriteSnapshotWithContext] on the tree's version and root. *)
Definition WriteSnapshotWithContext (version : Z) (root : option Node)
    : result snapshotFiles :=
  writeSnapshot version (fun w =>
    match root with
    | None => Ok (w, 0)
    | Some root => w ← writeRecursive w root; Ok (w, leafCounter w)
    end).
End Writer.

(** ** Reader *)

(** [PersistedNode]; its [snapshot] pointer is an argument of the methods. *)
Record PersistedNode := mkPersisted { isLeaf : bool; index : Z }.

Record Snapshot := mkSnapshot {
  nodes : bytes;
  leaves : bytes;
  kvsData : bytes;
  snapVersion : Z;
  root : option PersistedNode
}.

Definition NewEmptySnapshot (version : Z) : Snapshot := mkSnapshot [] [] [] version None.

Definition OpenSnapshot (f : snapshotFiles) : result Snapshot :=
  let bz := fMetadata f in
  fail_if (negb (Z.of_nat (length bz) =? SizeMetadata)) "wrong metadata file size" ;;
  let magic := default 0 (Uint32 bz) in
  fail_if (negb (magic =? SnapshotFileMagic)) "invalid metadata file magic" ;;
  let format := default 0 (Uint32 (drop 4 bz)) in
  fail_if (negb (format =? SnapshotFormat)) "unknown snapshot format" ;;
  let version := default 0 (Uint32 (drop 8 bz)) in
  let nodesSize := Z.of_nat (length (fNodes f)) in
  let leavesSize := Z.of_nat (length (fLeaves f)) in
  fail_if (negb (nodesSize mod SizeNode =? 0)) "corrupted snapshot, nodes file size" ;;
  fail_if (negb (leavesSize mod SizeLeaf =? 0)) "corrupted snapshot, leaves file size" ;;
  let nodesLen := nodesSize / SizeNode in
  let leavesLen := leavesSize / SizeLeaf in
  fail_if (((0 <? leavesLen) && negb (nodesLen + 1 =? leavesLen)) ||
           ((leavesLen =? 0) && negb (nodesLen =? 0)))
    "corrupted snapshot, branch nodes size don't match leaves size" ;;
  Ok (mkSnapshot (fNodes f) (fLeaves f) (fKvs f) version
        (if 0 <? nodesLen then Some (mkPersisted false (u32 (nodesLen - 1)))
         else if 0 <? leavesLen then Some (mkPersisted true 0)
         else None)).

(** [Close] resets the snapshot to an empty one at the same version. *)
Definition CloseSnapshot (s : Snapshot) : Snapshot := NewEmptySnapshot (snapVersion s).

Definition IsEmptySnapshot (s : Snapshot) : bool :=
  match root s with None => true | Some _ => false end.

(** The panic on an empty snapshot is [None]. *)
Definition RootNode (s : Snapshot) : option PersistedNode := root s.

Definition nodesLen (s : Snapshot) : Z := Z.of_nat (length (nodes s)) / SizeNode.
Definition leavesLen (s : Snapshot) : Z := Z.of_nat (length (leaves s)) / SizeLeaf.

(** *** Record layouts: [Nodes.Node], [Leaves.Leaf] and their fields *)

Definition NodeLayout (s : Snapshot) (i : Z) : option bytes :=
  slice (nodes s) (i * SizeNode) (i * SizeNode + SizeNode).

Definition LeafLayout (s : Snapshot) (i : Z) : option bytes :=
  slice (leaves s) (i * SizeLeaf) (i * SizeLeaf + SizeLeaf).

Definition field32 (off : Z) (data : bytes) : option Z :=
  slice data off (off + 4) ≫= Uint32.

Definition layoutHeight (data : bytes) : option Z :=
  byte_to_Z <$> data !! Z.to_nat OffsetHeight.
Definition layoutPreTrees (data : bytes) : option Z :=
  byte_to_Z <$> data !! Z.to_nat OffsetPreTrees.
Definition layoutVersion (data : bytes) : option Z := field32 OffsetVersion data.
Definition layoutSize (data : bytes) : option Z := field32 OffsetSize data.
Definition layoutKeyLeaf (data : bytes) : option Z := field32 OffsetKeyLeaf data.
Definition layoutHash (data : bytes) : option bytes :=
  slice data OffsetHash (OffsetHash + SizeHash).

Definition leafVersion (data : bytes) : option Z := field32 OffsetLeafVersion data.
Definition leafKeyLength (data : bytes) : option Z := field32 OffsetLeafKeyLen data.
Definition leafKeyOffset (data : bytes) : option Z :=
  slice data OffsetLeafKeyOffset (OffsetLeafKeyOffset + 8) ≫= Uint64.
Definition leafHash (data : bytes) : option bytes :=
  slice data OffsetLeafHash (OffsetLeafHash + 32).

(** *** Keys and values *)

Definition SnapKeyValue (s : Snapshot) (offset : Z) : option (bytes * bytes) :=
  len ← slice_from (kvsData s) offset ≫= Uint32;
  let offset := u64 (offset + 4) in
  key ← slice (kvsData s) offset (u64 (offset + len));
  let offset := u64 (offset + len) in
  len ← slice_from (kvsData s) offset ≫= Uint32;
  let offset := u64 (offset + 4) in
  value ← slice (kvsData s) offset (u64 (offset + len));
  Some (key, value).

Definition LeafKey (s : Snapshot) (i : Z) : option bytes :=
  leaf ← LeafLayout s i;
  off ← leafKeyOffset leaf;
  let offset := u64 (off + 4) in
  len ← leafKeyLength leaf;
  slice (kvsData s) offset (u64 (offset + len)).

Definition LeafKeyValue (s : Snapshot) (i : Z) : option (bytes * bytes) :=
  leaf ← LeafLayout s i;
  off ← leafKeyOffset leaf;
  let offset := u64 (off + 4) in
  len ← leafKeyLength leaf;
  key ← slice (kvsData s) offset (u64 (offset + len));
  let offset := u64 (offset + len) in
  len ← slice_from (kvsData s) offset ≫= Uint32;
  let offset := u64 (offset + 4) in
  value ← slice (kvsData s) offset (u64 (offset + len));
  Some (key, value).
