(* ===== verification/Persisted.v ===== *)
(** * On-disk nodes: [memiavl/persisted_node.go]

    The methods of [PersistedNode] over the files of a snapshot, and the
    theorem that a snapshot written from a tree denotes that tree: every
    accessor of the persisted root returns what the tree holds, and the
    binary-search [Get] and the positional [GetByIndex] agree with the
    tree's. *)

From S2P Require Import Prelude KV Binary Sha256 Node Hash Snapshot.

(** ** Index arithmetic (on [uint32]) *)

Definition getStartLeaf (index size preTrees : Z) : Z :=
  u32 (u32 (u32 (index + 2) - size) + preTrees).

Definition getEndLeaf (index preTrees : Z) : Z := u32 (u32 (index + preTrees) + 1).

Definition getLeftBranch (keyLeaf preTrees : Z) : Z := u32 (u32 (keyLeaf - preTrees) - 2).

(** [sort.Search(n, f)] over [0, n); [None] is a panic of [f].  The loop
    shrinks [j - i] in each round, so [n + 1] rounds are enough. *)
Fixpoint search_loop (fuel : nat) (f : Z -> option bool) (i j : Z) : option Z :=
  match fuel with
  | O => None
  | S fuel =>
      if i <? j then
        let h := (i + j) / 2 in
        b ← f h;
        if (b : bool) then search_loop fuel f i h else search_loop fuel f (h + 1) j
      else Some i
  end.

Definition Search (n : Z) (f : Z -> option bool) : option Z :=
  search_loop (S (Z.to_nat n)) f 0 n.

Section Methods.
Context (s : Snapshot).
Implicit Types p : PersistedNode.

Definition branchNode p : option bytes := NodeLayout s (index p).
Definition leafNode p : option bytes := LeafLayout s (index p).

Definition pHeight p : option Z :=
  if isLeaf p then Some 0 else branchNode p ≫= layoutHeight.

Definition pVersion p : option Z :=
  if isLeaf p then leafNode p ≫= leafVersion else branchNode p ≫= layoutVersion.

Definition pSize p : option Z :=
  if isLeaf p then Some 1 else branchNode p ≫= layoutSize.

Definition pKey p : option bytes :=
  if isLeaf p then LeafKey s (index p)
  else data ← branchNode p; keyLeaf ← layoutKeyLeaf data; LeafKey s keyLeaf.

(** The inner option is Go's nil slice. *)
Definition pValue p : option (option bytes) :=
  if isLeaf p then '(_, value) ← LeafKeyValue s (index p); Some (Some value)
  else Some None.

Definition pLeft p : option PersistedNode :=
  if isLeaf p then None
  else
    data ← branchNode p;
    preTrees ← layoutPreTrees data;
    size ← layoutSize data;
    let startLeaf := getStartLeaf (index p) size preTrees in
    keyLeaf ← layoutKeyLeaf data;
    if u32 (startLeaf + 1) =? keyLeaf then Some (mkPersisted true startLeaf)
    else Some (mkPersisted false (getLeftBranch keyLeaf preTrees)).

Definition pRight p : option PersistedNode :=
  if isLeaf p then None
  else
    data ← branchNode p;
    keyLeaf ← layoutKeyLeaf data;
    preTrees ← layoutPreTrees data;
    if keyLeaf =? getEndLeaf (index p) preTrees then Some (mkPersisted true keyLeaf)
    else Some (mkPersisted false (u32 (index p - 1))).

Definition pHash p : option bytes :=
  if isLeaf p then leafNode p ≫= leafHash else branchNode p ≫= layoutHash.

Definition pGet p (key : bytes) : option (option bytes * Z) :=
  '(start, count) ←
    (if isLeaf p then Some (index p, 1)
     else
       data ← branchNode p;
       preTrees ← layoutPreTrees data;
       count ← layoutSize data;
       Some (getStartLeaf (index p) count preTrees, count));
  i ← Search count (fun i =>
        leafKey ← LeafKey s (u32 (start + u32 i));
        Some (negb (bytes_ltb leafKey key)));
  let i := u32 i in
  let leaf := u32 (i + start) in
  if u32 (start + count) <=? leaf then Some (None, i)
  else
    '(nodeKey, value) ← LeafKeyValue s leaf;
    if negb (bytes_eqb nodeKey key) then Some (None, i) else Some (Some value, i).

Definition pGetByIndex p (leafIndex : Z) : option (option (bytes * bytes)) :=
  if isLeaf p then
    if negb (leafIndex =? 0) then Some None else Some <$> LeafKeyValue s (index p)
  else
    data ← branchNode p;
    preTrees ← layoutPreTrees data;
    size ← layoutSize data;
    let startLeaf := getStartLeaf (index p) size preTrees in
    let endLeaf := getEndLeaf (index p) preTrees in
    let i := u32 (startLeaf + leafIndex) in
    if endLeaf <? i then Some None else Some <$> LeafKeyValue s i.

(** A persisted node denotes a tree when every accessor of the [Node]
    interface returns the tree's field, recursively. *)
Fixpoint denotes p (t : Node) : Prop :=
  pVersion p = Some (Version t) /\ pHeight p = Some (Height t) /\
  pSize p = Some (Size t) /\ pKey p = Some (Key t) /\ pValue p = Some (Value t) /\
  pHash p = Some (HashNode t) /\ isLeaf p = IsLeaf t /\
  match t with
  | Leaf _ _ _ => True
  | Branch _ _ _ _ l r =>
      exists pl pr, pLeft p = Some pl /\ pRight p = Some pr /\
                    denotes pl l /\ denotes pr r
  end.
End Methods.

(** ** Record encodings decode *)

Lemma Uint32_Put_end v : 0 <= v < 2 ^ 32 -> Uint32 (PutUint32 v) = Some v.
Proof. intros H. rewrite <- (app_nil_r (PutUint32 v)). by apply Uint32_Put. Qed.

Lemma Uint64_Put_end v : 0 <= v < 2 ^ 64 -> Uint64 (PutUint64 v) = Some v.
Proof. intros H. rewrite <- (app_nil_r (PutUint64 v)). by apply Uint64_Put. Qed.

Lemma field32_at off a v c :
  off = Z.of_nat (length a) -> 0 <= v < 2 ^ 32 -> field32 off (a ++ PutUint32 v ++ c) = Some v.
Proof.
  intros -> Hv. unfold field32. rewrite (slice_app a (PutUint32 v) c).
  - by apply Uint32_Put_end.
  - done.
  - by rewrite length_PutUint32.
Qed.

Lemma leafRecord_decode v kl off h :
  0 <= v < 2 ^ 32 -> 0 <= kl < 2 ^ 32 -> 0 <= off < 2 ^ 64 -> length h = 32%nat ->
  leafVersion (leafRecord v kl off h) = Some v /\
  leafKeyLength (leafRecord v kl off h) = Some kl /\
  leafKeyOffset (leafRecord v kl off h) = Some off /\
  leafHash (leafRecord v kl off h) = Some h.
Proof.
  intros Hv Hk Ho Hh. unfold leafRecord. rewrite u32_id by done. split_and!.
  - by apply (field32_at _ []).
  - by apply (field32_at _ (PutUint32 v)).
  - unfold leafKeyOffset. rewrite (app_assoc (PutUint32 v)).
    rewrite (slice_app (PutUint32 v ++ PutUint32 kl) (PutUint64 off) h).
    + by apply Uint64_Put_end.
    + by rewrite length_app, !length_PutUint32.
    + by rewrite length_PutUint64.
  - unfold leafHash. rewrite !app_assoc. rewrite <- (app_nil_r h) at 1.
    apply slice_app; [|by rewrite Hh].
    by rewrite !length_app, !length_PutUint32, length_PutUint64.
Qed.

Lemma branchRecord_decode v sz ht pre kl h :
  0 <= v < 2 ^ 32 -> 0 <= sz < 2 ^ 32 -> 0 <= ht < 2 ^ 8 -> 0 <= pre < 2 ^ 8 ->
  0 <= kl < 2 ^ 32 -> length h = 32%nat ->
  let d := branchRecord v sz ht pre kl h in
  layoutVersion d = Some v /\ layoutSize d = Some sz /\ layoutHeight d = Some ht /\
  layoutPreTrees d = Some pre /\ layoutKeyLeaf d = Some kl /\ layoutHash d = Some h.
Proof.
  intros Hv Hs Hh Hp Hk Hl. unfold branchRecord.
  set (hd := [byte_of_Z ht; byte_of_Z pre; _; _]). split_and!.
  - by apply (field32_at _ hd).
  - unfold layoutSize. rewrite (app_assoc hd).
    apply field32_at; [|done]. by rewrite length_app, length_PutUint32.
  - unfold layoutHeight. simpl. by rewrite byte_to_of_Z, u8_id.
  - unfold layoutPreTrees. simpl. by rewrite byte_to_of_Z, u8_id.
  - unfold layoutKeyLeaf. rewrite (app_assoc hd), (app_assoc (hd ++ _)).
    apply field32_at; [|done]. by rewrite !length_app, !length_PutUint32.
  - unfold layoutHash. rewrite !app_assoc. rewrite <- (app_nil_r h) at 1.
    apply slice_app; [|by rewrite Hl].
    by rewrite !length_app, !length_PutUint32.
Qed.

(** ** Where a subtree sits in the files

    A subtree whose writing starts after [lc] leaves, [bc] branches and [off]
    bytes of key-values. *)

Definition kvEnc (k v : bytes) : bytes :=
  PutUint32 (u32 (zlen k)) ++ k ++ PutUint32 (u32 (zlen v)) ++ v.

Definition leafCount (t : Node) : Z := zlen (to_list t).

Fixpoint kvSize (t : Node) : Z :=
  match t with
  | Leaf _ k v => 4 + 4 + zlen k + zlen v
  | Branch _ _ _ _ l r => kvSize l + kvSize r
  end.

(** The fields fit the widths of the record layout. *)
Fixpoint disk_range (t : Node) : Prop :=
  match t with
  | Leaf v k x => 0 <= v < 2 ^ 32 /\ zlen k < 2 ^ 32 /\ zlen x < 2 ^ 32
  | Branch h sz v _ l r =>
      0 <= v < 2 ^ 32 /\ disk_range l /\ disk_range r
  end.

Fixpoint located (s : Snapshot) (lc bc off : Z) (t : Node) : Prop :=
  match t with
  | Leaf v k x =>
      LeafLayout s lc = Some (leafRecord v (zlen k) off (HashNode t)) /\
      (exists a c, kvsData s = a ++ kvEnc k x ++ c /\ zlen a = off)
  | Branch h sz v _ l r =>
      located s lc bc off l /\
      located s (lc + leafCount l) (bc + leafCount l - 1) (off + kvSize l) r /\
      NodeLayout s (bc + leafCount t - 2) =
        Some (branchRecord v sz h (lc - bc) (lc + leafCount l) (HashNode t))
  end.

Lemma leafCount_pos t : 0 < leafCount t.
Proof.
  unfold leafCount. pose proof (to_list_nonempty t).
  destruct (to_list t); simpl; [done|lia].
Qed.

Lemma leafCount_branch h sz v k l r :
  leafCount (Branch h sz v k l r) = leafCount l + leafCount r.
Proof. unfold leafCount. simpl. rewrite length_app. lia. Qed.

Lemma kvSize_pos t : 0 < kvSize t.
Proof. induction t; simpl; lia. Qed.

Lemma kvs_read s k x a c off :
  kvsData s = a ++ kvEnc k x ++ c -> zlen a = off -> zlen k < 2 ^ 32 -> zlen x < 2 ^ 32 ->
  off + (4 + 4 + zlen k + zlen x) < 2 ^ 64 ->
  slice (kvsData s) (u64 (off + 4)) (u64 (u64 (off + 4) + zlen k)) = Some k /\
  (slice_from (kvsData s) (u64 (u64 (off + 4) + zlen k)) ≫= Uint32) = Some (zlen x) /\
  slice (kvsData s) (u64 (u64 (u64 (off + 4) + zlen k) + 4))
    (u64 (u64 (u64 (u64 (off + 4) + zlen k) + 4) + zlen x)) = Some x.
Proof.
  intros E Ha Hk Hx Hoff. rewrite !u64_id by lia. unfold kvEnc in E.
  rewrite !(u32_id (zlen _)) in E by lia. split_and!.
  - rewrite E. replace (a ++ (PutUint32 (zlen k) ++ k ++ PutUint32 (zlen x) ++ x) ++ c)
      with ((a ++ PutUint32 (zlen k)) ++ k ++ (PutUint32 (zlen x) ++ x ++ c))
      by (by rewrite <- !app_assoc).
    apply slice_app; rewrite ?length_app, ?length_PutUint32; lia.
  - rewrite E. replace (a ++ (PutUint32 (zlen k) ++ k ++ PutUint32 (zlen x) ++ x) ++ c)
      with ((a ++ PutUint32 (zlen k) ++ k) ++ (PutUint32 (zlen x) ++ x ++ c))
      by (by rewrite <- !app_assoc).
    rewrite slice_from_app by (rewrite ?length_app, ?length_PutUint32; lia).
    sbind. apply Uint32_Put. lia.
  - rewrite E. replace (a ++ (PutUint32 (zlen k) ++ k ++ PutUint32 (zlen x) ++ x) ++ c)
      with ((a ++ PutUint32 (zlen k) ++ k ++ PutUint32 (zlen x)) ++ x ++ c)
      by (by rewrite <- !app_assoc).
    apply slice_app; rewrite ?length_app, ?length_PutUint32; lia.
Qed.

(** Reading the [i]-th leaf of a located subtree. *)
Lemma located_leaf s lc bc off t i k x :
  located s lc bc off t -> disk_range t -> 0 <= off -> off + kvSize t < 2 ^ 64 ->
  0 <= i -> to_list t !! Z.to_nat i = Some (k, x) ->
  LeafKey s (lc + i) = Some k /\ LeafKeyValue s (lc + i) = Some (k, x).
Proof.
  revert lc bc off i. induction t as [v k' x'|h sz v k' l IHl r IHr];
    intros lc bc off i Hloc Hr Hoff Hkv Hi Hl.
  - simpl in Hl. destruct Hloc as [HL (a & c & E & Ha)]. destruct Hr as (Hv & Hk & Hx).
    assert (i = 0) as -> by (apply lookup_lt_Some in Hl; simpl in Hl; lia).
    injection Hl as -> ->. rewrite Z.add_0_r. cbn [kvSize] in Hkv.
    destruct (leafRecord_decode v (zlen k) off (HashNode (Leaf v k x)))
      as (D1 & D2 & D3 & D4); [lia..|apply length_HashNode|].
    destruct (kvs_read s k x a c off) as (R1 & R2 & R3); [done..|lia|].
    unfold LeafKey, LeafKeyValue. rewrite HL. sbind. rewrite D3. sbind.
    rewrite D2. sbind. rewrite R1. sbind. rewrite R2. sbind. rewrite R3. done.
  - destruct Hloc as (Ll & Lr & _). destruct Hr as (_ & Rl & Rr).
    simpl in Hkv. pose proof (kvSize_pos l). pose proof (kvSize_pos r).
    simpl in Hl. destruct (decide (i < leafCount l)) as [Hlt|Hge].
    + rewrite lookup_app_l in Hl by (unfold leafCount in *; lia).
      eapply IHl; eauto. lia.
    + rewrite lookup_app_r in Hl by (unfold leafCount in *; lia).
      replace (lc + i) with (lc + leafCount l + (i - leafCount l)) by lia.
      eapply IHr; eauto; [lia|lia|lia|].
      rewrite <- Hl. f_equal. unfold leafCount in *. lia.
Qed.

Lemma head_lookup {A} (l : list A) : head l = l !! 0%nat.
Proof. by destruct l. Qed.

Lemma located_first s lc bc off t k :
  located s lc bc off t -> disk_range t -> 0 <= off -> off + kvSize t < 2 ^ 64 ->
  head (keys (to_list t)) = Some k -> LeafKey s lc = Some k.
Proof.
  intros Hloc Hr Hoff Hkv Hh. unfold keys in Hh. rewrite head_lookup, list_lookup_fmap in Hh.
  destruct (to_list t !! 0%nat) as [[k0 x]|] eqn:E; [|done]. injection Hh as ->.
  rewrite <- (Z.add_0_r lc). eapply located_leaf; eauto. lia.
Qed.

(** The persisted node of a located subtree. *)
Definition rootAt (lc bc : Z) (t : Node) : PersistedNode :=
  if IsLeaf t then mkPersisted true lc else mkPersisted false (bc + leafCount t - 2).

Lemma leafCount_leaf t : avl t -> IsLeaf t = true <-> leafCount t = 1.
Proof.
  destruct t as [|h sz v k l r]; [done|]. intros (Al & Ar & _).
  rewrite leafCount_branch. pose proof (leafCount_pos l). pose proof (leafCount_pos r).
  split; [done|lia].
Qed.

(** The position of a subtree is within the widths of the format: counters are
    [uint32], offsets [uint64], and the number of pending subtrees, which grows
    by one on each step to the right, stays a [uint8]. *)
Record position_ok (lc bc off : Z) (t : Node) : Prop := {
  pos_bc : 0 <= bc <= lc;
  pos_off : 0 <= off;
  pos_pre : lc - bc + Height t < 2 ^ 8;
  pos_leaves : lc + leafCount t < 2 ^ 32;
  pos_kvs : off + kvSize t < 2 ^ 64
}.

Lemma position_left lc bc off h sz v k l r :
  avl (Branch h sz v k l r) -> position_ok lc bc off (Branch h sz v k l r) ->
  position_ok lc bc off l.
Proof.
  intros (Al & Ar & Eh & _) []. rewrite leafCount_branch in *. simpl in *.
  pose proof (leafCount_pos r). pose proof (kvSize_pos r).
  pose proof (avl_pos _ Al). pose proof (avl_pos _ Ar). split; lia.
Qed.

Lemma position_right lc bc off h sz v k l r :
  avl (Branch h sz v k l r) -> position_ok lc bc off (Branch h sz v k l r) ->
  position_ok (lc + leafCount l) (bc + leafCount l - 1) (off + kvSize l) r.
Proof.
  intros (Al & Ar & Eh & _) []. rewrite leafCount_branch in *. simpl in *.
  pose proof (leafCount_pos l). pose proof (kvSize_pos l).
  pose proof (avl_pos _ Al). pose proof (avl_pos _ Ar). split; lia.
Qed.

(** The branch record of a located branch, decoded. *)
Lemma located_branch s lc bc off t h sz v k l r :
  t = Branch h sz v k l r ->
  located s lc bc off t -> avl t -> disk_range t -> position_ok lc bc off t ->
  exists d, NodeLayout s (bc + leafCount t - 2) = Some d /\
    layoutVersion d = Some v /\ layoutSize d = Some sz /\ layoutHeight d = Some h /\
    layoutPreTrees d = Some (lc - bc) /\ layoutKeyLeaf d = Some (lc + leafCount l) /\
    layoutHash d = Some (HashNode t) /\ sz = leafCount t /\
    getStartLeaf (bc + leafCount t - 2) sz (lc - bc) = lc /\
    getEndLeaf (bc + leafCount t - 2) (lc - bc) = lc + leafCount t - 1.
Proof.
  intros Et Hloc Ha Hr [Hbc Hoff Hpre Hlv Hkv].
  assert (sz = leafCount t) as Esz.
  { pose proof (avl_size _ Ha) as E. rewrite Et in E at 1. done. }
  assert (leafCount t = leafCount l + leafCount r) as Ec
    by (rewrite Et; apply leafCount_branch).
  pose proof (leafCount_pos l). pose proof (leafCount_pos r).
  assert (0 <= h /\ lc - bc + h < 2 ^ 8) as Hh.
  { pose proof (avl_pos _ Ha). rewrite Et in *. simpl in *. lia. }
  assert (0 <= v < 2 ^ 32) as Hv by (rewrite Et in Hr; apply Hr).
  destruct (branchRecord_decode v sz h (lc - bc) (lc + leafCount l) (HashNode t))
    as (D1 & D2 & D3 & D4 & D5 & D6); [lia..|apply length_HashNode|].
  assert (NodeLayout s (bc + leafCount t - 2) =
    Some (branchRecord v sz h (lc - bc) (lc + leafCount l) (HashNode t))) as HN
    by (rewrite Et in Hloc |- *; apply Hloc).
  eexists. split; [exact HN|]. split_and!; try done.
  - unfold getStartLeaf. rewrite u32_add_l.
    replace (u32 (bc + leafCount t - 2 + 2) - sz + (lc - bc))
      with (u32 (bc + leafCount t - 2 + 2) + (lc - bc - sz)) by lia.
    rewrite u32_add_l, u32_id; lia.
  - unfold getEndLeaf. rewrite u32_add_l, u32_id; lia.
Qed.

Lemma located_children s lc bc off t h sz v k l r :
  t = Branch h sz v k l r ->
  located s lc bc off t -> avl t -> disk_range t -> position_ok lc bc off t ->
  pLeft s (rootAt lc bc t) = Some (rootAt lc bc l) /\
  pRight s (rootAt lc bc t) = Some (rootAt (lc + leafCount l) (bc + leafCount l - 1) r).
Proof.
  intros Et Hloc Ha Hr Hp.
  destruct (located_branch s lc bc off t h sz v k l r)
    as (d & HN & _ & D2 & _ & D4 & D5 & _ & Esz & Est & Een); [done..|].
  assert (rootAt lc bc t = mkPersisted false (bc + leafCount t - 2)) as ->
    by (by rewrite Et).
  assert (leafCount t = leafCount l + leafCount r) as Ec by (rewrite Et; apply leafCount_branch).
  assert (avl l /\ avl r) as [Al Ar] by (rewrite Et in Ha; destruct Ha as (?&?&_); done).
  pose proof (leafCount_pos l). pose proof (leafCount_pos r).
  pose proof (pos_leaves _ _ _ _ Hp). pose proof (pos_bc _ _ _ _ Hp).
  unfold pLeft, pRight, branchNode. cbn [isLeaf index].
  rewrite HN. sbind. rewrite D4, D5, D2. sbind. rewrite Est, Een. unfold rootAt. split.
  - rewrite u32_id by lia. pose proof (leafCount_leaf l Al) as HlL. destruct (IsLeaf l).
    + rewrite (proj1 HlL) by done. by rewrite Z.eqb_refl.
    + rewrite (proj2 (Z.eqb_neq _ _)); [|intros ?; assert (leafCount l = 1) by lia; naive_solver].
      unfold getLeftBranch. rewrite <- (u32_id 2) at 1 by lia. rewrite u32_sub.
      do 2 f_equal. rewrite u32_id; lia.
  - pose proof (leafCount_leaf r Ar) as HrL. destruct (IsLeaf r).
    + rewrite Ec, (proj1 HrL) by done. rewrite (proj2 (Z.eqb_eq _ _)) by lia. done.
    + rewrite (proj2 (Z.eqb_neq _ _)); [|intros ?; assert (leafCount r = 1) by lia; naive_solver].
      do 2 f_equal. rewrite u32_id; lia.
Qed.

Lemma located_denotes s lc bc off t :
  located s lc bc off t -> avl t -> keyed t -> disk_range t -> position_ok lc bc off t ->
  denotes s (rootAt lc bc t) t.
Proof.
  revert lc bc off. induction t as [v k x|h sz v k l IHl r IHr];
    intros lc bc off Hloc Ha Hk Hr Hp.
  - destruct (located_leaf s lc bc off (Leaf v k x) 0 k x) as [E1 E2];
      [done|done|apply Hp|apply Hp|done|done|]. rewrite Z.add_0_r in *.
    destruct Hloc as [HL _]. destruct Hr as (Hv & Hkl & Hx).
    pose proof (pos_kvs _ _ _ _ Hp) as Hkv. pose proof (pos_off _ _ _ _ Hp). cbn [kvSize] in Hkv.
    destruct (leafRecord_decode v (zlen k) off (HashNode (Leaf v k x)))
      as (D1 & D2 & D3 & D4); [lia..|apply length_HashNode|].
    cbn [denotes rootAt IsLeaf Version Height Size Key Value].
    unfold pVersion, pHeight, pSize, pKey, pValue, pHash, leafNode. cbn [isLeaf index].
    rewrite HL, E1, E2. sbind. rewrite D1, D4. done.
  - destruct (located_branch s lc bc off (Branch h sz v k l r) h sz v k l r)
      as (d & HN & D1 & D2 & D3 & D4 & D5 & D6 & _); [done..|].
    destruct (located_children s lc bc off (Branch h sz v k l r) h sz v k l r) as [EL ER]; [done..|].
    pose proof (position_left _ _ _ _ _ _ _ _ _ Ha Hp) as Pl.
    pose proof (position_right _ _ _ _ _ _ _ _ _ Ha Hp) as Pr.
    destruct Hloc as (Ll & Lr & _), Ha as (Al & Ar & _), Hk as (Kl & Kr & Hkr),
      Hr as (Hv & Rl & Rr).
    assert (LeafKey s (lc + leafCount l) = Some k) as EK.
    { eapply located_first; eauto; apply Pr. }
    cbn [denotes]. rewrite EL, ER. cbn [rootAt IsLeaf Version Height Size Key Value].
    unfold pVersion, pHeight, pSize, pKey, pValue, pHash, branchNode.
    cbn [isLeaf index]. rewrite HN. sbind. rewrite D1, D2, D3, D5, D6. sbind.
    rewrite EK. split_and!; try done. do 2 eexists. split; [reflexivity|].
    split; [reflexivity|]. split; [by eapply IHl|by eapply IHr].
Qed.

(** ** What the writer appends *)

Fixpoint leafChunk (off : Z) (t : Node) : bytes :=
  match t with
  | Leaf v k x => leafRecord v (zlen k) off (HashNode t)
  | Branch _ _ _ _ l r => leafChunk off l ++ leafChunk (off + kvSize l) r
  end.

Fixpoint kvChunk (t : Node) : bytes :=
  match t with
  | Leaf _ k x => kvEnc k x
  | Branch _ _ _ _ l r => kvChunk l ++ kvChunk r
  end.

Fixpoint branchChunk (lc bc : Z) (t : Node) : bytes :=
  match t with
  | Leaf _ _ _ => []
  | Branch h sz v _ l r =>
      branchChunk lc bc l ++ branchChunk (lc + leafCount l) (bc + leafCount l - 1) r ++
      branchRecord v sz h (lc - bc) (lc + leafCount l) (HashNode t)
  end.

Lemma length_leafRecord v kl off t : length (leafRecord v kl off (HashNode t)) = 48%nat.
Proof.
  unfold leafRecord.
  by rewrite !length_app, !length_PutUint32, length_PutUint64, length_HashNode.
Qed.

Lemma length_branchRecord v sz h p kl t :
  length (branchRecord v sz h p kl (HashNode t)) = 48%nat.
Proof.
  unfold branchRecord. by rewrite !length_app, !length_PutUint32, length_HashNode.
Qed.

Lemma zlen_kvEnc k x : zlen (kvEnc k x) = 4 + 4 + zlen k + zlen x.
Proof. unfold kvEnc. rewrite !length_app, !length_PutUint32. lia. Qed.

Lemma zlen_leafChunk off t : zlen (leafChunk off t) = SizeLeaf * leafCount t.
Proof.
  revert off. induction t as [|h sz v k l IHl r IHr]; intros off.
  - cbn [leafChunk]. by rewrite length_leafRecord.
  - cbn [leafChunk]. rewrite length_app, Nat2Z.inj_add, IHl, IHr, leafCount_branch. lia.
Qed.

Lemma zlen_kvChunk t : zlen (kvChunk t) = kvSize t.
Proof.
  induction t as [|h sz v k l IHl r IHr]; cbn [kvChunk kvSize]; [apply zlen_kvEnc|].
  rewrite length_app, Nat2Z.inj_add, IHl, IHr. done.
Qed.

Lemma zlen_branchChunk lc bc t : zlen (branchChunk lc bc t) = SizeNode * (leafCount t - 1).
Proof.
  revert lc bc. induction t as [|h sz v k l IHl r IHr]; intros lc bc; [done|].
  cbn [branchChunk].
  rewrite !length_app, !Nat2Z.inj_add, IHl, IHr, leafCount_branch, length_branchRecord.
  change SizeNode with 48. lia.
Qed.

Lemma leavesCount_leaf v k x : leafCount (Leaf v k x) = 1.
Proof. done. Qed.

Lemma writeRecursive_spec ctxDone w t :
  (forall n, ctxDone n = false) ->
  avl t -> disk_range t ->
  position_ok (leafCounter w) (branchCounter w) (kvsOffset w) t ->
  writeRecursive ctxDone w t =
  Ok (mkWriter (nodesW w ++ branchChunk (leafCounter w) (branchCounter w) t)
        (leavesW w ++ leafChunk (kvsOffset w) t) (kvsW w ++ kvChunk t)
        (branchCounter w + leafCount t - 1) (leafCounter w + leafCount t)
        (kvsOffset w + kvSize t)).
Proof.
  intros Hctx. revert w. induction t as [v k x|h sz v k l IHl r IHr]; intros w Ha Hr Hp.
  - destruct Hp as [Hbc Hoff Hpre Hlv Hkv]. destruct Hr as (Hv & Hk & Hx).
    rewrite leavesCount_leaf in *. cbn [kvSize] in Hkv.
    cbn [writeRecursive branchChunk leafChunk kvChunk kvSize].
    unfold writeLeaf. rewrite Hctx, andb_false_r. cbn [fail_if mbind result_bind].
    unfold writeKeyValue. cbn [nodesW leavesW kvsW branchCounter leafCounter kvsOffset].
    rewrite (u32_id (leafCounter w + 1)), u64_id by lia.
    unfold kvEnc. rewrite app_nil_r. repeat f_equal; lia.
  - pose proof (position_left _ _ _ _ _ _ _ _ _ Ha Hp) as Pl.
    pose proof (position_right _ _ _ _ _ _ _ _ _ Ha Hp) as Pr.
    pose proof (avl_size _ Ha) as Esz. cbn [Size] in Esz.
    change (zlen (to_list _)) with (leafCount (Branch h sz v k l r)) in Esz.
    destruct Hp as [Hbc Hoff Hpre Hlv Hkv].
    pose proof (avl_pos _ Ha) as Hpos. cbn [Height Size] in Hpos, Hpre.
    destruct Ha as (Al & Ar & _), Hr as (Hv & Rl & Rr).
    cbn [writeRecursive]. rewrite IHl by done. sbind.
    rewrite IHr by (cbn [leafCounter branchCounter kvsOffset]; done). sbind.
    unfold writeBranch. cbn [nodesW leavesW kvsW branchCounter leafCounter kvsOffset].
    rewrite leafCount_branch in *. pose proof (leafCount_pos l). pose proof (leafCount_pos r).
    rewrite (u32_id (leafCounter w - branchCounter w)), u8_id, (u32_id sz),
      (u32_id (_ + 1)) by lia.
    cbn [branchChunk leafChunk kvChunk kvSize]. rewrite <- !app_assoc.
    do 2 f_equal; lia.
Qed.

Lemma slice_at (a b c : bytes) (i n : Z) :
  zlen a = i * n -> zlen b = n -> slice (a ++ b ++ c) (i * n) (i * n + n) = Some b.
Proof. intros Ha Hb. apply slice_app; lia. Qed.

(** Files that contain the chunks of a subtree at the right places locate it. *)
Lemma chunk_located s t lc bc off a1 a2 b1 b2 c1 c2 :
  nodes s = a1 ++ branchChunk lc bc t ++ a2 -> zlen a1 = bc * SizeNode ->
  leaves s = b1 ++ leafChunk off t ++ b2 -> zlen b1 = lc * SizeLeaf ->
  kvsData s = c1 ++ kvChunk t ++ c2 -> zlen c1 = off ->
  located s lc bc off t.
Proof.
  revert lc bc off a1 a2 b1 b2 c1 c2.
  induction t as [v k x|h sz v k l IHl r IHr]; intros lc bc off a1 a2 b1 b2 c1 c2 N A L B K C.
  - split.
    + unfold LeafLayout. rewrite L. cbn [leafChunk]. apply slice_at; [done|].
      by rewrite length_leafRecord.
    + exists c1, c2. done.
  - cbn [branchChunk leafChunk kvChunk] in N, L, K. 
    rewrite <- !app_assoc in N. rewrite <- !app_assoc in L. rewrite <- !app_assoc in K.
    pose proof (zlen_branchChunk lc bc l) as Zb.
    pose proof (zlen_leafChunk off l) as Zl. pose proof (zlen_kvChunk l) as Zk.
    cbn [located]. split_and!.
    + eapply IHl; eauto.
    + eapply (IHr _ _ _ (a1 ++ branchChunk lc bc l) _ (b1 ++ leafChunk off l) _
                (c1 ++ kvChunk l)).
      * rewrite <- app_assoc. exact N.
      * rewrite length_app. lia.
      * rewrite <- app_assoc. exact L.
      * rewrite length_app. lia.
      * rewrite <- app_assoc. exact K.
      * rewrite length_app. lia.
    + unfold NodeLayout. rewrite N.
      set (br := branchChunk (lc + leafCount l) (bc + leafCount l - 1) r).
      replace (a1 ++ branchChunk lc bc l ++ br ++ _) with
        ((a1 ++ branchChunk lc bc l ++ br) ++
         branchRecord v sz h (lc - bc) (lc + leafCount l) (HashNode (Branch h sz v k l r)) ++ a2)
        by (by rewrite <- !app_assoc).
      apply slice_at; [|by rewrite length_branchRecord].
      rewrite !length_app, !Nat2Z.inj_add. unfold br. rewrite Zb, zlen_branchChunk, leafCount_branch.
      lia.
Qed.

(** ** Binary search *)

Lemma search_loop_spec fuel f g i j :
  (forall h, i <= h < j -> f h = Some (g h)) ->
  (forall h h', i <= h <= h' -> h' < j -> g h = true -> g h' = true) ->
  i <= j -> (Z.to_nat (j - i) < fuel)%nat ->
  exists r, search_loop fuel f i j = Some r /\ i <= r <= j /\
    (forall h, i <= h < r -> g h = false) /\ (forall h, r <= h < j -> g h = true).
Proof.
  revert i j. induction fuel as [|fuel IH]; intros i j Hf Hm Hij Hfuel; [lia|].
  cbn [search_loop]. destruct (Z.ltb_spec i j) as [Hlt|Hge].
  - pose proof (Z.div_lt_upper_bound (i + j) 2 j ltac:(lia) ltac:(lia)).
    pose proof (Z.div_le_lower_bound (i + j) 2 i ltac:(lia) ltac:(lia)).
    set (m := (i + j) / 2) in *. rewrite Hf by lia. sbind.
    destruct (g m) eqn:Eg.
    + destruct (IH i m) as (r & E & Hr & H1 & H2); [intros; apply Hf; lia| |lia|lia|].
      { intros h h' ? ?. apply Hm; lia. }
      exists r. split_and!; [done|lia|lia|done|]. intros h Hh.
      destruct (Z.lt_ge_cases h m); [apply H2; lia|]. apply (Hm m); [lia|lia|done].
    + destruct (IH (m + 1) j) as (r & E & Hr & H1 & H2); [intros; apply Hf; lia| |lia|lia|].
      { intros h h' ? ?. apply Hm; lia. }
      exists r. split_and!; [done|lia|lia| |intros; apply H2; lia]. intros h Hh.
      destruct (Z.lt_ge_cases m h); [apply H1; lia|].
      destruct (g h) eqn:Eh; [|done]. rewrite (Hm h m) in Eg; [done|lia|lia|done].
  - exists i. split_and!; [done|lia|lia|intros; lia|intros; lia].
Qed.

Lemma Search_spec n f g :
  0 <= n -> (forall h, 0 <= h < n -> f h = Some (g h)) ->
  (forall h h', 0 <= h <= h' -> h' < n -> g h = true -> g h' = true) ->
  exists r, Search n f = Some r /\ 0 <= r <= n /\
    (forall h, 0 <= h < r -> g h = false) /\ (forall h, r <= h < n -> g h = true).
Proof. intros Hn Hf Hm. apply search_loop_spec; auto. lia. Qed.

(** The first position whose key is not below [key] is the rank. *)
Lemma kv_rank_position key l r :
  kv_sorted l -> 0 <= r <= zlen l ->
  (forall h k, 0 <= h < r -> keys l !! Z.to_nat h = Some k -> k <b key) ->
  (forall h k, r <= h < zlen l -> keys l !! Z.to_nat h = Some k -> key <=b k) ->
  kv_rank key l = r /\
  kv_get key l = match l !! Z.to_nat r with
                 | Some (k, v) => if bytes_eqb key k then Some v else None
                 | None => None
                 end.
Proof.
  intros Hs Hr H1 H2. rewrite <- (take_drop (Z.to_nat r) l) at 1 2.
  assert (forall x, x ∈ keys (take (Z.to_nat r) l) -> x <b key) as F1.
  { intros x. unfold keys. rewrite fmap_take. intros [i Hi]%list_elem_of_lookup.
    apply lookup_take_Some in Hi as [Hi ?]. apply (H1 (Z.of_nat i)); [lia|].
    by rewrite Nat2Z.id. }
  assert (forall x, x ∈ keys (drop (Z.to_nat r) l) -> key <=b x) as F2.
  { intros x. unfold keys. rewrite fmap_drop. intros [i Hi]%list_elem_of_lookup.
    rewrite lookup_drop in Hi. apply (H2 (Z.of_nat (Z.to_nat r + i))); [|by rewrite Nat2Z.id].
    apply lookup_lt_Some in Hi. rewrite length_fmap in Hi. lia. }
  split.
  - rewrite kv_rank_app, (kv_rank_all _ _ F1), (kv_rank_none _ _ F2), length_take. lia.
  - rewrite kv_get_app, (proj2 (kv_get_None key (take _ l))).
    2:{ intros Hin. apply F1 in Hin. by apply bytes_lt_irrefl in Hin. }
    rewrite <- (take_drop (Z.to_nat r) l) in Hs.
    apply kv_sorted_app in Hs as (_ & Hs & _).
    rewrite <- (Nat.add_0_r (Z.to_nat r)) at 2. rewrite <- lookup_drop.
    destruct (drop (Z.to_nat r) l) as [|[k v] l']; [done|]. cbn [kv_get lookup list_lookup].
    destruct (bytes_eqb key k) eqn:E; [done|]. apply bytes_eqb_neq in E.
    apply kv_get_None. intros Hin. apply kv_sorted_cons in Hs as [_ F].
    assert (key <=b k) by (apply F2; left). specialize (F _ Hin). apply E. bytes_order.
Qed.

(** ** [Get] and [GetByIndex] of a persisted node *)

Lemma keys_lookup l i : keys l !! i = fst <$> l !! i.
Proof. apply list_lookup_fmap. Qed.

(** The range of leaves a located node covers, as the code computes it. *)
Lemma located_range s lc bc off t :
  located s lc bc off t -> avl t -> disk_range t -> position_ok lc bc off t ->
  (if isLeaf (rootAt lc bc t) then Some (index (rootAt lc bc t), 1)
   else
     data ← branchNode s (rootAt lc bc t);
     preTrees ← layoutPreTrees data;
     count ← layoutSize data;
     Some (getStartLeaf (index (rootAt lc bc t)) count preTrees, count))
  = Some (lc, leafCount t).
Proof.
  intros Hloc Ha Hr Hp. destruct t as [v k x|h sz v k l r]; [done|].
  destruct (located_branch s lc bc off (Branch h sz v k l r) h sz v k l r)
    as (d & HN & D1 & D2 & D3 & D4 & D5 & D6 & Esz & Est & Een); [done..|].
  unfold branchNode. cbn [rootAt IsLeaf isLeaf index]. rewrite HN. sbind.
  rewrite D4. sbind. rewrite D2. sbind. rewrite Est. by rewrite Esz.
Qed.

Lemma located_Get s lc bc off t key :
  located s lc bc off t -> wf t -> disk_range t -> position_ok lc bc off t ->
  pGet s (rootAt lc bc t) key = Some (Get t key).
Proof.
  intros Hloc Hwf Hr Hp. pose proof Hwf as (Ha & _ & Hs).
  pose proof (pos_leaves _ _ _ _ Hp). pose proof (pos_bc _ _ _ _ Hp).
  pose proof (leafCount_pos t). pose proof (avl_size _ Ha) as Esz.
  fold (leafCount t) in Esz.
  rewrite Get_correct by (done || lia).
  unfold pGet. rewrite (located_range s lc bc off t) by done. sbind.
  set (ks := keys (to_list t)).
  assert (zlen ks = leafCount t) as Ek by (unfold ks, keys; by rewrite length_fmap).
  assert (forall h k x, 0 <= h -> to_list t !! Z.to_nat h = Some (k, x) ->
    LeafKey s (lc + h) = Some k /\ LeafKeyValue s (lc + h) = Some (k, x)) as Hleaf.
  { intros. eapply located_leaf; eauto; apply Hp. }
  assert (forall h, 0 <= h < leafCount t -> exists k x, to_list t !! Z.to_nat h = Some (k, x)) as Hin.
  { intros h Hh. destruct (to_list t !! Z.to_nat h) as [[k x]|] eqn:E; [eauto|].
    apply lookup_ge_None in E. unfold leafCount in *. lia. }
  destruct (Search_spec (leafCount t)
    (fun i => leafKey ← LeafKey s (u32 (lc + u32 i)); Some (negb (bytes_ltb leafKey key)))
    (fun i => negb (bytes_ltb (default [] (ks !! Z.to_nat i)) key)))
    as (r & ES & Hrr & Hlow & Hhigh); [lia| | |].
  { intros h Hh. destruct (Hin h Hh) as (k & x & E). rewrite !u32_id by (rewrite ?u32_id; lia).
    destruct (Hleaf h k x) as [-> _]; [lia|done|]. sbind. unfold ks. rewrite keys_lookup, E. done. }
  { intros h h' Hh Hh'. destruct (Hin h) as (k & x & E); [lia|].
    destruct (Hin h') as (k' & x' & E'); [lia|].
    unfold ks. rewrite !keys_lookup, E, E'. simpl.
    destruct (bytes_ltb_spec k key) as [|Hle], (bytes_ltb_spec k' key) as [Hlt|]; try done.
    intros _. exfalso. destruct (decide (h = h')) as [->|Hne].
    - rewrite E in E'. injection E' as -> ->. bytes_order.
    - assert (k <b k'); [|bytes_order].
      eapply (StronglySorted_lookup_lt bytes_lt ks (Z.to_nat h) (Z.to_nat h'));
        [done| | |lia]; unfold ks; rewrite keys_lookup; [rewrite E|rewrite E']; done. }
  rewrite ES. sbind.
  destruct (kv_rank_position key (to_list t) r) as [-> ->]; [done|done| | |].
  { intros h k Hh Hk. specialize (Hlow h Hh). unfold ks in Hlow. rewrite Hk in Hlow.
    simpl in Hlow. by destruct (bytes_ltb_spec k key). }
  { intros h k Hh Hk. specialize (Hhigh h Hh). unfold ks in Hhigh. rewrite Hk in Hhigh.
    simpl in Hhigh. by destruct (bytes_ltb_spec k key). }
  rewrite (u32_id r), (u32_id (r + lc)), (u32_id (lc + _)) by lia.
  destruct (Z.leb_spec (lc + leafCount t) (r + lc)).
  - rewrite lookup_ge_None_2 by (unfold leafCount in *; lia). done.
  - destruct (Hin r) as (k & x & E); [lia|]. rewrite E.
    replace (r + lc) with (lc + r) by lia.
    destruct (Hleaf r k x) as [_ ->]; [lia|done|]. sbind.
    destruct (bytes_eqb k key) eqn:Eb.
    + apply bytes_eqb_eq in Eb as ->. by rewrite bytes_eqb_refl.
    + apply bytes_eqb_neq in Eb. by rewrite (proj2 (bytes_eqb_neq key k)).
Qed.

Lemma located_GetByIndex s lc bc off t i :
  located s lc bc off t -> wf t -> disk_range t -> position_ok lc bc off t ->
  0 <= i -> lc + i < 2 ^ 32 ->
  pGetByIndex s (rootAt lc bc t) i = Some (GetByIndex t i).
Proof.
  intros Hloc (Ha & Hk & Hs) Hr Hp Hi Hw. pose proof (avl_size _ Ha) as Esz.
  fold (leafCount t) in Esz. pose proof (pos_leaves _ _ _ _ Hp). pose proof (pos_bc _ _ _ _ Hp).
  rewrite GetByIndex_correct by (done || lia).
  assert (forall k x, to_list t !! Z.to_nat i = Some (k, x) ->
    LeafKeyValue s (lc + i) = Some (k, x)) as Hleaf.
  { intros. eapply located_leaf; eauto; apply Hp. }
  destruct t as [v k x|h sz v k l r].
  - unfold pGetByIndex. cbn [rootAt IsLeaf isLeaf index].
    destruct (Z.eqb_spec i 0) as [->|Hne]; cbn [negb].
    + specialize (Hleaf k x eq_refl). rewrite Z.add_0_r in Hleaf. by rewrite Hleaf.
    + symmetry. f_equal. apply lookup_ge_None. simpl. lia.
  - destruct (located_branch s lc bc off (Branch h sz v k l r) h sz v k l r)
      as (d & HN & D1 & D2 & D3 & D4 & D5 & D6 & Esz' & Est & Een); [done..|].
    unfold pGetByIndex, branchNode. cbn [rootAt IsLeaf isLeaf index]. rewrite HN. sbind.
    rewrite D4. sbind. rewrite D2. sbind. rewrite Est, Een. rewrite u32_id by lia.
    destruct (Z.ltb_spec (lc + leafCount (Branch h sz v k l r) - 1) (lc + i)).
    + symmetry. f_equal. apply lookup_ge_None. unfold leafCount in *. lia.
    + destruct (to_list (Branch h sz v k l r) !! Z.to_nat i) as [[k' x']|] eqn:E.
      * by rewrite (Hleaf k' x').
      * apply lookup_ge_None in E. unfold leafCount in *. lia.
Qed.

(** ** Persisted trees

    [persisted s p t]: node [p] of snapshot [s] holds the well-formed tree [t]. *)
Definition persisted (s : Snapshot) (p : PersistedNode) (t : Node) : Prop :=
  exists lc bc off, p = rootAt lc bc t /\ located s lc bc off t /\ wf t /\
                    disk_range t /\ position_ok lc bc off t.

Lemma persisted_denotes s p t : persisted s p t -> denotes s p t.
Proof. intros (lc & bc & off & -> & ? & (? & ? & ?) & ? & ?). by eapply located_denotes. Qed.

Lemma persisted_wf s p t : persisted s p t -> wf t.
Proof. by intros (lc & bc & off & _ & _ & ? & _). Qed.

Lemma persisted_Get s p t key : persisted s p t -> pGet s p key = Some (Get t key).
Proof. intros (lc & bc & off & -> & ? & ? & ? & ?). by eapply located_Get. Qed.

Lemma persisted_children s p h sz v k l r :
  persisted s p (Branch h sz v k l r) ->
  exists pl pr, pLeft s p = Some pl /\ pRight s p = Some pr /\
                persisted s pl l /\ persisted s pr r.
Proof.
  intros (lc & bc & off & -> & Hloc & Hwf & Hr & Hpos).
  pose proof (wf_branch _ _ _ _ _ _ Hwf) as (Wl & Wr & Ha & _).
  destruct (located_children s lc bc off (Branch h sz v k l r) h sz v k l r) as [EL ER]; [done..|].
  pose proof (position_left _ _ _ _ _ _ _ _ _ Ha Hpos) as Pl.
  pose proof (position_right _ _ _ _ _ _ _ _ _ Ha Hpos) as Pr.
  destruct Hloc as (Ll & Lr & _), Hr as (_ & Rl & Rr).
  do 2 eexists. split_and!; [exact EL|exact ER| |]; unfold persisted; eauto 10.
Qed.

(** ** Writing and opening a snapshot *)

(** Trees that fit the file format. *)
Definition storable (t : Node) : Prop :=
  wf t /\ disk_range t /\ leafCount t < 2 ^ 32 /\ kvSize t < 2 ^ 64.

Lemma storable_position t : storable t -> position_ok 0 0 0 t.
Proof.
  intros ((Ha & _) & _ & Hl & Hk). pose proof (avl_size _ Ha) as Es. fold (leafCount t) in Es.
  pose proof (avl_height_bound _ Ha). split; lia.
Qed.

Definition metadataBytes (version : Z) : bytes :=
  PutUint32 SnapshotFileMagic ++ PutUint32 SnapshotFormat ++ PutUint32 version.

Lemma metadata_decode version :
  0 <= version < 2 ^ 32 ->
  length (metadataBytes version) = 12%nat /\
  Uint32 (metadataBytes version) = Some SnapshotFileMagic /\
  Uint32 (drop 4 (metadataBytes version)) = Some SnapshotFormat /\
  Uint32 (drop 8 (metadataBytes version)) = Some version.
Proof.
  intros Hv. unfold metadataBytes. split_and!.
  - by rewrite !length_app, !length_PutUint32.
  - apply Uint32_Put. unfold SnapshotFileMagic. lia.
  - rewrite drop_app_length' by (by rewrite length_PutUint32).
    apply Uint32_Put. unfold SnapshotFormat. lia.
  - rewrite app_assoc.
    rewrite drop_app_length' by (by rewrite length_app, !length_PutUint32).
    by apply Uint32_Put_end.
Qed.

Lemma WriteSnapshot_files ctxDone version t :
  (forall n, ctxDone n = false) -> storable t ->
  WriteSnapshotWithContext ctxDone version (Some t) =
  Ok (mkFiles (metadataBytes version) (branchChunk 0 0 t) (leafChunk 0 t) (kvChunk t)).
Proof.
  intros Hctx Hst. pose proof (storable_position _ Hst) as Hp.
  destruct Hst as ((Ha & _) & Hr & _). unfold WriteSnapshotWithContext, writeSnapshot.
  rewrite (writeRecursive_spec ctxDone newSnapshotWriter t) by done.
  sbind. cbn [leafCounter newSnapshotWriter]. pose proof (leafCount_pos t).
  rewrite (proj2 (Z.ltb_lt _ _)) by lia. done.
Qed.

Lemma OpenSnapshot_written version t :
  0 <= version < 2 ^ 32 -> storable t ->
  OpenSnapshot (mkFiles (metadataBytes version) (branchChunk 0 0 t) (leafChunk 0 t) (kvChunk t)) =
  Ok (mkSnapshot (branchChunk 0 0 t) (leafChunk 0 t) (kvChunk t) version (Some (rootAt 0 0 t))).
Proof.
  intros Hv Hst. destruct (metadata_decode version Hv) as (M0 & M1 & M2 & M3).
  unfold OpenSnapshot. cbn [fMetadata fNodes fLeaves fKvs].
  rewrite M0, M1, M2, M3. cbn [default Z.of_nat Pos.of_succ_nat].
  rewrite zlen_branchChunk, zlen_leafChunk.
  rewrite (Z.mul_comm SizeNode (leafCount t - 1)), (Z.mul_comm SizeLeaf (leafCount t)).
  rewrite !Z.mod_mul, !Z.div_mul by done. pose proof (leafCount_pos t).
  rewrite (proj2 (Z.ltb_lt 0 (leafCount t))) by lia.
  rewrite (proj2 (Z.eqb_eq (leafCount t - 1 + 1) _)) by lia.
  rewrite (proj2 (Z.eqb_neq (leafCount t) 0)) by lia.
  cbn [fail_if negb andb orb mbind result_bind Z.eqb]. sbind.
  pose proof (leafCount_leaf t ltac:(apply Hst)) as Hleaf. unfold rootAt.
  destruct Hst as (_ & _ & Hlt & _). do 2 f_equal. destruct (IsLeaf t).
  - rewrite (proj1 Hleaf) by done. done.
  - assert (leafCount t <> 1) by naive_solver.
    rewrite (proj2 (Z.ltb_lt 0 (leafCount t - 1))) by lia.
    rewrite u32_id by lia. by replace (leafCount t - 1 - 1) with (0 + leafCount t - 2) by lia.
Qed.

Lemma written_persisted version t :
  storable t ->
  persisted
    (mkSnapshot (branchChunk 0 0 t) (leafChunk 0 t) (kvChunk t) version (Some (rootAt 0 0 t)))
    (rootAt 0 0 t) t.
Proof.
  intros Hst. exists 0, 0, 0. split; [done|]. pose proof (storable_position _ Hst).
  destruct Hst as (Hwf & Hr & _). split_and!; try done.
  eapply (chunk_located _ _ _ _ _ [] [] [] [] [] []); cbn [nodes leaves kvsData app];
    by rewrite ?app_nil_r.
Qed.

(** ** Properties *)

(** Writing a tree to a snapshot directory and opening it gives a snapshot
    of the same version whose root node returns, through every accessor and
    recursively, exactly what the tree holds; the empty tree gives the empty
    snapshot. *)
Theorem snapshot_roundtrip ctxDone version t :
  (forall n, ctxDone n = false) -> 0 <= version < 2 ^ 32 ->
  match t with Some t => storable t | None => True end ->
  exists f s, WriteSnapshotWithContext ctxDone version t = Ok f /\ OpenSnapshot f = Ok s /\
    snapVersion s = version /\
    match t with
    | Some t => exists p, RootNode s = Some p /\ denotes s p t
    | None => IsEmptySnapshot s = true
    end.
Proof.
  intros Hctx Hv Ht. destruct t as [t|].
  - do 2 eexists. split; [by apply WriteSnapshot_files|].
    split; [by apply OpenSnapshot_written|]. split; [done|].
    eexists. split; [reflexivity|]. by apply persisted_denotes, written_persisted.
  - destruct (metadata_decode version Hv) as (M0 & M1 & M2 & M3).
    exists (mkFiles (metadataBytes version) [] [] []), (mkSnapshot [] [] [] version None).
    split; [reflexivity|]. split; [|done].
    unfold OpenSnapshot. cbn [fMetadata fNodes fLeaves fKvs]. by rewrite M0, M1, M2, M3.
Qed.

Lemma ex3_storable : storable ex3.
Proof. split_and!; [exact ex3_wf|simpl; lia|reflexivity|reflexivity]. Qed.

Lemma snapshot_roundtrip_witness :
  exists f s, WriteSnapshotWithContext (fun _ => false) 7 (Some ex3) = Ok f /\
    OpenSnapshot f = Ok s /\ snapVersion s = 7 /\
    exists p, RootNode s = Some p /\ denotes s p ex3.
Proof.
  apply (snapshot_roundtrip (fun _ => false) 7 (Some ex3)); [done|lia|exact ex3_storable].
Defined.

(** C27: on a snapshot written from a tree, the binary search over the leaves file
    ([PersistedNode.Get]) and the positional lookup ([GetByIndex]) of the root
    return what the in-memory tree's [Get] and [GetByIndex] return, index
    included, and never read out of bounds. *)
Theorem persisted_lookup ctxDone version t f s p :
  (forall n, ctxDone n = false) -> 0 <= version < 2 ^ 32 -> storable t ->
  WriteSnapshotWithContext ctxDone version (Some t) = Ok f -> OpenSnapshot f = Ok s ->
  RootNode s = Some p ->
  (forall key, pGet s p key = Some (Get t key)) /\
  (forall i, 0 <= i < 2 ^ 32 -> pGetByIndex s p i = Some (GetByIndex t i)).
Proof.
  intros Hctx Hv Hst. rewrite WriteSnapshot_files by done. intros [= <-].
  rewrite OpenSnapshot_written by done. intros [= <-] [= <-]. split.
  - intros key. by apply persisted_Get, written_persisted.
  - intros i Hi. pose proof (storable_position _ Hst) as Hp.
    destruct Hst as (Hwf & Hr & _). eapply (located_GetByIndex _ 0 0 0); try done; try lia.
    eapply (chunk_located _ _ _ _ _ [] [] [] [] [] []); cbn [nodes leaves kvsData app];
      by rewrite ?app_nil_r.
Qed.

(** The snapshot of [ex3]. *)
Definition ex3_files : snapshotFiles :=
  match WriteSnapshotWithContext (fun _ => false) 7 (Some ex3) with
  | Ok f => f
  | Err _ => mkFiles [] [] [] []
  end.

Definition ex3_snapshot : Snapshot :=
  match OpenSnapshot ex3_files with Ok s => s | Err _ => NewEmptySnapshot 0 end.

Lemma ex3_files_ok : WriteSnapshotWithContext (fun _ => false) 7 (Some ex3) = Ok ex3_files.
Proof. unfold ex3_files. by rewrite WriteSnapshot_files by (done || exact ex3_storable). Qed.

Lemma ex3_snapshot_ok :
  OpenSnapshot ex3_files = Ok ex3_snapshot /\ RootNode ex3_snapshot = Some (mkPersisted false 1).
Proof.
  unfold ex3_snapshot, ex3_files. rewrite WriteSnapshot_files by (done || exact ex3_storable).
  by rewrite OpenSnapshot_written by (lia || exact ex3_storable).
Qed.

Lemma persisted_lookup_witness :
  pGet ex3_snapshot (mkPersisted false 1) [Byte.x02] = Some (Some [Byte.x0b], 1).
Proof.
  refine (eq_trans (proj1 (persisted_lookup (fun _ => false) 7 ex3 ex3_files ex3_snapshot
    (mkPersisted false 1) _ _ _ _ _ _) [Byte.x02]) _).
  - done.
  - lia.
  - exact ex3_storable.
  - exact ex3_files_ok.
  - exact (proj1 ex3_snapshot_ok).
  - exact (proj2 ex3_snapshot_ok).
  - reflexivity.
Defined.

(** the positional lookup adds the index to the start leaf in [uint32] without
    a bound, so on a node that does not start at leaf 0 an index past the end
    can wrap and return a leaf that is not in the node: for the right child of
    a three-leaf root, index [2 ^ 32 - 1] returns the root's first leaf, where
    the in-memory node returns nil. *)
Theorem GetByIndex_wraps :
  pRight ex3_snapshot (mkPersisted false 1) = Some (mkPersisted false 0) /\
  pGetByIndex ex3_snapshot (mkPersisted false 0) (2 ^ 32 - 1) =
    Some (Some ([Byte.x01], [Byte.x0a])) /\
  (r ← Right ex3; GetByIndex r (2 ^ 32 - 1)) = None.
Proof. vm_compute. done. Qed.
