(* ===== verification/Tree.v ===== *)
(** * The versioned tree: [memiavl/tree.go]

    [Tree] with its version, root, snapshot and read cache, and the operations
    on it.  The cache is [cosmos/iavl/cache], code outside this repository: it is
    an instance of class [Cache], whose laws are what that package documents.
    Trees are values here; the copy-on-write version and the sharing of nodes are
    in [CowTree], iteration is in [Iterator], export in [Export]. *)

From S2P Require Import Prelude KV Binary Sha256 Node Hash Snapshot Persisted.

Open Scope string_scope.
Open Scope Z_scope.
Open Scope list_scope.

(** ** The cache interface *)

(** [cache.New], [Add], [Get] (which also updates the recency order) and
    [Remove], on [cacheNode]s. *)
Class Cache (C : Type) := {
  cache_new : Z -> C;
  cache_add : C -> bytes -> bytes -> C;
  cache_get : C -> bytes -> option bytes;
  cache_touch : C -> bytes -> C;
  cache_remove : C -> bytes -> C
}.

(** A lookup returns only what was added last under that key and not removed
    since; entries may be evicted at any time. *)
Class CacheLaws (C : Type) `{Cache C} : Prop := {
  cache_get_new n k : cache_get (cache_new n) k = None;
  cache_get_add c k v k' v' :
    cache_get (cache_add c k v) k' = Some v' ->
    (k' = k /\ v' = v) \/ (k' <> k /\ cache_get c k' = Some v');
  cache_get_touch c k k' v' :
    cache_get (cache_touch c k) k' = Some v' -> cache_get c k' = Some v';
  cache_get_remove c k k' v' :
    cache_get (cache_remove c k) k' = Some v' -> k' <> k /\ cache_get c k' = Some v'
}.

(** ** Change sets *)

Record KVPair := mkPair { Delete : bool; PairKey : bytes; PairValue : option bytes }.

Abbreviation ChangeSet := (list KVPair).

(** ** State *)

Section Tree.
Context {C : Type} `{CacheLaws C}.

Record Tree := mkTree {
  version : Z;
  treeRoot : option Node;
  snapshot : option Snapshot;
  cache : option C;
  zeroCopy : bool
}.

Definition NewCache (cacheSize : Z) : option C :=
  if cacheSize =? 0 then None else Some (cache_new cacheSize).

(** [None] is the panic "version overflows uint32". *)
Definition NewEmptyTree (version cacheSize : Z) : option Tree :=
  if MaxUint32 <=? version then None
  else Some (mkTree (u32 version) None None (NewCache cacheSize) true).

Definition New (cacheSize : Z) : option Tree := NewEmptyTree 0 cacheSize.

Definition NewWithInitialVersion (initialVersion cacheSize : Z) : option Tree :=
  if initialVersion <=? 1 then New cacheSize
  else NewEmptyTree (initialVersion - 1) cacheSize.

(** The tree a persisted node denotes, read through the accessors; the depth
    of a stored tree is below 256. *)
Fixpoint readNode (fuel : nat) (s : Snapshot) (p : PersistedNode) : option Node :=
  match fuel with
  | O => None
  | S fuel =>
      if isLeaf p then
        v ← pVersion s p;
        '(key, value) ← LeafKeyValue s (index p);
        Some (Leaf v key value)
      else
        h ← pHeight s p;
        sz ← pSize s p;
        v ← pVersion s p;
        key ← pKey s p;
        l ← pLeft s p;
        r ← pRight s p;
        l ← readNode fuel s l;
        r ← readNode fuel s r;
        Some (Branch h sz v key l r)
  end.

Definition NewFromSnapshot (s : Snapshot) (zeroCopy : bool) (cacheSize : Z) : option Tree :=
  root ←
    (if IsEmptySnapshot s then Some None
     else p ← RootNode s; Some <$> readNode 256 s p);
  Some (mkTree (snapVersion s) root (Some s) (NewCache cacheSize) zeroCopy).

Definition SetZeroCopy (t : Tree) (z : bool) : Tree :=
  mkTree (version t) (treeRoot t) (snapshot t) (cache t) z.

Definition IsEmpty (t : Tree) : bool :=
  match treeRoot t with None => true | Some _ => false end.

Definition withVersion (t : Tree) (v : Z) : Tree :=
  mkTree v (treeRoot t) (snapshot t) (cache t) (zeroCopy t).

Definition setInitialVersion (t : Tree) (initialVersion : Z) : Tree :=
  if 0 <? version t then t
  else if initialVersion <? 1 then withVersion t 0
  else withVersion t (initialVersion - 1).

Definition SetInitialVersion (t : Tree) (initialVersion : Z) : result Tree :=
  fail_if (MaxUint32 <=? initialVersion) "version overflows uint32" ;;
  Ok (setInitialVersion t (u32 initialVersion)).

(** ** Updates *)

Definition set (t : Tree) (key : bytes) (value : option bytes) : option Tree :=
  let value := default [] value in
  '(root, _) ← setRecursive (treeRoot t) key value (u32 (version t + 1));
  Some (mkTree (version t) (Some root) (snapshot t)
          ((fun c => cache_add c key value) <$> cache t) (zeroCopy t)).

Definition remove (t : Tree) (key : bytes) : option Tree :=
  '(_, root, _) ← removeRecursive (treeRoot t) key (u32 (version t + 1));
  Some (mkTree (version t) root (snapshot t)
          ((fun c => cache_remove c key) <$> cache t) (zeroCopy t)).

Fixpoint ApplyChangeSet (t : Tree) (cs : ChangeSet) : option Tree :=
  match cs with
  | [] => Some t
  | kv :: cs =>
      t ← (if Delete kv then remove t (PairKey kv) else set t (PairKey kv) (PairValue kv));
      ApplyChangeSet t cs
  end.

Definition RootHash (t : Tree) : bytes :=
  match treeRoot t with None => emptyHash | Some n => HashNode n end.

(** [SaveVersion]: the hash ([None] when not asked for), the new version. *)
Definition SaveVersion (t : Tree) (updateHash : bool) : result (option bytes * Z * Tree) :=
  fail_if (version t =? MaxUint32) "version overflows uint32" ;;
  let hash := if updateHash then Some (RootHash t) else None in
  let v := u32 (version t + 1) in
  Ok (hash, v, withVersion t v).

(** ** Queries *)

Definition GetWithIndex (t : Tree) (key : bytes) : Z * option bytes :=
  match treeRoot t with
  | None => (0, None)
  | Some root => let '(value, index) := Get root key in (index, value)
  end.

Definition TreeGetByIndex (t : Tree) (index : Z) : option (bytes * bytes) :=
  if MaxUint32 <? index then None
  else match treeRoot t with
       | None => None
       | Some root => GetByIndex root (u32 index)
       end.

Definition withCache (t : Tree) (c : option C) : Tree :=
  mkTree (version t) (treeRoot t) (snapshot t) c (zeroCopy t).

(** [Tree.Get] reads through the cache and fills it. *)
Definition TreeGet (t : Tree) (key : bytes) : option bytes * Tree :=
  let hit := c ← cache t; cache_get c key in
  let t := withCache t ((fun c => cache_touch c key) <$> cache t) in
  match hit with
  | Some v => (Some v, t)
  | None =>
      match (GetWithIndex t key).2 with
      | None => (None, t)
      | Some value => (Some value, withCache t ((fun c => cache_add c key value) <$> cache t))
      end
  end.

Definition Has (t : Tree) (key : bytes) : bool :=
  match (TreeGet t key).1 with Some _ => true | None => false end.

Definition Close (t : Tree) : Tree := mkTree (version t) None None (cache t) (zeroCopy t).

(** ** Invariant and abstract state *)

(** The cache never disagrees with the tree. *)
Definition coherent (t : Tree) : Prop :=
  match cache t with
  | None => True
  | Some c => forall k v, cache_get c k = Some v -> kv_get k (content (treeRoot t)) = Some v
  end.

Definition tree_ok (t : Tree) : Prop :=
  wf_root (treeRoot t) /\ coherent t /\ 0 <= version t < 2 ^ 32.

(** The specification of a change set. *)
Definition apply_pair (l : kvs) (p : KVPair) : kvs :=
  if Delete p then kv_remove (PairKey p) l else kv_set (PairKey p) (default [] (PairValue p)) l.

Definition apply_pairs (l : kvs) (cs : ChangeSet) : kvs := foldl apply_pair l cs.

(** ** Lemmas *)

Lemma content_nonneg_size (n : option Node) :
  wf_root n -> match n with None => True | Some n => Size n = zlen (to_list n) end.
Proof. destruct n as [n|]; [|done]. intros (Ha & _). by apply avl_size. Qed.

Lemma set_correct t key value :
  tree_ok t -> zlen (content (treeRoot t)) < 2 ^ 63 - 1 ->
  exists t', set t key value = Some t' /\ tree_ok t' /\ version t' = version t /\
    content (treeRoot t') = kv_set key (default [] value) (content (treeRoot t)).
Proof.
  intros (Hwf & Hc & Hv) Hs. set (x := default [] value).
  assert (exists n u, setRecursive (treeRoot t) key x (u32 (version t + 1)) = Some (n, u) /\
    wf n /\ to_list n = kv_set key x (content (treeRoot t))) as (n & u & E & Hn & El).
  { destruct (treeRoot t) as [r|].
    - destruct (setNode_correct r key x (u32 (version t + 1))) as (n & u & E & Hp);
        [done|rewrite (avl_size r) by apply Hwf; done|].
      exists n, u. split; [done|]. split; [by eapply set_post_wf|apply Hp].
    - do 2 eexists. split; [reflexivity|]. split; [|done].
      split_and!; try done. apply kv_sorted_singleton. }
  unfold set. fold x. rewrite E. sbind. eexists. split; [reflexivity|].
  split; [|done]. split; [done|]. split; [|done]. unfold coherent in *. cbn [cache treeRoot content].
  destruct (cache t) as [c|]; [|done]. sbind. intros k v [[-> ->]|[Hne Hg]]%cache_get_add.
  - rewrite El. apply kv_get_set_eq. destruct (treeRoot t); [apply Hwf|constructor].
  - rewrite El, kv_get_set_ne by done. auto.
Qed.

Lemma remove_correct t key :
  tree_ok t -> zlen (content (treeRoot t)) < 2 ^ 63 ->
  exists t', remove t key = Some t' /\ tree_ok t' /\ version t' = version t /\
    content (treeRoot t') = kv_remove key (content (treeRoot t)).
Proof.
  intros (Hwf & Hc & Hv) Hs.
  assert (exists x n nk, removeRecursive (treeRoot t) key (u32 (version t + 1)) = Some (x, n, nk) /\
    wf_root n /\ content n = kv_remove key (content (treeRoot t))) as (x & n & nk & E & Hn & El).
  { destruct (treeRoot t) as [r|]; [|by do 3 eexists].
    destruct (removeNode_correct r key (u32 (version t + 1))) as (x & n & nk & E & Ex & Hp);
      [done|rewrite (avl_size r) by apply Hwf; done|].
    exists x, n, nk. split; [done|]. destruct x as [x|].
    - destruct Hp as [Ec Hp]. split; [|done]. destruct n as [n|]; [|done].
      destruct Hp as (?&?&_). split_and!; try done. simpl in Ec. rewrite Ec.
      apply kv_remove_sorted, Hwf.
    - destruct Hp as [-> _]. split; [done|]. symmetry. apply kv_remove_notin.
      by apply kv_get_None. }
  unfold remove. rewrite E. sbind. eexists. split; [reflexivity|].
  split; [|done]. split; [done|]. split; [|done]. unfold coherent in *. cbn [cache treeRoot content].
  destruct (cache t) as [c|]; [|done]. sbind. intros k v [Hne Hg]%cache_get_remove.
  rewrite El, kv_get_remove_ne by done. auto.
Qed.

Lemma apply_pair_length l p : kv_sorted l -> zlen (apply_pair l p) <= zlen l + 1.
Proof.
  intros Hs. unfold apply_pair. destruct (Delete p).
  - pose proof (kv_remove_length_le (PairKey p) l). lia.
  - rewrite kv_set_length by done. case_bool_decide; lia.
Qed.

Lemma apply_pairs_length l cs : kv_sorted l -> zlen (apply_pairs l cs) <= zlen l + zlen cs.
Proof.
  revert l. induction cs as [|p cs IH]; intros l Hs; cbn [apply_pairs foldl]; [cbn; lia|].
  pose proof (apply_pair_length l p Hs).
  assert (kv_sorted (apply_pair l p)) as Hs'.
  { unfold apply_pair. destruct (Delete p); [by apply kv_remove_sorted|by apply kv_set_sorted]. }
  specialize (IH _ Hs'). unfold apply_pairs in IH. cbn [length]. lia.
Qed.

Lemma content_sorted n : wf_root n -> kv_sorted (content n).
Proof. destruct n as [n|]; [intros (_&_&?); done|constructor]. Qed.

(** Reading a stored tree through the accessors gives the tree. *)
Lemma readNode_persisted fuel s p n :
  persisted s p n -> Height n < Z.of_nat fuel -> readNode fuel s p = Some n.
Proof.
  revert fuel p. induction n as [v k x|h sz v k l IHl r IHr]; intros fuel p Hp Hf.
  - destruct fuel as [|fuel]; [simpl in Hf; lia|].
    pose proof (persisted_denotes _ _ _ Hp) as (Dv & _ & _ & _ & _ & _ & DL & _).
    destruct Hp as (lc & bc & off & -> & Hloc & _ & Hr & Hpos).
    cbn [readNode]. rewrite DL. cbn [IsLeaf]. rewrite Dv. sbind.
    destruct (located_leaf s lc bc off (Leaf v k x) 0 k x) as [_ E];
      [done|done|apply Hpos|apply Hpos|done|done|]. rewrite Z.add_0_r in E.
    cbn [rootAt IsLeaf index]. by rewrite E.
  - pose proof (persisted_wf _ _ _ Hp) as (Ha & _). pose proof Ha as (Al & Ar & Eh & _).
    pose proof (avl_pos _ Al). pose proof (avl_pos _ Ar). cbn [Height] in Hf.
    destruct fuel as [|fuel]; [lia|].
    pose proof (persisted_denotes _ _ _ Hp) as (Dv & Dh & Ds & Dk & _ & _ & DL & _).
    destruct (persisted_children _ _ _ _ _ _ _ _ Hp) as (pl & pr & El & Er & Pl & Pr).
    cbn [readNode]. rewrite DL. cbn [IsLeaf]. rewrite Dh, Ds, Dv, Dk, El, Er. sbind.
    rewrite (IHl fuel pl), (IHr fuel pr) by (done || lia). done.
Qed.

Lemma GetWithIndex_ok (t : Tree) key :
  wf_root (treeRoot t) -> zlen (content (treeRoot t)) < 2 ^ 32 ->
  GetWithIndex t key =
    (kv_rank key (content (treeRoot t)), kv_get key (content (treeRoot t))).
Proof.
  intros Hwf Hs. unfold GetWithIndex. destruct (treeRoot t) as [r|]; [|done].
  pose proof (avl_size r (proj1 Hwf)). cbn [content wf_root] in *.
  by rewrite Get_correct by (done || lia).
Qed.

Lemma ApplyChangeSet_ok t cs :
  tree_ok t -> zlen (content (treeRoot t)) + zlen cs < 2 ^ 63 - 1 ->
  exists t', ApplyChangeSet t cs = Some t' /\ tree_ok t' /\ version t' = version t /\
    content (treeRoot t') = apply_pairs (content (treeRoot t)) cs.
Proof.
  revert t. induction cs as [|p cs IH]; intros t Hok Hs.
  { exists t. by split_and!. }
  cbn [ApplyChangeSet length] in *.
  assert (exists t1, (if Delete p then remove t (PairKey p) else set t (PairKey p) (PairValue p)) = Some t1
    /\ tree_ok t1 /\ version t1 = version t /\
    content (treeRoot t1) = apply_pair (content (treeRoot t)) p) as (t1 & E1 & Hok1 & Ev1 & Ec1).
  { unfold apply_pair. destruct (Delete p); [apply remove_correct|apply set_correct]; try done; lia. }
  rewrite E1. sbind.
  destruct (IH t1) as (t2 & E2 & Hok2 & Ev2 & Ec2); [done| |].
  { rewrite Ec1.
    pose proof (apply_pair_length (content (treeRoot t)) p (content_sorted _ (proj1 Hok))). lia. }
  exists t2. split_and!; [done|done|congruence|]. by rewrite Ec2, Ec1.
Qed.

Lemma TreeGet_ok t key :
  tree_ok t -> zlen (content (treeRoot t)) < 2 ^ 32 ->
  (TreeGet t key).1 = kv_get key (content (treeRoot t)) /\
  tree_ok (TreeGet t key).2 /\ treeRoot (TreeGet t key).2 = treeRoot t.
Proof.
  intros (Hwf & Hc & Hv) Hs.
  assert ((GetWithIndex t key).2 = kv_get key (content (treeRoot t))) as EG.
  { unfold GetWithIndex. destruct (treeRoot t) as [r|]; [|done].
    rewrite Get_correct; [done|done|]. by rewrite (avl_size r) by apply Hwf. }
  unfold TreeGet, coherent in *. destruct (cache t) as [c|] eqn:Ecache; sbind.
  - destruct (cache_get c key) as [v|] eqn:Eg; cbn [fst snd].
    + rewrite (Hc key v Eg). split; [done|]. split; [|done]. split; [done|]. split; [|done].
      unfold coherent. cbn [cache withCache treeRoot]. intros k v' Hk%cache_get_touch. auto.
    + change (GetWithIndex (withCache t (Some (cache_touch c key))) key) with (GetWithIndex t key).
      rewrite EG. destruct (kv_get key (content (treeRoot t))) as [v|] eqn:Ek; cbn [fst snd];
        (split; [done|]); (split; [|done]); (split; [done|]); (split; [|done]);
        unfold coherent; cbn [cache withCache treeRoot]; sbind.
      * intros k v' [[-> ->]|[_ Hk%cache_get_touch]]%cache_get_add; auto.
      * intros k v' Hk%cache_get_touch. auto.
  - change (GetWithIndex (withCache t None) key) with (GetWithIndex t key).
    rewrite EG. destruct (kv_get key (content (treeRoot t))); cbn [fst snd];
      (split; [done|]); (split; [|done]); (split; [done|]); by split.
Qed.

End Tree.
Arguments Tree : clear implicits.

(** ** A concrete cache, for the witnesses: a one-entry cache. *)

Definition slot := option (bytes * bytes).

#[global] Instance slot_cache : Cache slot := {
  cache_new _ := None;
  cache_add _ k v := Some (k, v);
  cache_get c k := match c with
                   | Some (k', v) => if bytes_eqb k k' then Some v else None
                   | None => None
                   end;
  cache_touch c _ := c;
  cache_remove c k := match c with
                      | Some (k', v) => if bytes_eqb k k' then None else c
                      | None => None
                      end
}.

#[global] Instance slot_laws : CacheLaws slot.
Proof.
  split; simpl.
  - done.
  - intros c k v k' v'. destruct (bytes_eqb k' k) eqn:E; [|done].
    apply bytes_eqb_eq in E as ->. intros [= ->]. auto.
  - done.
  - intros [[k1 v1]|] k k' v'; [|done].
    destruct (bytes_eqb k k1) eqn:E; [done|]. destruct (bytes_eqb k' k1) eqn:E'; [|done].
    apply bytes_eqb_neq in E. apply bytes_eqb_eq in E' as ->. auto.
Qed.

Definition ex_tree : Tree slot := mkTree 1 (Some ex3) None (Some None) true.

Lemma ex_tree_ok : tree_ok ex_tree.
Proof. split; [exact ex3_wf|]. split; [done|]. simpl. lia. Qed.

(** ** Properties *)

(** C20: applying a change set never panics, keeps the tree balanced, ordered and
    its cached heights, sizes and read cache right, and the store afterwards
    holds exactly the old pairs with the deletions and assignments applied in
    order, a nil value being stored as the empty one. *)
Theorem ApplyChangeSet_correct {C} `{CacheLaws C} (t : Tree C) (cs : ChangeSet) :
  tree_ok t -> zlen (content (treeRoot t)) + zlen cs < 2 ^ 63 - 1 ->
  exists t', ApplyChangeSet t cs = Some t' /\ tree_ok t' /\ version t' = version t /\
    content (treeRoot t') = apply_pairs (content (treeRoot t)) cs.
Proof. apply ApplyChangeSet_ok. Qed.

Lemma ApplyChangeSet_correct_witness :
  exists t', ApplyChangeSet ex_tree
      [mkPair true [Byte.x01] None; mkPair false [Byte.x05] None] = Some t' /\
    tree_ok t' /\ version t' = 1 /\
    content (treeRoot t') = [([Byte.x02], [Byte.x0b]); ([Byte.x03], [Byte.x0c]); ([Byte.x05], [])].
Proof.
  apply (ApplyChangeSet_correct ex_tree
    [mkPair true [Byte.x01] None; mkPair false [Byte.x05] None]);
    [exact ex_tree_ok|vm_compute; reflexivity].
Defined.

(** a read through the cache returns what the store holds, whatever the cache
    evicts, and keeps the cache coherent with the tree. *)
Theorem TreeGet_correct {C} `{CacheLaws C} (t : Tree C) key :
  tree_ok t -> zlen (content (treeRoot t)) < 2 ^ 32 ->
  (TreeGet t key).1 = kv_get key (content (treeRoot t)) /\
  tree_ok (TreeGet t key).2 /\ treeRoot (TreeGet t key).2 = treeRoot t.
Proof. apply TreeGet_ok. Qed.

Lemma TreeGet_correct_witness : (TreeGet ex_tree [Byte.x02]).1 = Some [Byte.x0b].
Proof.
  exact (proj1 (TreeGet_correct ex_tree [Byte.x02] ex_tree_ok eq_refl)).
Defined.

(** [GetWithIndex] returns the value of the key and the number of smaller keys
    in the store, and for a key that is present that index, given back to
    [GetByIndex], yields the key and its value. *)
Theorem GetWithIndex_GetByIndex {C} (t : Tree C) key :
  wf_root (treeRoot t) -> zlen (content (treeRoot t)) < 2 ^ 32 ->
  GetWithIndex t key =
    (kv_rank key (content (treeRoot t)), kv_get key (content (treeRoot t))) /\
  (forall v, (GetWithIndex t key).2 = Some v ->
     TreeGetByIndex t (GetWithIndex t key).1 = Some (key, v)).
Proof.
  intros Hwf Hs. rewrite GetWithIndex_ok by done. split; [done|].
  cbn [fst snd]. intros v Hv. unfold TreeGetByIndex.
  destruct (treeRoot t) as [r|]; [|done].
  pose proof (avl_size r (proj1 Hwf)) as Es. cbn [content wf_root] in *.
  pose proof (kv_rank_bound key (to_list r)).
  rewrite (proj2 (Z.ltb_ge _ _)) by (unfold MaxUint32; lia).
  rewrite u32_id by lia. rewrite GetByIndex_correct; [|apply Hwf|lia|lia].
  by apply kv_rank_lookup; [apply Hwf|].
Qed.

Lemma GetWithIndex_GetByIndex_witness : TreeGetByIndex ex_tree 1 = Some ([Byte.x02], [Byte.x0b]).
Proof.
  exact (proj2 (GetWithIndex_GetByIndex ex_tree [Byte.x02] ex3_wf eq_refl) [Byte.x0b] eq_refl).
Defined.
