(* ===== verification/CowHeap.v ===== *)
(** * Nodes in memory: copy on write in [memiavl/mem_node.go] and [memiavl/node.go]

    The [MemNode]s of all trees live in one heap, the way the Go program shares
    them: a [Node] interface value is a [ref], a pointer to a [MemNode] or a
    [PersistedNode].  The operations of [Node] are given again here as
    computations on that heap, with [Mutate] cloning or modifying in place
    according to the copy-on-write version, and with the hash cached in the node.
    A [PersistedNode] is the tree it denotes (file [Persisted]); it is never
    written.  The theorems relate a computation on the heap to the function
    on tree values of file [Node]. *)

From S2P Require Import Prelude KV Binary Sha256 Node Hash.

(** ** The heap *)

Abbreviation loc := positive.

Inductive ref : Type :=
| RMem (l : loc)
| RPers (n : Node).

Record MemNode := mkMem {
  mheight : Z;
  msize : Z;
  mversion : Z;
  mkey : bytes;
  mvalue : option bytes;
  mleft : option ref;
  mright : option ref;
  mhash : option bytes
}.

Abbreviation Heap := (gmap loc MemNode).
Abbreviation HM := (SE Heap).

(** A location not in use. *)
Definition nextLoc (h : Heap) : loc := Pos.succ (map_fold (fun l _ m => Pos.max l m) 1%positive h).

Definition load (l : loc) : HM MemNode := fun h => x ← h !! l; Some (Ok x, h).
Definition assign (l : loc) (f : MemNode -> MemNode) : HM unit :=
  fun h => x ← h !! l; Some (Ok tt, <[l := f x]> h).
Definition alloc (x : MemNode) : HM loc := fun h => Some (Ok (nextLoc h), <[nextLoc h := x]> h).

(** ** Assignments to the fields *)

Definition withHeight (z : Z) (x : MemNode) : MemNode :=
  mkMem z (msize x) (mversion x) (mkey x) (mvalue x) (mleft x) (mright x) (mhash x).
Definition withSize (z : Z) (x : MemNode) : MemNode :=
  mkMem (mheight x) z (mversion x) (mkey x) (mvalue x) (mleft x) (mright x) (mhash x).
Definition withKey (k : bytes) (x : MemNode) : MemNode :=
  mkMem (mheight x) (msize x) (mversion x) k (mvalue x) (mleft x) (mright x) (mhash x).
Definition withValue (v : bytes) (x : MemNode) : MemNode :=
  mkMem (mheight x) (msize x) (mversion x) (mkey x) (Some v) (mleft x) (mright x) (mhash x).
Definition withLeft (r : option ref) (x : MemNode) : MemNode :=
  mkMem (mheight x) (msize x) (mversion x) (mkey x) (mvalue x) r (mright x) (mhash x).
Definition withRight (r : option ref) (x : MemNode) : MemNode :=
  mkMem (mheight x) (msize x) (mversion x) (mkey x) (mvalue x) (mleft x) r (mhash x).
Definition withHash (b : option bytes) (x : MemNode) : MemNode :=
  mkMem (mheight x) (msize x) (mversion x) (mkey x) (mvalue x) (mleft x) (mright x) b.
Definition mutated (version : Z) (x : MemNode) : MemNode :=
  mkMem (mheight x) (msize x) version (mkey x) (mvalue x) (mleft x) (mright x) None.

(** ** The methods of the interface *)

Definition memLeaf (key value : bytes) (version : Z) : MemNode :=
  mkMem 0 1 version key (Some value) None None None.

(** The fields of a [PersistedNode], as its methods return them. *)
Definition persistedCell (n : Node) : MemNode :=
  mkMem (Height n) (Size n) (Version n) (Key n) (Value n)
        (RPers <$> Left n) (RPers <$> Right n) None.

Definition deref (r : ref) : HM MemNode :=
  match r with RMem l => load l | RPers n => mret (persistedCell n) end.

Definition mHeight (r : ref) : HM Z := x ← deref r; mret (mheight x).
Definition mSize (r : ref) : HM Z := x ← deref r; mret (msize x).
Definition mKey (r : ref) : HM bytes := x ← deref r; mret (mkey x).
Definition mValue (r : ref) : HM (option bytes) := x ← deref r; mret (mvalue x).

Definition mIsLeaf (r : ref) : HM bool :=
  match r with
  | RMem l => x ← load l; mret (mheight x =? 0)
  | RPers n => mret (IsLeaf n)
  end.

(** [Left] and [Right] of a persisted leaf panic; of a leaf in memory they are nil. *)
Definition mLeft (r : ref) : HM (option ref) :=
  match r with
  | RMem l => x ← load l; mret (mleft x)
  | RPers n => l ← orPanic (Left n); mret (Some (RPers l))
  end.

Definition mRight (r : ref) : HM (option ref) :=
  match r with
  | RMem l => x ← load l; mret (mright x)
  | RPers n => r ← orPanic (Right n); mret (Some (RPers r))
  end.

(** [MemNode.Mutate] and [PersistedNode.Mutate]. *)
Definition mMutate (r : ref) (version cowVersion : Z) : HM loc :=
  match r with
  | RMem node =>
      x ← load node;
      n ← (if mversion x <=? cowVersion then alloc x else mret node);
      _ ← assign n (mutated version);
      mret n
  | RPers n => alloc (mutated version (persistedCell n))
  end.

(** ** Balancing *)

(** The fields [node.left] and [node.right] where they are dereferenced. *)
Definition leftOf (l : loc) : HM ref := x ← load l; orPanic (mleft x).
Definition rightOf (l : loc) : HM ref := x ← load l; orPanic (mright x).

Definition mUpdateHeightSize (node : loc) : HM unit :=
  l ← leftOf node; r ← rightOf node;
  hl ← mHeight l; hr ← mHeight r;
  _ ← assign node (withHeight (u8 (Z.max hl hr + 1)));
  sl ← mSize l; sr ← mSize r;
  assign node (withSize (i64 (sl + sr))).

(** [calcBalance] on a node of the interface. *)
Definition mCalcBalance (r : ref) : HM Z :=
  l ← mLeft r; l ← orPanic l; hl ← mHeight l;
  r ← mRight r; r ← orPanic r; hr ← mHeight r;
  mret (hl - hr).

Definition mRotateRight (node : loc) (version cowVersion : Z) : HM loc :=
  l ← leftOf node;
  newSelf ← mMutate l version cowVersion;
  l ← leftOf node;
  lr ← mRight l;
  _ ← assign node (withLeft lr);
  _ ← assign newSelf (withRight (Some (RMem node)));
  _ ← mUpdateHeightSize node;
  _ ← mUpdateHeightSize newSelf;
  mret newSelf.

Definition mRotateLeft (node : loc) (version cowVersion : Z) : HM loc :=
  r ← rightOf node;
  newSelf ← mMutate r version cowVersion;
  r ← rightOf node;
  rl ← mLeft r;
  _ ← assign node (withRight rl);
  _ ← assign newSelf (withLeft (Some (RMem node)));
  _ ← mUpdateHeightSize node;
  _ ← mUpdateHeightSize newSelf;
  mret newSelf.

Definition mReBalance (node : loc) (version cowVersion : Z) : HM loc :=
  balance ← mCalcBalance (RMem node);
  if 1 <? balance then
    l ← leftOf node;
    leftBalance ← mCalcBalance l;
    if 0 <=? leftBalance then mRotateRight node version cowVersion
    else
      n ← mMutate l version cowVersion;
      n ← mRotateLeft n version cowVersion;
      _ ← assign node (withLeft (Some (RMem n)));
      mRotateRight node version cowVersion
  else if balance <? -1 then
    r ← rightOf node;
    rightBalance ← mCalcBalance r;
    if rightBalance <=? 0 then mRotateLeft node version cowVersion
    else
      n ← mMutate r version cowVersion;
      n ← mRotateRight n version cowVersion;
      _ ← assign node (withRight (Some (RMem n)));
      mRotateLeft node version cowVersion
  else mret node.

(** ** Insertion and deletion

    The fuel bounds the depth of the recursion, which is the height of the tree. *)
Fixpoint mSetRecursive (fuel : nat) (node : option ref) (key value : bytes)
    (version cowVersion : Z) : HM (loc * bool) :=
  match fuel, node with
  | O, _ => orPanic None
  | S _, None => l ← alloc (memLeaf key value version); mret (l, true)
  | S fuel, Some node =>
      nodeKey ← mKey node;
      leaf ← mIsLeaf node;
      if (leaf : bool) then
        match bytes_compare key nodeKey with
        | Lt =>
            l ← alloc (memLeaf key value version);
            n ← alloc (mkMem 1 2 version nodeKey None (Some (RMem l)) (Some node) None);
            mret (n, false)
        | Gt =>
            l ← alloc (memLeaf key value version);
            n ← alloc (mkMem 1 2 version key None (Some node) (Some (RMem l)) None);
            mret (n, false)
        | Eq =>
            newNode ← mMutate node version cowVersion;
            _ ← assign newNode (withValue value);
            mret (newNode, true)
        end
      else
        '(newNode, updated) ←
          (if bytes_ltb key nodeKey then
             l ← mLeft node;
             '(newChild, updated) ← mSetRecursive fuel l key value version cowVersion;
             newNode ← mMutate node version cowVersion;
             _ ← assign newNode (withLeft (Some (RMem newChild)));
             mret (newNode, updated)
           else
             r ← mRight node;
             '(newChild, updated) ← mSetRecursive fuel r key value version cowVersion;
             newNode ← mMutate node version cowVersion;
             _ ← assign newNode (withRight (Some (RMem newChild)));
             mret (newNode, updated));
        if (updated : bool) then mret (newNode, updated)
        else
          _ ← mUpdateHeightSize newNode;
          newNode ← mReBalance newNode version cowVersion;
          mret (newNode, updated)
  end.

Fixpoint mRemoveRecursive (fuel : nat) (node : option ref) (key : bytes)
    (version cowVersion : Z) : HM (option bytes * option ref * option bytes) :=
  match fuel, node with
  | O, _ => orPanic None
  | S _, None => mret (None, None, None)
  | S fuel, Some node =>
      leaf ← mIsLeaf node;
      nodeKey ← mKey node;
      if (leaf : bool) then
        if bytes_eqb nodeKey key then value ← mValue node; mret (value, None, None)
        else mret (None, Some node, None)
      else if bytes_ltb key nodeKey then
        l ← mLeft node;
        '(value, newLeft, newKey) ← mRemoveRecursive fuel l key version cowVersion;
        match value, newLeft with
        | None, _ => mret (None, Some node, None)
        | Some _, None => r ← mRight node; nodeKey ← mKey node; mret (value, r, Some nodeKey)
        | Some _, Some _ =>
            newNode ← mMutate node version cowVersion;
            _ ← assign newNode (withLeft newLeft);
            _ ← mUpdateHeightSize newNode;
            newNode ← mReBalance newNode version cowVersion;
            mret (value, Some (RMem newNode), newKey)
        end
      else
        r ← mRight node;
        '(value, newRight, newKey) ← mRemoveRecursive fuel r key version cowVersion;
        match value, newRight with
        | None, _ => mret (None, Some node, None)
        | Some _, None => l ← mLeft node; mret (value, l, None)
        | Some _, Some _ =>
            newNode ← mMutate node version cowVersion;
            _ ← assign newNode (withRight newRight);
            _ ← match newKey with Some k => assign newNode (withKey k) | None => mret tt end;
            _ ← mUpdateHeightSize newNode;
            newNode ← mReBalance newNode version cowVersion;
            mret (value, Some (RMem newNode), None)
        end
  end.

(** ** Hashes and lookup *)

(** [writeHashBytes] on a [MemNode], the hashes of its children given. *)
Definition mHashBytes (x : MemNode) (lh rh : bytes) : bytes :=
  PutVarint (mheight x) ++ PutVarint (msize x) ++ PutVarint (mversion x) ++
  (if mheight x =? 0 then EncodeBytes (mkey x) ++ EncodeBytes (Sha256.Sum256 (default [] (mvalue x)))
   else EncodeBytes lh ++ EncodeBytes rh).

(** [MemNode.Hash], which caches the hash in the node and in the nodes below it;
    a persisted node has its hash stored. *)
Fixpoint mHash (fuel : nat) (r : ref) : HM bytes :=
  match fuel, r with
  | O, _ => orPanic None
  | S _, RPers n => mret (HashNode n)
  | S fuel, RMem node =>
      x ← load node;
      match mhash x with
      | Some b => mret b
      | None =>
          b ← (if mheight x =? 0 then mret (Sha256.Sum256 (mHashBytes x [] []))
               else
                 l ← orPanic (mleft x);
                 lh ← mHash fuel l;
                 r ← orPanic (mright x);
                 rh ← mHash fuel r;
                 mret (Sha256.Sum256 (mHashBytes x lh rh)));
          _ ← assign node (withHash (Some b));
          mret b
      end
  end.

(** [MemNode.Get]; a persisted node is searched as the tree it denotes. *)
Fixpoint mGet (fuel : nat) (r : ref) (key : bytes) : HM (option bytes * Z) :=
  match fuel, r with
  | O, _ => orPanic None
  | S _, RPers n => mret (Get n key)
  | S fuel, RMem node =>
      x ← load node;
      if mheight x =? 0 then
        mret match bytes_compare (mkey x) key with
             | Lt => (None, 1)
             | Gt => (None, 0)
             | Eq => (mvalue x, 0)
             end
      else if bytes_ltb key (mkey x) then
        l ← orPanic (mleft x); mGet fuel l key
      else
        r ← orPanic (mright x);
        '(value, index) ← mGet fuel r key;
        sz ← mSize r;
        mret (value, u32 (u32 (index + u32 (msize x)) - u32 sz))
  end.

(** ** What a reference denotes

    [own h c r n F R]: in heap [h] the reference [r] denotes the tree [n].  [R] are
    the locations it reaches, and [F] those of them that a tree with copy-on-write
    version [c] may modify in place; no location of [F] is reached twice.  A
    cached hash is the hash of the denoted tree. *)

Abbreviation locs := (gset loc).

(** The cell behind a reference and, if any, its location in [F] and [R]. *)
Definition view (h : Heap) (c : Z) (r : ref) (x : MemNode) (F0 R0 : locs) : Prop :=
  match r with
  | RMem l => h !! l = Some x /\ R0 = {[l]} /\ F0 = if mversion x <=? c then ∅ else {[l]}
  | RPers n => x = persistedCell n /\ R0 = ∅ /\ F0 = ∅
  end.

Definition cellOf (n : Node) (x : MemNode) (lr rr : option ref) : Prop :=
  (mhash x = None \/ mhash x = Some (HashNode n)) /\
  x = mkMem (Height n) (Size n) (Version n) (Key n) (Value n) lr rr (mhash x).

Fixpoint own (h : Heap) (c : Z) (r : ref) (n : Node) (F R : locs) : Prop :=
  exists x F0 R0, view h c r x F0 R0 /\
    match n with
    | Leaf _ _ _ => cellOf n x None None /\ F = F0 /\ R = R0
    | Branch _ _ _ _ nl nr =>
        exists lr rr Fl Rl Fr Rr, cellOf n x (Some lr) (Some rr) /\
          own h c lr nl Fl Rl /\ own h c rr nr Fr Rr /\
          F0 ## Fl /\ F0 ## Fr /\ Fl ## Fr /\
          F = F0 ∪ Fl ∪ Fr /\ R = R0 ∪ Rl ∪ Rr
    end.

(** A node that the operation in progress may modify: it belongs to the tree and has
    no cached hash. *)
Definition fresh (h : Heap) (c : Z) (l : loc) : Prop :=
  exists x, h !! l = Some x /\ c < mversion x /\ mhash x = None.

Definition ownM (h : Heap) (c : Z) (l : loc) (n : Node) (F R : locs) : Prop :=
  own h c (RMem l) n F R /\ fresh h c l.

(** [h'] is [h] with only locations of [F] and new ones written. *)
Definition keeps (F : locs) (h h' : Heap) : Prop :=
  forall p x, h !! p = Some x -> p ∉ F -> h' !! p = Some x.

(** Moreover [F'] and [R'] consist of locations of [F] and [R] and of new ones. *)
Definition upd (h : Heap) (F R : locs) (h' : Heap) (F' R' : locs) : Prop :=
  keeps F h h' /\
  (forall p, p ∈ F' -> p ∈ F \/ h !! p = None) /\
  (forall p, p ∈ R' -> p ∈ R \/ h !! p = None).

(** *** Heap primitives *)

Lemma nextLoc_fresh (h : Heap) : h !! nextLoc h = None.
Proof.
  enough (forall l x, h !! l = Some x -> (l <= map_fold (fun l _ m => Pos.max l m) 1 h)%positive) as H.
  { destruct (h !! nextLoc h) eqn:E; [|done]. apply H in E. unfold nextLoc in E. lia. }
  apply (map_fold_weak_ind (fun m h => forall l x, h !! l = Some x -> (l <= m)%positive)); [done|].
  intros l x m s Hs IH l' x' Hl'. destruct (decide (l = l')) as [->|Hne]; [lia|].
  rewrite lookup_insert_ne in Hl' by done. apply IH in Hl'. lia.
Qed.

Section Run.
Context {A : Type}.
Implicit Types h : Heap.

Lemma load_run l x h (k : MemNode -> HM A) : h !! l = Some x -> (load l ≫= k) h = k x h.
Proof. intros E. unfold load, mbind, SE_bind. by rewrite E. Qed.

Lemma assign_run l f x h (k : unit -> HM A) :
  h !! l = Some x -> (assign l f ≫= k) h = k tt (<[l := f x]> h).
Proof. intros E. unfold assign, mbind, SE_bind. by rewrite E. Qed.

Lemma assign_end l f x h : h !! l = Some x -> assign l f h = Some (Ok tt, <[l := f x]> h).
Proof. intros E. unfold assign. by rewrite E. Qed.

Lemma alloc_run x h (k : loc -> HM A) :
  (alloc x ≫= k) h = k (nextLoc h) (<[nextLoc h := x]> h).
Proof. done. Qed.

Lemma leftOf_run l x r h (k : ref -> HM A) :
  h !! l = Some x -> mleft x = Some r -> (leftOf l ≫= k) h = k r h.
Proof. intros E El. unfold leftOf, load, mbind, SE_bind. rewrite E. sbind. by rewrite El. Qed.

Lemma rightOf_run l x r h (k : ref -> HM A) :
  h !! l = Some x -> mright x = Some r -> (rightOf l ≫= k) h = k r h.
Proof. intros E El. unfold rightOf, load, mbind, SE_bind. rewrite E. sbind. by rewrite El. Qed.
End Run.

(** *** Framing *)

Lemma own_frame h h' c r n F R :
  own h c r n F R -> (forall p x, p ∈ R -> h !! p = Some x -> h' !! p = Some x) ->
  own h' c r n F R.
Proof.
  revert r F R. induction n as [v k val|hh s v k nl IHl nr IHr]; intros r F R;
    cbn [own]; intros (x & F0 & R0 & Hv & Hn) Hh.
  - exists x, F0, R0. split; [|done]. destruct r as [l|]; [|done].
    destruct Hn as (_ & _ & ->), Hv as (E & -> & ->). split; [|done].
    apply Hh; [set_solver|done].
  - destruct Hn as (lr & rr & Fl & Rl & Fr & Rr & Hc & Hl & Hr & D1 & D2 & D3 & -> & ->).
    exists x, F0, R0. split.
    { destruct r as [l|]; [|done]. destruct Hv as (E & -> & ->). split; [|done].
      apply Hh; [set_solver|done]. }
    exists lr, rr, Fl, Rl, Fr, Rr. split_and!; try done.
    + apply IHl; [done|]. intros p y Hp. apply Hh. set_solver.
    + apply IHr; [done|]. intros p y Hp. apply Hh. set_solver.
Qed.

Lemma own_sub h c r n F R : own h c r n F R -> F ⊆ R.
Proof.
  revert r F R. induction n as [v k val|hh s v k nl IHl nr IHr]; intros r F R;
    cbn [own]; intros (x & F0 & R0 & Hv & Hn).
  - destruct Hn as (_ & -> & ->). destruct r; destruct Hv as (_ & -> & ->); [|done].
    case_match; set_solver.
  - destruct Hn as (lr & rr & Fl & Rl & Fr & Rr & _ & Hl%IHl & Hr%IHr & _ & _ & _ & -> & ->).
    assert (F0 ⊆ R0); [|set_solver].
    destruct r; destruct Hv as (_ & -> & ->); [|done]. case_match; set_solver.
Qed.

(** The locations of [F] are exactly those younger than the copy-on-write
    version. *)
Lemma own_cell h c r n F R p :
  own h c r n F R -> p ∈ R -> exists x, h !! p = Some x /\ (p ∈ F \/ mversion x <= c).
Proof.
  revert r F R. induction n as [v k val|hh s v k nl IHl nr IHr]; intros r F R;
    cbn [own]; intros (x & F0 & R0 & Hv & Hn) Hp.
  - destruct Hn as (_ & -> & ->). destruct r; destruct Hv as (E & -> & ->); [|set_solver].
    apply elem_of_singleton in Hp as ->. exists x. split; [done|]. case_match; [right|left]; set_solver by lia.
  - destruct Hn as (lr & rr & Fl & Rl & Fr & Rr & _ & Hl & Hr & _ & _ & _ & -> & ->).
    apply elem_of_union in Hp as [[Hp|Hp]%elem_of_union|Hp].
    + destruct r; destruct Hv as (E & -> & ->); [|set_solver].
      apply elem_of_singleton in Hp as ->. exists x. split; [done|]. case_match; [right|left]; set_solver by lia.
    + destruct (IHl _ _ _ Hl Hp) as (y & E & ?). exists y. set_solver.
    + destruct (IHr _ _ _ Hr Hp) as (y & E & ?). exists y. set_solver.
Qed.

Lemma own_young h c r n F R p :
  own h c r n F R -> p ∈ F -> exists x, h !! p = Some x /\ c < mversion x.
Proof.
  revert r F R. induction n as [v k val|hh s v k nl IHl nr IHr]; intros r F R;
    cbn [own]; intros (x & F0 & R0 & Hv & Hn) Hp.
  - destruct Hn as (_ & -> & ->). destruct r; destruct Hv as (E & -> & ->); [|set_solver].
    case_match; [set_solver|]. apply elem_of_singleton in Hp as ->. exists x. split; [done|lia].
  - destruct Hn as (lr & rr & Fl & Rl & Fr & Rr & _ & Hl & Hr & _ & _ & _ & -> & ->).
    apply elem_of_union in Hp as [[Hp|Hp]%elem_of_union|Hp]; [|by eapply IHl|by eapply IHr].
    destruct r; destruct Hv as (E & -> & ->); [|set_solver].
    case_match; [set_solver|]. apply elem_of_singleton in Hp as ->. exists x. split; [done|lia].
Qed.

(** A location younger than the copy-on-write version that is not in [F] is not reached. *)
Lemma own_notin h c r n F R p x :
  own h c r n F R -> h !! p = Some x -> c < mversion x -> p ∉ F -> p ∉ R.
Proof. intros Ho E Hv Hp Hr. destruct (own_cell _ _ _ _ _ _ _ Ho Hr) as (y & ? & [|]); [done|]. simplify_eq. lia. Qed.

Lemma own_new h c r n F R p : own h c r n F R -> h !! p = None -> p ∉ R.
Proof. intros Ho E Hr. destruct (own_cell _ _ _ _ _ _ _ Ho Hr) as (y & ? & _). congruence. Qed.

Lemma own_disj h c r1 n1 F1 R1 r2 n2 F2 R2 :
  own h c r1 n1 F1 R1 -> own h c r2 n2 F2 R2 -> F1 ## F2 -> F1 ## R2.
Proof.
  intros H1 H2 D p Hp. destruct (own_young _ _ _ _ _ _ _ H1 Hp) as (x & E & Hv).
  eapply own_notin; [exact H2|done..|]. set_solver.
Qed.

Lemma own_keeps F' h h' c r n F R :
  own h c r n F R -> keeps F' h h' -> R ## F' -> own h' c r n F R.
Proof. intros Ho Hk D. eapply own_frame; [done|]. intros p x Hp E. apply Hk; set_solver. Qed.

Lemma keeps_refl F h : keeps F h h.
Proof. by intros p x. Qed.

Lemma keeps_mono F F' h h' : keeps F h h' -> F ⊆ F' -> keeps F' h h'.
Proof. intros H Hs p x E Hp. apply H; set_solver. Qed.

Lemma keeps_insert F l x h : l ∈ F \/ h !! l = None -> keeps F h (<[l := x]> h).
Proof.
  intros Hl p y E Hp. rewrite lookup_insert_ne; [done|]. intros ->. destruct Hl; [done|congruence].
Qed.

Lemma keeps_trans F F' h h' h'' :
  keeps F h h' -> keeps F' h' h'' -> (forall p, p ∈ F' -> p ∈ F \/ h !! p = None) -> keeps F h h''.
Proof.
  intros H1 H2 Hs p x E Hp. apply H2; [by apply H1|]. intros Hp'. destruct (Hs p Hp'); [done|congruence].
Qed.

Lemma upd_trans h F R h' F' R' h'' F'' R'' :
  F ⊆ R -> upd h F R h' F' R' -> upd h' F' R' h'' F'' R'' -> upd h F R h'' F'' R''.
Proof.
  intros Hs (K1 & U1 & V1) (K2 & U2 & V2).
  assert (forall p, h' !! p = None -> p ∈ F \/ h !! p = None) as Hn.
  { intros p E. destruct (h !! p) eqn:E'; [|by right]. left.
    destruct (decide (p ∈ F)); [done|]. by rewrite (K1 p m E') in E. }
  split; [by eapply keeps_trans|]. split.
  - intros p Hp. destruct (U2 p Hp) as [|E]; [auto|]. destruct (Hn p E); auto.
  - intros p Hp. destruct (V2 p Hp) as [|E]; [auto|]. destruct (Hn p E); [left; set_solver|auto].
Qed.

(** ** Subtrees and open nodes *)

(** A reference together with what it denotes and its locations. *)
Record sub := mkSub { sref : ref; stree : Node; sF : locs; sR : locs }.

Definition owns (h : Heap) (c : Z) (a : sub) : Prop := own h c (sref a) (stree a) (sF a) (sR a).

(** A branch being modified, with its two subtrees; its height and size may be stale. *)
Definition opened (h : Heap) (c : Z) (l : loc) (hh s v : Z) (k : bytes) (a b : sub) : Prop :=
  h !! l = Some (mkMem hh s v k None (Some (sref a)) (Some (sref b)) None) /\ c < v /\
  owns h c a /\ owns h c b /\ (l ∉ sR a) /\ (l ∉ sR b) /\ sF a ## sF b.

(** The subtree an open branch is the root of. *)
Definition joined (l : loc) (hh s v : Z) (k : bytes) (a b : sub) : sub :=
  mkSub (RMem l) (Branch hh s v k (stree a) (stree b))
        ({[l]} ∪ sF a ∪ sF b) ({[l]} ∪ sR a ∪ sR b).

Lemma owns_keeps F h h' c a : owns h c a -> keeps F h h' -> sR a ## F -> owns h' c a.
Proof. apply own_keeps. Qed.

Lemma owns_sub h c a : owns h c a -> sF a ⊆ sR a.
Proof. apply own_sub. Qed.

Lemma opened_owns h c l hh s v k a b :
  opened h c l hh s v k a b -> owns h c (joined l hh s v k a b) /\ fresh h c l.
Proof.
  intros (E & Hv & Ha & Hb & La & Lb & D). split; [|by eexists].
  pose proof (owns_sub _ _ _ Ha). pose proof (owns_sub _ _ _ Hb).
  unfold owns, joined; cbn [own sref stree sF sR].
  exists (mkMem hh s v k None (Some (sref a)) (Some (sref b)) None), {[l]}, {[l]}. split.
  { split_and!; [done..|]. cbn [mversion]. by rewrite (proj2 (Z.leb_gt v c)). }
  exists (sref a), (sref b), (sF a), (sR a), (sF b), (sR b).
  split_and!; try done; [split; [by left|done]|set_solver..].
Qed.

Lemma view_run {B} h c r x F0 R0 (k : MemNode -> HM B) :
  view h c r x F0 R0 -> (deref r ≫= k) h = k x h.
Proof. destruct r; intros (E & _); [by apply load_run|by rewrite E]. Qed.

(** Opening the cell of a branch for reading. *)
Lemma owns_branch h c r hh s v k nl nr F R :
  own h c r (Branch hh s v k nl nr) F R ->
  exists x F0 R0 a b, view h c r x F0 R0 /\ stree a = nl /\ stree b = nr /\
    mutated v x = mkMem hh s v k None (Some (sref a)) (Some (sref b)) None /\
    mheight x = hh /\ msize x = s /\ mversion x = v /\ mkey x = k /\ mvalue x = None /\
    (mhash x = None \/ mhash x = Some (HashNode (Branch hh s v k nl nr))) /\
    mleft x = Some (sref a) /\ mright x = Some (sref b) /\
    owns h c a /\ owns h c b /\ F0 ## sR a /\ F0 ## sR b /\ sF a ## sF b /\
    F = F0 ∪ sF a ∪ sF b /\ R = R0 ∪ sR a ∪ sR b.
Proof.
  cbn [own]. intros (x & F0 & R0 & Hv & lr & rr & Fl & Rl & Fr & Rr & (Hh & E) & Hl & Hr & D1 & D2 & D3 & -> & ->).
  exists x, F0, R0, (mkSub lr nl Fl Rl), (mkSub rr nr Fr Rr).
  assert (forall r n F R, own h c r n F R -> F0 ## F -> F0 ## R) as Hd.
  { intros r' n F R Ho D p Hp. destruct r; destruct Hv as (E' & -> & ->); [|set_solver].
    case_match; [set_solver|]. apply elem_of_singleton in Hp as ->.
    eapply own_notin; [done|done|lia|set_solver]. }
  rewrite E in *. cbn in *. split_and!; try done; eauto.
Qed.

Lemma view_keeps F h h' c r x F0 R0 :
  view h c r x F0 R0 -> keeps F h h' -> R0 ## F -> view h' c r x F0 R0.
Proof.
  destruct r as [l|]; [|done]. intros (E & -> & ->) Hk D. split; [|done].
  apply Hk; [done|set_solver].
Qed.

(** [Mutate] gives a node of the tree's own with the fields of the old one; the
    old reference still has the same children. *)
Lemma mMutate_ok h c r x F0 R0 v :
  view h c r x F0 R0 -> c < v ->
  exists l h', mMutate r v c h = Some (Ok l, h') /\ h' !! l = Some (mutated v x) /\
    keeps F0 h h' /\ (l ∈ F0 \/ h !! l = None) /\
    (exists y F1, view h' c r y F1 R0 /\ mleft y = mleft x /\ mright y = mright x).
Proof.
  intros Hv Hc. destruct r as [l|n]; destruct Hv as (E & -> & ->); unfold mMutate.
  - rewrite (load_run _ _ _ _ E). destruct (Z.leb_spec (mversion x) c).
    + rewrite alloc_run. rewrite (assign_run _ _ x) by apply lookup_insert_eq.
      rewrite insert_insert_eq. pose proof (nextLoc_fresh h) as Hn.
      exists (nextLoc h), (<[nextLoc h := mutated v x]> h).
      split_and!; [done|apply lookup_insert_eq|apply keeps_insert; by right|by right|].
      exists x. eexists. split; [|done]. split; [|done].
      rewrite lookup_insert_ne; [done|congruence].
    + autorewrite with sstate. rewrite (assign_run _ _ x) by done.
      exists l, (<[l := mutated v x]> h).
      split_and!; [done|apply lookup_insert_eq|apply keeps_insert; left; set_solver|left; set_solver|].
      exists (mutated v x). eexists. split; [|done]. split; [|done]. apply lookup_insert_eq.
  - subst x. pose proof (nextLoc_fresh h) as Hn.
    exists (nextLoc h), (<[nextLoc h := mutated v (persistedCell n)]> h).
    split_and!; [done|apply lookup_insert_eq|apply keeps_insert; by right|by right|].
    exists (persistedCell n), ∅. done.
Qed.

Section Accessors.
Context {B : Type} (h : Heap) (c : Z).
Implicit Types a : sub.

Lemma owns_view a : owns h c a -> exists x F0 R0, view h c (sref a) x F0 R0 /\
  mheight x = Height (stree a) /\ msize x = Size (stree a) /\ mkey x = Key (stree a) /\
  mvalue x = Value (stree a).
Proof.
  destruct a as [r n F R]. unfold owns. cbn [sref stree sF sR].
  destruct n as [v k val|hh s v k nl nr]; cbn [own].
  - intros (x & F0 & R0 & Hv & (_ & E) & _). exists x, F0, R0. rewrite E in *. done.
  - intros (x & F0 & R0 & Hv & ? & ? & ? & ? & ? & ? & (_ & E) & _). exists x, F0, R0. by rewrite E in *.
Qed.

Lemma mHeight_run a (k : Z -> HM B) : owns h c a -> (mHeight (sref a) ≫= k) h = k (Height (stree a)) h.
Proof.
  intros (x & F0 & R0 & Hv & E & _)%owns_view. apply SE_bind_ok. unfold mHeight.
  rewrite (view_run _ _ _ _ _ _ _ Hv). by rewrite E.
Qed.

Lemma mSize_run a (k : Z -> HM B) : owns h c a -> (mSize (sref a) ≫= k) h = k (Size (stree a)) h.
Proof.
  intros (x & F0 & R0 & Hv & _ & E & _)%owns_view. apply SE_bind_ok. unfold mSize.
  rewrite (view_run _ _ _ _ _ _ _ Hv). by rewrite E.
Qed.

Lemma mKey_run a (k : bytes -> HM B) : owns h c a -> (mKey (sref a) ≫= k) h = k (Key (stree a)) h.
Proof.
  intros (x & F0 & R0 & Hv & _ & _ & E & _)%owns_view. apply SE_bind_ok. unfold mKey.
  rewrite (view_run _ _ _ _ _ _ _ Hv). by rewrite E.
Qed.

Lemma mLeft_run r x F0 R0 lr (k : option ref -> HM B) :
  view h c r x F0 R0 -> mleft x = Some lr -> (mLeft r ≫= k) h = k (Some lr) h.
Proof.
  intros Hv El. apply SE_bind_ok. unfold mLeft. destruct r as [l|n]; destruct Hv as (E & _).
  - rewrite (load_run _ _ _ _ E). by rewrite El.
  - subst x. destruct n; [done|]. by injection El as <-.
Qed.

Lemma mRight_run r x F0 R0 rr (k : option ref -> HM B) :
  view h c r x F0 R0 -> mright x = Some rr -> (mRight r ≫= k) h = k (Some rr) h.
Proof.
  intros Hv El. apply SE_bind_ok. unfold mRight. destruct r as [l|n]; destruct Hv as (E & _).
  - rewrite (load_run _ _ _ _ E). by rewrite El.
  - subst x. destruct n; [done|]. by injection El as <-.
Qed.
End Accessors.

(** Writing a field of an open node. *)
Lemma opened_write h c l hh s v k a b hh' s' k' :
  opened h c l hh s v k a b ->
  opened (<[l := mkMem hh' s' v k' None (Some (sref a)) (Some (sref b)) None]> h) c l hh' s' v k' a b.
Proof.
  intros (E & Hv & Ha & Hb & La & Lb & D). pose proof (keeps_insert {[l]} l
    (mkMem hh' s' v k' None (Some (sref a)) (Some (sref b)) None) h ltac:(left; set_solver)) as Hk.
  split_and!; try done; [apply lookup_insert_eq| |]; (eapply owns_keeps; [done|done|set_solver]).
Qed.

Lemma mUpdateHeightSize_ok h c l hh s v k a b :
  opened h c l hh s v k a b ->
  exists h', mUpdateHeightSize l h = Some (Ok tt, h') /\ keeps {[l]} h h' /\
    opened h' c l (u8 (Z.max (Height (stree a)) (Height (stree b)) + 1))
      (i64 (Size (stree a) + Size (stree b))) v k a b.
Proof.
  intros Ho. pose proof Ho as (E & Hv & Ha & Hb & La & Lb & D). unfold mUpdateHeightSize.
  rewrite (leftOf_run _ _ _ _ _ E eq_refl), (rightOf_run _ _ _ _ _ E eq_refl).
  rewrite (mHeight_run _ c a), (mHeight_run _ c b) by done.
  rewrite (assign_run _ _ _ _ _ E).
  pose proof (opened_write _ _ _ _ _ _ _ _ _ (u8 (Z.max (Height (stree a)) (Height (stree b)) + 1)) s k Ho) as Ho1.
  pose proof Ho1 as (E1 & _ & Ha1 & Hb1 & _). cbn [withHeight mheight msize mversion mkey mvalue mleft mright mhash].
  rewrite (mSize_run _ c a), (mSize_run _ c b) by done. rewrite (assign_end _ _ _ _ E1).
  eexists. split; [reflexivity|]. rewrite insert_insert_eq.
  split; [apply keeps_insert; left; set_solver|]. by eapply opened_write.
Qed.

(** ** Balancing on the heap *)

Definition moves (h : Heap) (j : sub) (h' : Heap) (j' : sub) : Prop :=
  upd h (sF j) (sR j) h' (sF j') (sR j').

Ltac sub_simpl := unfold moves, joined; cbn [sref stree sF sR] in *.

(** Mutating the left child of an open node. *)
Lemma mMutate_child h c a hh s v k n1 n2 ver :
  owns h c a -> stree a = Branch hh s v k n1 n2 -> c < ver ->
  exists l h' a1 a2 F0, mMutate (sref a) ver c h = Some (Ok l, h') /\
    stree a1 = n1 /\ stree a2 = n2 /\ opened h' c l hh s ver k a1 a2 /\
    keeps F0 h h' /\ (l ∈ F0 \/ h !! l = None) /\
    F0 ⊆ sF a /\ sF a = F0 ∪ sF a1 ∪ sF a2 /\ sR a1 ⊆ sR a /\ sR a2 ⊆ sR a /\
    (exists y F1 R1, view h' c (sref a) y F1 R1 /\
       mleft y = Some (sref a1) /\ mright y = Some (sref a2)).
Proof.
  destruct a as [r n F R]. unfold owns; cbn [sref stree sF sR]. intros Ho -> Hc.
  apply owns_branch in Ho as (x & F0 & R0 & a1 & a2 & Hv & E1 & E2 & Em & _ & _ & _ & _ & _ & _ &
    El & Er & O1 & O2 & D1 & D2 & D3 & -> & ->).
  destruct (mMutate_ok _ _ _ _ _ _ ver Hv Hc) as (l & h' & Erun & El' & Hk & Hl & y & F1 & Hy & Yl & Yr).
  exists l, h', a1, a2, F0.
  split_and!; [done..| |done|done|clear; set_solver|done|clear; set_solver|clear; set_solver|].
  - unfold opened. split_and!; try done.
    + rewrite El'. f_equal. unfold mutated in *. congruence.
    + eapply owns_keeps; [done|done|set_solver].
    + eapply owns_keeps; [done|done|set_solver].
    + destruct Hl as [Hl|Hl]; [set_solver|by eapply own_new].
    + destruct Hl as [Hl|Hl]; [set_solver|by eapply own_new].
  - exists y, F1, R0. split_and!; [done|congruence..].
Qed.

(** A node whose child was replaced. *)
Lemma opened_intro h c l hh s v k a b :
  h !! l = Some (mkMem hh s v k None (Some (sref a)) (Some (sref b)) None) -> c < v ->
  owns h c a -> owns h c b -> l ∉ sF a -> l ∉ sF b -> sF a ## sF b ->
  opened h c l hh s v k a b.
Proof.
  intros E Hv Ha Hb La Lb D. split_and!; try done; (eapply own_notin; [done|done|done|done]).
Qed.

(** The two height updates that end a rotation: [l] has become a child of [l']. *)
Lemma rotate_finish h c l hh s v k a b l' hh' s' v' k' e (lft : bool) :
  opened h c l hh s v k a b -> c < v' -> owns h c e -> l <> l' ->
  h !! l' = Some (mkMem hh' s' v' k' None
    (Some (if lft then RMem l else sref e)) (Some (if lft then sref e else RMem l)) None) ->
  l ∉ sR e -> (l' ∉ sR a) -> (l' ∉ sR b) -> l' ∉ sR e -> sF a ## sF e -> sF b ## sF e ->
  let j := joined l (u8 (Z.max (Height (stree a)) (Height (stree b)) + 1))
             (i64 (Size (stree a) + Size (stree b))) v k a b in
  let lc := if lft then j else e in
  let rc := if lft then e else j in
  exists h', (_ ← mUpdateHeightSize l; _ ← mUpdateHeightSize l'; mret l') h = Some (Ok l', h') /\
    keeps ({[l; l']}) h h' /\
    opened h' c l' (u8 (Z.max (Height (stree lc)) (Height (stree rc)) + 1))
      (i64 (Size (stree lc) + Size (stree rc))) v' k' lc rc.
Proof.
  intros Ho Hc He Hne E Le La' Lb' Le' Dae Dbe j lc rc.
  destruct (mUpdateHeightSize_ok _ _ _ _ _ _ _ _ _ Ho) as (h1 & R1 & K1 & Ho1).
  rewrite (SE_bind_ok _ _ _ _ _ R1).
  pose proof (opened_owns _ _ _ _ _ _ _ _ _ Ho1) as [Hj _]. fold j in Hj.
  assert (owns h1 c e) as He1 by (eapply owns_keeps; [done|done|set_solver]).
  assert (opened h1 c l' hh' s' v' k' lc rc) as Ho2.
  { assert (h1 !! l' = Some (mkMem hh' s' v' k' None (Some (sref lc)) (Some (sref rc)) None)) as E1.
    { apply K1; [rewrite E; unfold lc, rc; by destruct lft|set_solver]. }
    pose proof (owns_sub _ _ _ He). pose proof Ho1 as (_ & _ & Ha1%owns_sub & Hb1%owns_sub & _).
    apply opened_intro; [done|done|unfold lc, rc; destruct lft..]; try done;
      unfold j, joined; cbn [sF]; set_solver. }
  destruct (mUpdateHeightSize_ok _ _ _ _ _ _ _ _ _ Ho2) as (h2 & R2 & K2 & Ho3).
  rewrite (SE_bind_ok _ _ _ _ _ R2). exists h2. split_and!; [done| |done].
  eapply (keeps_trans _ {[l']}); [eapply keeps_mono; [exact K1|set_solver]|exact K2|set_solver].
Qed.

Lemma rotate_upd h h1 h2 h3 l l' (F0 F R F' R' : locs) :
  keeps F0 h h1 -> keeps {[l; l']} h1 h2 -> keeps {[l; l']} h2 h3 ->
  F0 ⊆ F -> l ∈ F -> l' ∈ F0 \/ h !! l' = None -> F ⊆ R ->
  F' ⊆ {[l']} ∪ F -> R' ⊆ {[l']} ∪ R -> upd h F R h3 F' R'.
Proof.
  intros K1 K2 K3 S0 Hl Hl' S SF SR. split_and!.
  - eapply (keeps_trans _ {[l; l']}); [by eapply keeps_mono|eapply keeps_trans; [exact K2|exact K3|auto]|].
    intros p Hp. destruct (decide (p = l')) as [->|]; [destruct Hl'; [left; set_solver|auto]|].
    left. set_solver.
  - intros p Hp%SF. apply elem_of_union in Hp as [->%elem_of_singleton|]; [|auto].
    destruct Hl'; [left; set_solver|auto].
  - intros p Hp%SR. apply elem_of_union in Hp as [->%elem_of_singleton|]; [|auto].
    destruct Hl'; [left; set_solver|auto].
Qed.

(** What mutating one child leaves alone: the parent and the other child. *)
Lemma mutate_sibling h h1 c d o F0 l l' x :
  owns h c d -> owns h c o -> sF d ## sF o -> F0 ⊆ sF d -> keeps F0 h h1 ->
  l' ∈ F0 \/ h !! l' = None -> h !! l = Some x -> (l ∉ sR d) ->
  l <> l' /\ (l' ∉ sR o) /\ h1 !! l = Some x /\ owns h1 c o.
Proof.
  intros Hd Ho D S K Hl' E Ld. pose proof (owns_sub _ _ _ Hd).
  pose proof (own_disj _ _ _ _ _ _ _ _ _ _ Hd Ho D). split_and!.
  - intros ->. destruct Hl'; [set_solver|congruence].
  - destruct Hl'; [set_solver|by eapply own_new].
  - apply K; [done|set_solver].
  - eapply owns_keeps; [exact Ho|exact K|set_solver].
Qed.

Lemma mRotateRight_ok h c l hh s v k a b ver lh ls lv lk n1 n2 :
  opened h c l hh s v k a b -> stree a = Branch lh ls lv lk n1 n2 -> c < ver ->
  exists l' h' hh' s' a' b', mRotateRight l ver c h = Some (Ok l', h') /\
    opened h' c l' hh' s' ver lk a' b' /\
    rotateRight ver (Branch hh s v k (stree a) (stree b)) =
      Some (Branch hh' s' ver lk (stree a') (stree b')) /\
    moves h (joined l hh s v k a b) h' (joined l' hh' s' ver lk a' b').
Proof.
  intros Ho Ea Hc. pose proof Ho as (E & Hv & Ha & Hb & La & Lb & D).
  destruct (mMutate_child _ _ _ _ _ _ _ _ _ ver Ha Ea Hc)
    as (l2 & h1 & a1 & a2 & F0 & R1 & E1 & E2 & Ho1 & K1 & Hl2 & S0 & SF & S1 & S2 & y & F1 & R0 & Hy & _ & Yr).
  destruct (mutate_sibling _ _ _ _ _ _ _ _ _ Ha Hb D S0 K1 Hl2 E La) as (Hne & L2b & El1 & Hb1).
  assert (sF a1 ⊆ sF a /\ sF a2 ⊆ sF a) as [T1 T2] by (rewrite SF; clear; set_solver).
  pose proof (owns_sub _ _ _ Ha) as Sa. pose proof (owns_sub _ _ _ Hb) as Sb. clear SF.
  unfold mRotateRight. rewrite (leftOf_run _ _ _ _ _ E eq_refl), (SE_bind_ok _ _ _ _ _ R1).
  rewrite (leftOf_run _ _ _ _ _ El1 eq_refl), (mRight_run _ _ _ _ _ _ _ _ Hy Yr).
  rewrite (assign_run _ _ _ _ _ El1). cbn [withLeft mheight msize mversion mkey mvalue mleft mright mhash].
  pose proof Ho1 as (El2 & _ & O1 & O2 & L1 & L2 & D12).
  rewrite (assign_run _ _ (mkMem lh ls ver lk None (Some (sref a1)) (Some (sref a2)) None))
    by (by rewrite lookup_insert_ne).
  cbn [withRight mheight msize mversion mkey mvalue mleft mright mhash].
  set (h3 := <[l2 := _]> (<[l := _]> h1)).
  assert (keeps {[l; l2]} h1 h3) as K3.
  { intros p x Ep Hp. unfold h3. rewrite !lookup_insert_ne by set_solver. done. }
  destruct (rotate_finish h3 c l hh s v k a2 b l2 lh ls ver lk a1 false) as (h4 & R4 & K4 & Ho4).
  1:{ apply opened_intro; [unfold h3; rewrite lookup_insert_ne by done; apply lookup_insert_eq|done| | | | |];
      [eapply owns_keeps; [done|exact K3|clear - La Lb L2b L1 L2 S1 S2; set_solver]..
      |clear - La T2 Sa; set_solver|clear - Lb Sb; set_solver|clear - D T2; set_solver]. }
  all: try done.
  - eapply owns_keeps; [done|exact K3|clear - La L1 S1; set_solver].
  - apply lookup_insert_eq.
  - clear - La S1; set_solver.
  - clear - D T1; set_solver.
  - cbn zeta in *. exists l2, h4. do 4 eexists. split; [exact R4|]. split; [exact Ho4|]. split.
    { rewrite Ea. unfold rotateRight. cbn. by rewrite E1, E2. }
    sub_simpl. eapply (rotate_upd h h1 h3 h4 l l2 F0); try done;
      clear - S0 T1 T2 S1 S2 Sa Sb; set_solver.
Qed.

Lemma mRotateLeft_ok h c l hh s v k a b ver rh rs rv rk n1 n2 :
  opened h c l hh s v k a b -> stree b = Branch rh rs rv rk n1 n2 -> c < ver ->
  exists l' h' hh' s' a' b', mRotateLeft l ver c h = Some (Ok l', h') /\
    opened h' c l' hh' s' ver rk a' b' /\
    rotateLeft ver (Branch hh s v k (stree a) (stree b)) =
      Some (Branch hh' s' ver rk (stree a') (stree b')) /\
    moves h (joined l hh s v k a b) h' (joined l' hh' s' ver rk a' b').
Proof.
  intros Ho Eb Hc. pose proof Ho as (E & Hv & Ha & Hb & La & Lb & D).
  destruct (mMutate_child _ _ _ _ _ _ _ _ _ ver Hb Eb Hc)
    as (l2 & h1 & b1 & b2 & F0 & R1 & E1 & E2 & Ho1 & K1 & Hl2 & S0 & SF & S1 & S2 & y & F1 & R0 & Hy & Yl & _).
  destruct (mutate_sibling _ _ _ _ _ _ _ _ _ Hb Ha ltac:(done) S0 K1 Hl2 E Lb) as (Hne & L2a & El1 & Ha1).
  assert (sF b1 ⊆ sF b /\ sF b2 ⊆ sF b) as [T1 T2] by (rewrite SF; clear; set_solver).
  pose proof (owns_sub _ _ _ Ha) as Sa. pose proof (owns_sub _ _ _ Hb) as Sb. clear SF.
  unfold mRotateLeft. rewrite (rightOf_run _ _ _ _ _ E eq_refl), (SE_bind_ok _ _ _ _ _ R1).
  rewrite (rightOf_run _ _ _ _ _ El1 eq_refl), (mLeft_run _ _ _ _ _ _ _ _ Hy Yl).
  rewrite (assign_run _ _ _ _ _ El1). cbn [withRight mheight msize mversion mkey mvalue mleft mright mhash].
  pose proof Ho1 as (El2 & _ & O1 & O2 & L1 & L2 & D12).
  rewrite (assign_run _ _ (mkMem rh rs ver rk None (Some (sref b1)) (Some (sref b2)) None))
    by (by rewrite lookup_insert_ne).
  cbn [withLeft mheight msize mversion mkey mvalue mleft mright mhash].
  set (h3 := <[l2 := _]> (<[l := _]> h1)).
  assert (keeps {[l; l2]} h1 h3) as K3.
  { intros p x Ep Hp. unfold h3. rewrite !lookup_insert_ne by set_solver. done. }
  destruct (rotate_finish h3 c l hh s v k a b1 l2 rh rs ver rk b2 true) as (h4 & R4 & K4 & Ho4).
  1:{ apply opened_intro; [unfold h3; rewrite lookup_insert_ne by done; apply lookup_insert_eq|done| | | | |];
      [eapply owns_keeps; [done|exact K3|clear - La Lb L2a L1 L2 S1 S2; set_solver]..
      |clear - La Sa; set_solver|clear - Lb Sb T1; set_solver|clear - D T1; set_solver]. }
  all: try done.
  - eapply owns_keeps; [done|exact K3|clear - Lb L2 S2; set_solver].
  - apply lookup_insert_eq.
  - clear - Lb S2; set_solver.
  - clear - D T2; set_solver.
  - cbn zeta in *. exists l2, h4. do 4 eexists. split; [exact R4|]. split; [exact Ho4|]. split.
    { rewrite Eb. unfold rotateLeft. cbn. by rewrite E1, E2. }
    sub_simpl. eapply (rotate_upd h h1 h3 h4 l l2 F0); try done;
      clear - S0 T1 T2 S1 S2 Sa Sb; set_solver.
Qed.

(** ** Replacing a child *)

Lemma upd_widen G S h F R h' F' R' :
  upd h F R h' F' R' -> upd h (G ∪ F) (S ∪ R) h' (G ∪ F') (S ∪ R').
Proof.
  intros (K & U & V). split_and!; [eapply keeps_mono; [done|set_solver]| |].
  - intros p [|Hp]%elem_of_union; [left; set_solver|]. destruct (U p Hp); [left; set_solver|auto].
  - intros p [|Hp]%elem_of_union; [left; set_solver|]. destruct (V p Hp); [left; set_solver|auto].
Qed.

Lemma upd_eq h F R h' F' R' F1 R1 F1' R1' :
  upd h F R h' F' R' -> F = F1 -> R = R1 -> F' = F1' -> R' = R1' -> upd h F1 R1 h' F1' R1'.
Proof. by intros ? -> -> -> ->. Qed.

(** What the modification of one subtree leaves alone. *)
Lemma moves_other h h' c d d' o :
  owns h c d -> owns h c o -> sF d ## sF o -> moves h d h' d' ->
  owns h' c o /\ sF d' ## sF o /\ sF d ## sR o.
Proof.
  intros Hd Ho D (K & U & _). pose proof (own_disj _ _ _ _ _ _ _ _ _ _ Hd Ho D) as Hn.
  split_and!; [eapply owns_keeps; [done|done|set_solver]| |done].
  intros p Hp Hp'. pose proof (owns_sub _ _ _ Ho p Hp') as Hr.
  destruct (U p Hp); [set_solver|]. by eapply own_new in Ho.
Qed.

Lemma moves_cell h h' c d d' l x :
  owns h c d -> moves h d h' d' -> h !! l = Some x -> l ∉ sF d ->
  h' !! l = Some x /\ l ∉ sF d'.
Proof.
  intros Hd (K & U & _) E Hl. split; [by apply K|]. intros Hp. destruct (U l Hp); [done|congruence].
Qed.

(** Assigning a modified child to an open node. *)
Lemma opened_setLeft h h1 c l hh s v k a b d :
  opened h c l hh s v k a b -> moves h a h1 d -> owns h1 c d ->
  exists h2, assign l (withLeft (Some (sref d))) h1 = Some (Ok tt, h2) /\
    opened h2 c l hh s v k d b /\ moves h (joined l hh s v k a b) h2 (joined l hh s v k d b).
Proof.
  intros (E & Hv & Ha & Hb & La & Lb & D) Hm Hd. pose proof (owns_sub _ _ _ Ha).
  pose proof (owns_sub _ _ _ Hb). pose proof (owns_sub _ _ _ Hd).
  destruct (moves_other _ _ _ _ _ _ Ha Hb D Hm) as (Hb1 & Dd & _).
  destruct (moves_cell _ _ _ _ _ _ _ Ha Hm E ltac:(set_solver)) as [E1 Ld].
  assert (l ∉ sR d) as Ld' by (by eapply own_notin).
  eexists. split; [by apply assign_end|].
  cbn [withLeft mheight msize mversion mkey mvalue mleft mright mhash]. set (h2 := <[l := _]> h1).
  assert (keeps {[l]} h1 h2) as K by (apply keeps_insert; left; set_solver). split.
  - unfold opened. split_and!; try done; [apply lookup_insert_eq| |];
      (eapply owns_keeps; [done|exact K|set_solver]).
  - unfold moves in *; sub_simpl.
    eapply upd_trans; [|eapply upd_eq; [exact (upd_widen ({[l]} ∪ sF b) ({[l]} ∪ sR b) _ _ _ _ _ _ Hm)|set_solver|set_solver|reflexivity..]|];
      [set_solver|].
    split_and!; [eapply keeps_mono; [exact K|set_solver]|left; set_solver..].
Qed.

Lemma opened_setRight h h1 c l hh s v k a b d :
  opened h c l hh s v k a b -> moves h b h1 d -> owns h1 c d ->
  exists h2, assign l (withRight (Some (sref d))) h1 = Some (Ok tt, h2) /\
    opened h2 c l hh s v k a d /\ moves h (joined l hh s v k a b) h2 (joined l hh s v k a d).
Proof.
  intros (E & Hv & Ha & Hb & La & Lb & D) Hm Hd. pose proof (owns_sub _ _ _ Ha).
  pose proof (owns_sub _ _ _ Hb). pose proof (owns_sub _ _ _ Hd).
  destruct (moves_other _ _ _ _ _ _ Hb Ha ltac:(done) Hm) as (Ha1 & Dd & _).
  destruct (moves_cell _ _ _ _ _ _ _ Hb Hm E ltac:(set_solver)) as [E1 Ld].
  assert (l ∉ sR d) as Ld' by (by eapply own_notin).
  eexists. split; [by apply assign_end|].
  cbn [withRight mheight msize mversion mkey mvalue mleft mright mhash]. set (h2 := <[l := _]> h1).
  assert (keeps {[l]} h1 h2) as K by (apply keeps_insert; left; set_solver). split.
  - unfold opened. split_and!; try done; [apply lookup_insert_eq| |];
      (eapply owns_keeps; [done|exact K|set_solver]).
  - unfold moves in *; sub_simpl.
    eapply upd_trans; [|eapply upd_eq; [exact (upd_widen ({[l]} ∪ sF a) ({[l]} ∪ sR a) _ _ _ _ _ _ Hm)|set_solver|set_solver|reflexivity..]|];
      [set_solver|].
    split_and!; [eapply keeps_mono; [exact K|set_solver]|left; set_solver..].
Qed.

Lemma mMutate_moves h c a hh s v k n1 n2 ver :
  owns h c a -> stree a = Branch hh s v k n1 n2 -> c < ver ->
  exists l h' a1 a2, mMutate (sref a) ver c h = Some (Ok l, h') /\
    stree a1 = n1 /\ stree a2 = n2 /\ opened h' c l hh s ver k a1 a2 /\
    moves h a h' (joined l hh s ver k a1 a2).
Proof.
  intros Ha Ea Hc. destruct (mMutate_child _ _ _ _ _ _ _ _ _ ver Ha Ea Hc)
    as (l & h' & a1 & a2 & F0 & R & E1 & E2 & Ho & K & Hl & S0 & SF & S1 & S2 & _).
  exists l, h', a1, a2. split_and!; try done. pose proof (owns_sub _ _ _ Ha) as S.
  sub_simpl. split_and!; [by eapply keeps_mono| |].
  - intros p Hp. destruct (decide (p = l)) as [->|]; [destruct Hl; [left; set_solver|auto]|left; set_solver].
  - intros p Hp. destruct (decide (p = l)) as [->|]; [destruct Hl; [left; set_solver|auto]|left; set_solver].
Qed.
