(* ===== verification/CowOps.v ===== *)
(** * Insertion, deletion, hashing and lookup on the heap of nodes

    Each recursive operation of [CowHeap] computes what the function of the same
    name in file [Node] computes on the denoted tree, and writes only nodes that
    belong to the tree. *)

From S2P Require Import Prelude KV Binary Sha256 Node Hash CowHeap.

(** ** Rebalancing *)

Lemma mCalcBalance_run {B} h c a z (k : Z -> HM B) :
  owns h c a -> calcBalance (stree a) = Some z -> (mCalcBalance (sref a) ≫= k) h = k z h.
Proof.
  destruct a as [r n F R]. destruct n as [|hh s v key nl nr]; [done|]. unfold owns.
  cbn [sref stree sF sR calcBalance]. intros Ho [= <-].
  apply owns_branch in Ho as (x & F0 & R0 & a1 & a2 & Hv & <- & <- & _ & _ & _ & _ & _ & _ & _ &
    El & Er & O1 & O2 & _).
  apply SE_bind_ok. unfold mCalcBalance.
  rewrite (mLeft_run _ _ _ _ _ _ _ _ Hv El). autorewrite with sstate.
  rewrite (mHeight_run _ c a1) by done.
  rewrite (mRight_run _ _ _ _ _ _ _ _ Hv Er). autorewrite with sstate.
  by rewrite (mHeight_run _ c a2).
Qed.

Lemma moves_trans h c j h' j' h'' j'' :
  owns h c j -> moves h j h' j' -> moves h' j' h'' j'' -> moves h j h'' j''.
Proof. intros Ho. apply upd_trans, (owns_sub _ _ _ Ho). Qed.

(** The result of an operation on the heap that returns a node: it denotes [n'], is
    open for modification, and the heap was changed only where [j] allows. *)
Definition yields (h : Heap) (c : Z) (j : sub) (m : HM loc) (n' : Node) : Prop :=
  exists l' h' hh' s' v' k' a' b', m h = Some (Ok l', h') /\
    opened h' c l' hh' s' v' k' a' b' /\ n' = Branch hh' s' v' k' (stree a') (stree b') /\
    moves h j h' (joined l' hh' s' v' k' a' b').

Lemma yields_after h c j h' j' m m' n' :
  owns h c j -> moves h j h' j' -> m h = m' h' -> yields h' c j' m' n' -> yields h c j m n'.
Proof.
  intros Ho Hm E (l & h2 & hh & s & v & k & a & b & R & Hop & En & Hm').
  exists l, h2, hh, s, v, k, a, b. split_and!; [congruence|done|done|by eapply moves_trans].
Qed.

Lemma yields_eq h c j m m' n' : m h = m' h -> yields h c j m' n' -> yields h c j m n'.
Proof. unfold yields. by intros ->. Qed.

Lemma yields_rotateRight h c l hh s v k a b ver n' :
  opened h c l hh s v k a b -> c < ver ->
  rotateRight ver (Branch hh s v k (stree a) (stree b)) = Some n' ->
  yields h c (joined l hh s v k a b) (mRotateRight l ver c) n'.
Proof.
  intros Ho Hc E. destruct (stree a) as [|lh ls lv lk n1 n2] eqn:Ea; [done|].
  destruct (mRotateRight_ok _ _ _ _ _ _ _ _ _ ver _ _ _ _ _ _ Ho Ea Hc)
    as (l' & h' & hh' & s' & a' & b' & R & Ho' & E' & Hm).
  rewrite Ea in E'. exists l', h', hh', s', ver, lk, a', b'. split_and!; try done. congruence.
Qed.

Lemma yields_rotateLeft h c l hh s v k a b ver n' :
  opened h c l hh s v k a b -> c < ver ->
  rotateLeft ver (Branch hh s v k (stree a) (stree b)) = Some n' ->
  yields h c (joined l hh s v k a b) (mRotateLeft l ver c) n'.
Proof.
  intros Ho Hc E. destruct (stree b) as [|rh rs rv rk n1 n2] eqn:Eb; [done|].
  destruct (mRotateLeft_ok _ _ _ _ _ _ _ _ _ ver _ _ _ _ _ _ Ho Eb Hc)
    as (l' & h' & hh' & s' & a' & b' & R & Ho' & E' & Hm).
  rewrite Eb in E'. exists l', h', hh', s', ver, rk, a', b'. split_and!; try done. congruence.
Qed.

(** The child is mutated and rotated, then assigned to the node. *)
Lemma yields_leftRight h c l hh s v k a b ver la n' :
  opened h c l hh s v k a b -> c < ver -> IsLeaf (stree a) = false ->
  rotateLeft ver (Mutate ver (stree a)) = Some la ->
  rotateRight ver (Branch hh s v k la (stree b)) = Some n' ->
  yields h c (joined l hh s v k a b)
    (n ← mMutate (sref a) ver c; n ← mRotateLeft n ver c;
     _ ← assign l (withLeft (Some (RMem n))); mRotateRight l ver c) n'.
Proof.
  intros Ho Hc Hl E1 E2. destruct (stree a) as [|lh ls lv lk n1 n2] eqn:Ea; [done|].
  pose proof Ho as (_ & _ & Ha & _). pose proof (proj1 (opened_owns _ _ _ _ _ _ _ _ _ Ho)) as Hj.
  destruct (mMutate_moves _ _ _ _ _ _ _ _ _ ver Ha Ea Hc) as (l1 & h1 & a1 & a2 & R1 & <- & <- & Ho1 & M1).
  destruct (yields_rotateLeft _ _ _ _ _ _ _ _ _ ver _ Ho1 Hc E1)
    as (l2 & h2 & hh2 & s2 & v2 & k2 & b1 & b2 & R2 & Ho2 & -> & M2).
  destruct (opened_setLeft h h2 c l hh s v k a b (joined l2 hh2 s2 v2 k2 b1 b2) Ho) as (h3 & R3 & Ho3 & M3).
  { eapply moves_trans; [exact Ha|exact M1|exact M2]. }
  { by apply opened_owns. }
  eapply yields_after; [exact Hj|exact M3| |by eapply yields_rotateRight].
  rewrite (SE_bind_ok _ _ _ _ _ R1), (SE_bind_ok _ _ _ _ _ R2). by rewrite (SE_bind_ok _ _ _ _ _ R3).
Qed.

Lemma yields_rightLeft h c l hh s v k a b ver rb n' :
  opened h c l hh s v k a b -> c < ver -> IsLeaf (stree b) = false ->
  rotateRight ver (Mutate ver (stree b)) = Some rb ->
  rotateLeft ver (Branch hh s v k (stree a) rb) = Some n' ->
  yields h c (joined l hh s v k a b)
    (n ← mMutate (sref b) ver c; n ← mRotateRight n ver c;
     _ ← assign l (withRight (Some (RMem n))); mRotateLeft l ver c) n'.
Proof.
  intros Ho Hc Hl E1 E2. destruct (stree b) as [|rh rs rv rk n1 n2] eqn:Eb; [done|].
  pose proof Ho as (_ & _ & _ & Hb & _). pose proof (proj1 (opened_owns _ _ _ _ _ _ _ _ _ Ho)) as Hj.
  destruct (mMutate_moves _ _ _ _ _ _ _ _ _ ver Hb Eb Hc) as (l1 & h1 & a1 & a2 & R1 & <- & <- & Ho1 & M1).
  destruct (yields_rotateRight _ _ _ _ _ _ _ _ _ ver _ Ho1 Hc E1)
    as (l2 & h2 & hh2 & s2 & v2 & k2 & b1 & b2 & R2 & Ho2 & -> & M2).
  destruct (opened_setRight h h2 c l hh s v k a b (joined l2 hh2 s2 v2 k2 b1 b2) Ho) as (h3 & R3 & Ho3 & M3).
  { eapply moves_trans; [exact Hb|exact M1|exact M2]. }
  { by apply opened_owns. }
  eapply yields_after; [exact Hj|exact M3| |by eapply yields_rotateLeft].
  rewrite (SE_bind_ok _ _ _ _ _ R1), (SE_bind_ok _ _ _ _ _ R2). by rewrite (SE_bind_ok _ _ _ _ _ R3).
Qed.

Lemma mReBalance_ok h c l hh s v k a b ver n' :
  opened h c l hh s v k a b -> c < ver ->
  reBalance ver (Branch hh s v k (stree a) (stree b)) = Some n' ->
  yields h c (joined l hh s v k a b) (mReBalance l ver c) n'.
Proof.
  intros Ho Hc E. pose proof Ho as (El & _ & Ha & Hb & _).
  pose proof (proj1 (opened_owns _ _ _ _ _ _ _ _ _ Ho)) as Hj.
  unfold reBalance in E. cbn [calcBalance mbind option_bind Left Right] in E.
  eapply yields_eq.
  { unfold mReBalance. change (RMem l) with (sref (joined l hh s v k a b)).
    rewrite (mCalcBalance_run h c (joined l hh s v k a b) _ _ Hj eq_refl). reflexivity. }
  destruct (1 <? _).
  - destruct (calcBalance (stree a)) as [z|] eqn:Ez; [|done]. cbn [mbind option_bind] in E.
    eapply yields_eq.
    { rewrite (leftOf_run _ _ _ _ _ El eq_refl), (mCalcBalance_run h c a z _ Ha Ez). reflexivity. }
    destruct (0 <=? z); [by apply yields_rotateRight|].
    destruct (rotateLeft ver (Mutate ver (stree a))) as [la|] eqn:Er; [|done].
    apply (yields_leftRight _ _ _ _ _ _ _ _ _ _ la); try done. by destruct (stree a).
  - destruct (_ <? -1); [|injection E as <-; exists l, h, hh, s, v, k, a, b; split_and!; try done;
      split_and!; [apply keeps_refl|auto|auto]].
    destruct (calcBalance (stree b)) as [z|] eqn:Ez; [|done]. cbn [mbind option_bind] in E.
    eapply yields_eq.
    { rewrite (rightOf_run _ _ _ _ _ El eq_refl), (mCalcBalance_run h c b z _ Hb Ez). reflexivity. }
    destruct (z <=? 0); [by apply yields_rotateLeft|].
    destruct (rotateRight ver (Mutate ver (stree b))) as [rb|] eqn:Er; [|done].
    apply (yields_rightLeft _ _ _ _ _ _ _ _ _ _ rb); try done. by destruct (stree b).
Qed.

(** [updateHeightSize] and [reBalance] in a row, the end of an insertion or deletion. *)
Lemma rebalance_ok h c l hh s v k a b ver n1 n2 :
  opened h c l hh s v k a b -> c < ver ->
  updateHeightSize (Branch hh s v k (stree a) (stree b)) = Some n1 -> reBalance ver n1 = Some n2 ->
  yields h c (joined l hh s v k a b) (_ ← mUpdateHeightSize l; mReBalance l ver c) n2.
Proof.
  intros Ho Hc [= <-] E. destruct (mUpdateHeightSize_ok _ _ _ _ _ _ _ _ _ Ho) as (h1 & R1 & K1 & Ho1).
  eapply yields_after; [by apply opened_owns| | |by eapply mReBalance_ok].
  - unfold moves, joined; cbn [sF sR]. split_and!; [eapply keeps_mono; [exact K1|set_solver]|auto|auto].
  - by rewrite (SE_bind_ok _ _ _ _ _ R1).
Qed.

(** ** Modifying a node after its child *)

(** A node is not changed by modifications of its subtrees. *)
Lemma view_child h h1 c r x F0 R0 a :
  view h c r x F0 R0 -> owns h c a -> F0 ## sR a -> keeps (sF a) h h1 -> view h1 c r x F0 R0.
Proof.
  intros Hv Ha D K. eapply view_keeps; [exact Hv|exact K|].
  destruct r as [l|]; destruct Hv as (E & -> & ->); [|set_solver].
  intros p ->%elem_of_singleton Hp. destruct (own_young _ _ _ _ _ _ _ Ha Hp) as (y & Ey & Hy).
  simplify_eq. rewrite (proj2 (Z.leb_gt _ _)) in D by done.
  pose proof (owns_sub _ _ _ Ha). set_solver.
Qed.

(** [Mutate] followed by the assignment of a child. *)
Lemma mutate_assign h c r x F0 R0 ver f hh s k a b :
  view h c r x F0 R0 -> c < ver -> owns h c a -> owns h c b ->
  F0 ## sR a -> F0 ## sR b -> sF a ## sF b ->
  f (mutated ver x) = mkMem hh s ver k None (Some (sref a)) (Some (sref b)) None ->
  exists l h', (n ← mMutate r ver c; _ ← assign n f; mret n) h = Some (Ok l, h') /\
    opened h' c l hh s ver k a b /\
    upd h (F0 ∪ sF a ∪ sF b) (R0 ∪ sR a ∪ sR b) h'
      (sF (joined l hh s ver k a b)) (sR (joined l hh s ver k a b)).
Proof.
  intros Hv Hc Ha Hb Da Db D Ef.
  destruct (mMutate_ok _ _ _ _ _ _ ver Hv Hc) as (l & h1 & R1 & E1 & K1 & Hl & _).
  assert (F0 ⊆ R0) as S0.
  { destruct r; destruct Hv as (_ & -> & ->); [case_match; set_solver|done]. }
  assert ((l ∉ sR a) /\ (l ∉ sR b)) as [La Lb].
  { destruct Hl as [Hl|Hl]; [set_solver|]. split; by eapply own_new. }
  rewrite (SE_bind_ok _ _ _ _ _ R1). rewrite (assign_run _ _ _ _ _ E1), Ef.
  set (h2 := <[l := _]> h1).
  assert (keeps {[l]} h1 h2) as K2 by (apply keeps_insert; left; set_solver).
  exists l, h2. split; [done|]. split.
  - unfold opened. split_and!; try done; [apply lookup_insert_eq| |];
      (eapply owns_keeps; [eapply owns_keeps; [done|exact K1|]|exact K2|]; set_solver).
  - unfold joined; cbn [sF sR]. split_and!.
    + eapply keeps_trans; [eapply keeps_mono; [exact K1|clear; set_solver]|exact K2|].
      intros p ->%elem_of_singleton. destruct Hl; [left; set_solver|by right].
    + intros p Hp. destruct (decide (p = l)) as [->|]; [destruct Hl; [left; set_solver|by right]|left; set_solver].
    + intros p Hp. destruct (decide (p = l)) as [->|]; [destruct Hl; [left; set_solver|by right]|left; set_solver].
Qed.

(** The state of a branch after an operation on its left child gave [d]. *)
Lemma mutate_left h h1 c r hh s v k nl nr F R x F0 R0 a b d ver :
  own h c r (Branch hh s v k nl nr) F R -> view h c r x F0 R0 ->
  mutated v x = mkMem hh s v k None (Some (sref a)) (Some (sref b)) None ->
  owns h c a -> owns h c b -> F0 ## sR a -> F0 ## sR b -> sF a ## sF b ->
  F = F0 ∪ sF a ∪ sF b -> R = R0 ∪ sR a ∪ sR b ->
  moves h a h1 d -> owns h1 c d -> c < ver ->
  exists l h2, (n ← mMutate r ver c; _ ← assign n (withLeft (Some (sref d))); mret n) h1 = Some (Ok l, h2) /\
    opened h2 c l hh s ver k d b /\ upd h F R h2 (sF (joined l hh s ver k d b)) (sR (joined l hh s ver k d b)).
Proof.
  intros Ho Hv Ex Ha Hb Da Db D EF ER Hm Hd Hc.
  destruct (moves_other _ _ _ _ _ _ Ha Hb D Hm) as (Hb1 & Dd & _).
  pose proof (view_child _ _ _ _ _ _ _ _ Hv Ha Da (proj1 Hm)) as Hv1.
  assert (F0 ## sR d) as Dd0.
  { intros p Hp Hp'. destruct (proj2 (proj2 Hm) p Hp') as [|Hn]; [set_solver|].
    eapply own_new; [exact Ho|exact Hn|]. apply (own_sub _ _ _ _ _ _ Ho). set_solver. }
  destruct (mutate_assign h1 c r x F0 R0 ver (withLeft (Some (sref d))) hh s k d b) as (l & h2 & R2 & Ho2 & U2);
    try done.
  { unfold withLeft, mutated in *. cbn. congruence. }
  exists l, h2. split_and!; try done. pose proof (own_sub _ _ _ _ _ _ Ho). subst F R.
  eapply upd_trans; [done| |exact U2].
  eapply upd_eq; [exact (upd_widen (F0 ∪ sF b) (R0 ∪ sR b) _ _ _ _ _ _ Hm)|clear; set_solver..].
Qed.

Lemma mutate_right h h1 c r hh s v k nl nr F R x F0 R0 a b d ver :
  own h c r (Branch hh s v k nl nr) F R -> view h c r x F0 R0 ->
  mutated v x = mkMem hh s v k None (Some (sref a)) (Some (sref b)) None ->
  owns h c a -> owns h c b -> F0 ## sR a -> F0 ## sR b -> sF a ## sF b ->
  F = F0 ∪ sF a ∪ sF b -> R = R0 ∪ sR a ∪ sR b ->
  moves h b h1 d -> owns h1 c d -> c < ver ->
  exists l h2, (n ← mMutate r ver c; _ ← assign n (withRight (Some (sref d))); mret n) h1 = Some (Ok l, h2) /\
    opened h2 c l hh s ver k a d /\ upd h F R h2 (sF (joined l hh s ver k a d)) (sR (joined l hh s ver k a d)).
Proof.
  intros Ho Hv Ex Ha Hb Da Db D EF ER Hm Hd Hc.
  destruct (moves_other _ _ _ _ _ _ Hb Ha ltac:(done) Hm) as (Ha1 & Dd & _).
  pose proof (view_child _ _ _ _ _ _ _ _ Hv Hb Db (proj1 Hm)) as Hv1.
  assert (F0 ## sR d) as Dd0.
  { intros p Hp Hp'. destruct (proj2 (proj2 Hm) p Hp') as [|Hn]; [set_solver|].
    eapply own_new; [exact Ho|exact Hn|]. apply (own_sub _ _ _ _ _ _ Ho). set_solver. }
  destruct (mutate_assign h1 c r x F0 R0 ver (withRight (Some (sref d))) hh s k a d) as (l & h2 & R2 & Ho2 & U2);
    try done.
  { unfold withRight, mutated in *. cbn. congruence. }
  exists l, h2. split_and!; try done. pose proof (own_sub _ _ _ _ _ _ Ho). subst F R.
  eapply upd_trans; [done| |exact U2].
  eapply upd_eq; [exact (upd_widen (F0 ∪ sF a) (R0 ∪ sR a) _ _ _ _ _ _ Hm)|clear; set_solver..].
Qed.

(** ** Insertion *)

(** A persisted node denotes its tree and reaches no location. *)
Lemma own_pers h c n m F R : own h c (RPers n) m F R -> n = m /\ F = ∅ /\ R = ∅.
Proof.
  revert n F R. induction m as [v k val|hh s v k nl IHl nr IHr]; intros n F R; cbn [own];
    intros (x & F0 & R0 & (-> & -> & ->) & Hn).
  - destruct Hn as ((_ & E) & -> & ->). unfold persistedCell in E.
    destruct n; [|done]. cbn in E. by injection E as -> -> ->.
  - destruct Hn as (lr & rr & Fl & Rl & Fr & Rr & (_ & E) & Hl & Hr & _ & _ & _ & -> & ->).
    unfold persistedCell in E. destruct n; [done|]. cbn in E. injection E as -> -> -> -> <- <-.
    destruct (IHl _ _ _ Hl) as (-> & -> & ->), (IHr _ _ _ Hr) as (-> & -> & ->).
    split; [done|]. set_solver.
Qed.

Lemma mIsLeaf_run {B} h c a (k : bool -> HM B) :
  owns h c a -> avl (stree a) -> (mIsLeaf (sref a) ≫= k) h = k (IsLeaf (stree a)) h.
Proof.
  intros Ho Ha. pose proof (owns_view _ _ _ Ho) as (x & F0 & R0 & Hv & Eh & _).
  apply SE_bind_ok. destruct a as [[l|n] m F R]; cbn [sref stree mIsLeaf] in *.
  - destruct Hv as (E & _). rewrite (load_run _ _ _ _ E), Eh. unfold mret, SE_ret.
    destruct m as [|hh s v k' nl nr]; [done|]. cbn [Height IsLeaf]. destruct Ha as (Al & Ar & -> & _).
    pose proof (avl_pos _ Al). rewrite (proj2 (Z.eqb_neq _ _)) by lia. done.
  - by destruct (own_pers _ _ _ _ _ _ Ho) as [-> _].
Qed.

(** A node just allocated is a leaf of the tree's own. *)
Definition leafSub (l : loc) (ver : Z) (key value : bytes) : sub :=
  mkSub (RMem l) (Leaf ver key value) {[l]} {[l]}.

Lemma leafSub_owns h c l ver key value :
  h !! l = Some (memLeaf key value ver) -> c < ver -> owns h c (leafSub l ver key value).
Proof.
  intros E Hc. exists (memLeaf key value ver), {[l]}, {[l]}. split.
  - split_and!; [done..|]. cbn. by rewrite (proj2 (Z.leb_gt ver c)).
  - split_and!; [|done..]. split; [by left|done].
Qed.

Lemma alloc_owns h c a x : owns h c a -> owns (<[nextLoc h := x]> h) c a.
Proof.
  intros Ha. eapply (owns_keeps ∅); [exact Ha| |set_solver]. apply keeps_insert. right. apply nextLoc_fresh.
Qed.

(** What an operation returning a node gives for the tree [n']. *)
Definition gives {A} (h : Heap) (c : Z) (j : sub) (m : HM A) (out : loc -> A) (n' : Node) : Prop :=
  exists l h' F' R', m h = Some (Ok (out l), h') /\
    owns h' c (mkSub (RMem l) n' F' R') /\ moves h j h' (mkSub (RMem l) n' F' R').

(** A new leaf next to the old one, below a new branch. *)
Lemma split_leaf h c j key value ver k (lft : bool) :
  owns h c j -> c < ver ->
  let l := nextLoc h in
  let h1 := <[l := memLeaf key value ver]> h in
  let b := nextLoc h1 in
  let lc := if lft then leafSub l ver key value else j in
  let rc := if lft then j else leafSub l ver key value in
  let h2 := <[b := mkMem 1 2 ver k None (Some (sref lc)) (Some (sref rc)) None]> h1 in
  owns h2 c (joined b 1 2 ver k lc rc) /\ moves h j h2 (joined b 1 2 ver k lc rc).
Proof.
  intros Hj Hc l h1 b lc rc h2.
  pose proof (nextLoc_fresh h) as Nl. pose proof (nextLoc_fresh h1) as Nb. fold l in Nl. fold b in Nb.
  assert (b <> l) as Hne by (intros E; rewrite E in Nb; unfold h1 in Nb; by rewrite lookup_insert_eq in Nb).
  assert (h !! b = None) as Nb' by (by unfold h1 in Nb; rewrite lookup_insert_ne in Nb).
  assert (l ∉ sF j) as Hl by (intros Hp%(owns_sub _ _ _ Hj); by eapply own_new in Hp).
  assert (b ∉ sF j) as Hb by (intros Hp%(owns_sub _ _ _ Hj); by eapply own_new in Hp).
  assert (owns h2 c (leafSub l ver key value)) as Hleaf.
  { apply leafSub_owns; [|done]. unfold h2. rewrite lookup_insert_ne by done. apply lookup_insert_eq. }
  assert (owns h2 c j) as Hj2 by (by do 2 apply alloc_owns).
  split.
  - apply opened_owns, opened_intro; [apply lookup_insert_eq|done|..]; unfold lc, rc; destruct lft;
      try done; cbn; set_solver.
  - unfold moves, joined; cbn [sF sR]. split_and!.
    + intros p x E Hp. unfold h2, h1. rewrite !lookup_insert_ne by congruence. done.
    + intros p Hp. destruct (decide (p = l)) as [->|]; [by right|].
      destruct (decide (p = b)) as [->|]; [by right|]. left. unfold lc, rc in Hp. destruct lft; cbn in Hp; set_solver.
    + intros p Hp. destruct (decide (p = l)) as [->|]; [by right|].
      destruct (decide (p = b)) as [->|]; [by right|]. left. unfold lc, rc in Hp. destruct lft; cbn in Hp; set_solver.
Qed.

(** An existing leaf takes the new value. *)
Lemma update_leaf h c j v k val value ver :
  owns h c j -> stree j = Leaf v k val -> c < ver ->
  gives h c j (n ← mMutate (sref j) ver c; _ ← assign n (withValue value); mret (n, true)) (., true) (Leaf ver k value).
Proof.
  destruct j as [r n F R]. unfold owns. cbn [sref stree sF sR]. intros Ho -> Hc. cbn [own] in Ho.
  destruct Ho as (x & F0 & R0 & Hv & (_ & Ex) & -> & ->).
  destruct (mMutate_ok _ _ _ _ _ _ ver Hv Hc) as (l & h1 & R1 & E1 & K1 & Hl & _).
  assert (F0 ⊆ R0) as S0.
  { destruct r; destruct Hv as (_ & -> & ->); [case_match; set_solver|done]. }
  exists l, (<[l := memLeaf k value ver]> h1), {[l]}, {[l]}. split_and!.
  - rewrite (SE_bind_ok _ _ _ _ _ R1), (assign_run _ _ _ _ _ E1). rewrite Ex. done.
  - apply leafSub_owns; [apply lookup_insert_eq|done].
  - unfold moves; cbn [sF sR]. split_and!.
    + eapply (keeps_trans _ {[l]}); [exact K1|apply keeps_insert; left; set_solver|].
      by intros p ->%elem_of_singleton.
    + by intros p ->%elem_of_singleton.
    + intros p ->%elem_of_singleton. destruct Hl; [left; set_solver|auto].
Qed.

(** A computation that ends in returning a node, continued. *)
Lemma run_cont {A} (m : HM loc) (p : loc -> HM unit) h l h' (k : loc -> HM A) :
  (n ← m; _ ← p n; mret n) h = Some (Ok l, h') -> (n ← m; _ ← p n; k n) h = k l h'.
Proof.
  unfold mbind, SE_bind, mret, SE_ret. destruct (m h) as [[[n|] h1]|]; [|done..].
  destruct (p n h1) as [[[[]|] h2]|]; [|done..]. by intros [= <- <-].
Qed.

(** The end of an insertion: an update leaves the shape, an insertion rebalances. *)
Lemma set_end h h2 c j l hh s k a b ver (u : bool) n' :
  owns h c j -> opened h2 c l hh s ver k a b ->
  moves h j h2 (joined l hh s ver k a b) -> c < ver ->
  (if u then Some (Branch hh s ver k (stree a) (stree b), u)
   else n ← updateHeightSize (Branch hh s ver k (stree a) (stree b));
        n ← reBalance ver n; Some (n, u)) = Some (n', u) ->
  exists l' h' F' R',
    (if u then mret (l, u)
     else _ ← mUpdateHeightSize l; n ← mReBalance l ver c; mret (n, u)) h2 = Some (Ok (l', u), h') /\
    owns h' c (mkSub (RMem l') n' F' R') /\ moves h j h' (mkSub (RMem l') n' F' R').
Proof.
  intros Hj Ho Hm Hc E. destruct u.
  - injection E as <-. do 4 eexists. split_and!; [reflexivity|by apply opened_owns|exact Hm].
  - destruct (updateHeightSize _) as [n1|] eqn:E1; [|done]. cbn [mbind option_bind] in E.
    destruct (reBalance ver n1) as [n2|] eqn:E2; [|done]. injection E as <-.
    destruct (rebalance_ok _ _ _ _ _ _ _ _ _ ver _ _ Ho Hc E1 E2)
      as (l' & h' & hh' & s' & v' & k' & a' & b' & R & Ho' & -> & Hm').
    exists l', h'. do 2 eexists. split_and!; [|by apply opened_owns|].
    + destruct (mUpdateHeightSize_ok _ _ _ _ _ _ _ _ _ Ho) as (h3 & R3 & _).
      rewrite (SE_bind_ok _ _ _ _ _ R3) in R. rewrite (SE_bind_ok _ _ _ _ _ R3). by rewrite (SE_bind_ok _ _ _ _ _ R).
    + eapply moves_trans; [exact Hj|exact Hm|exact Hm'].
Qed.

Lemma mSetRecursive_ok fuel h c j key value ver n' u :
  owns h c j -> avl (stree j) -> Height (stree j) < Z.of_nat fuel -> c < ver ->
  setNode (stree j) key value ver = Some (n', u) ->
  gives h c j (mSetRecursive fuel (Some (sref j)) key value ver c) (., u) n'.
Proof.
  revert h j n' u. induction fuel as [|fuel IH]; intros h j n' u Hj Ha Hf Hc E.
  { pose proof (avl_pos _ Ha). lia. }
  unfold gives. cbn [mSetRecursive]. rewrite (mKey_run _ c j), (mIsLeaf_run _ c j) by done.
  destruct (stree j) as [v k val|hh s v k nl nr] eqn:Ej; cbn [IsLeaf Key setNode] in *.
  - destruct (bytes_compare key k).
    + injection E as <- <-. by eapply update_leaf.
    + injection E as <- <-. destruct (split_leaf h c j key value ver k true Hj Hc) as [Ho Hm].
      do 4 eexists. split_and!; [reflexivity| |exact Hm]. unfold joined in Ho. cbn in Ho. by rewrite Ej in Ho.
    + injection E as <- <-. destruct (split_leaf h c j key value ver key false Hj Hc) as [Ho Hm].
      do 4 eexists. split_and!; [reflexivity| |exact Hm]. unfold joined in Ho. cbn in Ho. by rewrite Ej in Ho.
  - pose proof Hj as Ho. unfold owns in Ho. rewrite Ej in Ho.
    pose proof (owns_branch _ _ _ _ _ _ _ _ _ _ _ Ho) as (x & F0 & R0 & a & b & Hv & <- & <- & Ex & _ & _ & _ & _ & _ & _ &
      El & Er & Oa & Ob & Da & Db & D & EF & ER).
    destruct Ha as (Al & Ar & Eh & _). cbn [Height] in Hf.
    destruct (bytes_ltb key k).
    + destruct (setNode (stree a) key value ver) as [[d u']|] eqn:Es; [|done]. cbn [mbind option_bind] in E.
      assert (u' = u) as -> by (destruct u'; [congruence|]; repeat case_match; simplify_option_eq; congruence).
      destruct (IH h a d u Oa Al ltac:(lia) Hc Es) as (l1 & h1 & F1 & R1 & Run1 & Od & Hm1).
      destruct (mutate_left _ _ _ _ _ _ _ _ _ _ _ _ _ _ _ _ _ _ ver Ho Hv Ex Oa Ob Da Db D EF ER Hm1 Od Hc)
        as (l2 & h2 & Run2 & Ho2 & Hm2).
      destruct (set_end _ _ _ _ _ _ _ _ _ _ _ u n' Hj Ho2 Hm2 Hc E) as (l3 & h3 & F3 & R3 & Run3 & Od3 & Hm3).
      exists l3, h3, F3, R3. split_and!; try done. rewrite <- Run3.
      etransitivity; [apply (SE_bind_ok _ _ _ (l2, u) h2)|reflexivity]. rewrite (mLeft_run _ _ _ _ _ _ _ _ Hv El), (SE_bind_ok _ _ _ _ _ Run1).
      by rewrite (run_cont _ _ _ _ _ _ Run2).
    + destruct (setNode (stree b) key value ver) as [[d u']|] eqn:Es; [|done]. cbn [mbind option_bind] in E.
      assert (u' = u) as -> by (destruct u'; [congruence|]; repeat case_match; simplify_option_eq; congruence).
      destruct (IH h b d u Ob Ar ltac:(lia) Hc Es) as (l1 & h1 & F1 & R1 & Run1 & Od & Hm1).
      destruct (mutate_right _ _ _ _ _ _ _ _ _ _ _ _ _ _ _ _ _ _ ver Ho Hv Ex Oa Ob Da Db D EF ER Hm1 Od Hc)
        as (l2 & h2 & Run2 & Ho2 & Hm2).
      destruct (set_end _ _ _ _ _ _ _ _ _ _ _ u n' Hj Ho2 Hm2 Hc E) as (l3 & h3 & F3 & R3 & Run3 & Od3 & Hm3).
      exists l3, h3, F3, R3. split_and!; try done. rewrite <- Run3.
      etransitivity; [apply (SE_bind_ok _ _ _ (l2, u) h2)|reflexivity]. rewrite (mRight_run _ _ _ _ _ _ _ _ Hv Er), (SE_bind_ok _ _ _ _ _ Run1).
      by rewrite (run_cont _ _ _ _ _ _ Run2).
Qed.

(** ** Deletion *)

Definition ownsO (h : Heap) (c : Z) (r : option ref) (n : option Node) (F R : locs) : Prop :=
  match r, n with
  | Some r, Some n => own h c r n F R
  | None, None => F = ∅ /\ R = ∅
  | _, _ => False
  end.

(** The result of a deletion; when the key is not found nothing is written. *)
Definition removes (h : Heap) (c : Z) (j : sub) (m : HM (option bytes * option ref * option bytes))
    (val : option bytes) (n' : option Node) (nk : option bytes) : Prop :=
  exists r' h' F' R', m h = Some (Ok (val, r', nk), h') /\ ownsO h' c r' n' F' R' /\
    upd h (sF j) (sR j) h' F' R' /\ (val = None -> h' = h /\ r' = Some (sref j)).

Lemma upd_refl h F R : upd h F R h F R.
Proof. split_and!; [apply keeps_refl|auto|auto]. Qed.

(** Nothing found below: the node is returned as it is. *)
Lemma removes_nothing h c j m n' :
  owns h c j -> n' = Some (stree j) -> m h = Some (Ok (None, Some (sref j), None), h) ->
  removes h c j m None n' None.
Proof. intros Hj -> E. do 4 eexists. split_and!; [exact E|exact Hj|apply upd_refl|done]. Qed.

(** The leaf below was removed: the other child takes the place of the node. *)
Lemma removes_other h h1 c j a b F1 R1 m x nk :
  owns h c j -> owns h c a -> owns h c b -> sF a ## sF b ->
  sF a ⊆ sF j -> sF b ⊆ sF j -> sR b ⊆ sR j ->
  upd h (sF a) (sR a) h1 F1 R1 -> m h = Some (Ok (Some x, Some (sref b), nk), h1) ->
  removes h c j m (Some x) (Some (stree b)) nk.
Proof.
  intros Hj Ha Hb D Sa Sb Rb Hu E.
  destruct (moves_other h h1 c a (mkSub (sref a) (stree a) F1 R1) b Ha Hb D Hu) as (Hb1 & _).
  do 4 eexists. split_and!; [exact E|exact Hb1| |done].
  split_and!; [eapply keeps_mono; [apply Hu|done]|auto..].
Qed.

(** The end of a deletion below a node. *)
Lemma removes_end h h2 c j l hh s k a b ver m x nk n1 n2 :
  owns h c j -> opened h2 c l hh s ver k a b -> moves h j h2 (joined l hh s ver k a b) -> c < ver ->
  updateHeightSize (Branch hh s ver k (stree a) (stree b)) = Some n1 -> reBalance ver n1 = Some n2 ->
  m h = (_ ← mUpdateHeightSize l; n ← mReBalance l ver c; mret (Some x, Some (RMem n), nk)) h2 ->
  removes h c j m (Some x) (Some n2) nk.
Proof.
  intros Hj Ho Hm Hc E1 E2 E.
  destruct (rebalance_ok _ _ _ _ _ _ _ _ _ ver _ _ Ho Hc E1 E2)
    as (l' & h' & hh' & s' & v' & k' & a' & b' & R & Ho' & -> & Hm').
  exists (Some (RMem l')), h'. do 2 eexists. split_and!; [|by apply opened_owns| |done].
  - rewrite E. destruct (mUpdateHeightSize_ok _ _ _ _ _ _ _ _ _ Ho) as (h3 & R3 & _).
    rewrite (SE_bind_ok _ _ _ _ _ R3) in R. rewrite (SE_bind_ok _ _ _ _ _ R3).
    by rewrite (SE_bind_ok _ _ _ _ _ R).
  - eapply moves_trans; [exact Hj|exact Hm|exact Hm'].
Qed.

Lemma mRemove_leaf fuel h c j v k x key ver val n' nk :
  owns h c j -> stree j = Leaf v k x -> removeNode (stree j) key ver = Some (val, n', nk) ->
  removes h c j (mRemoveRecursive (S fuel) (Some (sref j)) key ver c) val n' nk.
Proof.
  intros Hj Ej E. assert (avl (stree j)) as Ha by (by rewrite Ej).
  unfold removes. cbn [mRemoveRecursive]. rewrite (mIsLeaf_run _ c j), (mKey_run _ c j) by done.
  pose proof (owns_view _ _ _ Hj) as (y & F0 & R0 & Hv & _ & _ & _ & Ev).
  rewrite Ej in E, Ev |- *. cbn [IsLeaf Key removeNode] in *. destruct (bytes_eqb k key).
  - injection E as <- <- <-. exists None, h, ∅, ∅. split_and!; try done.
    + unfold mValue. rewrite (SE_bind_ok _ _ _ (Some x) h); [done|].
      by rewrite (view_run _ _ _ _ _ _ _ Hv), Ev.
    + split_and!; [apply keeps_refl|set_solver..].
  - injection E as <- <- <-. apply removes_nothing; try done. by rewrite Ej.
Qed.

Lemma mKey_view {B} h c r x F0 R0 (k : bytes -> HM B) :
  view h c r x F0 R0 -> (mKey r ≫= k) h = k (mkey x) h.
Proof. intros Hv. apply SE_bind_ok. unfold mKey. by rewrite (view_run _ _ _ _ _ _ _ Hv). Qed.

Lemma setKey_ok h c l hh s v k a b nk :
  opened h c l hh s v k a b ->
  exists h', match nk with Some k' => assign l (withKey k') | None => mret tt end h = Some (Ok tt, h') /\
    opened h' c l hh s v (default k nk) a b /\
    moves h (joined l hh s v k a b) h' (joined l hh s v (default k nk) a b).
Proof.
  intros Ho. destruct nk as [k'|]; cbn [default].
  - eexists. split; [apply assign_end, Ho|]. split; [by eapply opened_write|].
    unfold moves, joined; cbn [sF sR]. split_and!; [|auto..]. apply keeps_insert. left. set_solver.
  - exists h. split_and!; [done|done|apply upd_refl].
Qed.

(** The steps of a deletion up to the recursive call, which [Hrun] evaluates. *)
Ltac descend c j Ej Hk Hv Hrun :=
  cbn [mRemoveRecursive]; rewrite (mIsLeaf_run _ c j), (mKey_run _ c j) by done;
  rewrite Ej; cbn [IsLeaf Key]; rewrite Hk;
  first [erewrite (mLeft_run _ _ _ _ _ _ _ _ Hv) by eassumption
        |erewrite (mRight_run _ _ _ _ _ _ _ _ Hv) by eassumption];
  rewrite (SE_bind_ok _ _ _ _ _ Hrun).

Lemma mRemove_left fuel h c j hh s v k nl nr key ver val n' nk :
  owns h c j -> stree j = Branch hh s v k nl nr -> avl (stree j) -> c < ver -> bytes_ltb key k = true ->
  (forall a val n' nk, owns h c a -> stree a = nl -> removeNode nl key ver = Some (val, n', nk) ->
     removes h c a (mRemoveRecursive fuel (Some (sref a)) key ver c) val n' nk) ->
  removeNode (stree j) key ver = Some (val, n', nk) ->
  removes h c j (mRemoveRecursive (S fuel) (Some (sref j)) key ver c) val n' nk.
Proof.
  intros Hj Ej Ha Hc Hk IH E. pose proof Hj as Ho. unfold owns in Ho. rewrite Ej in Ho.
  pose proof (owns_branch _ _ _ _ _ _ _ _ _ _ _ Ho) as (x & F0 & R0 & a & b & Hv & Ea & Eb & Ex & _ & _ & _ & Ek & _ & _ &
    El & Er & Oa & Ob & Da & Db & D & EF & ER).
  rewrite Ej in E. cbn [removeNode] in E. rewrite Hk in E.
  destruct (removeNode nl key ver) as [[[val1 l1] nk1]|] eqn:Es; [|done]. cbn [mbind option_bind] in E.
  destruct (IH a val1 l1 nk1 Oa Ea eq_refl) as (r1 & h1 & F1 & R1 & Run1 & Od & Hu & Hnone). clear IH.
  destruct val1 as [y|]; [destruct l1 as [l1|]|].
  - destruct r1 as [r1|]; [|done].
    destruct (updateHeightSize _) as [n1|] eqn:E1; [|done]. cbn [mbind option_bind] in E.
    destruct (reBalance ver n1) as [n2|] eqn:E2; [|done]. injection E as <- <- <-.
    destruct (mutate_left _ h1 _ _ _ _ _ _ _ _ _ _ _ _ _ _ _ (mkSub r1 l1 F1 R1) ver
      Ho Hv Ex Oa Ob Da Db D EF ER Hu Od Hc) as (l2 & h2 & Run2 & Ho2 & Hm2).
    eapply (removes_end _ h2); [exact Hj|exact Ho2|exact Hm2|done| |exact E2|]; [by rewrite Eb|].
    descend c j Ej Hk Hv Run1. by rewrite (run_cont _ _ _ _ _ _ Run2).
  - destruct r1; [done|]. injection E as <- <- <-. rewrite <- Eb.
    pose proof (view_child _ h1 _ _ _ _ _ _ Hv Oa Da (proj1 Hu)) as Hv1.
    eapply (removes_other _ h1 _ _ a b); try done; [rewrite EF; clear; set_solver..|rewrite ER; clear; set_solver|].
    descend c j Ej Hk Hv Run1.
    by rewrite (mRight_run _ _ _ _ _ _ _ _ Hv1 Er), (mKey_view _ _ _ _ _ _ _ Hv1), Ek.
  - destruct (Hnone eq_refl) as [-> ->]. injection E as <- <- <-.
    apply removes_nothing; [done|by rewrite Ej|]. by descend c j Ej Hk Hv Run1.
Qed.

Lemma mRemove_right fuel h c j hh s v k nl nr key ver val n' nk :
  owns h c j -> stree j = Branch hh s v k nl nr -> avl (stree j) -> c < ver -> bytes_ltb key k = false ->
  (forall a val n' nk, owns h c a -> stree a = nr -> removeNode nr key ver = Some (val, n', nk) ->
     removes h c a (mRemoveRecursive fuel (Some (sref a)) key ver c) val n' nk) ->
  removeNode (stree j) key ver = Some (val, n', nk) ->
  removes h c j (mRemoveRecursive (S fuel) (Some (sref j)) key ver c) val n' nk.
Proof.
  intros Hj Ej Ha Hc Hk IH E. pose proof Hj as Ho. unfold owns in Ho. rewrite Ej in Ho.
  pose proof (owns_branch _ _ _ _ _ _ _ _ _ _ _ Ho) as (x & F0 & R0 & a & b & Hv & Ea & Eb & Ex & _ & _ & _ & Ek & _ & _ &
    El & Er & Oa & Ob & Da & Db & D & EF & ER).
  rewrite Ej in E. cbn [removeNode] in E. rewrite Hk in E.
  destruct (removeNode nr key ver) as [[[val1 l1] nk1]|] eqn:Es; [|done]. cbn [mbind option_bind] in E.
  destruct (IH b val1 l1 nk1 Ob Eb eq_refl) as (r1 & h1 & F1 & R1 & Run1 & Od & Hu & Hnone). clear IH.
  destruct val1 as [y|]; [destruct l1 as [l1|]|].
  - destruct r1 as [r1|]; [|done].
    destruct (updateHeightSize _) as [n1|] eqn:E1; [|done]. cbn [mbind option_bind] in E.
    destruct (reBalance ver n1) as [n2|] eqn:E2; [|done]. injection E as <- <- <-.
    destruct (mutate_right _ h1 _ _ _ _ _ _ _ _ _ _ _ _ _ _ _ (mkSub r1 l1 F1 R1) ver
      Ho Hv Ex Oa Ob Da Db D EF ER Hu Od Hc) as (l2 & h2 & Run2 & Ho2 & Hm2).
    destruct (setKey_ok _ _ _ _ _ _ _ _ _ nk1 Ho2) as (h3 & Run3 & Ho3 & Hm3).
    eapply (removes_end _ h3); [exact Hj|exact Ho3| |done| |exact E2|]; [|by rewrite Ea|].
    + eapply moves_trans; [exact Hj|exact Hm2|exact Hm3].
    + descend c j Ej Hk Hv Run1. rewrite (run_cont _ _ _ _ _ _ Run2). by rewrite (SE_bind_ok _ _ _ _ _ Run3).
  - destruct r1; [done|]. injection E as <- <- <-. rewrite <- Ea.
    pose proof (view_child _ h1 _ _ _ _ _ _ Hv Ob Db (proj1 Hu)) as Hv1.
    eapply (removes_other _ h1 _ _ b a); try done; [rewrite EF; clear; set_solver..|rewrite ER; clear; set_solver|].
    descend c j Ej Hk Hv Run1. by rewrite (mLeft_run _ _ _ _ _ _ _ _ Hv1 El).
  - destruct (Hnone eq_refl) as [-> ->]. injection E as <- <- <-.
    apply removes_nothing; [done|by rewrite Ej|]. by descend c j Ej Hk Hv Run1.
Qed.

Lemma mRemoveRecursive_ok fuel h c j key ver val n' nk :
  owns h c j -> avl (stree j) -> Height (stree j) < Z.of_nat fuel -> c < ver ->
  removeNode (stree j) key ver = Some (val, n', nk) ->
  removes h c j (mRemoveRecursive fuel (Some (sref j)) key ver c) val n' nk.
Proof.
  revert j val n' nk. induction fuel as [|fuel IH]; intros j val n' nk Hj Ha Hf Hc E.
  { pose proof (avl_pos _ Ha). lia. }
  destruct (stree j) as [v k x|hh s v k nl nr] eqn:Ej; [eapply mRemove_leaf; rewrite ?Ej; done|].
  pose proof Ha as (Al & Ar & Eh & _). cbn [Height] in Hf.
  destruct (bytes_ltb key k) eqn:Hk.
  - eapply mRemove_left; rewrite ?Ej; try done. intros a ???? <- ?. apply IH; try done; lia.
  - eapply mRemove_right; rewrite ?Ej; try done. intros a ???? <- ?. apply IH; try done; lia.
Qed.

(** ** Hashing *)

Lemma view_det h c1 c2 r x y F1 R1 F2 R2 : view h c1 r x F1 R1 -> view h c2 r y F2 R2 -> x = y.
Proof. destruct r; intros (? & _) (? & _); congruence. Qed.

(** A reference denotes one tree, whoever looks. *)
Lemma own_det h c1 c2 r n1 n2 F1 R1 F2 R2 :
  own h c1 r n1 F1 R1 -> own h c2 r n2 F2 R2 -> n1 = n2.
Proof.
  revert r n2 F1 R1 F2 R2. induction n1 as [v k val|hh s v k nl IHl nr IHr];
    intros r [v' k' val'|hh' s' v' k' nl' nr'] F1 R1 F2 R2; cbn [own].
  - intros (x & ? & ? & V1 & (_ & E1) & _) (y & ? & ? & V2 & (_ & E2) & _).
    rewrite (view_det _ _ _ _ _ _ _ _ _ _ V1 V2), E2 in E1. by injection E1 as -> -> ->.
  - intros (x & ? & ? & V1 & (_ & E1) & _) (y & ? & ? & V2 & ? & ? & ? & ? & ? & ? & (_ & E2) & _).
    by rewrite (view_det _ _ _ _ _ _ _ _ _ _ V1 V2), E2 in E1.
  - intros (x & ? & ? & V1 & ? & ? & ? & ? & ? & ? & (_ & E1) & _) (y & ? & ? & V2 & (_ & E2) & _).
    by rewrite (view_det _ _ _ _ _ _ _ _ _ _ V1 V2), E2 in E1.
  - intros (x & ? & ? & V1 & lr & rr & ? & ? & ? & ? & (_ & E1) & Ol1 & Or1 & _)
      (y & ? & ? & V2 & lr' & rr' & ? & ? & ? & ? & (_ & E2) & Ol2 & Or2 & _).
    rewrite (view_det _ _ _ _ _ _ _ _ _ _ V1 V2), E2 in E1. injection E1 as -> -> -> -> -> ->.
    f_equal; eauto.
Qed.

Lemma own_mem h c l n F R :
  own h c (RMem l) n F R ->
  exists x lr rr, h !! l = Some x /\ cellOf n x lr rr /\
    match n with
    | Leaf _ _ _ => True
    | Branch _ _ _ _ nl nr => exists a b Fl Rl Fr Rr, lr = Some a /\ rr = Some b /\
        own h c a nl Fl Rl /\ own h c b nr Fr Rr
    end.
Proof.
  destruct n; cbn [own].
  - intros (x & ? & ? & (E & _) & Hc & _). by exists x, None, None.
  - intros (x & ? & ? & (E & _) & lr & rr & Fl & Rl & Fr & Rr & Hc & Ol & Or & _).
    exists x, (Some lr), (Some rr). split_and!; [done..|]. by exists lr, rr, Fl, Rl, Fr, Rr.
Qed.

(** Every denotation in [h] also holds in [h']. *)
Definition sameDenotations (h h' : Heap) : Prop :=
  forall c r n F R, own h c r n F R -> own h' c r n F R.

(** The cell of a reference, before and after a hash was cached at [l]. *)
Lemma cacheHash_view h l n x c r m y F0 R0 lr rr :
  h !! l = Some x -> (r = RMem l -> m = n) -> view h c r y F0 R0 -> cellOf m y lr rr ->
  exists z, view (<[l := withHash (Some (HashNode n)) x]> h) c r z F0 R0 /\ cellOf m z lr rr.
Proof.
  intros E Hm Hv (Hh & Ey). destruct r as [l'|]; [|by exists y].
  destruct Hv as (E' & -> & ->). destruct (decide (l' = l)) as [->|Hne].
  - rewrite (Hm eq_refl) in *. simplify_eq. exists (withHash (Some (HashNode n)) x). split.
    + split; [apply lookup_insert_eq|done].
    + split; [by right|]. rewrite Ey. done.
  - exists y. split; [|done]. split; [by rewrite lookup_insert_ne|done].
Qed.

(** Caching the right hash changes no denotation. *)
Lemma cacheHash_same h c l n F R x :
  own h c (RMem l) n F R -> h !! l = Some x ->
  sameDenotations h (<[l := withHash (Some (HashNode n)) x]> h).
Proof.
  intros Hl E c' r m. revert r. induction m as [v k val|hh s v k nl IHl nr IHr]; intros r G S Hm.
  - assert (r = RMem l -> Leaf v k val = n) as Hr by (intros ->; by eapply own_det).
    cbn [own] in *. destruct Hm as (y & F0 & R0 & Hv & Hc & HF).
    destruct (cacheHash_view _ _ _ _ _ _ _ _ _ _ _ _ E Hr Hv Hc) as (z & Hv' & Hc'). by exists z, F0, R0.
  - assert (r = RMem l -> Branch hh s v k nl nr = n) as Hr by (intros ->; by eapply own_det).
    cbn [own] in *. destruct Hm as (y & F0 & R0 & Hv & lr & rr & Fl & Rl & Fr & Rr & Hc & Ol & Or & HF).
    destruct (cacheHash_view _ _ _ _ _ _ _ _ _ _ _ _ E Hr Hv Hc) as (z & Hv' & Hc').
    exists z, F0, R0. split; [done|]. exists lr, rr, Fl, Rl, Fr, Rr. auto.
Qed.

Lemma sameDenotations_trans h h' h'' :
  sameDenotations h h' -> sameDenotations h' h'' -> sameDenotations h h''.
Proof. unfold sameDenotations. auto. Qed.

Lemma mHashBytes_cell n x lr rr lh rh :
  avl n -> cellOf n x lr rr -> mHashBytes x lh rh = writeHashBytes n lh rh.
Proof.
  intros Ha (_ & ->). unfold mHashBytes, writeHashBytes. cbn [mheight msize mversion mkey mvalue].
  destruct n as [|hh s v k nl nr]; [done|]. cbn [Height]. destruct Ha as (Al & Ar & -> & _).
  pose proof (avl_pos _ Al). by rewrite (proj2 (Z.eqb_neq _ _)) by lia.
Qed.

(** [Hash] returns the hash of the denoted tree, from the caches or computed, and
    leaves every tree in the heap what it was. *)
Definition hashes (h : Heap) (m : HM bytes) (n : Node) : Prop :=
  exists h', m h = Some (Ok (HashNode n), h') /\ sameDenotations h h'.

Lemma hashes_id h n : hashes h (mret (HashNode n)) n.
Proof. exists h. split; [done|by unfold sameDenotations]. Qed.

(** [HashNode] on the node, given [Hash] on its children. *)
Lemma hashes_compute fuel h c l n F R x lr rr :
  own h c (RMem l) n F R -> avl n -> h !! l = Some x -> cellOf n x lr rr ->
  match n with
  | Leaf _ _ _ => True
  | Branch _ _ _ _ nl nr => exists a b, lr = Some a /\ rr = Some b /\ hashes h (mHash fuel a) nl /\
      (forall h', sameDenotations h h' -> hashes h' (mHash fuel b) nr)
  end ->
  hashes h (if mheight x =? 0 then mret (Sha256.Sum256 (mHashBytes x [] []))
     else l ← orPanic (mleft x); lh ← mHash fuel l; r ← orPanic (mright x); rh ← mHash fuel r;
          mret (Sha256.Sum256 (mHashBytes x lh rh))) n.
Proof.
  intros Ho Ha E Hc Hn. pose proof Hc as (_ & Ex).
  assert (mheight x = Height n /\ mleft x = lr /\ mright x = rr) as (-> & -> & ->) by (by rewrite Ex).
  destruct n as [v k val|hh s v k nl nr].
  - rewrite (mHashBytes_cell _ _ _ _ _ _ Ha Hc). apply (hashes_id h (Leaf v k val)).
  - destruct Hn as (a & b & -> & -> & (h1 & R1 & S1) & Hb). destruct (Hb h1 S1) as (h2 & R2 & S2).
    exists h2. split; [|by eapply sameDenotations_trans]. cbn [Height].
    pose proof Ha as (Al & Ar & Eh & _). pose proof (avl_pos _ Al).
    rewrite (proj2 (Z.eqb_neq _ _)) by lia.
    autorewrite with sstate. rewrite (SE_bind_ok _ _ _ _ _ R1). autorewrite with sstate.
    rewrite (SE_bind_ok _ _ _ _ _ R2). by rewrite (mHashBytes_cell _ _ _ _ _ _ Ha Hc).
Qed.

Lemma mHash_ok fuel h c r n F R :
  own h c r n F R -> avl n -> Height n < Z.of_nat fuel -> hashes h (mHash fuel r) n.
Proof.
  revert h r n F R. induction fuel as [|fuel IH]; intros h r n F R Ho Ha Hf.
  { pose proof (avl_pos _ Ha). lia. }
  destruct r as [l|p].
  2:{ destruct (own_pers _ _ _ _ _ _ Ho) as [-> _]. apply hashes_id. }
  destruct (own_mem _ _ _ _ _ _ Ho) as (x & lr & rr & E & Hc & Hn).
  unfold hashes. cbn [mHash]. rewrite (load_run _ _ _ _ E).
  pose proof Hc as ([Hh|Hh] & _); rewrite Hh; [|apply hashes_id].
  destruct (hashes_compute fuel h c l n F R x lr rr Ho Ha E Hc) as (h1 & R1 & S1).
  { destruct n as [|hh s v k nl nr]; [done|]. destruct Hn as (a & b & Fl & Rl & Fr & Rr & -> & -> & Ol & Or).
    pose proof Ha as (Al & Ar & Eh & _). cbn [Height] in Hf. pose proof (avl_pos _ Al). pose proof (avl_pos _ Ar).
    exists a, b. split_and!; [done..|eapply IH; [done..|lia]|].
    intros h' Hs. eapply IH; [by apply Hs|done|lia]. }
  rewrite (SE_bind_ok _ _ _ _ _ R1). pose proof (S1 _ _ _ _ _ Ho) as Ho1.
  destruct (own_mem _ _ _ _ _ _ Ho1) as (x1 & _ & _ & E1 & _).
  rewrite (assign_run _ _ _ _ _ E1). eexists. split; [reflexivity|].
  eapply sameDenotations_trans; [exact S1|by eapply cacheHash_same].
Qed.

(** ** Lookup *)

(** [Get] reads the denoted tree and writes nothing. *)
Lemma mGet_ok fuel h c r n F R key :
  own h c r n F R -> avl n -> Height n < Z.of_nat fuel ->
  mGet fuel r key h = Some (Ok (Get n key), h).
Proof.
  revert r n F R. induction fuel as [|fuel IH]; intros r n F R Ho Ha Hf.
  { pose proof (avl_pos _ Ha). lia. }
  destruct r as [l|p]; cbn [mGet].
  2:{ by destruct (own_pers _ _ _ _ _ _ Ho) as [-> _]. }
  destruct (own_mem _ _ _ _ _ _ Ho) as (x & lr & rr & E & (_ & Ex) & Hn).
  rewrite (load_run _ _ _ _ E). rewrite Ex. cbn [mheight mkey mvalue mleft mright msize].
  destruct n as [v k val|hh s v k nl nr]; [cbn; by destruct (bytes_compare k key)|].
  destruct Hn as (a & b & Fl & Rl & Fr & Rr & -> & -> & Ol & Or).
  pose proof Ha as (Al & Ar & Eh & _). cbn [Height Key Size Get] in *. pose proof (avl_pos _ Al).
  rewrite (proj2 (Z.eqb_neq _ _)) by lia. destruct (bytes_ltb key k); autorewrite with sstate.
  - eapply IH; [done..|lia].
  - rewrite (SE_bind_ok _ _ _ _ _ (IH _ _ _ _ Or Ar ltac:(lia))).
    destruct (Get nr key) as [value index].
    by rewrite (mSize_run _ c (mkSub b nr Fr Rr) _ Or).
Qed.
