(* ===== verification/CowTree.v ===== *)
(** * Trees that share nodes: [Tree.Copy] and the operations of [memiavl/tree.go]

    A [CowTree] is the Go struct with its copy-on-write version and a root in the
    heap of file [CowHeap].  Several trees, an original and its copies, live in
    one heap and share nodes.  The development's reference for them is a list
    of [Tree] values of file [Tree], which share nothing: every program of
    updates, commits, copies, hashes and reads gives the same outputs on both,
    provided that a tree is copied only when it has no uncommitted changes. *)

From S2P Require Import Prelude KV Binary Sha256 Node Hash Snapshot Persisted Tree CowHeap CowOps.

Open Scope string_scope.
Open Scope Z_scope.
Open Scope list_scope.

Section CowTree.
Context {C : Type} `{CacheLaws C}.

Record CowTree := mkCow {
  cVersion : Z;
  cowVersion : Z;
  cRoot : option ref;
  cSnapshot : option Snapshot;
  cCache : option C;
  cZeroCopy : bool
}.

(** The depth of the recursion on a tree of fewer than [2 ^ 63] leaves. *)
Definition depth : nat := 200.

Definition withRoot (t : CowTree) (root : option ref) (cache : option C) : CowTree :=
  mkCow (cVersion t) (cowVersion t) root (cSnapshot t) cache (cZeroCopy t).

(** [Copy]: the receiver, whose copy-on-write version may change, and the copy. *)
Definition cCopy (t : CowTree) (cacheSize : Z) : CowTree * CowTree :=
  let t := match cRoot t with
           | Some (RMem _) =>
               mkCow (cVersion t) (cVersion t) (cRoot t) (cSnapshot t) (cCache t) (cZeroCopy t)
           | _ => t
           end in
  (t, withRoot t (cRoot t) (NewCache cacheSize)).

Definition cSet (t : CowTree) (key : bytes) (value : option bytes) : HM CowTree :=
  let value := default [] value in
  '(root, _) ← mSetRecursive depth (cRoot t) key value (u32 (cVersion t + 1)) (cowVersion t);
  mret (withRoot t (Some (RMem root)) ((fun c => cache_add c key value) <$> cCache t)).

Definition cRemove (t : CowTree) (key : bytes) : HM CowTree :=
  '(_, root, _) ← mRemoveRecursive depth (cRoot t) key (u32 (cVersion t + 1)) (cowVersion t);
  mret (withRoot t root ((fun c => cache_remove c key) <$> cCache t)).

Fixpoint cApplyChangeSet (t : CowTree) (cs : ChangeSet) : HM CowTree :=
  match cs with
  | [] => mret t
  | kv :: cs =>
      t ← (if Delete kv then cRemove t (PairKey kv) else cSet t (PairKey kv) (PairValue kv));
      cApplyChangeSet t cs
  end.

Definition cRootHash (t : CowTree) : HM bytes :=
  match cRoot t with None => mret emptyHash | Some r => mHash depth r end.

Definition cSaveVersion (t : CowTree) (updateHash : bool) : HM (option bytes * Z * CowTree) :=
  if cVersion t =? MaxUint32 then throw "version overflows uint32"
  else
    hash ← (if updateHash then b ← cRootHash t; mret (Some b) else mret None);
    let v := u32 (cVersion t + 1) in
    mret (hash, v, mkCow v (cowVersion t) (cRoot t) (cSnapshot t) (cCache t) (cZeroCopy t)).

Definition cGetWithIndex (t : CowTree) (key : bytes) : HM (Z * option bytes) :=
  match cRoot t with
  | None => mret (0, None)
  | Some root => '(value, index) ← mGet depth root key; mret (index, value)
  end.

Definition cGet (t : CowTree) (key : bytes) : HM (option bytes * CowTree) :=
  let hit := c ← cCache t; cache_get c key in
  let t := withRoot t (cRoot t) ((fun c => cache_touch c key) <$> cCache t) in
  match hit with
  | Some v => mret (Some v, t)
  | None =>
      '(_, value) ← cGetWithIndex t key;
      match value with
      | None => mret (None, t)
      | Some value => mret (Some value, withRoot t (cRoot t) ((fun c => cache_add c key value) <$> cCache t))
      end
  end.

(** ** Programs on several trees *)

Inductive action :=
| Apply (i : nat) (cs : ChangeSet)
| Save (i : nat) (updateHash : bool)
| Hash (i : nat)
| Read (i : nat) (key : bytes)
| Copy (i : nat) (cacheSize : Z).

Inductive output :=
| ODone
| OHash (hash : bytes)
| OSaved (hash : option bytes) (version : Z)
| OError (e : error)
| OValue (value : option bytes).

Definition World : Type := Heap * list CowTree.

(** An operation on one tree of the world. *)
Definition onTree (w : World) (i : nat) (f : CowTree -> HM (output * CowTree)) : option (output * World) :=
  t ← w.2 !! i;
  match f t w.1 with
  | Some (Ok (o, t'), h) => Some (o, (h, <[i := t']> w.2))
  | Some (Err e, h) => Some (OError e, (h, w.2))
  | None => None
  end.

Definition hstep (w : World) (a : action) : option (output * World) :=
  match a with
  | Apply i cs => onTree w i (fun t => t' ← cApplyChangeSet t cs; mret (ODone, t'))
  | Save i b => onTree w i (fun t => '(hash, v, t') ← cSaveVersion t b; mret (OSaved hash v, t'))
  | Hash i => onTree w i (fun t => b ← cRootHash t; mret (OHash b, t))
  | Read i key => onTree w i (fun t => '(v, t') ← cGet t key; mret (OValue v, t'))
  | Copy i n =>
      t ← w.2 !! i;
      let '(t1, t2) := cCopy t n in
      Some (ODone, (w.1, <[i := t1]> w.2 ++ [t2]))
  end.

Fixpoint hrun (w : World) (l : list action) : option (list output * World) :=
  match l with
  | [] => Some ([], w)
  | a :: l => '(o, w) ← hstep w a; '(os, w) ← hrun w l; Some (o :: os, w)
  end.

(** ** The reference: trees that share nothing *)

(** The youngest version in a tree. *)
Fixpoint maxVersion (n : Node) : Z :=
  match n with
  | Leaf v _ _ => v
  | Branch _ _ v _ l r => Z.max v (Z.max (maxVersion l) (maxVersion r))
  end.

(** Every node of the tree has at most this version. *)
Definition upTo (v : Z) (n : option Node) : bool :=
  match n with None => true | Some n => maxVersion n <=? v end.

(** No change since the last [SaveVersion]. *)
Definition saved (T : Tree C) : bool := upTo (version T) (treeRoot T).

Definition small (T : Tree C) (n : Z) : bool := zlen (content (treeRoot T)) + n <? 2 ^ 63 - 1.

Definition onValue (Ts : list (Tree C)) (i : nat) (f : Tree C -> option (output * Tree C))
    : option (output * list (Tree C)) :=
  T ← Ts !! i; '(o, T') ← f T; Some (o, <[i := T']> Ts).

(** What each operation does to the values.  A program that applies a change set to a
    tree of [2 ^ 63] entries or of the last version, reads a tree of [2 ^ 32]
    entries, or copies a tree with uncommitted changes has no meaning here. *)
Definition vstep (Ts : list (Tree C)) (a : action) : option (output * list (Tree C)) :=
  match a with
  | Apply i cs => onValue Ts i (fun T =>
      if small T (zlen cs) && (version T <? MaxUint32)
      then T' ← ApplyChangeSet T cs; Some (ODone, T') else None)
  | Save i b => onValue Ts i (fun T =>
      match SaveVersion T b with
      | Ok (hash, v, T') => Some (OSaved hash v, T')
      | Err e => Some (OError e, T)
      end)
  | Hash i => onValue Ts i (fun T => Some (OHash (RootHash T), T))
  | Read i key => onValue Ts i (fun T =>
      if zlen (content (treeRoot T)) <? 2 ^ 32
      then let '(v, T') := TreeGet T key in Some (OValue v, T') else None)
  | Copy i n =>
      T ← Ts !! i;
      if saved T then Some (ODone, Ts ++ [withCache T (NewCache n)]) else None
  end.

Fixpoint vrun (Ts : list (Tree C)) (l : list action) : option (list output * list (Tree C)) :=
  match l with
  | [] => Some ([], Ts)
  | a :: l => '(o, Ts) ← vstep Ts a; '(os, Ts) ← vrun Ts l; Some (o :: os, Ts)
  end.

(** ** Simulation *)

(** A well-formed tree of moderate size. *)
Definition sound (T : Tree C) : Prop :=
  tree_ok T /\ zlen (content (treeRoot T)) < 2 ^ 63 - 1.

Definition repr (h : Heap) (t : CowTree) (T : Tree C) (F R : locs) : Prop :=
  cVersion t = version T /\ cSnapshot t = snapshot T /\ cCache t = cache T /\
  cZeroCopy t = zeroCopy T /\ 0 <= cowVersion t <= version T /\
  ownsO h (cowVersion t) (cRoot t) (treeRoot T) F R.

(** A change of the heap by the owner of [F] and [R]: whoever reaches nothing of [F]
    sees no difference. *)
Definition evolves (h : Heap) (F R : locs) (h' : Heap) (F' R' : locs) : Prop :=
  (forall c r n G S, own h c r n G S -> S ## F -> own h' c r n G S) /\
  (forall p, p ∈ F' -> p ∈ F \/ h !! p = None) /\
  (forall p, p ∈ R' -> p ∈ R \/ h !! p = None).

Lemma evolves_upd h F R h' F' R' : upd h F R h' F' R' -> evolves h F R h' F' R'.
Proof. intros (K & U & V). split_and!; try done. intros c r n G S Ho D. by eapply own_keeps. Qed.

Lemma evolves_same h h' F R : sameDenotations h h' -> evolves h F R h' F R.
Proof. intros Hs. split_and!; auto. Qed.

Lemma height_depth n : wf n -> zlen (to_list n) < 2 ^ 63 -> Height n < Z.of_nat depth.
Proof.
  intros Hw Hs. pose proof (avl_height_bound n (proj1 Hw)). rewrite (avl_size n) in H1 by apply Hw.
  change (Z.of_nat depth) with 200. lia.
Qed.

Lemma cSet_ok h t T F R key value T' :
  repr h t T F R -> sound T -> version T < MaxUint32 -> set T key value = Some T' ->
  exists t' h' F' R', cSet t key value h = Some (Ok t', h') /\ repr h' t' T' F' R' /\ upd h F R h' F' R'.
Proof.
  intros (Ev & Es & Ec & Ez & Hcow & Ho) ((Hwf & _ & Hv) & Hsz) Hmax E.
  unfold set in E. unfold cSet. rewrite Ev, Ec. set (x := default [] value) in *.
  assert (cowVersion t < u32 (version T + 1)) as Hc by (unfold MaxUint32 in *; rewrite u32_id; lia).
  destruct (setRecursive _ _ _ _) as [[n u]|] eqn:En; [|done]. injection E as <-.
  assert (exists l h' F' R', mSetRecursive depth (cRoot t) key x (u32 (version T + 1)) (cowVersion t) h =
    Some (Ok (l, u), h') /\ own h' (cowVersion t) (RMem l) n F' R' /\ upd h F R h' F' R')
    as (l & h' & F' & R' & Run & Ho' & Hu).
  { destruct (treeRoot T) as [rn|], (cRoot t) as [r|]; try done.
    - destruct (mSetRecursive_ok depth h (cowVersion t) (mkSub r rn F R) key x (u32 (version T + 1)) n u)
        as (l & h' & F' & R' & Run & Ho' & Hu); try done; [apply Hwf|apply height_depth; [done|]; cbn [content stree] in *; lia|].
      by exists l, h', F', R'.
    - injection En as <- <-. destruct Ho as [-> ->]. exists (nextLoc h). eexists. exists {[nextLoc h]}, {[nextLoc h]}.
      split; [reflexivity|]. split; [apply leafSub_owns; [apply lookup_insert_eq|done]|].
      pose proof (nextLoc_fresh h). split_and!; [apply keeps_insert; by right| |];
        intros p ->%elem_of_singleton; by right. }
  rewrite (SE_bind_ok _ _ _ _ _ Run). exists (withRoot t (Some (RMem l)) ((fun c => cache_add c key x) <$> cache T)), h', F', R'.
  split_and!; try done.
Qed.

Lemma cRemove_ok h t T F R key T' :
  repr h t T F R -> sound T -> version T < MaxUint32 -> remove T key = Some T' ->
  exists t' h' F' R', cRemove t key h = Some (Ok t', h') /\ repr h' t' T' F' R' /\ upd h F R h' F' R'.
Proof.
  intros (Ev & Es & Ec & Ez & Hcow & Ho) ((Hwf & _ & Hv) & Hsz) Hmax E.
  unfold remove in E. unfold cRemove. rewrite Ev, Ec.
  assert (cowVersion t < u32 (version T + 1)) as Hc by (unfold MaxUint32 in *; rewrite u32_id; lia).
  destruct (removeRecursive _ _ _) as [[[x n] nk]|] eqn:En; [|done]. injection E as <-.
  assert (exists r h' F' R', mRemoveRecursive depth (cRoot t) key (u32 (version T + 1)) (cowVersion t) h =
    Some (Ok (x, r, nk), h') /\ ownsO h' (cowVersion t) r n F' R' /\ upd h F R h' F' R')
    as (r & h' & F' & R' & Run & Ho' & Hu).
  { destruct (treeRoot T) as [rn|], (cRoot t) as [r|]; try done.
    - destruct (mRemoveRecursive_ok depth h (cowVersion t) (mkSub r rn F R) key (u32 (version T + 1)) x n nk)
        as (r' & h' & F' & R' & Run & Ho' & Hu & _); try done; [apply Hwf|apply height_depth; [done|]; cbn [content stree] in *; lia|].
      by exists r', h', F', R'.
    - injection En as <- <- <-. exists None, h, F, R. split_and!; [done|exact Ho|apply upd_refl]. }
  rewrite (SE_bind_ok _ _ _ _ _ Run). exists (withRoot t r ((fun c => cache_remove c key) <$> cache T)), h', F', R'.
  by split_and!.
Qed.

Lemma reprF_sub h t T F R : repr h t T F R -> F ⊆ R.
Proof.
  intros (_ & _ & _ & _ & _ & Ho). destruct (cRoot t), (treeRoot T); try done; [by eapply own_sub|].
  destruct Ho as [-> ->]. done.
Qed.

(** One pair of a change set on the values. *)
Lemma apply_pair_ok (T : Tree C) kv :
  sound T -> exists T1, (if Delete kv then remove T (PairKey kv) else set T (PairKey kv) (PairValue kv)) = Some T1 /\
    tree_ok T1 /\ version T1 = version T /\
    zlen (content (treeRoot T1)) <= zlen (content (treeRoot T)) + 1.
Proof.
  intros [Hok Hs]. pose proof (content_sorted _ (proj1 Hok)) as Hso.
  pose proof (apply_pair_length _ kv Hso) as Hl. unfold apply_pair in Hl. destruct (Delete kv).
  - destruct (remove_correct T (PairKey kv)) as (T1 & E & Hok1 & Ev & Ec); [done|lia|].
    exists T1. rewrite Ec. done.
  - destruct (set_correct T (PairKey kv) (PairValue kv)) as (T1 & E & Hok1 & Ev & Ec); [done|lia|].
    exists T1. rewrite Ec. done.
Qed.

Lemma cApplyChangeSet_ok cs h t T F R T' :
  repr h t T F R -> tree_ok T -> zlen (content (treeRoot T)) + zlen cs < 2 ^ 63 - 1 ->
  version T < MaxUint32 -> ApplyChangeSet T cs = Some T' ->
  exists t' h' F' R', cApplyChangeSet t cs h = Some (Ok t', h') /\ repr h' t' T' F' R' /\
    upd h F R h' F' R' /\ sound T'.
Proof.
  revert h t T F R. induction cs as [|kv cs IH]; intros h t T F R Hr Hok Hs Hmax E; cbn [cApplyChangeSet ApplyChangeSet] in *.
  { injection E as <-. exists t, h, F, R. split_and!; [done|done|apply upd_refl|]. split; [done|]. cbn in Hs. lia. }
  cbn [length] in Hs. assert (sound T) as Hso by (split; [done|lia]).
  destruct (apply_pair_ok T kv Hso) as (T1 & E1 & Hok1 & Ev1 & Hl1). rewrite E1 in E. cbn [mbind option_bind] in E.
  assert (exists t1 h1 F1 R1,
    (if Delete kv then cRemove t (PairKey kv) else cSet t (PairKey kv) (PairValue kv)) h = Some (Ok t1, h1) /\
    repr h1 t1 T1 F1 R1 /\ upd h F R h1 F1 R1) as (t1 & h1 & F1 & R1 & Run & Hr1 & Hu1).
  { destruct (Delete kv); [by eapply cRemove_ok|by eapply cSet_ok]. }
  destruct (IH h1 t1 T1 F1 R1) as (t2 & h2 & F2 & R2 & Run2 & Hr2 & Hu2 & Hso2); [done|done|lia|lia|done|].
  exists t2, h2, F2, R2. rewrite (SE_bind_ok _ _ _ _ _ Run). split_and!; [done|done| |done].
  eapply upd_trans; [by eapply reprF_sub|done|done].
Qed.

Lemma ownsO_same h h' c r n F R : sameDenotations h h' -> ownsO h c r n F R -> ownsO h' c r n F R.
Proof. intros Hs. unfold ownsO. repeat case_match; try done. apply Hs. Qed.

Lemma cRootHash_ok h t T F R :
  repr h t T F R -> sound T ->
  exists h', cRootHash t h = Some (Ok (RootHash T), h') /\ sameDenotations h h'.
Proof.
  intros (_ & _ & _ & _ & _ & Ho) ((Hwf & _) & Hs). unfold cRootHash, RootHash.
  destruct (treeRoot T) as [n|], (cRoot t) as [r|]; try done.
  - eapply mHash_ok; [exact Ho|apply Hwf|apply height_depth; [done|]; cbn [content] in *; lia].
  - exists h. split; [done|]. by unfold sameDenotations.
Qed.

Lemma repr_cache h t T F R c :
  repr h t T F R -> repr h (withRoot t (cRoot t) c) (withCache T c) F R.
Proof. intros (Ev & Es & Ec & Ez & Hcow & Ho). by repeat (split; [done|]). Qed.

Lemma cGet_ok h t T F R key :
  repr h t T F R -> sound T ->
  exists t', cGet t key h = Some (Ok ((TreeGet T key).1, t'), h) /\ repr h t' (TreeGet T key).2 F R.
Proof.
  intros Hr ((Hwf & _) & Hs). unfold cGet, TreeGet. pose proof Hr as (_ & _ & Ec & _ & _ & Ho). rewrite Ec.
  pose proof (repr_cache _ _ _ _ _ ((fun c => cache_touch c key) <$> cache T) Hr) as Hr1.
  destruct (c ← cache T; cache_get c key) as [v|]; [by eexists|].
  assert (cGetWithIndex (withRoot t (cRoot t) ((fun c => cache_touch c key) <$> cache T)) key h =
    Some (Ok (GetWithIndex T key), h)) as E1.
  { unfold cGetWithIndex, GetWithIndex. cbn [cRoot withRoot].
    destruct (treeRoot T) as [n|], (cRoot t) as [r|]; try done.
    rewrite (SE_bind_ok _ _ _ _ _ (mGet_ok depth h _ r n F R key Ho (proj1 Hwf)
      (height_depth n Hwf ltac:(cbn [content] in *; lia)))).
    by destruct (Get n key). }
  rewrite (SE_bind_ok _ _ _ _ _ E1).
  change (GetWithIndex (withCache T _) key) with (GetWithIndex T key).
  destruct (GetWithIndex T key) as [i [v|]]; cbn [snd]; (eexists; split; [reflexivity|]); [|exact Hr1].
  exact (repr_cache _ _ _ _ _ _ Hr1).
Qed.

(** ** Copies *)

(** With every node at most as young as [c], nothing may be modified in place. *)
Lemma own_freeze h c c' r n F R : own h c r n F R -> maxVersion n <= c' -> own h c' r n ∅ R.
Proof.
  revert r F R. induction n as [v k val|hh s v k nl IHl nr IHr]; intros r F R; cbn [own maxVersion];
    intros (x & F0 & R0 & Hv & Hn) Hm.
  - destruct Hn as ((Hh & Ex) & -> & ->). exists x, ∅, R0. split; [|done].
    destruct r; destruct Hv as (E & -> & _); [|done]. split_and!; [done..|]. rewrite Ex. cbn.
    by rewrite (proj2 (Z.leb_le _ _)).
  - destruct Hn as (lr & rr & Fl & Rl & Fr & Rr & (Hh & Ex) & Ol & Or & _ & _ & _ & _ & ->).
    exists x, ∅, R0. split.
    + destruct r; destruct Hv as (E & -> & _); [|done]. split_and!; [done..|]. rewrite Ex. cbn.
      by rewrite (proj2 (Z.leb_le _ _)) by lia.
    + exists lr, rr, ∅, Rl, ∅, Rr. split_and!; [split; done| | |set_solver..].
      * eapply IHl; [done|lia].
      * eapply IHr; [done|lia].
Qed.

Lemma cCopy_ok h t T F R n :
  repr h t T F R -> saved T = true ->
  repr h (cCopy t n).1 T ∅ R /\ repr h (cCopy t n).2 (withCache T (NewCache n)) ∅ R.
Proof.
  intros (Ev & Es & Ec & Ez & Hcow & Ho) Hs. unfold saved, upTo in Hs.
  enough (repr h (cCopy t n).1 T ∅ R) as Hr.
  { split; [done|]. apply (repr_cache _ _ _ _ _ (NewCache n)) in Hr.
    unfold cCopy in *. by destruct (cRoot t) as [[|]|]. }
  unfold cCopy. destruct (cRoot t) as [[l|p]|] eqn:Er, (treeRoot T) as [m|] eqn:Et; try done.
  - cbn [fst]. unfold repr. cbn. rewrite Et, Ev.
    repeat (split; [done|]). split; [lia|]. eapply own_freeze; [done|lia].
  - cbn [fst]. destruct (own_pers _ _ _ _ _ _ Ho) as (_ & -> & ->).
    unfold repr. rewrite Er, Et. by repeat (split; [done|]).
  - destruct Ho as [-> ->]. unfold repr. cbn [fst]. rewrite Er, Et. by repeat (split; [done|]).
Qed.

Lemma sound_copy T n : sound T -> sound (withCache T (NewCache n)).
Proof.
  intros ((Hw & _ & Hv) & Hs). split; [|done]. split; [done|]. split; [|done].
  unfold coherent, NewCache. cbn [cache withCache]. destruct (n =? 0); [done|].
  intros k v. by rewrite cache_get_new.
Qed.

(** ** Worlds *)

Definition worldOk (w : World) (Ts : list (Tree C)) : Prop :=
  Forall sound Ts /\ length w.2 = length Ts /\
  exists F R : nat -> locs,
    (forall i t T, w.2 !! i = Some t -> Ts !! i = Some T -> repr w.1 t T (F i) (R i)) /\
    (forall i j, i <> j -> (i < length Ts)%nat -> (j < length Ts)%nat -> F i ## R j).

Lemma repr_dom h t T F R p : repr h t T F R -> h !! p = None -> p ∉ R.
Proof.
  intros (_ & _ & _ & _ & _ & Ho) Hp. destruct (cRoot t), (treeRoot T); try done; [by eapply own_new|].
  destruct Ho as [_ ->]. set_solver.
Qed.

(** Another tree's operation does not change what a tree denotes, and keeps the
    two apart. *)
Lemma repr_evolves h h' t T F R F1 R1 F1' R1' :
  repr h t T F R -> F1 ## R -> F ## R1 -> evolves h F1 R1 h' F1' R1' ->
  repr h' t T F R /\ F1' ## R /\ F ## R1'.
Proof.
  intros Hr D1 D2 (K & U & V). split_and!.
  - destruct Hr as (Ev & Es & Ec & Ez & Hcow & Ho). do 5 (split; [done|]).
    destruct (cRoot t), (treeRoot T); try done. apply K; [done|set_solver].
  - intros p Hp Hp'. destruct (U p Hp) as [|Hn]; [set_solver|]. by eapply repr_dom in Hn.
  - intros p Hp Hp'. destruct (V p Hp') as [|Hn]; [set_solver|].
    eapply repr_dom; [exact Hr|exact Hn|]. by apply (reprF_sub _ _ _ _ _ Hr).
Qed.

Lemma worldOk_lookup w Ts i T :
  worldOk w Ts -> Ts !! i = Some T -> sound T /\ exists t, w.2 !! i = Some t.
Proof.
  intros (Hs & Hlen & _) Hi. split; [by eapply Forall_lookup_1|].
  apply lookup_lt_is_Some. rewrite Hlen. by eapply lookup_lt_Some.
Qed.

Lemma onTree_ok w Ts i T T' o f :
  worldOk w Ts -> Ts !! i = Some T -> sound T' ->
  (forall t F R, repr w.1 t T F R -> exists t' h' F' R',
     f t w.1 = Some (Ok (o, t'), h') /\ repr h' t' T' F' R' /\ evolves w.1 F R h' F' R') ->
  exists w', onTree w i f = Some (o, w') /\ worldOk w' (<[i := T']> Ts).
Proof.
  intros Hw Hi HT' Hf. destruct (worldOk_lookup _ _ _ _ Hw Hi) as (_ & t & Ht).
  destruct Hw as (Hs & Hlen & F & R & Hr & Hd). pose proof (lookup_lt_Some _ _ _ Hi) as Hilt.
  destruct (Hf t (F i) (R i) (Hr _ _ _ Ht Hi)) as (t' & h' & F' & R' & E & Hr' & Hev).
  unfold onTree. rewrite Ht. cbn [mbind option_bind]. rewrite E. eexists. split; [reflexivity|].
  assert (forall j, j <> i -> (j < length Ts)%nat -> exists u U, w.2 !! j = Some u /\ Ts !! j = Some U /\
    repr h' u U (F j) (R j) /\ F' ## R j /\ F j ## R') as Hother.
  { intros j Hj Hjlt. destruct (lookup_lt_is_Some_2 Ts j Hjlt) as (U & HU).
    destruct (lookup_lt_is_Some_2 w.2 j ltac:(lia)) as (u & Hu). exists u, U. split; [done|]. split; [done|].
    eapply repr_evolves; [by apply Hr|by apply Hd|by apply Hd|exact Hev]. }
  split; [by apply Forall_insert|]. split; [cbn [snd]; by rewrite !length_insert|].
  exists (fun j => if decide (j = i) then F' else F j), (fun j => if decide (j = i) then R' else R j).
  cbn [fst snd]. split.
  - intros j u U Hu HU. destruct (decide (j = i)) as [->|Hj].
    + rewrite list_lookup_insert_eq in Hu by lia. rewrite list_lookup_insert_eq in HU by lia. by simplify_eq.
    + rewrite list_lookup_insert_ne in Hu by done. rewrite list_lookup_insert_ne in HU by done.
      destruct (Hother j Hj (lookup_lt_Some _ _ _ HU)) as (u' & U' & ? & ? & ? & _). by simplify_eq.
  - rewrite length_insert. intros j1 j2 Hj H1 H2. repeat case_decide; subst; try done.
    + by destruct (Hother j2) as (? & ? & _ & _ & _ & ? & _).
    + by destruct (Hother j1) as (? & ? & _ & _ & _ & _ & ?).
    + by apply Hd.
Qed.

Lemma copy_worldOk w Ts i T t n :
  worldOk w Ts -> Ts !! i = Some T -> w.2 !! i = Some t -> saved T = true ->
  worldOk (w.1, <[i := (cCopy t n).1]> w.2 ++ [(cCopy t n).2]) (Ts ++ [withCache T (NewCache n)]).
Proof.
  intros Hw Hi Ht Hsv. destruct (worldOk_lookup _ _ _ _ Hw Hi) as (HT & _).
  destruct Hw as (Hs & Hlen & F & R & Hr & Hd). pose proof (lookup_lt_Some _ _ _ Hi) as Hilt.
  destruct (cCopy_ok _ _ _ _ _ n (Hr _ _ _ Ht Hi) Hsv) as [H1 H2].
  split; [apply Forall_app; split; [done|]; apply Forall_singleton; by apply sound_copy|].
  split; [cbn [snd]; rewrite !length_app, length_insert; cbn; lia|].
  exists (fun j => if decide (j = i) then ∅ else if decide (j = length Ts) then ∅ else F j),
    (fun j => if decide (j = length Ts) then R i else R j). cbn [fst snd]. split.
  - intros j u U Hu HU. destruct (decide (j = length Ts)) as [->|Hj].
    + rewrite lookup_app_r in Hu by (rewrite length_insert; lia). rewrite length_insert, Hlen, Nat.sub_diag in Hu.
      rewrite lookup_app_r, Nat.sub_diag in HU by lia. injection Hu as <-. injection HU as <-.
      rewrite decide_False by lia. done.
    + assert (j < length Ts)%nat as Hjlt.
      { apply lookup_lt_Some in HU. rewrite length_app in HU. cbn in HU. lia. }
      rewrite lookup_app_l in HU by done. rewrite lookup_app_l in Hu by (rewrite length_insert; lia).
      destruct (decide (j = i)) as [->|Hji].
      * rewrite list_lookup_insert_eq in Hu by lia. by simplify_eq.
      * rewrite list_lookup_insert_ne in Hu by done. by apply Hr.
  - rewrite length_app. cbn [length]. intros j1 j2 Hj L1 L2.
    destruct (decide (j1 = i)) as [->|]; [set_solver|]. destruct (decide (j1 = length Ts)); [set_solver|].
    destruct (decide (j2 = length Ts)) as [->|]; apply Hd; lia.
Qed.

Lemma cSaveVersion_ok h t T F R b hash v T' :
  repr h t T F R -> sound T -> SaveVersion T b = Ok (hash, v, T') ->
  sound T' /\ exists t' h', cSaveVersion t b h = Some (Ok (hash, v, t'), h') /\ repr h' t' T' F R /\
    sameDenotations h h'.
Proof.
  intros Hr Hs. unfold SaveVersion, cSaveVersion. pose proof Hr as (Ev & Es & Ec & Ez & Hcow & Ho). rewrite Ev.
  pose proof Hs as ((Hwf & Hco & Hv) & Hsz).
  destruct (Z.eqb_spec (version T) MaxUint32) as [|Hne]; [done|]. unfold MaxUint32 in Hne.
  cbn [fail_if mbind result_bind]. rewrite u32_id by lia. intros [= <- <- <-].
  split; [split; [|done]; split; [done|]; split; [done|]; cbn; lia|].
  set (t' := mkCow (version T + 1) (cowVersion t) (cRoot t) (cSnapshot t) (cCache t) (cZeroCopy t)).
  assert (forall h', sameDenotations h h' -> repr h' t' (withVersion T (version T + 1)) F R) as Hr'.
  { intros h' Hsame. unfold repr. cbn. repeat (split; [done || lia|]). by eapply ownsO_same. }
  destruct b.
  - destruct (cRootHash_ok _ _ _ _ _ Hr Hs) as (h' & Run & Hsame). exists t', h'.
    split_and!; [|by apply Hr'|done].
    rewrite (SE_bind_ok _ _ _ (Some (RootHash T)) h'); [done|]. by rewrite (SE_bind_ok _ _ _ _ _ Run).
  - exists t', h. assert (sameDenotations h h) by (by unfold sameDenotations). split_and!; [done|by apply Hr'|done].
Qed.

Lemma hstep_apply w Ts i cs T T' :
  worldOk w Ts -> Ts !! i = Some T -> small T (zlen cs) = true -> version T < MaxUint32 ->
  ApplyChangeSet T cs = Some T' ->
  exists w', hstep w (Apply i cs) = Some (ODone, w') /\ worldOk w' (<[i := T']> Ts).
Proof.
  intros Hw Hi Hsm%Z.ltb_lt Hmax EA. destruct (worldOk_lookup _ _ _ _ Hw Hi) as (HT & t0 & Ht0).
  assert (forall t F R, repr w.1 t T F R -> exists t' h' F' R', cApplyChangeSet t cs w.1 = Some (Ok t', h') /\
    repr h' t' T' F' R' /\ upd w.1 F R h' F' R' /\ sound T') as Hcs.
  { intros t F R Hr. by eapply cApplyChangeSet_ok; [|apply HT|..]. }
  destruct (proj2 (proj2 Hw)) as (F & R & Hr & _).
  destruct (Hcs _ _ _ (Hr _ _ _ Ht0 Hi)) as (_ & _ & _ & _ & _ & _ & _ & HT').
  eapply onTree_ok; [done..|]. intros t F1 R1 Hr1.
  destruct (Hcs _ _ _ Hr1) as (t' & h' & F' & R' & Run & Hr' & Hu & _). exists t', h', F', R'.
  rewrite (SE_bind_ok _ _ _ _ _ Run). split_and!; [done|done|by apply evolves_upd].
Qed.

Lemma hstep_save w Ts i b T :
  worldOk w Ts -> Ts !! i = Some T ->
  let r := match SaveVersion T b with
           | Ok (hash, v, T') => (OSaved hash v, T') | Err e => (OError e, T) end in
  exists w', hstep w (Save i b) = Some (r.1, w') /\ worldOk w' (<[i := r.2]> Ts).
Proof.
  intros Hw Hi. destruct (worldOk_lookup _ _ _ _ Hw Hi) as (HT & t0 & Ht0).
  destruct (proj2 (proj2 Hw)) as (F & R & Hr & _). specialize (Hr _ _ _ Ht0 Hi). cbn [hstep].
  destruct (SaveVersion T b) as [[[hash v] T']|e] eqn:ES; cbn [fst snd].
  - destruct (cSaveVersion_ok _ _ _ _ _ _ _ _ _ Hr HT ES) as (HT' & _).
    eapply onTree_ok; [done..|]. intros t F1 R1 Hr1.
    destruct (cSaveVersion_ok _ _ _ _ _ _ _ _ _ Hr1 HT ES) as (_ & t' & h' & Run & Hr' & Hsame).
    exists t', h', F1, R1. rewrite (SE_bind_ok _ _ _ _ _ Run). split_and!; [done|done|by apply evolves_same].
  - rewrite list_insert_id by done. exists w. split; [|done]. unfold onTree. rewrite Ht0. cbn [mbind option_bind].
    destruct Hr as (Ev & _). unfold SaveVersion in ES. unfold cSaveVersion. rewrite Ev.
    destruct (version T =? MaxUint32); [|by destruct b]. injection ES as <-. by destruct w.
Qed.

Lemma hstep_ok w Ts a o Ts' :
  worldOk w Ts -> vstep Ts a = Some (o, Ts') ->
  exists w', hstep w a = Some (o, w') /\ worldOk w' Ts'.
Proof.
  intros Hw E. destruct a as [i cs|i b|i|i key|i n]; cbn [vstep] in *; unfold onValue in E;
    (destruct (Ts !! i) as [T|] eqn:Hi; [|done]); cbn [mbind option_bind] in E;
    destruct (worldOk_lookup _ _ _ _ Hw Hi) as (HT & t0 & Ht0).
  - destruct (small T (zlen cs) && (version T <? MaxUint32)) eqn:Hg; [|done].
    apply andb_true_iff in Hg as [Hsm Hmax%Z.ltb_lt].
    destruct (ApplyChangeSet T cs) as [T'|] eqn:EA; [|done]. injection E as <- <-.
    by eapply hstep_apply.
  - pose proof (hstep_save w Ts i b T Hw Hi) as Hs. cbn zeta in Hs.
    destruct (SaveVersion T b) as [[[hash v] T']|e]; injection E as <- <-; exact Hs.
  - injection E as <- <-. cbn [hstep]. eapply onTree_ok; [done..|]. intros t F1 R1 Hr1.
    destruct (cRootHash_ok _ _ _ _ _ Hr1 HT) as (h' & Run & Hsame). exists t, h', F1, R1.
    rewrite (SE_bind_ok _ _ _ _ _ Run). split_and!; [done| |by apply evolves_same].
    destruct Hr1 as (?&?&?&?&?&?). unfold repr. repeat (split; [done|]). by eapply ownsO_same.
  - destruct (Z.ltb_spec (zlen (content (treeRoot T))) (2 ^ 32)) as [Hlt|]; [|done].
    destruct (TreeGet T key) as [v T'] eqn:EG. injection E as <- <-.
    destruct (TreeGet_ok T key (proj1 HT) Hlt) as (_ & Hok & Er). rewrite EG in Hok, Er. cbn [snd] in *.
    cbn [hstep]. eapply onTree_ok; [done|done|split; [done|rewrite Er; apply HT]|]. intros t F1 R1 Hr1.
    destruct (cGet_ok _ _ _ _ _ key Hr1 HT) as (t' & Run & Hr'). rewrite EG in Run, Hr'. exists t', w.1, F1, R1.
    rewrite (SE_bind_ok _ _ _ _ _ Run). split_and!; [done|done|apply evolves_same; by unfold sameDenotations].
  - destruct (saved T) eqn:Hs; [|done]. injection E as <- <-. cbn [hstep]. rewrite Ht0. cbn [mbind option_bind].
    destruct (cCopy t0 n) as [t1 t2] eqn:EC. eexists. split; [reflexivity|].
    pose proof (copy_worldOk _ _ _ _ _ n Hw Hi Ht0 Hs) as Hw'. by rewrite EC in Hw'.
Qed.

Lemma hrun_ok w Ts l os Ts' :
  worldOk w Ts -> vrun Ts l = Some (os, Ts') -> exists w', hrun w l = Some (os, w') /\ worldOk w' Ts'.
Proof.
  revert w Ts os. induction l as [|a l IH]; intros w Ts os Hw E; cbn [vrun hrun] in *.
  { injection E as <- <-. by exists w. }
  destruct (vstep Ts a) as [[o Ts1]|] eqn:Ea; [|done]. cbn [mbind option_bind] in E.
  destruct (hstep_ok _ _ _ _ _ Hw Ea) as (w1 & Ew & Hw1). rewrite Ew. cbn [mbind option_bind].
  destruct (vrun Ts1 l) as [[os1 Ts2]|] eqn:El; [|done]. injection E as <- <-.
  destruct (IH _ _ _ Hw1 El) as (w2 & E2 & Hw2). rewrite E2. by exists w2.
Qed.

(** ** Versions of nodes

    Changes since the last [SaveVersion] carry the next version, older nodes at most
    the current one. *)
Definition young (T : Tree C) : Prop := upTo (version T + 1) (treeRoot T) = true.

Lemma maxVersion_update n n' : updateHeightSize n = Some n' -> maxVersion n' = maxVersion n.
Proof. destruct n; [done|]. by intros [= <-]. Qed.

Lemma maxVersion_rotateRight v n n' :
  rotateRight v n = Some n' -> maxVersion n' <= Z.max v (maxVersion n).
Proof. destruct n as [|? ? ? ? [] ?]; [done..|]. intros [= <-]. cbn. lia. Qed.

Lemma maxVersion_rotateLeft v n n' :
  rotateLeft v n = Some n' -> maxVersion n' <= Z.max v (maxVersion n).
Proof. destruct n as [|? ? ? ? ? []]; [done..|]. intros [= <-]. cbn. lia. Qed.

Lemma maxVersion_Mutate v n : maxVersion (Mutate v n) <= Z.max v (maxVersion n).
Proof. destruct n; cbn; lia. Qed.

Lemma maxVersion_reBalance v n n' :
  reBalance v n = Some n' -> maxVersion n' <= Z.max v (maxVersion n).
Proof.
  destruct n as [|hh s w k l r]; [done|]. unfold reBalance. cbn [calcBalance mbind option_bind Left Right].
  pose proof (maxVersion_Mutate v l). pose proof (maxVersion_Mutate v r).
  destruct (1 <? _).
  - destruct (calcBalance l) as [z|]; [|done]. cbn [mbind option_bind].
    destruct (0 <=? z); [apply maxVersion_rotateRight|].
    destruct (rotateLeft v (Mutate v l)) as [l'|] eqn:El; [|done]. cbn [mbind option_bind setLeft].
    apply maxVersion_rotateLeft in El. intros E%maxVersion_rotateRight. cbn in *. lia.
  - destruct (_ <? -1); [|intros [= <-]; lia].
    destruct (calcBalance r) as [z|]; [|done]. cbn [mbind option_bind].
    destruct (z <=? 0); [apply maxVersion_rotateLeft|].
    destruct (rotateRight v (Mutate v r)) as [r'|] eqn:Er; [|done]. cbn [mbind option_bind setRight].
    apply maxVersion_rotateRight in Er. intros E%maxVersion_rotateLeft. cbn in *. lia.
Qed.

Lemma maxVersion_setNode n key x v n' u :
  setNode n key x v = Some (n', u) -> maxVersion n' <= Z.max v (maxVersion n).
Proof.
  revert n' u. induction n as [w k val|hh s w k l IHl r IHr]; intros n' u; cbn [setNode].
  - destruct (bytes_compare key k); intros [= <- <-]; cbn; lia.
  - assert (forall c (u' : bool),
      (if u' then Some (c, u') else n ← updateHeightSize c; n ← reBalance v n; Some (n, u')) = Some (n', u) ->
      maxVersion n' <= Z.max v (maxVersion c)) as Hend.
    { intros c [|]; [intros [= <- _]; lia|].
      destruct (updateHeightSize c) as [n1|] eqn:E1; [|done]. cbn [mbind option_bind].
      destruct (reBalance v n1) as [n2|] eqn:E2; [|done]. intros [= <- _].
      apply maxVersion_update in E1. apply maxVersion_reBalance in E2. lia. }
    destruct (bytes_ltb key k).
    + destruct (setNode l key x v) as [[l' u']|] eqn:El; [|done]. cbn [mbind option_bind].
      intros E%Hend. specialize (IHl _ _ eq_refl). cbn in *. lia.
    + destruct (setNode r key x v) as [[r' u']|] eqn:Er; [|done]. cbn [mbind option_bind].
      intros E%Hend. specialize (IHr _ _ eq_refl). cbn in *. lia.
Qed.

Lemma maxVersion_removeNode n key v x n' nk :
  removeNode n key v = Some (x, n', nk) -> upTo (Z.max v (maxVersion n)) n' = true.
Proof.
  revert x n' nk. induction n as [w k val|hh s w k l IHl r IHr]; intros x n' nk; cbn [removeNode].
  - destruct (bytes_eqb k key); intros [= <- <- <-]; [done|]. cbn. lia.
  - assert (forall c m (y : option bytes) nk', maxVersion c <= m ->
      (n ← updateHeightSize c; n ← reBalance v n; Some (y, Some n, nk')) = Some (x, n', nk) ->
      upTo (Z.max v m) n' = true) as Hend.
    { intros c m y nk' Hm. destruct (updateHeightSize c) as [n1|] eqn:E1; [|done]. cbn [mbind option_bind].
      destruct (reBalance v n1) as [n2|] eqn:E2; [|done]. intros [= <- <- <-].
      apply maxVersion_update in E1. apply maxVersion_reBalance in E2. cbn. lia. }
    destruct (bytes_ltb key k).
    + destruct (removeNode l key v) as [[[y l'] nk1]|] eqn:El; [|done]. cbn [mbind option_bind].
      specialize (IHl _ _ _ eq_refl). destruct y as [y|]; [destruct l' as [l'|]|].
      * intros E. apply Hend with (m := Z.max v (maxVersion (Branch hh s w k l r))) in E;
          [cbn in *; destruct n'; cbn in *; lia|cbn in *; lia].
      * intros [= <- <- <-]. cbn. lia.
      * intros [= <- <- <-]. cbn. lia.
    + destruct (removeNode r key v) as [[[y r'] nk1]|] eqn:Er; [|done]. cbn [mbind option_bind].
      specialize (IHr _ _ _ eq_refl). destruct y as [y|]; [destruct r' as [r'|]|].
      * intros E. apply Hend with (m := Z.max v (maxVersion (Branch hh s w k l r))) in E;
          [cbn in *; destruct n'; cbn in *; lia|cbn in *; lia].
      * intros [= <- <- <-]. cbn. lia.
      * intros [= <- <- <-]. cbn. lia.
Qed.

Lemma ApplyChangeSet_young T cs T' :
  0 <= version T < MaxUint32 -> young T -> ApplyChangeSet T cs = Some T' ->
  young T' /\ version T' = version T.
Proof.
  unfold young. revert T. induction cs as [|kv cs IH]; intros T Hv Hy; cbn [ApplyChangeSet].
  { by intros [= <-]. }
  assert (u32 (version T + 1) = version T + 1) as Eu by (unfold MaxUint32 in Hv; apply u32_id; lia).
  destruct (if Delete kv then _ else _) as [T1|] eqn:E1; [|done]. cbn [mbind option_bind]. intros E.
  enough (upTo (version T1 + 1) (treeRoot T1) = true /\ version T1 = version T) as [Hy1 Ev1].
  { rewrite <- Ev1. apply IH; [by rewrite Ev1|done|done]. }
  destruct (Delete kv).
  - unfold remove in E1. rewrite Eu in E1. destruct (removeRecursive _ _ _) as [[[x n] nk]|] eqn:En; [|done].
    injection E1 as <-. cbn [version treeRoot]. split; [|done]. destruct (treeRoot T) as [r|].
    + apply maxVersion_removeNode in En. cbn in *. destruct n; cbn in *; [lia|done].
    + by injection En as <- <- <-.
  - unfold set in E1. rewrite Eu in E1. destruct (setRecursive _ _ _ _) as [[n u]|] eqn:En; [|done].
    injection E1 as <-. cbn [version treeRoot]. split; [|done]. destruct (treeRoot T) as [r|].
    + apply maxVersion_setNode in En. cbn in *. lia.
    + injection En as <- <-. cbn. lia.
Qed.

Lemma Save_saved (T : Tree C) b hash v T' :
  sound T -> young T -> SaveVersion T b = Ok (hash, v, T') -> saved T' = true /\ young T'.
Proof.
  intros ((_ & _ & Hv) & _) Hy. unfold SaveVersion. destruct (Z.eqb_spec (version T) MaxUint32); [done|].
  unfold MaxUint32 in *. cbn [fail_if mbind result_bind]. rewrite u32_id by lia. intros [= <- <- <-].
  unfold saved, young, upTo in *. cbn [version treeRoot withVersion].
  destruct (treeRoot T); [|done]. split; lia.
Qed.

Lemma TreeGet_root (T : Tree C) key :
  treeRoot (TreeGet T key).2 = treeRoot T /\ version (TreeGet T key).2 = version T.
Proof. unfold TreeGet. by repeat case_match. Qed.

Lemma vstep_young Ts a o Ts' :
  Forall sound Ts -> Forall young Ts -> vstep Ts a = Some (o, Ts') -> Forall young Ts'.
Proof.
  intros Hs Hy E. destruct a as [i cs|i b|i|i key|i n]; cbn [vstep] in E; unfold onValue in E;
    (destruct (Ts !! i) as [T|] eqn:Hi; [|done]); cbn [mbind option_bind] in E;
    pose proof (Forall_lookup_1 _ _ _ _ Hs Hi) as HsT; pose proof (Forall_lookup_1 _ _ _ _ Hy Hi) as HyT.
  - destruct (small T (zlen cs) && (version T <? MaxUint32)) eqn:Hg; [|done].
    apply andb_true_iff in Hg as [_ Hmax%Z.ltb_lt].
    destruct (ApplyChangeSet T cs) as [T'|] eqn:EA; [|done]. injection E as <- <-.
    apply Forall_insert; [done|]. destruct HsT as ((_ & _ & Hv) & _).
    by eapply (proj1 (ApplyChangeSet_young T cs T' ltac:(lia) HyT EA)).
  - destruct (SaveVersion T b) as [[[hash v] T']|e] eqn:ES; injection E as <- <-; apply Forall_insert; try done.
    by eapply (proj2 (Save_saved _ _ _ _ _ HsT HyT ES)).
  - injection E as <- <-. by apply Forall_insert.
  - destruct (_ <? 2 ^ 32); [|done]. destruct (TreeGet_root T key) as [E1 E2].
    destruct (TreeGet T key) as [v T']. injection E as <- <-. apply Forall_insert; [done|].
    unfold young in *. cbn [snd] in *. by rewrite E1, E2.
  - destruct (saved T); [|done]. injection E as <- <-. apply Forall_app. split; [done|].
    by apply Forall_singleton.
Qed.

Lemma vrun_young w Ts l os Ts' :
  worldOk w Ts -> Forall young Ts -> vrun Ts l = Some (os, Ts') -> Forall young Ts'.
Proof.
  revert w Ts os. induction l as [|a l IH]; intros w Ts os Hw Hy E; cbn [vrun] in E.
  { by injection E as <- <-. }
  destruct (vstep Ts a) as [[o Ts1]|] eqn:Ea; [|done]. cbn [mbind option_bind] in E.
  destruct (hstep_ok _ _ _ _ _ Hw Ea) as (w1 & _ & Hw1).
  destruct (vrun Ts1 l) as [[os1 Ts2]|] eqn:El; [|done]. injection E as <- <-.
  eapply IH; [exact Hw1| |done]. by eapply vstep_young; [apply Hw|..].
Qed.

Lemma vrun_app Ts l1 l2 :
  vrun Ts (l1 ++ l2) =
    '(o1, Ts1) ← vrun Ts l1; '(o2, Ts2) ← vrun Ts1 l2; Some (o1 ++ o2, Ts2).
Proof.
  revert Ts. induction l1 as [|a l1 IH]; intros Ts; cbn [app vrun mbind option_bind].
  - by destruct (vrun Ts l2) as [[]|].
  - destruct (vstep Ts a) as [[o Ts1]|]; [|done]. cbn [mbind option_bind]. rewrite IH.
    destruct (vrun Ts1 l1) as [[o1 Ts2]|]; [|done]. cbn [mbind option_bind].
    by destruct (vrun Ts2 l2) as [[]|].
Qed.

(** ** Initial worlds *)

(** A tree that was just created or opened from a snapshot. *)
Definition fromTree (T : Tree C) : CowTree :=
  mkCow (version T) 0 (RPers <$> treeRoot T) (snapshot T) (cache T) (zeroCopy T).

Definition world (Ts : list (Tree C)) : World := (∅, fromTree <$> Ts).

Lemma own_persisted h c n : own h c (RPers n) n ∅ ∅.
Proof.
  induction n as [v k val|hh s v k l IHl r IHr]; cbn [own].
  - exists (persistedCell (Leaf v k val)), ∅, ∅. split_and!; try done. split; [by left|done].
  - exists (persistedCell (Branch hh s v k l r)), ∅, ∅. split; [done|].
    exists (RPers l), (RPers r), ∅, ∅, ∅, ∅. split_and!; try done; try set_solver. split; [by left|done].
Qed.

Lemma world_ok Ts : Forall sound Ts -> worldOk (world Ts) Ts.
Proof.
  intros Hs. split; [done|]. split; [apply length_fmap|]. exists (fun _ => ∅), (fun _ => ∅).
  split; [|set_solver]. intros i t T Ht HT. cbn [world fst snd] in *. rewrite list_lookup_fmap, HT in Ht.
  injection Ht as <-. pose proof (Forall_lookup_1 _ _ _ _ Hs HT) as ((_ & _ & Hv) & _).
  unfold repr, fromTree. cbn. repeat (split; [done || lia|]).
  destruct (treeRoot T); [apply own_persisted|done].
Qed.

(** An action that changes the tree with index [j]. *)
Definition changes (j : nat) (a : action) : Prop :=
  match a with Apply i _ | Save i _ => i = j | _ => False end.

Lemma vstep_other Ts a o Ts' j T :
  vstep Ts a = Some (o, Ts') -> ~ changes j a -> Ts !! j = Some T ->
  exists T', Ts' !! j = Some T' /\ treeRoot T' = treeRoot T.
Proof.
  intros E Hn Hj. destruct a as [i cs|i b|i|i key|i n]; cbn [vstep changes] in *; unfold onValue in E;
    (destruct (Ts !! i) as [U|] eqn:Hi; [|done]); cbn [mbind option_bind] in E.
  - destruct (_ && _); [|done]. destruct (ApplyChangeSet U cs); [|done]. injection E as <- <-.
    exists T. by rewrite list_lookup_insert_ne.
  - destruct (SaveVersion U b) as [[[hash v] T']|e]; injection E as <- <-; exists T; by rewrite list_lookup_insert_ne.
  - injection E as <- <-. rewrite list_insert_id by done. by exists T.
  - destruct (_ <? 2 ^ 32); [|done]. destruct (TreeGet_root U key) as [E1 _].
    destruct (TreeGet U key) as [v T']. injection E as <- <-. destruct (decide (i = j)) as [->|].
    + exists T'. rewrite list_lookup_insert_eq by (by eapply lookup_lt_Some). simplify_eq. done.
    + exists T. by rewrite list_lookup_insert_ne.
  - destruct (saved U); [|done]. injection E as <- <-. exists T. by rewrite lookup_app_l by (by eapply lookup_lt_Some).
Qed.

Lemma vrun_other Ts l os Ts' j T :
  vrun Ts l = Some (os, Ts') -> Forall (fun a => ~ changes j a) l -> Ts !! j = Some T ->
  exists T', Ts' !! j = Some T' /\ treeRoot T' = treeRoot T.
Proof.
  revert Ts os T. induction l as [|a l IH]; intros Ts os T E Hl Hj; cbn [vrun] in E.
  { injection E as <- <-. by exists T. }
  apply Forall_cons in Hl as [Ha Hl].
  destruct (vstep Ts a) as [[o Ts1]|] eqn:Ea; [|done]. cbn [mbind option_bind] in E.
  destruct (vrun Ts1 l) as [[os1 Ts2]|] eqn:El; [|done]. injection E as <- <-.
  destruct (vstep_other _ _ _ _ _ _ Ea Ha Hj) as (T1 & Hj1 & E1).
  destruct (IH _ _ _ El Hl Hj1) as (T2 & Hj2 & E2). exists T2. split; [done|congruence].
Qed.

(** A tree that was just saved has no uncommitted changes. *)
Lemma vrun_saved Ts l i b os hash v Ts1 T :
  Forall sound Ts -> Forall young Ts -> vrun Ts (l ++ [Save i b]) = Some (os ++ [OSaved hash v], Ts1) ->
  Ts1 !! i = Some T -> saved T = true.
Proof.
  intros Hs Hy E Hi. rewrite vrun_app in E. destruct (vrun Ts l) as [[os0 Ts0]|] eqn:E0; [|done].
  cbn [mbind option_bind vrun vstep] in E. unfold onValue in E.
  destruct (Ts0 !! i) as [T0|] eqn:Hi0; [|done]. cbn [mbind option_bind] in E.
  destruct (hrun_ok _ _ _ _ _ (world_ok _ Hs) E0) as (w0 & _ & Hw0).
  pose proof (vrun_young _ _ _ _ _ (world_ok _ Hs) Hy E0) as Hy0.
  destruct (SaveVersion T0 b) as [[[hash' v'] T']|e] eqn:ES; cbn [mbind option_bind] in E.
  - injection E as _ <-. rewrite list_lookup_insert_eq in Hi by (by eapply lookup_lt_Some).
    injection Hi as <-. eapply (proj1 (Save_saved _ _ _ _ _ (Forall_lookup_1 _ _ _ _ (proj1 Hw0) Hi0)
      (Forall_lookup_1 _ _ _ _ Hy0 Hi0) ES)).
  - injection E as E _. by apply app_inj_tail in E as [_ ?].
Qed.

End CowTree.
Arguments CowTree : clear implicits.
Arguments World : clear implicits.

(** ** Concrete trees, for the witnesses *)

Definition ex_put (k v : Byte.byte) : KVPair := mkPair false [k] (Some [v]).

Definition ex_cow : Tree slot := mkTree 1 (Some ex3) None None true.

Lemma ex_cow_sound : Forall sound [ex_cow].
Proof.
  apply Forall_singleton. split; [|vm_compute; reflexivity].
  split; [exact ex3_wf|]. split; [done|]. simpl. lia.
Qed.

(** The tree is committed and copied; original and copy then diverge. *)
Definition ex_before : list action := [Apply 0 [ex_put Byte.x04 Byte.x0d]].
Definition ex_after : list action :=
  [Apply 0 [ex_put Byte.x02 Byte.x11; mkPair true [Byte.x01] None]; Save 0 false; Read 0 [Byte.x02];
   Read 1 [Byte.x02]].

Definition ex_saved : Tree slot :=
  match vrun [ex_cow] (ex_before ++ [Save 0 false]) with Some (_, [T]) => T | _ => ex_cow end.

(** ** Properties *)

(** C21: trees that share nodes behave as trees that share nothing.  Any program of
    change sets, commits, root hashes, reads and copies on trees in one heap of
    nodes, with modification in place, cached hashes and copy on write, runs without a
    panic and gives the same outputs as on independent tree values, provided that a
    tree is copied only when it has no uncommitted changes; and afterwards each tree in
    the heap still denotes its value. *)
Theorem sharing_refines_values {C} `{CacheLaws C} (Ts : list (Tree C)) l os Ts' :
  Forall sound Ts -> vrun Ts l = Some (os, Ts') ->
  exists w, hrun (world Ts) l = Some (os, w) /\ worldOk w Ts'.
Proof. intros Hs. apply hrun_ok. by apply world_ok. Qed.

Lemma sharing_refines_values_witness :
  exists w Ts', hrun (world [ex_cow]) (ex_before ++ [Save 0 false; Copy 0 0] ++ ex_after) =
      Some ([ODone; OSaved None 2; ODone; ODone; OSaved None 3; OValue (Some [Byte.x11]);
             OValue (Some [Byte.x0b])], w) /\ worldOk w Ts'.
Proof.
  destruct (vrun [ex_cow] (ex_before ++ [Save 0 false; Copy 0 0] ++ ex_after)) as [[os Ts']|] eqn:E;
    [|vm_compute in E; discriminate].
  destruct (sharing_refines_values _ _ _ _ ex_cow_sound E) as (w & Ew & Hw).
  exists w, Ts'. split; [|exact Hw]. rewrite Ew. vm_compute in E. by injection E as <- _.
Defined.

(** C22: a copy of a committed tree is not affected by anything done later to
    the original or to other trees: after any further program that does not itself
    change the copy, its root hash, computed on the shared heap, is the root hash
    the original had when it was copied. *)
Theorem copy_isolated {C} `{CacheLaws C} (Ts : list (Tree C)) before i b n after os hash v Ts1 T os' Ts2 :
  Forall sound Ts -> Forall young Ts ->
  vrun Ts (before ++ [Save i b]) = Some (os ++ [OSaved hash v], Ts1) -> Ts1 !! i = Some T ->
  vrun (Ts1 ++ [withCache T (NewCache n)]) after = Some (os', Ts2) ->
  Forall (fun a => ~ changes (length Ts1) a) after ->
  exists w, hrun (world Ts) (before ++ [Save i b] ++ [Copy i n] ++ after ++ [Hash (length Ts1)]) =
    Some (os ++ [OSaved hash v] ++ [ODone] ++ os' ++ [OHash (RootHash T)], w).
Proof.
  intros Hs Hy E1 Hi E2 Hn. pose proof (world_ok _ Hs) as Hw.
  assert (saved T = true) as Hsv by (by eapply vrun_saved).
  destruct (vrun_other _ _ _ _ (length Ts1) (withCache T (NewCache n)) E2 Hn) as (U & HU & EU).
  { by rewrite lookup_app_r, Nat.sub_diag by lia. }
  destruct (hrun_ok (world Ts) Ts ((before ++ [Save i b]) ++ [Copy i n] ++ after ++ [Hash (length Ts1)])
    ((os ++ [OSaved hash v]) ++ [ODone] ++ os' ++ [OHash (RootHash T)]) Ts2) as (w & E & _); [done| |].
  { rewrite vrun_app, E1. cbn [mbind option_bind]. rewrite vrun_app. cbn [vrun vstep].
    rewrite Hi. cbn [mbind option_bind]. rewrite Hsv. cbn [mbind option_bind].
    rewrite vrun_app, E2. cbn [mbind option_bind vrun vstep]. unfold onValue. rewrite HU.
    cbn [mbind option_bind]. rewrite list_insert_id by done. unfold RootHash. by rewrite EU. }
  exists w. by rewrite <- !app_assoc in E.
Qed.

Lemma copy_isolated_witness :
  exists w, hrun (world [ex_cow]) (ex_before ++ [Save 0 false] ++ [Copy 0 0] ++ ex_after ++ [Hash 1]) =
    Some ([ODone; OSaved None 2; ODone; ODone; OSaved None 3; OValue (Some [Byte.x11]);
           OValue (Some [Byte.x0b]); OHash (RootHash ex_saved)], w).
Proof.
  destruct (vrun ([ex_saved] ++ [withCache ex_saved (NewCache 0)]) ex_after) as [[os' Ts2]|] eqn:E;
    [|vm_compute in E; discriminate].
  destruct (copy_isolated [ex_cow] ex_before 0 false 0 ex_after [ODone] None 2 [ex_saved] ex_saved os' Ts2)
    as (w & Ew).
  - exact ex_cow_sound.
  - apply Forall_singleton. vm_compute. reflexivity.
  - vm_compute. reflexivity.
  - reflexivity.
  - exact E.
  - repeat (apply Forall_cons; split; [cbn; lia || tauto|]). apply Forall_nil. exact I.
  - exists w. vm_compute in E. injection E as <- _. exact Ew.
Defined.

(** the isolation needs the commit.  The nodes changed since the last commit are
    younger than the copy-on-write version that [Copy] sets, so the original goes on
    modifying them in place: a change made after the copy is visible through it. *)
Theorem uncommitted_copy_shared {C} `{Cache C} (v1 v2 : bytes) :
  exists w, hrun (world [mkTree 0 None None (None : option C) true])
    [Apply 0 [mkPair false [Byte.x01] (Some v1)]; Copy 0 0; Read 1 [Byte.x01];
     Apply 0 [mkPair false [Byte.x01] (Some v2)]; Read 1 [Byte.x01]] =
  Some ([ODone; ODone; OValue (Some v1); ODone; OValue (Some v2)], w).
Proof. eexists. vm_compute. reflexivity. Qed.
