(* ===== verification/Proto.v ===== *)
(** * Protobuf messages: [memiavl/changeset.pb.go], [commit_info.pb.go],
    [wal.pb.go]

    The generated [Size], [Marshal] and [Unmarshal] methods of the messages of
    the log and of the snapshot metadata.  The generated code repeats the
    reading of varints, of length-delimited fields and the skipping of unknown
    fields in every method; here these are shared definitions.  [Marshal]
    fills its buffer from the back; the bytes it returns are given here in
    their order. *)

From S2P Require Import Prelude KV Binary Tree.
From Stdlib Require Import Strings.Byte.

Open Scope string_scope.
Open Scope Z_scope.
Open Scope list_scope.

Abbreviation bytes_of_string := String.list_byte_of_string.
Abbreviation string_of_bytes := String.string_of_list_byte.

(** ** Wire format *)

Definition ErrIntOverflow : error := "proto: integer overflow".
Definition ErrInvalidLength : error := "proto: negative length found during unmarshaling".
Definition ErrUnexpectedEndOfGroup : error := "proto: unexpected end of group".
Definition ErrUnexpectedEOF : error := "unexpected EOF".

(** [encodeVarintWal]; ten rounds are enough for a [uint64]. *)
Fixpoint encode_varint (fuel : nat) (v : Z) : bytes :=
  match fuel with
  | O => []
  | S fuel =>
      if 128 <=? v then byte_of_Z (Z.lor (Z.land v 127) 128) :: encode_varint fuel (Z.shiftr v 7)
      else [byte_of_Z v]
  end.

Definition encodeVarint (v : Z) : bytes := encode_varint 10 v.

(** [sovWal]: [(bits.Len64(x|1) + 6) / 7]. *)
Definition sov (x : Z) : Z := (Z.log2 (Z.lor x 1) + 1 + 6) / 7.

(** The varint loops of [Unmarshal], on what is left of the data. *)
Fixpoint varint_loop (data : bytes) (shift v : Z) : result (Z * bytes) :=
  if 64 <=? shift then Err ErrIntOverflow
  else
    match data with
    | [] => Err ErrUnexpectedEOF
    | b :: data =>
        let b := byte_to_Z b in
        let v := Z.lor v (u64 (Z.shiftl (Z.land b 127) shift)) in
        if b <? 128 then Ok (v, data) else varint_loop data (shift + 7) v
    end.

Definition readVarint (data : bytes) : result (Z * bytes) := varint_loop data 0 0.

(** A length-delimited field; [l] is the length of the whole message, so that
    the index is [l] minus what is left. *)
Definition getBytes (l wireType : Z) (rest : bytes) : result (bytes * bytes) :=
  fail_if (negb (wireType =? 2)) "proto: wrong wireType" ;;
  '(len, rest) ← readVarint rest;
  let len := i64 len in
  fail_if (len <? 0) ErrInvalidLength ;;
  let postIndex := i64 (l - zlen rest + len) in
  fail_if (postIndex <? 0) ErrInvalidLength ;;
  fail_if (l <? postIndex) ErrUnexpectedEOF ;;
  Ok (take (Z.to_nat len) rest, drop (Z.to_nat len) rest).

(** A varint field, as the [int64] it is accumulated in. *)
Definition getInt (wireType : Z) (rest : bytes) : result (Z * bytes) :=
  fail_if (negb (wireType =? 0)) "proto: wrong wireType" ;;
  '(v, rest) ← readVarint rest;
  Ok (i64 v, rest).

(** [skipWal]: the number of bytes of the field at the head of the data.  Every
    round reads a byte, so the length of the data is enough fuel. *)
Fixpoint skip_loop (fuel : nat) (data : bytes) (i depth : Z) : result Z :=
  match fuel with
  | O => Err ErrUnexpectedEOF
  | S fuel =>
      if zlen data <=? i then Err ErrUnexpectedEOF
      else
        '(wire, rest) ← readVarint (drop (Z.to_nat i) data);
        let i := zlen data - zlen rest in
        let wireType := Z.land wire 7 in
        '(i, depth) ←
          (if wireType =? 0 then
             '(_, rest) ← readVarint rest; Ok (zlen data - zlen rest, depth)
           else if wireType =? 1 then Ok (i64 (i + 8), depth)
           else if wireType =? 2 then
             '(len, rest) ← readVarint rest;
             fail_if (i64 len <? 0) ErrInvalidLength ;;
             Ok (i64 (zlen data - zlen rest + i64 len), depth)
           else if wireType =? 3 then Ok (i, depth + 1)
           else if wireType =? 4 then
             fail_if (depth =? 0) ErrUnexpectedEndOfGroup ;; Ok (i, depth - 1)
           else if wireType =? 5 then Ok (i64 (i + 4), depth)
           else Err "proto: illegal wireType");
        fail_if (i <? 0) ErrInvalidLength ;;
        if depth =? 0 then Ok i else skip_loop fuel data i depth
  end.

Definition skip (data : bytes) : result Z := skip_loop (length data) data 0 0.

(** The loop of [Unmarshal] of a message whose known fields are read by
    [field]: [None] is a field number the message does not have.  Every round
    consumes a byte. *)
Section Unmarshal.
Context {M : Type} (field : Z -> Z -> Z -> bytes -> M -> result (option (M * bytes))).

Fixpoint unmarshal_loop (fuel : nat) (l : Z) (data : bytes) (m : M) : result M :=
  match fuel, data with
  | _, [] => Ok m
  | O, _ => Err ErrUnexpectedEOF
  | S fuel, _ =>
      '(wire, rest) ← readVarint data;
      let fieldNum := i32 (Z.shiftr wire 3) in
      let wireType := Z.land wire 7 in
      fail_if (wireType =? 4) "proto: wiretype end group for non-group" ;;
      fail_if (fieldNum <=? 0) "proto: illegal tag" ;;
      r ← field l fieldNum wireType rest m;
      match r with
      | Some (m, rest) => unmarshal_loop fuel l rest m
      | None =>
          skippy ← skip data;
          fail_if ((skippy <? 0) || (i64 (l - zlen data + skippy) <? 0)) ErrInvalidLength ;;
          fail_if (l <? l - zlen data + skippy) ErrUnexpectedEOF ;;
          unmarshal_loop fuel l (drop (Z.to_nat skippy) data) m
      end
  end.

Definition unmarshal (m : M) (data : bytes) : result M :=
  unmarshal_loop (S (length data)) (zlen data) data m.
End Unmarshal.

(** Fields as [Marshal] writes them; a zero value is left out. *)
Definition putBytes (tag : byte) (b : bytes) : bytes := tag :: encodeVarint (u64 (zlen b)) ++ b.
Definition putBytesOpt (tag : byte) (b : bytes) : bytes :=
  if (0 <? length b)%nat then putBytes tag b else [].
Definition putInt (tag : byte) (v : Z) : bytes :=
  if negb (v =? 0) then tag :: encodeVarint (u64 v) else [].
Definition putBool (tag : byte) (b : bool) : bytes := if b then [tag; x01] else [].

Definition sizeBytes (n : Z) : Z := 1 + n + sov (u64 n).
Definition sizeBytesOpt (n : Z) : Z := if 0 <? n then sizeBytes n else 0.
Definition sizeInt (v : Z) : Z := if negb (v =? 0) then 1 + sov (u64 v) else 0.
Definition sizeBool (b : bool) : Z := if b then 2 else 0.

Fixpoint sum (l : list Z) : Z := match l with [] => 0 | x :: l => x + sum l end.

(** ** Messages *)

Record NamedChangeSet := mkNamedCS { csName : string; csPairs : ChangeSet }.

Record TreeNameUpgrade := mkUpgrade {
  upName : string;
  upRenameFrom : string;
  upDelete : bool
}.

Record WALEntry := mkWALEntry {
  weChangesets : list NamedChangeSet;
  weUpgrades : list TreeNameUpgrade
}.

Record CommitID := mkCommitID { cidVersion : Z; cidHash : bytes }.

Record StoreInfo := mkStoreInfo { siName : string; siCommitId : CommitID }.

Record CommitInfo := mkCommitInfo { ciVersion : Z; ciStoreInfos : list StoreInfo }.

Record MultiTreeMetadata := mkMetadata {
  mdCommitInfo : option CommitInfo;
  mdInitialVersion : Z
}.

(** *** [KVPair] *)

Definition KVPair_Marshal (m : KVPair) : bytes :=
  putBool x08 (Delete m) ++ putBytesOpt x12 (PairKey m) ++ putBytesOpt x1a (default [] (PairValue m)).

Definition KVPair_Size (m : KVPair) : Z :=
  sizeBool (Delete m) + sizeBytesOpt (zlen (PairKey m)) + sizeBytesOpt (zlen (default [] (PairValue m))).

Definition KVPair_field (l fieldNum wireType : Z) (rest : bytes) (m : KVPair)
    : result (option (KVPair * bytes)) :=
  if fieldNum =? 1 then
    '(v, rest) ← getInt wireType rest;
    Ok (Some (mkPair (negb (v =? 0)) (PairKey m) (PairValue m), rest))
  else if fieldNum =? 2 then
    '(b, rest) ← getBytes l wireType rest;
    Ok (Some (mkPair (Delete m) b (PairValue m), rest))
  else if fieldNum =? 3 then
    '(b, rest) ← getBytes l wireType rest;
    Ok (Some (mkPair (Delete m) (PairKey m) (Some b), rest))
  else Ok None.

Definition KVPair_zero : KVPair := mkPair false [] None.
Definition KVPair_Unmarshal (data : bytes) : result KVPair := unmarshal KVPair_field KVPair_zero data.

(** *** [ChangeSet] *)

Definition ChangeSet_Marshal (m : ChangeSet) : bytes :=
  mjoin ((fun p => putBytes x0a (KVPair_Marshal p)) <$> m).

Definition ChangeSet_Size (m : ChangeSet) : Z := sum ((fun p => sizeBytes (KVPair_Size p)) <$> m).

Definition ChangeSet_field (l fieldNum wireType : Z) (rest : bytes) (m : ChangeSet)
    : result (option (ChangeSet * bytes)) :=
  if fieldNum =? 1 then
    '(b, rest) ← getBytes l wireType rest;
    p ← KVPair_Unmarshal b;
    Ok (Some (m ++ [p], rest))
  else Ok None.

Definition ChangeSet_Unmarshal (m : ChangeSet) (data : bytes) : result ChangeSet :=
  unmarshal ChangeSet_field m data.

(** *** [NamedChangeSet] *)

Definition NamedChangeSet_Marshal (m : NamedChangeSet) : bytes :=
  putBytes x0a (ChangeSet_Marshal (csPairs m)) ++ putBytesOpt x12 (bytes_of_string (csName m)).

Definition NamedChangeSet_Size (m : NamedChangeSet) : Z :=
  sizeBytes (ChangeSet_Size (csPairs m)) + sizeBytesOpt (zlen (bytes_of_string (csName m))).

Definition NamedChangeSet_field (l fieldNum wireType : Z) (rest : bytes) (m : NamedChangeSet)
    : result (option (NamedChangeSet * bytes)) :=
  if fieldNum =? 1 then
    '(b, rest) ← getBytes l wireType rest;
    cs ← ChangeSet_Unmarshal (csPairs m) b;
    Ok (Some (mkNamedCS (csName m) cs, rest))
  else if fieldNum =? 2 then
    '(b, rest) ← getBytes l wireType rest;
    Ok (Some (mkNamedCS (string_of_bytes b) (csPairs m), rest))
  else Ok None.

Definition NamedChangeSet_Unmarshal (data : bytes) : result NamedChangeSet :=
  unmarshal NamedChangeSet_field (mkNamedCS "" []) data.

(** *** [TreeNameUpgrade] *)

Definition TreeNameUpgrade_Marshal (m : TreeNameUpgrade) : bytes :=
  putBytesOpt x0a (bytes_of_string (upName m)) ++
  putBytesOpt x12 (bytes_of_string (upRenameFrom m)) ++ putBool x18 (upDelete m).

Definition TreeNameUpgrade_Size (m : TreeNameUpgrade) : Z :=
  sizeBytesOpt (zlen (bytes_of_string (upName m))) +
  sizeBytesOpt (zlen (bytes_of_string (upRenameFrom m))) + sizeBool (upDelete m).

Definition TreeNameUpgrade_field (l fieldNum wireType : Z) (rest : bytes) (m : TreeNameUpgrade)
    : result (option (TreeNameUpgrade * bytes)) :=
  if fieldNum =? 1 then
    '(b, rest) ← getBytes l wireType rest;
    Ok (Some (mkUpgrade (string_of_bytes b) (upRenameFrom m) (upDelete m), rest))
  else if fieldNum =? 2 then
    '(b, rest) ← getBytes l wireType rest;
    Ok (Some (mkUpgrade (upName m) (string_of_bytes b) (upDelete m), rest))
  else if fieldNum =? 3 then
    '(v, rest) ← getInt wireType rest;
    Ok (Some (mkUpgrade (upName m) (upRenameFrom m) (negb (v =? 0)), rest))
  else Ok None.

Definition TreeNameUpgrade_Unmarshal (data : bytes) : result TreeNameUpgrade :=
  unmarshal TreeNameUpgrade_field (mkUpgrade "" "" false) data.

(** *** [WALEntry] *)

Definition WALEntry_Marshal (m : WALEntry) : bytes :=
  mjoin ((fun cs => putBytes x0a (NamedChangeSet_Marshal cs)) <$> weChangesets m) ++
  mjoin ((fun u => putBytes x12 (TreeNameUpgrade_Marshal u)) <$> weUpgrades m).

Definition WALEntry_Size (m : WALEntry) : Z :=
  sum ((fun cs => sizeBytes (NamedChangeSet_Size cs)) <$> weChangesets m) +
  sum ((fun u => sizeBytes (TreeNameUpgrade_Size u)) <$> weUpgrades m).

Definition WALEntry_field (l fieldNum wireType : Z) (rest : bytes) (m : WALEntry)
    : result (option (WALEntry * bytes)) :=
  if fieldNum =? 1 then
    '(b, rest) ← getBytes l wireType rest;
    cs ← NamedChangeSet_Unmarshal b;
    Ok (Some (mkWALEntry (weChangesets m ++ [cs]) (weUpgrades m), rest))
  else if fieldNum =? 2 then
    '(b, rest) ← getBytes l wireType rest;
    u ← TreeNameUpgrade_Unmarshal b;
    Ok (Some (mkWALEntry (weChangesets m) (weUpgrades m ++ [u]), rest))
  else Ok None.

Definition WALEntry_Unmarshal (data : bytes) : result WALEntry :=
  unmarshal WALEntry_field (mkWALEntry [] []) data.

(** *** [CommitID], [StoreInfo], [CommitInfo] *)

Definition CommitID_Marshal (m : CommitID) : bytes :=
  putInt x08 (cidVersion m) ++ putBytesOpt x12 (cidHash m).

Definition CommitID_Size (m : CommitID) : Z :=
  sizeInt (cidVersion m) + sizeBytesOpt (zlen (cidHash m)).

Definition CommitID_field (l fieldNum wireType : Z) (rest : bytes) (m : CommitID)
    : result (option (CommitID * bytes)) :=
  if fieldNum =? 1 then
    '(v, rest) ← getInt wireType rest; Ok (Some (mkCommitID v (cidHash m), rest))
  else if fieldNum =? 2 then
    '(b, rest) ← getBytes l wireType rest; Ok (Some (mkCommitID (cidVersion m) b, rest))
  else Ok None.

Definition CommitID_Unmarshal (m : CommitID) (data : bytes) : result CommitID :=
  unmarshal CommitID_field m data.

Definition StoreInfo_Marshal (m : StoreInfo) : bytes :=
  putBytesOpt x0a (bytes_of_string (siName m)) ++ putBytes x12 (CommitID_Marshal (siCommitId m)).

Definition StoreInfo_Size (m : StoreInfo) : Z :=
  sizeBytesOpt (zlen (bytes_of_string (siName m))) + sizeBytes (CommitID_Size (siCommitId m)).

Definition StoreInfo_field (l fieldNum wireType : Z) (rest : bytes) (m : StoreInfo)
    : result (option (StoreInfo * bytes)) :=
  if fieldNum =? 1 then
    '(b, rest) ← getBytes l wireType rest;
    Ok (Some (mkStoreInfo (string_of_bytes b) (siCommitId m), rest))
  else if fieldNum =? 2 then
    '(b, rest) ← getBytes l wireType rest;
    id ← CommitID_Unmarshal (siCommitId m) b;
    Ok (Some (mkStoreInfo (siName m) id, rest))
  else Ok None.

Definition StoreInfo_Unmarshal (data : bytes) : result StoreInfo :=
  unmarshal StoreInfo_field (mkStoreInfo "" (mkCommitID 0 [])) data.

Definition CommitInfo_Marshal (m : CommitInfo) : bytes :=
  putInt x08 (ciVersion m) ++
  mjoin ((fun s => putBytes x12 (StoreInfo_Marshal s)) <$> ciStoreInfos m).

Definition CommitInfo_Size (m : CommitInfo) : Z :=
  sizeInt (ciVersion m) + sum ((fun s => sizeBytes (StoreInfo_Size s)) <$> ciStoreInfos m).

Definition CommitInfo_field (l fieldNum wireType : Z) (rest : bytes) (m : CommitInfo)
    : result (option (CommitInfo * bytes)) :=
  if fieldNum =? 1 then
    '(v, rest) ← getInt wireType rest; Ok (Some (mkCommitInfo v (ciStoreInfos m), rest))
  else if fieldNum =? 2 then
    '(b, rest) ← getBytes l wireType rest;
    s ← StoreInfo_Unmarshal b;
    Ok (Some (mkCommitInfo (ciVersion m) (ciStoreInfos m ++ [s]), rest))
  else Ok None.

Definition CommitInfo_Unmarshal (m : CommitInfo) (data : bytes) : result CommitInfo :=
  unmarshal CommitInfo_field m data.

(** *** [MultiTreeMetadata] *)

Definition MultiTreeMetadata_Marshal (m : MultiTreeMetadata) : bytes :=
  match mdCommitInfo m with Some ci => putBytes x0a (CommitInfo_Marshal ci) | None => [] end ++
  putInt x10 (mdInitialVersion m).

Definition MultiTreeMetadata_Size (m : MultiTreeMetadata) : Z :=
  match mdCommitInfo m with Some ci => sizeBytes (CommitInfo_Size ci) | None => 0 end +
  sizeInt (mdInitialVersion m).

Definition MultiTreeMetadata_field (l fieldNum wireType : Z) (rest : bytes) (m : MultiTreeMetadata)
    : result (option (MultiTreeMetadata * bytes)) :=
  if fieldNum =? 1 then
    '(b, rest) ← getBytes l wireType rest;
    ci ← CommitInfo_Unmarshal (default (mkCommitInfo 0 []) (mdCommitInfo m)) b;
    Ok (Some (mkMetadata (Some ci) (mdInitialVersion m), rest))
  else if fieldNum =? 2 then
    '(v, rest) ← getInt wireType rest; Ok (Some (mkMetadata (mdCommitInfo m) v, rest))
  else Ok None.

Definition MultiTreeMetadata_Unmarshal (data : bytes) : result MultiTreeMetadata :=
  unmarshal MultiTreeMetadata_field (mkMetadata None 0) data.

(** ** Varints *)

Lemma encode_byte v : Z.lor (Z.land v 127) 128 = Z.lor (u8 v) 128.
Proof.
  unfold u8. rewrite <- (Z.land_ones v 8) by lia. apply Z.bits_inj'. intros n Hn.
  rewrite !Z.lor_spec, !Z.land_spec. change 127 with (Z.ones 7). change 128 with (2 ^ 7).
  destruct (Z.ltb_spec n 7).
  - by rewrite !Z.ones_spec_low by lia.
  - destruct (decide (n = 7)) as [->|].
    + by rewrite Z.pow2_bits_true, !orb_true_r by lia.
    + by rewrite !Z.ones_spec_high, !andb_false_r by lia.
Qed.

Lemma encodeVarint_eq v : encodeVarint v = PutUvarint v.
Proof.
  with_strategy transparent [PutUvarint] unfold encodeVarint, PutUvarint.
  generalize 10%nat as fuel. intros fuel. revert v. induction fuel as [|fuel IH]; intros v; [done|].
  cbn [encode_varint put_uvarint]. by rewrite encode_byte, IH.
Qed.

Lemma varint_loop_uvarint buf i x v n :
  0 <= i <= 10 -> uvarint_loop buf i x (7 * i) = (v, n) -> 0 < n ->
  varint_loop buf (7 * i) x = Ok (v, drop (Z.to_nat (n - i)) buf) /\ i < n.
Proof.
  revert i x. induction buf as [|b buf IH]; intros i x Hi; cbn [uvarint_loop].
  { intros [= <- <-]. lia. }
  unfold MaxVarintLen64. destruct (Z.eqb_spec i 10) as [->|Hne]; [intros [= <- <-]; lia|].
  cbn [varint_loop]. rewrite (proj2 (Z.leb_gt 64 (7 * i))) by lia.
  destruct (Z.ltb_spec (byte_to_Z b) 128) as [Hb|Hb].
  - destruct ((i =? 10 - 1) && (1 <? byte_to_Z b)); [intros [= <- <-]; lia|].
    intros [= <- <-] _. split; [|lia]. pose proof (byte_to_Z_range b).
    rewrite land_127, Z.mod_small by lia. by replace (Z.to_nat (i + 1 - i)) with 1%nat by lia.
  - intros E Hn. replace (7 * i + 7) with (7 * (i + 1)) in * by lia.
    destruct (IH (i + 1) _ ltac:(lia) E Hn) as [-> Hlt]. split; [|lia].
    by replace (Z.to_nat (n - i)) with (S (Z.to_nat (n - (i + 1)))) by lia.
Qed.

Lemma readVarint_put x rest :
  0 <= x < 2 ^ 64 -> readVarint (encodeVarint x ++ rest) = Ok (x, rest).
Proof.
  intros Hx. rewrite encodeVarint_eq. pose proof (Uvarint_Put x rest Hx) as E.
  pose proof (PutUvarint_pos x). unfold Uvarint in E.
  destruct (varint_loop_uvarint _ 0 0 _ _ ltac:(lia) E ltac:(lia)) as [E' _].
  unfold readVarint. change 0 with (7 * 0) at 1. rewrite E'. do 2 f_equal.
  rewrite Z.sub_0_r, Nat2Z.id. apply drop_app_length.
Qed.

Lemma sov_step x : 128 <= x -> sov x = 1 + sov (Z.shiftr x 7).
Proof.
  intros Hx. unfold sov. assert (0 < Z.shiftr x 7) as Hp.
  { rewrite Z.shiftr_div_pow2 by lia. apply Z.div_str_pos. lia. }
  assert (forall y, 0 < y -> Z.log2 (Z.lor y 1) = Z.log2 y) as Hl.
  { intros y Hy. rewrite Z.log2_lor by lia. change (Z.log2 1) with 0.
    pose proof (Z.log2_nonneg y). lia. }
  rewrite !Hl, Z.log2_shiftr by lia.
  assert (7 <= Z.log2 x) by (change 7 with (Z.log2 128); apply Z.log2_le_mono; lia).
  rewrite Z.max_r by lia. replace (Z.log2 x + 1 + 6) with (Z.log2 x - 7 + 1 + 6 + 1 * 7) by lia.
  rewrite Z.div_add by lia. lia.
Qed.

Lemma sov_small x : 0 <= x < 128 -> sov x = 1.
Proof.
  intros Hx. unfold sov. rewrite Z.log2_lor by lia. change (Z.log2 1) with 0.
  pose proof (Z.log2_nonneg x). rewrite Z.max_l by lia.
  assert (Z.log2 x <= 6).
  { destruct (decide (x = 0)) as [->|]; [done|]. change 6 with (Z.log2 127).
    apply Z.log2_le_mono. lia. }
  symmetry. apply Z.div_unique with (Z.log2 x); lia.
Qed.

Lemma encode_varint_length fuel x :
  0 <= x < 2 ^ (7 * Z.of_nat fuel) -> (0 < fuel)%nat -> zlen (encode_varint fuel x) = sov x.
Proof.
  revert x. induction fuel as [|fuel IH]; intros x Hx Hf; [lia|]. cbn [encode_varint].
  destruct (Z.leb_spec 128 x) as [Hge|Hlt]; [|by rewrite sov_small by lia].
  cbn [length]. rewrite sov_step by done.
  destruct (decide (fuel = 0%nat)) as [->|]; [change (2 ^ (7 * 1)) with 128 in Hx; lia|].
  rewrite Nat2Z.inj_succ, IH; [lia| |lia]. rewrite Z.shiftr_div_pow2 by lia.
  split; [apply Z.div_pos; lia|]. apply Z.div_lt_upper_bound; [lia|].
  rewrite <- Z.pow_add_r by lia. replace (7 + 7 * Z.of_nat fuel) with (7 * Z.of_nat (S fuel)) by lia. apply Hx.
Qed.

Lemma encodeVarint_bound v : (length (encodeVarint v) <= 10)%nat.
Proof.
  unfold encodeVarint. generalize 10%nat as fuel. intros fuel. revert v.
  induction fuel as [|fuel IH]; intros v; cbn [encode_varint]; [done|].
  destruct (_ <=? _); cbn [length]; [|lia]. specialize (IH (Z.shiftr v 7)). lia.
Qed.

Lemma sov_length x : 0 <= x < 2 ^ 64 -> zlen (encodeVarint x) = sov x.
Proof.
  intros Hx. apply encode_varint_length; [|lia]. split; [lia|].
  apply (Z.lt_le_trans _ (2 ^ 64)); [lia|]. apply Z.pow_le_mono_r; lia.
Qed.

(** ** Reading back fields *)

Lemma getBytes_put l b rest :
  zlen b + zlen rest <= l -> l < 2 ^ 63 ->
  getBytes l 2 (encodeVarint (u64 (zlen b)) ++ b ++ rest) = Ok (b, rest).
Proof.
  intros Hl Hl63. unfold getBytes. cbn [Z.eqb fail_if negb]. rewrite (u64_id (zlen b)) by lia.
  sbind. rewrite readVarint_put by lia. sbind. rewrite (i64_id (zlen b)) by lia.
  rewrite length_app. replace (l - Z.of_nat (length b + length rest) + zlen b) with (l - zlen rest) by lia.
  rewrite (i64_id (l - zlen rest)) by lia. rewrite !(proj2 (Z.ltb_ge _ _)) by lia. cbn [fail_if]. sbind.
  by rewrite Nat2Z.id, take_app_length, drop_app_length.
Qed.

Lemma getInt_put v rest :
  - 2 ^ 63 <= v < 2 ^ 63 -> getInt 0 (encodeVarint (u64 v) ++ rest) = Ok (v, rest).
Proof.
  intros Hv. unfold getInt. cbn [Z.eqb fail_if negb]. sbind.
  rewrite readVarint_put by apply u64_range. sbind. do 2 f_equal.
  unfold i64, u64. rewrite Zplus_mod_idemp_l. rewrite Z.mod_small; lia.
Qed.

Section Parses.
Context {M : Type} (field : Z -> Z -> Z -> bytes -> M -> result (option (M * bytes))).

(** The loop reads the data from [m] to [m'], with any fuel that covers it. *)
Definition parses (l : Z) (data : bytes) (m m' : M) : Prop :=
  forall fuel, (length data < fuel)%nat -> unmarshal_loop field fuel l data m = Ok m'.

Lemma parses_nil l m : parses l [] m m.
Proof. intros [|fuel] Hf; done. Qed.

Definition fieldOf (tag : byte) : Z := Z.shiftr (byte_to_Z tag) 3.
Definition wireOf (tag : byte) : Z := Z.land (byte_to_Z tag) 7.

(** A one-byte tag of a field that is not a group. *)
Definition plain_tag (tag : byte) : bool :=
  (byte_to_Z tag <? 128) && negb (wireOf tag =? 4) && (1 <=? fieldOf tag) && (fieldOf tag <? 16).

Lemma parses_field l tag rest m m1 rest' m' :
  plain_tag tag = true -> field l (fieldOf tag) (wireOf tag) rest m = Ok (Some (m1, rest')) ->
  (length rest' <= length rest)%nat -> parses l rest' m1 m' -> parses l (tag :: rest) m m'.
Proof.
  unfold plain_tag. rewrite !andb_true_iff, negb_true_iff. intros (((Ht & Hw) & H1) & H16) Hf Hlen Hp.
  apply Z.ltb_lt in Ht, H16. apply Z.leb_le in H1. intros [|fuel] Hfuel; [lia|].
  cbn [length] in Hfuel. cbn [unmarshal_loop]. unfold readVarint. cbn [varint_loop].
  change (64 <=? 0) with false. cbv iota. rewrite (proj2 (Z.ltb_lt _ _)) by done. sbind.
  pose proof (byte_to_Z_range tag). rewrite Z.shiftl_0_r, Z.lor_0_l, land_127.
  rewrite (Z.mod_small _ 128), u64_id by lia.
  fold (fieldOf tag) (wireOf tag). rewrite Hw. unfold i32.
  rewrite (Z.mod_small (fieldOf tag + 2 ^ 31)) by lia.
  replace (fieldOf tag + 2 ^ 31 - 2 ^ 31) with (fieldOf tag) by lia.
  rewrite (proj2 (Z.leb_gt _ _)) by lia. cbn [fail_if]. sbind. rewrite Hf. sbind. apply Hp. lia.
Qed.

Lemma parses_bytes l tag b rest m m1 m' :
  plain_tag tag = true ->
  field l (fieldOf tag) (wireOf tag) (encodeVarint (u64 (zlen b)) ++ b ++ rest) m = Ok (Some (m1, rest)) ->
  parses l rest m1 m' -> parses l (putBytes tag b ++ rest) m m'.
Proof.
  intros Ht Hf Hp. unfold putBytes. cbn [app]. rewrite <- app_assoc.
  eapply parses_field; [done|exact Hf| |done]. rewrite !length_app. lia.
Qed.

Lemma parses_bytesOpt l tag b rest m m1 m' :
  plain_tag tag = true ->
  field l (fieldOf tag) (wireOf tag) (encodeVarint (u64 (zlen b)) ++ b ++ rest) m = Ok (Some (m1, rest)) ->
  (b = [] -> m1 = m) -> parses l rest m1 m' -> parses l (putBytesOpt tag b ++ rest) m m'.
Proof.
  intros Ht Hf H0 Hp. unfold putBytesOpt. destruct b as [|x b].
  - by rewrite <- (H0 eq_refl).
  - by eapply parses_bytes.
Qed.

Lemma parses_int l tag v rest m m1 m' :
  plain_tag tag = true ->
  field l (fieldOf tag) (wireOf tag) (encodeVarint (u64 v) ++ rest) m = Ok (Some (m1, rest)) ->
  (v = 0 -> m1 = m) -> parses l rest m1 m' -> parses l (putInt tag v ++ rest) m m'.
Proof.
  intros Ht Hf H0 Hp. unfold putInt. destruct (Z.eqb_spec v 0) as [->|]; cbn [negb].
  - by rewrite <- (H0 eq_refl).
  - eapply parses_field; [done|exact Hf| |done]. rewrite length_app. lia.
Qed.

Lemma parses_bool l tag b rest m m1 m' :
  plain_tag tag = true ->
  field l (fieldOf tag) (wireOf tag) (x01 :: rest) m = Ok (Some (m1, rest)) ->
  (b = false -> parses l rest m m') -> (b = true -> parses l rest m1 m') ->
  parses l (putBool tag b ++ rest) m m'.
Proof.
  intros Ht Hf H0 H1. destruct b; cbn [putBool app]; [|auto].
  eapply parses_field; [done|exact Hf|cbn; lia|auto].
Qed.

(** A repeated field whose elements are read one by one. *)
Lemma parses_repeated {A} (enc : A -> bytes) (add : M -> A -> M) l tag xs rest m m' :
  plain_tag tag = true ->
  (forall x m rest, x ∈ xs -> zlen (enc x) + zlen rest <= l ->
     field l (fieldOf tag) (wireOf tag) (encodeVarint (u64 (zlen (enc x))) ++ enc x ++ rest) m =
     Ok (Some (add m x, rest))) ->
  zlen (mjoin ((fun x => putBytes tag (enc x)) <$> xs) ++ rest) <= l ->
  parses l rest (foldl add m xs) m' ->
  parses l (mjoin ((fun x => putBytes tag (enc x)) <$> xs) ++ rest) m m'.
Proof.
  intros Ht. revert m. induction xs as [|x xs IH]; intros m Hf Hl Hp; [done|].
  assert (mjoin ((fun x => putBytes tag (enc x)) <$> x :: xs) =
    putBytes tag (enc x) ++ mjoin ((fun x => putBytes tag (enc x)) <$> xs)) as Ej by done.
  rewrite Ej, <- app_assoc in *.
  assert (length (enc x) <= length (putBytes tag (enc x)))%nat
    by (unfold putBytes; cbn [length]; rewrite length_app; lia).
  rewrite length_app in Hl.
  eapply parses_bytes; [done|apply Hf; [set_solver|lia]|].
  apply IH; [|lia|done]. intros y m2 rest2 Hy. apply Hf. set_solver.
Qed.

Lemma parses_unmarshal data m m' : parses (zlen data) data m m' -> unmarshal field m data = Ok m'.
Proof. intros Hp. unfold unmarshal. apply Hp. lia. Qed.
End Parses.

Lemma getInt_true rest : getInt 0 (x01 :: rest) = Ok (1, rest).
Proof. done. Qed.

(** Compute which field a tag selects and read it back. *)
Ltac read_field :=
  repeat match goal with
  | |- context [fieldOf ?t] => let v := eval vm_compute in (fieldOf t) in change (fieldOf t) with v
  | |- context [wireOf ?t] => let v := eval vm_compute in (wireOf t) in change (wireOf t) with v
  end;
  cbn [Z.eqb Pos.eqb];
  first [ rewrite getBytes_put by (rewrite ?length_app; cbn [length] in *; lia)
        | rewrite getInt_put by lia | rewrite getInt_true ]; sbind.

(** ** Round trips *)

(** An empty value is read back as a missing one. *)
Definition canon_pair (p : KVPair) : KVPair :=
  mkPair (Delete p) (PairKey p)
    match default [] (PairValue p) with [] => None | v => Some v end.

Lemma putBytesOpt_length tag b : (length b <= length (putBytesOpt tag b))%nat.
Proof. destruct b; [done|]. unfold putBytesOpt, putBytes. cbn. rewrite length_app. cbn. lia. Qed.

Lemma putBytes_length tag b : (length b < length (putBytes tag b))%nat.
Proof. unfold putBytes. cbn. rewrite length_app. lia. Qed.

Lemma KVPair_roundtrip p :
  zlen (KVPair_Marshal p) < 2 ^ 63 -> KVPair_Unmarshal (KVPair_Marshal p) = Ok (canon_pair p).
Proof.
  intros Hl. apply parses_unmarshal. set (l := zlen (KVPair_Marshal p)) in *.
  assert (l = zlen (KVPair_Marshal p)) as El by done. clearbody l. unfold KVPair_Marshal in *.
  destruct p as [d k v]. unfold canon_pair. cbn [Delete PairKey PairValue] in *.
  set (val := default [] v) in *. clearbody val.
  rewrite <- (app_nil_r (putBytesOpt x1a val)) in *. rewrite !length_app in El.
  pose proof (putBytesOpt_length x12 k). pose proof (putBytesOpt_length x1a val).
  eapply (parses_bool _ _ _ _ _ _ (mkPair true [] None)); [done|unfold KVPair_field; by read_field| |].
  all: intros ->; eapply parses_bytesOpt; [done|unfold KVPair_field; read_field; done| |].
  all: try (by intros ->). all: cbn [Delete PairKey PairValue] in *.
  all: destruct val as [|x val']; [apply parses_nil|].
  all: change (putBytesOpt x1a (x :: val')) with (putBytes x1a (x :: val')) in *.
  all: eapply parses_bytes; [done|unfold KVPair_field; read_field; done|].
  all: apply parses_nil.
Qed.

Lemma foldl_snoc {A B} (f : A -> B) (m : list B) xs :
  foldl (fun m x => m ++ [f x]) m xs = m ++ (f <$> xs).
Proof.
  revert m. induction xs as [|x xs IH]; intros m; cbn [foldl fmap list_fmap]; [by rewrite app_nil_r|].
  by rewrite IH, <- app_assoc.
Qed.

Lemma ChangeSet_roundtrip m cs :
  zlen (ChangeSet_Marshal cs) < 2 ^ 63 ->
  ChangeSet_Unmarshal m (ChangeSet_Marshal cs) = Ok (m ++ (canon_pair <$> cs)).
Proof.
  intros Hl. apply parses_unmarshal. unfold ChangeSet_Marshal in *.
  rewrite <- (app_nil_r (mjoin _)).
  eapply (parses_repeated _ KVPair_Marshal (fun m p => m ++ [canon_pair p])); [done| | |].
  - intros p m' rest Hp Hlen. rewrite app_nil_r in Hlen. unfold ChangeSet_field. read_field.
    rewrite KVPair_roundtrip; [done|]. lia.
  - done.
  - rewrite foldl_snoc. apply parses_nil.
Qed.

Definition canon_cs (m : NamedChangeSet) : NamedChangeSet :=
  mkNamedCS (csName m) (canon_pair <$> csPairs m).

Lemma string_bytes s : string_of_bytes (bytes_of_string s) = s.
Proof. apply String.string_of_list_byte_of_string. Qed.

Lemma bytes_of_string_nil s : bytes_of_string s = [] -> s = "".
Proof. intros E. rewrite <- (string_bytes s), E. done. Qed.

Lemma NamedChangeSet_roundtrip m :
  zlen (NamedChangeSet_Marshal m) < 2 ^ 63 ->
  NamedChangeSet_Unmarshal (NamedChangeSet_Marshal m) = Ok (canon_cs m).
Proof.
  intros Hl. apply parses_unmarshal. set (l := zlen (NamedChangeSet_Marshal m)) in *.
  assert (l = zlen (NamedChangeSet_Marshal m)) as El by done. clearbody l.
  unfold NamedChangeSet_Marshal in *. rewrite <- (app_nil_r (putBytesOpt x12 _)) in *.
  pose proof (putBytes_length x0a (ChangeSet_Marshal (csPairs m))).
  pose proof (putBytesOpt_length x12 (bytes_of_string (csName m))). rewrite !length_app in El.
  eapply parses_bytes; [done| |].
  { unfold NamedChangeSet_field. read_field. rewrite ChangeSet_roundtrip by lia. done. }
  cbn [csPairs app]. eapply parses_bytesOpt; [done|unfold NamedChangeSet_field; read_field; done| |].
  - by intros ->.
  - rewrite string_bytes. apply parses_nil.
Qed.

Lemma TreeNameUpgrade_roundtrip m :
  zlen (TreeNameUpgrade_Marshal m) < 2 ^ 63 ->
  TreeNameUpgrade_Unmarshal (TreeNameUpgrade_Marshal m) = Ok m.
Proof.
  intros Hl. apply parses_unmarshal. set (l := zlen (TreeNameUpgrade_Marshal m)) in *.
  assert (l = zlen (TreeNameUpgrade_Marshal m)) as El by done. clearbody l.
  unfold TreeNameUpgrade_Marshal in *. rewrite <- (app_nil_r (putBool x18 _)) in *.
  pose proof (putBytesOpt_length x0a (bytes_of_string (upName m))).
  pose proof (putBytesOpt_length x12 (bytes_of_string (upRenameFrom m))). rewrite !length_app in El.
  destruct m as [n f d]. cbn [upName upRenameFrom upDelete] in *.
  eapply parses_bytesOpt; [done|unfold TreeNameUpgrade_field; read_field; done|by intros ->|].
  eapply parses_bytesOpt; [done|unfold TreeNameUpgrade_field; read_field; done|by intros ->|].
  rewrite !string_bytes. cbn [upName upRenameFrom upDelete].
  eapply parses_bool; [done|unfold TreeNameUpgrade_field; read_field; done| |];
    intros ->; apply parses_nil.
Qed.

Definition canon_entry (e : WALEntry) : WALEntry :=
  mkWALEntry (canon_cs <$> weChangesets e) (weUpgrades e).

Lemma fold_changesets (f : NamedChangeSet -> NamedChangeSet) m css :
  foldl (fun m cs => mkWALEntry (weChangesets m ++ [f cs]) (weUpgrades m)) m css =
  mkWALEntry (weChangesets m ++ (f <$> css)) (weUpgrades m).
Proof.
  revert m. induction css as [|cs css IH]; intros m; cbn [foldl fmap list_fmap].
  - rewrite app_nil_r. by destruct m.
  - rewrite IH. cbn [weChangesets weUpgrades]. by rewrite <- app_assoc.
Qed.

Lemma fold_upgrades m us :
  foldl (fun m u => mkWALEntry (weChangesets m) (weUpgrades m ++ [u])) m us =
  mkWALEntry (weChangesets m) (weUpgrades m ++ us).
Proof.
  revert m. induction us as [|u us IH]; intros m; cbn [foldl].
  - rewrite app_nil_r. by destruct m.
  - rewrite IH. cbn [weChangesets weUpgrades]. by rewrite <- app_assoc.
Qed.

Lemma WALEntry_roundtrip e :
  zlen (WALEntry_Marshal e) < 2 ^ 63 -> WALEntry_Unmarshal (WALEntry_Marshal e) = Ok (canon_entry e).
Proof.
  intros Hl. apply parses_unmarshal. set (l := zlen (WALEntry_Marshal e)) in *.
  assert (l = zlen (WALEntry_Marshal e)) as El by done. clearbody l.
  unfold WALEntry_Marshal in *. destruct e as [css us]. cbn [weChangesets weUpgrades] in *.
  rewrite <- (app_nil_r (mjoin ((fun u => putBytes x12 _) <$> us))) in *.
  eapply (parses_repeated _ NamedChangeSet_Marshal
            (fun m cs => mkWALEntry (weChangesets m ++ [canon_cs cs]) (weUpgrades m))); [done| |lia|].
  { intros cs m rest Hcs Hlen. unfold WALEntry_field. read_field.
    by rewrite NamedChangeSet_roundtrip by lia. }
  eapply (parses_repeated _ TreeNameUpgrade_Marshal
            (fun m u => mkWALEntry (weChangesets m) (weUpgrades m ++ [u]))); [done| | |].
  { intros u m rest Hu Hlen. unfold WALEntry_field. read_field.
    by rewrite TreeNameUpgrade_roundtrip by lia. }
  { rewrite length_app in El. lia. }
  rewrite fold_changesets, fold_upgrades. apply parses_nil.
Qed.

Definition int64_ok (v : Z) : Prop := - 2 ^ 63 <= v < 2 ^ 63.

Definition CommitInfo_valid (m : CommitInfo) : Prop :=
  int64_ok (ciVersion m) /\ Forall (fun s => int64_ok (cidVersion (siCommitId s))) (ciStoreInfos m).

Lemma CommitID_roundtrip m :
  int64_ok (cidVersion m) -> zlen (CommitID_Marshal m) < 2 ^ 63 ->
  CommitID_Unmarshal (mkCommitID 0 []) (CommitID_Marshal m) = Ok m.
Proof.
  intros Hv Hl. apply parses_unmarshal. set (l := zlen (CommitID_Marshal m)) in *.
  assert (l = zlen (CommitID_Marshal m)) as El by done. clearbody l.
  unfold CommitID_Marshal in *. rewrite <- (app_nil_r (putBytesOpt x12 _)) in *.
  pose proof (putBytesOpt_length x12 (cidHash m)). rewrite !length_app in El.
  destruct m as [v h]. cbn [cidVersion cidHash] in *. unfold int64_ok in Hv.
  eapply parses_int; [done|unfold CommitID_field; read_field; done|by intros ->|].
  eapply parses_bytesOpt; [done|unfold CommitID_field; read_field; done|by intros ->|].
  apply parses_nil.
Qed.

Lemma StoreInfo_roundtrip m :
  int64_ok (cidVersion (siCommitId m)) -> zlen (StoreInfo_Marshal m) < 2 ^ 63 ->
  StoreInfo_Unmarshal (StoreInfo_Marshal m) = Ok m.
Proof.
  intros Hv Hl. apply parses_unmarshal. set (l := zlen (StoreInfo_Marshal m)) in *.
  assert (l = zlen (StoreInfo_Marshal m)) as El by done. clearbody l.
  unfold StoreInfo_Marshal in *. rewrite <- (app_nil_r (putBytes x12 _)) in *.
  pose proof (putBytesOpt_length x0a (bytes_of_string (siName m))).
  pose proof (putBytes_length x12 (CommitID_Marshal (siCommitId m))). rewrite !length_app in El.
  destruct m as [n id]. cbn [siName siCommitId] in *.
  eapply parses_bytesOpt; [done|unfold StoreInfo_field; read_field; done|by intros ->|].
  eapply parses_bytes; [done| |].
  { unfold StoreInfo_field. read_field. cbn [siCommitId]. rewrite CommitID_roundtrip by (done || lia). done. }
  cbn [siName]. rewrite string_bytes. apply parses_nil.
Qed.

Lemma fold_storeInfos m ss :
  foldl (fun m s => mkCommitInfo (ciVersion m) (ciStoreInfos m ++ [s])) m ss =
  mkCommitInfo (ciVersion m) (ciStoreInfos m ++ ss).
Proof.
  revert m. induction ss as [|s ss IH]; intros m; cbn [foldl].
  - rewrite app_nil_r. by destruct m.
  - rewrite IH. cbn [ciVersion ciStoreInfos]. by rewrite <- app_assoc.
Qed.

Lemma CommitInfo_roundtrip m :
  CommitInfo_valid m -> zlen (CommitInfo_Marshal m) < 2 ^ 63 ->
  CommitInfo_Unmarshal (mkCommitInfo 0 []) (CommitInfo_Marshal m) = Ok m.
Proof.
  intros [Hv Hs] Hl. apply parses_unmarshal. set (l := zlen (CommitInfo_Marshal m)) in *.
  assert (l = zlen (CommitInfo_Marshal m)) as El by done. clearbody l.
  unfold CommitInfo_Marshal in *. destruct m as [v ss]. cbn [ciVersion ciStoreInfos] in *.
  rewrite <- (app_nil_r (mjoin _)) in *. rewrite length_app in El. unfold int64_ok in Hv.
  eapply parses_int; [done|unfold CommitInfo_field; read_field; done|by intros ->|].
  eapply (parses_repeated _ StoreInfo_Marshal
            (fun m s => mkCommitInfo (ciVersion m) (ciStoreInfos m ++ [s]))); [done| |lia|].
  { intros s m rest Hin Hlen. unfold CommitInfo_field. read_field.
    rewrite Forall_forall in Hs. by rewrite StoreInfo_roundtrip by (auto || lia). }
  rewrite fold_storeInfos. apply parses_nil.
Qed.

Definition metadata_valid (m : MultiTreeMetadata) : Prop :=
  match mdCommitInfo m with Some ci => CommitInfo_valid ci | None => True end /\
  int64_ok (mdInitialVersion m) /\ zlen (MultiTreeMetadata_Marshal m) < 2 ^ 63.

Lemma MultiTreeMetadata_roundtrip m :
  metadata_valid m -> MultiTreeMetadata_Unmarshal (MultiTreeMetadata_Marshal m) = Ok m.
Proof.
  intros (Hci & Hv & Hl). apply parses_unmarshal. set (l := zlen (MultiTreeMetadata_Marshal m)) in *.
  assert (l = zlen (MultiTreeMetadata_Marshal m)) as El by done. clearbody l.
  unfold MultiTreeMetadata_Marshal in *. destruct m as [ci v]. cbn [mdCommitInfo mdInitialVersion] in *.
  rewrite <- (app_nil_r (putInt x10 v)) in *. rewrite !length_app in El. unfold int64_ok in Hv.
  assert (parses MultiTreeMetadata_field l (putInt x10 v ++ []) (mkMetadata ci 0) (mkMetadata ci v)) as Hp.
  { eapply parses_int; [done|unfold MultiTreeMetadata_field; read_field; done|by intros ->|].
    apply parses_nil. }
  destruct ci as [ci|]; [|done]. pose proof (putBytes_length x0a (CommitInfo_Marshal ci)).
  eapply parses_bytes; [done| |exact Hp].
  unfold MultiTreeMetadata_field. read_field. cbn [mdCommitInfo]. change (default ?a None) with a.
  rewrite CommitInfo_roundtrip by (done || lia). done.
Qed.

(** ** Sizes *)

Lemma sizeBytes_length tag b : zlen (putBytes tag b) = sizeBytes (zlen b).
Proof.
  unfold putBytes, sizeBytes. cbn [length]. rewrite length_app.
  rewrite <- sov_length by apply u64_range. lia.
Qed.

Lemma sizeBytesOpt_length tag b : zlen (putBytesOpt tag b) = sizeBytesOpt (zlen b).
Proof.
  unfold putBytesOpt, sizeBytesOpt. destruct b as [|x b]; [done|].
  rewrite (proj2 (Z.ltb_lt _ _)) by (cbn [length]; lia). apply sizeBytes_length.
Qed.

Lemma sizeInt_length tag v : zlen (putInt tag v) = sizeInt v.
Proof.
  unfold putInt, sizeInt. destruct (v =? 0); [done|]. cbn [negb length].
  rewrite <- sov_length by apply u64_range. lia.
Qed.

Lemma sizeBool_length tag b : zlen (putBool tag b) = sizeBool b.
Proof. by destruct b. Qed.

Lemma sum_length {A} tag (enc : A -> bytes) (size : A -> Z) xs :
  (forall x, zlen (enc x) = size x) ->
  zlen (mjoin ((fun x => putBytes tag (enc x)) <$> xs)) = sum ((fun x => sizeBytes (size x)) <$> xs).
Proof.
  intros Hs. induction xs as [|x xs IH]; [done|].
  assert (mjoin ((fun x => putBytes tag (enc x)) <$> x :: xs) =
    putBytes tag (enc x) ++ mjoin ((fun x => putBytes tag (enc x)) <$> xs)) as -> by done.
  rewrite length_app, Nat2Z.inj_add, IH, sizeBytes_length, Hs. done.
Qed.

Lemma KVPair_Size_length p : zlen (KVPair_Marshal p) = KVPair_Size p.
Proof.
  unfold KVPair_Marshal, KVPair_Size. rewrite !length_app, !Nat2Z.inj_add.
  rewrite sizeBool_length, !sizeBytesOpt_length. lia.
Qed.

Lemma NamedChangeSet_Size_length m : zlen (NamedChangeSet_Marshal m) = NamedChangeSet_Size m.
Proof.
  unfold NamedChangeSet_Marshal, NamedChangeSet_Size, ChangeSet_Marshal, ChangeSet_Size. rewrite length_app, Nat2Z.inj_add.
  rewrite sizeBytes_length, sizeBytesOpt_length.
  by rewrite (sum_length _ _ KVPair_Size) by apply KVPair_Size_length.
Qed.

Lemma TreeNameUpgrade_Size_length m : zlen (TreeNameUpgrade_Marshal m) = TreeNameUpgrade_Size m.
Proof.
  unfold TreeNameUpgrade_Marshal, TreeNameUpgrade_Size. rewrite !length_app, !Nat2Z.inj_add.
  rewrite sizeBool_length, !sizeBytesOpt_length. lia.
Qed.

Lemma StoreInfo_Size_length m : zlen (StoreInfo_Marshal m) = StoreInfo_Size m.
Proof.
  unfold StoreInfo_Marshal, StoreInfo_Size, CommitID_Marshal, CommitID_Size.
  rewrite length_app, Nat2Z.inj_add, sizeBytesOpt_length, sizeBytes_length, length_app, Nat2Z.inj_add.
  by rewrite sizeInt_length, sizeBytesOpt_length.
Qed.

(** ** Properties *)

(** Encoding a log entry and decoding it gives the entry back, with empty
    values read back as missing ones (which the trees store as the same empty
    value), and the buffer [Marshal] allocates has exactly the size of the
    encoding. *)
Theorem WALEntry_codec e :
  zlen (WALEntry_Marshal e) < 2 ^ 63 ->
  WALEntry_Unmarshal (WALEntry_Marshal e) = Ok (canon_entry e) /\
  WALEntry_Size e = zlen (WALEntry_Marshal e).
Proof.
  intros Hl. split; [by apply WALEntry_roundtrip|]. unfold WALEntry_Size, WALEntry_Marshal.
  rewrite length_app, Nat2Z.inj_add.
  rewrite (sum_length _ _ NamedChangeSet_Size) by apply NamedChangeSet_Size_length.
  by rewrite (sum_length _ _ TreeNameUpgrade_Size) by apply TreeNameUpgrade_Size_length.
Qed.

Definition ex_entry : WALEntry :=
  mkWALEntry [mkNamedCS "bank" [mkPair false [x01] (Some []); mkPair true [x02] None]]
    [mkUpgrade "acc" "" false].

Lemma WALEntry_codec_witness :
  WALEntry_Unmarshal (WALEntry_Marshal ex_entry) = Ok (canon_entry ex_entry) /\
  WALEntry_Size ex_entry = zlen (WALEntry_Marshal ex_entry).
Proof. apply WALEntry_codec. vm_compute. reflexivity. Defined.

(** Encoding the metadata of a snapshot and decoding it gives it back field for
    field, the commit info of every store included, and the allocated size is
    exact. *)
Theorem MultiTreeMetadata_codec m :
  metadata_valid m ->
  MultiTreeMetadata_Unmarshal (MultiTreeMetadata_Marshal m) = Ok m /\
  MultiTreeMetadata_Size m = zlen (MultiTreeMetadata_Marshal m).
Proof.
  intros Hv. split; [by apply MultiTreeMetadata_roundtrip|].
  unfold MultiTreeMetadata_Size, MultiTreeMetadata_Marshal. rewrite length_app, Nat2Z.inj_add, sizeInt_length.
  destruct (mdCommitInfo m) as [ci|]; [|done]. rewrite sizeBytes_length.
  unfold CommitInfo_Marshal, CommitInfo_Size. rewrite length_app, Nat2Z.inj_add, sizeInt_length.
  by rewrite (sum_length _ _ StoreInfo_Size) by apply StoreInfo_Size_length.
Qed.

Definition ex_metadata : MultiTreeMetadata :=
  mkMetadata (Some (mkCommitInfo 7 [mkStoreInfo "bank" (mkCommitID 7 [x0a; x0b])])) 1.

Lemma MultiTreeMetadata_codec_witness :
  MultiTreeMetadata_Unmarshal (MultiTreeMetadata_Marshal ex_metadata) = Ok ex_metadata /\
  MultiTreeMetadata_Size ex_metadata = zlen (MultiTreeMetadata_Marshal ex_metadata).
Proof.
  apply MultiTreeMetadata_codec. split; [|split].
  - split; [unfold int64_ok; cbn; lia|]. constructor; [unfold int64_ok; cbn; lia|constructor].
  - unfold int64_ok. cbn. lia.
  - vm_compute. reflexivity.
Defined.
