(* ===== verification/Iterator.v ===== *)
(** * The range iterator: [memiavl/iterator.go]

    The stack machine behind [Tree.Iterator], and the theorem that it yields
    exactly the pairs of the domain, in order, once each, and stops. *)

From S2P Require Import Prelude KV Node.

(** The stack is a list with its top first. *)
Record Iterator := mkIterator {
  start : option bytes;
  end_ : option bytes;
  ascending : bool;
  key : bytes;
  value : bytes;
  valid : bool;
  stack : list Node
}.

Fixpoint stackCount (st : list Node) : nat :=
  match st with [] => O | n :: st => nodeCount n + stackCount st end.

(** The loop of [Next]: each round pops a node, so as many rounds as there are
    nodes below the stack, and one more, are enough. *)
Fixpoint next_loop (fuel : nat) (it : Iterator) : Iterator :=
  match fuel with
  | O => it
  | S fuel =>
      match stack it with
      | [] => mkIterator (start it) (end_ it) (ascending it) (key it) (value it) false []
      | node :: st =>
          let k := Key node in
          let startCmp := bytes_compare (default [] (start it)) k in
          let afterStart := match start it with
                            | None => true
                            | Some _ => match startCmp with Lt => true | _ => false end
                            end in
          let beforeEnd := match end_ it with
                           | None => true
                           | Some e => bytes_ltb k e
                           end in
          match node with
          | Leaf _ _ v =>
              let startOrAfter :=
                afterStart || match startCmp with Eq => true | _ => false end in
              if startOrAfter && beforeEnd
              then mkIterator (start it) (end_ it) (ascending it) k v (valid it) st
              else next_loop fuel
                     (mkIterator (start it) (end_ it) (ascending it) (key it) (value it)
                        (valid it) st)
          | Branch _ _ _ _ l r =>
              let st :=
                if ascending it then
                  let st := if beforeEnd then r :: st else st in
                  if afterStart then l :: st else st
                else
                  let st := if afterStart then l :: st else st in
                  if beforeEnd then r :: st else st in
              next_loop fuel
                (mkIterator (start it) (end_ it) (ascending it) (key it) (value it)
                   (valid it) st)
          end
      end
  end.

Definition Next (it : Iterator) : Iterator := next_loop (S (stackCount (stack it))) it.

Definition NewIterator (start end_ : option bytes) (ascending : bool) (root : option Node)
    : Iterator :=
  Next (mkIterator start end_ ascending [] [] true
          match root with Some r => [r] | None => [] end).

Definition Domain (it : Iterator) : option bytes * option bytes := (start it, end_ it).

Definition Valid (it : Iterator) : bool := valid it.

Definition CloseIterator (it : Iterator) : Iterator :=
  mkIterator (start it) (end_ it) (ascending it) (key it) (value it) false [].

(** [for ; it.Valid(); it.Next() { yield it.Key(), it.Value() }], at most [n]
    times. *)
Fixpoint drain (n : nat) (it : Iterator) : kvs :=
  match n with
  | O => []
  | S n => if Valid it then (key it, value it) :: drain n (Next it) else []
  end.

(** ** What is left to yield *)

Definition direction (asc : bool) (l : kvs) : kvs := if asc then l else rev l.

Definition pending (it : Iterator) : kvs :=
  mjoin ((fun n => direction (ascending it) (kv_range (start it) (end_ it) (to_list n)))
         <$> stack it).

Definition stack_wf (it : Iterator) : Prop := Forall wf (stack it).

Lemma direction_app asc l1 l2 :
  direction asc (l1 ++ l2) =
  if asc then direction asc l1 ++ direction asc l2 else direction asc l2 ++ direction asc l1.
Proof. destruct asc; [done|]. apply rev_app_distr. Qed.

Lemma in_domain_after s e k :
  in_domain (Some s) e k = true -> s <=b k.
Proof. unfold in_domain. destruct (bytes_ltb_spec k s); [done|auto]. Qed.

(** A child that is not pushed has nothing in the domain. *)
Lemma left_pruned s e h sz v k l r :
  wf (Branch h sz v k l r) -> bytes_compare s k <> Lt -> kv_range (Some s) e (to_list l) = [].
Proof.
  intros (_&_&_&_&Hl&_)%wf_branch Hc. apply kv_range_empty. intros x Hx. specialize (Hl x Hx).
  unfold in_domain. destruct (bytes_ltb_spec x s) as [|Hle]; [done|].
  exfalso. change (~ s <b k) in Hc. bytes_order.
Qed.

Lemma right_pruned s e h sz v k l r :
  wf (Branch h sz v k l r) -> bytes_ltb k e = false -> kv_range s (Some e) (to_list r) = [].
Proof.
  intros (_&_&_&_&_&Hr)%wf_branch Hc. apply kv_range_empty. intros x Hx. specialize (Hr x Hx).
  unfold in_domain. destruct (bytes_ltb_spec k e) as [|Hle]; [done|].
  destruct (bytes_ltb_spec x e); [exfalso; bytes_order|]. apply andb_false_r.
Qed.

Lemma leaf_domain s e v k x :
  kv_range s e (to_list (Leaf v k x)) =
  if (match s with
      | None => true
      | Some _ => match bytes_compare (default [] s) k with Lt => true | _ => false end
      end || match bytes_compare (default [] s) k with Eq => true | _ => false end) &&
     match e with None => true | Some e => bytes_ltb k e end
  then [(k, x)] else [].
Proof.
  unfold kv_range. cbn [to_list]. rewrite filter_cons, filter_nil. cbn [fst].
  assert (in_domain s e k =
    (match s with
     | None => true
     | Some _ => match bytes_compare (default [] s) k with Lt => true | _ => false end
     end || match bytes_compare (default [] s) k with Eq => true | _ => false end) &&
    match e with None => true | Some e => bytes_ltb k e end) as ->.
  { unfold in_domain. f_equal. destruct s as [s|]; [|done]. simpl.
    destruct (bytes_compare_spec s k), (bytes_ltb_spec k s); try done; subst;
      exfalso; bytes_order. }
  by destruct (_ && _).
Qed.

(** Pushing the children of a branch keeps what is pending. *)
Lemma push_children s e h sz v k l r (asc : bool) (st : list Node) :
  wf (Branch h sz v k l r) ->
  let f := fun n => direction asc (kv_range s e (to_list n)) in
  let after := match s with
               | None => true
               | Some _ => match bytes_compare (default [] s) k with Lt => true | _ => false end
               end in
  let before := match e with None => true | Some e => bytes_ltb k e end in
  mjoin (f <$> (if asc then
                  let st := if before then r :: st else st in
                  if after : bool then l :: st else st
                else
                  let st := if after then l :: st else st in
                  if before : bool then r :: st else st)) =
  f (Branch h sz v k l r) ++ mjoin (f <$> st).
Proof.
  intros Hwf f after before.
  assert (after = false -> f l = []) as Hl.
  { intros Ha. unfold f. destruct s as [s|]; [|done].
    rewrite (left_pruned s e h sz v k l r Hwf); [by destruct asc|].
    subst after. simpl in Ha. by destruct (bytes_compare s k). }
  assert (before = false -> f r = []) as Hr.
  { intros Hb. unfold f. destruct e as [e|]; [|done].
    rewrite (right_pruned s e h sz v k l r Hwf); [by destruct asc|done]. }
  assert (f (Branch h sz v k l r) = if asc then f l ++ f r else f r ++ f l) as ->.
  { unfold f. cbn [to_list]. rewrite kv_range_app. apply direction_app. }
  destruct after, before, asc; simpl;
    rewrite ?(Hl eq_refl), ?(Hr eq_refl), ?app_nil_r, <- ?app_assoc; done.
Qed.

(** What [Next] leaves, given what was pending. *)
Definition next_post (it it' : Iterator) : Prop :=
  stack_wf it' /\ start it' = start it /\ end_ it' = end_ it /\ ascending it' = ascending it /\
  match pending it with
  | [] => valid it' = false
  | (k, v) :: rest => key it' = k /\ value it' = v /\ valid it' = valid it /\ pending it' = rest
  end.

Lemma push_wf_count (asc after before : bool) l r (st : list Node) :
  wf l -> wf r -> Forall wf st ->
  let st' := if asc then
               let st := if before then r :: st else st in
               if after then l :: st else st
             else
               let st := if after then l :: st else st in
               if before then r :: st else st in
  Forall wf st' /\ (stackCount st' <= nodeCount l + nodeCount r + stackCount st)%nat.
Proof.
  intros Hl Hr Hst.
  destruct asc, after, before; simpl; (split; [rewrite ?Forall_cons; tauto|lia]).
Qed.

Lemma next_loop_correct fuel it :
  stack_wf it -> (stackCount (stack it) < fuel)%nat -> next_post it (next_loop fuel it).
Proof.
  revert it. induction fuel as [|fuel IH]; intros [s e asc k0 v0 va st] Hwf Hf;
    cbn [stack] in *; [lia|].
  unfold stack_wf in Hwf. cbn [stack] in Hwf.
  destruct st as [|node st]; [by split_and!|].
  apply Forall_cons in Hwf as [Hn Hst]. cbn [stackCount] in Hf.
  cbn [next_loop stack start end_ ascending key value valid].
  destruct node as [v k x|h sz v k l r]; cbn [Key].
  - unfold next_post, pending. cbn [stack start end_ ascending fmap list_fmap mjoin list_join].
    rewrite leaf_domain. destruct (_ && _).
    + destruct asc; by split_and!.
    + assert (direction asc [] = []) as -> by (by destruct asc).
      apply (IH (mkIterator s e asc k0 v0 va st)); [done|]. cbn [stack nodeCount] in *. lia.
  - pose proof (wf_branch _ _ _ _ _ _ Hn) as (Wl & Wr & _).
    pose proof (push_children s e h sz v k l r asc st Hn) as Hpush.
    cbn zeta in Hpush. cbn zeta. cbn [nodeCount] in Hf.
    match goal with |- next_post _ (next_loop _ (mkIterator _ _ _ _ _ _ ?st')) =>
      set (st2 := st') in * end.
    assert (Forall wf st2 /\ (stackCount st2 <= nodeCount l + nodeCount r + stackCount st)%nat)
      as [Hwf2 Hc2] by (apply push_wf_count; done).
    destruct (IH (mkIterator s e asc k0 v0 va st2)) as (P1 & P2 & P3 & P4 & P5);
      [done|cbn [stack]; lia|].
    split_and!; try done. revert P5. unfold pending at 1 3.
    cbn [start end_ ascending stack]. rewrite Hpush. done.
Qed.

Lemma Next_correct it : stack_wf it -> next_post it (Next it).
Proof. intros H. apply next_loop_correct; [done|lia]. Qed.

Lemma drain_correct n it :
  stack_wf it -> valid it = true -> (length (pending it) < n)%nat ->
  drain n it = (key it, value it) :: pending it.
Proof.
  revert it. induction n as [|n IH]; intros it Hwf Hv Hn; [lia|].
  cbn [drain]. unfold Valid. rewrite Hv. f_equal.
  destruct (Next_correct it Hwf) as (P1 & _ & _ & _ & P5).
  destruct (pending it) as [|[k v] rest] eqn:E.
  - destruct n; simpl; [done|]. unfold Valid. by rewrite P5.
  - destruct P5 as (Ek & Ev & Eva & Er). rewrite IH; [by rewrite Ek, Ev, Er|done|congruence|].
    rewrite Er. simpl in Hn. lia.
Qed.

(** ** Properties *)

Lemma drain_range start end_ (ascending : bool) root n :
  wf_root root -> (length (content root) < n)%nat ->
  drain n (NewIterator start end_ ascending root) =
  (if ascending then id else @rev (bytes * bytes)) (kv_range start end_ (content root)).
Proof.
  intros Hwf Hn. unfold NewIterator.
  set (it := mkIterator start end_ ascending [] [] true _).
  assert (stack_wf it) as Hst.
  { unfold stack_wf, it. destruct root; simpl; [by apply Forall_singleton|constructor]. }
  assert (pending it = direction ascending (kv_range start end_ (content root))) as Ep.
  { unfold pending, it. destruct root; simpl; [by rewrite app_nil_r|by destruct ascending]. }
  destruct (Next_correct it Hst) as (P1 & P2 & P3 & P4 & P5).
  rewrite Ep in P5.
  assert (length (direction ascending (kv_range start end_ (content root))) <= length (content root))%nat
    as Hlen.
  { assert (length (kv_range start end_ (content root)) <= length (content root))%nat
      by apply length_filter.
    destruct ascending; simpl; rewrite ?length_rev; done. }
  transitivity (direction ascending (kv_range start end_ (content root)));
    [|by destruct ascending].
  destruct (direction ascending (kv_range start end_ (content root))) as [|[k v] rest].
  - destruct n; simpl; [done|]. unfold Valid. by rewrite P5.
  - destruct P5 as (Ek & Ev & Eva & Er). rewrite drain_correct; [by rewrite Ek, Ev, Er|done|done|].
    rewrite Er. simpl in Hlen. lia.
Qed.

(** C29: iterating a tree over a domain from the first [Valid] to the end yields
    exactly the stored pairs whose keys are in [start <= key < end], each once,
    in ascending or descending key order, and then becomes invalid. *)
Theorem iterator_yields_range start end_ (ascending : bool) root n :
  wf_root root -> (length (content root) < n)%nat ->
  drain n (NewIterator start end_ ascending root) =
  (if ascending then id else @rev (bytes * bytes)) (kv_range start end_ (content root)).
Proof. apply drain_range. Qed.

Lemma iterator_yields_range_witness :
  drain 9 (NewIterator (Some [Byte.x02]) None false (Some ex3)) =
  [([Byte.x03], [Byte.x0c]); ([Byte.x02], [Byte.x0b])].
Proof.
  refine (iterator_yields_range (Some [Byte.x02]) None false (Some ex3) 9 ex3_wf _).
  simpl. lia.
Defined.
