(* ===== verification/Ics23.v ===== *)
(** * ICS-23 proofs: [memiavl/proof.go]

    Existence and non-existence proofs are built from the path to a leaf.  The
    verifier is the [ics23] package, code outside this repository: the two
    operations it applies, [LeafOp.Apply] and [InnerOp.Apply], are parameters
    with the behaviour the ICS-23 specification gives them, and the theorems
    say that the proofs this code makes evaluate to the root hash. *)

From S2P Require Import Prelude KV Binary Sha256 Node Hash Tree.

Open Scope string_scope.
Open Scope Z_scope.
Open Scope list_scope.

(** ** Proof objects *)

(** [iavl.ProofInnerNode]; a nil hash is the empty list. *)
Record ProofInnerNode := mkInner {
  piHeight : Z;
  piSize : Z;
  piVersion : Z;
  piLeft : bytes;
  piRight : bytes
}.

Inductive HashOp := NO_HASH | SHA256.
Inductive LengthOp := NO_PREFIX | VAR_PROTO.

Record LeafOp := mkLeafOp {
  lHash : HashOp;
  lPrehashKey : HashOp;
  lPrehashValue : HashOp;
  lLength : LengthOp;
  lPrefix : bytes
}.

Record InnerOp := mkInnerOp { iHash : HashOp; iPrefix : bytes; iSuffix : bytes }.

Record ExistenceProof := mkExist {
  exKey : bytes;
  exValue : option bytes;
  exLeaf : LeafOp;
  exPath : list InnerOp
}.

Record NonExistenceProof := mkNonExist {
  neKey : bytes;
  neLeft : option ExistenceProof;
  neRight : option ExistenceProof
}.

(** ** Construction *)

Definition convertVarIntToBytes (orig : Z) : bytes := PutVarint orig.

Definition convertLeafOp (version : Z) : LeafOp :=
  mkLeafOp SHA256 NO_HASH SHA256 VAR_PROTO
    (convertVarIntToBytes 0 ++ convertVarIntToBytes 1 ++ convertVarIntToBytes version).

Definition lengthByte : byte := Byte.x20.

Definition convertInnerOp (n : ProofInnerNode) : InnerOp :=
  let prefix := convertVarIntToBytes (piHeight n) ++ convertVarIntToBytes (piSize n) ++
                convertVarIntToBytes (piVersion n) in
  if (0 <? length (piLeft n))%nat
  then mkInnerOp SHA256 (prefix ++ [lengthByte] ++ piLeft n ++ [lengthByte]) []
  else mkInnerOp SHA256 (prefix ++ [lengthByte]) ([lengthByte] ++ piRight n).

(** From the leaf up to the root. *)
Definition convertInnerOps (path : list ProofInnerNode) : list InnerOp :=
  convertInnerOp <$> rev path.

(** The path from the root down, the leaf reached, and the error. *)
Fixpoint pathToLeaf (node : Node) (key : bytes) (path : list ProofInnerNode)
    : list ProofInnerNode * Node * option error :=
  match node with
  | Leaf _ nodeKey _ =>
      if bytes_eqb nodeKey key then (path, node, None)
      else (path, node, Some "key does not exist")
  | Branch height size version nodeKey l r =>
      if bytes_ltb key nodeKey
      then pathToLeaf l key (path ++ [mkInner (i8 height) size version [] (HashNode r)])
      else pathToLeaf r key (path ++ [mkInner (i8 height) size version (HashNode l) []])
  end.

(** [createExistenceProof]; [None] is the nil dereference on an empty tree. *)
Definition createExistenceProof (root : option Node) (key : bytes)
    : option (ExistenceProof * option error) :=
  root ← root;
  let '(path, node, err) := pathToLeaf root key [] in
  Some (mkExist (Key node) (Value node) (convertLeafOp (Version node)) (convertInnerOps path), err).

Section Construction.
Context {C : Type}.

Definition GetMembershipProof (t : Tree C) (key : bytes) : option (result ExistenceProof) :=
  '(p, err) ← createExistenceProof (treeRoot t) key;
  match err with
  | Some e => Some (Err e)
  | None => Some (Ok p)
  end.

(** One neighbour of a non-existence proof. *)
Definition neighbour (t : Tree C) (k : option bytes) : option (result (option ExistenceProof)) :=
  match k with
  | None => Some (Ok None)
  | Some k =>
      '(p, err) ← createExistenceProof (treeRoot t) k;
      match err with Some e => Some (Err e) | None => Some (Ok (Some p)) end
  end.

Definition GetNonMembershipProof (t : Tree C) (key : bytes)
    : option (result NonExistenceProof) :=
  let '(idx, val) := GetWithIndex t key in
  match val with
  | Some _ => Some (Err "cannot create NonExistanceProof when Key in State")
  | None =>
      pl ← (if 1 <=? idx
            then neighbour t (Some (default [] (fst <$> TreeGetByIndex t (idx - 1))))
            else Some (Ok None));
      match pl with
      | Err e => Some (Err e)
      | Ok pl =>
          pr ← neighbour t (fst <$> TreeGetByIndex t idx);
          match pr with
          | Err e => Some (Err e)
          | Ok pr => Some (Ok (mkNonExist key pl pr))
          end
      end
  end.
End Construction.

(** ** Evaluation by the ICS-23 verifier *)

Section Verifier.
(** [LeafOp.Apply] and [InnerOp.Apply] of [ics23]. *)
Context (leafApply : LeafOp -> bytes -> bytes -> option bytes).
Context (innerApply : InnerOp -> bytes -> option bytes).

(** The ICS-23 specification of the two operations, for the operations this
    code emits. *)
Definition leaf_spec : Prop := forall prefix k v,
  k <> [] -> v <> [] ->
  leafApply (mkLeafOp SHA256 NO_HASH SHA256 VAR_PROTO prefix) k v =
  Some (Sha256.Sum256 (prefix ++ PutUvarint (u64 (zlen k)) ++ k ++
                       PutUvarint (u64 (zlen (Sha256.Sum256 v))) ++ Sha256.Sum256 v)).

Definition inner_spec : Prop := forall prefix suffix child,
  child <> [] ->
  innerApply (mkInnerOp SHA256 prefix suffix) child =
  Some (Sha256.Sum256 (prefix ++ child ++ suffix)).

(** [ExistenceProof.Calculate]: the root a proof commits to. *)
Definition Calculate (p : ExistenceProof) : option bytes :=
  v ← exValue p;
  h ← leafApply (exLeaf p) (exKey p) v;
  foldl (fun h op => h ← h; innerApply op h) (Some h) (exPath p).

(** ** Lemmas *)

Lemma EncodeBytes_hash h : length h = 32%nat -> EncodeBytes h = lengthByte :: h.
Proof. intros E. unfold EncodeBytes. rewrite E. with_strategy transparent [PutUvarint] done. Qed.

(** Heights fit the [int8] of a proof node and fields their Go types. *)
Definition provable (n : Node) : Prop := avl n /\ Size n < 2 ^ 32.

Lemma provable_height n : provable n -> i8 (Height n) = Height n.
Proof.
  intros [Ha Hs]. pose proof (avl_height_bound n Ha ltac:(lia)). pose proof (avl_pos n Ha).
  apply i8_id. lia.
Qed.

Lemma inner_hash (left_side : bool) h s v k l r :
  inner_spec -> provable (Branch h s v k l r) ->
  innerApply
    (convertInnerOp (if left_side then mkInner (i8 h) s v [] (HashNode r)
                     else mkInner (i8 h) s v (HashNode l) []))
    (HashNode (if left_side then l else r)) =
  Some (HashNode (Branch h s v k l r)).
Proof.
  intros Hi Hp. pose proof (provable_height _ Hp) as Hh. cbn [Height] in Hh.
  pose proof (length_HashNode l). pose proof (length_HashNode r).
  rewrite (HashNode_preimage (Branch h s v k l r)). cbn [preimage]. unfold writeHashBytes.
  rewrite !EncodeBytes_hash by done.
  unfold convertInnerOp, convertVarIntToBytes.
  destruct left_side; cbn [piLeft piRight piHeight piSize piVersion length];
    rewrite ?(length_HashNode l), Hh; cbn [Nat.ltb Nat.leb];
    rewrite Hi by (intros E; apply (f_equal length) in E; rewrite length_HashNode in E; done);
    cbn [Height Size Version]; rewrite ?app_nil_r, <- !app_assoc; reflexivity.
Qed.

Lemma leaf_hash v k x :
  leaf_spec -> k <> [] -> x <> [] ->
  leafApply (convertLeafOp v) k x = Some (HashNode (Leaf v k x)).
Proof.
  intros Hl Hk Hx. unfold convertLeafOp. rewrite Hl by done.
  rewrite HashNode_preimage. cbn [preimage]. unfold writeHashBytes, EncodeBytes.
  cbn [Height Size Version]. by rewrite <- !app_assoc.
Qed.

Lemma provable_children h s v k l r :
  provable (Branch h s v k l r) -> provable l /\ provable r.
Proof.
  intros [(Al & Ar & _ & Es & _) Hs]. pose proof (avl_pos _ Al). pose proof (avl_pos _ Ar).
  cbn [Size] in Hs. split; split; (done || lia).
Qed.

(** The whole path evaluates to the root, starting from the leaf's hash. *)
Lemma pathToLeaf_calc node key path path' leaf err :
  inner_spec -> provable node ->
  pathToLeaf node key path = (path', leaf, err) ->
  IsLeaf leaf = true /\
  exists ext, path' = path ++ ext /\
    foldl (fun h op => h ← h; innerApply op h) (Some (HashNode leaf)) (convertInnerOps ext) =
    Some (HashNode node).
Proof.
  intros Hi. revert path. induction node as [v k x|h s v k l IHl r IHr]; intros path Hp E.
  - simpl in E. destruct (bytes_eqb k key); injection E as <- <- <-;
      (split; [done|]); exists []; by rewrite app_nil_r.
  - destruct (provable_children _ _ _ _ _ _ Hp) as [Pl Pr]. cbn [pathToLeaf] in E.
    destruct (bytes_ltb key k).
    + destruct (IHl _ Pl E) as (HL & ext & -> & Hf). split; [done|].
      eexists. split; [by rewrite <- app_assoc|]. unfold convertInnerOps in *. simpl.
      rewrite fmap_app, foldl_app, Hf. simpl.
      by apply (inner_hash true).
    + destruct (IHr _ Pr E) as (HL & ext & -> & Hf). split; [done|].
      eexists. split; [by rewrite <- app_assoc|]. unfold convertInnerOps in *. simpl.
      rewrite fmap_app, foldl_app, Hf. simpl.
      by apply (inner_hash false).
Qed.

(** The leaf a key leads to holds the key exactly when the tree does. *)
Lemma pathToLeaf_leaf node key path :
  wf node ->
  match kv_get key (to_list node) with
  | Some v => exists path' ver, pathToLeaf node key path = (path', Leaf ver key v, None)
  | None => exists path' leaf, pathToLeaf node key path = (path', leaf, Some "key does not exist")
  end.
Proof.
  revert path. induction node as [v k x|h s v k l IHl r IHr]; intros path Hwf.
  - cbn [to_list kv_get pathToLeaf]. destruct (bytes_eqb key k) eqn:E.
    + apply bytes_eqb_eq in E as ->. rewrite bytes_eqb_refl. by do 2 eexists.
    + apply bytes_eqb_neq in E. rewrite (proj2 (bytes_eqb_neq k key)) by done. by do 2 eexists.
  - apply wf_branch in Hwf as (Wl & Wr & _ & _ & Hl & Hr).
    cbn [to_list pathToLeaf]. rewrite kv_get_app. destruct (bytes_ltb_spec key k) as [Hlt|Hge].
    + rewrite (proj2 (kv_get_None key (to_list r))).
      2: { intros Hx. specialize (Hr _ Hx). bytes_order. }
      specialize (IHl (path ++ [mkInner (i8 h) s v [] (HashNode r)]) Wl).
      by destruct (kv_get key (to_list l)).
    + rewrite (proj2 (kv_get_None key (to_list l))); [by apply IHr|].
      intros Hx. specialize (Hl _ Hx). bytes_order.
Qed.

(** What an existence proof of a pair is good for. *)
Definition proves (root : bytes) (kv : bytes * bytes) (p : ExistenceProof) : Prop :=
  exKey p = kv.1 /\ exValue p = Some kv.2 /\
  (kv.1 <> [] -> kv.2 <> [] -> Calculate p = Some root).

Lemma createExistenceProof_ok n key v :
  leaf_spec -> inner_spec -> wf n -> Size n < 2 ^ 32 ->
  kv_get key (to_list n) = Some v ->
  exists p, createExistenceProof (Some n) key = Some (p, None) /\ proves (HashNode n) (key, v) p.
Proof.
  intros Hl Hi Hwf Hs Hg. pose proof (pathToLeaf_leaf n key [] Hwf) as Hp. rewrite Hg in Hp.
  destruct Hp as (path & ver & E). unfold createExistenceProof. cbn [mbind option_bind].
  rewrite E. eexists. split; [done|]. split; [done|]. split; [done|]. cbn [fst snd]. intros Hk Hv.
  destruct (pathToLeaf_calc _ _ _ _ _ _ Hi (conj (proj1 Hwf) Hs) E) as (_ & ext & -> & Hf).
  unfold Calculate. cbn [exValue exKey exLeaf exPath Key Value Version mbind option_bind].
  by rewrite leaf_hash.
Qed.
End Verifier.

(** ** The proofs a tree gives *)

Section Proofs.
Context {C : Type}.
Context (leafApply : LeafOp -> bytes -> bytes -> option bytes).
Context (innerApply : InnerOp -> bytes -> option bytes).

(** The proof of the pair at one end of a list: none when there is no pair. *)
Definition proves_opt (root : bytes) (kv : option (bytes * bytes)) (p : option ExistenceProof)
    : Prop :=
  match kv, p with
  | None, None => True
  | Some kv, Some p => proves leafApply innerApply root kv p
  | _, _ => False
  end.

Lemma neighbour_ok (t : Tree C) i :
  leaf_spec leafApply -> inner_spec innerApply ->
  wf_root (treeRoot t) -> zlen (content (treeRoot t)) < 2 ^ 32 -> 0 <= i < 2 ^ 32 ->
  exists p, neighbour t (fst <$> TreeGetByIndex t i) = Some (Ok p) /\
    TreeGetByIndex t i = content (treeRoot t) !! Z.to_nat i /\
    proves_opt (RootHash t) (content (treeRoot t) !! Z.to_nat i) p.
Proof.
  intros Hl Hi Hwf Hs Hb. unfold TreeGetByIndex, RootHash.
  rewrite (proj2 (Z.ltb_ge _ _)) by (unfold MaxUint32; lia). rewrite u32_id by lia.
  destruct (treeRoot t) as [r|] eqn:E; cbn [content wf_root] in *; [|by exists None].
  pose proof (avl_size r ltac:(apply Hwf)) as Es.
  rewrite GetByIndex_correct; [|apply Hwf|lia|lia].
  destruct (to_list r !! Z.to_nat i) as [[k v]|] eqn:Ei; [|by exists None].
  assert (kv_get k (to_list r) = Some v) as Hg by (eapply kv_get_lookup; [apply Hwf|done]).
  destruct (createExistenceProof_ok leafApply innerApply r k v) as (p & Ep & Hp); try done; [lia|].
  exists (Some p). split; [|done]. cbn [fmap option_fmap option_map neighbour fst].
  by rewrite E, Ep.
Qed.
End Proofs.

(** The operations as the ICS-23 specification computes them. *)
Definition apply_hash (h : HashOp) (b : bytes) : bytes :=
  match h with NO_HASH => b | SHA256 => Sha256.Sum256 b end.

Definition apply_length (o : LengthOp) (b : bytes) : bytes :=
  match o with NO_PREFIX => b | VAR_PROTO => PutUvarint (u64 (zlen b)) ++ b end.

Definition leafApply_spec (op : LeafOp) (k v : bytes) : option bytes :=
  if bool_decide (k = []) || bool_decide (v = []) then None
  else Some (apply_hash (lHash op)
         (lPrefix op ++ apply_length (lLength op) (apply_hash (lPrehashKey op) k) ++
          apply_length (lLength op) (apply_hash (lPrehashValue op) v))).

Definition innerApply_spec (op : InnerOp) (child : bytes) : option bytes :=
  if bool_decide (child = []) then None
  else Some (apply_hash (iHash op) (iPrefix op ++ child ++ iSuffix op)).

Lemma leafApply_spec_ok : leaf_spec leafApply_spec.
Proof.
  intros p k v Hk Hv. unfold leafApply_spec. rewrite !bool_decide_false by done.
  cbn [orb apply_hash apply_length lHash lPrehashKey lPrehashValue lLength lPrefix].
  by rewrite <- !app_assoc.
Qed.

Lemma innerApply_spec_ok : inner_spec innerApply_spec.
Proof. intros p s c Hc. unfold innerApply_spec. by rewrite bool_decide_false. Qed.

(** ** Properties *)

(** On a well-formed tree [GetMembershipProof] returns, for a key that is
    present, a proof that carries the key and its value and evaluates to the
    tree's root hash under the ICS-23 operations, and the error of a missing
    key otherwise. *)
Lemma GetMembershipProof_ok {C} leafApply innerApply (t : Tree C) n key :
  leaf_spec leafApply -> inner_spec innerApply ->
  treeRoot t = Some n -> wf n -> zlen (to_list n) < 2 ^ 32 ->
  match kv_get key (to_list n) with
  | Some v => exists p, GetMembershipProof t key = Some (Ok p) /\
                proves leafApply innerApply (RootHash t) (key, v) p
  | None => GetMembershipProof t key = Some (Err "key does not exist")
  end.
Proof.
  intros Hl Hi E Hwf Hs. pose proof (avl_size n (proj1 Hwf)) as Es.
  unfold GetMembershipProof, RootHash. rewrite E.
  destruct (kv_get key (to_list n)) as [v|] eqn:Hg.
  - destruct (createExistenceProof_ok _ _ n key v Hl Hi Hwf ltac:(lia) Hg) as (p & Ep & Hp).
    exists p. by rewrite Ep.
  - pose proof (pathToLeaf_leaf n key [] Hwf) as Hp. rewrite Hg in Hp.
    destruct Hp as (path & leaf & Ep). unfold createExistenceProof.
    cbn [mbind option_bind]. by rewrite Ep.
Qed.

Lemma GetMembershipProof_example :
  exists p, GetMembershipProof ex_tree [Byte.x02] = Some (Ok p) /\
    proves leafApply_spec innerApply_spec (RootHash ex_tree) ([Byte.x02], [Byte.x0b]) p.
Proof.
  exact (GetMembershipProof_ok leafApply_spec innerApply_spec ex_tree ex3 [Byte.x02]
           leafApply_spec_ok innerApply_spec_ok eq_refl ex3_wf eq_refl).
Defined.

(** [GetNonMembershipProof] succeeds exactly for absent keys, on the empty
    tree too.  The store splits at the key into the smaller and the larger
    pairs; the left proof proves the last of the smaller ones, the right proof
    the first of the larger ones, and a side without a pair has no proof. *)
Lemma GetNonMembershipProof_ok {C} leafApply innerApply (t : Tree C) key :
  leaf_spec leafApply -> inner_spec innerApply ->
  wf_root (treeRoot t) -> zlen (content (treeRoot t)) < 2 ^ 32 ->
  match kv_get key (content (treeRoot t)) with
  | Some _ => GetNonMembershipProof t key =
                Some (Err "cannot create NonExistanceProof when Key in State")
  | None => exists p l1 l2,
      GetNonMembershipProof t key = Some (Ok p) /\ neKey p = key /\
      content (treeRoot t) = l1 ++ l2 /\
      (forall k, k ∈ keys l1 -> k <b key) /\ (forall k, k ∈ keys l2 -> key <b k) /\
      proves_opt leafApply innerApply (RootHash t) (last l1) (neLeft p) /\
      proves_opt leafApply innerApply (RootHash t) (head l2) (neRight p)
  end.
Proof.
  intros Hl Hi Hwf Hs. unfold GetNonMembershipProof.
  rewrite GetWithIndex_ok by done. set (c := content (treeRoot t)) in *.
  destruct (kv_get key c) as [v|] eqn:Hg; [done|].
  pose proof (kv_rank_bound key c) as Hb.
  destruct (kv_rank_split key c (content_sorted _ Hwf) Hg) as [H1 H2].
  destruct (neighbour_ok _ _ t (kv_rank key c) Hl Hi Hwf Hs ltac:(lia)) as (pr & Er & _ & Hr).
  fold c in Hr.
  assert (exists pl, (if 1 <=? kv_rank key c
     then neighbour t (Some (default [] (fst <$> TreeGetByIndex t (kv_rank key c - 1))))
     else Some (Ok None)) = Some (Ok pl) /\
     proves_opt leafApply innerApply (RootHash t) (last (take (Z.to_nat (kv_rank key c)) c)) pl)
    as (pl & El & Hpl).
  { destruct (Z.leb_spec 1 (kv_rank key c)).
    - destruct (neighbour_ok _ _ t (kv_rank key c - 1) Hl Hi Hwf Hs ltac:(lia)) as (p & Ep & Eg & Hp).
      fold c in Eg, Hp. exists p. rewrite last_take_lookup by lia.
      replace (pred (Z.to_nat (kv_rank key c))) with (Z.to_nat (kv_rank key c - 1)) by lia.
      split; [|done]. rewrite <- Ep, Eg.
      destruct (lookup_lt_is_Some_2 c (Z.to_nat (kv_rank key c - 1))) as [kv Hkv]; [lia|].
      by rewrite Hkv.
    - exists None. by replace (Z.to_nat (kv_rank key c)) with O by lia. }
  exists (mkNonExist key pl pr), (take (Z.to_nat (kv_rank key c)) c), (drop (Z.to_nat (kv_rank key c)) c).
  rewrite El. cbn [mbind option_bind]. rewrite Er. cbn [neLeft neRight neKey].
  rewrite take_drop, head_drop. done.
Qed.

Lemma GetNonMembershipProof_example :
  exists p l1 l2,
    GetNonMembershipProof ex_tree [Byte.x02; Byte.x00] = Some (Ok p) /\
    neKey p = [Byte.x02; Byte.x00] /\ to_list ex3 = l1 ++ l2 /\
    (forall k, k ∈ keys l1 -> k <b [Byte.x02; Byte.x00]) /\
    (forall k, k ∈ keys l2 -> [Byte.x02; Byte.x00] <b k) /\
    proves_opt leafApply_spec innerApply_spec (RootHash ex_tree) (last l1) (neLeft p) /\
    proves_opt leafApply_spec innerApply_spec (RootHash ex_tree) (head l2) (neRight p).
Proof.
  exact (GetNonMembershipProof_ok leafApply_spec innerApply_spec ex_tree
           [Byte.x02; Byte.x00] leafApply_spec_ok innerApply_spec_ok ex3_wf eq_refl).
Defined.
