(* ===== verification/Export.v ===== *)
(** * Exporting a tree: [memiavl/export.go], [Tree.ScanPostOrder],
    [Tree.Export] and [Snapshot.export]

    The nodes of a tree in post-order, by the stack machine over the tree and
    by the sequential scan of the snapshot files, and the exporter that moves
    them through a channel from the worker goroutine to its reader. *)

From S2P Require Import Prelude KV Binary Sha256 Node Hash Snapshot Persisted Tree.

(** [iavl.ExportNode]; the value of a branch is nil. *)
Record ExportNode := mkExport {
  eKey : bytes;
  eValue : option bytes;
  eVersion : Z;
  eHeight : Z
}.

(** ** Post-order traversal *)

Record stackEntry := mkEntry { entryNode : Node; expanded : bool }.

(** The loop of [ScanPostOrder], the stack with its top first: the nodes the
    callback is called on. *)
Fixpoint scan_loop (fuel : nat) (st : list stackEntry) : list Node :=
  match fuel, st with
  | S fuel, mkEntry node expanded :: rest =>
      match node with
      | Branch _ _ _ _ l r =>
          if expanded then node :: scan_loop fuel rest
          else scan_loop fuel (mkEntry l false :: mkEntry r false :: mkEntry node true :: rest)
      | Leaf _ _ _ => node :: scan_loop fuel rest
      end
  | _, _ => []
  end.

(** A branch is on top of the stack twice and a leaf once, so twice the number
    of nodes is enough fuel. *)
Definition ScanPostOrder (root : option Node) : list Node :=
  match root with
  | None => []
  | Some n => scan_loop (2 * nodeCount n) [mkEntry n false]
  end.

Definition exportNode (node : Node) : ExportNode :=
  mkExport (Key node) (Value node) (Version node) (i8 (Height node)).

(** ** Sequential scan of a snapshot *)

Section Scan.
Context (s : Snapshot).
(** What the callback answers after the given nodes: [true] stops the scan. *)
Context (stop : list ExportNode -> bool).

(** The leaf the inner loop reads. *)
Definition exportLeaf (j : Z) : option ExportNode :=
  leaf ← LeafLayout s j;
  off ← leafKeyOffset leaf;
  '(key, value) ← SnapKeyValue s off;
  ver ← leafVersion leaf;
  Some (mkExport key (Some value) ver 0).

(** [for pendingTrees < PreTrees + 2]: [n] more leaves; the flag tells that the
    callback stopped the scan. *)
Fixpoint fill (n : nat) (j : Z) (acc : list ExportNode) : option (Z * list ExportNode * bool) :=
  match n with
  | O => Some (j, acc, false)
  | S n =>
      enode ← exportLeaf j;
      let acc := acc ++ [enode] in
      if stop acc then Some (j, acc, true) else fill n (u32 (j + 1)) acc
  end.

(** The loop over the branch records, [n] of them left. *)
Fixpoint export_loop (n : nat) (i j pendingTrees : Z) (acc : list ExportNode)
    : option (Z * Z * list ExportNode * bool) :=
  match n with
  | O => Some (j, pendingTrees, acc, false)
  | S n =>
      node ← NodeLayout s i;
      pre ← layoutPreTrees node;
      '(j, acc, stopped) ← fill (Z.to_nat (pre + 2 - pendingTrees)) j acc;
      if (stopped : bool) then Some (j, pendingTrees, acc, true)
      else
        let pendingTrees := Z.max pendingTrees (pre + 2) in
        h ← layoutHeight node;
        ver ← layoutVersion node;
        keyLeaf ← layoutKeyLeaf node;
        key ← LeafKey s keyLeaf;
        let acc := acc ++ [mkExport key None ver (i8 h)] in
        if stop acc then Some (j, pendingTrees, acc, true)
        else export_loop n (u32 (i + 1)) j (pendingTrees - 1) acc
  end.

(** [Snapshot.export]: the nodes passed to the callback. *)
Definition export : option (list ExportNode) :=
  if leavesLen s =? 0 then Some []
  else if leavesLen s =? 1 then
    let leaf := mkPersisted true 0 in
    ver ← pVersion s leaf;
    key ← pKey s leaf;
    value ← pValue s leaf;
    Some [mkExport key value ver 0]
  else
    '(_, _, acc, _) ← export_loop (Z.to_nat (u32 (nodesLen s))) 0 0 0 [];
    Some acc.
End Scan.

Definition never {A} (_ : list A) : bool := false.

(** [Tree.Export]: the nodes the worker sends when it is not cancelled. *)
Definition Export {C} (t : Tree C) : option (list ExportNode) :=
  match snapshot t with
  | Some s => if version t =? snapVersion s then export s never
              else Some (exportNode <$> ScanPostOrder (treeRoot t))
  | None => Some (exportNode <$> ScanPostOrder (treeRoot t))
  end.

(** ** Reference: post-order *)

Fixpoint postorder (n : Node) : list Node :=
  match n with
  | Leaf _ _ _ => [n]
  | Branch _ _ _ _ l r => postorder l ++ postorder r ++ [n]
  end.

Definition postorder_root (n : option Node) : list Node :=
  match n with None => [] | Some n => postorder n end.

(** How often a subtree's nodes are on top of the stack. *)
Fixpoint visits (n : Node) : nat :=
  match n with
  | Leaf _ _ _ => 1
  | Branch _ _ _ _ l r => S (visits l + (visits r + 1))
  end.

Lemma visits_le n : (visits n <= 2 * nodeCount n)%nat.
Proof. induction n; simpl; lia. Qed.

Lemma scan_loop_postorder n fuel st :
  scan_loop (visits n + fuel) (mkEntry n false :: st) = postorder n ++ scan_loop fuel st.
Proof.
  revert fuel st. induction n as [v k x|h s v k l IHl r IHr]; intros fuel st; [done|].
  cbn [visits plus scan_loop]. rewrite <- Nat.add_assoc, IHl, <- Nat.add_assoc, IHr.
  cbn [postorder]. by rewrite <- !app_assoc.
Qed.

Lemma ScanPostOrder_postorder root : ScanPostOrder root = postorder_root root.
Proof.
  destruct root as [n|]; [|done]. cbn [ScanPostOrder postorder_root]. pose proof (visits_le n).
  replace (2 * nodeCount n)%nat with (visits n + (2 * nodeCount n - visits n))%nat by lia.
  rewrite scan_loop_postorder. destruct (2 * nodeCount n - visits n)%nat; apply app_nil_r.
Qed.

(** ** The sequential scan is the post-order *)

Section ScanProof.
Context (s : Snapshot).

(** The leaves from [j] up to [lc], read but not yet passed on. *)
Fixpoint unemitted (j : Z) (U : list ExportNode) : Prop :=
  match U with
  | [] => True
  | e :: U => exportLeaf s j = Some e /\ unemitted (j + 1) U
  end.

Lemma unemitted_snoc j U e :
  unemitted j U -> exportLeaf s (j + zlen U) = Some e -> unemitted j (U ++ [e]).
Proof.
  revert j. induction U as [|x U IH]; intros j; cbn [unemitted app length].
  - rewrite Z.add_0_r. done.
  - intros [Hx HU] He. split; [done|]. apply IH; [done|]. rewrite <- He. f_equal. lia.
Qed.

Lemma fill_unemitted j U acc :
  unemitted j U -> 0 <= j -> j + zlen U < 2 ^ 32 ->
  fill s never (length U) j acc = Some (j + zlen U, acc ++ U, false).
Proof.
  revert j acc. induction U as [|x U IH]; intros j acc; cbn [unemitted length fill].
  - intros _ _ _. by rewrite Z.add_0_r, app_nil_r.
  - intros [Hx HU] Hj Hb. rewrite Hx. sbind. cbn [never]. rewrite u32_id by lia.
    rewrite IH by (done || lia). rewrite <- app_assoc. do 3 f_equal. lia.
Qed.

Lemma SnapKeyValue_at k x a c off :
  kvsData s = a ++ kvEnc k x ++ c -> zlen a = off -> zlen k < 2 ^ 32 -> zlen x < 2 ^ 32 ->
  off + (4 + 4 + zlen k + zlen x) < 2 ^ 64 -> SnapKeyValue s off = Some (k, x).
Proof.
  intros E Ha Hk Hx Hoff. destruct (kvs_read s k x a c off) as (R1 & R2 & R3); [done..|].
  assert ((slice_from (kvsData s) off ≫= Uint32) = Some (zlen k)) as R0.
  { rewrite E, slice_from_app by lia. sbind. unfold kvEnc.
    rewrite (u32_id (zlen k)), <- !app_assoc by lia. apply Uint32_Put. lia. }
  unfold SnapKeyValue. rewrite R0. sbind. rewrite R1. sbind. rewrite R2. sbind. by rewrite R3.
Qed.

Lemma exportLeaf_located lc bc off v k x :
  located s lc bc off (Leaf v k x) -> disk_range (Leaf v k x) ->
  position_ok lc bc off (Leaf v k x) ->
  exportLeaf s lc = Some (exportNode (Leaf v k x)).
Proof.
  intros [HL (a & c & E & Ha)] (Hv & Hk & Hx) [Hbc Hoff Hpre Hlv Hkv]. cbn [kvSize] in Hkv.
  destruct (leafRecord_decode v (zlen k) off (HashNode (Leaf v k x)))
    as (D1 & D2 & D3 & D4); [lia..|apply length_HashNode|].
  unfold exportLeaf. rewrite HL. sbind. rewrite D3. sbind.
  rewrite (SnapKeyValue_at k x a c) by done. sbind. by rewrite D1.
Qed.

(** Scanning the records of a subtree emits what was pending and the subtree,
    but for its last leaves when it is a leaf itself. *)
Lemma export_loop_located t lc bc off n j acc U :
  located s lc bc off t -> wf t -> disk_range t -> position_ok lc bc off t ->
  0 <= j -> j + zlen U = lc -> unemitted j U ->
  exists j' acc' U',
    export_loop s never (Z.to_nat (leafCount t - 1) + n) bc j (j - bc) acc =
      export_loop s never n (bc + leafCount t - 1) j' (j' - (bc + leafCount t - 1)) acc' /\
    0 <= j' /\ j' + zlen U' = lc + leafCount t /\ unemitted j' U' /\
    acc' ++ U' = acc ++ U ++ (exportNode <$> postorder t) /\
    (IsLeaf t = false -> U' = []).
Proof.
  revert lc bc off n j acc U.
  induction t as [v k x|h sz v k l IHl r IHr]; intros lc bc off n j acc U Hloc Hwf Hr Hp Hj HU Hun.
  - exists j, acc, (U ++ [exportNode (Leaf v k x)]). rewrite leavesCount_leaf.
    rewrite Z.add_simpl_r. split; [done|]. split; [done|].
    split; [rewrite length_app; simpl; lia|]. split; [|done].
    apply unemitted_snoc; [done|]. rewrite HU. by eapply exportLeaf_located.
  - pose proof (wf_branch _ _ _ _ _ _ Hwf) as (Wl & Wr & Ha & Hhd & _ & _).
    destruct (located_branch s lc bc off (Branch h sz v k l r) h sz v k l r)
      as (d & HN & D1 & _ & D3 & D4 & D5 & _); [done..|].
    pose proof (position_left _ _ _ _ _ _ _ _ _ Ha Hp) as Pl.
    pose proof (position_right _ _ _ _ _ _ _ _ _ Ha Hp) as Pr.
    pose proof Hloc as (Ll & Lr & _). pose proof Hr as (_ & Rl & Rr).
    pose proof (leafCount_pos l). pose proof (leafCount_pos r).
    rewrite leafCount_branch in *.
    destruct (IHl lc bc off (Z.to_nat (leafCount r - 1) + S n)%nat j acc U)
      as (j1 & acc1 & U1 & E1 & Hj1 & HU1 & Hun1 & Ea1 & _); [done..|].
    replace (bc + leafCount l - 1) with (bc + leafCount l - 1) in E1 by lia.
    destruct (IHr (lc + leafCount l) (bc + leafCount l - 1) (off + kvSize l) (S n) j1 acc1 U1)
      as (j2 & acc2 & U2 & E2 & Hj2 & HU2 & Hun2 & Ea2 & _); [done..|].
    pose proof (pos_leaves _ _ _ _ Hp) as Hlv. pose proof (pos_bc _ _ _ _ Hp) as Hbc.
    rewrite leafCount_branch in Hlv.
    exists (lc + leafCount l + leafCount r),
      (acc2 ++ U2 ++ [exportNode (Branch h sz v k l r)]), [].
    split; [|split_and!; [lia|simpl; lia|done| |done]].
    2: { rewrite app_nil_r, app_assoc, Ea2, (app_assoc acc1), Ea1. cbn [postorder].
         by rewrite !fmap_app, <- !app_assoc. }
    replace (Z.to_nat (leafCount l + leafCount r - 1) + n)%nat
      with (Z.to_nat (leafCount l - 1) + (Z.to_nat (leafCount r - 1) + S n))%nat by lia.
    rewrite E1, E2. cbn [export_loop].
    replace (bc + leafCount l - 1 + leafCount r - 1) with (bc + (leafCount l + leafCount r) - 2) by lia.
    rewrite HN. sbind. rewrite D4. sbind.
    replace (Z.to_nat (lc - bc + 2 - (j2 - (bc + (leafCount l + leafCount r) - 2))))
      with (length U2) by lia.
    rewrite fill_unemitted by (done || lia). sbind. rewrite D3, D1, D5. sbind.
    rewrite (located_first s (lc + leafCount l) (bc + leafCount l - 1) (off + kvSize l) r k)
      by (done || apply Pr). sbind. cbn [never].
    rewrite u32_id by lia. rewrite <- app_assoc. f_equal; lia.
Qed.
End ScanProof.

Lemma export_written version t :
  storable t ->
  export (mkSnapshot (branchChunk 0 0 t) (leafChunk 0 t) (kvChunk t) version (Some (rootAt 0 0 t)))
    never = Some (exportNode <$> postorder t).
Proof.
  intros Hst. pose proof (written_persisted version t Hst) as Hper.
  apply persisted_denotes in Hper. pose proof (storable_position _ Hst) as Hpos.
  set (s := mkSnapshot _ _ _ _ _) in *. pose proof (leafCount_pos t) as Hlp.
  assert (leavesLen s = leafCount t) as EL.
  { unfold leavesLen. cbn [leaves s]. rewrite zlen_leafChunk, Z.mul_comm. by apply Z.div_mul. }
  assert (nodesLen s = leafCount t - 1) as EN.
  { unfold nodesLen. cbn [nodes s]. rewrite zlen_branchChunk, Z.mul_comm. by apply Z.div_mul. }
  assert (avl t) as Ha by apply Hst. pose proof (leafCount_leaf t Ha) as Hleaf.
  unfold export. rewrite EL, EN, (proj2 (Z.eqb_neq (leafCount t) 0)) by lia.
  destruct (Z.eqb_spec (leafCount t) 1) as [E1|N1].
  - destruct t as [v k x|]; [|by apply Hleaf in E1].
    destruct Hper as (Hv & _ & _ & Hk & Hx & _). unfold rootAt in *. cbn [IsLeaf] in *.
    rewrite Hv, Hk, Hx. done.
  - destruct Hst as (Hwf & Hr & Hlc & Hkv). rewrite u32_id by lia.
    assert (located s 0 0 0 t) as Hloc.
    { eapply (chunk_located _ _ _ _ _ [] [] [] [] [] []); cbn [nodes leaves kvsData app s];
        by rewrite ?app_nil_r. }
    destruct (export_loop_located s t 0 0 0 0%nat 0 [] []) as (j & acc & U & E & _ & _ & _ & Ea & HU);
      [done..|]. rewrite Nat.add_0_r, Z.sub_0_r in E. rewrite E. sbind. cbn [export_loop]. sbind.
    rewrite HU, app_nil_r in Ea; [by rewrite Ea|].
    destruct (IsLeaf t); [exfalso; by apply N1, Hleaf|done].
Qed.

(** ** The exporter: a worker goroutine and a buffered channel *)

Definition exportBufferSize : nat := 32.

(** What the worker still has to pass to its callback, the channel's buffer,
    whether the worker has closed the channel, whether the context is
    cancelled. *)
Record Exporter := mkExporter {
  todo : list ExportNode;
  ch : list ExportNode;
  chClosed : bool;
  cancelled : bool
}.

Definition newExporter (items : list ExportNode) : Exporter := mkExporter items [] false false.

(** [Next] returns a node ([Recv]) or [ErrorExportDone] ([Done]). *)
Inductive event := Send | Abandon | Finish | Recv (n : ExportNode) | Done | Cancel.

#[global] Instance ExportNode_eq_dec : EqDecision ExportNode.
Proof. solve_decision. Defined.

#[global] Instance event_eq_dec : EqDecision event.
Proof. solve_decision. Defined.

(** One step of the worker, of the reader, or of [cancel].  [honours] tells
    whether the worker returns when its callback answers [true]
    ([Snapshot.export]) or goes on ([ScanPostOrder]). *)
Inductive exporter_step (honours : bool) : Exporter -> event -> Exporter -> Prop :=
  | step_send x todo ch cancelled :
      (length ch < exportBufferSize)%nat ->
      exporter_step honours (mkExporter (x :: todo) ch false cancelled) Send
        (mkExporter todo (ch ++ [x]) false cancelled)
  | step_abandon x todo ch :
      exporter_step honours (mkExporter (x :: todo) ch false true) Abandon
        (mkExporter (if honours then [] else todo) ch false true)
  | step_finish ch cancelled :
      exporter_step honours (mkExporter [] ch false cancelled) Finish (mkExporter [] ch true cancelled)
  | step_recv x todo ch closed cancelled :
      exporter_step honours (mkExporter todo (x :: ch) closed cancelled) (Recv x)
        (mkExporter todo ch closed cancelled)
  | step_done todo cancelled :
      exporter_step honours (mkExporter todo [] true cancelled) Done (mkExporter todo [] true cancelled)
  | step_cancel todo ch closed cancelled :
      exporter_step honours (mkExporter todo ch closed cancelled) Cancel
        (mkExporter todo ch closed true).

Inductive exporter_run (honours : bool) : Exporter -> list event -> Exporter -> Prop :=
  | run_nil e : exporter_run honours e [] e
  | run_snoc e tr e' ev e'' :
      exporter_run honours e tr e' -> exporter_step honours e' ev e'' ->
      exporter_run honours e (tr ++ [ev]) e''.

(** The nodes the calls of [Next] returned. *)
Definition received (tr : list event) : list ExportNode :=
  omap (fun ev => match ev with Recv n => Some n | _ => None end) tr.

(** Steps of the worker and receptions that a run can still make. *)
Definition work (e : Exporter) : nat :=
  2 * length (todo e) + length (ch e) + (if chClosed e then 0 else 1).

Definition productive (ev : event) : bool :=
  match ev with Done | Cancel => false | _ => true end.

Definition exporter_inv (items : list ExportNode) (tr : list event) (e : Exporter) : Prop :=
  (Cancel ∉ tr -> cancelled e = false /\ received tr ++ ch e ++ todo e = items) /\
  (chClosed e = true -> todo e = []) /\
  (length (List.filter productive tr) + work e <= 2 * length items + 1)%nat.

Lemma exporter_run_inv honours items tr e :
  exporter_run honours (newExporter items) tr e -> exporter_inv items tr e.
Proof.
  remember (newExporter items) as e0 eqn:E0. induction 1 as [|e tr e' ev e'' Hrun IH Hs]; subst.
  - unfold exporter_inv, work, newExporter. cbn. split_and!; [done|done|lia].
  - destruct (IH eq_refl) as (I1 & I2 & I3). unfold exporter_inv, received in *.
    rewrite List.filter_app, length_app, omap_app.
    destruct Hs; unfold work in *; cbn [todo ch chClosed cancelled productive List.filter length omap list_omap] in *;
      rewrite ?length_app, ?app_nil_r; cbn [length].
    all: split; [intros Hc; rewrite elem_of_app, list_elem_of_singleton in Hc|split; [try done|]].
    all: try (destruct honours; cbn [length]; lia).
    all: try (destruct (I1 ltac:(tauto)) as [Ic Ie]; cbn [todo ch chClosed cancelled] in *).
    all: try (exfalso; tauto). all: try done.
    all: split; [done|]. all: rewrite ?app_nil_r in Ie; rewrite <- ?app_assoc; exact Ie.
Qed.

(** ** Properties *)

(** The sequential scan of the files of a snapshot written from a tree exports
    exactly the nodes of the tree in post-order, the same the stack-based
    traversal of the tree exports, and never reads out of bounds; so the two
    routes of [Tree.Export] agree. *)
Theorem snapshot_export_correct ctxDone version t f s :
  (forall n, ctxDone n = false) -> 0 <= version < 2 ^ 32 -> storable t ->
  WriteSnapshotWithContext ctxDone version (Some t) = Ok f -> OpenSnapshot f = Ok s ->
  export s never = Some (exportNode <$> postorder t) /\
  ScanPostOrder (Some t) = postorder t.
Proof.
  intros Hctx Hv Hst. rewrite WriteSnapshot_files by done. intros [= <-].
  rewrite OpenSnapshot_written by done. intros [= <-].
  split; [by apply export_written|apply (ScanPostOrder_postorder (Some t))].
Qed.

Lemma snapshot_export_correct_witness :
  export ex3_snapshot never = Some (exportNode <$> postorder ex3) /\
  ScanPostOrder (Some ex3) = postorder ex3.
Proof.
  apply (snapshot_export_correct (fun _ => false) 7 ex3 ex3_files ex3_snapshot);
    [done|lia|exact ex3_storable|exact ex3_files_ok|exact (proj1 ex3_snapshot_ok)].
Defined.

(** C30: In every interleaving of the worker goroutine, the reader's [Next] calls
    and the buffer of 32 nodes: without a cancellation the reader receives a
    prefix of the exported nodes in order, all of them once [Next] answers
    [ErrorExportDone], and somebody can always step; with or without
    cancellation the number of steps is bounded, so draining in [Close]
    terminates. *)
Theorem exporter_delivers honours items tr e :
  exporter_run honours (newExporter items) tr e ->
  (Cancel ∉ tr -> received tr `prefix_of` items /\
     (forall e', exporter_step honours e Done e' -> received tr = items)) /\
  (exists ev e', ev <> Cancel /\ exporter_step honours e ev e') /\
  (length (List.filter productive tr) <= 2 * length items + 1)%nat.
Proof.
  intros (I1 & I2 & I3)%exporter_run_inv. split; [|split; [|lia]].
  - intros [_ E]%I1. split; [by eexists|]. intros e' Hd. rewrite <- E.
    inversion Hd; subst. cbn [ch todo chClosed] in *. by rewrite I2, !app_nil_r.
  - destruct e as [todo [|x ch] [|] c]; [|destruct todo| |].
    + exists Done. eexists. split; [done|constructor].
    + exists Finish. eexists. split; [done|constructor].
    + exists Send. eexists. split; [done|constructor]. cbn. unfold exportBufferSize. lia.
    + exists (Recv x). eexists. split; [done|constructor].
    + exists (Recv x). eexists. split; [done|constructor].
Qed.

Lemma exporter_delivers_witness :
  let items := [exportNode ex3] in
  exists tr e, exporter_run true (newExporter items) tr e /\ received tr = items.
Proof.
  intros items.
  assert (exporter_run true (newExporter items)
            ((([] ++ [Send]) ++ [Finish]) ++ [Recv (exportNode ex3)]) (mkExporter [] [] true false))
    as Hrun.
  { eapply run_snoc; [eapply run_snoc; [eapply run_snoc; [constructor|]|]|].
    - apply step_send. apply (Nat.ltb_lt 0 32). reflexivity.
    - apply step_finish.
    - apply step_recv. }
  destruct (exporter_delivers true items _ _ Hrun) as (H & _).
  exists ((([] ++ [Send]) ++ [Finish]) ++ [Recv (exportNode ex3)]), (mkExporter [] [] true false).
  split; [exact Hrun|].
  exact (proj2 (H ltac:(vm_compute; set_solver)) _ (step_done true [] false)).
Defined.
