(* ===== verification/Import.v ===== *)
(** * Importing a stream of exported nodes: [memiavl/import.go]

    The stack machine that rebuilds the snapshot files from nodes in
    post-order, and the theorem that importing what a tree exports writes the
    very files [WriteSnapshot] writes for the tree. *)

From S2P Require Import Prelude KV Binary Sha256 Node Hash Snapshot Persisted Tree Export.

Open Scope string_scope.
Open Scope Z_scope.
Open Scope list_scope.

(** A pending [MemNode]: its hash is cached and its children are dropped. *)
Record pendingNode := mkPending {
  pnHeight : Z;
  pnSize : Z;
  pnVersion : Z;
  pnKey : bytes;
  pnHash : bytes
}.

(** The stacks have their top first. *)
Record importer := mkImporter {
  iw : snapshotWriter;
  leavesStack : list Z;
  nodeStack : list pendingNode
}.

(** [writeHashBytes] of a branch, from its fields and its children's hashes. *)
Definition branchHash (height size version : Z) (lh rh : bytes) : bytes :=
  Sha256.Sum256 (PutVarint height ++ PutVarint size ++ PutVarint version ++
                 EncodeBytes lh ++ EncodeBytes rh).

(** [importer.Add]; [None] is the index panic on a short stack.  The writer's
    context is [context.Background()], never done. *)
Definition importerAdd (i : importer) (n : ExportNode) : option (result importer) :=
  if MaxUint32 <? eVersion n then Some (Err "version overflows uint32")
  else if eHeight n =? 0 then
    let version := u32 (eVersion n) in
    let value := default [] (eValue n) in
    let nodeHash := HashNode (Leaf version (eKey n) value) in
    match writeLeaf (fun _ => false) (iw i) version (eKey n) value nodeHash with
    | Err e => Some (Err e)
    | Ok w =>
        Some (Ok (mkImporter w (leafCounter w :: leavesStack i)
                    (mkPending 0 1 version (eKey n) nodeHash :: nodeStack i)))
    end
  else
    match leavesStack i, nodeStack i with
    | _ :: keyLeaf :: leaves, rightNode :: leftNode :: pending =>
        let height := u8 (eHeight n) in
        let size := i64 (pnSize leftNode + pnSize rightNode) in
        let version := u32 (eVersion n) in
        let nodeHash := branchHash height size version (pnHash leftNode) (pnHash rightNode) in
        let preTrees := u8 (zlen (nodeStack i) - 2) in
        let w := writeBranch (iw i) version (u32 size) height preTrees keyLeaf nodeHash in
        Some (Ok (mkImporter w (leafCounter w :: leaves)
                    (mkPending height size version (eKey n) nodeHash :: pending)))
    | _, _ => None
    end.

Fixpoint importAll (i : importer) (ns : list ExportNode) : option (result importer) :=
  match ns with
  | [] => Some (Ok i)
  | n :: ns =>
      r ← importerAdd i n;
      match r with Err e => Some (Err e) | Ok i => importAll i ns end
  end.

(** [doImport], the nodes being those received until the channel is closed. *)
Definition doImport (version : Z) (ns : list ExportNode) : option (result snapshotFiles) :=
  if MaxUint32 <? version then Some (Err "version overflows uint32")
  else
    r ← importAll (mkImporter newSnapshotWriter [] []) ns;
    Some (writeSnapshot (u32 version) (fun _ =>
      i ← r;
      match leavesStack i with
      | [] => Ok (iw i, 0)
      | [_] => Ok (iw i, leafCounter (iw i))
      | _ => Err "invalid node structure, found stack size after imported"
      end)).

(** ** Simulation: adding a subtree's nodes is writing the subtree *)

Definition pendingOf (t : Node) : pendingNode :=
  mkPending (Height t) (Size t) (Version t) (Key t) (HashNode t).

Lemma importAll_app i ns1 ns2 :
  importAll i (ns1 ++ ns2) =
  r ← importAll i ns1; match r with Err e => Some (Err e) | Ok i => importAll i ns2 end.
Proof.
  revert i. induction ns1 as [|n ns1 IH]; intros i; [done|]. cbn [importAll app].
  destruct (importerAdd i n) as [[i'|e]|]; sbind; [apply IH|done|done].
Qed.

Lemma branchHash_node h s v k l r :
  branchHash h s v (HashNode l) (HashNode r) = HashNode (Branch h s v k l r).
Proof. by rewrite (HashNode_preimage (Branch h s v k l r)). Qed.

(** The number of pending trees is the difference of the two counters. *)
Definition importer_inv (i : importer) : Prop :=
  u32 (leafCounter (iw i) - branchCounter (iw i)) = u32 (zlen (nodeStack i)).

Lemma u8_u32 x : u8 (u32 x) = u8 x.
Proof. unfold u8, u32. apply Z.mod_mod_divide. by exists (2 ^ 24). Qed.

Lemma pending_leaf lc bc n :
  u32 (lc - bc) = u32 n -> u32 (u32 (lc + 1) - bc) = u32 (n + 1).
Proof.
  unfold u32. intros E. rewrite Zminus_mod_idemp_l.
  replace (lc + 1 - bc) with (lc - bc + 1) by lia. by rewrite Zplus_mod, E, <- Zplus_mod.
Qed.

Lemma pending_branch lc bc n :
  u32 (lc - bc) = u32 n -> u32 (lc - u32 (bc + 1)) = u32 (n - 1).
Proof.
  unfold u32. intros E. rewrite Zminus_mod_idemp_r.
  replace (lc - (bc + 1)) with (lc - bc - 1) by lia. by rewrite Zminus_mod, E, <- Zminus_mod.
Qed.

(** Heights and versions survive the trip through [int8] and [int64]. *)
Definition importable (t : Node) : Prop := avl t /\ disk_range t /\ Size t < 2 ^ 63.

Lemma importable_children h s v k l r :
  importable (Branch h s v k l r) -> importable l /\ importable r.
Proof.
  intros ((Al & Ar & _ & Es & _) & (_ & Rl & Rr) & Hs). cbn [Size] in Hs.
  pose proof (avl_pos _ Al). pose proof (avl_pos _ Ar). split; split_and!; (done || lia).
Qed.

Lemma importAll_postorder t i w :
  importable t -> importer_inv i ->
  writeRecursive (fun _ => false) (iw i) t = Ok w ->
  importAll i (exportNode <$> postorder t) =
    Some (Ok (mkImporter w (leafCounter w :: leavesStack i) (pendingOf t :: nodeStack i))) /\
  importer_inv (mkImporter w (leafCounter w :: leavesStack i) (pendingOf t :: nodeStack i)).
Proof.
  revert i w. induction t as [v k x|h s v k l IHl r IHr]; intros i w Hi Hinv Hw.
  - destruct Hi as (_ & (Hv & _) & _). cbn [writeRecursive] in Hw.
    cbn [postorder fmap list_fmap importAll]. unfold importerAdd, exportNode.
    cbn [eVersion eHeight eKey eValue Version Height Key Value default].
    rewrite (proj2 (Z.ltb_ge _ _)) by (unfold MaxUint32; lia). rewrite u32_id by done.
    change (i8 0 =? 0) with true. cbv iota. change (id x) with x. rewrite Hw. split; [done|].
    unfold writeLeaf in Hw. rewrite andb_false_r in Hw. injection Hw as <-.
    unfold importer_inv, writeKeyValue in *. cbn [iw leafCounter branchCounter nodeStack length].
    rewrite (pending_leaf _ _ _ Hinv). f_equal. lia.
  - destruct (importable_children _ _ _ _ _ _ Hi) as [Il Ir]. cbn [writeRecursive] in Hw.
    destruct (writeRecursive (fun _ => false) (iw i) l) as [wl|] eqn:El; [|done].
    cbn [mbind result_bind] in Hw.
    destruct (writeRecursive (fun _ => false) wl r) as [wr|] eqn:Er; [|done].
    cbn [mbind result_bind] in Hw. injection Hw as <-.
    destruct (IHl i wl Il Hinv El) as [Al Hl]. destruct (IHr _ wr Ir Hl Er) as [Ar Hr].
    cbn [postorder]. rewrite !fmap_app, importAll_app, Al. sbind. rewrite importAll_app, Ar. sbind.
    destruct Hi as (Ha & (Hv & _) & Hs). pose proof (avl_height_bound _ Ha Hs) as Hb.
    pose proof (avl_pos _ Ha) as Hpos. destruct Ha as (Avl & Avr & Eh & Es & _).
    pose proof (avl_pos _ Avl). pose proof (avl_pos _ Avr). cbn [Size Height] in *.
    cbn [fmap list_fmap importAll]. unfold importerAdd, exportNode.
    cbn [eVersion eHeight eKey eValue Version Height Key Value default leavesStack nodeStack iw].
    rewrite (proj2 (Z.ltb_ge _ _)) by (unfold MaxUint32; lia). rewrite i8_id by lia.
    rewrite (proj2 (Z.eqb_neq h 0)) by lia. rewrite (u32_id v), (u8_id h) by lia. sbind.
    cbn [pnSize pnHash pendingOf]. rewrite i64_id by lia. rewrite <- Es.
    rewrite (branchHash_node h s v k l r).
    replace (u8 (u32 (leafCounter (iw i) - branchCounter (iw i))))
      with (u8 (zlen (pendingOf r :: pendingOf l :: nodeStack i) - 2)).
    2: { rewrite Hinv, u8_u32. f_equal. cbn [length]. lia. }
    split; [done|]. unfold importer_inv in *. cbn [iw leafCounter branchCounter nodeStack] in *.
    cbn [writeBranch leafCounter branchCounter]. rewrite (pending_branch _ _ _ Hr).
    cbn [length]. f_equal. lia.
Qed.

(** ** Properties *)

(** Importing the nodes a tree exports, in post-order, succeeds and writes
    byte for byte the snapshot files that [WriteSnapshot] writes for the tree
    itself, hashes and record positions included; no exported node gives the
    empty snapshot. *)
Theorem import_export ctxDone version t :
  (forall n, ctxDone n = false) -> 0 <= version < 2 ^ 32 ->
  match t with Some t => storable t | None => True end ->
  exists f, WriteSnapshotWithContext ctxDone version t = Ok f /\
    doImport version (exportNode <$> ScanPostOrder t) = Some (Ok f).
Proof.
  intros Hctx Hv Ht. rewrite ScanPostOrder_postorder. unfold doImport.
  rewrite (proj2 (Z.ltb_ge _ _)) by (unfold MaxUint32; lia). rewrite u32_id by done.
  destruct t as [t|]; [|eexists; split; reflexivity].
  eexists. split; [by apply WriteSnapshot_files|].
  pose proof (storable_position _ Ht) as Hp.
  pose proof Ht as ((Ha & _) & Hr & Hl & _).
  assert (importable t) as Hi.
  { split_and!; [done|done|]. rewrite avl_size by done. unfold leafCount in Hl. lia. }
  pose proof (writeRecursive_spec (fun _ => false) newSnapshotWriter t) as Hw.
  specialize (Hw (fun _ => eq_refl) Ha Hr Hp).
  destruct (importAll_postorder t (mkImporter newSnapshotWriter [] []) _ Hi eq_refl Hw) as [E _].
  cbn [postorder_root]. rewrite E. sbind. unfold writeSnapshot. sbind.
  cbn [leavesStack iw]. sbind. cbn [leafCounter newSnapshotWriter]. pose proof (leafCount_pos t).
  rewrite (proj2 (Z.ltb_lt _ _)) by lia. done.
Qed.

Lemma import_export_witness :
  exists f, WriteSnapshotWithContext (fun _ => false) 7 (Some ex3) = Ok f /\
    doImport 7 (exportNode <$> ScanPostOrder (Some ex3)) = Some (Ok f).
Proof. apply (import_export (fun _ => false) 7 (Some ex3)); [done|lia|exact ex3_storable]. Defined.
