(* ===== verification/TreeImport.v ===== *)
(** * The import goroutine: [TreeImporter] of [memiavl/import.go]

    [NewTreeImporter] starts a goroutine that runs [doImport] on the nodes it
    receives from a channel of capacity [NodeChannelBuffer]; [Add] sends a node
    and [Close] closes the channel and waits for the result.  The step relation
    has every interleaving of the two sides; the sequential reading of it, which
    the multi-tree importer uses, is that [Close] returns [doImport] of the nodes
    added and that [Add] waits for ever once the goroutine has given up and the
    channel is full. *)

From S2P Require Import Prelude KV Binary Sha256 Node Hash Snapshot Persisted Tree Export Import.

Open Scope string_scope.
Open Scope Z_scope.
Open Scope list_scope.

Definition NodeChannelBuffer : nat := 2048.

(** The end of [doImport], once the loop over the nodes has ended. *)
Definition importResult (version : Z) (r : result importer) : result snapshotFiles :=
  writeSnapshot (u32 version) (fun _ =>
    i ← r;
    match leavesStack i with
    | [] => Ok (iw i, 0)
    | [_] => Ok (iw i, leafCounter (iw i))
    | _ => Err "invalid node structure, found stack size after imported"
    end).

Definition newImporter : importer := mkImporter newSnapshotWriter [] [].

(** The goroutine: receiving nodes, blocked on sending its result into
    [quitChan], gone, or crashed with the whole process. *)
Inductive worker :=
  | Importing (i : importer)
  | Sending (r : result snapshotFiles)
  | Gone
  | Crashed.

Record TreeImporter := mkTreeImporter {
  nodesChan : list ExportNode;
  closed : bool;
  goroutine : worker
}.

Definition NewTreeImporter (version : Z) : TreeImporter :=
  mkTreeImporter [] false
    (if MaxUint32 <? version then Sending (Err "version overflows uint32")
     else Importing newImporter).

(** What the caller's side does: [Add] returns, [Close] closes the channel,
    [Close] returns with the result; [Work] is a step of the goroutine. *)
Inductive importEvent := EAdd (n : ExportNode) | EClose | EResult (r : result snapshotFiles) | EWork.

Definition isAdd (e : importEvent) : option ExportNode :=
  match e with EAdd n => Some n | _ => None end.

Definition added (tr : list importEvent) : list ExportNode := omap isAdd tr.

Definition isWork (e : importEvent) : bool := match e with EWork => true | _ => false end.

(** The steps the goroutine made. *)
Definition works (tr : list importEvent) : nat := length (List.filter isWork tr).

Section Steps.
Context (version : Z).

Definition workOn (i : importer) (n : ExportNode) : worker :=
  match importerAdd i n with
  | None => Crashed
  | Some (Err e) => Sending (importResult version (Err e))
  | Some (Ok i) => Importing i
  end.

Inductive import_step : TreeImporter -> importEvent -> TreeImporter -> Prop :=
  | import_add n q w :
      (length q < NodeChannelBuffer)%nat -> w <> Crashed ->
      import_step (mkTreeImporter q false w) (EAdd n) (mkTreeImporter (q ++ [n]) false w)
  | import_close q w :
      w <> Crashed ->
      import_step (mkTreeImporter q false w) EClose (mkTreeImporter q true w)
  | import_receive n q c i :
      import_step (mkTreeImporter (n :: q) c (Importing i)) EWork (mkTreeImporter q c (workOn i n))
  | import_drained i :
      import_step (mkTreeImporter [] true (Importing i)) EWork
        (mkTreeImporter [] true (Sending (importResult version (Ok i))))
  | import_result q r :
      import_step (mkTreeImporter q true (Sending r)) (EResult r) (mkTreeImporter q true Gone).

Inductive import_run : TreeImporter -> list importEvent -> TreeImporter -> Prop :=
  | import_nil s : import_run s [] s
  | import_snoc s tr s' e s'' :
      import_run s tr s' -> import_step s' e s'' -> import_run s (tr ++ [e]) s''.

(** ** The sequential reading *)

(** The number of nodes the goroutine receives before it gives up. *)
Fixpoint receives (i : importer) (ns : list ExportNode) : option nat :=
  match ns with
  | [] => None
  | n :: ns =>
      match importerAdd i n with
      | Some (Err _) => Some 1%nat
      | Some (Ok i) => S <$> receives i ns
      | None => None
      end
  end.

Definition gaveUp (ns : list ExportNode) : option nat :=
  if MaxUint32 <? version then Some O else receives newImporter ns.

(** [Add] after the nodes [ns] never returns. *)
Definition addBlocks (ns : list ExportNode) : bool :=
  match gaveUp ns with
  | Some k => (NodeChannelBuffer <=? length ns - k)%nat
  | None => false
  end.

(** ** Invariant of the runs *)

(** What the goroutine has made of the nodes [ns] it received. *)
Definition outcome (ns q : list ExportNode) (c : bool) (w : worker) (tr : list importEvent) : Prop :=
  match w with
  | Importing i => version <= MaxUint32 /\ importAll newImporter ns = Some (Ok i)
  | Crashed => version <= MaxUint32 /\ importAll newImporter ns = None
  | Sending r =>
      doImport version (ns ++ q) = Some r /\
      (gaveUp (ns ++ q) = Some (length ns) \/ q = [] /\ c = true)
  | Gone => c = true /\ exists r, EResult r ∈ tr
  end.

Record import_inv (tr : list importEvent) (s : TreeImporter) : Prop := {
  inv_nodes : exists ns, added tr = ns ++ nodesChan s /\
    outcome ns (nodesChan s) (closed s) (goroutine s) tr;
  inv_buffer : (length (nodesChan s) <= NodeChannelBuffer)%nat;
  inv_results r : EResult r ∈ tr ->
    goroutine s = Gone /\ doImport version (added tr) = Some r;
  inv_work : (works tr + length (nodesChan s) <=
    length (added tr) + match goroutine s with Importing _ => 0 | _ => 1 end)%nat
}.

Lemma added_snoc tr e : added (tr ++ [e]) = added tr ++ match isAdd e with Some n => [n] | None => [] end.
Proof. unfold added. rewrite omap_app. by destruct e. Qed.

Lemma works_snoc tr e : works (tr ++ [e]) = (works tr + if isWork e then 1 else 0)%nat.
Proof. unfold works. rewrite List.filter_app, length_app. by destruct e. Qed.

Lemma doImport_result ns r :
  version <= MaxUint32 -> importAll newImporter ns = Some r ->
  doImport version ns = Some (importResult version r).
Proof.
  intros Hv E. unfold doImport. rewrite (proj2 (Z.ltb_ge _ _)) by done. fold newImporter. by rewrite E.
Qed.

Lemma importAll_snoc ns n i :
  importAll newImporter ns = Some (Ok i) ->
  importAll newImporter (ns ++ [n]) = importerAdd i n.
Proof.
  intros E. rewrite importAll_app, E. sbind. cbn [importAll]. by destruct (importerAdd i n) as [[]|].
Qed.

(** An import that fails ignores what follows. *)
Lemma importAll_err ns q e :
  importAll newImporter ns = Some (Err e) -> importAll newImporter (ns ++ q) = Some (Err e).
Proof. intros E. by rewrite importAll_app, E. Qed.

Lemma receives_app j ns q i :
  importAll j ns = Some (Ok i) -> receives j (ns ++ q) = (fun k => length ns + k)%nat <$> receives i q.
Proof.
  revert j. induction ns as [|n ns IH]; intros j; cbn [importAll app receives length].
  { intros [= ->]. by destruct (receives i q). }
  destruct (importerAdd j n) as [[j'|e]|]; sbind; [|done..]. intros E. rewrite (IH _ E).
  by destruct (receives i q).
Qed.

Lemma gaveUp_at ns n q i e :
  version <= MaxUint32 -> importAll newImporter ns = Some (Ok i) -> importerAdd i n = Some (Err e) ->
  gaveUp ((ns ++ [n]) ++ q) = Some (length (ns ++ [n])).
Proof.
  intros Hv E Ee. unfold gaveUp. rewrite (proj2 (Z.ltb_ge _ _)) by done.
  rewrite <- app_assoc, (receives_app _ _ _ _ E). cbn [app receives]. rewrite Ee, length_app.
  done.
Qed.

Lemma receives_none j ns i : importAll j ns = Some (Ok i) -> receives j ns = None.
Proof.
  intros E. rewrite <- (app_nil_r ns). by rewrite (receives_app _ _ _ _ E).
Qed.

Lemma receives_err j ns k : receives j ns = Some k -> exists e, importAll j ns = Some (Err e).
Proof.
  revert j k. induction ns as [|n ns IH]; intros j k; cbn [receives importAll]; [done|].
  destruct (importerAdd j n) as [[j'|e]|]; sbind; [|by eexists|done].
  destruct (receives j' ns) as [k'|] eqn:E; [|done]. intros _. by eapply IH.
Qed.

Lemma doImport_gaveUp ns q k : gaveUp ns = Some k -> doImport version (ns ++ q) = doImport version ns.
Proof.
  unfold gaveUp, doImport. destruct (_ <? _); [done|]. fold newImporter.
  intros [e E]%receives_err. by rewrite E, (importAll_err _ _ _ E).
Qed.

(** Giving up is for good. *)
Lemma gaveUp_app ns q k : gaveUp ns = Some k -> gaveUp (ns ++ q) = Some k.
Proof.
  unfold gaveUp. destruct (_ <? _); [done|]. generalize newImporter. revert k.
  induction ns as [|n ns IH]; intros k j; cbn [receives app]; [done|].
  destruct (importerAdd j n) as [[j'|e]|]; [|done..].
  destruct (receives j' ns) as [k'|] eqn:E; [|done]. by rewrite (IH _ _ E).
Qed.

Lemma import_inv_init : import_inv [] (NewTreeImporter version).
Proof.
  unfold NewTreeImporter. split; cbn [nodesChan closed goroutine length]; try (cbn; lia).
  - exists []. split; [done|]. unfold outcome, doImport, gaveUp. cbn [app].
    destruct (Z.ltb_spec MaxUint32 version); [by auto|done].
  - intros r Hr. by apply not_elem_of_nil in Hr.
Qed.

Lemma outcome_add ns q w tr n :
  outcome ns q false w tr -> outcome ns (q ++ [n]) false w (tr ++ [EAdd n]).
Proof.
  destruct w as [i|r| |]; cbn [outcome]; [done| |by intros []|done].
  intros [Hd [Hg|[_ ?]]]; [|done]. rewrite app_assoc. split; [by rewrite (doImport_gaveUp _ _ _ Hg)|].
  left. by apply gaveUp_app.
Qed.

Lemma outcome_receive ns n q c i tr :
  outcome ns (n :: q) c (Importing i) tr ->
  outcome (ns ++ [n]) q c (workOn i n) (tr ++ [EWork]).
Proof.
  intros [Hv E]. pose proof (importAll_snoc _ n _ E) as Es. unfold workOn.
  destruct (importerAdd i n) as [[i'|e]|] eqn:Ea; cbn [outcome]; [done| |done].
  split; [|left; by eapply gaveUp_at]. by apply doImport_result, importAll_err.
Qed.

Lemma workOn_not_gone i n : workOn i n <> Gone.
Proof. unfold workOn. by destruct (importerAdd i n) as [[]|]. Qed.

Lemma import_inv_step tr s e s' :
  import_inv tr s -> import_step s e s' -> import_inv (tr ++ [e]) s'.
Proof.
  intros [(ns & En & Ho) Hb Hr Hw] Hs.
  assert (forall r, EResult r ∈ tr -> goroutine s = Gone) as Hgone by (intros r H1; by destruct (Hr r H1)).
  destruct Hs as [n q w Hlt Hw0|q w Hw0|n q c i|i|q r];
    cbn [nodesChan closed goroutine length] in *;
    (split; cbn [nodesChan closed goroutine];
      rewrite ?added_snoc, ?works_snoc; cbn [isAdd isWork]; rewrite ?app_nil_r).
  - exists ns. split; [by rewrite En, app_assoc|by apply outcome_add].
  - rewrite length_app. cbn. lia.
  - intros r [Hin|Hin%list_elem_of_singleton]%elem_of_app; [|done].
    destruct (Hr r Hin) as [-> _]. by destruct Ho.
  - rewrite !length_app. cbn. lia.
  - exists ns. split; [done|]. destruct w as [i|r| |]; cbn [outcome] in *; [done| |by destruct Ho|done].
    destruct Ho as [Hd [Hg|[_ ?]]]; [by auto|done].
  - done.
  - intros r [Hin|Hin%list_elem_of_singleton]%elem_of_app; [by apply Hr|done].
  - by rewrite Nat.add_0_r.
  - exists (ns ++ [n]). split; [by rewrite En, <- app_assoc|by apply outcome_receive].
  - lia.
  - intros r [Hin|Hin%list_elem_of_singleton]%elem_of_app; [|done]. by apply Hgone in Hin.
  - rewrite En, length_app in Hw |- *. cbn [length] in *. destruct (workOn i n); lia.
  - exists ns. split; [done|]. destruct Ho as [Hv E]. cbn [outcome]. rewrite app_nil_r.
    split; [by apply doImport_result|by right].
  - cbn [length]; lia.
  - intros r [Hin|Hin%list_elem_of_singleton]%elem_of_app; [|done]. by apply Hgone in Hin.
  - cbn [length]; lia.
  - exists ns. split; [done|]. split; [done|]. exists r. apply elem_of_app. right. by left.
  - done.
  - intros r' [Hin|Hin%list_elem_of_singleton]%elem_of_app; [by apply Hgone in Hin|].
    injection Hin as ->. split; [done|]. destruct Ho as [Hd _]. by rewrite En.
  - by rewrite Nat.add_0_r.
Qed.

Lemma import_run_inv tr s : import_run (NewTreeImporter version) tr s -> import_inv tr s.
Proof.
  remember (NewTreeImporter version) as s0 eqn:E0. induction 1 as [|s tr s' e s'' _ IH Hs]; subst.
  - apply import_inv_init.
  - by eapply import_inv_step; [apply IH|].
Qed.

End Steps.

(** ** Properties *)

(** C31: in every interleaving of the caller and the import goroutine: [Close]
    returns exactly what [doImport] makes of the nodes added, and the process
    crashes only when [doImport] does; [Add] returns only when [addBlocks] says
    so, and then the goroutine always gets the caller going; after [Close]
    somebody can always step, and the goroutine makes at most one step per node
    and one more. *)
Theorem tree_import_correct version tr s :
  import_run version (NewTreeImporter version) tr s ->
  (forall r, EResult r ∈ tr -> doImport version (added tr) = Some r) /\
  (goroutine s = Crashed -> doImport version (added tr) = None) /\
  (forall n s', import_step version s (EAdd n) s' -> addBlocks version (added tr) = false) /\
  (addBlocks version (added tr) = false -> goroutine s <> Crashed -> closed s = false ->
     (forall n, exists s', import_step version s (EAdd n) s') \/ exists s', import_step version s EWork s') /\
  (closed s = true -> goroutine s <> Crashed -> goroutine s <> Gone ->
     exists e s', import_step version s e s') /\
  (works tr <= length (added tr) + 1)%nat.
Proof.
  intros [(ns & En & Ho) Hb Hr Hw]%import_run_inv. destruct s as [q c w]. cbn [nodesChan closed goroutine] in *.
  split_and!.
  - intros r Hin. by apply Hr.
  - intros ->. destruct Ho as [Hv E]. unfold doImport. rewrite (proj2 (Z.ltb_ge _ _)) by done.
    fold newImporter. by rewrite En, importAll_app, E.
  - intros n s' Hs. inversion Hs; subst. unfold addBlocks. rewrite En.
    destruct w as [i|r| |]; cbn [outcome] in Ho; [| |by destruct Ho|done].
    + destruct Ho as [Hv E]. destruct (gaveUp version (ns ++ q)) as [k|] eqn:Eg; [|done].
      unfold gaveUp in Eg. rewrite (proj2 (Z.ltb_ge _ _)), (receives_app _ _ _ _ E) in Eg by done.
      destruct (receives i q) as [k'|]; [|done]. injection Eg as <-.
      apply Nat.leb_gt. rewrite length_app. lia.
    + destruct Ho as [_ [Hg|[_ ?]]]; [|done]. rewrite Hg. apply Nat.leb_gt. rewrite length_app. lia.
  - intros Ha Hc ->. destruct (decide (length q < NodeChannelBuffer)%nat) as [Hlt|Hge].
    { left. intros n. eexists. by constructor. }
    right. destruct w as [i|r| |]; cbn [outcome] in Ho; [| |by destruct Ho|done].
    + destruct q as [|n q]; [unfold NodeChannelBuffer in Hge; cbn [length] in Hge; lia|].
      eexists. constructor.
    + exfalso. destruct Ho as [_ [Hg|[_ ?]]]; [|done]. unfold addBlocks in Ha. rewrite En, Hg in Ha.
      apply Nat.leb_gt in Ha. rewrite length_app in Ha. lia.
  - intros -> Hc Hg. destruct w as [i|r| |]; [|by eexists _, _; constructor|done..].
    destruct q as [|n q]; eexists _, _; constructor.
  - destruct w; lia.
Qed.

Definition exBad : ExportNode := mkExport [] (Some []) (2 ^ 32) 0.

Definition exBadRun : list importEvent :=
  [EAdd exBad; EWork; EClose; EResult (importResult 3 (Err "version overflows uint32"))].

Lemma tree_import_correct_witness :
  doImport 3 [exBad] = Some (importResult 3 (Err "version overflows uint32")) /\
  (works exBadRun <= 2)%nat.
Proof.
  assert (import_run 3 (NewTreeImporter 3) exBadRun (mkTreeImporter [] true Gone)) as Hrun.
  { apply (import_snoc _ _ [EAdd exBad; EWork; EClose]
             (mkTreeImporter [] true (Sending (importResult 3 (Err "version overflows uint32"))))); [|constructor].
    apply (import_snoc _ _ [EAdd exBad; EWork]
             (mkTreeImporter [] false (Sending (importResult 3 (Err "version overflows uint32")))));
      [|by constructor].
    apply (import_snoc _ _ [EAdd exBad] (mkTreeImporter [exBad] false (Importing newImporter)));
      [|apply (import_receive 3 exBad [] false newImporter)].
    apply (import_snoc _ _ [] (mkTreeImporter [] false (Importing newImporter))); [constructor|].
    apply (import_add 3 exBad [] (Importing newImporter)); [unfold NodeChannelBuffer; cbn [length]; lia|done]. }
  destruct (tree_import_correct 3 exBadRun _ Hrun) as (H1 & _ & _ & _ & _ & H2).
  split; [apply H1; unfold exBadRun; set_solver|exact H2].
Defined.

(** A node the goroutine refuses, followed by more nodes than the channel holds,
    makes [Add] wait for ever: the error is only read by [Close]. *)
Lemma bad_node_blocks version n ns :
  version <= MaxUint32 -> MaxUint32 < eVersion n -> (NodeChannelBuffer <= length ns)%nat ->
  addBlocks version (n :: ns) = true.
Proof.
  intros Hv Hn Hl. unfold addBlocks, gaveUp. rewrite (proj2 (Z.ltb_ge _ _)) by done.
  cbn [receives]. unfold importerAdd. rewrite (proj2 (Z.ltb_lt _ _)) by done.
  apply Nat.leb_le. cbn [length]. lia.
Qed.
