(* ===== verification/Wal.v ===== *)
(** * Repairing the write-ahead log: [memiavl/wal.go]

    The log itself is the package [tidwall/wal], code outside this repository;
    here is what this code does around it: it cuts a corrupted tail off the
    last segment file and opens the log again. *)

From S2P Require Import Prelude Binary.
From Stdlib Require Import Strings.Byte.

Open Scope string_scope.
Open Scope Z_scope.
Open Scope list_scope.

(** ** The log interface

    The operations of [wal.Log] this code calls.  Indices are [uint64]; an
    empty log has last index 0. *)
Class WalLog (L : Type) := {
  log_first : L -> Z;
  log_last : L -> Z;
  log_read : L -> Z -> result bytes;
  log_write : L -> list (Z * bytes) -> result L;
  log_truncate_front : L -> Z -> result L;
  log_truncate_back : L -> Z -> result L
}.

(** The entry at an index, when there is one. *)
Definition log_entry {L} `{WalLog L} (l : L) (i : Z) : option bytes :=
  match log_read l i with Ok b => Some b | Err _ => None end.

(** The batch continues the log: consecutive indices from [last + 1]. *)
Fixpoint consecutive (i : Z) (batch : list (Z * bytes)) : Prop :=
  match batch with
  | [] => True
  | (j, _) :: batch => j = i /\ consecutive (i + 1) batch
  end.

(** What [tidwall/wal] documents: the entries between the first and the last
    index can be read, a batch in order is appended, a batch out of order is
    refused, truncation keeps the entries on one side of the index. *)
Class WalLaws (L : Type) `{WalLog L} : Prop := {
  log_last_pos l : 0 <= log_last l;
  log_nonempty l : log_last l <> 0 -> 1 <= log_first l <= log_last l;
  log_entry_some l i :
    log_last l <> 0 -> log_first l <= i <= log_last l -> exists b, log_entry l i = Some b;
  log_entry_none l i : log_last l = 0 \/ i < log_first l \/ log_last l < i -> log_entry l i = None;
  log_write_ok l batch :
    consecutive (log_last l + 1) batch ->
    exists l', log_write l batch = Ok l' /\ log_last l' = log_last l + zlen batch /\
      (log_last l <> 0 -> log_first l' = log_first l) /\
      (log_last l = 0 -> batch <> [] -> log_first l' = 1) /\
      (forall i, i <= log_last l -> log_entry l' i = log_entry l i) /\
      (forall i b, (i, b) ∈ batch -> log_entry l' i = Some b);
  log_write_order l batch :
    ~ consecutive (log_last l + 1) batch -> exists e, log_write l batch = Err e;
  log_truncate_front_ok l i :
    log_last l <> 0 -> log_first l <= i <= log_last l ->
    exists l', log_truncate_front l i = Ok l' /\ log_first l' = i /\ log_last l' = log_last l /\
      (forall j, i <= j -> log_entry l' j = log_entry l j);
  log_truncate_back_ok l i :
    log_last l <> 0 -> log_first l <= i <= log_last l ->
    exists l', log_truncate_back l i = Ok l' /\ log_first l' = log_first l /\ log_last l' = i /\
      (forall j, j <= i -> log_entry l' j = log_entry l j);
  log_truncate_range l i :
    log_last l = 0 \/ i < log_first l \/ log_last l < i ->
    exists e1 e2, log_truncate_front l i = Err e1 /\ log_truncate_back l i = Err e2
}.

Inductive LogFormat := BinaryFormat | JSONFormat.

(** [bytes.IndexByte] *)
Fixpoint IndexByte (data : bytes) (c : byte) : option Z :=
  match data with
  | [] => None
  | b :: data => if bool_decide (b = c) then Some 0 else Z.succ <$> IndexByte data c
  end.

Section Loaders.
(** [gjson.Get(line, "data").Type == gjson.String] *)
Context (dataIsString : bytes -> bool).

(** The length of the next entry; [None] is [wal.ErrCorrupt]. *)
Definition loadNextJSONEntry (data : bytes) : option Z :=
  idx ← IndexByte data x0a;
  if dataIsString (take (Z.to_nat idx) data) then Some (idx + 1) else None.

Definition loadNextBinaryEntry (data : bytes) : option Z :=
  let '(size, n) := Uvarint data in
  if n <=? 0 then None
  else if u64 (zlen data - n) <? size then None
  else Some (n + i64 size).

(** The loop of [truncateCorruptedTail]: the position reached and what is left.
    Every entry has a byte, so the length of the data is enough fuel. *)
Fixpoint scan_entries (fuel : nat) (format : LogFormat) (data : bytes) (pos : Z) : Z * bytes :=
  match fuel with
  | O => (pos, data)
  | S fuel =>
      match data with
      | [] => (pos, data)
      | _ =>
          match match format with
                | JSONFormat => loadNextJSONEntry data
                | BinaryFormat => loadNextBinaryEntry data
                end with
          | None => (pos, data)
          | Some n => scan_entries fuel format (drop (Z.to_nat n) data) (pos + n)
          end
      end
  end.

(** The content of the file afterwards.  [data] is the slice that is left, not
    the whole file, when its length is compared with the position. *)
Definition truncateCorruptedTail (format : LogFormat) (file : bytes) : bytes :=
  let '(pos, data) := scan_entries (length file) format file 0 in
  if negb (pos =? zlen data) then take (Z.to_nat pos) file else file.

(** *** [OpenWAL] *)

(** A directory as [os.ReadDir] lists it, sorted by name. *)
Record DirEntry := mkDirEntry { entryName : string; entryIsDir : bool; entryData : bytes }.

Inductive walError := ErrCorrupt | OtherError (e : error).

(** The last entry that is a file with a name of a segment. *)
Definition lastSegment (fis : list DirEntry) : option DirEntry :=
  last (List.filter (fun fi => negb (entryIsDir fi || (String.length (entryName fi) <? 20)%nat)) fis).

Definition replaceFile (fis : list DirEntry) (name : string) (data : bytes) : list DirEntry :=
  (fun fi => if bool_decide (entryName fi = name)
             then mkDirEntry name (entryIsDir fi) data else fi) <$> fis.

(** The handle, the error, and the directory afterwards. *)
Definition OpenWAL {L} (walOpen : list DirEntry -> L + walError) (format : LogFormat)
    (fis : list DirEntry) : option L * option walError * list DirEntry :=
  match walOpen fis with
  | inl log => (Some log, None, fis)
  | inr (OtherError e) => (None, Some (OtherError e), fis)
  | inr ErrCorrupt =>
      match lastSegment fis with
      | None => (None, None, fis)
      | Some seg =>
          let fis := replaceFile fis (entryName seg)
                       (truncateCorruptedTail format (entryData seg)) in
          match walOpen fis with
          | inl log => (Some log, None, fis)
          | inr e => (None, Some e, fis)
          end
      end
  end.

(** ** Entries as the log writes them *)

(** The binary encoding of an entry: the length, then the data. *)
Definition binaryEntry (d : bytes) : bytes := PutUvarint (u64 (zlen d)) ++ d.

Definition binaryLog (ds : list bytes) : bytes := mjoin (binaryEntry <$> ds).

Lemma binaryEntry_load d rest :
  zlen d < 2 ^ 63 -> zlen rest < 2 ^ 63 ->
  loadNextBinaryEntry (binaryEntry d ++ rest) = Some (zlen (binaryEntry d)) /\
  0 < zlen (binaryEntry d).
Proof.
  intros Hd Hr. unfold loadNextBinaryEntry, binaryEntry. rewrite (u64_id (zlen d)) by lia.
  rewrite <- app_assoc, Uvarint_Put by lia. pose proof (PutUvarint_pos (zlen d)).
  rewrite !length_app, (proj2 (Z.leb_gt _ _)) by lia.
  replace (Z.of_nat (length (PutUvarint (zlen d)) + (length d + length rest)) -
           zlen (PutUvarint (zlen d))) with (zlen d + zlen rest) by lia.
  rewrite u64_id, (proj2 (Z.ltb_ge _ _)), i64_id by lia. split; [f_equal|]; lia.
Qed.

(** Where the scan of whole entries followed by a corrupt or empty tail ends. *)
Lemma scan_entries_log ds tail fuel pos :
  Forall (fun d => zlen d < 2 ^ 63) ds -> zlen (binaryLog ds ++ tail) < 2 ^ 63 ->
  tail = [] \/ loadNextBinaryEntry tail = None ->
  (length (binaryLog ds ++ tail) <= fuel)%nat ->
  scan_entries fuel BinaryFormat (binaryLog ds ++ tail) pos = (pos + zlen (binaryLog ds), tail).
Proof.
  revert fuel pos. induction ds as [|d ds IH]; intros fuel pos Hds Hlen Ht Hf.
  - cbn [binaryLog fmap list_fmap mjoin list_join app length]. rewrite Z.add_0_r.
    destruct fuel; [done|]. cbn [scan_entries]. destruct tail; [done|].
    destruct Ht as [|Ht]; [done|]. by rewrite Ht.
  - apply Forall_cons in Hds as [Hd Hds].
    change (binaryLog (d :: ds)) with (binaryEntry d ++ binaryLog ds) in *.
    rewrite <- app_assoc in *. rewrite length_app in Hlen, Hf.
    destruct (binaryEntry_load d (binaryLog ds ++ tail)) as [El Hp]; [done|lia|].
    destruct fuel as [|fuel]; [lia|]. cbn [scan_entries]. rewrite El.
    destruct (binaryEntry d ++ binaryLog ds ++ tail) eqn:E.
    { apply (f_equal length) in E. rewrite length_app in E. simpl in E. lia. }
    rewrite <- E, Nat2Z.id, drop_app_length, IH by (done || lia).
    rewrite length_app. f_equal. lia.
Qed.
End Loaders.

(** ** Properties *)

(** On a segment file that is a sequence of whole binary entries followed by a
    tail that is not an entry, the repair leaves exactly the entries, whatever
    the tail is, unless the tail is as long as the entries before it: then the
    file is left as it was, with its corrupted tail. *)
Theorem truncateCorruptedTail_spec dataIsString ds tail :
  Forall (fun d => zlen d < 2 ^ 63) ds -> zlen (binaryLog ds ++ tail) < 2 ^ 63 ->
  tail = [] \/ loadNextBinaryEntry tail = None ->
  truncateCorruptedTail dataIsString BinaryFormat (binaryLog ds ++ tail) =
  if zlen (binaryLog ds) =? zlen tail then binaryLog ds ++ tail else binaryLog ds.
Proof.
  intros Hds Hlen Ht. unfold truncateCorruptedTail. rewrite scan_entries_log by done.
  rewrite Z.add_0_l. destruct (zlen (binaryLog ds) =? zlen tail); [done|].
  by rewrite Nat2Z.id, take_app_length.
Qed.

Lemma truncateCorruptedTail_spec_witness :
  truncateCorruptedTail (fun _ => true) BinaryFormat (binaryLog [[xaa; xbb]] ++ [x05]) =
  binaryLog [[xaa; xbb]].
Proof.
  rewrite (truncateCorruptedTail_spec (fun _ => true) [[xaa; xbb]] [x05]).
  - vm_compute. reflexivity.
  - repeat constructor.
  - vm_compute. reflexivity.
  - right. vm_compute. reflexivity.
Defined.

(** The defect in the repair: a segment of one good entry and a torn entry of
    the same length is not truncated, so the corruption that [wal.Open]
    reported is still there when the log is opened again; and when the
    directory holds no segment, [OpenWAL] returns neither a log nor an error. *)
Theorem truncateCorruptedTail_misses dataIsString :
  let torn := binaryLog [[xaa]] ++ [x05; xbb] in
  truncateCorruptedTail dataIsString BinaryFormat torn = torn /\
  loadNextBinaryEntry [x05; xbb] = None /\
  OpenWAL (L := unit) dataIsString (fun _ => inr ErrCorrupt) BinaryFormat [] = (None, None, []).
Proof. vm_compute. done. Qed.

(** ** A log in memory

    The interface has an implementation: the index before the first entry and
    the entries. *)
Record memlog := mkLog { ml_base : nat; ml_entries : list bytes }.

Definition ml_last (l : memlog) : Z :=
  match ml_entries l with [] => 0 | _ => Z.of_nat (ml_base l) + zlen (ml_entries l) end.

Definition ml_lookup (l : memlog) (i : Z) : option bytes :=
  if i <=? Z.of_nat (ml_base l) then None
  else ml_entries l !! Z.to_nat (i - Z.of_nat (ml_base l) - 1).

Fixpoint consecutive_dec (i : Z) (batch : list (Z * bytes)) : bool :=
  match batch with
  | [] => true
  | (j, _) :: batch => (j =? i) && consecutive_dec (i + 1) batch
  end.

Lemma consecutive_decP i batch : consecutive_dec i batch = true <-> consecutive i batch.
Proof.
  revert i. induction batch as [|[j b] batch IH]; intros i; [done|].
  cbn [consecutive_dec consecutive]. by rewrite andb_true_iff, Z.eqb_eq, IH.
Qed.

Lemma consecutive_elem i batch j b :
  consecutive i batch -> (j, b) ∈ batch -> i <= j /\ batch.*2 !! Z.to_nat (j - i) = Some b.
Proof.
  revert i. induction batch as [|[k c] batch IH]; intros i; [by intros _ ?%elem_of_nil|].
  intros [-> Hc] [E|Hin]%elem_of_cons.
  - injection E as -> ->. rewrite Z.sub_diag. split; [lia|done].
  - destruct (IH _ Hc Hin) as [Hle Hl]. split; [lia|].
    replace (Z.to_nat (j - i)) with (S (Z.to_nat (j - (i + 1)))) by lia. done.
Qed.

#[global] Instance memlog_ops : WalLog memlog := {
  log_first l := Z.of_nat (ml_base l) + 1;
  log_last := ml_last;
  log_read l i := match ml_lookup l i with Some b => Ok b | None => Err "not found" end;
  log_write l batch :=
    if consecutive_dec (ml_last l + 1) batch
    then Ok (mkLog (match ml_entries l with [] => O | _ => ml_base l end)
               (ml_entries l ++ batch.*2))
    else Err "out of order";
  log_truncate_front l i :=
    if (ml_last l =? 0) || (i <=? Z.of_nat (ml_base l)) || (ml_last l <? i)
    then Err "out of range"
    else Ok (mkLog (Z.to_nat (i - 1)) (drop (Z.to_nat (i - 1) - ml_base l) (ml_entries l)));
  log_truncate_back l i :=
    if (ml_last l =? 0) || (i <=? Z.of_nat (ml_base l)) || (ml_last l <? i)
    then Err "out of range"
    else Ok (mkLog (ml_base l) (take (Z.to_nat i - ml_base l) (ml_entries l)))
}.

Lemma ml_last_nonempty l :
  ml_last l <> 0 -> ml_last l = Z.of_nat (ml_base l) + zlen (ml_entries l) /\ ml_entries l <> [].
Proof. unfold ml_last. by destruct (ml_entries l). Qed.

Lemma ml_entry l i : log_entry l i = ml_lookup l i.
Proof. unfold log_entry. cbn [log_read memlog_ops]. by destruct (ml_lookup l i). Qed.

Lemma ml_last_make base es : es <> [] -> ml_last (mkLog base es) = Z.of_nat base + zlen es.
Proof. unfold ml_last. by destruct es. Qed.

Lemma memlog_write l batch :
  consecutive (ml_last l + 1) batch ->
  exists l', log_write l batch = Ok l' /\ log_last l' = log_last l + zlen batch /\
    (log_last l <> 0 -> log_first l' = log_first l) /\
    (log_last l = 0 -> batch <> [] -> log_first l' = 1) /\
    (forall i, i <= log_last l -> log_entry l' i = log_entry l i) /\
    (forall i b, (i, b) ∈ batch -> log_entry l' i = Some b).
Proof.
  intros Hc. pose proof (proj2 (consecutive_decP _ _) Hc) as Hd.
  cbn [log_write log_last log_first memlog_ops]. rewrite Hd. eexists. split; [done|].
  destruct l as [base es]. unfold ml_last in *. cbn [ml_base ml_entries] in *. split_and!.
  - destruct es as [|e es]; cbn [app].
    + destruct batch; [done|]. cbn [fmap list_fmap length]. rewrite length_fmap. lia.
    + cbn [length]. rewrite length_app, length_fmap. lia.
  - by destruct es.
  - destruct es; [done|]. cbn [length]. lia.
  - intros i Hi. rewrite !ml_entry. unfold ml_lookup. cbn [ml_base ml_entries].
    destruct es as [|e es]; [|destruct (Z.leb_spec i (Z.of_nat base)); [done|]].
    + rewrite (proj2 (Z.leb_le _ _)) by lia. by destruct (i <=? Z.of_nat base).
    + apply lookup_app_l. cbn [length] in *. lia.
  - intros i b Hin. destruct (consecutive_elem _ _ _ _ Hc Hin) as [Hle Hl].
    rewrite ml_entry. unfold ml_lookup. cbn [ml_base ml_entries]. destruct es as [|e es].
    + rewrite (proj2 (Z.leb_gt _ _)) by lia. rewrite app_nil_l, <- Hl. f_equal. lia.
    + rewrite (proj2 (Z.leb_gt _ _)) by lia. rewrite lookup_app_r by (cbn [length] in *; lia).
      rewrite <- Hl. f_equal. cbn [length] in *. lia.
Qed.

#[global] Instance memlog_laws : WalLaws memlog.
Proof.
  split; cbn [log_first log_last memlog_ops].
  - intros l. unfold ml_last. destruct (ml_entries l); lia.
  - intros l [-> Hn]%ml_last_nonempty. destruct (ml_entries l); [done|]. simpl. lia.
  - intros l i [-> Hn]%ml_last_nonempty Hi. rewrite ml_entry. unfold ml_lookup.
    rewrite (proj2 (Z.leb_gt _ _)) by lia. apply lookup_lt_is_Some. lia.
  - intros l i Hi. rewrite ml_entry. unfold ml_lookup, ml_last in *.
    destruct (Z.leb_spec i (Z.of_nat (ml_base l))); [done|]. apply lookup_ge_None.
    destruct (ml_entries l); [simpl; lia|]. cbn [length] in *. lia.
  - intros l batch. apply memlog_write.
  - intros l batch Hn. cbn [log_write memlog_ops].
    destruct (consecutive_dec (ml_last l + 1) batch) eqn:E; [|by eexists].
    by apply consecutive_decP in E.
  - intros l i [E Hn]%ml_last_nonempty Hi. rewrite E in *. cbn [log_truncate_front memlog_ops]. rewrite E.
    rewrite (proj2 (Z.eqb_neq _ _)), (proj2 (Z.leb_gt _ _)), (proj2 (Z.ltb_ge _ _)) by lia.
    eexists. split; [done|]. rewrite ml_last_make.
    2: { intros Hd. apply (f_equal length) in Hd. rewrite length_drop in Hd. simpl in Hd. lia. }
    rewrite length_drop. split_and!; [simpl; lia|lia|]. intros j Hj. rewrite !ml_entry.
    unfold ml_lookup. cbn [ml_base ml_entries]. rewrite !(proj2 (Z.leb_gt _ _)) by lia.
    rewrite lookup_drop. f_equal. lia.
  - intros l i [E Hn]%ml_last_nonempty Hi. rewrite E in *. cbn [log_truncate_back memlog_ops]. rewrite E.
    rewrite (proj2 (Z.eqb_neq _ _)), (proj2 (Z.leb_gt _ _)), (proj2 (Z.ltb_ge _ _)) by lia.
    eexists. split; [done|]. rewrite ml_last_make.
    2: { intros Hd. apply (f_equal length) in Hd. rewrite length_take in Hd. simpl in Hd. lia. }
    rewrite length_take. split_and!; [done|lia|]. intros j Hj. rewrite !ml_entry.
    unfold ml_lookup. cbn [ml_base ml_entries].
    destruct (Z.leb_spec j (Z.of_nat (ml_base l))); [done|]. apply lookup_take_lt. lia.
  - intros l i Hi. cbn [log_truncate_front log_truncate_back memlog_ops].
    assert ((ml_last l =? 0) || (i <=? Z.of_nat (ml_base l)) || (ml_last l <? i) = true) as ->;
      [|by do 2 eexists].
    rewrite !orb_true_iff, Z.eqb_eq, Z.leb_le, Z.ltb_lt. lia.
Qed.
