(* ===== verification/MultiTree.v ===== *)
(** * Many trees at one version: [memiavl/multitree.go]

    [MultiTree] with its operations as state-and-error computations, so that
    the receiver left behind by a failing call is part of the model.  The
    write-ahead log is an instance of [WalLog]; the encodings of its entries
    are those of file [Proto]. *)

From S2P Require Import Prelude KV Binary Sha256 Node Hash Snapshot Persisted Tree Proto Wal.
From Stdlib Require Import Strings.Byte.

Open Scope string_scope.
Open Scope Z_scope.
Open Scope list_scope.

(** Go's order on strings is the order of their bytes. *)
Definition name_ltb (a b : string) : bool :=
  bytes_ltb (String.list_byte_of_string a) (String.list_byte_of_string b).

(** ** Version arithmetic *)

Definition nextVersion (v initialVersion : Z) : Z :=
  if (v =? 0) && (1 <? initialVersion) then initialVersion else v + 1.

Definition walIndex (v initialVersion : Z) : Z :=
  if 1 <? initialVersion then u64 (u64 (u64 v - initialVersion) + 1) else u64 v.

Definition walVersion (index initialVersion : Z) : Z :=
  if 1 <? initialVersion then i64 (i64 (i64 index + initialVersion) - 1) else i64 index.

Section MultiTree.
Context {C : Type} `{Cache C}.

Record NamedTree := mkNamed { ntTree : Tree C; ntName : string }.

(** A nil [treesByName] is [None]. *)
Record MultiTree := mkMultiTree {
  initialVersion : Z;
  mtZeroCopy : bool;
  cacheSize : Z;
  trees : list NamedTree;
  treesByName : option (gmap string nat);
  lastCommitInfo : CommitInfo;
  metadata : MultiTreeMetadata
}.

Definition withTrees (t : MultiTree) (l : list NamedTree) : MultiTree :=
  mkMultiTree (initialVersion t) (mtZeroCopy t) (cacheSize t) l (treesByName t)
    (lastCommitInfo t) (metadata t).

Definition withNames (t : MultiTree) (m : option (gmap string nat)) : MultiTree :=
  mkMultiTree (initialVersion t) (mtZeroCopy t) (cacheSize t) (trees t) m
    (lastCommitInfo t) (metadata t).

Definition withCommitInfo (t : MultiTree) (ci : CommitInfo) : MultiTree :=
  mkMultiTree (initialVersion t) (mtZeroCopy t) (cacheSize t) (trees t) (treesByName t)
    ci (metadata t).

Definition mapTrees (f : Tree C -> Tree C) (l : list NamedTree) : list NamedTree :=
  (fun e => mkNamed (f (ntTree e)) (ntName e)) <$> l.

Definition NewEmptyMultiTree (initialVersion cacheSize : Z) : MultiTree :=
  mkMultiTree initialVersion true cacheSize [] (Some ∅) (mkCommitInfo 0 [])
    (mkMetadata None 0).

Definition TreeByName (t : MultiTree) (name : string) : option (Tree C) :=
  m ← treesByName t; i ← (m : gmap string nat) !! name; e ← trees t !! i; Some (ntTree e).

(** [MultiTree.setInitialVersion] *)
Definition mtSetInitialVersion (t : MultiTree) (iv : Z) : MultiTree :=
  mkMultiTree iv (mtZeroCopy t) (cacheSize t)
    (if 1 <? iv then mapTrees (fun tr => setInitialVersion tr iv) (trees t) else trees t)
    (treesByName t) (lastCommitInfo t) (metadata t).

Definition MTVersion (t : MultiTree) : Z := ciVersion (lastCommitInfo t).

(** A nil dereference on a tree that was not loaded. *)
Definition SnapshotVersion (t : MultiTree) : option Z := ciVersion <$> mdCommitInfo (metadata t).

Definition MTSetInitialVersion (iv : Z) : SE MultiTree unit :=
  if MaxUint32 <=? iv then throw "version overflows uint32"
  else
    v ← gets MTVersion;
    if negb (v =? 0) then throw "multi tree is not empty"
    else
      l ← gets trees;
      if List.forallb (fun e => IsEmpty (ntTree e)) l
      then modify (fun t => mtSetInitialVersion t (u32 iv))
      else throw "tree is not empty".

Definition MTSetZeroCopy (t : MultiTree) (z : bool) : MultiTree :=
  mkMultiTree (initialVersion t) z (cacheSize t) (mapTrees (fun tr => SetZeroCopy tr z) (trees t))
    (treesByName t) (lastCommitInfo t) (metadata t).

(** [Tree.Copy] on values: the same tree with a fresh cache, which for a committed
    tree is what file [CowTree] shows of the code. *)
Definition TreeCopy (tr : Tree C) (cacheSize : Z) : Tree C := withCache tr (NewCache cacheSize).

(** The index of the trees by name, the last of equal names winning. *)
Definition indexByName (l : list NamedTree) : gmap string nat :=
  foldl (fun m (p : nat * NamedTree) => <[ntName p.2 := p.1]> m) ∅ (imap pair l).

Definition MTCopy (t : MultiTree) (cacheSize' : Z) : MultiTree :=
  let l := mapTrees (fun tr => TreeCopy tr cacheSize') (trees t) in
  mkMultiTree (initialVersion t) (mtZeroCopy t) (cacheSize t) l (Some (indexByName l))
    (lastCommitInfo t) (metadata t).

(** ** Upgrades of store names *)

(** [slices.IndexFunc] on the name. *)
Definition indexOfName (l : list NamedTree) (name : string) : option nat :=
  fst <$> list_find (fun e => ntName e = name) l.

(** Swap with the last element, then drop the last. *)
Definition swapDelete (l : list NamedTree) (i : nat) : list NamedTree :=
  match last l with
  | Some e => take (pred (length l)) (<[i := e]> l)
  | None => []
  end.

Definition applyUpgrade (upgrade : TreeNameUpgrade) : SE MultiTree unit :=
  l ← gets trees;
  if upDelete upgrade then
    match indexOfName l (upName upgrade) with
    | None => throw "unknown tree name"
    | Some i => modify (fun t => withTrees t (swapDelete l i))
    end
  else if negb (bool_decide (upRenameFrom upgrade = "")) then
    match indexOfName l (upRenameFrom upgrade) with
    | None => throw "unknown tree name"
    | Some i => modify (fun t => withTrees t
                  (alter (fun e => mkNamed (ntTree e) (upName upgrade)) i l))
    end
  else
    next ← gets (fun t => nextVersion (MTVersion t) (initialVersion t));
    cs ← gets cacheSize;
    tree ← orPanic (NewWithInitialVersion (u32 next) cs);
    modify (fun t => withTrees t (l ++ [mkNamed tree (upName upgrade)])).

(** A stable sort by name. *)
Fixpoint insertByName (e : NamedTree) (l : list NamedTree) : list NamedTree :=
  match l with
  | [] => [e]
  | e' :: l' => if name_ltb (ntName e') (ntName e) then e' :: insertByName e l' else e :: l
  end.

Definition sortByName (l : list NamedTree) : list NamedTree := foldr insertByName [] l.

(** The loop that rebuilds [treesByName]: the map built so far and the conflict. *)
Fixpoint indexTrees (i : nat) (l : list NamedTree) (m : gmap string nat)
    : gmap string nat * option error :=
  match l with
  | [] => (m, None)
  | e :: l =>
      match m !! ntName e with
      | Some _ => (m, Some "memiavl tree name conflicts")
      | None => indexTrees (S i) l (<[ntName e := i]> m)
      end
  end.

Definition MTApplyUpgrades (upgrades : list TreeNameUpgrade) : SE MultiTree unit :=
  match upgrades with
  | [] => mret tt
  | _ =>
      _ ← modify (fun t => withNames t None);
      _ ← forM upgrades applyUpgrade;
      _ ← modify (fun t => withTrees t (sortByName (trees t)));
      r ← gets (fun t => indexTrees 0 (trees t) ∅);
      _ ← modify (fun t => withNames t (Some r.1));
      match r.2 with
      | Some e => throw e
      | None => mret tt
      end
  end.

(** ** Change sets *)

Definition MTApplyChangeSet (name : string) (cs : ChangeSet) : SE MultiTree unit :=
  m ← gets treesByName;
  match m ≫= (fun m : gmap string nat => m !! name) with
  | None => throw "unknown tree name"
  | Some i =>
      l ← gets trees;
      e ← orPanic (l !! i);
      tr ← orPanic (ApplyChangeSet (ntTree e) cs);
      modify (fun t => withTrees t (<[i := mkNamed tr (ntName e)]> l))
  end.

Definition MTApplyChangeSets (changeSets : list NamedChangeSet) : SE MultiTree unit :=
  forM changeSets (fun cs => MTApplyChangeSet (csName cs) (csPairs cs)).

Definition applyWALEntry (entry : WALEntry) : SE MultiTree unit :=
  _ ← MTApplyUpgrades (weUpgrades entry);
  MTApplyChangeSets (weChangesets entry).

(** ** Versions and commit info *)

Definition buildCommitInfo (t : MultiTree) (version : Z) : CommitInfo :=
  mkCommitInfo version
    ((fun e => mkStoreInfo (ntName e) (mkCommitID (Tree.version (ntTree e)) (RootHash (ntTree e)))) <$> trees t).

Definition WorkingCommitInfo (t : MultiTree) : CommitInfo :=
  buildCommitInfo t (nextVersion (MTVersion t) (initialVersion t)).

Definition UpdateCommitInfo (t : MultiTree) : MultiTree :=
  withCommitInfo t (buildCommitInfo t (MTVersion t)).

(** The trees are bumped one after the other; an overflow leaves the earlier
    ones bumped. *)
Fixpoint saveTrees (l : list NamedTree) (updateHash : bool) : list NamedTree * option error :=
  match l with
  | [] => ([], None)
  | e :: l =>
      match SaveVersion (ntTree e) updateHash with
      | Err err => (e :: l, Some err)
      | Ok (_, _, tr) =>
          let '(l, err) := saveTrees l updateHash in (mkNamed tr (ntName e) :: l, err)
      end
  end.

Definition MTSaveVersion (updateCommitInfo : bool) : SE MultiTree Z :=
  _ ← modify (fun t => withCommitInfo t
        (mkCommitInfo (nextVersion (MTVersion t) (initialVersion t))
           (ciStoreInfos (lastCommitInfo t))));
  r ← gets (fun t => saveTrees (trees t) updateCommitInfo);
  _ ← modify (fun t => withTrees t r.1);
  match r.2 with
  | Some e => throw e
  | None =>
      _ ← modify (fun t => if updateCommitInfo then UpdateCommitInfo t
                           else withCommitInfo t (mkCommitInfo (MTVersion t) []));
      gets MTVersion
  end.

Definition MTClose (t : MultiTree) : MultiTree :=
  mkMultiTree (initialVersion t) (mtZeroCopy t) (cacheSize t) [] None (mkCommitInfo 0 [])
    (metadata t).

(** ** Replay of the log *)

Section Catchup.
Context {L : Type} `{WalLog L}.

(** One round of the replay loop. *)
Definition replayIndex (wal : L) (i : Z) : SE MultiTree unit :=
  bz ← orErr (log_read wal i);
  entry ← orErr (WALEntry_Unmarshal bz);
  _ ← applyWALEntry entry;
  _ ← MTSaveVersion false;
  mret tt.

Definition CatchupWAL (wal : L) (endVersion : Z) : SE MultiTree unit :=
  let lastIndex := log_last wal in
  firstIndex ← gets (fun t => walIndex (nextVersion (MTVersion t) (initialVersion t))
                                (initialVersion t));
  if lastIndex <? firstIndex then mret tt
  else
    endIndex ← gets (fun t => if endVersion =? 0 then lastIndex
                              else walIndex endVersion (initialVersion t));
    if endIndex <? firstIndex then throw "target index is pruned"
    else
      let endIndex := if lastIndex <? endIndex then lastIndex else endIndex in
      _ ← forM ((fun k => firstIndex + Z.of_nat k) <$> seq 0 (Z.to_nat (endIndex - firstIndex + 1)))
            (replayIndex wal);
      modify UpdateCommitInfo.
End Catchup.

(** ** The index by name *)

Definition names (l : list NamedTree) : list string := ntName <$> l.

Definition indexed (m : gmap string nat) (l : list NamedTree) : Prop :=
  forall n i, m !! n = Some i <-> names l !! i = Some n.

Definition indexes_ok (t : MultiTree) : Prop :=
  exists m, treesByName t = Some m /\ indexed m (trees t).

Lemma indexed_NoDup m l : indexed m l -> NoDup (names l).
Proof.
  intros Hm. apply NoDup_alt. intros i j n Hi%Hm Hj%Hm. congruence.
Qed.

Lemma indexTrees_fresh i l m m' :
  indexTrees i l m = (m', None) ->
  NoDup (names l) /\ (forall n, n ∈ names l -> m !! n = None).
Proof.
  revert i m. induction l as [|e l IH]; intros i m; cbn [indexTrees names fmap list_fmap].
  { intros _. split; [constructor|]. by intros n ?%elem_of_nil. }
  destruct (m !! ntName e) as [k|] eqn:Ek; [done|]. intros [Hnd Hf]%IH. split.
  - apply NoDup_cons. split; [|done]. intros Hin%Hf. by rewrite lookup_insert_eq in Hin.
  - intros n [->|Hin]%elem_of_cons; [done|]. apply Hf in Hin.
    by apply lookup_insert_None in Hin as [? _].
Qed.

Lemma indexTrees_build i l m :
  NoDup (names l) -> (forall n, n ∈ names l -> m !! n = None) ->
  exists m', indexTrees i l m = (m', None) /\
    forall n j, m' !! n = Some j <->
      m !! n = Some j \/ ((i <= j)%nat /\ names l !! (j - i)%nat = Some n).
Proof.
  revert i m. induction l as [|e l IH]; intros i m; cbn [indexTrees names fmap list_fmap].
  { intros _ _. eexists. split; [done|]. intros n j. split; [auto|]. by intros [|[_ ?]]. }
  intros [Hnin Hnd]%NoDup_cons Hf. rewrite Hf by set_solver.
  destruct (IH (S i) (<[ntName e := i]> m) Hnd) as (m' & -> & Hm').
  { intros n Hin. rewrite lookup_insert_ne; [apply Hf; set_solver|by intros <-]. }
  eexists. split; [done|]. intros n j. rewrite Hm', lookup_insert_Some. split.
  - intros [[[<- <-]|[Hne Hj]]|[Hle Hl]]; [right|by left|right].
    + rewrite Nat.sub_diag. split; [lia|done].
    + replace (j - i)%nat with (S (j - S i)) by lia. split; [lia|done].
  - intros [Hj|[Hle Hl]].
    + left. right. split; [|done]. intros <-. rewrite Hf in Hj by set_solver. done.
    + destruct (decide (i = j)) as [<-|Hij].
      * rewrite Nat.sub_diag in Hl. injection Hl as <-. left. by left.
      * right. split; [lia|]. by replace (j - i)%nat with (S (j - S i)) in Hl by lia.
Qed.

Lemma indexTrees_indexed l :
  NoDup (names l) -> exists m, indexTrees 0 l ∅ = (m, None) /\ indexed m l.
Proof.
  intros Hnd. destruct (indexTrees_build 0 l ∅ Hnd) as (m & E & Hm); [done|].
  exists m. split; [done|]. intros n i. rewrite Hm, lookup_empty, Nat.sub_0_r.
  split; [by intros [|[_ ?]]|]. intros. right. split; [lia|done].
Qed.

(** ** Change sets act on each tree by itself *)

(** The pairs for one store, in order. *)
Fixpoint pairs_for (n : string) (css : list NamedChangeSet) : ChangeSet :=
  match css with
  | [] => []
  | cs :: css => (if bool_decide (csName cs = n) then csPairs cs else []) ++ pairs_for n css
  end.

Definition applyTo (css : list NamedChangeSet) (e : NamedTree) : option NamedTree :=
  tr ← ApplyChangeSet (ntTree e) (pairs_for (ntName e) css); Some (mkNamed tr (ntName e)).

Definition treesApply (css : list NamedChangeSet) (l : list NamedTree) : option (list NamedTree) :=
  mapM (applyTo css) l.

Lemma pairs_for_app n css1 css2 :
  pairs_for n (css1 ++ css2) = pairs_for n css1 ++ pairs_for n css2.
Proof.
  induction css1 as [|cs css1 IH]; [done|]. cbn [pairs_for app]. by rewrite IH, app_assoc.
Qed.

Lemma ApplyChangeSet_app (t : Tree C) cs1 cs2 :
  ApplyChangeSet t (cs1 ++ cs2) = t ← ApplyChangeSet t cs1; ApplyChangeSet t cs2.
Proof.
  revert t. induction cs1 as [|p cs1 IH]; intros t; [done|]. cbn [ApplyChangeSet app].
  destruct (if Delete p then _ else _); sbind; [apply IH|done].
Qed.

Lemma treesApply_ext css1 css2 l :
  (forall n, n ∈ names l -> pairs_for n css1 = pairs_for n css2) ->
  treesApply css1 l = treesApply css2 l.
Proof.
  unfold treesApply. induction l as [|e l IH]; intros Hp; [done|]. cbn [mapM].
  assert (applyTo css1 e = applyTo css2 e) as -> by (unfold applyTo; rewrite Hp; set_solver).
  rewrite IH; [done|]. intros n Hn. apply Hp. set_solver.
Qed.

Lemma treesApply_nil l : treesApply [] l = Some l.
Proof.
  unfold treesApply. induction l as [|[tr n] l IH]; [done|]. cbn [mapM]. rewrite IH. done.
Qed.

Lemma applyTo_app css1 css2 e :
  applyTo (css1 ++ css2) e = e ← applyTo css1 e; applyTo css2 e.
Proof.
  unfold applyTo. rewrite pairs_for_app, ApplyChangeSet_app.
  by destruct (ApplyChangeSet (ntTree e) (pairs_for (ntName e) css1)).
Qed.

Lemma treesApply_app css1 css2 l :
  treesApply (css1 ++ css2) l = l ← treesApply css1 l; treesApply css2 l.
Proof.
  unfold treesApply. induction l as [|e l IH]; [done|]. cbn [mapM]. rewrite applyTo_app, IH.
  destruct (applyTo css1 e) as [e1|]; sbind; [|done].
  destruct (mapM (applyTo css1) l) as [l1|]; sbind; [done|]. by destruct (applyTo css2 e1).
Qed.

Lemma applyTo_name css e e' : applyTo css e = Some e' -> ntName e' = ntName e.
Proof. unfold applyTo. destruct (ApplyChangeSet _ _); [|done]. by intros [= <-]. Qed.

Lemma treesApply_names css l l' : treesApply css l = Some l' -> names l' = names l.
Proof.
  unfold treesApply. revert l'. induction l as [|e l IH]; intros l'; cbn [mapM].
  { by intros [= <-]. }
  destruct (applyTo css e) as [e'|] eqn:E; [|done]. destruct (mapM (applyTo css) l) as [l1|]; [|done].
  intros [= <-]. cbn [names fmap list_fmap]. f_equal; [by eapply applyTo_name|by apply IH].
Qed.

(** A change set for one tree leaves the others alone. *)
Lemma treesApply_one n cs l i e :
  NoDup (names l) -> l !! i = Some e -> ntName e = n ->
  treesApply [mkNamedCS n cs] l =
  tr ← ApplyChangeSet (ntTree e) cs; Some (<[i := mkNamed tr (ntName e)]> l).
Proof.
  unfold treesApply. revert i. induction l as [|e' l IH]; intros i; [done|].
  cbn [names fmap list_fmap]. intros [Hnin Hnd]%NoDup_cons Hi <-. cbn [mapM].
  assert (applyTo [mkNamedCS (ntName e) cs] e' =
    tr ← ApplyChangeSet (ntTree e') (if bool_decide (ntName e = ntName e') then cs else []);
    Some (mkNamed tr (ntName e'))) as ->.
  { unfold applyTo. cbn [pairs_for csName csPairs]. by rewrite app_nil_r. }
  destruct i as [|i].
  - injection Hi as <-. rewrite bool_decide_true by done.
    replace (mapM (applyTo [mkNamedCS (ntName e') cs]) l) with (Some l).
    + by destruct (ApplyChangeSet (ntTree e') cs).
    + symmetry. rewrite <- (treesApply_nil l). apply treesApply_ext. intros n Hn. cbn.
      rewrite bool_decide_false; [done|]. by intros <-.
  - rewrite bool_decide_false.
    2: { intros E. apply Hnin. rewrite <- E. apply (list_elem_of_fmap_2 ntName).
         by eapply list_elem_of_lookup_2. }
    cbn [ApplyChangeSet]. sbind. rewrite (IH i) by done. destruct e'.
    by destruct (ApplyChangeSet (ntTree e) cs).
Qed.

Lemma indexes_withTrees t l :
  indexes_ok t -> names l = names (trees t) -> indexes_ok (withTrees t l).
Proof. intros (m & Em & Hm) En. exists m. split; [done|]. intros n i. cbn [trees withTrees]. by rewrite En. Qed.

Lemma MTApplyChangeSet_spec t n cs :
  indexes_ok t -> n ∈ names (trees t) ->
  MTApplyChangeSet n cs t =
  l ← treesApply [mkNamedCS n cs] (trees t); Some (Ok tt, withTrees t l).
Proof.
  intros (m & Em & Hm) Hn. pose proof (indexed_NoDup _ _ Hm) as Hnd.
  apply list_elem_of_lookup in Hn as [i Hi]. pose proof (proj2 (Hm n i) Hi) as Hmi.
  unfold names in Hi. rewrite list_lookup_fmap in Hi.
  destruct (trees t !! i) as [e|] eqn:Ee; [|done]. injection Hi as En.
  unfold MTApplyChangeSet. sstate. rewrite Em. sbind. rewrite Hmi. sstate. rewrite Ee. sstate.
  rewrite (treesApply_one n cs _ i e) by done. by destruct (ApplyChangeSet (ntTree e) cs).
Qed.

(** Applying change sets is applying to each tree what is meant for it. *)
Lemma MTApplyChangeSets_spec t css :
  indexes_ok t -> Forall (fun cs => csName cs ∈ names (trees t)) css ->
  MTApplyChangeSets css t =
  l ← treesApply css (trees t); Some (Ok tt, withTrees t l).
Proof.
  unfold MTApplyChangeSets. revert t. induction css as [|[n cs] css IH]; intros t Hi Hn.
  { rewrite treesApply_nil. by destruct t. }
  apply Forall_cons in Hn as [Hn Hns]. cbn [forM csName csPairs] in *. unfold mbind, SE_bind.
  rewrite MTApplyChangeSet_spec by done.
  change (mkNamedCS n cs :: css) with ([mkNamedCS n cs] ++ css). rewrite treesApply_app.
  destruct (treesApply [mkNamedCS n cs] (trees t)) as [l|] eqn:El; sbind; [|done].
  apply treesApply_names in El.
  rewrite IH; [done|by apply indexes_withTrees|]. cbn [trees withTrees]. by rewrite El.
Qed.

(** ** Upgrades act on the stores by name *)

(** The stores as a map; the list has no duplicate names. *)
Definition represents (l : list NamedTree) (m : gmap string (Tree C)) : Prop :=
  NoDup (names l) /\ forall n t, m !! n = Some t <-> mkNamed t n ∈ l.

(** The meaning of one upgrade, when it does not pass through a clash of
    names; [fresh] is the tree a new store starts with. *)
Definition upgrade_spec (fresh : Tree C) (m : gmap string (Tree C)) (u : TreeNameUpgrade)
    : option (gmap string (Tree C)) :=
  if upDelete u then
    _ ← m !! upName u; Some (delete (upName u) m)
  else if negb (bool_decide (upRenameFrom u = "")) then
    t ← m !! upRenameFrom u;
    if decide (delete (upRenameFrom u) m !! upName u = None)
    then Some (<[upName u := t]> (delete (upRenameFrom u) m)) else None
  else if decide (m !! upName u = None) then Some (<[upName u := fresh]> m) else None.

Lemma represents_perm l l' m : l ≡ₚ l' -> represents l m -> represents l' m.
Proof.
  intros Hp [Hnd Hm]. split.
  - unfold names in *. by rewrite <- Hp.
  - intros n t. by rewrite <- Hp.
Qed.

Lemma names_elem l n t : mkNamed t n ∈ l -> n ∈ names l.
Proof. apply (list_elem_of_fmap_2 ntName). Qed.

Lemma represents_cons e l m :
  represents l m -> m !! ntName e = None ->
  represents (e :: l) (<[ntName e := ntTree e]> m).
Proof.
  intros [Hnd Hm] Hn. split.
  - cbn [names fmap list_fmap]. apply NoDup_cons. split; [|done].
    intros (x & E & Hx)%list_elem_of_fmap. destruct x as [t n]. cbn in E. subst n.
    apply Hm in Hx. congruence.
  - intros n t. rewrite lookup_insert_Some, elem_of_cons, Hm. destruct e as [te ne]. cbn.
    split; [|naive_solver]. intros [[-> ->]|[_ ?]]; auto.
Qed.

Lemma represents_delete e l m :
  represents (e :: l) m -> m !! ntName e = Some (ntTree e) /\ represents l (delete (ntName e) m).
Proof.
  intros [[Hnin Hnd]%NoDup_cons Hm]. destruct e as [te ne]. cbn [ntName ntTree] in *.
  split; [apply Hm; by left|]. split; [done|]. intros n t.
  rewrite lookup_delete_Some, Hm, elem_of_cons. split; [naive_solver|].
  intros Hin. split; [|by right]. intros ->. by apply names_elem in Hin.
Qed.

Lemma list_find_name l n :
  match indexOfName l n with
  | Some i => exists e, l !! i = Some e /\ ntName e = n
  | None => n ∉ names l
  end.
Proof.
  unfold indexOfName. destruct (list_find _ l) as [[i e]|] eqn:E; cbn [fmap option_fmap option_map fst].
  - apply list_find_Some in E as (Hi & Hn & _). by exists e.
  - apply list_find_None in E. rewrite Forall_forall in E.
    by intros (e & -> & Hin%E)%list_elem_of_fmap.
Qed.

Lemma swapDelete_perm l i e : l !! i = Some e -> e :: swapDelete l i ≡ₚ l.
Proof.
  intros Hi. destruct l as [|x l _] using rev_ind; [done|]. unfold swapDelete.
  rewrite last_snoc, length_app, Nat.add_comm. cbn [pred plus length].
  pose proof (lookup_lt_Some _ _ _ Hi) as Hlt. rewrite length_app in Hlt. cbn [length] in Hlt.
  destruct (decide (i < length l)%nat) as [H1|H1].
  - rewrite lookup_app_l in Hi by done. rewrite insert_app_l by done.
    rewrite take_app_length' by (by rewrite length_insert).
    rewrite insert_take_drop by done. rewrite <- (take_drop_middle l i e Hi) at 3.
    solve_Permutation.
  - replace i with (length l) in * by lia. rewrite lookup_app_r, Nat.sub_diag in Hi by lia.
    injection Hi as ->. rewrite list_insert_id by (by rewrite lookup_app_r, Nat.sub_diag by lia).
    rewrite take_app_length. solve_Permutation.
Qed.

Lemma alter_perm (l : list NamedTree) i e f :
  l !! i = Some e -> exists l', l ≡ₚ e :: l' /\ alter f i l ≡ₚ f e :: l'.
Proof.
  revert i. induction l as [|x l IH]; intros [|i]; try done; cbn.
  - intros [= ->]. by exists l.
  - intros (l' & E1 & E2)%IH. exists (x :: l'). split; [rewrite E1|rewrite E2]; constructor.
Qed.

Lemma applyUpgrade_spec t u fresh m m' :
  NewWithInitialVersion (u32 (nextVersion (MTVersion t) (initialVersion t))) (cacheSize t) = Some fresh ->
  represents (trees t) m -> upgrade_spec fresh m u = Some m' ->
  exists l, applyUpgrade u t = Some (Ok tt, withTrees t l) /\ represents l m'.
Proof.
  intros Hf Hr Hu. unfold applyUpgrade, upgrade_spec in *. sstate. destruct (upDelete u).
  - destruct (m !! upName u) as [tr|] eqn:Em; [|done]. injection Hu as <-.
    pose proof (list_find_name (trees t) (upName u)) as Hl. apply Hr in Em.
    destruct (indexOfName (trees t) (upName u)) as [i|]; [|by apply names_elem in Em].
    destruct Hl as (e & Hi & <-). eexists. split; [reflexivity|].
    eapply represents_delete, represents_perm; [|done]. by rewrite swapDelete_perm.
  - destruct (negb (bool_decide (upRenameFrom u = ""))).
    + destruct (m !! upRenameFrom u) as [tr|] eqn:Em; [|done]. cbn in Hu.
      case_decide as Hfree; [|done]. injection Hu as <-.
      pose proof (list_find_name (trees t) (upRenameFrom u)) as Hl. pose proof Em as Hin%Hr.
      destruct (indexOfName (trees t) (upRenameFrom u)) as [i|]; [|by apply names_elem in Hin].
      destruct Hl as (e & Hi & En). eexists. split; [reflexivity|].
      destruct (alter_perm _ _ _ (fun e => mkNamed (ntTree e) (upName u)) Hi) as (l' & P1 & P2).
      apply (represents_perm _ _ _ P1) in Hr. apply represents_delete in Hr as [Ee Hr].
      rewrite En in *. eapply represents_perm; [symmetry; exact P2|].
      replace tr with (ntTree e) by congruence.
      by apply (represents_cons (mkNamed (ntTree e) (upName u))).
    + case_decide as Hfree; [|done]. injection Hu as <-. sstate. rewrite Hf. sstate.
      eexists. split; [reflexivity|]. eapply represents_perm; [apply Permutation_cons_append|].
      by apply (represents_cons (mkNamed fresh (upName u))).
Qed.

(** *** Sorting *)

Definition name_le (a b : string) : Prop := name_ltb b a = false.

Lemma name_ltb_spec a b :
  BoolSpec (String.list_byte_of_string a <b String.list_byte_of_string b)
    (String.list_byte_of_string b <=b String.list_byte_of_string a) (name_ltb a b).
Proof. apply bytes_ltb_spec. Qed.

Lemma name_le_bytes a b :
  name_le a b <-> String.list_byte_of_string a <=b String.list_byte_of_string b.
Proof. unfold name_le. destruct (name_ltb_spec b a); split; intros ?; (done || bytes_order). Qed.

Lemma insertByName_perm e l : insertByName e l ≡ₚ e :: l.
Proof.
  induction l as [|e' l IH]; [done|]. cbn [insertByName].
  destruct (name_ltb (ntName e') (ntName e)); [|done]. rewrite IH. constructor.
Qed.

Lemma sortByName_perm l : sortByName l ≡ₚ l.
Proof.
  induction l as [|e l IH]; [done|]. cbn [sortByName foldr].
  fold (sortByName l). by rewrite insertByName_perm, IH.
Qed.

Definition sorted_names (l : list NamedTree) : Prop :=
  StronglySorted (fun e e' => name_le (ntName e) (ntName e')) l.

Lemma insertByName_sorted e l : sorted_names l -> sorted_names (insertByName e l).
Proof.
  unfold sorted_names. induction l as [|e' l IH]; intros Hs; cbn [insertByName].
  { repeat constructor. }
  inversion Hs as [|? ? Hs' Hf]; subst. destruct (name_ltb (ntName e') (ntName e)) eqn:E.
  - constructor; [auto|]. rewrite insertByName_perm. constructor; [|done].
    apply name_le_bytes. destruct (name_ltb_spec (ntName e') (ntName e)); [bytes_order|done].
  - constructor; [done|]. constructor; [done|]. eapply Forall_impl; [exact Hf|].
    intros x Hx. apply name_le_bytes in Hx, E. apply name_le_bytes. bytes_order.
Qed.

Lemma sortByName_sorted l : sorted_names (sortByName l).
Proof.
  induction l as [|e l IH]; [constructor|]. cbn [sortByName foldr]. by apply insertByName_sorted.
Qed.

Fixpoint upgrades_spec (fresh : Tree C) (m : gmap string (Tree C)) (us : list TreeNameUpgrade)
    : option (gmap string (Tree C)) :=
  match us with
  | [] => Some m
  | u :: us => m ← upgrade_spec fresh m u; upgrades_spec fresh m us
  end.

Lemma forM_applyUpgrade us t fresh m m' :
  NewWithInitialVersion (u32 (nextVersion (MTVersion t) (initialVersion t))) (cacheSize t) = Some fresh ->
  represents (trees t) m -> upgrades_spec fresh m us = Some m' ->
  exists l, forM us applyUpgrade t = Some (Ok tt, withTrees t l) /\ represents l m'.
Proof.
  revert t m. induction us as [|u us IH]; intros t m Hf Hr Hu.
  - injection Hu as <-. exists (trees t). split; [by destruct t|done].
  - cbn [upgrades_spec] in Hu. destruct (upgrade_spec fresh m u) as [m1|] eqn:E1; [|done].
    cbn in Hu. destruct (applyUpgrade_spec t u fresh m m1 Hf Hr E1) as (l1 & El1 & Hr1).
    destruct (IH (withTrees t l1) m1 Hf Hr1 Hu) as (l & El & Hl).
    exists l. cbn [forM]. rewrite (SE_bind_ok _ _ _ _ _ El1). by rewrite El.
Qed.

(** What a non-empty batch of upgrades leaves, whatever it did: unique names, in
    order, indexed. *)
Lemma MTApplyUpgrades_names us t t' :
  us <> [] -> MTApplyUpgrades us t = Some (Ok tt, t') ->
  indexes_ok t' /\ sorted_names (trees t').
Proof.
  intros Hus E. destruct us as [|u us]; [done|]. cbn [MTApplyUpgrades] in E.
  rewrite SE_bind_modify in E. apply SE_bind_inv in E.
  destruct (forM _ _ _) as [[[|] t1]|]; try done. autorewrite with sstate in E.
  set (l := sortByName (trees t1)) in *. cbn [trees withTrees] in E.
  destruct (indexTrees 0 l ∅) as [m [err|]] eqn:Em; [done|]. injection E as <-.
  destruct (indexTrees_fresh _ _ _ _ Em) as [Hnd _].
  destruct (indexTrees_indexed l Hnd) as (m' & Em' & Hm'). rewrite Em in Em'.
  injection Em' as <-. split; [by exists m|]. apply sortByName_sorted.
Qed.

Lemma MTApplyUpgrades_spec us t fresh m m' :
  us <> [] ->
  NewWithInitialVersion (u32 (nextVersion (MTVersion t) (initialVersion t))) (cacheSize t) = Some fresh ->
  represents (trees t) m -> upgrades_spec fresh m us = Some m' ->
  exists l idx, MTApplyUpgrades us t = Some (Ok tt, withNames (withTrees t l) (Some idx)) /\
    represents l m' /\ indexed idx l /\ sorted_names l.
Proof.
  intros Hus Hf Hr Hu. destruct us as [|u us]; [done|]. cbn [MTApplyUpgrades]. sstate.
  destruct (forM_applyUpgrade (u :: us) (withNames t None) fresh m m' Hf Hr Hu) as (l & El & Hl).
  rewrite (SE_bind_ok _ _ _ _ _ El). sstate. cbn [trees withTrees].
  pose proof (represents_perm _ _ _ (Permutation_sym (sortByName_perm l)) Hl) as Hs.
  destruct (indexTrees_indexed (sortByName l) (proj1 Hs)) as (idx & E & Hidx).
  rewrite E. cbn [fst snd]. eexists _, idx. split; [reflexivity|].
  split_and!; [done|done|apply sortByName_sorted].
Qed.

(** ** Saving a version *)

Lemma saveTrees_spec l uh v :
  0 <= v < MaxUint32 -> Forall (fun e => version (ntTree e) = v) l ->
  saveTrees l uh = (mapTrees (fun tr => withVersion tr (v + 1)) l, None).
Proof.
  intros Hv. induction l as [|e l IH]; intros Hl; [done|]. apply Forall_cons in Hl as [He Hl].
  cbn [saveTrees mapTrees fmap list_fmap]. unfold SaveVersion. rewrite He.
  rewrite (proj2 (Z.eqb_neq _ _)) by lia. cbn [fail_if]. sbind.
  rewrite u32_id by (unfold MaxUint32 in *; lia). by rewrite IH.
Qed.

(** The version all trees are at: one before the next. *)
Definition treeVersion (t : MultiTree) : Z := nextVersion (MTVersion t) (initialVersion t) - 1.

Definition versions_ok (t : MultiTree) : Prop :=
  0 <= MTVersion t /\ 0 <= initialVersion t < 2 ^ 32 /\ 0 <= treeVersion t /\
  Forall (fun e => version (ntTree e) = treeVersion t) (trees t).

Lemma nextVersion_pos v iv : 0 <= v -> v + 1 <= nextVersion v iv.
Proof.
  intros Hv. unfold nextVersion. destruct (Z.eqb_spec v 0), (Z.ltb_spec 1 iv); cbn [andb]; lia.
Qed.

Lemma nextVersion_next v iv :
  0 <= v -> nextVersion (nextVersion v iv) iv = nextVersion v iv + 1.
Proof.
  intros Hv. pose proof (nextVersion_pos v iv Hv). unfold nextVersion at 1.
  by rewrite (proj2 (Z.eqb_neq (nextVersion v iv) 0)) by lia.
Qed.

(** The state after a successful save. *)
Definition saved (t : MultiTree) (updateCommitInfo : bool) : MultiTree :=
  let v := nextVersion (MTVersion t) (initialVersion t) in
  let t := withTrees t (mapTrees (fun tr => withVersion tr v) (trees t)) in
  withCommitInfo t (if updateCommitInfo then buildCommitInfo t v else mkCommitInfo v []).

Lemma MTSaveVersion_spec t uci :
  versions_ok t -> treeVersion t < MaxUint32 ->
  MTSaveVersion uci t = Some (Ok (nextVersion (MTVersion t) (initialVersion t)), saved t uci) /\
  versions_ok (saved t uci) /\ treeVersion (saved t uci) = treeVersion t + 1.
Proof.
  intros (Hv & Hi & Ht & Hl) Hlt. unfold MTSaveVersion. sstate. cbn [trees withCommitInfo].
  rewrite (saveTrees_spec _ _ (treeVersion t)) by (done || lia). cbn [fst snd]. sstate.
  assert (treeVersion t + 1 = nextVersion (MTVersion t) (initialVersion t)) as En
    by (unfold treeVersion; lia).
  rewrite En. pose proof (nextVersion_pos (MTVersion t) (initialVersion t) Hv).
  assert (MTVersion (saved t uci) = nextVersion (MTVersion t) (initialVersion t)) as Es
    by (by destruct uci).
  assert (treeVersion (saved t uci) = nextVersion (MTVersion t) (initialVersion t)) as Et.
  { unfold treeVersion. rewrite Es. cbn [initialVersion saved withCommitInfo withTrees].
    rewrite nextVersion_next by done. lia. }
  split; [|split; [|lia]].
  - unfold saved. by destruct uci.
  - unfold versions_ok. rewrite Es, Et. split; [lia|]. split; [exact Hi|]. split; [lia|].
    change (trees (saved t uci)) with (mapTrees (fun tr => withVersion tr
      (nextVersion (MTVersion t) (initialVersion t))) (trees t)).
    by apply Forall_fmap, Forall_forall.
Qed.

(** ** States that differ only in caches, snapshots and cached commit info *)

Definition same_tree (a b : Tree C) : Prop := version a = version b /\ treeRoot a = treeRoot b.

Definition same_named (a b : NamedTree) : Prop :=
  ntName a = ntName b /\ same_tree (ntTree a) (ntTree b).

#[global] Instance MultiTree_equiv : Equiv MultiTree := fun a b =>
  initialVersion a = initialVersion b /\ MTVersion a = MTVersion b /\
  treesByName a = treesByName b /\ Forall2 same_named (trees a) (trees b).

#[global] Instance same_named_equivalence : Equivalence same_named.
Proof. unfold same_named, same_tree. split; repeat intros ?; intuition congruence. Qed.

#[global] Instance MultiTree_equivalence : Equivalence (≡@{MultiTree}).
Proof.
  unfold equiv, MultiTree_equiv. split.
  - intros a. by split_and!.
  - intros a b (?&?&?&?). by split_and!.
  - intros a b c (?&?&?&?) (?&?&?&?). split_and!; [congruence..|]. by etrans.
Qed.

Definition rel_result {A B} (R : A -> B -> Prop) (a : result A) (b : result B) : Prop :=
  match a, b with
  | Ok a, Ok b => R a b
  | Err e, Err e' => e = e'
  | _, _ => False
  end.

(** Two computations that keep equivalent states equivalent and return related
    results. *)
Definition rel {A B} (R : A -> B -> Prop) (f : SE MultiTree A) (g : SE MultiTree B) : Prop :=
  forall s1 s2, s1 ≡ s2 ->
    option_Forall2 (fun p q => rel_result R p.1 q.1 /\ p.2 ≡ q.2) (f s1) (g s2).

Lemma rel_bind {A B A' B'} (R : A -> B -> Prop) (Q : A' -> B' -> Prop) f g k h :
  rel R f g -> (forall a b, R a b -> rel Q (k a) (h b)) -> rel Q (f ≫= k) (g ≫= h).
Proof.
  intros Hf Hk s1 s2 Hs. specialize (Hf s1 s2 Hs). unfold mbind, SE_bind.
  destruct Hf as [[r1 t1] [r2 t2] [Hr Ht]|]; [|constructor]. cbn [fst snd] in *.
  destruct r1, r2; cbn in Hr; try done; [by apply Hk|]. subst. by constructor.
Qed.

Lemma rel_ret {A B} (R : A -> B -> Prop) a b : R a b -> rel R (mret a) (mret b).
Proof. intros HR s1 s2 Hs. by constructor. Qed.

Lemma rel_gets {A B} (R : A -> B -> Prop) f g :
  (forall s1 s2, s1 ≡ s2 -> R (f s1) (g s2)) -> rel R (gets f) (gets g).
Proof. intros HR s1 s2 Hs. constructor. split; [by apply HR|done]. Qed.

Lemma rel_modify f g :
  (forall s1 s2, s1 ≡ s2 -> f s1 ≡ g s2) -> rel eq (modify f) (modify g).
Proof. intros HR s1 s2 Hs. constructor. split; [done|by apply HR]. Qed.

Lemma rel_throw {A B} (R : A -> B -> Prop) e : rel R (throw e) (throw e).
Proof. intros s1 s2 Hs. by constructor. Qed.

Lemma rel_orPanic {A B} (R : A -> B -> Prop) a b :
  option_Forall2 R a b -> rel R (orPanic a) (orPanic b).
Proof. intros HR s1 s2 Hs. unfold orPanic. destruct HR; by constructor. Qed.

Lemma rel_orErr {A} (a : result A) : rel eq (orErr a) (orErr a).
Proof. intros s1 s2 Hs. constructor. split; [|done]. by destruct a. Qed.

Lemma rel_forM {A} (l : list A) f g :
  (forall a, rel eq (f a) (g a)) -> rel eq (forM l f) (forM l g).
Proof.
  intros Hf. induction l as [|a l IH]; cbn [forM]; [by apply rel_ret|].
  eapply rel_bind; [apply Hf|]. by intros ? ? _.
Qed.

(** *** The operations respect the equivalence *)

Lemma same_names l1 l2 : Forall2 same_named l1 l2 -> names l1 = names l2.
Proof. induction 1 as [|a b l1 l2 [Hn _] _ IH]; [done|]. cbn. f_equal; [done|exact IH]. Qed.

Lemma withTrees_equiv s1 s2 l1 l2 :
  s1 ≡ s2 -> Forall2 same_named l1 l2 -> withTrees s1 l1 ≡ withTrees s2 l2.
Proof. intros (?&?&?&?) Hl. by split_and!. Qed.

Lemma withNames_equiv s1 s2 m : s1 ≡ s2 -> withNames s1 m ≡ withNames s2 m.
Proof. intros (?&?&?&?). by split_and!. Qed.

Lemma withCommitInfo_equiv s1 s2 c1 c2 :
  s1 ≡ s2 -> ciVersion c1 = ciVersion c2 -> withCommitInfo s1 c1 ≡ withCommitInfo s2 c2.
Proof. intros (?&?&?&?) Hc. by split_and!. Qed.

Lemma indexOfName_equiv l1 l2 n :
  Forall2 same_named l1 l2 -> indexOfName l1 n = indexOfName l2 n.
Proof.
  unfold indexOfName. induction 1 as [|a b l1 l2 [Hn _] _ IH]; [done|]. cbn [list_find].
  rewrite Hn. case_decide; [done|].
  destruct (list_find _ l1) as [[]|], (list_find _ l2) as [[]|]; cbn in *; congruence.
Qed.

Lemma swapDelete_equiv l1 l2 i :
  Forall2 same_named l1 l2 -> Forall2 same_named (swapDelete l1 i) (swapDelete l2 i).
Proof.
  intros Hl. unfold swapDelete. rewrite (Forall2_length _ _ _ Hl).
  pose proof (Forall2_last _ _ _ Hl) as Hlast. destruct Hlast; [|constructor].
  by apply Forall2_take, Forall2_insert.
Qed.

Lemma insertByName_equiv a b l1 l2 :
  same_named a b -> Forall2 same_named l1 l2 ->
  Forall2 same_named (insertByName a l1) (insertByName b l2).
Proof.
  intros Hab. induction 1 as [|c d k1 k2 Hcd Hk IH]; cbn [insertByName]; [by constructor|].
  rewrite (proj1 Hab), (proj1 Hcd). destruct (name_ltb _ _);
    [by constructor|constructor; [done|by constructor]].
Qed.

Lemma sortByName_equiv l1 l2 :
  Forall2 same_named l1 l2 -> Forall2 same_named (sortByName l1) (sortByName l2).
Proof.
  induction 1 as [|a b l1 l2 Hab _ IH]; [constructor|]. by apply insertByName_equiv.
Qed.

Lemma indexTrees_names i l1 l2 m : names l1 = names l2 -> indexTrees i l1 m = indexTrees i l2 m.
Proof.
  revert i l2 m. induction l1 as [|a l1 IH]; intros i [|b l2] m; try done. cbn.
  intros [= Hn Hl]. rewrite Hn. destruct (m !! ntName b); [done|]. by apply IH.
Qed.

Lemma ApplyChangeSet_equiv a b cs :
  same_tree a b -> option_Forall2 same_tree (ApplyChangeSet a cs) (ApplyChangeSet b cs).
Proof.
  revert a b. induction cs as [|p cs IH]; intros a b [Hv Hr]; cbn [ApplyChangeSet]; [by constructor|].
  unfold remove, set. rewrite Hv, Hr. destruct (Delete p).
  - destruct (removeRecursive _ _ _) as [[[x n] k]|]; cbn; [by apply IH|constructor].
  - destruct (setRecursive _ _ _ _) as [[n u]|]; cbn; [by apply IH|constructor].
Qed.

Lemma NewWithInitialVersion_equiv v c1 c2 :
  option_Forall2 same_tree (NewWithInitialVersion v c1) (NewWithInitialVersion v c2).
Proof.
  unfold NewWithInitialVersion, New, NewEmptyTree.
  destruct (v <=? 1); destruct (MaxUint32 <=? _); constructor; done.
Qed.

Lemma saveTrees_equiv l1 l2 b1 b2 :
  Forall2 same_named l1 l2 ->
  Forall2 same_named (saveTrees l1 b1).1 (saveTrees l2 b2).1 /\
  (saveTrees l1 b1).2 = (saveTrees l2 b2).2.
Proof.
  induction 1 as [|a b l1 l2 [Hn [Hv Hr]] Hl IH]; [by split|]. cbn [saveTrees].
  unfold SaveVersion. rewrite Hv. destruct (version (ntTree b) =? MaxUint32); sbind.
  - split; [by constructor|done].
  - cbn [fail_if mbind result_bind]. destruct (saveTrees l1 b1) as [k1 e1], (saveTrees l2 b2) as [k2 e2].
    cbn [fst snd] in *. destruct IH as [IH ->]. split; [|done]. by constructor.
Qed.

Lemma applyUpgrade_rel u : rel eq (applyUpgrade u) (applyUpgrade u).
Proof.
  unfold applyUpgrade. eapply (rel_bind (Forall2 same_named)).
  { apply rel_gets. by intros ? ? (_&_&_&?). }
  intros l1 l2 Hl. destruct (upDelete u).
  - rewrite (indexOfName_equiv _ _ _ Hl). destruct (indexOfName l2 (upName u)); [|apply rel_throw].
    apply rel_modify. intros. by apply withTrees_equiv, swapDelete_equiv.
  - destruct (negb _).
    + rewrite (indexOfName_equiv _ _ _ Hl).
      destruct (indexOfName l2 (upRenameFrom u)); [|apply rel_throw].
      apply rel_modify. intros. apply withTrees_equiv; [done|].
      apply Forall2_alter; [done|]. by intros a b _ _ [_ ?].
    + eapply (rel_bind eq). { apply rel_gets. by intros ? ? (->&->&_). }
      intros v ? <-. eapply (rel_bind (fun _ _ => True)); [by apply rel_gets|]. intros c1 c2 _.
      eapply rel_bind; [apply rel_orPanic, NewWithInitialVersion_equiv|]. intros t1 t2 Ht.
      apply rel_modify. intros. apply withTrees_equiv; [done|].
      apply Forall2_app; [done|]. by repeat constructor; try apply Ht.
Qed.

Lemma MTApplyUpgrades_rel us : rel eq (MTApplyUpgrades us) (MTApplyUpgrades us).
Proof.
  destruct us as [|u us]; [by apply rel_ret|]. cbn [MTApplyUpgrades].
  eapply (rel_bind eq); [apply rel_modify; intros; by apply withNames_equiv|]. intros ? ? _.
  eapply (rel_bind eq); [apply rel_forM, applyUpgrade_rel|]. intros ? ? _.
  eapply (rel_bind eq).
  { apply rel_modify. intros ? ? Hs. apply withTrees_equiv, sortByName_equiv; [done|apply Hs]. }
  intros ? ? _. eapply (rel_bind eq).
  { apply rel_gets. intros ? ? (_&_&_&Hl%same_names). by apply indexTrees_names. }
  intros r ? <-. eapply (rel_bind eq); [apply rel_modify; intros; by apply withNames_equiv|].
  intros ? ? _. destruct (r.2); [apply rel_throw|by apply rel_ret].
Qed.

Lemma MTApplyChangeSet_rel n cs : rel eq (MTApplyChangeSet n cs) (MTApplyChangeSet n cs).
Proof.
  unfold MTApplyChangeSet. eapply (rel_bind eq). { apply rel_gets. by intros ? ? (_&_&->&_). }
  intros m ? <-. destruct (m ≫= _) as [i|]; [|apply rel_throw].
  eapply (rel_bind (Forall2 same_named)). { apply rel_gets. by intros ? ? (_&_&_&?). }
  intros l1 l2 Hl. eapply (rel_bind same_named); [by apply rel_orPanic, Forall2_lookup|].
  intros e1 e2 [Hn Ht]. eapply rel_bind; [by apply rel_orPanic, ApplyChangeSet_equiv|].
  intros t1 t2 Ht'. apply rel_modify. intros. apply withTrees_equiv; [done|].
  by apply Forall2_insert.
Qed.

Lemma applyWALEntry_rel e : rel eq (applyWALEntry e) (applyWALEntry e).
Proof.
  unfold applyWALEntry. eapply (rel_bind eq); [apply MTApplyUpgrades_rel|]. intros ? ? _.
  apply rel_forM. intros. apply MTApplyChangeSet_rel.
Qed.

Lemma MTSaveVersion_rel b1 b2 : rel eq (MTSaveVersion b1) (MTSaveVersion b2).
Proof.
  unfold MTSaveVersion. eapply (rel_bind eq).
  { apply rel_modify. intros s1 s2 Hs. apply withCommitInfo_equiv; [done|].
    destruct Hs as (Hi & Hv & _). cbn. by rewrite Hi, Hv. }
  intros ? ? _.
  eapply (rel_bind (fun p q => Forall2 same_named p.1 q.1 /\ p.2 = q.2)).
  { apply rel_gets. intros ? ? (_&_&_&?). by apply saveTrees_equiv. }
  intros [l1 e1] [l2 e2] [Hl He]. cbn [fst snd] in *. subst e2.
  eapply (rel_bind eq); [apply rel_modify; intros; by apply withTrees_equiv|]. intros ? ? _.
  destruct e1; [apply rel_throw|]. eapply (rel_bind eq).
  { apply rel_modify. intros s1 s2 Hs. destruct b1, b2; apply withCommitInfo_equiv; try done;
      apply Hs. }
  intros ? ? _. apply rel_gets. by intros ? ? (_&->&_).
Qed.

(** ** Replay *)

(** The replay of decoded entries. *)
Definition replayEntry (e : WALEntry) : SE MultiTree unit :=
  _ ← applyWALEntry e; _ ← MTSaveVersion false; mret tt.

Definition replay (es : list WALEntry) : SE MultiTree unit := forM es replayEntry.

Lemma replayEntry_rel e : rel eq (replayEntry e) (replayEntry e).
Proof.
  unfold replayEntry. eapply (rel_bind eq); [apply applyWALEntry_rel|]. intros ? ? _.
  eapply (rel_bind eq); [apply MTSaveVersion_rel|]. intros ? ? _. by apply rel_ret.
Qed.

Lemma replay_rel es : rel eq (replay es) (replay es).
Proof. apply rel_forM, replayEntry_rel. Qed.

(** Committing with or without updating the commit info leaves equivalent
    states. *)
Lemma rel_ok {A} (f g : SE MultiTree A) s1 s2 a t1 :
  rel eq f g -> s1 ≡ s2 -> f s1 = Some (Ok a, t1) -> exists t2, g s2 = Some (Ok a, t2) /\ t1 ≡ t2.
Proof.
  intros Hr Hs E. specialize (Hr s1 s2 Hs). rewrite E in Hr. inversion Hr as [? [[b|] t2] [Hab Ht] Heq|].
  - cbn in Hab. subst. by exists t2.
  - done.
Qed.

(** Decoded entries act as the entries that were encoded. *)
Lemma ApplyChangeSet_canon (t : Tree C) cs :
  ApplyChangeSet t (canon_pair <$> cs) = ApplyChangeSet t cs.
Proof.
  revert t. induction cs as [|p cs IH]; intros t; [done|]. cbn [fmap list_fmap ApplyChangeSet].
  assert (set t (PairKey (canon_pair p)) (PairValue (canon_pair p)) =
    set t (PairKey p) (PairValue p)) as ->.
  { unfold set, canon_pair. cbn [PairKey PairValue]. by destruct (PairValue p) as [[|]|]. }
  change (Delete (canon_pair p)) with (Delete p). change (PairKey (canon_pair p)) with (PairKey p).
  destruct (if Delete p then _ else _) as [t'|]; sbind; [apply IH|done].
Qed.

Lemma applyWALEntry_canon e s : applyWALEntry (canon_entry e) s = applyWALEntry e s.
Proof.
  unfold applyWALEntry, canon_entry. cbn [weUpgrades weChangesets]. unfold mbind, SE_bind.
  destruct (MTApplyUpgrades (weUpgrades e) s) as [[[] t]|]; [|done|done].
  unfold MTApplyChangeSets. revert t. induction (weChangesets e) as [|cs css IH]; intros t; [done|].
  cbn [fmap list_fmap forM]. unfold mbind, SE_bind.
  assert (MTApplyChangeSet (csName (canon_cs cs)) (csPairs (canon_cs cs)) t =
    MTApplyChangeSet (csName cs) (csPairs cs) t) as ->.
  { unfold MTApplyChangeSet, canon_cs. cbn [csName csPairs]. sstate.
    destruct (treesByName t ≫= _) as [i|]; [|done]. sstate.
    destruct (trees t !! i) as [e'|]; [|done]. sstate. by rewrite ApplyChangeSet_canon. }
  destruct (MTApplyChangeSet (csName cs) (csPairs cs) t) as [[[] t']|]; [apply IH|done|done].
Qed.

Section CatchupProof.
Context {L : Type} `{WalLaws L}.

(** The log holds the entries from index [i] on. *)
Fixpoint logged (wal : L) (i : Z) (es : list WALEntry) : Prop :=
  match es with
  | [] => True
  | e :: es => log_read wal i = Ok (WALEntry_Marshal e) /\ zlen (WALEntry_Marshal e) < 2 ^ 63 /\
               logged wal (i + 1) es
  end.

Lemma replayIndex_logged wal es i0 :
  logged wal i0 es ->
  forall s, forM ((fun k => i0 + Z.of_nat k) <$> seq 0 (length es)) (replayIndex wal) s = replay es s.
Proof.
  revert i0. induction es as [|e es IH]; intros i0; [done|]. intros (Hr & Hsz & Hl) s.
  cbn [length seq fmap list_fmap forM replay]. rewrite Z.add_0_r.
  assert (forall s, replayIndex wal i0 s = replayEntry e s) as Hi.
  { intros s'. unfold replayIndex, replayEntry. rewrite Hr. sstate.
    rewrite WALEntry_roundtrip by done. sstate. unfold mbind at 1, SE_bind.
    by rewrite applyWALEntry_canon. }
  unfold mbind, SE_bind. rewrite Hi. destruct (replayEntry e s) as [[[] s']|]; [|done|done].
  rewrite <- fmap_S_seq, <- list_fmap_compose. unfold replay in IH. rewrite <- (IH _ Hl).
  f_equal. apply list_fmap_ext. intros. unfold compose. lia.
Qed.

(** Catching up replays the entries after the version, to the end version or to
    the end of the log. *)
Lemma CatchupWAL_spec wal t endVersion es :
  let i0 := walIndex (nextVersion (MTVersion t) (initialVersion t)) (initialVersion t) in
  let endIndex := if endVersion =? 0 then log_last wal
                  else Z.min (walIndex endVersion (initialVersion t)) (log_last wal) in
  endIndex + 1 = i0 + zlen es -> es <> [] -> logged wal i0 es ->
  CatchupWAL wal endVersion t = (_ ← replay es; modify UpdateCommitInfo) t.
Proof.
  intros i0 endIndex Hlast Hes Hl. unfold CatchupWAL. sstate. fold i0.
  assert (0 < zlen es) by (destruct es; [done|simpl; lia]).
  assert (i0 <= log_last wal) by (unfold endIndex in *; destruct (endVersion =? 0); lia).
  rewrite (proj2 (Z.ltb_ge _ _)) by lia. sstate.
  set (e := if endVersion =? 0 then _ else _).
  assert (i0 <= e) by (unfold e, endIndex in *; destruct (endVersion =? 0); lia).
  rewrite (proj2 (Z.ltb_ge _ _)) by lia.
  assert ((if log_last wal <? e then log_last wal else e) = endIndex) as ->.
  { unfold e, endIndex. destruct (endVersion =? 0); [by rewrite Z.ltb_irrefl|].
    destruct (Z.ltb_spec (log_last wal) (walIndex endVersion (initialVersion t))); lia. }
  replace (Z.to_nat (endIndex - i0 + 1)) with (length es) by lia.
  unfold mbind, SE_bind. by rewrite replayIndex_logged.
Qed.

Lemma CatchupWAL_uptodate wal t v :
  log_last wal < walIndex (nextVersion (MTVersion t) (initialVersion t)) (initialVersion t) ->
  CatchupWAL wal v t = Some (Ok tt, t).
Proof. intros Hlt. unfold CatchupWAL. sstate. by rewrite (proj2 (Z.ltb_lt _ _)). Qed.
End CatchupProof.
End MultiTree.
Arguments NamedTree : clear implicits.
Arguments MultiTree : clear implicits.

(** ** Log indices *)

Lemma walIndex_spec v iv :
  0 <= iv < 2 ^ 32 -> 0 <= v < 2 ^ 63 -> (1 < iv -> iv - 1 <= v) ->
  walIndex v iv = if 1 <? iv then v - iv + 1 else v.
Proof.
  intros Hi Hv Hle. unfold walIndex. destruct (Z.ltb_spec 1 iv); [|by rewrite u64_id by lia].
  rewrite (u64_id v) by lia. unfold u64. rewrite Zplus_mod_idemp_l. apply Z.mod_small. lia.
Qed.

Lemma walVersion_spec i iv :
  0 <= iv < 2 ^ 32 -> 0 <= i < 2 ^ 62 ->
  walVersion i iv = if 1 <? iv then i + iv - 1 else i.
Proof.
  intros Hi Hv. unfold walVersion. rewrite (i64_id i) by lia.
  destruct (Z.ltb_spec 1 iv); [|done]. by rewrite (i64_id (i + iv)), i64_id by lia.
Qed.

(** ** The invariant *)

Section Invariant.
Context {C : Type} `{CacheLaws C}.

Definition mt_ok (t : MultiTree C) : Prop :=
  indexes_ok t /\ sorted_names (trees t) /\ versions_ok t /\
  Forall (fun e => tree_ok (ntTree e)) (trees t).

(** A change set fits: no tree outgrows its size counter. *)
Definition css_fit (css : list NamedChangeSet) (l : list (NamedTree C)) : Prop :=
  Forall (fun e => zlen (content (treeRoot (ntTree e))) + zlen (pairs_for (ntName e) css)
                   < 2 ^ 63 - 1) l.

(** What the change sets make of one tree. *)
Definition tree_after (css : list NamedChangeSet) (e e' : NamedTree C) : Prop :=
  ntName e' = ntName e /\ tree_ok (ntTree e') /\ version (ntTree e') = version (ntTree e) /\
  content (treeRoot (ntTree e')) =
    apply_pairs (content (treeRoot (ntTree e))) (pairs_for (ntName e) css).

Lemma treesApply_ok css l :
  Forall (fun e => tree_ok (ntTree e)) l -> css_fit css l ->
  exists l', treesApply css l = Some l' /\ Forall2 (tree_after css) l l'.
Proof.
  unfold treesApply. induction l as [|e l IH]; intros Hok Hfit.
  { by exists []. }
  apply Forall_cons in Hok as [He Hl], Hfit as [Hf Hfl].
  destruct (IH Hl Hfl) as (l' & El & Hl'). cbn [mapM].
  destruct (ApplyChangeSet_ok _ _ He Hf) as (tr & Et & Hok' & Ev & Ec).
  assert (applyTo css e = Some (mkNamed tr (ntName e))) as -> by (unfold applyTo; by rewrite Et).
  exists (mkNamed tr (ntName e) :: l'). sbind. rewrite El.
  split; [done|]. constructor; [|done]. by split_and!.
Qed.

Lemma tree_after_trans cs css l1 l2 l3 :
  Forall2 (tree_after [cs]) l1 l2 -> Forall2 (tree_after css) l2 l3 -> Forall2 (tree_after (cs :: css)) l1 l3.
Proof.
  intros H12. revert l3. induction H12 as [|e1 e2 l1 l2 (En & _ & Ev & Ec) _ IH]; intros l3 H23.
  { inversion H23. constructor. }
  inversion H23 as [|? e3 ? ? (En' & Hok & Ev' & Ec')]; subst. constructor; [|by apply IH].
  split; [congruence|]. split; [done|]. split; [congruence|]. rewrite Ec', Ec, En.
  change (cs :: css) with ([cs] ++ css). unfold apply_pairs. by rewrite pairs_for_app, foldl_app.
Qed.

Lemma tree_after_nil l : Forall (fun e => tree_ok (ntTree e)) l -> Forall2 (tree_after []) l l.
Proof. induction 1 as [|e l He _ IH]; constructor; [|done]. by split_and!. Qed.

Lemma tree_after_refl n l : Forall (fun e => tree_ok (ntTree e)) l -> Forall2 (tree_after [mkNamedCS n []]) l l.
Proof.
  induction 1 as [|e l He _ IH]; constructor; [|done]. split_and!; try done. cbn.
  by case_bool_decide.
Qed.

Lemma tree_after_names css l l' : Forall2 (tree_after css) l l' -> names l' = names l.
Proof. induction 1 as [|e e' l l' (Hn & _) _ IH]; [done|]. cbn. f_equal; [done|exact IH]. Qed.

Lemma sorted_names_iff l :
  sorted_names l <-> StronglySorted name_le (@names C l).
Proof.
  unfold sorted_names, names. induction l as [|e l IH]; cbn.
  { split; constructor. }
  split; intros Hs; inversion Hs as [|? ? Hl Hf]; subst; constructor; try (by apply IH).
  - by apply Forall_fmap.
  - by rewrite Forall_fmap in Hf.
Qed.

Lemma mt_ok_withTrees t l css :
  mt_ok t -> Forall2 (tree_after css) (trees t) l -> mt_ok (withTrees t l).
Proof.
  intros (Hi & Hs & (Hv0 & Hiv & Hv1 & Hv) & Hok) Hl. pose proof (tree_after_names _ _ _ Hl) as En.
  split; [|split; [|split]].
  - by apply indexes_withTrees.
  - apply sorted_names_iff. cbn [trees withTrees]. rewrite En. by apply sorted_names_iff.
  - split; [done|]. split; [done|]. split; [done|].
    change (treeVersion (withTrees t l)) with (treeVersion t).
    cbn [trees withTrees]. clear Hok Hs Hi En. induction Hl as [|e e' k k' (_ & _ & Ev & _) _ IH];
      [constructor|]. apply Forall_cons in Hv as [He Hv]. constructor; [congruence|auto].
  - cbn [trees withTrees]. eapply Forall2_Forall_r; [exact Hl|].
    apply Forall_forall. by intros e _ e' (_ & ? & _).
Qed.

Lemma MTApplyChangeSet_unknown t n cs :
  indexes_ok t -> n ∉ names (trees t) ->
  MTApplyChangeSet n cs t = Some (Err "unknown tree name", t).
Proof.
  intros (m & Em & Hm) Hn. unfold MTApplyChangeSet. sstate. rewrite Em. sbind.
  destruct (m !! n) as [i|] eqn:E; [|done]. apply Hm in E.
  by apply list_elem_of_lookup_2 in E.
Qed.

Lemma TreeByName_elem (t : MultiTree C) n tr :
  indexes_ok t -> TreeByName t n = Some tr <-> mkNamed tr n ∈ trees t.
Proof.
  intros (m & Em & Hm). unfold TreeByName. rewrite Em. sbind. split.
  - destruct (m !! n) as [i|] eqn:E; [|done]. apply Hm in E. sbind. unfold names in E.
    rewrite list_lookup_fmap in E. destruct (trees t !! i) as [e|] eqn:Ee; [|done].
    injection E as <-. intros [= <-]. destruct e. by eapply list_elem_of_lookup_2.
  - intros [i Hi]%list_elem_of_lookup. assert (m !! n = Some i) as ->.
    { apply Hm. unfold names. by rewrite list_lookup_fmap, Hi. }
    sbind. by rewrite Hi.
Qed.

Lemma tree_after_byName t t' css n tr :
  indexes_ok t -> indexes_ok t' -> Forall2 (tree_after css) (trees t) (trees t') ->
  TreeByName t n = Some tr -> exists tr', TreeByName t' n = Some tr' /\
    content (treeRoot tr') = apply_pairs (content (treeRoot tr)) (pairs_for n css).
Proof.
  intros Hi Hi' Hl Htr. rewrite TreeByName_elem in Htr by done.
  apply list_elem_of_lookup in Htr as [i Hlk].
  destruct (Forall2_lookup_l _ _ _ _ _ Hl Hlk) as ([tr' n'] & Hlk' & (Hn' & _ & _ & Ec)).
  cbn [ntName ntTree] in *. subst n'. exists tr'. split; [|done].
  apply TreeByName_elem; [done|]. by eapply list_elem_of_lookup_2.
Qed.

(** The tree a new store starts with. *)
Lemma fresh_tree (t : MultiTree C) :
  versions_ok t -> treeVersion t < MaxUint32 ->
  exists tr, NewWithInitialVersion (u32 (nextVersion (MTVersion t) (initialVersion t))) (cacheSize t)
    = Some tr /\ treeRoot tr = None /\ version tr = treeVersion t /\ tree_ok tr.
Proof.
  intros (Hv & Hi & Ht & _) Hlt. unfold treeVersion in *. unfold MaxUint32 in *.
  pose proof (nextVersion_pos (MTVersion t) (initialVersion t) Hv).
  rewrite u32_id by lia. unfold NewWithInitialVersion, New, NewEmptyTree, MaxUint32.
  assert (forall v, 0 <= v < 2 ^ 32 -> tree_ok (mkTree v None None (NewCache (cacheSize t)) true)) as Hok.
  { intros v Hvv. split; [done|]. split; [|done]. unfold coherent, NewCache. cbn [cache].
    destruct (cacheSize t =? 0); [done|]. intros k x Hg. by rewrite cache_get_new in Hg. }
  destruct (Z.leb_spec (nextVersion (MTVersion t) (initialVersion t)) 1).
  - eexists. split; [reflexivity|]. change (u32 0) with 0. cbn [version treeRoot].
    split_and!; [done|lia|by apply Hok].
  - rewrite (proj2 (Z.leb_gt _ _)), u32_id by lia. eexists. split; [reflexivity|].
    split_and!; [done|done|]. apply Hok. lia.
Qed.

Lemma saved_ok (t : MultiTree C) uci :
  mt_ok t -> treeVersion t < MaxUint32 ->
  MTSaveVersion uci t = Some (Ok (nextVersion (MTVersion t) (initialVersion t)), saved t uci) /\
  mt_ok (saved t uci) /\
  MTVersion (saved t uci) = nextVersion (MTVersion t) (initialVersion t).
Proof.
  intros (Hi & Hs & Hv & Ht) Hlt.
  destruct (MTSaveVersion_spec t uci Hv Hlt) as (E & Hv' & Htv). split; [done|].
  split; [|by destruct uci].
  set (v := nextVersion (MTVersion t) (initialVersion t)).
  assert (trees (saved t uci) = mapTrees (fun tr => withVersion tr v) (trees t)) as El by done.
  assert (names (trees (saved t uci)) = names (trees t)) as En
    by (rewrite El; unfold names, mapTrees; by rewrite <- list_fmap_compose).
  assert (0 <= treeVersion t) as Ht0 by apply Hv.
  assert (v = treeVersion t + 1) as Ev by (unfold v, treeVersion; lia). unfold MaxUint32 in *.
  split; [|split; [|split; [done|]]].
  - destruct Hi as (m & Em & Hm). exists m. split; [done|]. intros n i. by rewrite En.
  - apply sorted_names_iff. rewrite En. by apply sorted_names_iff.
  - rewrite El. apply Forall_fmap. eapply Forall_impl; [exact Ht|].
    intros e (Hwf & Hc & _). split; [done|]. split; [done|]. cbn. lia.
Qed.

(** A property of all trees that the fresh tree has survives upgrades. *)
Lemma upgrades_spec_forall (P : Tree C -> Prop) fresh m us m' l :
  P fresh -> (forall n tr, m !! n = Some tr -> P tr) ->
  upgrades_spec fresh m us = Some m' -> represents l m' -> Forall (fun e => P (ntTree e)) l.
Proof.
  intros Hf Hm Hu [_ Hl]. apply Forall_forall. intros [tr n] Hin%Hl. revert Hin.
  revert m Hm Hu. induction us as [|u us IH]; intros m Hm Hu.
  { injection Hu as <-. apply Hm. }
  cbn [upgrades_spec] in Hu. destruct (upgrade_spec fresh m u) as [m1|] eqn:E1; [|done].
  apply (IH m1); [|done]. intros n' tr'. unfold upgrade_spec in E1. destruct (upDelete u).
  - destruct (m !! upName u); [|done]. injection E1 as <-.
    intros [_ ?]%lookup_delete_Some. eauto.
  - destruct (negb _).
    + destruct (m !! upRenameFrom u) as [x|] eqn:Ex; [|done]. cbn in E1. case_decide; [|done].
      injection E1 as <-. intros [[_ <-]|[_ [_ ?]%lookup_delete_Some]]%lookup_insert_Some; eauto.
    + case_decide; [|done]. injection E1 as <-. intros [[_ <-]|[_ ?]]%lookup_insert_Some; eauto.
Qed.
End Invariant.

(** ** Properties *)

(** C19: Applying change sets for known stores to a well-formed multi-tree succeeds:
    the content of every store becomes what the pairs meant for it, in their
    order, make of it, versions and names stay, the invariant is kept; and a
    change set for an unknown store, wherever it comes, is reported as an
    error that leaves exactly the earlier change sets applied. *)
Theorem MTApplyChangeSets_correct {C} `{CacheLaws C} (t : MultiTree C) css :
  mt_ok t -> Forall (fun cs => csName cs ∈ names (trees t)) css -> css_fit css (trees t) ->
  exists t', MTApplyChangeSets css t = Some (Ok tt, t') /\ mt_ok t' /\
    MTVersion t' = MTVersion t /\ names (trees t') = names (trees t) /\
    (forall n tr, TreeByName t n = Some tr -> exists tr', TreeByName t' n = Some tr' /\
       content (treeRoot tr') = apply_pairs (content (treeRoot tr)) (pairs_for n css)) /\
    (forall n cs rest, n ∉ names (trees t) ->
       MTApplyChangeSets (css ++ mkNamedCS n cs :: rest) t = Some (Err "unknown tree name", t')).
Proof.
  intros Hok Hn Hfit. pose proof Hok as (Hi & _ & _ & Ht).
  destruct (treesApply_ok css (trees t) Ht Hfit) as (l & El & Hl).
  assert (MTApplyChangeSets css t = Some (Ok tt, withTrees t l)) as E.
  { rewrite MTApplyChangeSets_spec by done. by rewrite El. }
  pose proof (mt_ok_withTrees t l css Hok Hl) as Hok'. pose proof (tree_after_names _ _ _ Hl) as En.
  exists (withTrees t l). split; [done|]. split; [done|]. split; [done|]. split; [done|]. split.
  - intros n tr. by apply tree_after_byName; [|apply Hok'|].
  - intros n cs rest Hu. unfold MTApplyChangeSets in *. rewrite forM_app, (SE_bind_ok _ _ _ _ _ E).
    cbn [forM csName csPairs]. apply SE_bind_err. apply MTApplyChangeSet_unknown; [apply Hok'|].
    cbn [trees withTrees]. by rewrite En.
Qed.

(** A multi-tree with one store, at version 1. *)
Definition ex_mt : MultiTree slot :=
  mkMultiTree 0 true 0 [mkNamed ex_tree "bank"] (Some {[ "bank" := 0%nat ]})
    (mkCommitInfo 1 []) (mkMetadata None 0).

Lemma ex_mt_ok : mt_ok ex_mt.
Proof.
  split; [|split; [|split]].
  - exists {[ "bank" := 0%nat ]}. split; [done|]. intros n i. rewrite lookup_singleton_Some. cbn.
    split; [by intros [<- <-]|]. destruct i as [|i]; [|done]. by intros [= <-].
  - repeat constructor.
  - split; [done|]. split; [done|]. split; [done|]. by constructor.
  - constructor; [exact ex_tree_ok|constructor].
Qed.

Definition ex_css : list NamedChangeSet :=
  [mkNamedCS "bank" [mkPair false [x05] (Some [x07])]; mkNamedCS "bank" [mkPair true [x02] None]].

Lemma MTApplyChangeSets_correct_witness :
  exists t', MTApplyChangeSets ex_css ex_mt = Some (Ok tt, t') /\ mt_ok t' /\
    MTApplyChangeSets (ex_css ++ [mkNamedCS "acc" []]) ex_mt = Some (Err "unknown tree name", t').
Proof.
  destruct (MTApplyChangeSets_correct ex_mt ex_css) as (t' & E & Hok & _ & _ & _ & Hu).
  - exact ex_mt_ok.
  - repeat constructor.
  - repeat constructor.
  - exists t'. split; [exact E|]. split; [exact Hok|]. apply Hu. set_solver.
Defined.

(** C32: Upgrading the stores of a well-formed multi-tree by a batch that names only
    existing stores and never passes through a clash of names succeeds and has
    the meaning of the batch on the map of stores: deletions remove, renames
    move a tree unchanged, additions start an empty tree at the common
    version; the invariant is kept.  Whatever batch succeeds, the names are
    unique, sorted and indexed afterwards. *)
Theorem MTApplyUpgrades_correct {C} `{CacheLaws C} (t : MultiTree C) us m :
  mt_ok t -> treeVersion t < MaxUint32 -> represents (trees t) m ->
  (exists fresh, treeRoot fresh = None /\ version fresh = treeVersion t /\
     forall m', upgrades_spec fresh m us = Some m' ->
     exists t', MTApplyUpgrades us t = Some (Ok tt, t') /\ mt_ok t' /\
       represents (trees t') m' /\ MTVersion t' = MTVersion t) /\
  (forall t', us <> [] -> MTApplyUpgrades us t = Some (Ok tt, t') ->
     indexes_ok t' /\ sorted_names (trees t')).
Proof.
  intros Hok Hlt Hr. pose proof Hok as (Hi & Hs & Hv & Ht).
  split; [|intros t' Hus; by apply MTApplyUpgrades_names].
  destruct (fresh_tree t Hv Hlt) as (fresh & Ef & Hroot & Hfv & Hfok).
  exists fresh. split; [done|]. split; [done|]. intros m' Hm'.
  destruct (decide (us = [])) as [->|Hus].
  { injection Hm' as <-. exists t. split; [done|]. by split. }
  destruct (MTApplyUpgrades_spec us t fresh m m' Hus Ef Hr Hm') as (l & idx & E & Hl & Hidx & Hsl).
  eexists. split; [exact E|]. split; [|done].
  assert (Forall (fun e => version (ntTree e) = treeVersion t /\ tree_ok (ntTree e)) l) as Hall.
  { eapply (upgrades_spec_forall (fun tr => version tr = treeVersion t /\ tree_ok tr) fresh m us);
      [done| |done|done].
    intros n tr Hn. apply Hr in Hn. destruct Hv as (_ & _ & _ & Hv).
    rewrite Forall_forall in Hv, Ht. split; [by apply (Hv _ Hn)|by apply (Ht _ Hn)]. }
  split; [by exists idx|]. split; [done|]. destruct Hv as (Hv1 & Hv2 & Hv3 & _).
  split; [split; [done|split; [done|split; [done|]]]|].
  - eapply Forall_impl; [exact Hall|]. by intros e [? _].
  - eapply Forall_impl; [exact Hall|]. by intros e [_ ?].
Qed.

Lemma ex_mt_represents : represents (trees ex_mt) {[ "bank" := ex_tree ]}.
Proof.
  split; [apply NoDup_singleton|]. intros n t. rewrite lookup_singleton_Some.
  change (trees ex_mt) with [mkNamed ex_tree "bank"]. rewrite list_elem_of_singleton.
  split; [by intros [<- <-]|by intros [= <- <-]].
Qed.

Lemma MTApplyUpgrades_correct_witness :
  exists t', MTApplyUpgrades [mkUpgrade "coins" "bank" false; mkUpgrade "acc" "" false] ex_mt =
    Some (Ok tt, t') /\ mt_ok t' /\ names (trees t') = ["acc"; "coins"].
Proof.
  destruct (MTApplyUpgrades_correct ex_mt
      [mkUpgrade "coins" "bank" false; mkUpgrade "acc" "" false] {[ "bank" := ex_tree ]})
    as [(fresh & _ & _ & Hf) _].
  - exact ex_mt_ok.
  - vm_compute. reflexivity.
  - exact ex_mt_represents.
  - destruct (Hf (<["acc" := fresh]> (<["coins" := ex_tree]> (delete "bank" {[ "bank" := ex_tree ]}))))
      as (t' & E & Hok & _).
    + reflexivity.
    + exists t'. split; [exact E|]. split; [exact Hok|]. vm_compute in E. injection E as <-. reflexivity.
Defined.

(** Saving a version of a well-formed multi-tree moves the multi-tree and every
    store to the same next version (the initial version first, when one is
    set), keeps all contents and the invariant, and reports in the commit info
    the name, the version and the root hash of every store. *)
Theorem MTSaveVersion_correct {C} `{CacheLaws C} (t : MultiTree C) uci :
  mt_ok t -> treeVersion t < MaxUint32 ->
  let v := nextVersion (MTVersion t) (initialVersion t) in
  exists t', MTSaveVersion uci t = Some (Ok v, t') /\ mt_ok t' /\ MTVersion t' = v /\
    (forall n tr, TreeByName t n = Some tr -> exists tr', TreeByName t' n = Some tr' /\
       version tr' = v /\ treeRoot tr' = treeRoot tr) /\
    (uci = true -> lastCommitInfo t' =
       mkCommitInfo v ((fun e => mkStoreInfo (ntName e) (mkCommitID v (RootHash (ntTree e)))) <$> trees t)).
Proof.
  intros Hok Hlt v. destruct (saved_ok t uci Hok Hlt) as (E & Hok' & Ev).
  assert (trees (saved t uci) = mapTrees (fun tr => withVersion tr v) (trees t)) as El by done.
  exists (saved t uci). split; [done|]. split; [done|]. split; [done|]. split.
  - intros n tr Htr. rewrite TreeByName_elem in Htr by apply Hok. exists (withVersion tr v).
    split; [|done]. apply TreeByName_elem; [apply Hok'|]. rewrite El.
    by apply (list_elem_of_fmap_2 (fun e => mkNamed (withVersion (ntTree e) v) (ntName e))) in Htr.
  - intros ->. cbn [lastCommitInfo saved withCommitInfo]. unfold buildCommitInfo. f_equal.
    cbn [trees withTrees]. unfold mapTrees. by rewrite <- list_fmap_compose.
Qed.

Lemma MTSaveVersion_correct_witness :
  exists t', MTSaveVersion true ex_mt = Some (Ok 2, t') /\ mt_ok t' /\ MTVersion t' = 2.
Proof.
  destruct (MTSaveVersion_correct ex_mt true) as (t' & E & Hok & Hv & _).
  - exact ex_mt_ok.
  - vm_compute. reflexivity.
  - exists t'. split; [exact E|]. split; [exact Hok|exact Hv].
Defined.

(** The log index of a version and the version of a log index are inverse to
    each other, the first version of the chain has index 1 and consecutive
    versions have consecutive indices, for every initial version. *)
Theorem walIndex_walVersion v i iv :
  0 <= iv < 2 ^ 32 -> Z.max 1 iv <= v < 2 ^ 62 -> 1 <= i < 2 ^ 62 ->
  walVersion (walIndex v iv) iv = v /\ walIndex (walVersion i iv) iv = i /\
  walIndex (nextVersion 0 iv) iv = 1 /\ walIndex (nextVersion v iv) iv = walIndex v iv + 1.
Proof.
  intros Hi Hv Hidx.
  assert (nextVersion v iv = v + 1) as ->
    by (unfold nextVersion; by rewrite (proj2 (Z.eqb_neq v 0)) by lia).
  unfold nextVersion. cbn [Z.eqb andb].
  rewrite (walVersion_spec i) by lia. rewrite (walIndex_spec v), (walIndex_spec (v + 1)) by lia.
  destruct (Z.ltb_spec 1 iv) as [H1|H1].
  - rewrite walVersion_spec, (proj2 (Z.ltb_lt 1 iv)), !walIndex_spec, (proj2 (Z.ltb_lt 1 iv)) by lia. lia.
  - rewrite walVersion_spec, (proj2 (Z.ltb_ge 1 iv)), !walIndex_spec, (proj2 (Z.ltb_ge 1 iv)) by lia. lia.
Qed.

Lemma walIndex_walVersion_witness :
  walVersion (walIndex 107 100) 100 = 107 /\ walIndex (walVersion 8 100) 100 = 8 /\
  walIndex (nextVersion 0 100) 100 = 1 /\ walIndex (nextVersion 107 100) 100 = 9.
Proof. exact (walIndex_walVersion 107 8 100 ltac:(lia) ltac:(lia) ltac:(lia)). Defined.
