(* ===== verification/MultiSnapshot.v ===== *)
(** * Snapshot directories of a multi-tree: [MultiTree.WriteSnapshot],
    [LoadMultiTree], [readMetadata]

    A snapshot directory holds one directory of files per store and the
    metadata file.  The worker pool that writes the stores in parallel is the
    list of their results: the writers share nothing. *)

From S2P Require Import Prelude KV Binary Sha256 Node Hash Snapshot Persisted Tree Proto Wal MultiTree.

Open Scope string_scope.
Open Scope Z_scope.
Open Scope list_scope.

Record snapshotDir := mkSnapshotDir {
  sdTrees : list (string * snapshotFiles);
  sdMetadata : bytes
}.

Section Dir.
Context {C : Type} `{Cache C}.

Definition MTWriteSnapshotWithContext (ctxDone : Z -> bool) (t : MultiTree C) : result snapshotDir :=
  dirs ← mapM (fun e =>
           f ← WriteSnapshotWithContext ctxDone (version (ntTree e)) (treeRoot (ntTree e));
           Ok (ntName e, f)) (trees t);
  let metadata := mkMetadata (Some (lastCommitInfo t)) (initialVersion t) in
  Ok (mkSnapshotDir dirs (MultiTreeMetadata_Marshal metadata)).

(** [None] is the nil dereference of a missing commit info. *)
Definition readMetadata (bz : bytes) : option (result MultiTreeMetadata) :=
  match MultiTreeMetadata_Unmarshal bz with
  | Err e => Some (Err e)
  | Ok metadata =>
      ci ← mdCommitInfo metadata;
      if MaxUint32 <? ciVersion ci then Some (Err "commit info version overflows uint32")
      else if MaxUint32 <? mdInitialVersion metadata
      then Some (Err "initial version overflows uint32")
      else Some (Ok metadata)
  end.

(** Opening the stores one after the other. *)
Fixpoint loadTrees (dirs : list (string * snapshotFiles)) (zeroCopy : bool) (cacheSize : Z)
    : option (result (list (NamedTree C))) :=
  match dirs with
  | [] => Some (Ok [])
  | (name, f) :: dirs =>
      match OpenSnapshot f with
      | Err e => Some (Err e)
      | Ok s =>
          tree ← NewFromSnapshot s zeroCopy cacheSize;
          rest ← loadTrees dirs zeroCopy cacheSize;
          Some (rest ← rest; Ok (mkNamed tree name :: rest))
      end
  end.

Definition LoadMultiTree (d : snapshotDir) (zeroCopy : bool) (cacheSize : Z)
    : option (result (MultiTree C)) :=
  md ← readMetadata (sdMetadata d);
  match md with
  | Err e => Some (Err e)
  | Ok metadata =>
      l ← loadTrees (sdTrees d) zeroCopy cacheSize;
      match l with
      | Err e => Some (Err e)
      | Ok l =>
          ci ← mdCommitInfo metadata;
          let trees := sortByName l in
          let mtree := mkMultiTree 0 zeroCopy cacheSize trees (Some (indexByName trees)) ci metadata in
          Some (Ok (mtSetInitialVersion mtree (u32 (mdInitialVersion metadata))))
      end
  end.
End Dir.

(** ** Loading what was written *)

Lemma indexByName_indexed {C} (l : list (NamedTree C)) :
  NoDup (names l) -> indexed (indexByName l) l.
Proof.
  induction l as [|e l IH] using rev_ind; intros Hnd.
  { intros n i. by cbn. }
  unfold names in Hnd. rewrite fmap_app in Hnd. apply NoDup_app in Hnd as (Hnd & Hdisj & _).
  unfold indexByName. rewrite imap_app, foldl_app. fold (indexByName l). cbn.
  intros n i. rewrite lookup_insert_Some. unfold names. rewrite fmap_app. cbn.
  rewrite lookup_snoc_Some, length_fmap, Nat.add_0_r. rewrite (IH Hnd n i). unfold names.
  split.
  - intros [[<- <-]|[Hne Hi]]; [by right|]. left. split; [|done].
    apply lookup_lt_Some in Hi. by rewrite length_fmap in Hi.
  - intros [[Hlt Hi]|[-> <-]]; [|by left]. right. split; [|done]. intros <-.
    apply (Hdisj (ntName e)); [by eapply list_elem_of_lookup_2|set_solver].
Qed.

Lemma indexed_unique {C} (m1 m2 : gmap string nat) (l : list (NamedTree C)) :
  indexed m1 l -> indexed m2 l -> m1 = m2.
Proof.
  intros H1 H2. apply map_eq. intros n. apply option_eq. intros i.
  rewrite (H1 n i), (H2 n i). done.
Qed.

Lemma sortByName_id {C} (l : list (NamedTree C)) : sorted_names l -> sortByName l = l.
Proof.
  induction l as [|e l IH]; [done|]. intros Hs. inversion Hs as [|? ? Hs' Hf]; subst.
  cbn [sortByName foldr]. fold (sortByName l). rewrite IH by done.
  destruct l as [|e' l]; [done|]. cbn [insertByName].
  apply Forall_cons in Hf as [He _]. unfold name_le in He. by rewrite He.
Qed.

Section LoadProof.
Context {C : Type} `{CacheLaws C}.

Definition storable_root (n : option Node) : Prop :=
  match n with Some n => storable n | None => True end.

(** What the files of one store are. *)
Definition filesOf (version : Z) (n : option Node) : snapshotFiles :=
  match n with
  | None => mkFiles (metadataBytes version) [] [] []
  | Some n => mkFiles (metadataBytes version) (branchChunk 0 0 n) (leafChunk 0 n) (kvChunk n)
  end.

Lemma WriteSnapshot_filesOf ctxDone version n :
  (forall n, ctxDone n = false) -> storable_root n ->
  WriteSnapshotWithContext ctxDone version n = Ok (filesOf version n).
Proof. destruct n as [n|]; [by apply WriteSnapshot_files|done]. Qed.

Lemma load_filesOf version n zc cs :
  0 <= version < 2 ^ 32 -> storable_root n ->
  exists s tr, OpenSnapshot (filesOf version n) = Ok s /\
    NewFromSnapshot s zc cs = Some tr /\ Tree.version tr = version /\ treeRoot tr = n /\
    (wf_root n -> tree_ok tr).
Proof.
  intros Hv Hn.
  assert (exists s, OpenSnapshot (filesOf version n) = Ok s /\ snapVersion s = version /\
    (if IsEmptySnapshot s then Some None else p ← RootNode s; Some <$> readNode 256 s p) = Some n)
    as (s & Es & Ev & Er).
  { destruct n as [n|].
    - eexists. split; [by apply OpenSnapshot_written|]. split; [done|]. cbn [IsEmptySnapshot root].
      cbn [RootNode root mbind option_bind]. rewrite (readNode_persisted 256 _ _ n); [done| |].
      + by apply written_persisted.
      + pose proof (storable_position _ Hn) as Hp. pose proof (pos_pre _ _ _ _ Hp). lia.
    - destruct (metadata_decode version Hv) as (M0 & M1 & M2 & M3).
      exists (mkSnapshot [] [] [] version None). split; [|done].
      unfold OpenSnapshot, filesOf. cbn [fMetadata fNodes fLeaves fKvs]. by rewrite M0, M1, M2, M3. }
  exists s. unfold NewFromSnapshot. rewrite Er. sbind. eexists. split; [done|]. split; [done|].
  cbn [Tree.version treeRoot]. split; [done|]. split; [done|]. intros Hwf. split; [done|].
  split; [|by rewrite <- Ev in Hv]. unfold coherent, NewCache. cbn [cache].
  destruct (cs =? 0); [done|]. intros k x Hg. by rewrite cache_get_new in Hg.
Qed.

Lemma loadTrees_written (l : list (NamedTree C)) zc cs :
  Forall (fun e => tree_ok (ntTree e) /\ storable_root (treeRoot (ntTree e))) l ->
  exists l', loadTrees ((fun e => (ntName e, filesOf (version (ntTree e)) (treeRoot (ntTree e)))) <$> l)
      zc cs = Some (Ok l') /\ Forall2 same_named l' l /\ Forall (fun e => tree_ok (ntTree e)) l'.
Proof.
  induction l as [|e l IH]; intros Hl; [by exists []|].
  apply Forall_cons in Hl as [[(Hwf & _ & Hv) Hst] Hl]. destruct (IH Hl) as (l' & El & Hl' & Hok').
  destruct (load_filesOf (version (ntTree e)) (treeRoot (ntTree e)) zc cs Hv Hst)
    as (s & tr & Es & Et & Ev & Er & Hok).
  exists (mkNamed tr (ntName e) :: l'). cbn [fmap list_fmap loadTrees]. rewrite Es, Et. sbind.
  rewrite El. sbind. split; [done|]. split; constructor; auto. by split.
Qed.

Definition mt_storable (t : MultiTree C) : Prop :=
  mt_ok t /\ MTVersion t < 2 ^ 32 /\
  metadata_valid (mkMetadata (Some (lastCommitInfo t)) (initialVersion t)) /\
  Forall (fun e => storable_root (treeRoot (ntTree e))) (trees t).

(** The directory a snapshot of the multi-tree is. *)
Definition dirOf (t : MultiTree C) : snapshotDir :=
  mkSnapshotDir
    ((fun e => (ntName e, filesOf (version (ntTree e)) (treeRoot (ntTree e)))) <$> trees t)
    (MultiTreeMetadata_Marshal (mkMetadata (Some (lastCommitInfo t)) (initialVersion t))).

Lemma MTWriteSnapshot_dirOf ctxDone t :
  (forall n, ctxDone n = false) -> mt_storable t ->
  MTWriteSnapshotWithContext ctxDone t = Ok (dirOf t).
Proof.
  intros Hctx (_ & _ & _ & Hst). unfold MTWriteSnapshotWithContext, dirOf.
  assert (mapM (fun e => f ← WriteSnapshotWithContext ctxDone (version (ntTree e))
                               (treeRoot (ntTree e)); Ok (ntName e, f)) (trees t) =
    Ok ((fun e => (ntName e, filesOf (version (ntTree e)) (treeRoot (ntTree e)))) <$> trees t)) as ->;
    [|done].
  induction (trees t) as [|e l IH]; [done|]. apply Forall_cons in Hst as [He Hl]. cbn [mapM].
  rewrite WriteSnapshot_filesOf by done. sbind. by rewrite IH.
Qed.

(** A write that was not cancelled wrote everything. *)
Lemma writeRecursive_done ctxDone w n w' :
  writeRecursive ctxDone w n = Ok w' -> writeRecursive (fun _ => false) w n = Ok w'.
Proof.
  revert w w'. induction n as [v k x|h z v k l IHl r IHr]; intros w w'; cbn [writeRecursive].
  - unfold writeLeaf. rewrite andb_false_r. by destruct (_ && _).
  - destruct (writeRecursive ctxDone w l) as [w1|] eqn:El; [|done]. sbind. rewrite (IHl _ _ El). sbind.
    destruct (writeRecursive ctxDone w1 r) as [w2|] eqn:Er; [|done]. sbind. by rewrite (IHr _ _ Er).
Qed.

Lemma WriteSnapshot_done ctxDone version n f :
  WriteSnapshotWithContext ctxDone version n = Ok f ->
  WriteSnapshotWithContext (fun _ => false) version n = Ok f.
Proof.
  unfold WriteSnapshotWithContext, writeSnapshot. destruct n as [n|]; [|done].
  destruct (writeRecursive ctxDone newSnapshotWriter n) as [w|] eqn:E; [|done].
  by rewrite (writeRecursive_done _ _ _ _ E).
Qed.

Lemma MTWriteSnapshot_done ctxDone t d :
  mt_storable t -> MTWriteSnapshotWithContext ctxDone t = Ok d -> d = dirOf t.
Proof.
  intros Hst E. enough (MTWriteSnapshotWithContext (fun _ => false) t = Ok d) as E'.
  { rewrite MTWriteSnapshot_dirOf in E' by done. congruence. }
  unfold MTWriteSnapshotWithContext in *. destruct (mapM _ (trees t)) as [l|] eqn:El in E; [|done].
  replace (mapM _ (trees t)) with (Ok l); [done|]. clear E Hst. revert l El.
  induction (trees t) as [|e k IH]; intros l; cbn [mapM]; [done|].
  destruct (WriteSnapshotWithContext ctxDone _ _) as [f|] eqn:Ef; [|done]. sbind.
  rewrite (WriteSnapshot_done _ _ _ _ Ef). sbind. destruct (mapM _ k) as [l1|] eqn:Ek; [|done].
  intros [= <-]. by rewrite <- (IH _ eq_refl).
Qed.

Lemma setInitialVersion_noop (l l' : list (NamedTree C)) iv v :
  0 < v -> Forall (fun e => version (ntTree e) = v) l' -> Forall2 same_named l l' ->
  mapTrees (fun tr => setInitialVersion tr iv) l = l.
Proof.
  intros Hv Hl'. induction 1 as [|e e' l l' [_ [Ev _]] Hl IH]; [done|].
  apply Forall_cons in Hl' as [He' Hl']. unfold mapTrees in *. cbn [fmap list_fmap].
  rewrite IH by done. f_equal. destruct e as [tr n]. cbn [ntTree ntName] in *. unfold setInitialVersion.
  by rewrite (proj2 (Z.ltb_lt _ _)) by lia.
Qed.

Lemma LoadMultiTree_dirOf t zc cs :
  mt_storable t ->
  exists t', LoadMultiTree (dirOf t) zc cs = Some (Ok t') /\ t' ≡ t /\ mt_ok t' /\
    lastCommitInfo t' = lastCommitInfo t /\ SnapshotVersion t' = Some (MTVersion t).
Proof.
  intros (Hok & Hv32 & Hmd & Hst). pose proof Hok as (Hi & Hs & Hv & Ht).
  pose proof Hv as (Hv0 & Hiv & Htv & Hvers). destruct Hi as (m & Em & Hm).
  pose proof (indexed_NoDup _ _ Hm) as Hnd.
  destruct (loadTrees_written (trees t) zc cs) as (l & El & Hl & Hok').
  { apply Forall_and. by split. }
  pose proof (same_names _ _ Hl) as En.
  assert (sorted_names l) as Hsl by (apply sorted_names_iff; rewrite En; by apply sorted_names_iff).
  assert (indexByName l = m) as Eidx.
  { apply (indexed_unique _ _ l).
    - apply indexByName_indexed. by rewrite En.
    - intros n i. rewrite En. apply Hm. }
  unfold LoadMultiTree, dirOf, readMetadata. cbn [sdMetadata sdTrees].
  rewrite MultiTreeMetadata_roundtrip by done. cbn [mdCommitInfo mdInitialVersion mbind option_bind].
  change (ciVersion (lastCommitInfo t)) with (MTVersion t).
  rewrite !(proj2 (Z.ltb_ge _ _)) by (unfold MaxUint32; lia).
  cbn [mdCommitInfo mdInitialVersion]. rewrite El. sbind. rewrite sortByName_id, Eidx, u32_id by done.
  cbn [mdCommitInfo mdInitialVersion mbind option_bind].
  match goal with
  | |- context [mtSetInitialVersion ?a ?b] => set (t' := mtSetInitialVersion a b)
  end.
  exists t'.
  assert (trees t' = l) as Etr.
  { unfold t'. cbn [mtSetInitialVersion trees]. destruct (Z.ltb_spec 1 (initialVersion t)); [|done].
    eapply (setInitialVersion_noop _ _ _ (treeVersion t)); [|exact Hvers|done].
    unfold treeVersion, nextVersion. destruct (Z.eqb_spec (MTVersion t) 0); cbn [andb]; [|lia].
    rewrite (proj2 (Z.ltb_lt _ _)) by done. lia. }
  split; [done|]. split; [split; [done|]; split; [done|]; split; [done|]; by rewrite Etr|].
  split; [|done]. unfold mt_ok. rewrite Etr. split; [|split; [done|split; [|done]]].
  - exists m. split; [done|]. rewrite Etr. intros n i. rewrite En. apply Hm.
  - split; [done|]. split; [done|]. split; [done|]. change (treeVersion t') with (treeVersion t).
    rewrite Etr. clear -Hl Hvers. induction Hl as [|e e' l l' [_ [Ev _]] Hl IH]; [constructor|].
    apply Forall_cons in Hvers as [He Hvers]. constructor; [by rewrite Ev|by apply IH].
Qed.
End LoadProof.

(** ** Properties *)

(** C28: Writing the snapshot of a well-formed multi-tree and loading the directory
    gives back a well-formed multi-tree with the same stores, each at the same
    version and with the same tree node for node, the same index by name, the
    same initial version and the same commit info, whatever the cache and copy
    options. *)
Theorem multi_snapshot_roundtrip {C} `{CacheLaws C}
    ctxDone (t : MultiTree C) zc cs :
  (forall n, ctxDone n = false) -> mt_storable t ->
  exists d t', MTWriteSnapshotWithContext ctxDone t = Ok d /\
    LoadMultiTree d zc cs = Some (Ok t') /\ t' ≡ t /\ mt_ok t' /\
    lastCommitInfo t' = lastCommitInfo t.
Proof.
  intros Hctx Hst. destruct (LoadMultiTree_dirOf t zc cs Hst) as (t' & E & Heq & Hok & Hci & _).
  exists (dirOf t), t'. split; [by apply MTWriteSnapshot_dirOf|]. done.
Qed.

Lemma ex_mt_storable : mt_storable ex_mt.
Proof.
  split; [exact ex_mt_ok|]. split; [reflexivity|]. split; [|by repeat constructor; apply ex3_storable].
  split; [split; [unfold int64_ok; cbn; lia|constructor]|].
  split; [unfold int64_ok; cbn; lia|]. vm_compute. reflexivity.
Qed.

Lemma multi_snapshot_roundtrip_witness :
  exists d t', MTWriteSnapshotWithContext (fun _ => false) ex_mt = Ok d /\
    LoadMultiTree d true 0 = Some (Ok t') /\ t' ≡ ex_mt /\ mt_ok t' /\
    lastCommitInfo t' = lastCommitInfo ex_mt.
Proof.
  exact (multi_snapshot_roundtrip (fun _ => false) ex_mt true 0 (fun _ => eq_refl) ex_mt_storable).
Defined.
