(* ===== verification/SnapshotName.v ===== *)
(** * Names of snapshot directories: [snapshotName], [parseVersion],
    [traverseSnapshots], [seekSnapshot] and [firstSnapshotVersion] of
    [memiavl/db.go]

    A directory listing is a list of names, sorted by name as [os.ReadDir]
    returns it. *)

From S2P Require Import Prelude Proto MultiTree.
From Stdlib Require Import Strings.Byte.

Open Scope string_scope.
Open Scope Z_scope.
Open Scope list_scope.

(** ** Printing *)

Definition SnapshotPrefix : string := "snapshot-".
Definition SnapshotDirLen : nat := 29.
Definition TmpSuffix : string := "-tmp".

(** [n] decimal digits, the most significant first. *)
Fixpoint digits (n : nat) (v : Z) : bytes :=
  match n with
  | O => []
  | S n => digits n (v / 10) ++ [byte_of_Z (48 + v mod 10)]
  end.

(** [fmt.Sprintf("%s%020d", SnapshotPrefix, version)]; an [int64] has at most
    nineteen digits. *)
Definition snapshotName (version : Z) : string :=
  string_of_bytes (bytes_of_string SnapshotPrefix ++
    if version <? 0 then x2d :: digits 19 (- version) else digits 20 version).

(** ** Parsing *)

Definition hasPrefix (p b : bytes) : bool := bool_decide (take (length p) b = p).

Definition isSnapshotName (name : string) : bool :=
  hasPrefix (bytes_of_string SnapshotPrefix) (bytes_of_string name) &&
  (length (bytes_of_string name) =? SnapshotDirLen)%nat.

Definition parse_digit (acc : option Z) (b : byte) : option Z :=
  acc ← acc;
  let d := byte_to_Z b - 48 in
  if (0 <=? d) && (d <=? 9) then Some (acc * 10 + d) else None.

(** [strconv.ParseInt(s, 10, 32)]: an optional sign, digits, the range of an
    [int32]. *)
Definition ParseInt32 (s : bytes) : result Z :=
  let '(neg, s) :=
    match s with
    | x2d :: s => (true, s)
    | x2b :: s => (false, s)
    | _ => (false, s)
    end in
  fail_if (length s =? 0)%nat "invalid syntax" ;;
  match foldl parse_digit (Some 0) s with
  | None => Err "invalid syntax"
  | Some un =>
      fail_if (negb neg && (2 ^ 31 <=? un)) "value out of range" ;;
      fail_if (neg && (2 ^ 31 <? un)) "value out of range" ;;
      Ok (if (neg : bool) then - un else un)
  end.

Definition parseVersion (name : string) : result Z :=
  fail_if (negb (isSnapshotName name)) "invalid snapshot name" ;;
  match ParseInt32 (drop (length (bytes_of_string SnapshotPrefix)) (bytes_of_string name)) with
  | Err e => Err ("snapshot version overflows: " ++ e)%string
  | Ok v => Ok v
  end.

(** ** Traversal *)

Section Traverse.
Context {S : Type} (callback : S -> Z -> S * bool).

(** The entries are names of directories or of other files.  What the callback
    did before an error stays done. *)
Fixpoint traverse (entries : list (string * bool)) (s : S) : S * option error :=
  match entries with
  | [] => (s, None)
  | (name, isDir) :: entries =>
      if negb isDir || negb (isSnapshotName name) then traverse entries s
      else
        match parseVersion name with
        | Err e => (s, Some ("invalid snapshot name: " ++ e)%string)
        | Ok version =>
            let '(s, stop) := callback s version in
            if (stop : bool) then (s, None) else traverse entries s
        end
  end.

Definition traverseSnapshots (entries : list (string * bool)) (ascending : bool) (s : S)
    : S * option error :=
  traverse (if ascending then entries else rev entries) s.
End Traverse.

(** The greatest version that is at most the target. *)
Definition seekSnapshot (entries : list (string * bool)) (targetVersion : Z) : result Z :=
  match traverseSnapshots (fun s version =>
          if version <=? targetVersion then (Some version, true) else (s, false))
          entries false None with
  | (_, Some e) => Err e
  | (None, None) => Err "target version is pruned"
  | (Some v, None) => Ok v
  end.

Definition firstSnapshotVersion (entries : list (string * bool)) : result Z :=
  match traverseSnapshots (fun _ version => (version, true)) entries true 0 with
  | (_, Some e) => Err e
  | (found, None) => if found =? 0 then Err "empty memiavl db" else Ok found
  end.

(** The versions [pruneSnapshots] removes, and the error that ends the
    traversal: older than the current one, but for the most recent [keep] of
    them. *)
Definition prunedVersions (entries : list (string * bool)) (current keep : Z)
    : list Z * option error :=
  let '((_, l), err) :=
    traverseSnapshots (fun '(counter, l) version =>
        if current <=? version then ((counter, l), false)
        else if 0 <? counter then ((counter - 1, l), false)
        else ((counter, l ++ [version]), false))
      entries false (keep, []) in
  (l, err).

(** ** Lemmas *)

Lemma length_digits n v : length (digits n v) = n.
Proof. revert v. induction n as [|n IH]; intros v; [done|]. cbn [digits]. rewrite length_app, IH. cbn. lia. Qed.

Lemma digit_byte v : byte_to_Z (byte_of_Z (48 + v mod 10)) = 48 + v mod 10.
Proof. rewrite byte_to_of_Z, u8_id; [done|]. pose proof (Z.mod_pos_bound v 10). lia. Qed.

Lemma parse_digits n v : 0 <= v < 10 ^ Z.of_nat n -> foldl parse_digit (Some 0) (digits n v) = Some v.
Proof.
  revert v. induction n as [|n IH]; intros v Hv.
  - change (10 ^ Z.of_nat 0) with 1 in Hv. cbn. f_equal. lia.
  - cbn [digits]. rewrite foldl_app, IH.
    + cbn [foldl]. unfold parse_digit. sbind. rewrite digit_byte.
      pose proof (Z.mod_pos_bound v 10). rewrite !(proj2 (Z.leb_le _ _)) by lia. cbn [andb].
      f_equal. rewrite (Z.div_mod v 10) at 3 by lia. lia.
    + rewrite Nat2Z.inj_succ, Z.pow_succ_r in Hv by lia. split; [apply Z.div_pos; lia|].
      apply Z.div_lt_upper_bound; lia.
Qed.

Lemma bytes_compare_snoc a b x y :
  length a = length b ->
  bytes_compare (a ++ [x]) (b ++ [y]) =
  match bytes_compare a b with Eq => byte_to_Z x ?= byte_to_Z y | c => c end.
Proof.
  revert b. induction a as [|c a IH]; intros [|d b]; try done; cbn.
  - by destruct (byte_to_Z x ?= byte_to_Z y).
  - intros [= E]. destruct (byte_to_Z c ?= byte_to_Z d); [by apply IH|done|done].
Qed.

Lemma bytes_compare_app p a b : bytes_compare (p ++ a) (p ++ b) = bytes_compare a b.
Proof. induction p as [|x p IH]; [done|]. cbn. by rewrite Z.compare_refl. Qed.

Lemma digits_lt n v w :
  0 <= v < w -> w < 10 ^ Z.of_nat n -> bytes_compare (digits n v) (digits n w) = Lt.
Proof.
  revert v w. induction n as [|n IH]; intros v w Hv Hw.
  - change (10 ^ Z.of_nat 0) with 1 in Hw. lia.
  - cbn [digits]. rewrite bytes_compare_snoc by (by rewrite !length_digits).
    rewrite Nat2Z.inj_succ, Z.pow_succ_r in Hw by lia.
    pose proof (Z.div_mod v 10). pose proof (Z.div_mod w 10).
    pose proof (Z.mod_pos_bound v 10). pose proof (Z.mod_pos_bound w 10).
    destruct (decide (v / 10 = w / 10)) as [E|Hne].
    + rewrite E, bytes_compare_refl, !digit_byte. apply Z.compare_lt_iff. lia.
    + rewrite IH; [done| |apply Z.div_lt_upper_bound; lia].
      split; [apply Z.div_pos; lia|]. assert (v / 10 <= w / 10) by (apply Z.div_le_mono; lia). lia.
Qed.

Lemma string_bytes_id b : bytes_of_string (string_of_bytes b) = b.
Proof. apply String.list_byte_of_string_of_list_byte. Qed.

Lemma snapshotName_bytes v :
  0 <= v -> bytes_of_string (snapshotName v) = bytes_of_string SnapshotPrefix ++ digits 20 v.
Proof.
  intros Hv. unfold snapshotName. rewrite string_bytes_id.
  by rewrite (proj2 (Z.ltb_ge _ _)) by lia.
Qed.

Lemma isSnapshotName_snapshotName v : 0 <= v -> isSnapshotName (snapshotName v) = true.
Proof.
  intros Hv. unfold isSnapshotName, hasPrefix. rewrite snapshotName_bytes by done.
  rewrite take_app_length, bool_decide_true by done. rewrite length_app, length_digits. done.
Qed.

Lemma ParseInt32_digits v :
  0 <= v < 10 ^ 20 ->
  ParseInt32 (digits 20 v) = if 2 ^ 31 <=? v then Err "value out of range" else Ok v.
Proof.
  intros Hv. unfold ParseInt32.
  assert (match digits 20 v with x2d :: s => (true, s) | x2b :: s => (false, s) | _ => (false, digits 20 v) end
          = (false, digits 20 v)) as ->.
  { assert (exists b, head (digits 20 v) = Some b /\ 48 <= byte_to_Z b) as (b & Hb & Hge).
    { generalize 19%nat as n. intros n. clear Hv. revert v. induction n as [|n IH]; intros v.
      - eexists. split; [reflexivity|]. rewrite digit_byte. pose proof (Z.mod_pos_bound v 10). lia.
      - destruct (IH (v / 10)) as (b & Hb & Hge). exists b. split; [|done].
        change (digits (S (S n)) v) with (digits (S n) (v / 10) ++ [byte_of_Z (48 + v mod 10)]).
        by destruct (digits (S n) (v / 10)). }
    destruct (digits 20 v) as [|c s]; [done|]. injection Hb as ->.
    destruct b; try done; cbn in Hge; lia. }
  rewrite length_digits, parse_digits by done. cbn [Nat.eqb fail_if negb andb]. sbind.
  by destruct (2 ^ 31 <=? v).
Qed.

(** The directory listing of a set of snapshots: their names in order. *)
Definition listing (versions : list Z) : list (string * bool) :=
  (fun v => (snapshotName v, true)) <$> versions.

Lemma parseVersion_snapshotName v :
  0 <= v < 2 ^ 63 ->
  parseVersion (snapshotName v) =
  if 2 ^ 31 <=? v then Err "snapshot version overflows: value out of range" else Ok v.
Proof.
  intros Hv. unfold parseVersion. rewrite isSnapshotName_snapshotName by lia. cbn [negb fail_if]. sbind.
  rewrite snapshotName_bytes, drop_app_length, ParseInt32_digits by lia.
  by destruct (2 ^ 31 <=? v).
Qed.

Lemma snapshotName_inj v w :
  0 <= v < 10 ^ 20 -> 0 <= w < 10 ^ 20 -> snapshotName v = snapshotName w -> v = w.
Proof.
  intros Hv Hw E. apply (f_equal bytes_of_string) in E.
  rewrite !snapshotName_bytes in E by lia. apply app_inv_head in E.
  apply (f_equal (foldl parse_digit (Some 0))) in E. rewrite !parse_digits in E by done. congruence.
Qed.

Lemma snapshotName_lt v w :
  0 <= v < w -> w < 2 ^ 63 -> name_ltb (snapshotName v) (snapshotName w) = true.
Proof.
  intros Hv Hw. unfold name_ltb, bytes_ltb. rewrite !snapshotName_bytes, bytes_compare_app by lia.
  by rewrite digits_lt by lia.
Qed.

(** The traversal on versions. *)
Fixpoint visit {S} (f : S -> Z -> S * bool) (l : list Z) (s : S) : S :=
  match l with
  | [] => s
  | v :: l => let '(s, stop) := f s v in if (stop : bool) then s else visit f l s
  end.

(** The versions of the snapshots in a directory listing. *)
Definition snapshotVersions (entries : list (string * bool)) : list Z :=
  omap (fun '(name, isDir) =>
    if isDir && isSnapshotName name
    then match parseVersion name with Ok v => Some v | Err _ => None end
    else None) entries.

(** Every directory with a name of a snapshot has one that parses. *)
Definition entries_ok (entries : list (string * bool)) : Prop :=
  Forall (fun e => e.2 = true -> isSnapshotName e.1 = true -> exists v, parseVersion e.1 = Ok v) entries.

Lemma traverse_visit {S} (f : S -> Z -> S * bool) entries s :
  entries_ok entries -> traverse f entries s = (visit f (snapshotVersions entries) s, None).
Proof.
  revert s. induction entries as [|[name isDir] entries IH]; intros s Hok; [done|].
  apply Forall_cons in Hok as [Hn Hok]. cbn [fst snd] in Hn.
  cbn [traverse snapshotVersions omap list_omap].
  destruct isDir, (isSnapshotName name) eqn:En; cbn [negb orb andb]; try by apply IH.
  destruct (Hn eq_refl eq_refl) as [v ->]. cbn [visit].
  destruct (f s v) as [s' []]; [done|]. by apply IH.
Qed.

Lemma snapshotVersions_listing l :
  Forall (fun v => 0 <= v < 2 ^ 31) l -> snapshotVersions (listing l) = l /\ entries_ok (listing l).
Proof.
  induction 1 as [|v l Hv Hl [IH1 IH2]]; [by split; constructor|].
  cbn [listing fmap list_fmap snapshotVersions omap list_omap].
  rewrite isSnapshotName_snapshotName by lia. cbn [andb].
  assert (parseVersion (snapshotName v) = Ok v) as Ev.
  { rewrite parseVersion_snapshotName by lia. by rewrite (proj2 (Z.leb_gt _ _)) by lia. }
  rewrite Ev. split; [f_equal; exact IH1|]. constructor; [|exact IH2]. intros _ _. by exists v.
Qed.

Lemma snapshotVersions_rev entries : snapshotVersions (rev entries) = rev (snapshotVersions entries).
Proof.
  induction entries as [|[name isDir] entries IH]; [done|]. cbn [rev].
  unfold snapshotVersions in *. rewrite omap_app, IH. cbn [omap list_omap].
  destruct (isDir && isSnapshotName name); [|by rewrite app_nil_r].
  destruct (parseVersion name); [done|]. by rewrite app_nil_r.
Qed.

Lemma entries_ok_rev entries : entries_ok entries -> entries_ok (rev entries).
Proof. apply Forall_rev. Qed.

(** The first version of a list that a test accepts. *)
Lemma seek_first l target :
  visit (fun s version => if version <=? target then (Some version, true) else (s, false)) l None =
  head (List.filter (fun v => v <=? target) l).
Proof. induction l as [|v l IH]; [done|]. cbn [List.filter visit]. by destruct (v <=? target). Qed.

Lemma prune_fold l current keep acc :
  (visit (fun '(counter, l) version =>
     if current <=? version then ((counter, l), false)
     else if 0 <? counter then ((counter - 1, l), false)
     else ((counter, l ++ [version]), false)) l (keep, acc)).2 =
  acc ++ drop (Z.to_nat keep) (List.filter (fun v => v <? current) l).
Proof.
  revert keep acc. induction l as [|v l IH]; intros keep acc; cbn [List.filter visit].
  { by rewrite drop_nil, app_nil_r. }
  destruct (Z.leb_spec current v).
  { rewrite (proj2 (Z.ltb_ge v current)) by lia. apply IH. }
  rewrite (proj2 (Z.ltb_lt v current)) by lia. destruct (Z.ltb_spec 0 keep); rewrite IH.
  - by replace (Z.to_nat keep) with (S (Z.to_nat (keep - 1))) by lia.
  - replace (Z.to_nat keep) with 0%nat by lia. by rewrite !drop_0, <- app_assoc.
Qed.

Lemma filter_sorted_rev (f : Z -> bool) l :
  StronglySorted Z.lt l -> StronglySorted (fun a b => b < a) (List.filter f (rev l)).
Proof.
  intros Hs. assert (StronglySorted (fun a b => b < a) (rev l)) as Hr.
  { induction Hs as [|v l Hs IH Hall]; [constructor|]. cbn [rev]. apply StronglySorted_app_iff.
    split; [done|]. split; [repeat constructor|].
    intros x y Hx ->%list_elem_of_singleton. rewrite Forall_forall in Hall. apply Hall.
    by rewrite list_elem_of_In, in_rev, <- list_elem_of_In. }
  induction Hr as [|v k Hk IH Hall]; [constructor|]. cbn [List.filter].
  destruct (f v); [|done]. constructor; [done|]. rewrite Forall_forall in *.
  intros x Hx. apply Hall. rewrite list_elem_of_In, filter_In, <- list_elem_of_In in Hx. tauto.
Qed.

(** ** Properties *)

(** Snapshot names of versions below [2 ^ 31] parse back to the version and sort
    by name in the order of the versions; from [2 ^ 31] on, versions that the
    [uint32] fields allow everywhere else, the name the code writes is rejected
    by its own parser. *)
Theorem snapshotName_parse v w :
  0 <= v < w -> w < 2 ^ 63 ->
  parseVersion (snapshotName v) =
    (if 2 ^ 31 <=? v then Err "snapshot version overflows: value out of range" else Ok v) /\
  name_ltb (snapshotName v) (snapshotName w) = true.
Proof.
  intros Hv Hw. split; [apply parseVersion_snapshotName; lia|by apply snapshotName_lt].
Qed.

Lemma snapshotName_parse_witness :
  parseVersion (snapshotName 7) = Ok 7 /\ name_ltb (snapshotName 7) (snapshotName 10) = true.
Proof. exact (snapshotName_parse 7 10 ltac:(lia) ltac:(lia)). Defined.

(** What the three traversals compute, on the versions. *)
Lemma seekSnapshot_spec entries target :
  entries_ok entries -> StronglySorted Z.lt (snapshotVersions entries) ->
  match seekSnapshot entries target with
  | Ok v => v ∈ snapshotVersions entries /\ v <= target /\
            forall w, w ∈ snapshotVersions entries -> w <= target -> w <= v
  | Err _ => forall w, w ∈ snapshotVersions entries -> target < w
  end.
Proof.
  intros Hok Hs. unfold seekSnapshot, traverseSnapshots.
  rewrite traverse_visit, snapshotVersions_rev, seek_first by (by apply entries_ok_rev).
  set (versions := snapshotVersions entries) in *.
  assert (forall w, w ∈ versions -> w <= target <->
    w ∈ List.filter (fun v => v <=? target) (rev versions)) as Hin.
  { intros w Hw. rewrite !list_elem_of_In, filter_In, <- in_rev, <- list_elem_of_In, Z.leb_le. tauto. }
  destruct (List.filter (fun v => v <=? target) (rev versions)) as [|v l] eqn:El; cbn [head].
  { intros w Hw. destruct (Z.lt_ge_cases target w); [done|].
    exfalso. by apply (elem_of_nil w), Hin. }
  assert (v ∈ versions /\ v <= target) as [Hv Hvt].
  { assert (v ∈ List.filter (fun v => v <=? target) (rev versions)) as Hf by (rewrite El; by left).
    rewrite list_elem_of_In, filter_In, <- in_rev, <- list_elem_of_In, Z.leb_le in Hf. done. }
  split; [done|]. split; [done|]. intros w Hw Hwt. apply (Hin w Hw) in Hwt.
  assert (StronglySorted (fun a b => b < a) (v :: l)) as Hd.
  { rewrite <- El. apply filter_sorted_rev, Hs. }
  inversion Hd as [|? ? _ Hall]; subst. apply elem_of_cons in Hwt as [->|Hwl]; [lia|].
  rewrite Forall_forall in Hall. specialize (Hall w Hwl). lia.
Qed.

Lemma prunedVersions_spec entries current keep :
  entries_ok entries ->
  prunedVersions entries current keep =
  (drop (Z.to_nat keep) (List.filter (fun v => v <? current) (rev (snapshotVersions entries))), None).
Proof.
  intros Hok. unfold prunedVersions, traverseSnapshots.
  rewrite traverse_visit, snapshotVersions_rev by (by apply entries_ok_rev).
  pose proof (prune_fold (rev (snapshotVersions entries)) current keep []) as E.
  destruct (visit _ _ _) as [c l]. cbn [snd app] in E. by subst.
Qed.

Lemma firstSnapshotVersion_spec entries :
  entries_ok entries ->
  firstSnapshotVersion entries =
  match snapshotVersions entries with
  | [] => Err "empty memiavl db"
  | v :: _ => if v =? 0 then Err "empty memiavl db" else Ok v
  end.
Proof.
  intros Hok. unfold firstSnapshotVersion, traverseSnapshots. rewrite traverse_visit by done.
  by destruct (snapshotVersions entries).
Qed.

(** On a directory that holds snapshots and other files, in the order of their
    names, [seekSnapshot] returns the greatest version not above the target, or
    the error when all are above it; pruning removes exactly the versions older
    than the current one but for the [keep] most recent of them, never the
    current one or a newer one; and the first version is the least, where a
    first version 0 is reported as an empty database. *)
Theorem seek_and_prune entries target current keep :
  let versions := snapshotVersions entries in
  entries_ok entries -> StronglySorted Z.lt versions ->
  match seekSnapshot entries target with
  | Ok v => v ∈ versions /\ v <= target /\ forall w, w ∈ versions -> w <= target -> w <= v
  | Err _ => forall w, w ∈ versions -> target < w
  end /\
  prunedVersions entries current keep =
    (drop (Z.to_nat keep) (List.filter (fun v => v <? current) (rev versions)), None) /\
  firstSnapshotVersion entries =
    match versions with
    | [] => Err "empty memiavl db"
    | v :: _ => if v =? 0 then Err "empty memiavl db" else Ok v
    end.
Proof.
  intros versions Hok Hs. split; [by apply seekSnapshot_spec|].
  split; [by apply prunedVersions_spec|by apply firstSnapshotVersion_spec].
Qed.

Lemma seek_and_prune_witness :
  let entries := ("current", false) :: listing [0; 100; 200; 300] ++ [("wal", true)] in
  seekSnapshot entries 250 = Ok 200 /\ prunedVersions entries 300 1 = ([100; 0], None) /\
  firstSnapshotVersion entries = Err "empty memiavl db".
Proof.
  intros entries. destruct (seek_and_prune entries 250 300 1) as (_ & Ep & Ef).
  - constructor; [done|]. apply Forall_app. split; [|by repeat constructor].
    apply snapshotVersions_listing. repeat constructor; lia.
  - vm_compute. repeat constructor.
  - split; [vm_compute; reflexivity|]. split; [exact Ep|exact Ef].
Defined.
