(* ===== verification/Hardhat.v ===== *)
(** * The build of the test contracts: [integration_tests/contracts]

    The Hardhat configuration and the sources it compiles: their version
    pragmas and their imports.  Hardhat compiles a source with the newest of the
    configured compilers that the pragmas of the source and of everything it
    imports accept; its choice ([maxSatisfying]) and the pragmas of the imported
    packages are code outside this repository.  The files below [./src] are those
    of [x/cronos/events/bindings/src]. *)

From S2P Require Import Prelude Proto SnapshotName.
From Stdlib Require Import Strings.Byte.

Open Scope string_scope.
Open Scope Z_scope.
Open Scope list_scope.

(** ** [hardhat.config.ts] *)

Record Optimizer := mkOptimizer { enabled : bool }.
Record Settings := mkSettings { optimizer : Optimizer; evmVersion : option string }.
Record Compiler := mkCompiler { cVersion : string; settings : Settings }.
Record Solidity := mkSolidity { compilers : list Compiler }.
Record Typechain := mkTypechain { outDir : string; target : string; runOnCompile : bool }.
Record Config := mkConfig { solidity : Solidity; typechain : Typechain }.

Definition config : Config :=
  mkConfig
    (mkSolidity
      [mkCompiler "0.8.28" (mkSettings (mkOptimizer true) (Some "prague"));
       mkCompiler "0.8.21" (mkSettings (mkOptimizer true) (Some "shanghai"));
       mkCompiler "0.8.10" (mkSettings (mkOptimizer true) None);
       mkCompiler "0.6.6" (mkSettings (mkOptimizer true) None)])
    (mkTypechain "typechain" "ethers-v5" true).

(** ** Versions and pragmas *)

Definition version : Type := Z * Z * Z.

(** Split at a byte. *)
Fixpoint splitOn (c : byte) (b : bytes) : list bytes :=
  match b with
  | [] => [[]]
  | x :: b =>
      if bool_decide (x = c) then [] :: splitOn c b
      else match splitOn c b with
           | [] => [[x]]
           | p :: ps => (x :: p) :: ps
           end
  end.

(** The number of a component: at least one digit. *)
Definition component (b : bytes) : option Z :=
  match b with [] => None | _ => foldl parse_digit (Some 0) b end.

(** A version [x.y.z]. *)
Definition semver (s : string) : option version :=
  match splitOn x2e (bytes_of_string s) with
  | [a; b; c] => a ← component a; b ← component b; c ← component c; Some (a, b, c)
  | _ => None
  end.

Definition version_ltb (v w : version) : bool :=
  let '(a, b, c) := v in
  let '(a', b', c') := w in
  (a <? a') || ((a =? a') && ((b <? b') || ((b =? b') && (c <? c')))).

(** The forms of version pragmas the sources use: [0.8.21], [^0.8.4], [>0.6.6]. *)
Inductive range := Exact (v : version) | Caret (v : version) | Above (v : version).

(** The first version a caret excludes: the leftmost component that is not zero
    stays. *)
Definition caret_bound (v : version) : version :=
  let '(a, b, c) := v in
  if 0 <? a then (a + 1, 0, 0) else if 0 <? b then (0, b + 1, 0) else (0, 0, c + 1).

Definition satisfies (v : version) (r : range) : bool :=
  match r with
  | Exact w => bool_decide (v = w)
  | Caret w => negb (version_ltb v w) && version_ltb v (caret_bound w)
  | Above w => version_ltb w v
  end.

(** ** The sources *)

(** A source of the repository, by its path from the directory of the contracts,
    or one of the packages [@openzeppelin/contracts] and [account-abstraction]. *)
Inductive import :=
  | Local (name : string)
  | OpenZeppelin (path : string)
  | AccountAbstraction (path : string).

Record source := mkSource { sName : string; pragma : range; imports : list import }.

Definition CosmosToken := mkSource "CosmosToken.sol" (Caret (0, 8, 21))
  [OpenZeppelin "token/ERC20/ERC20.sol"; Local "ICosmosToken.sol"].
Definition Counter := mkSource "Counter.sol" (Caret (0, 8, 28)) [].
Definition CroBridge := mkSource "CroBridge.sol" (Caret (0, 6, 6)) [].
Definition CronosGravityCancellation := mkSource "CronosGravityCancellation.sol" (Caret (0, 6, 6)) [].
Definition Gravity := mkSource "Gravity.sol" (Exact (0, 8, 21))
  [OpenZeppelin "access/AccessControl.sol"; OpenZeppelin "access/Ownable.sol";
   OpenZeppelin "token/ERC20/IERC20.sol"; OpenZeppelin "token/ERC20/utils/SafeERC20.sol";
   OpenZeppelin "utils/Address.sol"; OpenZeppelin "utils/Pausable.sol";
   OpenZeppelin "utils/ReentrancyGuard.sol"; OpenZeppelin "utils/cryptography/ECDSA.sol";
   Local "CosmosToken.sol"].
Definition Greeter := mkSource "Greeter.sol" (Exact (0, 8, 21)) [].
Definition ICosmosToken := mkSource "ICosmosToken.sol" (Exact (0, 8, 21)) [].
Definition Random := mkSource "Random.sol" (Caret (0, 8, 15)) [].
Definition Simple7702Account := mkSource "Simple7702Account.sol" (Caret (0, 8, 28))
  [OpenZeppelin "utils/introspection/IERC165.sol"; OpenZeppelin "interfaces/IERC1271.sol";
   OpenZeppelin "token/ERC1155/utils/ERC1155Holder.sol"; OpenZeppelin "token/ERC721/utils/ERC721Holder.sol";
   OpenZeppelin "utils/cryptography/ECDSA.sol"; AccountAbstraction "contracts/core/Helpers.sol";
   AccountAbstraction "contracts/core/BaseAccount.sol"].
Definition Simple7702Counter := mkSource "Simple7702Counter.sol" (Caret (0, 8, 28)) [].
Definition TestBank := mkSource "TestBank.sol" (Above (0, 6, 6))
  [OpenZeppelin "token/ERC20/ERC20.sol"; Local "src/Bank.sol"].
Definition TestBlackListERC20 := mkSource "TestBlackListERC20.sol" (Exact (0, 8, 21))
  [OpenZeppelin "token/ERC20/ERC20.sol"].
Definition TestBlockTxProperties := mkSource "TestBlockTxProperties.sol" (Exact (0, 8, 21)) [].
Definition TestCRC20 := mkSource "TestCRC20.sol" (Exact (0, 8, 21)) [OpenZeppelin "token/ERC20/ERC20.sol"].
Definition TestCRC20Proxy := mkSource "TestCRC20Proxy.sol" (Caret (0, 8, 8)) [Local "TestCRC20.sol"].
Definition TestERC20A := mkSource "TestERC20A.sol" (Caret (0, 8, 20)) [OpenZeppelin "token/ERC20/ERC20.sol"].
Definition TestERC20Utility := mkSource "TestERC20Utility.sol" (Exact (0, 8, 21))
  [OpenZeppelin "token/ERC20/ERC20.sol"].
Definition TestERC21Source := mkSource "TestERC21Source.sol" (Exact (0, 8, 21))
  [OpenZeppelin "token/ERC20/ERC20.sol"].
Definition TestICA := mkSource "TestICA.sol" (Caret (0, 8, 4)) [Local "src/ICA.sol"].
Definition TestMaliciousSupply := mkSource "TestMaliciousSupply.sol" (Exact (0, 8, 21))
  [OpenZeppelin "token/ERC20/ERC20.sol"].
Definition TestMessageCall := mkSource "TestMessageCall.sol" (Caret (0, 6, 6)) [].
Definition TestRelayer := mkSource "TestRelayer.sol" (Caret (0, 8, 4)) [Local "src/RelayerFunctions.sol"].
Definition TestRevert := mkSource "TestRevert.sol" (Caret (0, 6, 6)) [].
Definition TestSuicide := mkSource "TestSuicide.sol" (Caret (0, 6, 6)) [].
Definition Utils := mkSource "Utils.sol" (Caret (0, 8, 20)) [].

(** The interfaces of the precompiled contracts. *)
Definition Bank := mkSource "src/Bank.sol" (Caret (0, 8, 4)) [].
Definition CosmosTypes := mkSource "src/CosmosTypes.sol" (Caret (0, 8, 4)) [].
Definition ICA := mkSource "src/ICA.sol" (Caret (0, 8, 4)) [].
Definition ICACallback := mkSource "src/ICACallback.sol" (Caret (0, 8, 4)) [].
Definition Relayer := mkSource "src/Relayer.sol" (Caret (0, 8, 4)) [Local "src/CosmosTypes.sol"].
Definition RelayerFunctions := mkSource "src/RelayerFunctions.sol" (Caret (0, 8, 4)) [].

Definition sources : list source :=
  [CosmosToken; Counter; CroBridge; CronosGravityCancellation; Gravity; Greeter; ICosmosToken; Random;
   Simple7702Account; Simple7702Counter; TestBank; TestBlackListERC20; TestBlockTxProperties; TestCRC20;
   TestCRC20Proxy; TestERC20A; TestERC20Utility; TestERC21Source; TestICA; TestMaliciousSupply;
   TestMessageCall; TestRelayer; TestRevert; TestSuicide; Utils;
   Bank; CosmosTypes; ICA; ICACallback; Relayer; RelayerFunctions].

(** ** The choice of a compiler *)

Section Select.
(** The pragmas of a file of a package and of all it imports, and Hardhat's choice among versions. *)
Context (externalPragmas : import -> list range).
Context (maxSatisfying : list version -> list range -> option version).

(** The pragmas a source brings with it; the depth bounds the chain of
    imports. *)
Fixpoint pragmas (depth : nat) (s : source) : list range :=
  pragma s ::
  match depth with
  | O => []
  | S depth =>
      imports s ≫= fun i =>
        match i with
        | Local n =>
            match list_find (fun s => sName s = n) sources with
            | Some (_, s) => pragmas depth s
            | None => []
            end
        | _ => externalPragmas i
        end
  end.

Definition configured : list version := omap (fun c => semver (cVersion c)) (compilers (solidity config)).

Definition compileWith (s : source) : option Compiler :=
  v ← maxSatisfying configured (pragmas 3 s);
  snd <$> list_find (fun c => semver (cVersion c) = Some v) (compilers (solidity config)).

Definition accepts (rs : list range) (v : version) : bool := forallb (satisfies v) rs.

(** What the choice documents: the highest version that satisfies all the
    ranges, none when there is none. *)
Definition picks_highest : Prop :=
  forall vs rs,
    match maxSatisfying vs rs with
    | Some v => v ∈ vs /\ accepts rs v = true /\
                forall w, w ∈ vs -> accepts rs w = true -> version_ltb v w = false
    | None => forall w, w ∈ vs -> accepts rs w = false
    end.

(** The compiler of a source is one of the configuration, its version is accepted
    by the pragmas of the source and of everything it imports, and no configured
    version that is accepted is newer; there is none only when none is accepted. *)
Lemma compileWith_newest s :
  picks_highest ->
  match compileWith s with
  | Some c => c ∈ compilers (solidity config) /\ exists v, semver (cVersion c) = Some v /\
      accepts (pragmas 3 s) v = true /\
      forall w, w ∈ configured -> accepts (pragmas 3 s) w = true -> version_ltb v w = false
  | None => forall w, w ∈ configured -> accepts (pragmas 3 s) w = false
  end.
Proof.
  intros Hp. specialize (Hp configured (pragmas 3 s)). unfold compileWith.
  destruct (maxSatisfying configured (pragmas 3 s)) as [v|]; [|exact Hp]. destruct Hp as (Hv & Ha & Hh).
  cbn [mbind option_bind]. destruct (list_find _ _) as [[i c]|] eqn:Ef.
  - apply list_find_Some in Ef as (Hi & Hc & _). split; [by eapply list_elem_of_lookup_2|]. by exists v.
  - apply list_find_None in Ef. apply list_elem_of_omap in Hv as (c & Hin & Hc).
    by apply (proj1 (Forall_forall _ _) Ef c Hin) in Hc.
Qed.
End Select.

(** The files of the repository leave a configured version for each of them. *)
Lemma sources_compatible :
  forallb (fun s => existsb (accepts (pragmas (fun _ => []) 3 s)) configured) sources = true.
Proof. vm_compute. reflexivity. Qed.
