(* ===== verification/OAuth2.v ===== *)
(** * The redirect page of Swagger UI: [client/docs/swagger-ui/oauth2-redirect.html]

    The page that an authorization server sends the browser back to.  Its script
    builds a JSON text from the query, parses it, and hands the result to the
    window that opened the page.

    Strings are lists of code units.  [JSON.parse] is modelled for objects whose
    members are strings, with all escapes; [None] is a text with any other value,
    which no query without quotes and backslashes leads to.  The serialization of a
    URL has no quotes. *)

From S2P Require Import Prelude Proto.
From stdpp Require Import gmap.

Open Scope string_scope.
Open Scope Z_scope.
Open Scope list_scope.

(** ** Strings of JavaScript *)

Abbreviation js := (list Z).

(** A literal. *)
Definition lit (s : string) : js := (fun c => Z.of_N (Ascii.N_of_ascii c)) <$> String.list_ascii_of_string s.

(** [substring(1)] *)
Definition substring1 (s : js) : js := drop 1 s.

(** [split] and [join] with a separator of one unit *)
Fixpoint split (c : Z) (s : js) : list js :=
  match s with
  | [] => [[]]
  | x :: s =>
      if x =? c then [] :: split c s
      else match split c s with
           | [] => [[x]]
           | p :: ps => (x :: p) :: ps
           end
  end.

Fixpoint join (c : Z) (l : list js) : js :=
  match l with
  | [] => []
  | [p] => p
  | p :: l => p ++ c :: join c l
  end.

(** [replace] of the first occurrence of one unit *)
Fixpoint replaceFirst (c : Z) (by_ : js) (s : js) : js :=
  match s with
  | [] => []
  | x :: s => if x =? c then by_ ++ s else x :: replaceFirst c by_ s
  end.

Fixpoint hasPrefix (p s : js) : bool :=
  match p, s with
  | [], _ => true
  | x :: p, y :: s => (x =? y) && hasPrefix p s
  | _, [] => false
  end.

Fixpoint contains (p s : js) : bool :=
  hasPrefix p s || match s with [] => false | _ :: s => contains p s end.

Definition hexDigit (c : Z) : option Z :=
  if (48 <=? c) && (c <=? 57) then Some (c - 48)
  else if (65 <=? c) && (c <=? 70) then Some (c - 55)
  else if (97 <=? c) && (c <=? 102) then Some (c - 87)
  else None.

(** ** [decodeURIComponent]; [None] is a [URIError] *)

Definition percentByte (h l : Z) : option Z := h ← hexDigit h; l ← hexDigit l; Some (16 * h + l).

(** The bits of a byte that continues a character. *)
Definition continuation (p h l : Z) : option Z :=
  if negb (p =? 37) then None
  else b ← percentByte h l; if (128 <=? b) && (b <? 192) then Some (b - 128) else None.

(** The code units of a code point. *)
Definition utf16 (v : Z) : js :=
  if v <? 65536 then [v] else [55296 + (v - 65536) / 1024; 56320 + (v - 65536) mod 1024].

Fixpoint decodeURIComponent (s : js) : option js :=
  match s with
  | [] => Some []
  | c :: s =>
      if negb (c =? 37) then cons c <$> decodeURIComponent s
      else
        match s with
        | h :: l :: s =>
            b ← percentByte h l;
            if b <? 128 then cons b <$> decodeURIComponent s
            else if (192 <=? b) && (b <? 224) then
              match s with
              | p1 :: h1 :: l1 :: s =>
                  c1 ← continuation p1 h1 l1;
                  let v := 64 * (b - 192) + c1 in
                  if v <? 128 then None else app (utf16 v) <$> decodeURIComponent s
              | _ => None
              end
            else if (224 <=? b) && (b <? 240) then
              match s with
              | p1 :: h1 :: l1 :: p2 :: h2 :: l2 :: s =>
                  c1 ← continuation p1 h1 l1; c2 ← continuation p2 h2 l2;
                  let v := 4096 * (b - 224) + 64 * c1 + c2 in
                  if (v <? 2048) || ((55296 <=? v) && (v <? 57344)) then None
                  else app (utf16 v) <$> decodeURIComponent s
              | _ => None
              end
            else if (240 <=? b) && (b <? 248) then
              match s with
              | p1 :: h1 :: l1 :: p2 :: h2 :: l2 :: p3 :: h3 :: l3 :: s =>
                  c1 ← continuation p1 h1 l1; c2 ← continuation p2 h2 l2; c3 ← continuation p3 h3 l3;
                  let v := 262144 * (b - 240) + 4096 * c1 + 64 * c2 + c3 in
                  if (v <? 65536) || (1114111 <? v) then None else app (utf16 v) <$> decodeURIComponent s
              | _ => None
              end
            else None
        | _ => None
        end
  end.

(** ** [JSON.parse] *)

(** What a script throws. *)
Definition SyntaxError : error := "SyntaxError".
Definition URIError : error := "URIError".
Definition TypeError : error := "TypeError".

Definition isSpace (c : Z) : bool := (c =? 32) || (c =? 9) || (c =? 10) || (c =? 13).

Fixpoint skipSpace (t : js) : js :=
  match t with
  | c :: t' => if isSpace c then skipSpace t' else t
  | [] => []
  end.

(** The unit an escape of two units stands for. *)
Definition escape (c : Z) : option Z :=
  if (c =? 34) || (c =? 92) || (c =? 47) then Some c
  else if c =? 98 then Some 8 else if c =? 102 then Some 12 else if c =? 110 then Some 10
  else if c =? 114 then Some 13 else if c =? 116 then Some 9 else None.

(** The rest of a string, after its opening quote, and what follows it. *)
Fixpoint readString (t : js) : option (js * js) :=
  match t with
  | [] => None
  | c :: t =>
      if c =? 34 then Some ([], t)
      else if c =? 92 then
        match t with
        | e :: t =>
            if e =? 117 then
              match t with
              | a :: b :: c :: d :: t =>
                  h1 ← percentByte a b; h2 ← percentByte c d;
                  '(s, t) ← readString t; Some (256 * h1 + h2 :: s, t)
              | _ => None
              end
            else x ← escape e; '(s, t) ← readString t; Some (x :: s, t)
        | [] => None
        end
      else if c <? 32 then None
      else '(s, t) ← readString t; Some (c :: s, t)
  end.

(** The first unit of a value that is not a string. *)
Definition startsValue (c : Z) : bool :=
  (c =? 123) || (c =? 91) || (c =? 45) || ((48 <=? c) && (c <=? 57)) || (c =? 116) || (c =? 102) || (c =? 110).

(** A unit that has to come next, and a string. *)
Definition expect (c : Z) (t : js) : option js :=
  match skipSpace t with x :: t => if x =? c then Some t else None | [] => None end.

Definition literal (t : js) : option (js * js) := t ← expect 34 t; readString t.

(** Nothing but space is left. *)
Definition atEnd (t : js) : bool := match skipSpace t with [] => true | _ => false end.

(** A value: [None] when it is not a string, but not wrong yet. *)
Definition value (t : js) : option (result (js * js)) :=
  match skipSpace t with
  | c :: _ =>
      if startsValue c then None
      else Some match literal t with Some r => Ok r | None => Err SyntaxError end
  | [] => Some (Err SyntaxError)
  end.

(** The members of an object up to the end of the text; every round reads a
    member. *)
Fixpoint members (fuel : nat) (t : js) : option (result (list (js * js))) :=
  match fuel with
  | O => None
  | S fuel =>
      match '(k, t) ← literal t; t ← expect 58 t; Some (k, t) with
      | None => Some (Err SyntaxError)
      | Some (k, t) =>
          r ← value t;
          match r with
          | Err e => Some (Err e)
          | Ok (v, t) =>
              match expect 44 t, expect 125 t with
              | Some t, _ => r ← members fuel t; Some (l ← r; Ok ((k, v) :: l))
              | _, Some t => Some (if atEnd t then Ok [(k, v)] else Err SyntaxError)
              | None, None => Some (Err SyntaxError)
              end
          end
      end
  end.

(** A text that starts an object, which is all the page makes. *)
Definition jsonParse (t : js) : option (result (list (js * js))) :=
  t ← expect 123 t;
  match expect 125 t with
  | Some t => Some (if atEnd t then Ok [] else Err SyntaxError)
  | None => members (length t) t
  end.

(** A later member of the same name replaces an earlier one. *)
Definition object (l : list (js * js)) : gmap js js := foldl (fun m kv => <[kv.1 := kv.2]> m) ∅ l.

(** The reviver: all values but that of the empty name are decoded. *)
Definition reviver (key value : js) : option js :=
  match key with [] => Some value | _ => decodeURIComponent value end.

Definition revive (m : gmap js js) : result (gmap js js) :=
  if forallb (fun kv => bool_decide (is_Some (reviver kv.1 kv.2))) (map_to_list m)
  then Ok (map_imap reviver m) else Err URIError.

(** ** The page *)

(** What the page uses of [swaggerUIRedirectOauth2] of the window that opened it:
    an absent property is [None]. *)
Record Auth := mkAuth { authName : js; flow : js; code : option js }.
Record OAuth2 := mkOAuth2 { oState : option js; redirectUrl : js; auth : Auth }.

(** The calls of its functions. *)
Inductive event :=
| ErrCb (authId level message : js)
| Callback (a : Auth) (token : option (gmap js js)) (isValid : option bool) (redirect : js).

Record Window := mkWindow {
  opener : option OAuth2; hash : js; search : js; calls : list event; closed : bool }.

Definition withOpener (o : OAuth2) (w : Window) : Window :=
  mkWindow (Some o) (hash w) (search w) (calls w) (closed w).
Definition call (e : event) (w : Window) : Window :=
  mkWindow (opener w) (hash w) (search w) (calls w ++ [e]) (closed w).
Definition close (w : Window) : Window := mkWindow (opener w) (hash w) (search w) (calls w) true.

(** An absent or empty string is false. *)
Definition truthy (x : option js) : option js := match x with Some (c :: s) => Some (c :: s) | _ => None end.

(** The query, from the fragment or the search part of the location. *)
Definition query (w : Window) : js :=
  if contains (lit "code") (hash w) || contains (lit "token") (hash w) || contains (lit "error") (hash w)
  then substring1 (hash w) else substring1 (search w).

Definition quoted (v : js) : js := 34 :: replaceFirst 61 [34; 58; 34] v ++ [34].

Definition parseQuery (qp : js) : option (result (gmap js js)) :=
  match qp with
  | [] => Some (Ok ∅)
  | _ =>
      r ← jsonParse (123 :: join 44 (quoted <$> split 38 qp) ++ [125]);
      Some (l ← r; revive (object l))
  end.

Definition warningMessage : js :=
  lit "Authorization may be unsafe, passed state was changed in server Passed state wasn't returned from auth server".

Definition oauthErrorMsg (qp : gmap js js) : option js :=
  match truthy (qp !! lit "error") with
  | None => None
  | Some e =>
      Some (lit "[" ++ e ++ lit "]: " ++
        match truthy (qp !! lit "error_description") with
        | Some d => d ++ lit ". "
        | None => lit "no accessCode received from the server. "
        end ++
        match truthy (qp !! lit "error_uri") with Some u => lit "More info: " ++ u | None => [] end)
  end.

Definition codeFlow (a : Auth) : bool :=
  bool_decide (flow a = lit "accessCode") || bool_decide (flow a = lit "authorizationCode") ||
  bool_decide (flow a = lit "authorization_code").

(** What the script does with the parameters. *)
Definition answer (o : OAuth2) (qp : gmap js js) (w : Window) : Window :=
  let isValid := bool_decide (qp !! lit "state" = oState o) in
  let a := auth o in
  if codeFlow a && match truthy (code a) with None => true | Some _ => false end then
    let w := if isValid then w else call (ErrCb (authName a) (lit "warning") warningMessage) w in
    match truthy (qp !! lit "code") with
    | Some c =>
        let a := mkAuth (authName a) (flow a) (Some c) in
        call (Callback a None None (redirectUrl o)) (withOpener (mkOAuth2 None (redirectUrl o) a) w)
    | None =>
        call (ErrCb (authName a) (lit "error")
          (default (lit "[Authorization failed]: no accessCode received from the server") (oauthErrorMsg qp))) w
    end
  else call (Callback a (Some qp) (Some isValid) (redirectUrl o)) w.

(** [run]; an exception ends the script and leaves the window open. *)
Definition run (w : Window) : option (result unit * Window) :=
  match opener w with
  | None => Some (Err TypeError, w)
  | Some o =>
      r ← parseQuery (query w);
      Some match r with
      | Err e => (Err e, w)
      | Ok qp => (Ok tt, close (answer o qp w))
      end
  end.

(** ** The JSON text of a query *)

(** A unit that a string literal of JSON has as it is. *)
Definition plain (c : Z) : Prop := 32 <= c /\ c <> 34 /\ c <> 92.

(** A part of a query: the units between two ampersands. *)
Definition part_ok (p : js) : Prop := Forall (fun c => plain c /\ c <> 38) p.

(** Name and value of a part, at its first equals sign. *)
Fixpoint splitEq (p : js) : option (js * js) :=
  match p with
  | [] => None
  | c :: p => if c =? 61 then Some ([], p) else '(k, v) ← splitEq p; Some (c :: k, v)
  end.

Lemma readString_plain s t : Forall plain s -> readString (s ++ 34 :: t) = Some (s, t).
Proof.
  intros Hs. induction Hs as [|c s (H32 & H34 & H92) Hs IH]; [done|]. cbn [app readString].
  rewrite (proj2 (Z.eqb_neq _ _) H34), (proj2 (Z.eqb_neq _ _) H92), (proj2 (Z.ltb_ge _ _) H32), IH. done.
Qed.

Lemma split_cons c p ps : c ∉ p -> split c (p ++ c :: ps) = p :: split c ps.
Proof.
  induction p as [|x p IH]; intros Hc; cbn [app split]; [by rewrite Z.eqb_refl|].
  apply not_elem_of_cons in Hc as [Hx Hc]. rewrite (proj2 (Z.eqb_neq x c)) by congruence. by rewrite IH.
Qed.

Lemma split_single c p : c ∉ p -> split c p = [p].
Proof.
  induction p as [|x p IH]; intros Hc; cbn [split]; [done|].
  apply not_elem_of_cons in Hc as [Hx Hc]. rewrite (proj2 (Z.eqb_neq x c)) by congruence. by rewrite IH.
Qed.

Lemma split_join c ps : ps <> [] -> Forall (fun p => c ∉ p) ps -> split c (join c ps) = ps.
Proof.
  intros Hne Hps. induction Hps as [|p ps Hp Hps IH]; [done|]. destruct ps as [|q ps]; [by apply split_single|].
  change (join c (p :: q :: ps)) with (p ++ c :: join c (q :: ps)). rewrite split_cons by done. by rewrite IH.
Qed.

Lemma quoted_eq p :
  quoted p = 34 :: match splitEq p with Some (k, v) => k ++ 34 :: 58 :: 34 :: v | None => p end ++ [34].
Proof.
  unfold quoted. f_equal. f_equal. induction p as [|c p IH]; [done|]. cbn [replaceFirst splitEq].
  destruct (c =? 61); [done|]. rewrite IH. by destruct (splitEq p) as [[k v]|].
Qed.

Lemma splitEq_plain p k v : Forall plain p -> splitEq p = Some (k, v) -> Forall plain k /\ Forall plain v.
Proof.
  intros Hp. revert k v. induction Hp as [|c p Hc Hp IH]; intros k v; cbn [splitEq]; [done|].
  destruct (c =? 61); [by intros [= <- <-]|]. destruct (splitEq p) as [[k' v']|]; cbn; [|done].
  intros [= <- <-]. destruct (IH k' v' eq_refl). split; [by constructor|done].
Qed.

(** What follows a part in the text. *)
Definition rest (ps : list js) : js := match ps with [] => [125] | _ => 44 :: join 44 (quoted <$> ps) ++ [125] end.

Lemma join_rest p ps : join 44 (quoted <$> (p :: ps)) ++ [125] = quoted p ++ rest ps.
Proof. destruct ps as [|q ps]; [done|]. cbn [fmap list_fmap join rest]. by rewrite <- app_assoc. Qed.

Lemma literal_plain s t : Forall plain s -> literal (34 :: s ++ 34 :: t) = Some (s, t).
Proof. apply readString_plain. Qed.

Lemma value_plain s t : Forall plain s -> value (34 :: s ++ 34 :: t) = Some (Ok (s, t)).
Proof.
  intros Hs. change (value (34 :: s ++ 34 :: t)) with
    (Some match literal (34 :: s ++ 34 :: t) with Some r => Ok r | None => Err SyntaxError end).
  by rewrite literal_plain.
Qed.

(** One part of the text. *)
Lemma members_part fuel p ps :
  Forall plain p ->
  members (S fuel) (quoted p ++ rest ps) =
    match splitEq p with
    | None => Some (Err SyntaxError)
    | Some kv =>
        match ps with
        | [] => Some (Ok [kv])
        | _ => r ← members fuel (join 44 (quoted <$> ps) ++ [125]); Some (l ← r; Ok (kv :: l))
        end
    end.
Proof.
  intros Hp. rewrite quoted_eq. cbn [members]. destruct (splitEq p) as [[k v]|] eqn:Ep.
  - destruct (splitEq_plain p k v Hp Ep) as [Hk Hv].
    replace ((34 :: (k ++ 34 :: 58 :: 34 :: v) ++ [34]) ++ rest ps) with (34 :: k ++ 34 :: 58 :: 34 :: v ++ 34 :: rest ps)
      by (cbn; by rewrite <- !app_assoc).
    rewrite literal_plain by done. cbn [mbind option_bind]. 
    change (expect 58 (58 :: 34 :: v ++ 34 :: rest ps)) with (Some (34 :: v ++ 34 :: rest ps)). cbn [mbind option_bind].
    rewrite value_plain by done. cbn [mbind option_bind]. by destruct ps.
  - replace ((34 :: p ++ [34]) ++ rest ps) with (34 :: p ++ 34 :: rest ps) by (cbn; by rewrite <- app_assoc).
    rewrite literal_plain by done. cbn [mbind option_bind]. by destruct ps.
Qed.

(** The text gives the names and values of the parts back; a part without an
    equals sign makes it wrong. *)
Lemma members_parts fuel ps :
  ps <> [] -> (length ps <= fuel)%nat -> Forall (Forall plain) ps ->
  members fuel (join 44 (quoted <$> ps) ++ [125]) =
    Some match mapM splitEq ps with Some kvs => Ok kvs | None => Err SyntaxError end.
Proof.
  revert fuel. induction ps as [|p ps IH]; intros fuel Hne Hf Hps; [done|].
  apply Forall_cons in Hps as [Hp Hps]. destruct fuel as [|fuel]; [cbn in Hf; lia|].
  rewrite join_rest, members_part by done. cbn [mapM]. destruct (splitEq p) as [kv|]; cbn [mbind option_bind]; [|done].
  destruct ps as [|q ps]; [done|]. rewrite IH by (done || (cbn in Hf |- *; lia)).
  cbn [mbind option_bind]. by destruct (mapM splitEq (q :: ps)).
Qed.

Lemma join_length (ps : list js) : (length ps <= length (join 44%Z (quoted <$> ps) ++ [125%Z]))%nat.
Proof.
  induction ps as [|p ps IH]; [cbn; lia|]. rewrite join_rest, length_app. unfold quoted. cbn [length].
  destruct ps; cbn [rest length] in *; lia.
Qed.

Lemma parseQuery_parts ps :
  Forall part_ok ps -> (join 38 ps = [] -> ps = []) ->
  parseQuery (join 38 ps) =
    Some match mapM splitEq ps with Some kvs => revive (object kvs) | None => Err SyntaxError end.
Proof.
  intros Hps Hne. destruct (decide (ps = [])) as [->|Hps0]; [done|]. unfold parseQuery.
  destruct (join 38 ps) as [|c qp] eqn:Eq; [by destruct (Hps0 (Hne eq_refl))|]. rewrite <- Eq. rewrite split_join; [|done|].
  2: { eapply Forall_impl; [exact Hps|]. intros p Hp Hin. by apply (proj1 (Forall_forall _ _) Hp 38 Hin). }
  assert (Forall (Forall plain) ps) as Hpl.
  { eapply Forall_impl; [exact Hps|]. intros p Hp. eapply Forall_impl; [exact Hp|]. by intros x []. }
  replace (jsonParse (123 :: join 44 (quoted <$> ps) ++ [125])) with
    (members (length (join 44 (quoted <$> ps) ++ [125])) (join 44 (quoted <$> ps) ++ [125])).
  2: { destruct ps as [|p ps]; [done|]. rewrite join_rest. unfold jsonParse. 
       change (expect 123 (123 :: quoted p ++ rest ps)) with (Some (quoted p ++ rest ps)). done. }
  rewrite members_parts by (done || apply join_length). cbn [mbind option_bind]. by destruct (mapM splitEq ps).
Qed.

(** ** The parameters *)

(** The last value of a name. *)
Definition lastValue (kvs : list (js * js)) (k : js) : option js :=
  snd <$> last (filter (fun kv => kv.1 = k) kvs).

(** A parameter as the page sees it. *)
Definition param (kvs : list (js * js)) (k : js) : option js := v ← lastValue kvs k; reviver k v.

Definition decodable (kvs : list (js * js)) : Prop :=
  forall k v, lastValue kvs k = Some v -> is_Some (reviver k v).

Lemma decodable_all kvs : Forall (fun kv => is_Some (reviver kv.1 kv.2)) kvs -> decodable kvs.
Proof.
  intros Hall k v. unfold lastValue. intros ([k' v'] & Hl & ->)%fmap_Some.
  apply last_Some_elem_of, list_elem_of_filter in Hl as [<- Hin]. exact (proj1 (Forall_forall _ _) Hall _ Hin).
Qed.

Lemma object_lookup kvs k : object kvs !! k = lastValue kvs k.
Proof.
  unfold object, lastValue. induction kvs as [|[k' v] kvs IH] using rev_ind; [done|].
  rewrite foldl_snoc, filter_app. cbn [fst snd]. destruct (decide (k' = k)) as [->|Hk].
  - rewrite lookup_insert_eq. rewrite filter_cons_True, filter_nil by done. by rewrite last_snoc.
  - rewrite lookup_insert_ne, IH by done. rewrite filter_cons_False, filter_nil by done. by rewrite app_nil_r.
Qed.

(** All parameters, decoded, or none when one of them cannot be. *)
Lemma revive_params kvs :
  (decodable kvs /\ exists qp, revive (object kvs) = Ok qp /\ forall k, qp !! k = param kvs k) \/
  (~ decodable kvs /\ revive (object kvs) = Err URIError).
Proof.
  unfold revive. destruct (forallb _ _) eqn:E.
  - left. rewrite forallb_forall in E. split.
    + intros k v Hk. rewrite <- object_lookup in Hk. apply elem_of_map_to_list, list_elem_of_In, E in Hk.
      by apply bool_decide_eq_true in Hk.
    + eexists. split; [reflexivity|]. intros k. by rewrite map_lookup_imap, object_lookup.
  - right. split; [|done]. intros Hd. apply not_true_iff_false in E. apply E, forallb_forall.
    intros [k v] Hin%list_elem_of_In%elem_of_map_to_list. rewrite object_lookup in Hin.
    apply bool_decide_eq_true. by apply Hd.
Qed.

(** What the window that opened the page gets to know. *)
Definition answered (o : OAuth2) (kvs : list (js * js)) (o' : OAuth2) (evs : list event) : Prop :=
  let valid := bool_decide (param kvs (lit "state") = oState o) in
  let a := auth o in
  if codeFlow a && bool_decide (truthy (code a) = None) then
    exists first last_, evs = first ++ [last_] /\
      first = (if valid then [] else [ErrCb (authName a) (lit "warning") warningMessage]) /\
      match truthy (param kvs (lit "code")) with
      | Some c =>
          oState o' = None /\ redirectUrl o' = redirectUrl o /\ auth o' = mkAuth (authName a) (flow a) (Some c) /\
          last_ = Callback (auth o') None None (redirectUrl o)
      | None =>
          o' = o /\ exists message, last_ = ErrCb (authName a) (lit "error") message /\
            forall e, truthy (param kvs (lit "error")) = Some e -> exists more, message = lit "[" ++ e ++ lit "]: " ++ more
      end
  else
    o' = o /\ exists token, evs = [Callback a (Some token) (Some valid) (redirectUrl o)] /\
      forall k, token !! k = param kvs k.

Lemma answer_answered o qp kvs w :
  opener w = Some o -> (forall k, qp !! k = param kvs k) ->
  exists o' evs, opener (answer o qp w) = Some o' /\ calls (answer o qp w) = calls w ++ evs /\
    answered o kvs o' evs.
Proof.
  intros Ho Hqp. unfold answer, answered. rewrite !Hqp.
  assert ((match truthy (code (auth o)) with None => true | Some _ => false end) = bool_decide (truthy (code (auth o)) = None))
    as -> by (by destruct (truthy (code (auth o)))).
  destruct (codeFlow (auth o) && _).
  - set (valid := bool_decide (param kvs (lit "state") = oState o)).
    set (first := if valid then [] else [ErrCb (authName (auth o)) (lit "warning") warningMessage]).
    set (w1 := if valid then w else _).
    assert (calls w1 = calls w ++ first /\ opener w1 = Some o) as [Ec Eo].
    { unfold w1, first. destruct valid; [by rewrite app_nil_r|done]. }
    destruct (truthy (param kvs (lit "code"))) as [c|].
    + eexists _, (first ++ [_]). cbn [opener call withOpener calls]. rewrite Ec, <- app_assoc.
      split; [done|]. split; [done|]. exists first. eexists. done.
    + exists o. eexists (first ++ [_]). cbn [opener call calls]. rewrite Ec, Eo, <- app_assoc.
      split; [done|]. split; [done|]. exists first. eexists. split; [done|]. split; [done|]. split; [done|].
      eexists. split; [reflexivity|]. intros e He. unfold oauthErrorMsg. rewrite !Hqp, He. cbn [default]. by eexists.
  - exists o. eexists [_]. cbn [opener call calls]. split; [done|]. split; [done|]. split; [done|].
    exists qp. done.
Qed.

(** C40: the redirect page, on any query of a location without quotes, backslashes
    and control characters: the text it builds parses exactly when every part
    between ampersands has an equals sign, and then gives each name its last value,
    decoded.  If all decode, the window that opened the page is told once, and the
    page closes: in a code flow it gets the code, or an error with the server's
    error in it, after a warning when the state is not the one it sent, which does
    not keep the code from it; in other flows it gets all parameters and whether
    the state is right.  If a part has no equals sign, or a value cannot be decoded,
    the script throws, nobody is told, and the page stays open. *)
Theorem redirect_outcome w o ps :
  opener w = Some o -> query w = join 38 ps -> (query w = [] -> ps = []) -> Forall part_ok ps ->
  match mapM splitEq ps with
  | None => run w = Some (Err SyntaxError, w)
  | Some kvs =>
      (~ decodable kvs -> run w = Some (Err URIError, w)) /\
      (decodable kvs -> exists w' o' evs, run w = Some (Ok tt, w') /\ closed w' = true /\ opener w' = Some o' /\
        calls w' = calls w ++ evs /\ answered o kvs o' evs)
  end.
Proof.
  intros Ho Hq Hne Hps. rewrite Hq in Hne. unfold run. rewrite Ho, Hq, parseQuery_parts by done. cbn [mbind option_bind].
  destruct (mapM splitEq ps) as [kvs|]; [|done].
  destruct (revive_params kvs) as [(Hd & qp & -> & Hqp)|(Hd & ->)]; (split; [intros H|intros H]); try done.
  destruct (answer_answered o qp kvs w Ho Hqp) as (o' & evs & Eo & Ec & Ha).
  eexists _, o', evs. split; [reflexivity|]. done.
Qed.

(** A server that answers in the code flow with the wrong state. *)
Definition exWindow : Window :=
  mkWindow (Some (mkOAuth2 (Some (lit "s1")) (lit "http://localhost/") (mkAuth (lit "oauth") (lit "accessCode") None)))
    [] (lit "?code=a%2Fb=c&state=s2") [] false.

Lemma redirect_outcome_witness :
  exists w' o' evs, run exWindow = Some (Ok tt, w') /\ closed w' = true /\ opener w' = Some o' /\
    calls w' = evs /\ code (auth o') = Some (lit "a/b=c") /\ length evs = 2%nat.
Proof.
  destruct (redirect_outcome exWindow
    (mkOAuth2 (Some (lit "s1")) (lit "http://localhost/") (mkAuth (lit "oauth") (lit "accessCode") None))
    [lit "code=a%2Fb=c"; lit "state=s2"]) as [_ H].
  - reflexivity.
  - reflexivity.
  - intros E. discriminate E.
  - unfold part_ok, plain. repeat (apply Forall_cons_2 || apply Forall_nil_2); repeat split; vm_compute; intros E; discriminate E.
  - destruct H as (w' & o' & evs & Hr & Hc & Ho & He & Ha).
    { apply decodable_all. repeat (apply Forall_cons_2 || apply Forall_nil_2); vm_compute; by eexists. }
    exists w', o', evs. split; [exact Hr|]. split; [exact Hc|]. split; [exact Ho|]. split; [exact He|].
    destruct Ha as (first & last_ & -> & -> & _ & _ & -> & _). split; reflexivity.
Defined.
