(* ===== verification/GoIO.v ===== *)
(** * Go's [io] readers

    A reader over a file is the bytes that are left; reading is a computation
    that consumes them.  A codec is a computation that reads back a string of
    bytes whatever follows it, and reports the end of the file on every proper
    prefix; codecs compose. *)

From S2P Require Import Prelude KV Binary.
From Stdlib Require Import Strings.Byte.

Open Scope string_scope.
Open Scope Z_scope.
Open Scope list_scope.

Definition EOF : error := "EOF".
Definition ErrUnexpectedEOF : error := "unexpected EOF".
Definition errOverflow : error := "binary: varint overflows a 64-bit integer".

Abbreviation Rd := (SE bytes).

Definition ReadByte : Rd byte := fun r =>
  match r with
  | [] => Some (Err EOF, [])
  | b :: r => Some (Ok b, r)
  end.

(** [io.ReadFull] into a buffer of [n] bytes. *)
Definition ReadFull (n : Z) : Rd bytes := fun r =>
  if n <=? zlen r then Some (Ok (take (Z.to_nat n) r), drop (Z.to_nat n) r)
  else Some (Err (match r with [] => EOF | _ => ErrUnexpectedEOF end), []).

(** [io.CopyN(io.Discard, r, n)]: a negative number copies nothing. *)
Definition CopyN (n : Z) : Rd unit := fun r =>
  if n <=? zlen r then Some (Ok tt, drop (Z.to_nat n) r) else Some (Err EOF, []).

(** [make([]byte, n)] panics above the address space, on 64-bit machines of 48
    bits. *)
Definition makeBytes (n : Z) : Rd unit := if n <=? 2 ^ 48 then mret tt else orPanic None.

(** [binary.ReadUvarint]: at most ten bytes. *)
Fixpoint readUvarint_loop (n : nat) (x s : Z) : Rd Z := fun r =>
  match n with
  | O => Some (Err errOverflow, r)
  | S n' =>
      match r with
      | [] => Some (Err (if s =? 0 then EOF else ErrUnexpectedEOF), [])
      | b :: r =>
          let b := byte_to_Z b in
          if b <? 128 then
            if (n =? 1)%nat && (1 <? b) then Some (Err errOverflow, r)
            else Some (Ok (Z.lor x (u64 (Z.shiftl b s))), r)
          else readUvarint_loop n' (Z.lor x (u64 (Z.shiftl (Z.land b 127) s))) (s + 7) r
      end
  end.

Definition ReadUvarint : Rd Z := readUvarint_loop 10 0 0.

(** ** Codecs *)

Definition isEOF (e : error) : Prop := e = EOF \/ e = ErrUnexpectedEOF.

Record codec {A} (m : Rd A) (x : bytes) (a : A) : Prop := {
  codec_read rest : m (x ++ rest) = Some (Ok a, rest);
  codec_short y z : x = y ++ z -> z <> [] -> exists e r, m y = Some (Err e, r) /\ isEOF e
}.

Lemma codec_mret {A} (a : A) : codec (mret a) [] a.
Proof. split; [done|]. intros y z E Hz. symmetry in E. by apply app_eq_nil in E as [_ ->]. Qed.

Lemma codec_bind {A B} (m : Rd A) (k : A -> Rd B) x y a b :
  codec m x a -> codec (k a) y b -> codec (m ≫= k) (x ++ y) b.
Proof.
  intros [Hm Hms] [Hk Hks]. split.
  - intros rest. rewrite <- app_assoc. by rewrite (SE_bind_ok _ _ _ _ _ (Hm _)).
  - intros u z E Hz. destruct (decide (length u < length x)%nat) as [Hlt|Hge].
    + destruct (Hms u (drop (length u) x)) as (e & r & Eu & He).
      * rewrite <- (take_app_length' (u) z (length u) eq_refl) at 1. rewrite <- E, take_app_le by lia.
        by rewrite take_drop.
      * intros Ed. apply (f_equal length) in Ed. rewrite length_drop in Ed. cbn in Ed. lia.
      * exists e, r. split; [|done]. by apply SE_bind_err.
    + destruct (Hks (drop (length x) u) z) as (e & r & Eu & He); [|done|].
      * rewrite <- (drop_app_le u z) by lia. by rewrite <- E, drop_app_length.
      * exists e, r. split; [|done]. replace u with (x ++ drop (length x) u).
        -- by rewrite (SE_bind_ok _ _ _ _ _ (Hm _)).
        -- rewrite <- (take_drop (length x) u) at 2. f_equal.
           rewrite <- (take_app_le u z) by lia. by rewrite <- E, take_app_length.
Qed.

(** A step that reads nothing. *)
Lemma codec_pure {A B} (m : Rd A) (k : A -> Rd B) y a b :
  (forall r, m r = Some (Ok a, r)) -> codec (k a) y b -> codec (m ≫= k) y b.
Proof.
  intros Hm [Hk Hks]. split.
  - intros rest. by rewrite (SE_bind_ok _ _ _ _ _ (Hm _)).
  - intros u z E Hz. rewrite (SE_bind_ok _ _ _ _ _ (Hm _)). by eapply Hks.
Qed.

Lemma codec_then {A B} (m : Rd A) (k : A -> Rd B) x a b :
  codec m x a -> (forall r, k a r = Some (Ok b, r)) -> codec (m ≫= k) x b.
Proof.
  intros [Hm Hms] Hk. split.
  - intros rest. by rewrite (SE_bind_ok _ _ _ _ _ (Hm _)).
  - intros y z E Hz. destruct (Hms y z E Hz) as (e & r & Ey & He). exists e, r. split; [|done].
    by apply SE_bind_err.
Qed.

Lemma codec_byte b : codec ReadByte [b] b.
Proof.
  split; [done|]. intros [|c y] z E Hz; [exists EOF, []; split; [done|by left]|].
  injection E as _ E. symmetry in E. by apply app_eq_nil in E as [_ ->].
Qed.

Lemma short_length (x y z : bytes) : x = y ++ z -> z <> [] -> zlen y < zlen x.
Proof. intros -> Hz. rewrite length_app. destruct z; [done|]. cbn. lia. Qed.

Lemma codec_full x n : n = zlen x -> codec (ReadFull n) x x.
Proof.
  intros ->. unfold ReadFull. split.
  - intros rest. rewrite (proj2 (Z.leb_le _ _)) by (rewrite length_app; lia).
    by rewrite Nat2Z.id, take_app_length, drop_app_length.
  - intros y z E Hz. pose proof (short_length x y z E Hz). rewrite (proj2 (Z.leb_gt _ _)) by lia.
    eexists _, _. split; [reflexivity|]. destruct y; [by left|by right].
Qed.

Lemma codec_skip x n : n = zlen x -> codec (CopyN n) x tt.
Proof.
  intros ->. unfold CopyN. split.
  - intros rest. rewrite (proj2 (Z.leb_le _ _)) by (rewrite length_app; lia).
    by rewrite Nat2Z.id, drop_app_length.
  - intros y z E Hz. pose proof (short_length x y z E Hz). rewrite (proj2 (Z.leb_gt _ _)) by lia.
    eexists _, _. split; [reflexivity|by left].
Qed.

Lemma makeBytes_ok n r : n <= 2 ^ 48 -> makeBytes n r = Some (Ok tt, r).
Proof. intros Hn. unfold makeBytes. by rewrite (proj2 (Z.leb_le _ _)). Qed.

(** The two varint readers agree. *)
Lemma readUvarint_loop_spec n x i r :
  Z.of_nat n = 10 - i -> 0 <= i ->
  let '(v, k) := uvarint_loop r i x (7 * i) in
  0 < k -> i < k /\ readUvarint_loop n x (7 * i) r = Some (Ok v, drop (Z.to_nat (k - i)) r).
Proof.
  revert x i n. induction r as [|b r IH]; intros x i n Hn Hi; [cbn; lia|]. cbn [uvarint_loop].
  unfold MaxVarintLen64 in *. destruct (Z.eqb_spec i 10) as [|Hne]; [lia|].
  destruct n as [|n]; [lia|]. cbn [readUvarint_loop].
  replace (S n =? 1)%nat with (i =? 10 - 1)
    by (destruct (Z.eqb_spec i (10 - 1)), (Nat.eqb_spec (S n) 1); try done; lia).
  destruct (byte_to_Z b <? 128).
  - destruct (_ && _); [lia|]. intros _. split; [lia|]. by replace (i + 1 - i) with 1 by lia.
  - replace (7 * i + 7) with (7 * (i + 1)) by lia.
    specialize (IH (Z.lor x (u64 (Z.shiftl (Z.land (byte_to_Z b) 127) (7 * i)))) (i + 1) n ltac:(lia) ltac:(lia)).
    destruct (uvarint_loop _ _ _ _) as [v k]. intros Hk. destruct (IH Hk) as [Hlt ->]. split; [lia|].
    do 2 f_equal. replace (Z.to_nat (k - i)) with (S (Z.to_nat (k - (i + 1)))) by lia. done.
Qed.

(** A varint that is cut off. *)
Lemma readUvarint_loop_cut y n x i :
  Forall (fun b => 128 <= byte_to_Z b) y -> (length y < n)%nat -> 0 <= i ->
  exists e r, readUvarint_loop n x (7 * i) y = Some (Err e, r) /\ isEOF e.
Proof.
  revert n x i. induction y as [|b y IH]; intros n x i Hy Hn Hi; (destruct n as [|n]; [cbn in Hn; lia|]).
  - cbn [readUvarint_loop]. eexists _, _. split; [reflexivity|]. destruct (_ =? _); [by left|by right].
  - inversion Hy as [|? ? Hb Hy']; subst. cbn [readUvarint_loop]. rewrite (proj2 (Z.ltb_ge _ _)) by lia.
    replace (7 * i + 7) with (7 * (i + 1)) by lia. apply IH; [done|cbn in Hn; lia|lia].
Qed.

Lemma put_uvarint_cut n x y z :
  put_uvarint n x = y ++ z -> z <> [] -> Forall (fun b => 128 <= byte_to_Z b) y /\ (length y < n)%nat.
Proof.
  revert x y. induction n as [|n IH]; intros x y E Hz.
  { cbn in E. symmetry in E. by apply app_eq_nil in E as [_ ->]. }
  destruct y as [|b y]; [split; [constructor|cbn; lia]|]. cbn [put_uvarint] in E.
  destruct (128 <=? x).
  - injection E as <- E. destruct (IH _ _ E Hz) as [Hy Hl]. split; [|cbn; lia]. constructor; [|done].
    pose proof (varint_byte_range x). rewrite byte_to_of_Z, u8_id; lia.
  - injection E as _ E. symmetry in E. by apply app_eq_nil in E as [_ ->].
Qed.

Lemma codec_uvarint x : 0 <= x < 2 ^ 64 -> codec ReadUvarint (PutUvarint x) x.
Proof.
  intros Hx. split.
  - intros rest. pose proof (readUvarint_loop_spec 10 0 0 (PutUvarint x ++ rest) eq_refl ltac:(lia)) as Hs.
    change (7 * 0) with 0 in Hs. fold (Uvarint (PutUvarint x ++ rest)) in Hs.
    rewrite Uvarint_Put in Hs by done. destruct Hs as [_ Hs].
    { pose proof (PutUvarint_pos x). lia. }
    unfold ReadUvarint. rewrite Hs, Z.sub_0_r, Nat2Z.id. by rewrite drop_app_length.
  - intros y z E Hz. destruct (put_uvarint_cut 10 x y z E Hz) as [Hy Hl].
    exact (readUvarint_loop_cut y 10 0 0 Hy Hl ltac:(lia)).
Qed.
