(* ===== verification/ChangeSetFile.v ===== *)
(** * Change set files: [versiondb/client/changeset.go]

    Writing and reading the change sets of a store, version after version, and
    the iteration over a file, also over one whose end is missing. *)

From S2P Require Import Prelude KV Binary Tree GoIO.
From Stdlib Require Import Strings.Byte.

Open Scope string_scope.
Open Scope Z_scope.
Open Scope list_scope.

(** ** Encoding *)

(** [bits.Len64] *)
Definition Len64 (x : Z) : Z := if x =? 0 then 0 else Z.log2 x + 1.

Definition uvarintSize (num : Z) : Z :=
  let b := Len64 num in
  let q := b / 7 in
  let r := b mod 7 in
  if (0 <? r) || (q =? 0) then q + 1 else q.

Definition valueOf (pair : KVPair) : bytes := default [] (PairValue pair).

Definition encodedSizeOfKVPair (pair : KVPair) : Z :=
  let keyLen := zlen (PairKey pair) in
  let size := 1 + uvarintSize keyLen + keyLen in
  if Delete pair then size
  else size + uvarintSize (zlen (valueOf pair)) + zlen (valueOf pair).

(** The bytes that are written into the buffer, one field after the other. *)
Definition kvPairFields (pair : KVPair) : bytes :=
  (if Delete pair then x01 else x00) ::
  PutUvarint (zlen (PairKey pair)) ++ PairKey pair ++
  (if Delete pair then [] else PutUvarint (zlen (valueOf pair)) ++ valueOf pair).

(** The buffer has the computed size: a write beyond it panics, and what is not
    written stays zero. *)
Definition encodeKVPair (pair : KVPair) : option bytes :=
  let fields := kvPairFields pair in
  if zlen fields <=? encodedSizeOfKVPair pair
  then Some (fields ++ replicate (Z.to_nat (encodedSizeOfKVPair pair) - length fields) x00)
  else None.

Definition WriteChangeSet (version : Z) (cs : ChangeSet) : option bytes :=
  items ← mapM encodeKVPair cs;
  let size := foldl (fun n item => n + zlen item) 0 items in
  Some (PutUint64 (u64 version) ++ PutUint64 (u64 size) ++ concat items).

(** ** Decoding *)

Definition readKVPair : Rd KVPair :=
  deletion ← ReadByte;
  keyLen ← ReadUvarint;
  _ ← makeBytes keyLen;
  key ← ReadFull keyLen;
  if bool_decide (deletion = x01) then mret (mkPair true key None)
  else
    valueLen ← ReadUvarint;
    _ ← makeBytes valueLen;
    value ← ReadFull valueLen;
    mret (mkPair false key (Some value)).

Definition errBeyond : error := "read beyond payload size limit".

(** The loop over the pairs; every round reads at least two bytes, so the number
    of bytes left and one more is enough fuel. *)
Fixpoint readPairs (fuel : nat) (size offset : Z) (acc : ChangeSet) : Rd ChangeSet :=
  if offset <? size then
    match fuel with
    | O => orPanic None
    | S fuel =>
        pair ← readKVPair;
        readPairs fuel size (offset + encodedSizeOfKVPair pair) (acc ++ [pair])
    end
  else if negb (offset =? size) then throw errBeyond
  else mret acc.

Definition ReadChangeSet (parseChangeset : bool) : Rd (Z * Z * ChangeSet) :=
  header ← ReadFull 16;
  let version := le_val (take 8 header) in
  let size := i64 (le_val (drop 8 header)) in
  if size =? 0 then mret (i64 version, 16, [])
  else
    cs ← (if parseChangeset then
            fuel ← gets (fun r => length r);
            readPairs (S fuel) size 0 []
          else _ ← CopyN size; mret []);
    mret (i64 version, size + 16, cs).

(** ** Iteration *)

Section Iterate.
Context {S : Type} (parse : bool) (fn : S -> Z -> ChangeSet -> S * result bool).

(** The state of the callback, the offset after the last complete change set, and
    the error; every round reads at least 16 bytes. *)
Fixpoint iterate (fuel : nat) (r : bytes) (s : S) (lastCompleteOffset : Z)
    : option (S * Z * option error) :=
  match fuel with
  | O => None
  | Datatypes.S fuel =>
      '(x, r) ← ReadChangeSet parse r;
      match x with
      | Err e => Some (s, lastCompleteOffset, Some e)
      | Ok (version, offset, changeSet) =>
          let '(s, x) := fn s version changeSet in
          match x with
          | Err e => Some (s, lastCompleteOffset, Some e)
          | Ok cont =>
              if (cont : bool) then iterate fuel r s (lastCompleteOffset + offset)
              else Some (s, lastCompleteOffset + offset, None)
          end
      end
  end.

(** The end of the file is not an error. *)
Definition iterateFile (r : bytes) (s : S) : option (S * Z * option error) :=
  '(s, offset, err) ← iterate (Datatypes.S (length r)) r s 0;
  Some (s, offset, if bool_decide (err = Some EOF) then None else err).
End Iterate.

Definition IterateChangeSets {S} (fn : S -> Z -> ChangeSet -> S * result bool) :=
  iterateFile true fn.

Definition IterateVersions {S} (fn : S -> Z -> S * result bool) :=
  iterateFile false (fun s version _ => fn s version).

(** ** Lemmas *)

Lemma uvarintSize_small x : 0 <= x < 128 -> uvarintSize x = 1.
Proof.
  intros Hx. unfold uvarintSize, Len64. destruct (Z.eqb_spec x 0) as [->|Hne]; [done|].
  pose proof (Z.log2_nonneg x). assert (Z.log2 x < 7) by (apply Z.log2_lt_pow2; lia).
  destruct (decide (Z.log2 x = 6)) as [->|]; [done|].
  rewrite (Z.div_small (Z.log2 x + 1)), (Z.mod_small (Z.log2 x + 1)) by lia.
  by rewrite (proj2 (Z.ltb_lt _ _)) by lia.
Qed.

Lemma uvarintSize_big x : 128 <= x -> uvarintSize x = 1 + uvarintSize (x / 128).
Proof.
  intros Hx. unfold uvarintSize, Len64. rewrite (proj2 (Z.eqb_neq x 0)) by lia.
  assert (1 <= x / 128) as Hd by (apply Z.div_le_lower_bound; lia).
  rewrite (proj2 (Z.eqb_neq (x / 128) 0)) by lia.
  assert (7 <= Z.log2 x) as Hl by (apply Z.log2_le_pow2; lia).
  change 128 with (2 ^ 7). rewrite <- Z.shiftr_div_pow2, Z.log2_shiftr by lia.
  rewrite Z.max_r by lia. set (b := Z.log2 x) in *.
  replace (b + 1) with (b - 7 + 1 + 1 * 7) by lia. rewrite Z.div_add, Z.mod_add by lia.
  pose proof (Z.div_pos (b - 7 + 1) 7 ltac:(lia) ltac:(lia)).
  pose proof (Z.div_mod (b - 7 + 1) 7 ltac:(lia)). pose proof (Z.mod_pos_bound (b - 7 + 1) 7 ltac:(lia)).
  destruct (Z.ltb_spec 0 ((b - 7 + 1) mod 7)); cbn [orb]; [lia|].
  rewrite (proj2 (Z.eqb_neq ((b - 7 + 1) / 7) 0)) by lia.
  rewrite (proj2 (Z.eqb_neq ((b - 7 + 1) / 7 + 1) 0)) by lia. lia.
Qed.

Lemma length_put_uvarint n x :
  (1 <= n)%nat -> 0 <= x < 2 ^ (7 * Z.of_nat n) -> zlen (put_uvarint n x) = uvarintSize x.
Proof.
  revert x. induction n as [|n IH]; intros x Hn Hx; [lia|]. cbn [put_uvarint].
  destruct (Z.leb_spec 128 x) as [Hge|Hlt]; [|by rewrite uvarintSize_small by lia].
  rewrite uvarintSize_big by done. cbn [length]. rewrite Z.shiftr_div_pow2 by lia. change (2 ^ 7) with 128.
  destruct n as [|n]; [cbn in Hx; lia|]. rewrite <- (IH (x / 128)); [lia|lia|].
  split; [apply Z.div_pos; lia|]. apply Z.div_lt_upper_bound; [lia|].
  change 128 with (2 ^ 7). rewrite <- Z.pow_add_r by lia.
  replace (7 + 7 * Z.of_nat (S n)) with (7 * Z.of_nat (S (S n))) by lia. lia.
Qed.

Lemma length_PutUvarint x : 0 <= x < 2 ^ 64 -> zlen (PutUvarint x) = uvarintSize x.
Proof.
  intros Hx. with_strategy transparent [PutUvarint] unfold PutUvarint.
  apply length_put_uvarint; [lia|]. change (2 ^ (7 * Z.of_nat 10)) with (64 * 2 ^ 64). lia.
Qed.

(** ** Reading consumes *)

(** A successful read takes at least [k] bytes. *)
Definition takes {A} (k : nat) (m : Rd A) : Prop :=
  forall r a r', m r = Some (Ok a, r') -> (length r' + k <= length r)%nat.

Lemma takes_bind {A B} k j (m : Rd A) (f : A -> Rd B) :
  takes k m -> (forall a, takes j (f a)) -> takes (k + j) (m ≫= f).
Proof.
  intros Hm Hf r b r' E. apply SE_bind_inv in E. destruct (m r) as [[[a|e] r1]|] eqn:Em; [|done..].
  apply Hm in Em. apply Hf in E. lia.
Qed.

Lemma takes_0 {A} k (m : Rd A) : takes k m -> takes 0 m.
Proof. intros Hm r a r' E. apply Hm in E. lia. Qed.

Lemma takes_mret {A} (a : A) : takes 0 (mret a).
Proof. intros r x r' [= _ <-]. lia. Qed.
Lemma takes_byte : takes 1 ReadByte.
Proof. intros [|b r] x r' [= _ <-]. cbn. lia. Qed.
Lemma takes_full n : takes (Z.to_nat n) (ReadFull n).
Proof.
  unfold ReadFull. intros r x r' E. destruct (Z.leb_spec n (zlen r)); [|done]. injection E as _ <-.
  rewrite length_drop. lia.
Qed.
Lemma takes_make n : takes 0 (makeBytes n).
Proof. unfold makeBytes. destruct (_ <=? _); [apply takes_mret|done]. Qed.
Lemma takes_skip n : takes 0 (CopyN n).
Proof.
  unfold CopyN. intros r x r' E. destruct (Z.leb_spec n (zlen r)); [|done]. injection E as _ <-.
  rewrite length_drop. lia.
Qed.
Lemma takes_uvarint_loop n x k : takes 0 (readUvarint_loop n x k).
Proof.
  revert x k. induction n as [|n IH]; intros x k r a r' E; [done|].
  cbn [readUvarint_loop] in E. destruct r as [|b r]; [done|]. destruct (_ <? _).
  - destruct (_ && _); [done|]. injection E as _ <-. cbn. lia.
  - apply IH in E. cbn. lia.
Qed.
Lemma takes_uvarint : takes 0 ReadUvarint.
Proof. apply takes_uvarint_loop. Qed.

Create HintDb takes.
#[export] Hint Resolve takes_mret takes_byte takes_make takes_skip takes_uvarint : takes.

Lemma takes_pair : takes 1 readKVPair.
Proof.
  unfold readKVPair. apply (takes_bind 1 0); [auto with takes|]. intros deletion.
  apply (takes_bind 0 0); [auto with takes|]. intros n. apply (takes_bind 0 0); [auto with takes|]. intros _.
  apply (takes_bind 0 0); [eapply takes_0, takes_full|]. intros key. destruct (bool_decide _); [auto with takes|].
  apply (takes_bind 0 0); [auto with takes|]. intros n'. apply (takes_bind 0 0); [auto with takes|]. intros _.
  apply (takes_bind 0 0); [eapply takes_0, takes_full|auto with takes].
Qed.

(** More fuel than bytes changes nothing. *)
Lemma readPairs_fuel fuel fuel' size offset acc r :
  (length r < fuel)%nat -> (length r < fuel')%nat ->
  readPairs fuel size offset acc r = readPairs fuel' size offset acc r.
Proof.
  revert fuel' offset acc r. induction fuel as [|fuel IH]; intros fuel' offset acc r H1 H2; [lia|].
  destruct fuel' as [|fuel']; [lia|]. cbn [readPairs]. destruct (offset <? size); [|done].
  unfold mbind, SE_bind. destruct (readKVPair r) as [[[pair|e] r1]|] eqn:E; [|done..].
  apply takes_pair in E. apply IH; lia.
Qed.

Lemma takes_pairs fuel size offset acc : takes 0 (readPairs fuel size offset acc).
Proof.
  revert offset acc. induction fuel as [|fuel IH]; intros offset acc; cbn [readPairs].
  all: destruct (offset <? size); [|destruct (negb _); [done|auto with takes]]. 1: done.
  eapply takes_0, (takes_bind 1 0); [apply takes_pair|intros pair; apply IH].
Qed.

Lemma takes_set parse : takes 16 (ReadChangeSet parse).
Proof.
  unfold ReadChangeSet. apply (takes_bind 16 0); [apply (takes_full 16)|]. intros h.
  destruct (_ =? _); [auto with takes|]. apply (takes_bind 0 0); [|auto with takes].
  destruct parse; apply (takes_bind 0 0); auto using takes_pairs with takes.
  intros r x r' [= _ <-]. lia.
Qed.

Lemma iterate_fuel {S} parse (fn : S -> Z -> ChangeSet -> S * result bool) fuel fuel' r s last :
  (length r < fuel)%nat -> (length r < fuel')%nat ->
  iterate parse fn fuel r s last = iterate parse fn fuel' r s last.
Proof.
  revert fuel' r s last. induction fuel as [|fuel IH]; intros fuel' r s last H1 H2; [lia|].
  destruct fuel' as [|fuel']; [lia|]. cbn [iterate].
  destruct (ReadChangeSet parse r) as [[[[[v off] cs]|e] r1]|] eqn:E; [|done..]. cbn [mbind option_bind].
  apply takes_set in E. destruct (fn s v cs) as [s1 [[]|e]]; [|done..]. apply IH; lia.
Qed.

(** ** Round trips *)

(** What reading gives back: a nil value is written like an empty one. *)
Definition normalPair (p : KVPair) : KVPair :=
  mkPair (Delete p) (PairKey p) (if Delete p then None else Some (valueOf p)).

Definition pair_ok (p : KVPair) : Prop := zlen (PairKey p) <= 2 ^ 48 /\ zlen (valueOf p) <= 2 ^ 48.

Lemma length_fields p : pair_ok p -> zlen (kvPairFields p) = encodedSizeOfKVPair p.
Proof.
  intros [Hk Hv]. unfold kvPairFields, encodedSizeOfKVPair. cbn [length].
  pose proof (length_PutUvarint (zlen (PairKey p)) ltac:(lia)).
  pose proof (length_PutUvarint (zlen (valueOf p)) ltac:(lia)).
  destruct (Delete p); rewrite !length_app; cbn [length]; lia.
Qed.

Lemma encodeKVPair_fields p : pair_ok p -> encodeKVPair p = Some (kvPairFields p).
Proof.
  intros Hp. unfold encodeKVPair. rewrite <- length_fields by done. rewrite Z.leb_refl, Nat2Z.id.
  by rewrite Nat.sub_diag, app_nil_r.
Qed.

Lemma codec_pair p : pair_ok p -> codec readKVPair (kvPairFields p) (normalPair p).
Proof.
  intros [Hk Hv]. unfold readKVPair, kvPairFields, normalPair.
  apply (codec_bind _ _ [_] _ (if Delete p then x01 else x00)); [destruct (Delete p); apply codec_byte|].
  apply (codec_bind _ _ _ _ (zlen (PairKey p))); [apply codec_uvarint; lia|].
  apply (codec_pure _ _ _ tt); [intros r; by apply makeBytes_ok|].
  apply (codec_bind _ _ _ _ (PairKey p)); [by apply codec_full|].
  destruct (Delete p); [apply codec_mret|].
  apply (codec_bind _ _ _ _ (zlen (valueOf p))); [apply codec_uvarint; lia|].
  apply (codec_pure _ _ _ tt); [intros r; by apply makeBytes_ok|].
  by apply (codec_then _ _ _ (valueOf p)); [apply codec_full|].
Qed.

Definition payload (cs : ChangeSet) : bytes := concat (kvPairFields <$> cs).

Definition set_ok (x : Z * ChangeSet) : Prop :=
  - 2 ^ 63 <= x.1 < 2 ^ 63 /\ Forall pair_ok x.2 /\ zlen (payload x.2) < 2 ^ 63.

Definition setBytes (x : Z * ChangeSet) : bytes :=
  PutUint64 (u64 x.1) ++ PutUint64 (zlen (payload x.2)) ++ payload x.2.

Lemma sum_lengths (l : list bytes) n : foldl (fun n item => n + zlen item) n l = n + zlen (concat l).
Proof. revert n. induction l as [|x l IH]; intros n; cbn [foldl concat]; [cbn; lia|]. rewrite IH, length_app. lia. Qed.

Lemma WriteChangeSet_bytes v cs : set_ok (v, cs) -> WriteChangeSet v cs = Some (setBytes (v, cs)).
Proof.
  intros (Hv & Hp & Hs). unfold WriteChangeSet.
  replace (mapM encodeKVPair cs) with (Some (kvPairFields <$> cs)).
  - cbn [mbind option_bind]. rewrite sum_lengths. fold (payload cs). unfold setBytes. cbn [fst snd] in *.
    by rewrite (u64_id (0 + _)) by lia.
  - symmetry. apply mapM_Some. apply Forall2_fmap_r, Forall_Forall2_diag.
    eapply Forall_impl; [exact Hp|]. apply encodeKVPair_fields.
Qed.

Lemma codec_pairs fuel offset acc cs :
  (length cs <= fuel)%nat -> Forall pair_ok cs ->
  codec (readPairs fuel (offset + zlen (payload cs)) offset acc) (payload cs) (acc ++ (normalPair <$> cs)).
Proof.
  revert fuel offset acc. induction cs as [|p cs IH]; intros fuel offset acc Hf Hp.
  - cbn [payload fmap list_fmap concat length]. rewrite Z.add_0_r, app_nil_r.
    destruct fuel; cbn [readPairs]; rewrite Z.ltb_irrefl, Z.eqb_refl; apply codec_mret.
  - inversion Hp as [|? ? Hp0 Hp']; subst. destruct fuel as [|fuel]; [cbn in Hf; lia|].
    change (payload (p :: cs)) with (kvPairFields p ++ payload cs). cbn [readPairs fmap list_fmap].
    rewrite (proj2 (Z.ltb_lt _ _)) by (rewrite length_app; unfold kvPairFields; cbn [length]; lia).
    apply (codec_bind _ _ _ _ (normalPair p)); [by apply codec_pair|].
    replace (encodedSizeOfKVPair (normalPair p)) with (zlen (kvPairFields p)).
    + rewrite length_app, Nat2Z.inj_add, Z.add_assoc.
      replace (acc ++ normalPair p :: (normalPair <$> cs)) with ((acc ++ [normalPair p]) ++ (normalPair <$> cs))
        by (by rewrite <- app_assoc).
      apply IH; [cbn in Hf; lia|done].
    + rewrite length_fields by done. unfold encodedSizeOfKVPair, normalPair, valueOf.
      cbn [Delete PairKey PairValue]. by destruct (Delete p).
Qed.

(** The fuel is the number of bytes left. *)
Lemma codec_payload cs :
  Forall pair_ok cs ->
  codec (fuel ← gets (fun r => length r); readPairs (S fuel) (zlen (payload cs)) 0 []) (payload cs)
    (normalPair <$> cs).
Proof.
  intros Hp. pose proof (fun n => codec_pairs (length cs + n) 0 [] cs ltac:(lia) Hp) as Hc.
  cbn [app] in Hc. rewrite Z.add_0_l in Hc. split.
  - intros rest. rewrite SE_bind_gets.
    rewrite (readPairs_fuel _ (length cs + S (length (payload cs ++ rest)))) by lia. apply (Hc _).
  - intros y z E Hz. rewrite SE_bind_gets. rewrite (readPairs_fuel _ (length cs + S (length y))) by lia.
    by eapply (Hc _).
Qed.

Lemma i64_u64 v : - 2 ^ 63 <= v < 2 ^ 63 -> i64 (u64 v) = v.
Proof.
  intros Hv. unfold i64, u64. rewrite Zplus_mod_idemp_l, Z.mod_small by lia. lia.
Qed.

Lemma le_val_u64 v : le_val (PutUint64 (u64 v)) = u64 v.
Proof. unfold PutUint64. rewrite le_val_bytes. unfold u64. by rewrite Zmod_mod. Qed.

Lemma codec_set parse x :
  set_ok x ->
  codec (ReadChangeSet parse) (setBytes x) (x.1, zlen (setBytes x), if parse then normalPair <$> x.2 else []).
Proof.
  destruct x as [v cs]. intros (Hv & Hp & Hs). cbn [fst snd] in *. unfold ReadChangeSet, setBytes.
  cbn [fst snd]. rewrite app_assoc. set (h := PutUint64 _ ++ PutUint64 _).
  assert (length (PutUint64 (u64 v)) = 8%nat) as L8 by apply length_le_bytes.
  assert (length h = 16%nat) as Lh by (unfold h; rewrite length_app, L8; done).
  apply (codec_bind _ _ _ _ h); [apply codec_full; lia|].
  replace (take 8 h) with (PutUint64 (u64 v)) by (unfold h; by rewrite take_app_length').
  replace (drop 8 h) with (PutUint64 (zlen (payload cs))) by (unfold h; by rewrite drop_app_length').
  assert (i64 (le_val (PutUint64 (zlen (payload cs)))) = zlen (payload cs)) as ->.
  { pose proof (le_val_u64 (zlen (payload cs))) as E. rewrite u64_id in E by lia. rewrite E.
    rewrite <- (u64_id (zlen (payload cs))) by lia. rewrite i64_u64, u64_id by lia. done. }
  rewrite le_val_u64, i64_u64 by done.
  rewrite length_app, Lh. destruct (Z.eqb_spec (zlen (payload cs)) 0) as [E0|Hne].
  - destruct cs as [|p cs]; [|cbn in E0; lia]. destruct parse; apply codec_mret.
  - replace (Z.of_nat (16 + length (payload cs))) with (zlen (payload cs) + 16) by lia.
    eapply codec_then; [|done]. destruct parse; [by apply codec_payload|].
    by eapply codec_then; [apply codec_skip|].
Qed.

(** A callback that always goes on. *)
Lemma iterate_sets {S} parse (f : S -> Z -> ChangeSet -> S) fuel l y s last e r :
  Forall set_ok l -> (length l < fuel)%nat -> ReadChangeSet parse y = Some (Err e, r) ->
    iterate parse (fun s v cs => (f s v cs, Ok true)) fuel (concat (setBytes <$> l) ++ y) s last =
    Some (foldl (fun s x => f s x.1 (if parse then normalPair <$> x.2 else [])) s l,
          last + zlen (concat (setBytes <$> l)), Some e).
Proof.
  revert fuel s last. induction l as [|x l IH]; intros fuel s last Hl Hf Hy; (destruct fuel as [|fuel]; [cbn in Hf; lia|]).
  - cbn [fmap list_fmap concat app iterate foldl length]. rewrite Hy. cbn [mbind option_bind]. by rewrite Z.add_0_r.
  - inversion Hl as [|? ? Hx Hl']; subst. cbn [fmap list_fmap concat iterate foldl]. rewrite <- app_assoc.
    rewrite (codec_read _ _ _ (codec_set parse x Hx)). cbn [mbind option_bind].
    rewrite IH by (done || cbn in Hf; lia). do 3 f_equal. rewrite length_app. lia.
Qed.

Lemma iterateFile_sets {S} parse (f : S -> Z -> ChangeSet -> S) l y z x s :
  Forall set_ok l -> set_ok x -> setBytes x = y ++ z -> z <> [] ->
  exists err, (err = None \/ err = Some ErrUnexpectedEOF) /\ (y = [] -> err = None) /\
    iterateFile parse (fun s v cs => (f s v cs, Ok true)) (concat (setBytes <$> l) ++ y) s =
    Some (foldl (fun s x => f s x.1 (if parse then normalPair <$> x.2 else [])) s l,
          zlen (concat (setBytes <$> l)), err).
Proof.
  intros Hl Hx E Hz. destruct (codec_short _ _ _ (codec_set parse x Hx) y z E Hz) as (e & r & Hy & He).
  unfold iterateFile. set (file := concat _ ++ y).
  rewrite (iterate_fuel parse _ _ (Datatypes.S (length file + length l))) by lia.
  unfold file at 2. rewrite (iterate_sets parse f _ l y s 0 e r) by (done || lia). cbn [mbind option_bind].
  exists (if bool_decide (Some e = Some EOF) then None else Some e). split_and!; [| |done].
  - destruct He as [->| ->]; [by left|by right].
  - intros ->. by injection Hy as <- <-.
Qed.

(** a file of change sets reads back as what was written, version by version,
    and where its end is missing, exactly the complete change sets are delivered:
    the offset returned is the end of the last one, so that writing can go on
    there, and a missing end is no error or an unexpected end of file.  Skipping
    the contents delivers the same versions and the same offset. *)
Theorem changeset_file_roundtrip {S} (f : S -> Z -> ChangeSet -> S) (g : S -> Z -> S) l v cs y z s :
  Forall set_ok l -> set_ok (v, cs) -> WriteChangeSet v cs = Some (y ++ z) -> z <> [] ->
  exists bs err err',
    mapM (fun x => WriteChangeSet x.1 x.2) l = Some bs /\
    IterateChangeSets (fun s v cs => (f s v cs, Ok true)) (concat bs ++ y) s =
      Some (foldl (fun s x => f s x.1 (normalPair <$> x.2)) s l, zlen (concat bs), err) /\
    IterateVersions (fun s v => (g s v, Ok true)) (concat bs ++ y) s =
      Some (foldl (fun s x => g s x.1) s l, zlen (concat bs), err') /\
    (err = None \/ err = Some ErrUnexpectedEOF) /\ (y = [] -> err = None /\ err' = None).
Proof.
  intros Hl Hx E Hz. rewrite (WriteChangeSet_bytes v cs Hx) in E. injection E as E.
  destruct (iterateFile_sets true f l y z _ s Hl Hx E Hz) as (err & Herr & Hnil & Ei).
  destruct (iterateFile_sets false (fun s v _ => g s v) l y z _ s Hl Hx E Hz) as (err' & _ & Hnil' & Ei').
  exists (setBytes <$> l), err, err'. split_and!; [|exact Ei|exact Ei'|done|auto].
  apply mapM_Some, Forall2_fmap_r, Forall_Forall2_diag. eapply Forall_impl; [exact Hl|].
  intros [v' cs']. apply WriteChangeSet_bytes.
Qed.

Definition exChangeSet : ChangeSet := [mkPair false [x01] (Some [x0a]); mkPair true [x02] None].

Definition exCollect (s : list (Z * ChangeSet)) (v : Z) (cs : ChangeSet) := s ++ [(v, cs)].

Lemma changeset_file_roundtrip_witness :
  exists bs err err',
    mapM (fun x => WriteChangeSet x.1 x.2) [(1, exChangeSet)] = Some bs /\
    IterateChangeSets (fun s v cs => (exCollect s v cs, Ok true)) (concat bs ++ []) [] =
      Some ([(1, normalPair <$> exChangeSet)], zlen (concat bs), err) /\
    IterateVersions (fun s v => (exCollect s v [], Ok true)) (concat bs ++ []) [] =
      Some ([(1, [])], zlen (concat bs), err') /\
    (err = None \/ err = Some ErrUnexpectedEOF) /\ (@nil byte = [] -> err = None /\ err' = None).
Proof.
  apply (changeset_file_roundtrip exCollect (fun s v => exCollect s v [])
    [(1, exChangeSet)] 2 [] [] (setBytes (2, [])) []).
  - constructor; [|constructor]. split; [cbn; lia|]. split; [|vm_compute; reflexivity].
    constructor; [|constructor; [|constructor]]; split; vm_compute; congruence.
  - split; [cbn; lia|]. split; [constructor|vm_compute; reflexivity].
  - reflexivity.
  - discriminate.
Defined.

(** reading terminates on every input, well-formed or not: each round of the
    two loops consumes bytes, so that any amount of fuel above the number of bytes
    gives the same result. *)
Theorem changeset_reading_terminates {S} parse (fn : S -> Z -> ChangeSet -> S * result bool) fuel size r s :
  (length r < fuel)%nat ->
  iterate parse fn fuel r s 0 = iterate parse fn (Datatypes.S (length r)) r s 0 /\
  readPairs fuel size 0 [] r = readPairs (Datatypes.S (length r)) size 0 [] r /\
  (forall x r', ReadChangeSet parse r = Some (Ok x, r') -> (length r' + 16 <= length r)%nat).
Proof.
  intros Hf. split; [apply iterate_fuel; lia|]. split; [apply readPairs_fuel; lia|].
  intros x r'. apply takes_set.
Qed.

Lemma changeset_reading_terminates_witness :
  let fn := fun (s : unit) (_ : Z) (_ : ChangeSet) => (s, Ok true) in
  iterate true fn 9 [x00; x01] tt 0 = iterate true fn 3 [x00; x01] tt 0 /\
  readPairs 9 5 0 [] [x00; x01] = readPairs 3 5 0 [] [x00; x01] /\
  (forall x r', ReadChangeSet true [x00; x01] = Some (Ok x, r') -> (length r' + 16 <= 2)%nat).
Proof. intros fn. apply (changeset_reading_terminates true fn 9 5 [x00; x01] tt). cbn. lia. Defined.
