(* ===== verification/ExtSort.v ===== *)
(** * External sorting: [versiondb/extsort]

    The items are cut into chunks, each is sorted and saved to a file by its own
    goroutine, and the files are merged with a heap.  [sort.Slice] and the
    snappy package are parameters with what they document: the first returns a
    sorted permutation, which one among equal items is open, the second
    reads back what it wrote.  The goroutines share only the list of finished
    files, so that their interleaving is the order of that list. *)

From S2P Require Import Prelude KV Binary GoIO.
From Stdlib Require Import Strings.Byte.

Open Scope string_scope.
Open Scope Z_scope.
Open Scope list_scope.

(** ** Delta encoding *)

Fixpoint diffOffset (a b : bytes) : nat :=
  match a, b with
  | x :: a, y :: b => if bool_decide (x = y) then S (diffOffset a b) else O
  | _, _ => O
  end.

(** [DeltaEncoder.Write] for the last key. *)
Definition deltaWrite (last key : bytes) : bytes :=
  let shared := diffOffset last key in
  let nonShared := (length key - shared)%nat in
  PutUvarint (Z.of_nat shared) ++ PutUvarint (Z.of_nat nonShared) ++ drop shared key.

(** [DeltaDecoder.Read]: the slices panic when the shared length is not within
    the item or within the last one. *)
Definition deltaRead (last : bytes) : Rd bytes :=
  shared ← ReadUvarint;
  nonShared ← ReadUvarint;
  let size := u64 (shared + nonShared) in
  _ ← makeBytes size;
  if (shared <=? size) && (shared <=? zlen last) then
    tail ← ReadFull (size - shared);
    mret (take (Z.to_nat shared) last ++ tail)
  else orPanic None.

(** ** Chunks *)

Record Options := mkOptions { DeltaEncoding : bool; SnappyCompression : bool; MaxChunkSize : Z }.

Fixpoint encodeDelta (last : bytes) (items : list bytes) : bytes :=
  match items with
  | [] => []
  | item :: items => deltaWrite last item ++ encodeDelta item items
  end.

Definition encodePlain (items : list bytes) : bytes :=
  items ≫= fun item => PutUvarint (zlen item) ++ item.

(** A stream over a chunk file: the bytes left and the decoder's last item. *)
Record stream := mkStream { rest : bytes; last : bytes }.

Definition deltaNext : SE stream (option bytes) := fun st =>
  '(r, rest') ← deltaRead (last st) (rest st);
  Some match r with
       | Ok item => (Ok (Some item), mkStream rest' item)
       | Err e => ((if bool_decide (e = EOF) then Ok None else Err e), mkStream rest' (last st))
       end.

(** The size that [ReadUvarint] returns with an error at the first byte is
    zero. *)
Definition plainNext : SE stream (option bytes) := fun st =>
  '(r, rest') ← ReadUvarint (rest st);
  match r with
  | Err e => Some ((if bool_decide (e = EOF) then Ok None else Err e), mkStream rest' (last st))
  | Ok size =>
      '(r, rest') ← (_ ← makeBytes size; ReadFull size) rest';
      Some match r with
           | Ok item => (Ok (Some item), mkStream rest' (last st))
           | Err e => (Err e, mkStream rest' (last st))
           end
  end.

(** ** The heap of [container/heap] *)

Section Merge.
Context {St : Type} (next : SE St (option bytes)) (less : bytes -> bytes -> bool).

Record heapEntry := mkHeapEntry { source : St; value : bytes }.

Implicit Types h : list heapEntry.

(** [Less]; an index out of range panics. *)
Definition Less h (i j : nat) : option bool :=
  x ← h !! i; y ← h !! j; Some (less (value x) (value y)).

Definition Swap h (i j : nat) : option (list heapEntry) :=
  x ← h !! i; y ← h !! j; Some (<[j := x]> (<[i := y]> h)).

(** The smaller of the two children, the first when they are equal or when it
    is the only one. *)
Definition pickChild h (j1 n : nat) : option nat :=
  if (j1 + 1 <? n)%nat then b ← Less h (j1 + 1) j1; Some (if (b : bool) then (j1 + 1)%nat else j1)
  else Some j1.

(** The loop of [down]; the index at least doubles, so that [n] rounds are
    enough. *)
Fixpoint down (fuel : nat) h (i n : nat) : option (list heapEntry) :=
  match fuel with
  | O => None
  | S fuel =>
      let j1 := (2 * i + 1)%nat in
      if (n <=? j1)%nat then Some h
      else
        j ← pickChild h j1 n;
        b ← Less h j i;
        if negb b then Some h
        else h ← Swap h i j; down fuel h j n
  end.

(** [Init]: down from the last parent to the root. *)
Fixpoint initFrom (k : nat) h : option (list heapEntry) :=
  match k with
  | O => Some h
  | S k => h ← down (S (length h)) h k (length h); initFrom k h
  end.

Definition Init h : option (list heapEntry) := initFrom (length h / 2) h.

(** [Fix] and [Remove] at the root, where [up] does nothing. *)
Definition Fix0 h : option (list heapEntry) := down (S (length h)) h 0 (length h).

Definition Remove0 h : option (list heapEntry) :=
  match length h with
  | O => None
  | S n =>
      h ← (if (n =? 0)%nat then Some h else h ← Swap h 0 n; down (S n) h 0 n);
      Some (take n h)
  end.

(** ** The merge *)

Fixpoint newEntries (streams : list St) : option (result (list heapEntry)) :=
  match streams with
  | [] => Some (Ok [])
  | s :: streams =>
      '(r, s) ← next s;
      match r with
      | Err e => Some (Err e)
      | Ok v =>
          es ← newEntries streams;
          Some match es, v with
               | Err e, _ => Err e
               | Ok es, None => Ok es
               | Ok es, Some v => Ok (mkHeapEntry s v :: es)
               end
      end
  end.

Definition NewMultiWayMerge (streams : list St) : option (result (list heapEntry)) :=
  r ← newEntries streams;
  match r with
  | Err e => Some (Err e)
  | Ok es => h ← Init es; Some (Ok h)
  end.

(** [Next]: the root's value; the root moves on, or leaves the heap. *)
Definition Next : SE (list heapEntry) (option bytes) := fun h =>
  match h with
  | [] => Some (Ok None, [])
  | e :: h' =>
      '(r, s) ← next (source e);
      match r with
      | Err err => Some (Err err, mkHeapEntry s [] :: h')
      | Ok None => h ← Remove0 (mkHeapEntry s [] :: h'); Some (Ok (Some (value e)), h)
      | Ok (Some v) => h ← Fix0 (mkHeapEntry s v :: h'); Some (Ok (Some (value e)), h)
      end
  end.

(** The reading loop of [Spawn]: until [nil]. *)
Fixpoint drain (fuel : nat) h : option (result (list bytes)) :=
  match fuel with
  | O => None
  | S fuel =>
      '(r, h) ← Next h;
      match r with
      | Err e => Some (Err e)
      | Ok None => Some (Ok [])
      | Ok (Some v) => l ← drain fuel h; Some (v' ← l; Ok (v :: v'))
      end
  end.
End Merge.

(** ** The sorter *)

Section Sorter.
Context (opts : Options) (less : bytes -> bytes -> bool).
Context (sortSlice : list bytes -> list bytes) (compress decompress : bytes -> bytes).

(** [rotated] holds the chunks handed to goroutines. *)
Record ExtSorter := mkSorter {
  currentChunk : list bytes;
  currentChunkSize : Z;
  rotated : list (list bytes)
}.

Definition newSorter : ExtSorter := mkSorter [] 0 [].

Definition sortChunkAndRotate (s : ExtSorter) : ExtSorter :=
  mkSorter [] 0 (rotated s ++ [currentChunk s]).

Definition Feed (item : bytes) (s : ExtSorter) : result ExtSorter :=
  fail_if (MaxUint32 <? zlen item) "item length overflows uint32" ;;
  let s := mkSorter (currentChunk s ++ [item]) (currentChunkSize s + zlen item + 4) (rotated s) in
  Ok (if MaxChunkSize opts <=? currentChunkSize s then sortChunkAndRotate s else s).

(** The file a goroutine leaves. *)
Definition sortAndSaveChunk (chunk : list bytes) : bytes :=
  let chunk := sortSlice chunk in
  let data := if DeltaEncoding opts then encodeDelta [] chunk else encodePlain chunk in
  if SnappyCompression opts then compress data else data.

Definition openStream (file : bytes) : stream :=
  mkStream (if SnappyCompression opts then decompress file else file) [].

Definition streamNext : SE stream (option bytes) := if DeltaEncoding opts then deltaNext else plainNext.

(** The chunks of the sorter when the pending one is rotated too. *)
Definition finalChunks (s : ExtSorter) : list (list bytes) :=
  rotated (if 0 <? currentChunkSize s then sortChunkAndRotate s else s).

(** [Finalize], for the order in which the goroutines have finished. *)
Definition Finalize (chunkFiles : list bytes) : option (result (list heapEntry)) :=
  NewMultiWayMerge streamNext less (openStream <$> chunkFiles).

(** [Spawn]: feed everything, wait, merge everything. *)
Definition Spawn (input : list bytes) (order : list bytes -> list bytes) (fuel : nat)
    : option (result (list bytes)) :=
  match foldM (fun s item => Feed item s) newSorter input with
  | Err e => None
  | Ok s =>
      r ← Finalize (order (sortAndSaveChunk <$> finalChunks s));
      match r with
      | Err e => None
      | Ok h => drain streamNext less fuel h
      end
  end.
End Sorter.

(** ** Heaps *)

Lemma swap_Permutation {A} (h : list A) i j x y :
  (i < j)%nat -> h !! i = Some x -> h !! j = Some y -> <[j := x]> (<[i := y]> h) ≡ₚ h.
Proof.
  intros Hij Hi Hj. pose proof (lookup_lt_Some _ _ _ Hi). pose proof (lookup_lt_Some _ _ _ Hj).
  rewrite <- (take_drop_middle h i x Hi) at 2.
  assert (drop (S i) h !! (j - S i)%nat = Some y) as Hd by (rewrite lookup_drop; by replace (S i + (j - S i))%nat with j by lia).
  rewrite <- (take_drop_middle _ _ _ Hd). rewrite (insert_take_drop h i y) by lia.
  rewrite insert_app_r_alt by (rewrite length_take; lia). rewrite length_take, Nat.min_l by lia.
  replace (j - i)%nat with (S (j - S i)) by lia. cbn [insert list_insert].
  rewrite (insert_take_drop (drop (S i) h)) by (rewrite length_drop; lia).
  apply Permutation_app_head. rewrite <- !Permutation_middle. apply Permutation_swap.
Qed.

Section Heap.
Context {St : Type} (less : bytes -> bytes -> bool).
Context (less_asym : forall a b, less a b = true -> less b a = false).
Context (less_trans : forall a b c, less b a = false -> less c b = false -> less c a = false).
Implicit Types h : list (heapEntry (St := St)).

Local Definition le (x y : heapEntry (St := St)) : Prop := less (value y) (value x) = false.

Local Definition child (i j : nat) : Prop := j = (2 * i + 1)%nat \/ j = (2 * i + 2)%nat.

(** Every parent from [k] on, but for [i], is not after its children. *)
Definition heap_but (k n : nat) (i : nat -> Prop) h : Prop :=
  forall a b x y, (k <= a)%nat -> ~ i a -> child a b -> (b < n)%nat ->
    h !! a = Some x -> h !! b = Some y -> le x y.

(** The parent of [i] is not after the children of [i]. *)
Definition skip_ok (k n i : nat) h : Prop :=
  forall p c x y, (k <= p)%nat -> child p i -> child i c -> (c < n)%nat ->
    h !! p = Some x -> h !! c = Some y -> le x y.

Definition heap_from (k n : nat) h : Prop := heap_but k n (fun _ => False) h.

Lemma le_refl x : le x x.
Proof. unfold le. destruct (less (value x) (value x)) eqn:E; [|done]. by rewrite (less_asym _ _ E) in E. Qed.

Lemma le_trans x y z : le x y -> le y z -> le x z.
Proof. intros H1 H2. exact (less_trans _ _ _ H1 H2). Qed.

(** The entry at [i] and the smaller of its children change places. *)
Lemma swap_heap k n i j x y h :
  (n <= length h)%nat -> (k <= i)%nat -> child i j -> (j < n)%nat ->
  h !! i = Some x -> h !! j = Some y -> less (value y) (value x) = true ->
  (forall c z, child i c -> (c < n)%nat -> h !! c = Some z -> le y z) ->
  heap_but k n (eq i) h -> skip_ok k n i h ->
  let h' := <[j := x]> (<[i := y]> h) in heap_but k n (eq j) h' /\ skip_ok k n j h'.
Proof.
  intros Hn Hk Hc Hj Hx Hy Hlt Hmin Hb Hs h'. pose proof (lookup_lt_Some _ _ _ Hx).
  assert (i < j)%nat as Hij by (unfold child in Hc; lia).
  assert (forall a, a <> i -> a <> j -> h' !! a = h !! a) as Hother
    by (intros a ??; unfold h'; by rewrite !list_lookup_insert_ne by done).
  assert (h' !! j = Some x) as Hj' by (apply list_lookup_insert_eq; rewrite length_insert; lia).
  assert (h' !! i = Some y) as Hi'
    by (unfold h'; rewrite list_lookup_insert_ne by lia; apply list_lookup_insert_eq; lia).
  split.
  - intros a b u v Ha Hna Hab Hbn Hu Hv. destruct (decide (a = i)) as [->|Hai].
    + rewrite Hi' in Hu. injection Hu as <-. destruct (decide (b = j)) as [->|Hbj].
      * rewrite Hj' in Hv. injection Hv as <-. by apply less_asym.
      * rewrite Hother in Hv by (unfold child in *; lia). by eapply Hmin.
    + rewrite Hother in Hu by congruence. destruct (decide (b = i)) as [->|Hbi].
      * rewrite Hi' in Hv. injection Hv as <-. by eapply Hs.
      * destruct (decide (b = j)) as [->|Hbj]; [unfold child in *; lia|].
        rewrite Hother in Hv by done. eapply Hb; [exact Ha|congruence|done..].
  - intros p c u v Hp Hpj Hjc Hcn Hu Hv. assert (p = i) as -> by (unfold child in *; lia).
    rewrite Hi' in Hu. injection Hu as <-. rewrite Hother in Hv by (unfold child in *; lia).
    eapply (Hb j); [lia|lia|done..].
Qed.

Lemma pickChild_spec h i n :
  (n <= length h)%nat -> (2 * i + 1 < n)%nat ->
  exists j y, pickChild less h (2 * i + 1) n = Some j /\ child i j /\ (j < n)%nat /\ h !! j = Some y /\
    (forall c z, child i c -> (c < n)%nat -> h !! c = Some z -> le y z).
Proof.
  intros Hn Hlt. destruct (lookup_lt_is_Some_2 h (2 * i + 1)) as [y1 Hy1]; [lia|]. unfold pickChild.
  replace (2 * i + 1 + 1)%nat with (2 * i + 2)%nat by lia.
  destruct (Nat.ltb_spec (2 * i + 2) n) as [H2|H2].
  - destruct (lookup_lt_is_Some_2 h (2 * i + 2)) as [y2 Hy2]; [lia|].
    unfold Less. rewrite Hy2, Hy1. cbn [mbind option_bind]. destruct (less (value y2) (value y1)) eqn:E.
    + exists (2 * i + 2)%nat, y2. split_and!; [done|by right|lia|done|]. intros c z [->| ->] _ Hz; simplify_eq.
      * by apply less_asym.
      * apply le_refl.
    + exists (2 * i + 1)%nat, y1. split_and!; [done|by left|lia|done|]. intros c z [->| ->] _ Hz; simplify_eq.
      * apply le_refl.
      * done.
  - exists (2 * i + 1)%nat, y1. split_and!; [done|by left|lia|done|]. intros c z [->| ->] Hcn Hz; [|lia].
    simplify_eq. apply le_refl.
Qed.

(** [down] repairs the heap below an index. *)
Lemma down_spec fuel k n i h :
  (n <= length h)%nat -> (k <= i)%nat -> (n < fuel + i)%nat -> (1 <= fuel)%nat -> (i < length h)%nat ->
  heap_but k n (eq i) h -> skip_ok k n i h ->
  exists h', down less fuel h i n = Some h' /\ h' ≡ₚ h /\ drop n h' = drop n h /\ heap_from k n h'.
Proof.
  revert i h. induction fuel as [|fuel IH]; intros i h Hn Hk Hf Hf1 Hi Hb Hs; [lia|]. cbn [down].
  destruct (Nat.leb_spec n (2 * i + 1)) as [Hle|Hlt].
  { exists h. split_and!; [done..|]. intros a b x y Ha _ Hab Hbn. apply Hb; [done| |done..].
    intros <-. unfold child in Hab. lia. }
  destruct (lookup_lt_is_Some_2 h i Hi) as [x Hx].
  destruct (pickChild_spec h i n Hn Hlt) as (j & y & -> & Hc & Hjn & Hy & Hmin).
  cbn [mbind option_bind]. unfold Less at 1. rewrite Hy, Hx. cbn [mbind option_bind].
  assert (i < j)%nat as Hij by (unfold child in Hc; lia).
  destruct (less (value y) (value x)) eqn:E; cbn [negb].
  - unfold Swap. rewrite Hx, Hy. cbn [mbind option_bind].
    destruct (swap_heap k n i j x y h) as [Hb' Hs']; [done..|].
    destruct (IH j (<[j := x]> (<[i := y]> h))) as (h' & -> & Hp & Hd & Hh);
      [rewrite ?length_insert; (lia || done)..|].
    exists h'. split_and!; [done| | |done].
    + by rewrite Hp, swap_Permutation.
    + rewrite Hd. by rewrite !drop_insert_lt by lia.
  - exists h. split_and!; [done..|]. intros a b u v Ha _ Hab Hbn Hu Hv.
    destruct (decide (a = i)) as [->|Hai]; [|by eapply Hb; eauto].
    rewrite Hx in Hu. injection Hu as <-. eapply le_trans; [exact E|]. by eapply Hmin.
Qed.

Lemma initFrom_spec k h :
  (k <= length h)%nat -> heap_from k (length h) h ->
  exists h', initFrom less k h = Some h' /\ h' ≡ₚ h /\ heap_from 0 (length h') h'.
Proof.
  revert h. induction k as [|k IH]; intros h Hk Hh; [by exists h|]. cbn [initFrom].
  destruct (down_spec (S (length h)) k (length h) k h) as (h1 & -> & Hp & _ & Hh1); [lia..| | |].
  - intros a b x y Ha Hna. apply (Hh a b x y); [|by intros []]. assert (k <> a) by done. lia.
  - intros p c x y Hkp Hpk. unfold child in Hpk. lia.
  - cbn [mbind option_bind]. pose proof (Permutation_length Hp) as El.
    destruct (IH h1) as (h2 & -> & Hp2 & Hh2); [lia|by rewrite El|]. exists h2. split_and!; [done| |done].
    by rewrite Hp2.
Qed.

Lemma Init_spec h : exists h', Init less h = Some h' /\ h' ≡ₚ h /\ heap_from 0 (length h') h'.
Proof.
  apply initFrom_spec; [apply Nat.Div0.div_le_upper_bound; lia|]. intros a b x y Ha _ Hab Hbn.
  pose proof (Nat.div_mod_eq (length h) 2). pose proof (Nat.mod_upper_bound (length h) 2).
  unfold child in Hab. lia.
Qed.

Lemma root_skip n h : skip_ok 0 n 0 h.
Proof. intros p c x y _ Hp. unfold child in Hp. lia. Qed.

(** Changing the root only concerns the root. *)
Lemma heap_root n e e' h : heap_from 0 n (e :: h) -> heap_but 0 n (eq O) (e' :: h).
Proof.
  intros Hh a b x y Ha Hna Hab Hbn Hx Hy. destruct a as [|a]; [done|].
  destruct b as [|b]; [unfold child in Hab; lia|].
  apply (Hh (S a) (S b) x y); [lia|by intros []|done..].
Qed.

Lemma Fix0_spec e e' h :
  heap_from 0 (length (e :: h)) (e :: h) ->
  exists h', Fix0 less (e' :: h) = Some h' /\ h' ≡ₚ e' :: h /\ heap_from 0 (length h') h'.
Proof.
  intros Hh. unfold Fix0.
  destruct (down_spec (S (length (e' :: h))) 0 (length (e' :: h)) 0 (e' :: h)) as (h' & -> & Hp & _ & Hh');
    [cbn; lia..|by eapply heap_root|apply root_skip|].
  exists h'. split_and!; [done..|]. by rewrite (Permutation_length Hp).
Qed.

Lemma Remove0_spec e e' h :
  heap_from 0 (length (e :: h)) (e :: h) ->
  exists h', Remove0 less (e' :: h) = Some h' /\ h' ≡ₚ h /\ heap_from 0 (length h') h'.
Proof.
  intros Hh. unfold Remove0. cbn [length]. destruct (Nat.eqb_spec (length h) 0) as [E0|Hne].
  { apply nil_length_inv in E0 as ->. exists []. split_and!; [done..|]. intros a b x y _ _ _ Hb. cbn in Hb. lia. }
  destruct (lookup_lt_is_Some_2 (e' :: h) (length h)) as [y Hy]; [cbn; lia|].
  unfold Swap. rewrite Hy. cbn [lookup list_lookup mbind option_bind].
  set (h1 := <[length h := e']> (<[0%nat := y]> (e' :: h))).
  assert (h1 ≡ₚ e' :: h) as Hp1 by (apply swap_Permutation; [lia|done..]).
  assert (heap_but 0 (length h) (eq O) h1) as Hb.
  { intros a b u v Ha Hna Hab Hbn Hu Hv. unfold h1 in Hu, Hv.
    rewrite !list_lookup_insert_ne in Hu, Hv by (unfold child in Hab; lia).
    destruct a as [|a]; [done|]. destruct b as [|b]; [unfold child in Hab; lia|].
    apply (Hh (S a) (S b) u v); [lia|by intros []|done|cbn; lia|done..]. }
  destruct (down_spec (S (length h)) 0 (length h) 0 h1) as (h' & -> & Hp & Hd & Hh');
    [unfold h1; rewrite ?length_insert; cbn; lia..|done|apply root_skip|].
  cbn [mbind option_bind]. assert (drop (length h) h1 = [e']) as Ed.
  { unfold h1. rewrite drop_insert_ge, Nat.sub_diag, drop_insert_lt by lia.
    destruct (drop (length h) (e' :: h)) as [|z [|z' l]] eqn:Ez; [..|]; try done;
      apply (f_equal length) in Ez; rewrite length_drop in Ez; cbn in Ez; lia. }
  exists (take (length h) h'). assert (length h' = S (length h)) as El
    by (by rewrite (Permutation_length Hp), (Permutation_length Hp1)).
  split_and!; [done| |].
  - apply (Permutation_app_inv_r [e']). rewrite <- Ed, <- Hd at 1. rewrite take_drop, Hp, Hp1.
    by rewrite Permutation_app_comm.
  - rewrite length_take, El, Nat.min_l by lia. intros a b x z Ha Hna Hab Hbn Hx Hz.
    rewrite lookup_take_lt in Hx, Hz by (unfold child in Hab; lia). apply (Hh' a b x z); [done|by intros []|done..].
Qed.

(** The root is a minimum. *)
Lemma heap_min n h i x y :
  heap_from 0 n h -> (i < n)%nat -> h !! O = Some x -> h !! i = Some y -> le x y.
Proof.
  intros Hh. revert y. induction i as [i IH] using lt_wf_ind. intros y Hi Hx Hy.
  destruct (decide (i = O)) as [->|Hne]; [simplify_eq; apply le_refl|].
  set (p := ((i - 1) / 2)%nat). pose proof (Nat.div_mod_eq (i - 1) 2). pose proof (Nat.mod_upper_bound (i - 1) 2).
  assert (child p i) as Hc by (unfold child, p; lia). assert (p < i)%nat as Hpi by (unfold p; lia).
  destruct (lookup_lt_is_Some_2 h p) as [z Hz]; [pose proof (lookup_lt_Some _ _ _ Hy); lia|].
  eapply le_trans; [by apply (IH p Hpi z); [lia|..]|]. apply (Hh p i z y); [lia|by intros []|done..].
Qed.
End Heap.

(** ** Streams and the merge *)

Section Drain.
Context {St : Type} (next : SE St (option bytes)) (less : bytes -> bytes -> bool).
Context (less_asym : forall a b, less a b = true -> less b a = false).
Context (less_trans : forall a b c, less b a = false -> less c b = false -> less c a = false).

Local Definition ord (a b : bytes) : Prop := less b a = false.

(** What a stream delivers before it is exhausted. *)
Inductive yields : St -> list bytes -> Prop :=
  | yields_nil s s' : next s = Some (Ok None, s') -> yields s []
  | yields_cons s s' v l : next s = Some (Ok (Some v), s') -> yields s' l -> yields s (v :: l).

(** The items a heap has still to deliver. *)
Inductive pending : list (heapEntry (St := St)) -> list bytes -> Prop :=
  | pending_nil : pending [] []
  | pending_cons e l h items :
      yields (source e) l -> StronglySorted ord (value e :: l) -> pending h items ->
      pending (e :: h) (value e :: l ++ items).

Lemma pending_perm h h' items :
  h ≡ₚ h' -> pending h items -> exists items', pending h' items' /\ items' ≡ₚ items.
Proof.
  intros Hp. revert items. induction Hp as [|e h h' Hp IH|e e' h|h1 h2 h3 H1 IH1 H2 IH2]; intros items Hi.
  - by exists items.
  - inversion Hi as [|? l ? its Hy Hs Hi']; subst. destruct (IH _ Hi') as (its' & Hi2 & Hp2).
    exists (value e :: l ++ its'). split; [by apply pending_cons|]. by rewrite Hp2.
  - inversion Hi as [|? l ? its Hy Hs Hi']; subst. inversion Hi' as [|? l' ? its' Hy' Hs' Hi2]; subst.
    eexists. split; [apply pending_cons; [exact Hy'|exact Hs'|apply pending_cons; [exact Hy|exact Hs|exact Hi2]]|].
    apply (Permutation_app_swap_app (value e :: l') (value e' :: l) its').
  - destruct (IH1 _ Hi) as (i1 & Hi1 & Hp1). destruct (IH2 _ Hi1) as (i2 & Hi2 & Hp2).
    exists i2. split; [done|]. by rewrite Hp2.
Qed.

(** A value that is not after any value of the heap is not after any item. *)
Lemma pending_above v h items :
  pending h items -> (forall e, e ∈ h -> ord v (value e)) -> Forall (ord v) items.
Proof.
  induction 1 as [|e l h items Hy Hs Hp IH]; intros Hv; [constructor|].
  assert (ord v (value e)) as Hve by (apply Hv; by left). constructor; [done|]. apply Forall_app. split.
  - apply StronglySorted_inv in Hs as [_ Hs]. eapply Forall_impl; [exact Hs|]. intros x Hx. by eapply less_trans.
  - apply IH. intros e' He'. apply Hv. by right.
Qed.

Lemma drain_spec fuel h items :
  pending h items -> heap_from less 0 (length h) h -> (length items < fuel)%nat ->
  exists out, drain next less fuel h = Some (Ok out) /\ out ≡ₚ items /\ StronglySorted ord out.
Proof.
  revert h items. induction fuel as [|fuel IH]; intros h items Hi Hh Hf; [lia|]. cbn [drain].
  destruct Hi as [|e l h items Hy Hs Hi].
  { exists []. split_and!; [done|done|constructor]. }
  assert (Forall (ord (value e)) (l ++ items)) as Hmin.
  { apply StronglySorted_inv in Hs as [_ Hl]. apply Forall_app. split; [done|].
    apply (pending_above _ h items Hi). intros e' [i He']%list_elem_of_lookup.
    apply (heap_min less less_asym less_trans _ (e :: h) (S i) e e' Hh); [|done|done].
    apply lookup_lt_Some in He'. cbn. lia. }
  assert (exists h' items', Next next less (e :: h) = Some (Ok (Some (value e)), h') /\ pending h' items' /\
    items' ≡ₚ l ++ items /\ heap_from less 0 (length h') h') as (h' & items' & -> & Hi' & Hp' & Hh').
  { unfold Next. destruct Hy as [s s' E|s s' v l E Hy]; rewrite E; cbn [mbind option_bind].
    - destruct (Remove0_spec less less_asym less_trans e (mkHeapEntry s' []) h Hh) as (h' & -> & Hp & Hh').
      destruct (pending_perm h h' items) as (items' & Hi' & Hpi); [done|done|]. by exists h', items'.
    - destruct (Fix0_spec less less_asym less_trans e (mkHeapEntry s' v) h Hh) as (h' & -> & Hp & Hh').
      destruct (pending_perm (mkHeapEntry s' v :: h) h' (v :: l ++ items)) as (items' & Hi' & Hpi); [done| |].
      + constructor; [done|by apply StronglySorted_inv in Hs as [Hs _]|done].
      + by exists h', items'. }
  cbn [mbind option_bind]. destruct (IH h' items' Hi' Hh') as (out & -> & Hpo & Hso).
  { rewrite (Permutation_length Hp'). cbn in Hf. lia. }
  cbn [mbind option_bind result_bind]. exists (value e :: out). split_and!; [done| |].
  - by rewrite Hpo, Hp'.
  - constructor; [done|]. assert (l ++ items ≡ₚ out) as Hpl by (by rewrite Hpo, Hp').
    by rewrite <- Hpl.
Qed.
End Drain.

(** ** Files *)

Lemma diffOffset_spec a b :
  (diffOffset a b <= length a)%nat /\ (diffOffset a b <= length b)%nat /\
  take (diffOffset a b) a = take (diffOffset a b) b.
Proof.
  revert b. induction a as [|x a IH]; intros [|y b]; try (cbn; split_and!; (lia || done)). cbn [diffOffset].
  case_bool_decide as E; [|cbn; split_and!; (lia || done)]. subst y. destruct (IH b) as (H1 & H2 & H3).
  cbn [length take]. split; [lia|]. split; [lia|]. by rewrite H3.
Qed.

Lemma codec_delta last key : zlen key <= 2 ^ 32 -> codec (deltaRead last) (deltaWrite last key) key.
Proof.
  intros Hk. destruct (diffOffset_spec last key) as (H1 & H2 & H3). unfold deltaRead, deltaWrite.
  set (n := diffOffset last key) in *.
  eapply codec_bind; [apply codec_uvarint; lia|]. eapply codec_bind; [apply codec_uvarint; lia|]. cbn zeta.
  assert (u64 (Z.of_nat n + Z.of_nat (length key - n)) = zlen key) as -> by (rewrite u64_id; lia).
  apply (codec_pure _ _ _ tt); [intros r; apply makeBytes_ok; lia|].
  rewrite !(proj2 (Z.leb_le _ _)) by lia. cbn [andb].
  eapply codec_then; [apply codec_full; rewrite length_drop; lia|].
  intros r. by rewrite Nat2Z.id, H3, take_drop.
Qed.

Lemma deltaNext_yields last items :
  Forall (fun item => zlen item <= MaxUint32) items ->
  yields deltaNext (mkStream (encodeDelta last items) last) items.
Proof.
  unfold MaxUint32. revert last. induction items as [|item items IH]; intros last Hi.
  - by eapply yields_nil.
  - inversion Hi as [|? ? Hi0 Hi']; subst. eapply yields_cons; [|by apply IH].
    unfold deltaNext. cbn [rest ExtSort.last encodeDelta].
    by rewrite (codec_read _ _ _ (codec_delta last item ltac:(lia))).
Qed.

Lemma plainNext_yields last items :
  Forall (fun item => zlen item <= MaxUint32) items ->
  yields plainNext (mkStream (encodePlain items) last) items.
Proof.
  unfold MaxUint32. induction items as [|item items IH]; intros Hi.
  - by eapply yields_nil.
  - inversion Hi as [|? ? Hi0 Hi']; subst. eapply yields_cons; [|by apply IH].
    unfold plainNext, encodePlain. cbn [rest ExtSort.last]. rewrite bind_cons, <- app_assoc.
    rewrite (codec_read _ _ _ (codec_uvarint (zlen item) ltac:(lia))). cbn [mbind option_bind].
    assert (codec (_ ← makeBytes (zlen item); ReadFull (zlen item)) item item) as Hc.
    { apply (codec_pure _ _ _ tt); [intros r; apply makeBytes_ok; lia|by apply codec_full]. }
    by rewrite (codec_read _ _ _ Hc).
Qed.

Section Sorted.
Context (opts : Options) (less : bytes -> bytes -> bool).
Context (sortSlice : list bytes -> list bytes) (compress decompress : bytes -> bytes).

(** The comparison is a strict weak order; [sort.Slice] sorts by it; snappy reads
    back what it wrote. *)
Definition strict_weak : Prop :=
  (forall a b, less a b = true -> less b a = false) /\
  (forall a b c, less b a = false -> less c b = false -> less c a = false).

Definition sorts : Prop :=
  forall l, sortSlice l ≡ₚ l /\ StronglySorted (fun a b => less b a = false) (sortSlice l).

Definition lossless : Prop := forall b, decompress (compress b) = b.

Lemma chunk_yields chunk :
  sorts -> lossless -> Forall (fun item => zlen item <= MaxUint32) chunk ->
  yields (streamNext opts) (openStream opts decompress (sortAndSaveChunk opts sortSlice compress chunk))
    (sortSlice chunk).
Proof.
  intros Hs Hl Hc. assert (Forall (fun item => zlen item <= MaxUint32) (sortSlice chunk)) as Hc'
    by (by rewrite (proj1 (Hs chunk))).
  unfold openStream, sortAndSaveChunk, streamNext.
  destruct (SnappyCompression opts), (DeltaEncoding opts); rewrite ?Hl;
    (by apply deltaNext_yields) || (by apply plainNext_yields).
Qed.

Lemma newEntries_spec {St} (next : SE St (option bytes)) streams ls :
  Forall2 (yields next) streams ls -> Forall (StronglySorted (fun a b => less b a = false)) ls ->
  exists es, newEntries next streams = Some (Ok es) /\ pending next less es (concat ls).
Proof.
  induction 1 as [|s l streams ls Hy Hf IH]; intros Hs; [by exists []; split; [|constructor]|].
  inversion Hs as [|? ? Hl Hs']; subst. destruct (IH Hs') as (es & E & Hp). cbn [newEntries concat].
  destruct Hy as [s s' En|s s' v l En Hy]; rewrite En; cbn [mbind option_bind]; rewrite E.
  - by exists es.
  - exists (mkHeapEntry s' v :: es). split; [done|]. by apply (pending_cons next less (mkHeapEntry s' v)).
Qed.

Lemma Feed_ok item s :
  zlen item <= MaxUint32 ->
  Feed opts item s =
    let s1 := mkSorter (currentChunk s ++ [item]) (currentChunkSize s + zlen item + 4) (rotated s) in
    Ok (if MaxChunkSize opts <=? currentChunkSize s1 then sortChunkAndRotate s1 else s1).
Proof. intros Hi. unfold Feed. by rewrite (proj2 (Z.ltb_ge _ _)). Qed.

Lemma concat_Permutation {A} (l l' : list (list A)) : l ≡ₚ l' -> concat l ≡ₚ concat l'.
Proof.
  induction 1 as [|x l l' Hp IH|x y l|l1 l2 l3 H1 IH1 H2 IH2]; cbn [concat].
  - done.
  - by rewrite IH.
  - apply Permutation_app_swap_app.
  - by rewrite IH1.
Qed.

(** Nothing is lost when chunks are rotated. *)
Lemma Feed_all input s :
  Forall (fun item => zlen item <= MaxUint32) input -> (currentChunkSize s = 0 <-> currentChunk s = []) ->
  0 <= currentChunkSize s ->
  exists s', foldM (fun s item => Feed opts item s) s input = Ok s' /\
    concat (finalChunks s') = concat (rotated s) ++ currentChunk s ++ input.
Proof.
  revert s. induction input as [|item input IH]; intros s Hi Hz Hn.
  - exists s. split; [done|]. unfold finalChunks, sortChunkAndRotate. rewrite app_nil_r.
    destruct (Z.ltb_spec 0 (currentChunkSize s)) as [Hlt|Hge]; cbn [rotated].
    + rewrite concat_app. cbn. by rewrite app_nil_r.
    + rewrite (proj1 Hz) by lia. by rewrite app_nil_r.
  - inversion Hi as [|? ? Hi0 Hi']; subst. cbn [foldM]. rewrite Feed_ok by done. sbind.
    set (s1 := mkSorter (currentChunk s ++ [item]) (currentChunkSize s + zlen item + 4) (rotated s)).
    change (currentChunkSize s + zlen item + 4) with (currentChunkSize s1).
    destruct (MaxChunkSize opts <=? currentChunkSize s1).
    + destruct (IH (sortChunkAndRotate s1) Hi') as (s' & E & Ec); [done|done|].
      exists s'. split; [exact E|]. rewrite Ec. cbn [sortChunkAndRotate rotated currentChunk s1].
      rewrite concat_app. cbn [concat]. by rewrite app_nil_r, <- !app_assoc.
    + destruct (IH s1 Hi') as (s' & E & Ec).
      * cbn [s1 currentChunkSize currentChunk]. split; [lia|]. by intros [_ ?]%app_eq_nil.
      * cbn [s1 currentChunkSize]. lia.
      * exists s'. split; [exact E|]. rewrite Ec. cbn [s1 rotated currentChunk]. by rewrite <- !app_assoc.
Qed.

(** External sorting delivers a sorted permutation of its input, and ends:
    for every way of cutting the input into chunks, with or without delta
    encoding and compression, and for every order in which the goroutines finish
    their chunks. *)
Lemma Spawn_sorts input order fuel :
  strict_weak -> sorts -> lossless -> (forall files, order files ≡ₚ files) ->
  Forall (fun item => zlen item <= MaxUint32) input -> (length input < fuel)%nat ->
  exists out, Spawn opts less sortSlice compress decompress input order fuel = Some (Ok out) /\
    out ≡ₚ input /\ StronglySorted (fun a b => less b a = false) out.
Proof.
  intros [Hasym Htrans] Hs Hl Ho Hi Hf. unfold Spawn.
  destruct (Feed_all input newSorter Hi) as (s & -> & Ec); [done|done|]. cbv beta iota.
  cbn [rotated currentChunk newSorter concat app] in Ec.
  match goal with |- context [order ?files] => pose proof (Ho files) as Hof; set (files' := order files) in * end.
  apply Permutation_map_inv in Hof as (chunks & -> & Hpc).
  assert (concat (sortSlice <$> chunks) ≡ₚ input) as Hpi.
  { rewrite <- Ec. transitivity (concat chunks).
    - clear -Hs. induction chunks as [|c chunks IH]; [done|]. cbn. by rewrite (proj1 (Hs c)), IH.
    - symmetry. by apply concat_Permutation. }
  assert (Forall (Forall (fun item => zlen item <= MaxUint32)) chunks) as Hic.
  { rewrite <- Ec in Hi. rewrite Hpc in Hi || rewrite (concat_Permutation _ _ Hpc) in Hi.
    clear -Hi. induction chunks as [|c chunks IH]; [constructor|]. cbn [concat] in Hi.
    apply Forall_app in Hi as [? ?]. constructor; auto. }
  unfold Finalize, NewMultiWayMerge.
  destruct (newEntries_spec (streamNext opts)
    (openStream opts decompress <$> (sortAndSaveChunk opts sortSlice compress <$> chunks)) (sortSlice <$> chunks))
    as (es & E & Hp).
  - rewrite <- list_fmap_compose. apply Forall2_fmap, Forall_Forall2_diag. eapply Forall_impl; [exact Hic|].
    intros c Hc. by apply chunk_yields.
  - apply Forall_fmap, Forall_forall. intros c _. apply Hs.
  - match goal with |- context [newEntries ?n ?l] => change (newEntries n l = Some (Ok es)) in E; rewrite E end.
    cbn [mbind option_bind]. destruct (Init_spec less Hasym Htrans es) as (h & -> & Hph & Hh). cbn [mbind option_bind].
    destruct (pending_perm _ less es h _ (symmetry Hph) Hp) as (items & Hitems & Hpit).
    destruct (drain_spec _ less Hasym Htrans fuel h items Hitems Hh) as (out & -> & Hpo & Hso).
    + by rewrite Hpit, Hpi.
    + exists out. split_and!; [done|by rewrite Hpo, Hpit|done].
Qed.
End Sorted.

(** Sorting bytes in their order, three items per chunk. *)
Definition exOptions : Options := mkOptions true true 15.

Definition exSort : list bytes -> list bytes :=
  merge_sort (fun a b => bytes_ltb b a = false) (H := fun a b => decide (bytes_ltb b a = false)).

Definition exInput : list bytes := [[x03]; [x01; x02]; [x02]; [x01]; [x05]; [x01; x01]].

Lemma exSort_sorts : sorts bytes_ltb exSort.
Proof.
  intros l. split; [apply merge_sort_Permutation|]. apply StronglySorted_merge_sort.
  - intros a b c. destruct (bytes_ltb_spec b a), (bytes_ltb_spec c b), (bytes_ltb_spec c a); try done.
    exfalso. bytes_order.
  - intros a b. destruct (bytes_ltb_spec b a), (bytes_ltb_spec a b); auto. exfalso. bytes_order.
Qed.

Lemma Spawn_sorts_example :
  exists out, Spawn exOptions bytes_ltb exSort (fun b => b) (fun b => b) exInput (@rev bytes) 7 = Some (Ok out) /\
    out ≡ₚ exInput /\ StronglySorted (fun a b => bytes_ltb b a = false) out.
Proof.
  apply (Spawn_sorts exOptions bytes_ltb exSort (fun b => b) (fun b => b) exInput (@rev bytes) 7).
  - split.
    + intros a b. destruct (bytes_ltb_spec a b), (bytes_ltb_spec b a); try done. exfalso. bytes_order.
    + intros a b c. destruct (bytes_ltb_spec b a), (bytes_ltb_spec c b), (bytes_ltb_spec c a); try done. exfalso. bytes_order.
  - exact exSort_sorts.
  - by intros b.
  - intros files. symmetry. apply Permutation_rev.
  - repeat constructor; vm_compute; congruence.
  - cbn. lia.
Defined.
