(* ===== verification/SorterItem.v ===== *)
(** * Items of the conversion to SST files: [versiondb/client/convert_to_sst.go]
    and the comparator [versiondb/tsrocksdb/comparator.go]

    The conversion sorts encoded items and writes them to files whose keys are
    ordered by the comparator of the database: the two orders have to be the
    same. *)

From S2P Require Import Prelude KV Binary Tree ExtSort.
From Stdlib Require Import Strings.Byte.

Open Scope string_scope.
Open Scope Z_scope.
Open Scope list_scope.

Definition TimestampSize : Z := 8.
Definition SizeKeyLength : Z := 4.

(** ** The comparator *)

Definition compareTS (bz1 bz2 : bytes) : option comparison :=
  ts1 ← Uint64 bz1; ts2 ← Uint64 bz2; Some (ts1 ?= ts2).

Definition compareWithoutTS (a : bytes) (aHasTS : bool) (b : bytes) (bHasTS : bool) : option comparison :=
  a ← (if aHasTS then slice a 0 (zlen a - TimestampSize) else Some a);
  b ← (if bHasTS then slice b 0 (zlen b - TimestampSize) else Some b);
  Some (bytes_compare a b).

Definition compare (a b : bytes) : option comparison :=
  ret ← compareWithoutTS a true b true;
  match ret with
  | Eq =>
      ta ← slice_from a (zlen a - TimestampSize);
      tb ← slice_from b (zlen b - TimestampSize);
      CompOpp <$> compareTS ta tb
  | _ => Some ret
  end.

(** ** Items *)

Definition sizeOfSorterItem (pair : KVPair) : Z :=
  let size := zlen (PairKey pair) + TimestampSize + 1 + SizeKeyLength in
  if Delete pair then size else size + zlen (default [] (PairValue pair)).

(** The buffer has the computed size: a write beyond it panics, the rest stays
    zero. *)
Definition encodeSorterItem (version : Z) (pair : KVPair) : option bytes :=
  let fields :=
    PairKey pair ++ PutUint64 version ++
    (if Delete pair then [x01] else x00 :: default [] (PairValue pair)) ++
    PutUint32 (u32 (zlen (PairKey pair))) in
  if zlen fields <=? sizeOfSorterItem pair
  then Some (fields ++ replicate (Z.to_nat (sizeOfSorterItem pair) - length fields) x00)
  else None.

Definition decodeSorterItem (item : bytes) : option (bytes * KVPair) :=
  tail ← slice_from item (zlen item - SizeKeyLength);
  keyLen ← Uint32 tail;
  key ← slice item 0 keyLen;
  version ← slice item keyLen (u32 (keyLen + TimestampSize));
  let offset := u32 (keyLen + TimestampSize) in
  flag ← item !! Z.to_nat offset;
  if bool_decide (flag = x01) then Some (version, mkPair true key None)
  else
    value ← slice item (u32 (offset + 1)) (zlen item - SizeKeyLength);
    Some (version, mkPair false key (Some value)).

Definition compareSorterItem (a b : bytes) : option bool :=
  ta ← slice_from a (zlen a - SizeKeyLength);
  aKeyLen ← Uint32 ta;
  tb ← slice_from b (zlen b - SizeKeyLength);
  bKeyLen ← Uint32 tb;
  ka ← slice a 0 aKeyLen;
  kb ← slice b 0 bKeyLen;
  match bytes_compare ka kb with
  | Lt => Some true
  | Gt => Some false
  | Eq =>
      va ← slice_from a aKeyLen;
      aVersion ← Uint64 va;
      vb ← slice_from b bKeyLen;
      bVersion ← Uint64 vb;
      Some (bVersion <? aVersion)
  end.

(** ** Lemmas *)

(** The parts of an item after the key and the version. *)
Definition itemTail (pair : KVPair) : bytes :=
  if Delete pair then [x01] else x00 :: default [] (PairValue pair).

Definition itemBytes (version : Z) (pair : KVPair) : bytes :=
  PairKey pair ++ PutUint64 version ++ itemTail pair ++ PutUint32 (zlen (PairKey pair)).

Definition item_ok (version : Z) (pair : KVPair) : Prop :=
  0 <= version < 2 ^ 64 /\ zlen (PairKey pair) + 9 < 2 ^ 32.

Lemma encodeSorterItem_bytes version pair :
  item_ok version pair -> encodeSorterItem version pair = Some (itemBytes version pair).
Proof.
  intros [Hv Hk]. unfold encodeSorterItem. fold (itemTail pair). rewrite u32_id by lia.
  fold (itemBytes version pair).
  assert (zlen (itemBytes version pair) = sizeOfSorterItem pair) as El.
  { unfold itemBytes, sizeOfSorterItem, itemTail, TimestampSize, SizeKeyLength.
    rewrite !length_app, length_PutUint64, length_PutUint32. destruct (Delete pair); cbn [length]; lia. }
  rewrite El, Z.leb_refl, <- El, Nat2Z.id, Nat.sub_diag. by rewrite app_nil_r.
Qed.

Lemma item_keyLen version pair :
  item_ok version pair ->
  exists tail, slice_from (itemBytes version pair) (zlen (itemBytes version pair) - SizeKeyLength) = Some tail /\
    Uint32 tail = Some (zlen (PairKey pair)).
Proof.
  intros [Hv Hk]. exists (PutUint32 (zlen (PairKey pair)) ++ []). split; [|apply Uint32_Put; lia].
  rewrite app_nil_r. unfold itemBytes. rewrite !app_assoc. apply slice_from_app.
  rewrite !length_app, length_PutUint32. unfold SizeKeyLength. lia.
Qed.

Lemma item_key version pair rest : slice (PairKey pair ++ PutUint64 version ++ rest) 0 (zlen (PairKey pair)) = Some (PairKey pair).
Proof. apply (slice_app [] (PairKey pair)); done. Qed.

Lemma item_version version pair rest :
  slice_from (PairKey pair ++ PutUint64 version ++ rest) (zlen (PairKey pair)) = Some (PutUint64 version ++ rest).
Proof. by apply slice_from_app. Qed.

(** A key of the database: the key with its timestamp. *)
Lemma compare_keys k1 v1 k2 v2 :
  0 <= v1 < 2 ^ 64 -> 0 <= v2 < 2 ^ 64 ->
  compare (k1 ++ PutUint64 v1) (k2 ++ PutUint64 v2) =
  Some match bytes_compare k1 k2 with Eq => CompOpp (v1 ?= v2) | c => c end.
Proof.
  intros H1 H2. unfold compare, compareWithoutTS, TimestampSize.
  assert (forall k v, zlen (k ++ PutUint64 v) - 8 = zlen k) as El
    by (intros k v; rewrite length_app, length_PutUint64; lia).
  rewrite !El. rewrite (slice_app [] k1 (PutUint64 v1)), (slice_app [] k2 (PutUint64 v2)) by done.
  cbn [mbind option_bind]. rewrite (slice_from_app k1), (slice_from_app k2) by done.
  cbn [mbind option_bind]. unfold compareTS.
  rewrite <- (app_nil_r (PutUint64 v1)), <- (app_nil_r (PutUint64 v2)), !Uint64_Put by done.
  by destruct (bytes_compare k1 k2).
Qed.

Lemma compare_items v1 p1 v2 p2 :
  item_ok v1 p1 -> item_ok v2 p2 ->
  compareSorterItem (itemBytes v1 p1) (itemBytes v2 p2) =
  Some match bytes_compare (PairKey p1) (PairKey p2) with Lt => true | Gt => false | Eq => v2 <? v1 end.
Proof.
  intros H1 H2. unfold compareSorterItem.
  destruct (item_keyLen v1 p1 H1) as (t1 & -> & E1). destruct (item_keyLen v2 p2 H2) as (t2 & E2' & E2).
  cbn [mbind option_bind]. rewrite E1. cbn [mbind option_bind]. rewrite E2'. cbn [mbind option_bind].
  rewrite E2. cbn [mbind option_bind]. unfold itemBytes. rewrite !item_key. cbn [mbind option_bind].
  destruct (bytes_compare (PairKey p1) (PairKey p2)); [|done..].
  rewrite !item_version. cbn [mbind option_bind]. destruct H1 as [? _], H2 as [? _].
  rewrite !Uint64_Put by done. done.
Qed.

Lemma decode_item v p :
  item_ok v p ->
  decodeSorterItem (itemBytes v p) = Some (PutUint64 v,
    mkPair (Delete p) (PairKey p) (if Delete p then None else Some (default [] (PairValue p)))).
Proof.
  intros H. unfold decodeSorterItem. destruct (item_keyLen v p H) as (t & -> & Et). destruct H as [Hv Hk].
  cbn [mbind option_bind]. rewrite Et. cbn [mbind option_bind]. unfold TimestampSize.
  rewrite !u32_id by (rewrite ?u32_id; lia).
  assert (slice (itemBytes v p) (zlen (PairKey p)) (zlen (PairKey p) + 8) = Some (PutUint64 v)) as Ev
    by (apply slice_app; [done|rewrite length_PutUint64; lia]).
  assert (itemBytes v p !! Z.to_nat (zlen (PairKey p) + 8) = Some (if Delete p then x01 else x00)) as Ef.
  { unfold itemBytes. rewrite app_assoc, lookup_app_r by (rewrite length_app, length_PutUint64; lia).
    rewrite length_app, length_PutUint64. replace (Z.to_nat _ - _)%nat with 0%nat by lia.
    unfold itemTail. by destruct (Delete p). }
  assert (slice (itemBytes v p) 0 (zlen (PairKey p)) = Some (PairKey p)) as -> by apply item_key.
  cbn [mbind option_bind]. rewrite Ev. cbn [mbind option_bind]. rewrite Ef. cbn [mbind option_bind].
  destruct (Delete p) eqn:Ed; [done|]. rewrite bool_decide_false by done.
  assert (slice (itemBytes v p) (zlen (PairKey p) + 8 + 1) (zlen (itemBytes v p) - SizeKeyLength) =
    Some (default [] (PairValue p))) as ->; [|done].
  unfold itemBytes, itemTail. rewrite Ed.
  replace (PairKey p ++ PutUint64 v ++ (x00 :: default [] (PairValue p)) ++ PutUint32 (zlen (PairKey p)))
    with ((PairKey p ++ PutUint64 v ++ [x00]) ++ default [] (PairValue p) ++ PutUint32 (zlen (PairKey p)))
    by (by rewrite <- !app_assoc).
  apply slice_app; rewrite !length_app, ?length_PutUint64, ?length_PutUint32; unfold SizeKeyLength; cbn [length]; lia.
Qed.

(** an item decodes to the pair and the timestamp it was made from, and the
    order in which the sorter delivers the items is the order of the database's
    comparator on the keys with their timestamps: ascending keys, and for the
    same key the newer version first. *)
Theorem sorter_items_ordered v1 p1 v2 p2 :
  item_ok v1 p1 -> item_ok v2 p2 ->
  exists i1 i2, encodeSorterItem v1 p1 = Some i1 /\ encodeSorterItem v2 p2 = Some i2 /\
    decodeSorterItem i1 = Some (PutUint64 v1,
      mkPair (Delete p1) (PairKey p1) (if Delete p1 then None else Some (default [] (PairValue p1)))) /\
    compareSorterItem i1 i2 =
      ((fun c => match c with Lt => true | _ => false end) <$>
       compare (PairKey p1 ++ PutUint64 v1) (PairKey p2 ++ PutUint64 v2)).
Proof.
  intros H1 H2. exists (itemBytes v1 p1), (itemBytes v2 p2).
  split_and!; [by apply encodeSorterItem_bytes..|by apply decode_item|].
  rewrite compare_items, compare_keys by (done || apply H1 || apply H2). cbn [fmap option_fmap option_map].
  destruct (bytes_compare (PairKey p1) (PairKey p2)); [|done..]. f_equal.
  rewrite <- Z.compare_antisym. unfold Z.ltb. done.
Qed.

Lemma sorter_items_ordered_witness :
  let p1 := mkPair false [x01] (Some [x0a]) in
  let p2 := mkPair true [x01] None in
  exists i1 i2, encodeSorterItem 7 p1 = Some i1 /\ encodeSorterItem 5 p2 = Some i2 /\
    decodeSorterItem i1 = Some (PutUint64 7, mkPair false [x01] (Some [x0a])) /\
    compareSorterItem i1 i2 =
      ((fun c => match c with Lt => true | _ => false end) <$>
       compare (PairKey p1 ++ PutUint64 7) (PairKey p2 ++ PutUint64 5)).
Proof.
  intros p1 p2. apply (sorter_items_ordered 7 p1 5 p2); (split; [lia|cbn; lia]).
Defined.
