(* ===== verification/VersionStore.v ===== *)
(** * The version store: [versiondb/tsrocksdb/store.go]

    The store over RocksDB with timestamps: change sets are written at a version,
    keys are read at a version.  RocksDB is an interface with the behaviour it
    documents for timestamps; a write can fail, and then changes nothing. *)

From S2P Require Import Prelude KV Binary Tree Proto.
From Stdlib Require Import Strings.Byte.

Open Scope string_scope.
Open Scope Z_scope.
Open Scope list_scope.

(** ** RocksDB *)

(** The operations of a batch: on the column family with timestamps, and the plain
    key of the latest version. *)
Inductive dbOp :=
  | OpPut (key : bytes) (ts : Z) (value : bytes)
  | OpDelete (key : bytes) (ts : Z)
  | OpLatest (value : bytes).

Class TSDB (D : Type) := {
  db_write : D -> list dbOp -> result D;
  db_entry : D -> bytes -> Z -> option (option bytes);
  db_get : D -> bytes -> Z -> option (bytes * Z);
  db_plain : D -> option bytes
}.

(** The entry at a timestamp: absent, deleted or a value. *)
Definition opEntry (key : bytes) (ts : Z) (acc : option (option bytes)) (op : dbOp) : option (option bytes) :=
  match op with
  | OpPut k t v => if bool_decide (k = key /\ t = ts) then Some (Some v) else acc
  | OpDelete k t => if bool_decide (k = key /\ t = ts) then Some None else acc
  | OpLatest _ => acc
  end.

Definition opPlain (acc : option bytes) (op : dbOp) : option bytes :=
  match op with OpLatest v => Some v | _ => acc end.

(** [r] is the newest of the entries [e] that are not after [t]. *)
Definition newest (e : Z -> option (option bytes)) (t : Z) (r : option (bytes * Z)) : Prop :=
  (r = None /\ forall u, 0 <= u <= t -> e u = None) \/
  exists u x, 0 <= u <= t /\ e u = Some x /\ (forall w, u < w <= t -> e w = None) /\
    r = (fun v => (v, u)) <$> x.

(** A batch takes effect as a whole and in its order; reading at a timestamp gives
    the newest entry not after it. *)
Class TSDBLaws (D : Type) `{TSDB D} : Prop := {
  db_write_entry d ops d' k t : db_write d ops = Ok d' -> db_entry d' k t = foldl (opEntry k t) (db_entry d k t) ops;
  db_write_plain d ops d' : db_write d ops = Ok d' -> db_plain d' = foldl opPlain (db_plain d) ops;
  db_get_newest d k t : newest (db_entry d k) t (db_get d k t)
}.

(** ** Keys *)

Definition storePrefix (storeKey : string) : bytes :=
  bytes_of_string "s/k:" ++ bytes_of_string storeKey ++ [x2f].

Definition prependStoreKey (storeKey : string) (key : bytes) : bytes := storePrefix storeKey ++ key.

(** The bytes from the last on: increment, or zero with a carry; [None] is nil. *)
Fixpoint incr (rev_bz : bytes) : option bytes :=
  match rev_bz with
  | [] => None
  | b :: bz =>
      if byte_to_Z b <? 255 then Some (byte_of_Z (byte_to_Z b + 1) :: bz)
      else (fun r => x00 :: r) <$> incr bz
  end.

(** The panic on an empty slice is the outer [None]. *)
Definition cpIncr (bz : bytes) : option (option bytes) :=
  match bz with
  | [] => None
  | _ => Some (@rev byte <$> incr (rev bz))
  end.

(** A nil [start] appends nothing. *)
Definition iterateWithPrefix (prefix : bytes) (start end_ : option bytes)
    : option (option bytes * option bytes) :=
  match prefix with
  | [] => Some (start, end_)
  | _ =>
      let start := Some (prefix ++ default [] start) in
      match end_ with
      | None => e ← cpIncr prefix; Some (start, e)
      | Some e => Some (start, Some (prefix ++ e))
      end
  end.

(** ** The store *)

Record StoreKVPair := mkStorePair { spStore : string; spDelete : bool; spKey : bytes; spValue : bytes }.

Section Store.
Context {D : Type} `{TSDB D}.

Definition pairOp (version : Z) (pair : StoreKVPair) : dbOp :=
  let key := prependStoreKey (spStore pair) (spKey pair) in
  if spDelete pair then OpDelete key (u64 version) else OpPut key (u64 version) (spValue pair).

Definition PutAtVersion (d : D) (version : Z) (changeSet : list StoreKVPair) : result D :=
  db_write d (OpLatest (PutUint64 (u64 version)) :: (pairOp version <$> changeSet)).

Definition SetLatestVersion (d : D) (version : Z) : result D :=
  db_write d [OpLatest (PutUint64 (u64 version))].

(** The timestamp of a read; [None] is a nil version. *)
Definition readTimestamp (version : option Z) : Z :=
  match version with None => 2 ^ 64 - 1 | Some v => u64 v end.

(** [GetAtVersionSlice] and [moveSliceToBytes]. *)
Definition GetAtVersion (skipVersionZero : bool) (d : D) (storeKey : string) (key : bytes) (version : option Z)
    : option bytes :=
  match db_get d (prependStoreKey storeKey key) (readTimestamp version) with
  | None => None
  | Some (value, ts) => if skipVersionZero && (ts =? 0) then None else Some value
  end.

Definition HasAtVersion (skipVersionZero : bool) (d : D) (storeKey : string) (key : bytes) (version : option Z)
    : bool :=
  match GetAtVersion skipVersionZero d storeKey key version with Some _ => true | None => false end.

(** The decoding of a short value panics. *)
Definition GetLatestVersion (d : D) : option Z :=
  match db_plain d with
  | None | Some [] => Some 0
  | Some bz => i64 <$> Uint64 bz
  end.

Definition FeedChangeSet (d : D) (version : Z) (store : string) (changeSet : ChangeSet) : result D :=
  db_write d ((fun pair =>
    let key := storePrefix store ++ PairKey pair in
    if Delete pair then OpDelete key (u64 version)
    else OpPut key (u64 version) (default [] (PairValue pair))) <$> changeSet).
End Store.

(** ** Keys of different stores *)

(** A store name without a slash. *)
Definition plain_name (store : string) : Prop := x2f ∉ bytes_of_string store.

Lemma split_slash (a b : bytes) x y : x2f ∉ a -> x2f ∉ b -> a ++ x2f :: x = b ++ x2f :: y -> a = b /\ x = y.
Proof.
  revert b. induction a as [|c a IH]; intros [|c' b] Ha Hb E; cbn in E.
  - by injection E.
  - injection E as <- _. by apply not_elem_of_cons in Hb as [].
  - injection E as -> _. by apply not_elem_of_cons in Ha as [].
  - injection E as <- E. apply not_elem_of_cons in Ha as [_ Ha]. apply not_elem_of_cons in Hb as [_ Hb].
    by destruct (IH b Ha Hb E) as [-> ->].
Qed.

Lemma prependStoreKey_inj s s' k k' :
  plain_name s -> plain_name s' -> prependStoreKey s k = prependStoreKey s' k' -> s = s' /\ k = k'.
Proof.
  unfold prependStoreKey, storePrefix. rewrite <- !app_assoc. intros Hs Hs' E%app_inv_head. cbn in E.
  destruct (split_slash _ _ _ _ Hs Hs' E) as [Es ->]. split; [|done].
  by rewrite <- (String.string_of_list_byte_of_string s), Es, String.string_of_list_byte_of_string.
Qed.

(** ** Versions *)

(** The history of a store: the change sets with their versions. *)
Definition applyPair (store : string) (key : bytes) (acc : option bytes) (p : StoreKVPair) : option bytes :=
  if bool_decide (spStore p = store /\ spKey p = key) then (if spDelete p then None else Some (spValue p)) else acc.

(** The value of a key after the change sets up to a version. *)
Definition valueAt (hist : list (Z * list StoreKVPair)) (v : Z) (store : string) (key : bytes) : option bytes :=
  foldl (fun acc x => if x.1 <=? v then foldl (applyPair store key) acc x.2 else acc) None hist.

Section Versions.
Context {D : Type} `{LawsD : TSDBLaws D}.
Implicit Types (d : D) (hist : list (Z * list StoreKVPair)).

(** Databases written block by block. *)
Inductive written : list (Z * list StoreKVPair) -> D -> Prop :=
  | written_empty d : (forall k t, db_entry d k t = None) -> db_plain d = None -> written [] d
  | written_put hist d d' v cs :
      written hist d -> Forall (fun x => x.1 < v) hist -> 1 <= v < 2 ^ 63 ->
      Forall (fun p => plain_name (spStore p)) cs ->
      PutAtVersion d v cs = Ok d' -> written (hist ++ [(v, cs)]) d'.

Lemma newest_unique e t r r' : newest e t r -> newest e t r' -> r = r'.
Proof.
  intros [[-> H1]|(u & x & Hu & Eu & Hl & ->)] [[-> H2]|(u' & x' & Hu' & Eu' & Hl' & ->)]; [done|..].
  - by rewrite H1 in Eu'.
  - by rewrite H2 in Eu.
  - destruct (Z.lt_trichotomy u u') as [Hlt|[->|Hlt]].
    + by rewrite Hl in Eu' by lia.
    + by rewrite Eu in Eu'; injection Eu' as ->.
    + by rewrite Hl' in Eu by lia.
Qed.

Lemma newest_ext e e' t r : (forall u, 0 <= u <= t -> e u = e' u) -> newest e t r -> newest e' t r.
Proof.
  intros He [[-> H1]|(u & x & Hu & Eu & Hl & ->)].
  - left. split; [done|]. intros u Hu. rewrite <- He; auto.
  - right. exists u, x. split_and!; [lia..|by rewrite <- He| |done]. intros w Hw. rewrite <- He by lia. auto.
Qed.

(** What a change set leaves at its version, and elsewhere. *)
Definition pairEntry (store : string) (key : bytes) (acc : option (option bytes)) (p : StoreKVPair) :=
  if bool_decide (spStore p = store /\ spKey p = key) then Some (if spDelete p then None else Some (spValue p)) else acc.

Lemma put_entries v cs store key t acc :
  1 <= v < 2 ^ 63 -> plain_name store -> Forall (fun p => plain_name (spStore p)) cs ->
  foldl (opEntry (prependStoreKey store key) t) acc (pairOp v <$> cs) =
  if t =? v then foldl (pairEntry store key) acc cs else acc.
Proof.
  intros Hv Hst Hcs. revert acc. induction Hcs as [|p cs Hp Hcs IH]; intros acc; cbn [fmap list_fmap foldl].
  { by destruct (t =? v). }
  rewrite IH. unfold pairOp. rewrite u64_id by lia.
  assert (prependStoreKey (spStore p) (spKey p) = prependStoreKey store key <-> spStore p = store /\ spKey p = key) as Hk.
  { split; [by apply prependStoreKey_inj|]. by intros [-> ->]. }
  destruct (Z.eqb_spec t v) as [->|Hne].
  - f_equal. unfold pairEntry. destruct (spDelete p); cbn [opEntry]; do 2 case_bool_decide; tauto.
  - destruct (spDelete p); cbn [opEntry]; (rewrite bool_decide_false; [done|]); intros [_ ?]; lia.
Qed.

(** The last pair of a key decides. *)
Lemma pairEntry_value store key cs acc :
  foldl (applyPair store key) acc cs = match foldl (pairEntry store key) None cs with Some x => x | None => acc end.
Proof.
  induction cs as [|p cs IH] using rev_ind; [done|]. rewrite !foldl_app. cbn [foldl].
  unfold applyPair at 1, pairEntry at 1. by case_bool_decide.
Qed.

Lemma written_entries hist d store key :
  written hist d -> plain_name store ->
  (forall t, (forall x, x ∈ hist -> x.1 <> t) -> db_entry d (prependStoreKey store key) t = None) /\
  (forall v, exists r, newest (db_entry d (prependStoreKey store key)) v r /\ fst <$> r = valueAt hist v store key /\
     (forall b t, r = Some (b, t) -> 1 <= t)).
Proof.
  intros Hw Hst. induction Hw as [d Hd _|hist d d' v cs Hw [IHe IHn] Hlt Hv Hcs E].
  - split; [by intros t _|]. intros v. exists None. split_and!; [left; auto|done|done].
  - assert (forall t, db_entry d' (prependStoreKey store key) t =
      if t =? v then foldl (pairEntry store key) (db_entry d (prependStoreKey store key) t) cs
      else db_entry d (prependStoreKey store key) t) as Ee.
    { intros t. rewrite (db_write_entry _ _ _ _ _ E). cbn [foldl opEntry]. by apply put_entries. }
    assert (db_entry d (prependStoreKey store key) v = None) as Ev.
    { apply IHe. intros x Hx. rewrite Forall_forall in Hlt. specialize (Hlt x Hx). lia. }
    split.
    + intros t Ht. rewrite Ee. rewrite (proj2 (Z.eqb_neq t v)).
      * apply IHe. intros x Hx. apply Ht. apply elem_of_app. by left.
      * intros ->. apply (Ht (v, cs)); [|done]. apply elem_of_app. right. by left.
    + intros w. destruct (IHn w) as (r & Hn & Er & Hpos). unfold valueAt. rewrite foldl_app. cbn [foldl fst snd].
      fold (valueAt hist w store key). destruct (Z.leb_spec v w) as [Hvw|Hvw].
      2: { exists r. split_and!; [|done|done]. eapply newest_ext; [|exact Hn]. intros u Hu. rewrite Ee.
           by rewrite (proj2 (Z.eqb_neq u v)) by lia. }
      rewrite pairEntry_value. destruct (foldl (pairEntry store key) None cs) as [x|] eqn:Ex.
      * exists ((fun b => (b, v)) <$> x). split_and!.
        -- right. exists v, x. split_and!; [lia..| | |done].
           ++ by rewrite Ee, Z.eqb_refl, Ev.
           ++ intros u Hu. rewrite Ee, (proj2 (Z.eqb_neq u v)) by lia. apply IHe. intros y Hy.
              rewrite Forall_forall in Hlt. specialize (Hlt y Hy). lia.
        -- by destruct x.
        -- intros b t Ht. destruct x; simplify_eq/=. lia.
      * exists r. split_and!; [|done|done]. eapply newest_ext; [|exact Hn]. intros u Hu. rewrite Ee.
        destruct (Z.eqb_spec u v) as [->|]; [|done]. by rewrite Ev, Ex.
Qed.

Lemma latest_decoded w : 0 <= w < 2 ^ 63 ->
  match PutUint64 (u64 w) with [] => Some 0 | b :: bz => i64 <$> Uint64 (b :: bz) end = Some w.
Proof.
  intros Hw. pose proof (Uint64_Put (u64 w) []) as E. rewrite app_nil_r in E. specialize (E ltac:(rewrite u64_id; lia)).
  pose proof (length_le_bytes 8 (u64 w)) as El. fold (PutUint64 (u64 w)) in El.
  destruct (PutUint64 (u64 w)) as [|b bs]; [done|]. rewrite E. cbn [fmap option_fmap option_map].
  rewrite u64_id by lia. unfold i64. rewrite Z.mod_small by lia. f_equal. lia.
Qed.

Lemma GetAtVersion_valueAt hist d skip store key ver :
  written hist d -> plain_name store -> GetAtVersion skip d store key ver = valueAt hist (readTimestamp ver) store key.
Proof.
  intros Hw Hst. destruct (written_entries hist d store key Hw Hst) as [_ Hn].
  destruct (Hn (readTimestamp ver)) as (r & Hr & Er & Hpos). unfold GetAtVersion.
  rewrite (newest_unique _ _ _ _ (db_get_newest d _ _) Hr), <- Er. destruct r as [[b t]|]; [|done].
  specialize (Hpos b t eq_refl). rewrite (proj2 (Z.eqb_neq t 0)) by lia. by rewrite andb_false_r.
Qed.

(** The last version that was written. *)
Definition latestOf hist : Z := match last hist with Some x => x.1 | None => 0 end.

(** C33: a version store written block by block answers every read at a version
    with the value the key has after exactly the change sets up to that version,
    whether or not version zero is skipped, and a read without a version with the
    value after all of them; existence agrees, and the latest version is that of
    the last block. *)
Theorem versiondb_reads hist d skip store key v :
  written hist d -> plain_name store -> 0 <= v < 2 ^ 63 ->
  GetAtVersion skip d store key (Some v) = valueAt hist v store key /\
  GetAtVersion skip d store key None = valueAt hist (2 ^ 64 - 1) store key /\
  HasAtVersion skip d store key (Some v) = bool_decide (is_Some (valueAt hist v store key)) /\
  GetLatestVersion d = Some (latestOf hist).
Proof.
  intros Hw Hst Hv. unfold HasAtVersion. rewrite !(GetAtVersion_valueAt hist) by done. cbn [readTimestamp]. rewrite u64_id by lia. split_and!; [done|done| |].
  - destruct (valueAt hist v store key); [by rewrite bool_decide_true|]. rewrite bool_decide_false; [done|]. by intros [].
  - destruct Hw as [d Hd Hp|hist d d' w cs Hw Hlt Hw1 Hcs E]; unfold GetLatestVersion, latestOf; [by rewrite Hp|].
    rewrite (db_write_plain _ _ _ E), last_snoc. cbn [foldl opPlain fst].
    assert (forall x, foldl opPlain (Some x) (pairOp w <$> cs) = Some x) as ->.
    { intros x. clear. induction cs as [|p cs IH]; [done|]. cbn [fmap list_fmap foldl].
      replace (opPlain (Some x) (pairOp w p)) with (Some x); [done|]. unfold pairOp. by destruct (spDelete p). }
    by apply latest_decoded; lia.
Qed.
End Versions.

(** ** Ranges *)

Lemma compare_app p a b : bytes_compare (p ++ a) (p ++ b) = bytes_compare a b.
Proof. induction p as [|c p IH]; [done|]. cbn [app bytes_compare]. by rewrite Z.compare_refl. Qed.

Lemma range_prefix p a b k : p ++ a <=b k -> k <b p ++ b -> exists s, k = p ++ s.
Proof.
  unfold bytes_le, bytes_lt. revert k. induction p as [|c p IH]; intros k H1 H2; [by exists k|].
  destruct k as [|d k]; [done|]. cbn [app bytes_compare] in H1, H2.
  destruct (Z.compare_spec (byte_to_Z c) (byte_to_Z d)) as [E|Hlt|Hgt]; [|..|done].
  - rewrite E, Z.compare_refl in H2. apply byte_to_Z_inj in E as ->. destruct (IH k H1 H2) as [s ->]. by exists s.
  - rewrite (proj2 (Z.compare_gt_iff _ _)) in H2 by lia. done.
Qed.

Lemma slash_range a k : (x2f :: a) <=b k -> k <b [x30] -> exists s, k = x2f :: s.
Proof.
  unfold bytes_le, bytes_lt. destruct k as [|d k]; [done|]. cbn [bytes_compare].
  destruct (Z.compare_spec (byte_to_Z x2f) (byte_to_Z d)) as [E|Hlt|Hgt]; [|..|done].
  - intros _ _. apply byte_to_Z_inj in E as <-. by exists k.
  - intros _. destruct (Z.compare_spec (byte_to_Z d) (byte_to_Z x30)) as [E'|Hlt'|Hgt'];
      [by destruct k|cbn in *; lia|done].
Qed.

Lemma cpIncr_storePrefix store :
  cpIncr (storePrefix store) = Some (Some (bytes_of_string "s/k:" ++ bytes_of_string store ++ [x30])).
Proof.
  unfold cpIncr, storePrefix. set (q := bytes_of_string store).
  change (Some (@rev byte <$> incr (rev (bytes_of_string "s/k:" ++ q ++ [x2f]))) =
    Some (Some (bytes_of_string "s/k:" ++ q ++ [x30]))).
  rewrite !app_assoc, rev_app_distr. cbn [rev app incr fmap option_fmap option_map]. 
  change (byte_to_Z x2f <? 255) with true. cbn [fmap option_fmap option_map rev]. by rewrite rev_involutive.
Qed.

(** The range an iterator of a store is given covers exactly the keys of that
    store whose part after the prefix lies between the bounds, also when there is
    no end: no key of another store is inside. *)
Theorem iterateWithPrefix_exact store start end_ :
  exists b e, iterateWithPrefix (storePrefix store) start end_ = Some (Some b, Some e) /\
    forall k, (b <=b k /\ k <b e) <->
      exists s, k = storePrefix store ++ s /\ default [] start <=b s /\ (forall e', end_ = Some e' -> s <b e').
Proof.
  set (q := bytes_of_string "s/k:" ++ bytes_of_string store). set (st := default [] start).
  assert (storePrefix store = q ++ [x2f]) as Ep by (unfold q, storePrefix; by rewrite app_assoc).
  assert (forall a, storePrefix store ++ a = q ++ x2f :: a) as Ea by (intros a; rewrite Ep; by rewrite <- app_assoc).
  destruct end_ as [e'|].
  - exists (storePrefix store ++ st), (storePrefix store ++ e'). split; [done|]. intros k. split.
    + intros [H1 H2]. destruct (range_prefix _ _ _ _ H1 H2) as [s ->]. unfold bytes_le, bytes_lt in *.
      rewrite compare_app in H1, H2. exists s. split_and!; [done|done|]. by intros ? [= <-].
    + intros (s & -> & Hs & He). unfold bytes_le, bytes_lt. rewrite !compare_app. split; [done|by apply He].
  - exists (storePrefix store ++ st), (q ++ [x30]). split.
    { unfold iterateWithPrefix. rewrite cpIncr_storePrefix. unfold q. by rewrite <- app_assoc. }
    intros k. rewrite Ea. split.
    + intros [H1 H2]. destruct (range_prefix _ _ _ _ H1 H2) as [s' ->]. unfold bytes_le, bytes_lt in H1, H2.
      rewrite compare_app in H1, H2. destruct (slash_range _ _ H1 H2) as [s ->]. exists s. split_and!; [done| |done].
      unfold bytes_le. cbn [bytes_compare] in H1. by rewrite Z.compare_refl in H1.
    + intros (s & -> & Hs & _). rewrite Ea. unfold bytes_le, bytes_lt. rewrite !compare_app. split; [|done].
      cbn [bytes_compare]. by rewrite Z.compare_refl.
Qed.

(** ** A database in memory *)

(** The operations in their order; a read keeps the newest entry so far. *)
Definition memdb : Type := list dbOp.

Definition memBetter (key : bytes) (t : Z) (acc : option (option bytes * Z)) (op : dbOp) : option (option bytes * Z) :=
  let better u x :=
    if (0 <=? u) && (u <=? t) && (match acc with Some (_, w) => w <=? u | None => true end)
    then Some (x, u) else acc in
  match op with
  | OpPut k u v => if bool_decide (k = key) then better u (Some v) else acc
  | OpDelete k u => if bool_decide (k = key) then better u None else acc
  | OpLatest _ => acc
  end.

#[global] Instance memdb_ops : TSDB memdb := {
  db_write d ops := Ok (d ++ ops);
  db_entry d k t := foldl (opEntry k t) None d;
  db_get d k t := match foldl (memBetter k t) None d with Some (Some v, u) => Some (v, u) | _ => None end;
  db_plain d := foldl opPlain None d
}.

Definition best (e : Z -> option (option bytes)) (t : Z) (acc : option (option bytes * Z)) : Prop :=
  match acc with
  | None => forall u, 0 <= u <= t -> e u = None
  | Some (x, u) => 0 <= u <= t /\ e u = Some x /\ forall w, u < w <= t -> e w = None
  end.

(** One more entry. *)
Lemma best_step e e' t acc u x :
  best e t acc -> (forall w, e' w = if w =? u then Some x else e w) ->
  best e' t (if (0 <=? u) && (u <=? t) && (match acc with Some (_, w) => w <=? u | None => true end)
             then Some (x, u) else acc).
Proof.
  intros Hb He. destruct (Z.leb_spec 0 u) as [H0|H0], (Z.leb_spec u t) as [H1|H1]; cbn [andb].
  2-4: destruct acc as [[y w]|]; cbn in *;
    [destruct Hb as (? & ? & Hl); split_and!; [lia..| |]; [by rewrite He, (proj2 (Z.eqb_neq w u)) by lia|];
     intros v Hv; rewrite He, (proj2 (Z.eqb_neq v u)) by lia; auto
    |intros v Hv; rewrite He, (proj2 (Z.eqb_neq v u)) by lia; auto].
  destruct acc as [[y w]|]; cbn in Hb.
  - destruct Hb as (Hw & Ew & Hl). destruct (Z.leb_spec w u) as [Hwu|Hwu]; cbn.
    + split_and!; [lia..|by rewrite He, Z.eqb_refl|]. intros v Hv. rewrite He, (proj2 (Z.eqb_neq v u)) by lia. apply Hl. lia.
    + split_and!; [lia..|by rewrite He, (proj2 (Z.eqb_neq w u)) by lia|]. intros v Hv.
      rewrite He, (proj2 (Z.eqb_neq v u)) by lia. apply Hl. lia.
  - cbn. split_and!; [lia..|by rewrite He, Z.eqb_refl|]. intros v Hv. rewrite He, (proj2 (Z.eqb_neq v u)) by lia. apply Hb. lia.
Qed.

Lemma best_ext e e' t acc : (forall u, e' u = e u) -> best e t acc -> best e' t acc.
Proof.
  intros He. destruct acc as [[x u]|]; cbn.
  - intros (Hu & Eu & Hl). split_and!; [lia..|by rewrite He|]. intros w Hw. rewrite He. auto.
  - intros Hn u Hu. rewrite He. auto.
Qed.

Lemma memdb_best d k t : best (fun u => foldl (opEntry k u) None d) t (foldl (memBetter k t) None d).
Proof.
  induction d as [|op d IH] using rev_ind; [by intros u _|]. rewrite foldl_app. cbn [foldl].
  destruct op as [k' u v|k' u|v]; unfold memBetter at 1.
  1-2: destruct (bool_decide (k' = k)) eqn:Ek;
    [apply bool_decide_eq_true in Ek as ->; eapply best_step; [exact IH|]; intros w; cbn beta; rewrite foldl_app; cbn [foldl opEntry];
     destruct (Z.eqb_spec w u) as [->|]; [by rewrite bool_decide_true|rewrite bool_decide_false; [done|by intros [_ ->]]]
    |apply bool_decide_eq_false in Ek].
  all: eapply best_ext; [|exact IH]; intros w; cbn beta; rewrite foldl_app; cbn [foldl opEntry]; try done.
  all: rewrite bool_decide_false; [done|by intros [? _]].
Qed.

#[global] Instance memdb_laws : TSDBLaws memdb.
Proof.
  split.
  - intros d ops d' k t [= <-]. cbn. by rewrite foldl_app.
  - intros d ops d' [= <-]. cbn. by rewrite foldl_app.
  - intros d k t. cbn. pose proof (memdb_best d k t) as Hb. destruct (foldl (memBetter k t) None d) as [[x u]|].
    + right. destruct Hb as (Hu & Eu & Hl). exists u, x. split_and!; [lia..|done|done|by destruct x].
    + left. auto.
Qed.

Definition exBlock : list StoreKVPair := [mkStorePair "bank" false [x01] [x0a]; mkStorePair "bank" true [x02] []].

Definition exDB : memdb := OpLatest (PutUint64 3) :: (pairOp 3 <$> exBlock).

Lemma exDB_written : written [(3, exBlock)] exDB.
Proof.
  apply (written_put [] [] exDB 3 exBlock).
  - apply written_empty; done.
  - constructor.
  - lia.
  - repeat constructor; (intros Hin; apply list_elem_of_In in Hin; vm_compute in Hin; intuition discriminate).
  - reflexivity.
Qed.

Lemma versiondb_reads_witness :
  GetAtVersion true exDB "bank" [x01] (Some 5) = valueAt [(3, exBlock)] 5 "bank" [x01] /\
  GetAtVersion true exDB "bank" [x01] None = valueAt [(3, exBlock)] (2 ^ 64 - 1) "bank" [x01] /\
  HasAtVersion true exDB "bank" [x01] (Some 5) = bool_decide (is_Some (valueAt [(3, exBlock)] 5 "bank" [x01])) /\
  GetLatestVersion exDB = Some (latestOf [(3, exBlock)]).
Proof.
  apply (versiondb_reads [(3, exBlock)] exDB true "bank" [x01] 5).
  - exact exDB_written.
  - intros Hin. apply list_elem_of_In in Hin. vm_compute in Hin. intuition discriminate.
  - lia.
Defined.
