(* ===== verification/VersionIter.v ===== *)
(** * Iterators and repair of the version store:
      [versiondb/tsrocksdb/iterator.go], [versiondb/store.go], and the rest of
      [versiondb/tsrocksdb/store.go]

    Iterators over the keys of a store at a version, in both directions, the
    store the SDK sees on top, the import of an initial state, and the repair
    of keys that were written with their timestamp inside the key. *)

From S2P Require Import Prelude KV Binary Tree Proto VersionStore.
From Stdlib Require Import Strings.Byte.

Open Scope string_scope.
Open Scope Z_scope.
Open Scope list_scope.

(** ** RocksDB's iterator *)

Class TSIter (D I : Type) := {
  NewIteratorCF : D -> Z -> I;
  itSeek : bytes -> I -> I;
  itSeekToFirst : I -> I;
  itSeekToLast : I -> I;
  itNext : I -> I;
  itPrev : I -> I;
  itValid : I -> bool;
  itErr : I -> bool;
  itKey : I -> bytes;
  itValue : I -> bytes;
  itTimestamp : I -> bytes;
  db_Flush : D -> result D
}.

(** An entry an iterator stands on: key, value, timestamp. *)
Abbreviation entry := (bytes * bytes * Z)%type.

(** What an iterator goes through, and where it is. *)
Class TSIterModel (I : Type) := {
  itView : I -> list entry;
  itPos : I -> option nat
}.

(** An iterator goes through the keys that have a value at the read timestamp, in their
    order; reading does not fail, and flushing changes nothing. *)
Class TSIterLaws (D I : Type) `{TSDB D} `{TSIter D I} `{TSIterModel I} : Prop := {
  new_sorted (d : D) t : StronglySorted (fun a b : entry => a.1.1 <b b.1.1) (itView (NewIteratorCF d t));
  new_entries (d : D) t k v u : (k, v, u) ∈ itView (NewIteratorCF d t) <-> db_get d k t = Some (v, u);
  Seek_view k i : itView (itSeek k i) = itView i;
  SeekToFirst_view i : itView (itSeekToFirst i) = itView i;
  SeekToLast_view i : itView (itSeekToLast i) = itView i;
  Next_view i : itView (itNext i) = itView i;
  Prev_view i : itView (itPrev i) = itView i;
  Seek_pos k i :
    match itPos (itSeek k i) with
    | Some n => (exists e : entry, itView i !! n = Some e /\ k <=b e.1.1) /\
        forall m (e : entry), (m < n)%nat -> itView i !! m = Some e -> e.1.1 <b k
    | None => forall e : entry, e ∈ itView i -> e.1.1 <b k
    end;
  SeekToFirst_pos i : itPos (itSeekToFirst i) = match itView i with [] => None | _ => Some 0%nat end;
  SeekToLast_pos i : itPos (itSeekToLast i) = match length (itView i) with O => None | S n => Some n end;
  Next_pos i n : itPos i = Some n -> itPos (itNext i) = if Nat.ltb (S n) (length (itView i)) then Some (S n) else None;
  Prev_pos i n : itPos i = Some n -> itPos (itPrev i) = match n with O => None | S m => Some m end;
  Valid_pos i : itValid i = match itPos i with Some _ => true | None => false end;
  at_pos i n : itPos i = Some n -> exists k v u,
    itView i !! n = Some (k, v, u) /\ itKey i = k /\ itValue i = v /\ itTimestamp i = PutUint64 u;
  no_error i : itErr i = false;
  Flush_entry d d' k t : db_Flush d = Ok d' -> db_entry d' k t = db_entry d k t;
  Flush_plain d d' : db_Flush d = Ok d' -> db_plain d' = db_plain d
}.

(** ** [iterator.go] *)

Section Iterator.
Context {D I : Type} {TD : TSDB D} {TI : TSIter D I}.

(** The fields apart from [source], which the copies of a value receiver share. *)
Record rocksDBIterator := mkIter {
  itPrefix : bytes;
  itStart : option bytes;
  itEnd : option bytes;
  isReverse : bool;
  isInvalid : bool;
  skipVersionZero : bool
}.

Definition setInvalid (itr : rocksDBIterator) : rocksDBIterator :=
  mkIter (itPrefix itr) (itStart itr) (itEnd itr) (isReverse itr) true (skipVersionZero itr).

Definition Domain (itr : rocksDBIterator) : option bytes * option bytes := (itStart itr, itEnd itr).

(** [bytes.Compare(a, b) <= 0] *)
Definition bytes_leb (a b : bytes) : bool := negb (bytes_ltb b a).

Definition Valid (itr : rocksDBIterator) (source : I) : rocksDBIterator * bool :=
  if isInvalid itr then (itr, false)
  else if itErr source then (setInvalid itr, false)
  else if negb (itValid source) then (setInvalid itr, false)
  else
    let key := itKey source in
    if isReverse itr then
      match itStart itr with
      | Some start => if bytes_ltb key start then (setInvalid itr, false) else (itr, true)
      | None => (itr, true)
      end
    else
      match itEnd itr with
      | Some end_ => if bytes_leb end_ key then (setInvalid itr, false) else (itr, true)
      | None => (itr, true)
      end.

(** [assertIsValid] panics. *)
Definition Timestamp (itr : rocksDBIterator) (source : I) : option (rocksDBIterator * bytes) :=
  let '(itr, ok) := Valid itr source in
  if ok then Some (itr, itTimestamp source) else None.

Definition Key (itr : rocksDBIterator) (source : I) : option (rocksDBIterator * bytes) :=
  let '(itr, ok) := Valid itr source in
  if ok then
    if Nat.ltb (length (itKey source)) (length (itPrefix itr)) then None
    else Some (itr, drop (length (itPrefix itr)) (itKey source))
  else None.

Definition Value (itr : rocksDBIterator) (source : I) : option (rocksDBIterator * bytes) :=
  let '(itr, ok) := Valid itr source in
  if ok then Some (itr, itValue source) else None.

(** [timestamp], which panics on a timestamp of less than eight bytes. *)
Definition timestamp (source : I) : option Z := Uint64 (itTimestamp source).

(** [trySkipZeroVersion] with the call of [Next] in its loop, which calls it again.  The
    receivers are copies: only the source moves. *)
Fixpoint trySkipZeroVersion (fuel : nat) (itr : rocksDBIterator) (source : I) : option I :=
  if negb (skipVersionZero itr) then Some source
  else
    match fuel with
    | O => None
    | S fuel =>
        let '(itr, ok) := Valid itr source in
        if negb ok then Some source
        else
          ts ← timestamp source;
          if negb (ts =? 0) then Some source
          else
            let '(_, ok) := Valid itr source in
            if negb ok then None
            else
              let source := if isReverse itr then itPrev source else itNext source in
              source ← trySkipZeroVersion fuel itr source;
              trySkipZeroVersion fuel itr source
    end.

Definition Next (fuel : nat) (itr : rocksDBIterator) (source : I) : option I :=
  let '(copy, ok) := Valid itr source in
  if negb ok then None
  else
    let source := if isReverse copy then itPrev source else itNext source in
    trySkipZeroVersion fuel copy source.

Definition seekReverse (end_ : option bytes) (source : I) : I :=
  match end_ with
  | None => itSeekToLast source
  | Some end_ =>
      let source := itSeek end_ source in
      if itValid source then
        if bytes_leb end_ (itKey source) then itPrev source else source
      else itSeekToLast source
  end.

Definition seekForward (start : option bytes) (source : I) : I :=
  match start with
  | None => itSeekToFirst source
  | Some start => itSeek start source
  end.

Definition newRocksDBIterator (fuel : nat) (source : I) (prefix : bytes) (start end_ : option bytes)
    (isReverse skipVersionZero : bool) : option (rocksDBIterator * I) :=
  let source := if isReverse then seekReverse end_ source else seekForward start source in
  let it := mkIter prefix start end_ isReverse false skipVersionZero in
  source ← trySkipZeroVersion fuel it source;
  Some (it, source).

(** ** The iterators of [store.go] *)

Definition errKeyEmpty : error := "key cannot be empty".

Definition iteratorAtVersion (fuel : nat) (skip : bool) (d : D) (storeKey : string) (start end_ : option bytes)
    (version : option Z) (reverse : bool) : option (result (rocksDBIterator * I)) :=
  if bool_decide (start = Some []) || bool_decide (end_ = Some []) then Some (Err errKeyEmpty)
  else
    let prefix := storePrefix storeKey in
    '(start, end_) ← iterateWithPrefix prefix start end_;
    let itr := NewIteratorCF d (readTimestamp version) in
    Ok <$> newRocksDBIterator fuel itr prefix start end_ reverse skip.

Definition IteratorAtVersion fuel skip d storeKey start end_ version :=
  iteratorAtVersion fuel skip d storeKey start end_ version false.

Definition ReverseIteratorAtVersion fuel skip d storeKey start end_ version :=
  iteratorAtVersion fuel skip d storeKey start end_ version true.

(** [for ; itr.Valid(); itr.Next()], with the keys and values. *)
Fixpoint collect (fuel : nat) (itr : rocksDBIterator) (source : I) (steps : nat) : option (list (bytes * bytes)) :=
  match steps with
  | O => None
  | S steps =>
      let '(itr, ok) := Valid itr source in
      if negb ok then Some []
      else
        '(itr, k) ← Key itr source;
        '(itr, v) ← Value itr source;
        source ← Next fuel itr source;
        rest ← collect fuel itr source steps;
        Some ((k, v) :: rest)
  end.
End Iterator.

(** ** What an iterator yields *)
Section Yields.
Context {D I : Type} {TD : TSDB D} {TL : TSDBLaws D} {TI : TSIter D I} {TM : TSIterModel I} {IL : TSIterLaws D I}.
Implicit Types (i : I) (itr : rocksDBIterator) (e : entry).

(** The entries from the position on, in the direction of the iterator. *)
Definition todo (rev : bool) (i : I) : list entry :=
  match itPos i with
  | Some p => if rev then reverse (take (S p) (itView i)) else drop p (itView i)
  | None => []
  end.

(** An entry before the bound in the direction of the iterator. *)
Definition within (itr : rocksDBIterator) (e : entry) : bool :=
  if isReverse itr then match itStart itr with Some start => negb (bytes_ltb e.1.1 start) | None => true end
  else match itEnd itr with Some end_ => bytes_ltb e.1.1 end_ | None => true end.

Definition kept (itr : rocksDBIterator) (e : entry) : bool := negb (skipVersionZero itr && (e.2 =? 0)).

Definition move (rev : bool) (i : I) : I := if rev then itPrev i else itNext i.

Lemma todo_head rev i : match todo rev i with
  | [] => itPos i = None
  | e :: _ => is_Some (itPos i) /\ itKey i = e.1.1 /\ itValue i = e.1.2 /\ itTimestamp i = PutUint64 e.2
  end.
Proof.
  unfold todo. destruct (itPos i) as [p|] eqn:Ep; [|done].
  destruct (at_pos i p Ep) as (k & v & u & El & Hk & Hv & Ht). pose proof (lookup_lt_Some _ _ _ El) as Hp.
  destruct rev.
  - rewrite (take_S_r _ _ _ El), reverse_app. cbn. by rewrite Hk, Hv, Ht.
  - rewrite (drop_S _ _ _ El). cbn. by rewrite Hk, Hv, Ht.
Qed.

Lemma todo_move rev i : is_Some (itPos i) -> todo rev (move rev i) = tail (todo rev i).
Proof.
  intros [p Ep]. destruct (at_pos i p Ep) as (k & v & u & El & _). unfold todo, move. rewrite Ep. destruct rev.
  - rewrite (Prev_pos i p Ep), Prev_view, (take_S_r _ _ _ El), reverse_app. cbn [reverse rev_append app tail].
    destruct p as [|p]; [done|]. done.
  - rewrite (Next_pos i p Ep), Next_view, (drop_S _ _ _ El). cbn [tail].
    destruct (Nat.ltb_spec (S p) (length (itView i))) as [|Hp]; [done|]. by rewrite drop_ge.
Qed.

Lemma Valid_todo itr i : isInvalid itr = false ->
  Valid itr i = match todo (isReverse itr) i with
                | [] => (setInvalid itr, false)
                | e :: _ => if within itr e then (itr, true) else (setInvalid itr, false)
                end.
Proof.
  intros Hi. pose proof (todo_head (isReverse itr) i) as Hh. unfold Valid, within, bytes_leb. rewrite Hi, no_error, Valid_pos.
  destruct (todo (isReverse itr) i) as [|e l]; [by rewrite Hh|]. destruct Hh as ([p ->] & -> & _). cbn [negb].
  destruct (isReverse itr).
  - destruct (itStart itr) as [st|]; [|done]. by destruct (bytes_ltb e.1.1 st).
  - destruct (itEnd itr) as [en|]; [|done]. by destruct (bytes_ltb e.1.1 en).
Qed.

(** Timestamps have eight bytes. *)
Definition stamped (l : list entry) : Prop := Forall (fun e => 0 <= e.2 < 2 ^ 64) l.

Lemma todo_stamped rev i : stamped (itView i) -> stamped (todo rev i).
Proof.
  unfold stamped, todo. intros H. destruct (itPos i) as [p|]; [|constructor].
  destruct rev; [apply Forall_reverse; by apply Forall_take|by apply Forall_drop].
Qed.

Fixpoint skipZero (itr : rocksDBIterator) (l : list entry) : list entry :=
  match l with
  | [] => []
  | e :: l' => if within itr e && negb (kept itr e) then skipZero itr l' else l
  end.

Lemma skipZero_idem itr l : skipZero itr (skipZero itr l) = skipZero itr l.
Proof. induction l as [|e l IH]; [done|]. cbn. destruct (_ && _) eqn:E; [done|]. cbn. by rewrite E. Qed.

Lemma skipZero_length itr l : (length (skipZero itr l) <= length l)%nat.
Proof. induction l as [|e l IH]; cbn; [lia|]. destruct (_ && _); cbn; lia. Qed.

Lemma skipZero_head itr l : match skipZero itr l with [] => True | e :: _ => within itr e = true -> kept itr e = true end.
Proof. induction l as [|e l IH]; [done|]. cbn. destruct (within itr e) eqn:Ew, (kept itr e) eqn:Ek; cbn; congruence || done. Qed.

Lemma skipZero_off itr l : skipVersionZero itr = false -> skipZero itr l = l.
Proof. intros Hs. destruct l as [|e l]; [done|]. cbn. unfold kept. by rewrite Hs, andb_false_r. Qed.

Lemma trySkip_todo fuel itr i :
  isInvalid itr = false -> stamped (itView i) -> (length (todo (isReverse itr) i) < fuel)%nat ->
  exists i', trySkipZeroVersion fuel itr i = Some i' /\ itView i' = itView i /\
    todo (isReverse itr) i' = skipZero itr (todo (isReverse itr) i).
Proof.
  intros Hi. destruct (skipVersionZero itr) eqn:Hs.
  2: { intros _ _. exists i. destruct fuel; cbn; rewrite Hs, skipZero_off by done; done. }
  revert i. induction fuel as [|fuel IH]; intros i Hst Hf; [lia|]. cbn [trySkipZeroVersion]. rewrite Hs. cbn [negb].
  pose proof (todo_head (isReverse itr) i) as Hh. pose proof (todo_stamped (isReverse itr) i Hst) as Hts.
  pose proof (Valid_todo itr i Hi) as HV. destruct (todo (isReverse itr) i) as [|e l] eqn:El; [rewrite HV; by exists i|].
  cbn [skipZero]. unfold kept. rewrite Hs. destruct (within itr e); rewrite HV; cbn [negb andb]; [|by exists i].
  destruct Hh as (Hp & _ & _ & Ht). unfold timestamp. rewrite Ht, <- (app_nil_r (PutUint64 _)), Uint64_Put
    by (by apply Forall_inv in Hts). sbind. destruct (Z.eqb_spec e.2 0) as [Ez|Ez]; cbn [negb]; [|by exists i].
  fold (move (isReverse itr) i). pose proof (todo_move (isReverse itr) i Hp) as Em. rewrite El in Em. cbn [tail] in Em.
  assert (itView (move (isReverse itr) i) = itView i) as Ev by (unfold move; destruct (isReverse itr); [apply Prev_view|apply Next_view]).
  destruct (IH (move (isReverse itr) i)) as (i1 & E1 & V1 & T1); [by rewrite Ev|rewrite Em; cbn in Hf; lia|].
  rewrite Em in T1. rewrite HV. cbn [negb]. rewrite E1. sbind.
  destruct (IH i1) as (i2 & E2 & V2 & T2); [by rewrite V1, Ev|rewrite T1; pose proof (skipZero_length itr l); cbn in Hf; lia|].
  exists i2. split_and!; [done|congruence|]. by rewrite T2, T1, skipZero_idem.
Qed.

(** The pairs a list of entries gives, from the first entry on. *)
Definition pairOf (itr : rocksDBIterator) (e : entry) : bytes * bytes := (drop (length (itPrefix itr)) e.1.1, e.1.2).

(** Once an entry is past the bound, all later ones are. *)
Fixpoint bounded (itr : rocksDBIterator) (l : list entry) : Prop :=
  match l with
  | [] => True
  | e :: l => (within itr e = false -> Forall (fun e => within itr e = false) l) /\ bounded itr l
  end.

Lemma bounded_skip itr l : bounded itr l -> bounded itr (skipZero itr l).
Proof. induction l as [|e l IH]; [done|]. cbn. intros [H1 H2]. destruct (_ && _); [by apply IH|done]. Qed.

Definition yielded (itr : rocksDBIterator) (l : list entry) : list entry :=
  filter (fun e => within itr e = true /\ kept itr e = true) l.

Lemma yielded_skip itr l : yielded itr (skipZero itr l) = yielded itr l.
Proof.
  unfold yielded. induction l as [|e l IH]; [done|]. cbn [skipZero]. destruct (within itr e) eqn:Ew; [|done]. cbn [andb].
  destruct (kept itr e) eqn:Ek; [done|]. cbn [negb]. rewrite IH. symmetry. apply filter_cons_False. rewrite Ek. by intros [].
Qed.

(** Entries past the bound are not yielded. *)
Lemma yielded_past itr e l : bounded itr (e :: l) -> within itr e = false -> yielded itr (e :: l) = [].
Proof.
  intros [Hb _] Hw. unfold yielded. rewrite filter_cons_False by (rewrite Hw; by intros []).
  specialize (Hb Hw). induction Hb as [|x l Hx Hb IH]; [done|]. rewrite filter_cons_False by (rewrite Hx; by intros []). done.
Qed.

Lemma Next_todo fuel itr i e l :
  isInvalid itr = false -> stamped (itView i) -> todo (isReverse itr) i = e :: l -> within itr e = true -> (length l < fuel)%nat ->
  exists i', Next fuel itr i = Some i' /\ itView i' = itView i /\ todo (isReverse itr) i' = skipZero itr l.
Proof.
  intros Hi Hst El Hw Hf. pose proof (todo_head (isReverse itr) i) as Hh. rewrite El in Hh. destruct Hh as [Hp _].
  unfold Next. rewrite Valid_todo, El, Hw by done. cbn [negb]. fold (move (isReverse itr) i).
  pose proof (todo_move (isReverse itr) i Hp) as Em. rewrite El in Em. cbn [tail] in Em.
  assert (itView (move (isReverse itr) i) = itView i) as Ev by (unfold move; destruct (isReverse itr); [apply Prev_view|apply Next_view]).
  destruct (trySkip_todo fuel itr (move (isReverse itr) i)) as (i1 & E1 & V1 & T1); [done|by rewrite Ev|by rewrite Em|].
  exists i1. rewrite Em in T1. split_and!; [done|congruence|done].
Qed.

Lemma collect_todo fuel itr l i steps :
  isInvalid itr = false -> stamped (itView i) -> bounded itr l ->
  Forall (fun e => within itr e = true -> (length (itPrefix itr) <= length e.1.1)%nat) l ->
  todo (isReverse itr) i = skipZero itr l -> (length l < fuel)%nat -> (length l < steps)%nat ->
  collect fuel itr i steps = Some (pairOf itr <$> yielded itr l).
Proof.
  intros Hi. revert l i. induction steps as [|steps IH]; intros l i Hst Hb Hp Et Hf Hsteps; [lia|].
  rewrite <- yielded_skip. pose proof (bounded_skip itr l Hb) as Hb'. pose proof (skipZero_length itr l) as Hl.
  assert (Forall (fun e => within itr e = true -> (length (itPrefix itr) <= length e.1.1)%nat) (skipZero itr l)) as Hp'.
  { clear -Hp. induction Hp as [|e l He Hp IH]; cbn; [constructor|]. destruct (_ && _); [done|by constructor]. }
  pose proof (skipZero_head itr l) as Hk. pose proof (todo_head (isReverse itr) i) as Hh. pose proof (Valid_todo itr i Hi) as HV.
  rewrite Et in Hh, HV. destruct (skipZero itr l) as [|e l'] eqn:Es; cbn [collect]; rewrite HV; [done|].
  destruct (within itr e) eqn:Ew; cbn [negb]; [|by rewrite yielded_past].
  specialize (Hk eq_refl). destruct Hh as (_ & Ek & Ev & _).
  unfold Key, Value. rewrite HV, Ek, Ev. apply Forall_cons in Hp' as [He Hp']. specialize (He Ew).
  rewrite (proj2 (Nat.ltb_ge _ _)) by done. sbind. rewrite HV. sbind.
  destruct (Next_todo fuel itr i e l') as (i' & -> & Vi & Ti); [done..|cbn in Hl; lia|]. sbind.
  rewrite (IH l' i'); [|by rewrite Vi|by destruct Hb'|done|done|cbn in Hl; lia|cbn in Hl; lia]. sbind.
  unfold yielded at 2. rewrite filter_cons_True by done. done.
Qed.

(** ** Where an iterator starts *)

Lemma list_filter_all {A} (P : A -> Prop) `{!forall x, Decision (P x)} (l : list A) : (forall x, x ∈ l -> P x) -> filter P l = l.
Proof.
  induction l as [|x l IH]; intros Hl; [done|]. rewrite filter_cons_True by (apply Hl; by left).
  f_equal. apply IH. intros y Hy. apply Hl. by right.
Qed.

Lemma list_filter_none {A} (P : A -> Prop) `{!forall x, Decision (P x)} (l : list A) : (forall x, x ∈ l -> ~ P x) -> filter P l = [].
Proof.
  induction l as [|x l IH]; intros Hl; [done|]. rewrite filter_cons_False by (apply Hl; by left).
  apply IH. intros y Hy. apply Hl. by right.
Qed.

Lemma drop_filter {A} (P : A -> Prop) `{!forall x, Decision (P x)} (l : list A) n :
  (forall m x, (m < n)%nat -> l !! m = Some x -> ~ P x) -> (forall m x, (n <= m)%nat -> l !! m = Some x -> P x) ->
  drop n l = filter P l.
Proof.
  revert n. induction l as [|x l IH]; intros n H1 H2; [by destruct n|]. destruct n as [|n]; cbn [drop].
  - symmetry. apply list_filter_all. intros y [m Hm]%list_elem_of_lookup. by apply (H2 m); [lia|].
  - rewrite filter_cons_False by (apply (H1 0%nat); [lia|done]). apply IH.
    + intros m y Hm. apply (H1 (S m)). lia.
    + intros m y Hm. apply (H2 (S m)). lia.
Qed.

Lemma take_filter {A} (P : A -> Prop) `{!forall x, Decision (P x)} (l : list A) n :
  (forall m x, (m < n)%nat -> l !! m = Some x -> P x) -> (forall m x, (n <= m)%nat -> l !! m = Some x -> ~ P x) ->
  take n l = filter P l.
Proof.
  revert n. induction l as [|x l IH]; intros n H1 H2; [by destruct n|]. destruct n as [|n]; cbn [take].
  - symmetry. apply list_filter_none. intros y [m Hm]%list_elem_of_lookup. by apply (H2 m); [lia|].
  - rewrite filter_cons_True by (apply (H1 0%nat); [lia|done]). f_equal. apply IH.
    + intros m y Hm. apply (H1 (S m)). lia.
    + intros m y Hm. apply (H2 (S m)). lia.
Qed.

Definition key_lt (a b : entry) : Prop := a.1.1 <b b.1.1.

Lemma leb_le a b : bytes_leb a b = true <-> a <=b b.
Proof.
  unfold bytes_leb. destruct (bytes_ltb_spec b a) as [H|H]; cbn; [|by split].
  split; [done|]. intros Hle. exfalso. bytes_order.
Qed.

Lemma todo_forward i b :
  StronglySorted key_lt (itView i) ->
  todo false (itSeek b i) = filter (fun e : entry => bytes_leb b e.1.1 = true) (itView i).
Proof.
  intros Hs. unfold todo. rewrite Seek_view. pose proof (Seek_pos b i) as Hp. destruct (itPos (itSeek b i)) as [n|].
  - destruct Hp as [(e & En & He) Hlt]. apply drop_filter.
    + intros m x Hm Hx Hle. apply leb_le in Hle. specialize (Hlt m x Hm Hx). bytes_order.
    + intros m x Hm Hx. apply leb_le. destruct (decide (m = n)) as [->|]; [by simplify_eq|].
      pose proof (StronglySorted_lookup_lt _ _ n m _ _ Hs En Hx ltac:(lia)) as Hlt'. unfold key_lt in Hlt'. bytes_order.
  - symmetry. apply list_filter_none. intros x Hx Hle. apply leb_le in Hle. specialize (Hp x Hx). bytes_order.
Qed.

Lemma todo_reverse i en :
  StronglySorted key_lt (itView i) ->
  todo true (seekReverse (Some en) i) = reverse (filter (fun e : entry => bytes_ltb e.1.1 en = true) (itView i)).
Proof.
  intros Hs. unfold seekReverse. rewrite Valid_pos. pose proof (Seek_pos en i) as Hp.
  destruct (itPos (itSeek en i)) as [n|] eqn:En.
  - destruct Hp as [(e & Ee & He) Hlt]. destruct (at_pos _ _ En) as (k & v & u & El & Ek & _).
    rewrite Seek_view, Ee in El. simplify_eq. cbn in He. rewrite (proj2 (leb_le _ _)) by done.
    unfold todo. rewrite (Prev_pos _ _ En), Prev_view, Seek_view.
    assert (take n (itView i) = filter (fun e : entry => bytes_ltb e.1.1 en = true) (itView i)) as <-.
    { apply take_filter.
      - intros m x Hm Hx. specialize (Hlt m x Hm Hx). destruct (bytes_ltb_spec x.1.1 en) as [|Hge]; [done|]. bytes_order.
      - intros m x Hm Hx. destruct (bytes_ltb_spec x.1.1 en) as [Hxe|]; [|done]. exfalso.
        destruct (decide (m = n)) as [->|]; [simplify_eq; cbn in *; bytes_order|].
        pose proof (StronglySorted_lookup_lt _ _ n m _ _ Hs Ee Hx ltac:(lia)) as Hlt'. unfold key_lt in Hlt'. cbn in *. bytes_order. }
    by destruct n.
  - unfold todo. rewrite SeekToLast_pos, SeekToLast_view, Seek_view.
    assert (filter (fun e : entry => bytes_ltb e.1.1 en = true) (itView i) = itView i) as ->.
    { apply list_filter_all. intros x Hx. specialize (Hp x Hx). destruct (bytes_ltb_spec x.1.1 en) as [|Hge]; [done|]. bytes_order. }
    destruct (itView i) as [|e l] eqn:Ev; [done|]. cbn [length]. by rewrite take_ge by (cbn; lia).
Qed.

(** ** The range *)

Lemma bounded_sorted (R : entry -> entry -> Prop) itr l :
  (forall a b, R a b -> within itr a = false -> within itr b = false) -> StronglySorted R l -> bounded itr l.
Proof.
  intros HR. induction 1 as [|e l Hs IH Hf]; [done|]. split; [|done]. intros He.
  eapply Forall_impl; [exact Hf|]. intros x Hx. by eapply HR.
Qed.

Lemma StronglySorted_filter {A} (R : A -> A -> Prop) (P : A -> Prop) `{!forall x, Decision (P x)} (l : list A) :
  StronglySorted R l -> StronglySorted R (filter P l).
Proof.
  induction 1 as [|x l Hs IH Hf]; [constructor|]. destruct (decide (P x)) as [Hx|Hx].
  - rewrite filter_cons_True by done. constructor; [done|]. rewrite Forall_forall in Hf |- *.
    intros y [_ Hy]%list_elem_of_filter. auto.
  - by rewrite filter_cons_False.
Qed.

Lemma StronglySorted_reverse {A} (R : A -> A -> Prop) (l : list A) :
  StronglySorted R l -> StronglySorted (flip R) (reverse l).
Proof.
  induction 1 as [|x l Hs IH Hf]; [constructor|]. rewrite reverse_cons. apply StronglySorted_app_iff. split_and!; [done|repeat constructor|].
  intros a b Ha ->%list_elem_of_singleton. rewrite elem_of_reverse in Ha. rewrite Forall_forall in Hf. exact (Hf a Ha).
Qed.

(** Cutting off a common prefix keeps the order. *)
Lemma cut_sorted (R : bytes -> bytes -> Prop) p itr (l : list entry) :
  itPrefix itr = p -> (forall a b, R (p ++ a) (p ++ b) -> R a b) -> (forall e, e ∈ l -> exists s, e.1.1 = p ++ s) ->
  StronglySorted (fun a b => R a.1.1 b.1.1) l -> StronglySorted R (pairOf itr <$> l).*1.
Proof.
  intros Hp HR. induction l as [|e l IH]; intros Hall Hs; [constructor|]. apply StronglySorted_inv in Hs as [Hs Hf].
  cbn [fmap list_fmap]. constructor; [apply IH; [|done]; intros x Hx; apply Hall; by right|].
  rewrite Forall_forall in Hf. apply Forall_forall. intros k Hk. apply list_elem_of_fmap in Hk as (kv & -> & Hk).
  apply list_elem_of_fmap in Hk as (x & -> & Hx). cbn. rewrite Hp.
  destruct (Hall e) as [s Es]; [by left|]. destruct (Hall x) as [s' Es']; [by right|]. specialize (Hf x Hx).
  rewrite Es, Es' in Hf |- *. rewrite !drop_app_length. by apply HR.
Qed.

Lemma view_stamped d t : 0 <= t < 2 ^ 64 -> stamped (itView (NewIteratorCF d t)).
Proof.
  intros Ht. apply Forall_forall. intros [[k v] u] Hin. apply new_entries in Hin. cbn.
  destruct (db_get_newest d k t) as [[E _]|(w & x & Hw & _ & _ & E)]; rewrite E in Hin; [done|]. destruct x; simplify_eq/=. lia.
Qed.

Lemma readTimestamp_range version : 0 <= readTimestamp version < 2 ^ 64.
Proof. destruct version; cbn; [apply u64_range|lia]. Qed.

(** The entries an iterator starts with. *)
Definition initial (rev : bool) (b en : bytes) (l : list entry) : list entry :=
  if rev then reverse (filter (fun x : entry => bytes_ltb x.1.1 en = true) l)
  else filter (fun x : entry => bytes_leb b x.1.1 = true) l.

Lemma initial_length (rev : bool) b en l : (length (initial rev b en l) <= length l)%nat.
Proof. unfold initial. destruct rev; rewrite ?length_reverse; apply length_filter. Qed.

Lemma ltb_lt a b : bytes_ltb a b = true <-> a <b b.
Proof. destruct (bytes_ltb_spec a b) as [H|H]; split; try done. intros Hlt. exfalso. bytes_order. Qed.

Lemma initial_range p (rev : bool) skip b en l (x : entry) :
  x ∈ initial rev b en l /\ within (mkIter p (Some b) (Some en) rev false skip) x = true <->
  x ∈ l /\ b <=b x.1.1 /\ x.1.1 <b en.
Proof.
  unfold initial, within. cbn [isReverse itStart itEnd]. fold (bytes_leb b x.1.1). destruct rev.
  - rewrite elem_of_reverse, list_elem_of_filter, ltb_lt, leb_le. tauto.
  - rewrite list_elem_of_filter, ltb_lt, leb_le. tauto.
Qed.

Lemma initial_yields p (rev : bool) skip b en l (x : entry) :
  x ∈ yielded (mkIter p (Some b) (Some en) rev false skip) (initial rev b en l) <->
  x ∈ l /\ b <=b x.1.1 /\ x.1.1 <b en /\ negb (skip && (x.2 =? 0)) = true.
Proof.
  unfold yielded. rewrite list_elem_of_filter. pose proof (initial_range p rev skip b en l x). unfold kept. cbn [skipVersionZero]. tauto.
Qed.

Lemma initial_sorted (rev : bool) (b en : bytes) l : StronglySorted key_lt l ->
  StronglySorted (fun x y : entry => (if rev then flip bytes_lt else bytes_lt) x.1.1 y.1.1) (initial rev b en l).
Proof.
  intros Hs. unfold initial. destruct rev.
  - by apply (StronglySorted_reverse key_lt), StronglySorted_filter.
  - by apply (StronglySorted_filter key_lt).
Qed.

Lemma initial_bounded p (rev : bool) skip b en l :
  StronglySorted key_lt l -> bounded (mkIter p (Some b) (Some en) rev false skip) (initial rev b en l).
Proof.
  intros Hs. eapply bounded_sorted; [|by apply initial_sorted]. intros x y. unfold within. cbn. destruct rev; cbn.
  - intros Hlt Hx%negb_false_iff%ltb_lt. apply negb_false_iff, ltb_lt. bytes_order.
  - intros Hlt Hx. destruct (bytes_ltb_spec x.1.1 en); [done|]. destruct (bytes_ltb_spec y.1.1 en); [exfalso; bytes_order|done].
Qed.

(** The number of keys of the database at a version, for the fuel of the loops. *)
Definition count d (version : option Z) : nat := length (itView (NewIteratorCF d (readTimestamp version))).

(** What the loop over an iterator of a store sees. *)
Lemma iterator_collects skip d store start end_ version rev :
  start <> Some [] -> end_ <> Some [] ->
  exists l, (forall fuel, (count d version < fuel)%nat ->
      exists itr source, iteratorAtVersion fuel skip d store start end_ version rev = Some (Ok (itr, source)) /\
        itView source = itView (NewIteratorCF d (readTimestamp version)) /\ collect fuel itr source fuel = Some l) /\
    StronglySorted (if rev then flip bytes_lt else bytes_lt) l.*1 /\
    forall k x, (k, x) ∈ l <-> GetAtVersion skip d store k version = Some x /\
      default [] start <=b k /\ (forall en, end_ = Some en -> k <b en).
Proof.
  intros Hst Hen. unfold iteratorAtVersion, count. rewrite !bool_decide_false by done. cbn [orb].
  destruct (iterateWithPrefix_exact store start end_) as (b & en & -> & Hrange). sbind.
  set (t := readTimestamp version) in *. set (i0 := NewIteratorCF d t) in *.
  pose proof (new_sorted d t : StronglySorted key_lt (itView i0)) as Hs.
  unfold newRocksDBIterator. set (itr := mkIter _ _ _ _ _ _). set (src := if rev then _ else _).
  assert (itView src = itView i0 /\ todo rev src = initial rev b en (itView i0)) as [Ev Et].
  { unfold src, initial. destruct rev; cbn [seekForward].
    - split; [|by apply todo_reverse]. unfold seekReverse. destruct (itValid _); [destruct (bytes_leb _ _)|];
        by rewrite ?Prev_view, ?SeekToLast_view, ?Seek_view.
    - split; [apply Seek_view|by apply todo_forward]. }
  pose proof (initial_length rev b en (itView i0)) as Hl. set (L := initial rev b en (itView i0)) in *.
  assert (stamped (itView src)) as Hts by (rewrite Ev; apply view_stamped, readTimestamp_range).
  assert (forall x : entry, x ∈ L -> within itr x = true -> exists s, x.1.1 = storePrefix store ++ s) as Hpre.
  { intros x Hx Hw. destruct (proj1 (initial_range (storePrefix store) rev skip b en (itView i0) x)) as (_ & Hr); [done|].
    destruct (proj1 (Hrange x.1.1)) as (s & E & _); eauto. }
  exists (pairOf itr <$> yielded itr L). split; [|split].
  - intros fuel Hf. destruct (trySkip_todo fuel itr src) as (src' & -> & Ev' & Et'); [done|done|cbn; rewrite Et; lia|]. sbind.
    change (isReverse itr) with rev in Et'. rewrite Et in Et'. eexists itr, src'. split; [done|]. split; [congruence|].
    apply (collect_todo fuel itr L); [done|by rewrite Ev'|by apply initial_bounded| |done|lia|lia].
    apply Forall_forall. intros x Hx Hw. destruct (Hpre x Hx Hw) as [s ->]. cbn [itPrefix itr]. rewrite length_app. lia.
  - apply (cut_sorted _ (storePrefix store)); [done| | |].
    + intros x y. destruct rev; unfold flip, bytes_lt; by rewrite compare_app.
    + intros x [[Hw _] Hx]%list_elem_of_filter. by apply Hpre.
    + apply StronglySorted_filter. by apply initial_sorted.
  - intros k x. rewrite list_elem_of_fmap. unfold GetAtVersion. fold t. split.
    + intros ([[key v] u] & E & (Hin & H1 & H2 & Hk)%initial_yields). apply new_entries in Hin.
      unfold pairOf in E. cbn [fst snd itPrefix itr] in *. destruct (proj1 (Hrange key)) as (s & -> & Hr); [done|]. rewrite drop_app_length in E. simplify_eq.
      unfold prependStoreKey. rewrite Hin. apply negb_true_iff in Hk. by rewrite Hk.
    + intros [Hg Hr]. destruct (db_get d (prependStoreKey store k) t) as [[v u]|] eqn:E; [|done].
      destruct (skip && (u =? 0)) eqn:Ez; [done|]. simplify_eq. exists (prependStoreKey store k, x, u). split.
      * unfold pairOf, prependStoreKey. cbn [fst snd itPrefix itr]. by rewrite drop_app_length.
      * apply initial_yields. cbn [fst snd]. rewrite Ez. destruct (proj2 (Hrange (prependStoreKey store k))) as [H1 H2]; [by exists k|].
        split_and!; [by apply new_entries|done..].
Qed.

End Yields.

(** ** The store of the SDK: [versiondb/store.go] *)
Section KVStore.
Context {D I : Type} {TD : TSDB D} {TI : TSIter D I}.

(** The [tsrocksdb.Store] it reads from, the name of the store, the version. *)
Record Store := mkStore { stDB : D; stSkip : bool; stName : string; stVersion : option Z }.

Definition NewKVStore (d : D) (skip : bool) (storeKey : string) (version : option Z) : Store := mkStore d skip storeKey version.

Definition Get (st : Store) (key : bytes) : option bytes := GetAtVersion (stSkip st) (stDB st) (stName st) key (stVersion st).
Definition Has (st : Store) (key : bytes) : bool := HasAtVersion (stSkip st) (stDB st) (stName st) key (stVersion st).

(** An error is a panic. *)
Definition orThrow {A} (r : option (result A)) : option A := r ← r; match r with Ok a => Some a | Err _ => None end.

Definition Iterator (fuel : nat) (st : Store) (start end_ : option bytes) : option (rocksDBIterator * I) :=
  orThrow (IteratorAtVersion fuel (stSkip st) (stDB st) (stName st) start end_ (stVersion st)).

Definition ReverseIterator (fuel : nat) (st : Store) (start end_ : option bytes) : option (rocksDBIterator * I) :=
  orThrow (ReverseIteratorAtVersion fuel (stSkip st) (stDB st) (stName st) start end_ (stVersion st)).

(** Writes panic. *)
Definition Set_ (st : Store) (key value : bytes) : option Store := None.
Definition Delete_ (st : Store) (key : bytes) : option Store := None.

(** The loop of a client. *)
Definition pairs (fuel : nat) (it : option (rocksDBIterator * I)) : option (list (bytes * bytes)) :=
  '(itr, source) ← it; collect fuel itr source fuel.
End KVStore.

Section Reads.
Context {D I : Type} {TD : TSDB D} {TL : TSDBLaws D} {TI : TSIter D I} {TM : TSIterModel I} {IL : TSIterLaws D I}.

(** C34: Iterating over a store at a version yields exactly the pairs with keys in the range
    that the change sets up to this version leave, each once, in ascending order, and the
    reverse iterator the same in descending order; no key of another store, no deleted key
    and no later version is seen, skipping version zero or not, and the loop ends. *)
Theorem versiondb_iterates hist (d : D) skip store start end_ v :
  written hist d -> plain_name store -> 0 <= v < 2 ^ 63 -> start <> Some [] -> end_ <> Some [] ->
  let st := NewKVStore d skip store (Some v) in
  exists l l', (forall fuel, (count (I := I) d (Some v) < fuel)%nat -> pairs fuel (Iterator (I := I) fuel st start end_) = Some l /\
      pairs fuel (ReverseIterator (I := I) fuel st start end_) = Some l') /\
    StronglySorted bytes_lt l.*1 /\ StronglySorted (flip bytes_lt) l'.*1 /\
    forall k x, ((k, x) ∈ l <-> (k, x) ∈ l') /\
      ((k, x) ∈ l <-> valueAt hist v store k = Some x /\ default [] start <=b k /\ (forall en, end_ = Some en -> k <b en)).
Proof.
  intros Hw Hst Hv Hs He st.
  assert (forall k, GetAtVersion skip d store k (Some v) = valueAt hist v store k) as Hg.
  { intros k. rewrite (GetAtVersion_valueAt hist) by done. cbn. by rewrite u64_id by lia. }
  destruct (iterator_collects skip d store start end_ (Some v) false) as (l & Hl & Sl & Ml); [done..|].
  destruct (iterator_collects skip d store start end_ (Some v) true) as (l' & Hl' & Sl' & Ml'); [done..|].
  exists l, l'. split; [|split; [done|split; [done|]]].
  - intros fuel Hf. destruct (Hl fuel Hf) as (itr & src & E & _ & C). destruct (Hl' fuel Hf) as (itr' & src' & E' & _ & C').
    unfold pairs, Iterator, ReverseIterator, orThrow, IteratorAtVersion, ReverseIteratorAtVersion. cbn [stSkip stDB stName stVersion st NewKVStore].
    rewrite E, E'. done.
  - intros k x. rewrite Ml, Ml', Hg. done.
Qed.
End Reads.

(** ** The listener: [versiondb/streaming_service.go] *)
Section Streaming.
Context {D : Type} {TD : TSDB D}.

Record StreamingService := mkService { versionStore : D; currentBlockNumber : Z }.

Definition NewStreamingService (d : D) : StreamingService := mkService d 0.

Definition ListenFinalizeBlock (height : Z) (fss : StreamingService) : StreamingService := mkService (versionStore fss) height.

Definition ListenCommit (changeSet : list StoreKVPair) (fss : StreamingService) : result StreamingService :=
  d ← PutAtVersion (versionStore fss) (currentBlockNumber fss) changeSet;
  Ok (mkService d (currentBlockNumber fss)).

(** One block after the other. *)
Definition listenBlocks (blocks : list (Z * list StoreKVPair)) (fss : StreamingService) : result StreamingService :=
  foldM (fun fss b => ListenCommit b.2 (ListenFinalizeBlock b.1 fss)) fss blocks.

Lemma listenBlocks_written blocks hist d fss n :
  written hist d -> listenBlocks blocks (mkService d n) = Ok fss ->
  StronglySorted Z.lt (hist ++ blocks).*1 -> Forall (fun b => 1 <= b.1 < 2 ^ 63 /\ Forall (fun p => plain_name (spStore p)) b.2) blocks ->
  written (hist ++ blocks) (versionStore fss).
Proof.
  revert hist d n. induction blocks as [|[v cs] blocks IH]; intros hist d n Hw; cbn [listenBlocks foldM].
  - intros [= <-] _ _. by rewrite app_nil_r.
  - unfold ListenCommit, ListenFinalizeBlock. cbn [versionStore currentBlockNumber fst snd].
    destruct (PutAtVersion d v cs) as [d'|] eqn:E; sbind; [|done]. intros Hrun Hs [[Hv Hcs] Hbs]%Forall_cons.
    rewrite cons_middle, app_assoc in Hs |- *. apply (IH _ d' v); [|done|done|done].
    apply (written_put hist d); [done| |done|done|done]. apply Forall_forall. intros x Hx.
    rewrite !fmap_app in Hs. apply StronglySorted_app_iff in Hs as (Hs & _ & _). apply StronglySorted_app_iff in Hs as (_ & _ & Hs).
    apply Hs; [|by left]. apply list_elem_of_fmap. eauto.
Qed.
End Streaming.

(** ** The stores of a version: [versiondb/multistore.go]

    A store key is its name.  [ParentStore] are the stores of the parent, for transient and
    memory stores. *)
Section MultiStores.
Context {D : Type} {TD : TSDB D} {ParentStore : Type}.

Record MultiStore := mkMultiStore {
  versionDB : D;
  msSkip : bool;
  msStores : gmap string (Store (D := D));
  delegatedStoreKeys : gset string;
  msParent : string -> ParentStore
}.

Definition NewMultiStore (parent : string -> ParentStore) (d : D) (skip : bool) (storeKeys : list string) (delegated : gset string) : MultiStore :=
  mkMultiStore d skip (foldl (fun m k => <[k := NewKVStore d skip k None]> m) ∅ storeKeys) delegated parent.

(** The map of stores of the branch, by its lookup: the versioned stores are entered last. *)
Definition cacheMultiStore (s : MultiStore) (version : option Z) (k : string) : option (ParentStore + Store (D := D)) :=
  match msStores s !! k with
  | Some st => Some (inr match version with None => st | Some _ => NewKVStore (versionDB s) (msSkip s) k version end)
  | None => if bool_decide (k ∈ delegatedStoreKeys s) then Some (inl (msParent s k)) else None
  end.

Definition CacheMultiStore (s : MultiStore) := cacheMultiStore s None.
Definition CacheMultiStoreWithVersion (s : MultiStore) (version : Z) := cacheMultiStore s (Some version).

(** [None] is the panic on a key that is not registered. *)
Definition GetStore (s : MultiStore) (k : string) : option (ParentStore + Store (D := D)) :=
  match msStores s !! k with
  | Some st => Some (inr st)
  | None => if bool_decide (k ∈ delegatedStoreKeys s) then Some (inl (msParent s k)) else None
  end.

Definition LatestVersion (s : MultiStore) : option Z := GetLatestVersion (versionDB s).

Lemma NewMultiStore_lookup parent d skip storeKeys delegated k :
  msStores (NewMultiStore parent d skip storeKeys delegated) !! k = if decide (k ∈ storeKeys) then Some (NewKVStore d skip k None) else None.
Proof.
  unfold NewMultiStore. cbn [msStores]. induction storeKeys as [|x l IH] using rev_ind.
  - rewrite decide_False by apply not_elem_of_nil. apply lookup_empty.
  - rewrite foldl_app. cbn [foldl]. destruct (decide (x = k)) as [->|Hne].
    + rewrite lookup_insert_eq, decide_True by set_solver. done.
    + rewrite lookup_insert_ne, IH by done. by destruct (decide (k ∈ l)), (decide (k ∈ l ++ [x])); try set_solver.
Qed.

(** A branch at a version reads the state of that version, whatever was written later. *)
Lemma historical_read hist parent d skip storeKeys delegated k v key {TL : TSDBLaws D} :
  written hist d -> plain_name k -> 0 <= v < 2 ^ 63 -> k ∈ storeKeys ->
  exists st, CacheMultiStoreWithVersion (NewMultiStore parent d skip storeKeys delegated) v k = Some (inr st) /\
    Get st key = valueAt hist v k key.
Proof.
  intros Hw Hk Hv Hin. unfold CacheMultiStoreWithVersion, cacheMultiStore. rewrite NewMultiStore_lookup, decide_True by done.
  eexists. split; [done|]. unfold Get. cbn [stSkip stDB stName stVersion NewKVStore]. rewrite (GetAtVersion_valueAt hist) by done.
  cbn. by rewrite u64_id by lia.
Qed.
End MultiStores.
(** ** Import and repair: [store.go] *)
Section Repair.
Context {D I : Type} {TD : TSDB D} {TI : TSIter D I}.

Record ImportEntry := mkImport { imStore : string; imKey : bytes; imValue : bytes }.

Definition ImportCommitBatchSize : Z := 10000.

(** The loop over the channel, with the batch and the counter. *)
Fixpoint importLoop (version : Z) (entries : list ImportEntry) (counter : Z) (batch : list dbOp) (d : D) : result (D * list dbOp) :=
  match entries with
  | [] => Ok (d, batch)
  | entry :: entries =>
      let key := storePrefix (imStore entry) ++ imKey entry in
      let batch := batch ++ [OpPut key (u64 version) (imValue entry)] in
      let counter := counter + 1 in
      if counter mod ImportCommitBatchSize =? 0
      then d ← db_write d batch; importLoop version entries counter [] d
      else importLoop version entries counter batch d
  end.

Definition Import (version : Z) (entries : list ImportEntry) (d : D) : result D :=
  '(d, batch) ← importLoop version entries 0 [] d;
  d ← (if Nat.ltb 0 (length batch) then db_write d batch else Ok d);
  SetLatestVersion d version.

Record KVPairWithTS := mkWrong { wKey : bytes; wValue : bytes; wTimestamp : bytes }.

Definition tsSize : nat := 8.

Fixpoint loadLoop (fuel : nat) (itr : rocksDBIterator) (source : I) (steps : nat) : option (result (list KVPairWithTS)) :=
  match steps with
  | O => None
  | S steps =>
      let '(itr, ok) := Valid itr source in
      if negb ok then Some (Ok [])
      else
        '(itr, ts) ← Timestamp itr source;
        ts ← Uint64 ts;
        if negb (ts =? 0) then
          source ← Next fuel itr source;
          loadLoop fuel itr source steps
        else
          '(itr, key) ← Key itr source;
          if Nat.ltb (length key) tsSize then Some (Err "invalid key length")
          else
            let ts := drop (length key - tsSize) key in
            let key := take (length key - tsSize) key in
            '(itr, value) ← Value itr source;
            source ← Next fuel itr source;
            rest ← loadLoop fuel itr source steps;
            Some (rest ← rest; Ok (mkWrong key value ts :: rest))
  end.

Definition loadWrongData (fuel : nat) (skip : bool) (d : D) (storeName : string) : option (result (list KVPairWithTS)) :=
  itr ← IteratorAtVersion (I := I) fuel skip d storeName None None (Some 0);
  match itr with
  | Err e => Some (Err e)
  | Ok (itr, source) => loadLoop fuel itr source fuel
  end.

(** The entry that repairs a pair, none when it is there already.  A key that is not found
    has neither data nor a timestamp. *)
Definition fixPair (d : D) (storeName : string) (pair : KVPairWithTS) : option (list dbOp) :=
  let realKey := storePrefix storeName ++ wKey pair in
  ts ← Uint64 (wTimestamp pair);
  let old := db_get d realKey ts in
  let oldValue := match old with Some (v, _) => v | None => [] end in
  let oldTimestamp := match old with Some (_, u) => PutUint64 u | None => [] end in
  if bytes_eqb oldValue (wValue pair) && bytes_eqb oldTimestamp (wTimestamp pair) then Some []
  else Some [OpPut realKey ts (wValue pair)].

Fixpoint fixPairs (d : D) (storeName : string) (pairs : list KVPairWithTS) : option (list dbOp) :=
  match pairs with
  | [] => Some []
  | p :: pairs => op ← fixPair d storeName p; ops ← fixPairs d storeName pairs; Some (op ++ ops)
  end.

Definition fixDataStore (fuel : nat) (skip : bool) (storeName : string) (dryRun : bool) (d : D) : option (result D) :=
  pairs ← loadWrongData fuel skip d storeName;
  match pairs with
  | Err e => Some (Err e)
  | Ok pairs =>
      ops ← fixPairs d storeName pairs;
      Some (if dryRun then Ok d else db_write d ops)
  end.

Fixpoint fixStores (fuel : nat) (skip : bool) (storeNames : list string) (dryRun : bool) (d : D) : option (result D) :=
  match storeNames with
  | [] => Some (Ok d)
  | storeName :: storeNames =>
      r ← fixDataStore fuel skip storeName dryRun d;
      match r with
      | Err e => Some (Err e)
      | Ok d => fixStores fuel skip storeNames dryRun d
      end
  end.

Definition FixData (fuel : nat) (skip : bool) (storeNames : list string) (dryRun : bool) (d : D) : option (result D) :=
  r ← fixStores fuel skip storeNames dryRun d;
  match r with
  | Err e => Some (Err e)
  | Ok d => if dryRun then Some (Ok d) else Some (db_Flush d)
  end.
End Repair.

(** ** What the repair does *)
Section Repaired.
Context {D I : Type} {TD : TSDB D} {TL : TSDBLaws D} {TI : TSIter D I} {TM : TSIterModel I} {IL : TSIterLaws D I}.
Implicit Types (d : D).

(** The import in batches is one write. *)
Lemma importLoop_entries version entries counter batch d d' rest k t :
  importLoop version entries counter batch d = Ok (d', rest) ->
  foldl (opEntry k t) (db_entry d' k t) rest =
  foldl (opEntry k t) (foldl (opEntry k t) (db_entry d k t) batch)
    ((fun e => OpPut (storePrefix (imStore e) ++ imKey e) (u64 version) (imValue e)) <$> entries) /\
  foldl opPlain (db_plain d') rest = foldl opPlain (db_plain d) batch.
Proof.
  revert counter batch d. induction entries as [|e entries IH]; intros counter batch d; cbn [importLoop].
  - by intros [= <- <-].
  - destruct (_ =? 0).
    + destruct (db_write d _) as [d1|] eqn:E1; sbind; [|done]. intros [He Hp]%IH.
      rewrite (db_write_entry _ _ _ _ _ E1), foldl_app in He. rewrite (db_write_plain _ _ _ E1), foldl_app in Hp. done.
    + intros [He Hp]%IH. rewrite foldl_app in He. rewrite foldl_app in Hp. done.
Qed.

Lemma Import_entries version entries d d' :
  Import version entries d = Ok d' ->
  (forall k t, db_entry d' k t = foldl (opEntry k t) (db_entry d k t)
     ((fun e => OpPut (storePrefix (imStore e) ++ imKey e) (u64 version) (imValue e)) <$> entries)) /\
  db_plain d' = Some (PutUint64 (u64 version)).
Proof.
  unfold Import, SetLatestVersion. destruct (importLoop version entries 0 [] d) as [[d1 batch]|] eqn:E1; sbind; [|done].
  intros H.
  destruct (if Nat.ltb 0 (length batch) then db_write d1 batch else Ok d1) as [d2|] eqn:E2; [|done]. cbn in H.
  split.
  - intros k t. rewrite (db_write_entry _ _ _ _ _ H). cbn [foldl opEntry].
    destruct (importLoop_entries _ _ _ _ _ _ _ k t E1) as [He _]. cbn [foldl] in He. rewrite <- He.
    destruct batch as [|op batch]; cbn in E2; [by injection E2 as ->|]. by rewrite (db_write_entry _ _ _ _ _ E2).
  - by rewrite (db_write_plain _ _ _ H).
Qed.

Lemma Import_correct version entries d d' d'' :
  Import version entries d = Ok d' ->
  PutAtVersion d version ((fun e => mkStorePair (imStore e) false (imKey e) (imValue e)) <$> entries) = Ok d'' ->
  (forall k t, db_entry d' k t = db_entry d'' k t) /\ db_plain d' = db_plain d''.
Proof.
  intros [He Hp]%Import_entries Hput. unfold PutAtVersion in Hput. split.
  - intros k t. rewrite He, (db_write_entry _ _ _ _ _ Hput). cbn [foldl opEntry]. by rewrite <- list_fmap_compose.
  - rewrite Hp, (db_write_plain _ _ _ Hput). cbn [foldl opPlain].
    symmetry. generalize (PutUint64 (u64 version)) as x. intros x. clear. induction entries as [|e entries IH]; [done|exact IH].
Qed.

(** The loop of [loadWrongData] is the loop over the pairs. *)
Definition wrongOf (kv : bytes * bytes) : KVPairWithTS :=
  mkWrong (take (length kv.1 - tsSize) kv.1) kv.2 (drop (length kv.1 - tsSize) kv.1).

Lemma Valid_true itr (i : I) itr' : Valid itr i = (itr', true) -> itr' = itr /\ is_Some (itPos i).
Proof.
  unfold Valid. rewrite Valid_pos. destruct (isInvalid itr); [done|]. destruct (itErr i); [done|].
  destruct (itPos i); cbn; [|done]. intros H. split; [|eauto]. repeat case_match; by simplify_eq.
Qed.

Lemma trySkip_view fuel itr (i i' : I) : trySkipZeroVersion fuel itr i = Some i' -> itView i' = itView i.
Proof.
  revert itr i i'. induction fuel as [|fuel IH]; intros itr i i'; cbn [trySkipZeroVersion]; (destruct (negb _); [by intros [= <-]|]); [done|].
  destruct (Valid itr i) as [itr1 ok]. destruct (negb ok); [by intros [= <-]|].
  destruct (timestamp i) as [ts|]; sbind; [|done]. destruct (negb _); [by intros [= <-]|].
  destruct (Valid itr1 i) as [itr2 ok2]. destruct (negb ok2); [done|].
  destruct (trySkipZeroVersion fuel itr1 _) as [j|] eqn:E; sbind; [|done]. intros ->%IH. apply IH in E as ->.
  destruct (isReverse itr1); [apply Prev_view|apply Next_view].
Qed.

Lemma Next_keeps fuel itr (i i' : I) : Next fuel itr i = Some i' -> itView i' = itView i.
Proof.
  unfold Next. destruct (Valid itr i) as [c ok]. destruct (negb ok); [done|]. intros ->%trySkip_view.
  destruct (isReverse c); [apply Prev_view|apply Next_view].
Qed.

Lemma loadLoop_collect fuel itr (i : I) steps l :
  (forall e : entry, e ∈ itView i -> e.2 = 0) ->
  collect fuel itr i steps = Some l -> Forall (fun kv => (tsSize <= length kv.1)%nat) l ->
  loadLoop fuel itr i steps = Some (Ok (wrongOf <$> l)).
Proof.
  revert i l. induction steps as [|steps IH]; intros i l Hz; [done|]. cbn [collect loadLoop].
  destruct (Valid itr i) as [itr' ok] eqn:EV. destruct ok; cbn [negb]; [|by intros [= <-]].
  pose proof (Valid_true _ _ _ EV) as [-> [p Hp]]. destruct (at_pos i p Hp) as (k & v & u & El & Hk & Hv & Ht).
  assert (u = 0) as -> by (apply (Hz (k, v, u)), list_elem_of_lookup; eauto).
  unfold Timestamp, Value, Key. rewrite !EV. sbind. rewrite Ht. change (Uint64 (PutUint64 0)) with (Some 0). sbind. cbn [Z.eqb negb].
  destruct (Nat.ltb (length (itKey i)) (length (itPrefix itr))) eqn:Epre; [done|]. sbind. rewrite EV. sbind.
  destruct (Next fuel itr i) as [i'|] eqn:En; sbind; [|done]. destruct (collect fuel itr i' steps) as [rest|] eqn:Ec; sbind; [|done].
  intros [= <-] [Hl Hls]%Forall_cons. cbn [fst] in Hl. rewrite Epre. sbind.
  rewrite (proj2 (Nat.ltb_ge _ _)) by done. rewrite EV. sbind. rewrite En. sbind.
  rewrite (IH i' rest); [|by rewrite (Next_keeps _ _ _ _ En)|done|done]. sbind. done.
Qed.

Lemma le_val_inj a b : length a = length b -> le_val a = le_val b -> a = b.
Proof.
  revert b. induction a as [|x a IH]; intros [|y b] Hl; try done. intros E.
  change (byte_to_Z x + 256 * le_val a = byte_to_Z y + 256 * le_val b) in E.
  pose proof (byte_to_Z_range x). pose proof (byte_to_Z_range y).
  assert (byte_to_Z x = byte_to_Z y /\ le_val a = le_val b) as [Ex Ea] by lia.
  apply (inj byte_to_Z) in Ex as ->. f_equal. by apply IH; [injection Hl|].
Qed.

Lemma Uint64_8 ts : length ts = tsSize -> Uint64 ts = Some (le_val ts).
Proof. intros Hl. unfold Uint64. rewrite Hl. cbn [Nat.ltb Nat.leb tsSize]. by rewrite take_ge by (rewrite Hl; done). Qed.

Lemma le_val_range ts : length ts = tsSize -> 0 <= le_val ts < 2 ^ 64.
Proof.
  intros Hl. assert (forall b, 0 <= le_val b < 256 ^ Z.of_nat (length b)) as H.
  { induction b as [|x b IH]; [done|]. change (le_val (x :: b)) with (byte_to_Z x + 256 * le_val b). cbn [length].
    pose proof (byte_to_Z_range x).
    rewrite Nat2Z.inj_succ, Z.pow_succ_r by lia. lia. }
  specialize (H ts). rewrite Hl in H. exact H.
Qed.

Lemma PutUint64_val ts : length ts = tsSize -> PutUint64 (le_val ts) = ts.
Proof.
  intros Hl. apply le_val_inj; [by rewrite length_PutUint64|]. unfold PutUint64. rewrite le_val_bytes.
  apply Z.mod_small, le_val_range, Hl.
Qed.

(** A key of the store that ends with a timestamp and was written at version zero. *)
Definition wrong d (store : string) (p : KVPairWithTS) : Prop :=
  length (wTimestamp p) = tsSize /\ exists u, db_get d (storePrefix store ++ wKey p ++ wTimestamp p) 0 = Some (wValue p, u).

(** Whatever the store has at version zero is such a key, of a later version. *)
Definition repairable d (store : string) : Prop :=
  forall key x u, db_get d (storePrefix store ++ key) 0 = Some (x, u) ->
    (tsSize <= length key)%nat /\ le_val (drop (length key - tsSize) key) <> 0.

Lemma zero_view d k v u : (k, v, u) ∈ itView (NewIteratorCF d (readTimestamp (Some 0))) -> u = 0.
Proof.
  intros Hin%new_entries. change (readTimestamp (Some 0)) with 0 in Hin.
  destruct (db_get_newest d k 0) as [[E _]|(w & x & Hw & _ & _ & E)]; rewrite E in Hin; [done|]. destruct x; simplify_eq/=. lia.
Qed.

Lemma loadWrongData_ok d store : repairable d store ->
  exists ps, (forall fuel, (count (I := I) d (Some 0%Z) < fuel)%nat -> loadWrongData (I := I) fuel false d store = Some (Ok ps)) /\
    forall p, p ∈ ps <-> wrong d store p.
Proof.
  intros Hr. destruct (iterator_collects false d store None None (Some 0) false) as (l & Hl & _ & Ml); [done..|].
  assert (forall k x, (k, x) ∈ l <-> exists u, db_get d (storePrefix store ++ k) 0 = Some (x, u)) as Hm.
  { intros k x. rewrite Ml. unfold GetAtVersion, prependStoreKey. change (readTimestamp (Some 0)) with 0. cbn [andb].
    destruct (db_get d (storePrefix store ++ k) 0) as [[v u]|]; [|naive_solver]. split.
    - intros [[= ->] _]. eauto.
    - intros [u' [= -> ->]]. split; [done|]. split; [by destruct k|done]. }
  assert (Forall (fun kv => (tsSize <= length kv.1)%nat) l) as Hlen.
  { apply Forall_forall. intros [k x] [u Hu]%Hm. by apply (Hr k x u). }
  exists (wrongOf <$> l). split.
  - intros fuel Hf. destruct (Hl fuel Hf) as (itr & src & E & Ev & C). unfold loadWrongData, IteratorAtVersion. rewrite E. sbind.
    apply loadLoop_collect; [|done|done]. rewrite Ev. intros [[k v] u] Hin. by apply (zero_view d k v u).
  - intros [k x ts]. rewrite list_elem_of_fmap. unfold wrong. cbn [wKey wValue wTimestamp]. split.
    + intros ([k' x'] & E & Hin). unfold wrongOf in E. cbn [fst snd] in E. simplify_eq.
      rewrite Forall_forall in Hlen. specialize (Hlen _ Hin). cbn in Hlen. split; [rewrite length_drop; lia|].
      rewrite take_drop. by apply Hm.
    + intros [Hts Hu%Hm]. exists (k ++ ts, x). split; [|done]. unfold wrongOf. cbn [fst snd]. rewrite length_app, Hts.
      replace (length k + tsSize - tsSize)%nat with (length k) by lia. by rewrite take_app_length, drop_app_length.
Qed.

(** ** Repaired entries *)

Definition puts (ops : list dbOp) : Prop := Forall (fun op => match op with OpPut _ _ _ => True | _ => False end) ops.

Lemma entry_untouched K t ops acc : puts ops -> (forall y, OpPut K t y ∉ ops) -> foldl (opEntry K t) acc ops = acc.
Proof.
  intros Hp. revert acc. induction Hp as [|op ops Ho Hp IH]; intros acc Hn; [done|]. cbn [foldl].
  destruct op as [k u v| |]; [|done..]. cbn [opEntry]. rewrite bool_decide_false by (intros [-> ->]; apply (Hn v); by left).
  apply IH. intros y Hy. apply (Hn y). by right.
Qed.

Lemma entry_written K t x ops acc :
  puts ops -> (forall y, OpPut K t y ∈ ops -> y = x) -> OpPut K t x ∈ ops \/ acc = Some (Some x) ->
  foldl (opEntry K t) acc ops = Some (Some x).
Proof.
  intros Hp. revert acc. induction Hp as [|op ops Ho Hp IH]; intros acc Hx Hin; [by destruct Hin as [?%not_elem_of_nil|]|].
  cbn [foldl]. destruct op as [k u v| |]; [|done..]. cbn [opEntry].
  assert (forall y, OpPut K t y ∈ ops -> y = x) as Hx' by (intros y Hy; apply Hx; by right). case_bool_decide as E.
  - destruct E as [-> ->]. assert (v = x) as -> by (apply Hx; by left). apply IH; auto.
  - apply IH; [done|]. destruct Hin as [[Heq|]%elem_of_cons|]; [|auto..]. simplify_eq. by destruct E.
Qed.

Lemma get_of_entry d K u x : 0 <= u -> db_entry d K u = Some (Some x) -> db_get d K u = Some (x, u).
Proof.
  intros Hu E. eapply newest_unique; [apply db_get_newest|]. right. exists u, (Some x). split_and!; [lia|lia|done| |done].
  intros w Hw. lia.
Qed.

Lemma entry_of_get d K u x : db_get d K u = Some (x, u) -> db_entry d K u = Some (Some x).
Proof.
  intros E. destruct (db_get_newest d K u) as [[E' _]|(w & y & Hw & Ey & _ & E')]; rewrite E in E'; [done|].
  destruct y; simplify_eq/=. done.
Qed.

Lemma wrong_unique d store p q :
  wrong d store p -> wrong d store q -> wKey p = wKey q -> le_val (wTimestamp p) = le_val (wTimestamp q) -> wValue q = wValue p.
Proof.
  intros (Lp & u & Ep) (Lq & u' & Eq) Ek Et. apply le_val_inj in Et; [|congruence]. rewrite Ek, Et in Ep. congruence.
Qed.

Lemma repairable_later d store p : repairable d store -> wrong d store p -> le_val (wTimestamp p) <> 0.
Proof.
  intros Hr (Hl & u & E). destruct (Hr _ _ _ E) as [_ Hne]. rewrite length_app, Hl in Hne.
  replace (length (wKey p) + tsSize - tsSize)%nat with (length (wKey p)) in Hne by lia. by rewrite drop_app_length in Hne.
Qed.

Lemma fixPairs_ok d store ps :
  Forall (fun p => length (wTimestamp p) = tsSize) ps ->
  exists ops, fixPairs d store ps = Some ops /\ puts ops /\
    (forall K t x, OpPut K t x ∈ ops ->
       exists p, p ∈ ps /\ K = storePrefix store ++ wKey p /\ t = le_val (wTimestamp p) /\ x = wValue p) /\
    (forall p, p ∈ ps -> let K := storePrefix store ++ wKey p in let t := le_val (wTimestamp p) in
       OpPut K t (wValue p) ∈ ops \/ db_get d K t = Some (wValue p, t)) /\
    ((forall p, p ∈ ps -> let t := le_val (wTimestamp p) in db_get d (storePrefix store ++ wKey p) t = Some (wValue p, t)) -> ops = []).
Proof.
  induction 1 as [|p ps Hl Hps IH]; cbn [fixPairs].
  { exists []. split_and!; [done|constructor|by intros ? ? ? ?%not_elem_of_nil|by intros ? ?%not_elem_of_nil|done]. }
  destruct IH as (ops & -> & Hp & H1 & H2 & H3). unfold fixPair. rewrite Uint64_8 by done. sbind.
  set (t := le_val (wTimestamp p)). set (K := storePrefix store ++ wKey p).
  match goal with |- context [if ?b then Some [] else _] => destruct b eqn:Eb end; sbind.
  - assert (db_get d K t = Some (wValue p, t)) as Hg.
    { apply andb_true_iff in Eb as [Ev%bytes_eqb_eq Et%bytes_eqb_eq]. destruct (db_get d K t) as [[v u]|] eqn:Eg; [|by rewrite <- Et in Hl].
      rewrite Ev. f_equal. f_equal. subst t. rewrite <- Et. unfold PutUint64. rewrite le_val_bytes. symmetry. apply Z.mod_small.
      destruct (db_get_newest d K (le_val (wTimestamp p))) as [[E' _]|(w & y & Hw & _ & _ & E')]; rewrite Eg in E'; [done|].
      destruct y; simplify_eq/=. pose proof (le_val_range (wTimestamp p) Hl). change (256 ^ Z.of_nat 8) with (2 ^ 64). lia. }
    exists ops. split_and!; [done|done| | |].
    + intros K' t' x Hin. destruct (H1 K' t' x Hin) as (q & Hq & ?). exists q. split; [by right|done].
    + intros q [->|Hq]%elem_of_cons; [by right|by apply H2].
    + intros Ha. apply H3. intros q Hq. apply Ha. by right.
  - exists (OpPut K t (wValue p) :: ops). split_and!; [done|by constructor| | |].
    + intros K' t' x [Heq|Hin]%elem_of_cons; [simplify_eq; exists p; split_and!; [by left|done..]|].
      destruct (H1 K' t' x Hin) as (q & Hq & ?). exists q. split; [by right|done].
    + intros q [->|Hq]%elem_of_cons; [left; by left|]. destruct (H2 q Hq); [left; by right|by right].
    + intros Ha. exfalso. specialize (Ha p ltac:(by left)). cbn zeta in Ha. fold t K in Ha. rewrite Ha in Eb.
      unfold t in Eb. rewrite PutUint64_val, !bytes_eqb_refl in Eb by done. done.
Qed.

(** C38: The repair of keys that carry their timestamp: on a store where everything at
    version zero is such a key of a later version, it succeeds unless the write fails;
    afterwards every such key is readable at its version with its value, no other entry of
    the database has changed, and repairing again writes nothing. *)
Theorem fix_data_correct d store :
  repairable d store -> exists ops,
  (forall fuel, (count (I := I) d (Some 0%Z) < fuel)%nat -> fixDataStore (I := I) fuel false store false d = Some (db_write d ops)) /\
  forall d', db_write d ops = Ok d' ->
    (forall p, wrong d store p ->
       let t := le_val (wTimestamp p) in db_get d' (storePrefix store ++ wKey p) t = Some (wValue p, t)) /\
    (forall K t, (forall p, wrong d store p -> K = storePrefix store ++ wKey p -> t <> le_val (wTimestamp p)) ->
       db_entry d' K t = db_entry d K t) /\
    forall fuel, (count (I := I) d' (Some 0%Z) < fuel)%nat -> fixDataStore (I := I) fuel false store false d' = Some (db_write d' []).
Proof.
  intros Hr. destruct (loadWrongData_ok d store Hr) as (ps & Hload & Hps).
  assert (forall d ps, (forall p, p ∈ ps <-> wrong d store p) -> Forall (fun p => length (wTimestamp p) = tsSize) ps) as Hlen.
  { intros d0 qs Hq. apply Forall_forall. intros p Hp%Hq. by destruct Hp. }
  destruct (fixPairs_ok d store ps (Hlen d ps Hps)) as (ops & Eops & Hputs & H1 & H2 & _).
  exists ops. split; [intros fuel Hf; unfold fixDataStore; rewrite (Hload fuel Hf); sbind; rewrite Eops; done|].
  intros d' Hw.
  assert (forall p, wrong d store p -> let t := le_val (wTimestamp p) in
    db_get d' (storePrefix store ++ wKey p) t = Some (wValue p, t)) as HA.
  { intros p Hp t. pose proof (le_val_range _ (proj1 Hp)). apply get_of_entry; [lia|]. rewrite (db_write_entry _ _ _ _ _ Hw).
    apply entry_written; [done| |].
    - intros y Hy. destruct (H1 _ _ _ Hy) as (q & Hq%Hps & Ek%app_inv_head & Et & ->). by eapply wrong_unique.
    - destruct (H2 p) as [|Hg]; [by apply Hps|by left|right]. by apply entry_of_get. }
  assert (forall K t, (forall p, wrong d store p -> K = storePrefix store ++ wKey p -> t <> le_val (wTimestamp p)) ->
    db_entry d' K t = db_entry d K t) as HB.
  { intros K t Hn. rewrite (db_write_entry _ _ _ _ _ Hw). apply entry_untouched; [done|].
    intros y Hy. destruct (H1 _ _ _ Hy) as (q & Hq%Hps & -> & -> & _). by apply (Hn q). }
  split; [done|]. split; [done|].
  assert (forall K, db_get d' K 0 = db_get d K 0) as Hzero.
  { intros K. eapply newest_unique; [apply db_get_newest|]. eapply newest_ext; [|apply db_get_newest].
    intros u Hu. symmetry. apply HB. intros p Hp _. pose proof (repairable_later d store p Hr Hp). lia. }
  assert (forall p, wrong d' store p <-> wrong d store p) as Hww by (intros p; unfold wrong; by rewrite Hzero).
  destruct (loadWrongData_ok d' store) as (ps' & Hload' & Hps'); [intros key x u; rewrite Hzero; apply Hr|].
  destruct (fixPairs_ok d' store ps' (Hlen d' ps' Hps')) as (ops' & Eops' & _ & _ & _ & H3).
  intros fuel Hf. unfold fixDataStore. rewrite (Hload' fuel Hf). sbind. rewrite Eops'. sbind.
  rewrite H3; [done|]. intros p Hp%Hps'%Hww. by apply HA.
Qed.
End Repaired.

(** ** Iterators of the database in memory *)

Definition opKey (op : dbOp) : option bytes :=
  match op with OpPut k _ _ | OpDelete k _ => Some k | OpLatest _ => None end.

(** All keys, in their order. *)
Definition memKeys (d : memdb) : list bytes :=
  keys (foldr (fun op l => match opKey op with Some k => kv_set k [] l | None => l end) [] d).

Definition memView (d : memdb) (t : Z) : list entry :=
  omap (fun k => (fun vu => (k, vu.1, vu.2)) <$> db_get d k t) (memKeys d).

Record memIter := mkMemIter { mView : list entry; mPos : option nat }.

Definition mSeek (k : bytes) (i : memIter) : memIter :=
  mkMemIter (mView i) (fst <$> list_find (fun e : entry => bytes_leb k e.1.1 = true) (mView i)).

Definition mAt (i : memIter) : entry := default ([], [], 0) (n ← mPos i; mView i !! n).

(** A position within the entries. *)
Definition mPosition (i : memIter) : option nat :=
  n ← mPos i; if Nat.ltb n (length (mView i)) then Some n else None.

#[global] Instance memdb_iter : TSIter memdb memIter := {
  NewIteratorCF d t := mkMemIter (memView d t) None;
  itSeek := mSeek;
  itSeekToFirst i := mkMemIter (mView i) (Some 0%nat);
  itSeekToLast i := mkMemIter (mView i) (match length (mView i) with O => None | S n => Some n end);
  itNext i := mkMemIter (mView i) (S <$> mPos i);
  itPrev i := mkMemIter (mView i) (match mPos i with Some (S n) => Some n | _ => None end);
  itValid i := match mPosition i with Some _ => true | None => false end;
  itErr i := false;
  itKey i := (mAt i).1.1;
  itValue i := (mAt i).1.2;
  itTimestamp i := PutUint64 (mAt i).2;
  db_Flush d := Ok d
}.

#[global] Instance memdb_model : TSIterModel memIter := { itView := mView; itPos := mPosition }.

Lemma memKeys_sorted d : StronglySorted bytes_lt (memKeys d).
Proof.
  change (kv_sorted (foldr (fun op l => match opKey op with Some k => kv_set k [] l | None => l end) [] d)).
  induction d as [|op d IH]; [constructor|]. cbn. destruct (opKey op); [by apply kv_set_sorted|done].
Qed.

Lemma memKeys_elem d k : k ∉ memKeys d -> forall t, db_get d k t = None.
Proof.
  intros Hk t. cbn. assert (forall acc, foldl (memBetter k t) acc d = acc) as H; [|by rewrite H].
  unfold memKeys in Hk. induction d as [|op d IH]; intros acc; [done|]. cbn in *.
  destruct op as [k' u v|k' u|v]; cbn in *; [| |by apply IH]; rewrite kv_set_keys in Hk;
    (rewrite bool_decide_false by naive_solver); apply IH; naive_solver.
Qed.

Lemma memView_elem d t k v u : (k, v, u) ∈ memView d t <-> db_get d k t = Some (v, u).
Proof.
  unfold memView. rewrite list_elem_of_omap. split.
  - intros (k' & _ & E). destruct (db_get d k' t) as [[v' u']|] eqn:Eg; [|done]. cbn in E. by simplify_eq.
  - intros E. exists k. rewrite E. split; [|done]. apply dec_stable. intros Hn. rewrite (memKeys_elem d k Hn t) in E. done.
Qed.

Lemma memView_sorted d t : StronglySorted (fun a b : entry => a.1.1 <b b.1.1) (memView d t).
Proof.
  unfold memView. pose proof (memKeys_sorted d) as Hs. induction Hs as [|k l Hs IH Hf]; [constructor|]. cbn [omap list_omap].
  destruct (db_get d k t) as [[v u]|]; [|exact IH]. constructor; [exact IH|]. apply Forall_forall. intros [[k' v'] u'] Hin.
  apply list_elem_of_omap in Hin as (k2 & Hk2 & E). rewrite Forall_forall in Hf. specialize (Hf k2 Hk2).
  destruct (db_get d k2 t) as [[v2 u2]|]; cbn in E; [|done]. by simplify_eq.
Qed.

#[global] Instance memdb_iter_laws : TSIterLaws memdb memIter.
Proof.
  split; try done.
  - intros d t. apply memView_sorted.
  - intros d t k v u. apply memView_elem.
  - intros k i. cbn -[Nat.ltb]. unfold mPosition, mSeek. cbn -[Nat.ltb].
    destruct (list_find (fun e : entry => bytes_leb k e.1.1 = true) (mView i)) as [[n e]|] eqn:E; cbn -[Nat.ltb].
    + apply list_find_Some in E as (En & He & Hb). rewrite (proj2 (Nat.ltb_lt _ _)) by by eapply lookup_lt_Some.
      split; [exists e; split; [done|by apply leb_le]|]. intros m x Hm Hx. specialize (Hb m x Hx Hm).
      destruct (bytes_compare_spec x.1.1 k) as [Eq| |Hgt]; [|done|]; exfalso; apply Hb, leb_le; [rewrite Eq|]; bytes_order.
    + apply list_find_None in E. intros x Hx. rewrite Forall_forall in E. specialize (E x Hx).
      destruct (bytes_compare_spec x.1.1 k) as [Eq| |Hgt]; [|done|]; exfalso; apply E, leb_le; [rewrite Eq|]; bytes_order.
  - intros i. cbn -[Nat.ltb]. unfold mPosition. cbn -[Nat.ltb]. by destruct (mView i).
  - intros i. cbn -[Nat.ltb]. unfold mPosition. cbn -[Nat.ltb]. destruct (length (mView i)) as [|n] eqn:E; cbn -[Nat.ltb]; [done|].
    by rewrite (proj2 (Nat.ltb_lt _ _)) by lia.
  - intros i n. cbn -[Nat.ltb]. unfold mPosition. cbn -[Nat.ltb]. destruct (mPos i) as [p|]; cbn -[Nat.ltb]; [|done]. by destruct (Nat.ltb p _); intros [= ->].
  - intros i n. cbn -[Nat.ltb]. unfold mPosition. cbn -[Nat.ltb]. destruct (mPos i) as [p|]; cbn -[Nat.ltb]; [|done].
    destruct (Nat.ltb_spec p (length (mView i))); intros [= ->]. destruct n; cbn -[Nat.ltb]; [done|]. by rewrite (proj2 (Nat.ltb_lt _ _)) by lia.
  - intros i n. cbn -[Nat.ltb]. unfold mPosition, mAt. destruct (mPos i) as [p|]; cbn -[Nat.ltb]; [|done].
    destruct (Nat.ltb_spec p (length (mView i))) as [Hp|]; intros [= <-].
    destruct (lookup_lt_is_Some_2 _ _ Hp) as [[[k v] u] E]. rewrite E. cbn -[Nat.ltb]. by eexists _, _, _.
  - by intros d d' k t [= <-].
  - by intros d d' [= <-].
Qed.

Lemma bank_plain : plain_name "bank".
Proof. intros Hin. apply list_elem_of_In in Hin. vm_compute in Hin. intuition discriminate. Qed.

Lemma versiondb_iterates_witness :
  exists l, pairs 10 (Iterator (I := memIter) 10 (NewKVStore exDB true "bank" (Some 5)) None None) = Some l /\
    (forall k x, (k, x) ∈ l <-> valueAt [(3, exBlock)] 5 "bank" k = Some x /\ [] <=b k /\ (forall en, None = Some en -> k <b en)).
Proof.
  destruct (versiondb_iterates (I := memIter) [(3, exBlock)] exDB true "bank" None None 5 exDB_written bank_plain
    ltac:(lia) ltac:(done) ltac:(done)) as (l & l' & Hl & _ & _ & Hm).
  exists l. split; [|intros k x; apply Hm]. refine (proj1 (Hl 10%nat _)). apply Nat.ltb_lt. by vm_compute.
Defined.

(** A key of version 9, written at version zero with the timestamp behind the key. *)
Definition exWrong : memdb := [OpPut (storePrefix "bank" ++ [x01] ++ PutUint64 9) 0 [x0b]].

Lemma exWrong_get key x u :
  db_get exWrong (storePrefix "bank" ++ key) 0 = Some (x, u) -> key = [x01] ++ PutUint64 9 /\ x = [x0b].
Proof.
  unfold exWrong. cbn [db_get memdb_ops foldl memBetter]. case_bool_decide as E; [|done].
  apply app_inv_head in E as <-. cbn. by intros [= <- <-].
Qed.

Lemma fix_data_correct_witness :
  exists ops, fixDataStore (I := memIter) 10 false "bank" false exWrong = Some (db_write exWrong ops) /\
    db_get (exWrong ++ ops) (storePrefix "bank" ++ [x01]) 9 = Some ([x0b], 9).
Proof.
  destruct (fix_data_correct (I := memIter) exWrong "bank") as (ops & Hf & Hd).
  - intros key x u [-> _]%exWrong_get. split; [by vm_compute; lia|by vm_compute].
  - exists ops. split; [apply Hf; apply Nat.ltb_lt; by vm_compute|].
    destruct (Hd (exWrong ++ ops) eq_refl) as [Hw _]. apply (Hw (mkWrong [x01] [x0b] (PutUint64 9))).
    split; [done|]. exists 0. by vm_compute.
Defined.
