(* ===== verification/Convert.v ===== *)
(** * Building the database of versions from change set files:
    [versiondb/client/convert_to_sst.go], [ingest_sst.go], and the files of
    [changeset.go]

    The change sets of a store, dumped to files, are sorted externally and written
    to files in RocksDB's own format (SST), which are then moved into a database.
    The writer of these files and their ingestion are interfaces. *)

From S2P Require Import Prelude KV Binary Tree Proto GoIO ChangeSetFile ExtSort SorterItem VersionStore.
From stdpp Require Import pretty.
From Stdlib Require Import Strings.Byte.

Open Scope string_scope.
Open Scope Z_scope.
Open Scope list_scope.

(** ** Files of change sets *)

Definition ErrNotExist : error := "file does not exist".

Definition HasSuffix (s suffix : string) : bool :=
  bool_decide (bytes_of_string suffix `suffix_of` bytes_of_string s).

Record FileWithVersion := mkFileVersion { FileName : string; FileVersion : Z }.

Section Files.
(** What [os.Open] finds, and the data of compressed files. *)
Context (os_Open : string -> result bytes) (stdin : bytes) (unzlib unsnappy : bytes -> result bytes).
(** [os.ReadDir], and [sort.Slice] by the version. *)
Context (os_ReadDir : string -> result (list string)) (sortFiles : list FileWithVersion -> list FileWithVersion).

(** The data that the reader of an open file delivers. *)
Definition openChangeSetFile (fileName : string) : result bytes :=
  if bool_decide (fileName = "-") then Ok stdin
  else
    fp ← os_Open fileName;
    if HasSuffix fileName ".zz" then unzlib fp
    else if HasSuffix fileName ".snappy" then unsnappy fp
    else Ok fp.

Definition ReadFirstVersion (fileName : string) : option (result Z) :=
  match openChangeSetFile fileName with
  | Err e => Some (Err e)
  | Ok fp =>
      '(r, _) ← ReadFull 8 fp;
      match r with
      | Err e => Some (Err e)
      | Ok versionBuf => Ok <$> Uint64 versionBuf
      end
  end.

Fixpoint firstVersions (files : list string) : option (result (list FileWithVersion)) :=
  match files with
  | [] => Some (Ok [])
  | fileName :: files =>
      r ← ReadFirstVersion fileName;
      match r with
      | Err e => if bool_decide (e = EOF) then firstVersions files else Some (Err e)
      | Ok version =>
          r ← firstVersions files;
          Some (rest ← r; Ok (mkFileVersion fileName version :: rest))
      end
  end.

Definition SortFilesByFirstVerson (files : list string) : option (result (list FileWithVersion)) :=
  r ← firstVersions files; Some (nonEmptyFiles ← r; Ok (sortFiles nonEmptyFiles)).

Definition scanChangeSetFiles (changeSetDir store : string) : option (result (list FileWithVersion)) :=
  let storeDir := changeSetDir +:+ "/" +:+ store in
  match os_ReadDir storeDir with
  | Err e => if bool_decide (e = ErrNotExist) then Some (Ok []) else Some (Err e)
  | Ok entries => SortFilesByFirstVerson ((fun name => storeDir +:+ "/" +:+ name) <$> entries)
  end.

(** ** The conversion of a store *)

(** The callback: the items sent to the sorter; [None] is a panic. *)
Definition sendItems (items : option (list bytes)) (version : Z) (changeSet : ChangeSet)
    : option (list bytes) * result bool :=
  (items ← items; new ← mapM (encodeSorterItem (u64 version)) changeSet; Some (items ++ new), Ok true).

(** The loop over the files. *)
Fixpoint readItems (csFiles : list FileWithVersion) (items : list bytes) : option (result (list bytes)) :=
  match csFiles with
  | [] => Some (Ok items)
  | file :: csFiles =>
      match openChangeSetFile (FileName file) with
      | Err e => Some (Err e)
      | Ok reader =>
          '(items, _, err) ← IterateChangeSets sendItems reader (Some items);
          items ← items;
          match err with
          | Some e => Some (Err e)
          | None => readItems csFiles items
          end
      end
  end.
End Files.

(** What [compareSorterItem] compares: keys ascending, versions descending.  On
    items it does not panic, and there the two agree. *)
Definition keyVersion (item : bytes) : option (bytes * Z) :=
  tail ← slice_from item (zlen item - SizeKeyLength);
  keyLen ← Uint32 tail;
  key ← slice item 0 keyLen;
  v ← slice_from item keyLen;
  version ← Uint64 v;
  Some (key, version).

Definition lessItem (a b : bytes) : bool :=
  let '(ka, va) := default ([], 0) (keyVersion a) in
  let '(kb, vb) := default ([], 0) (keyVersion b) in
  match bytes_compare ka kb with Lt => true | Gt => false | Eq => vb <? va end.

(** RocksDB's [SSTFileWriter]: a file is the operations added to it. *)
Class SSTFileWriter := {
  FileSize : list dbOp -> Z;
  sstAdd : list dbOp -> dbOp -> result (list dbOp);
  sstFinish : list dbOp -> result unit
}.

Section Write.
Context {SW : SSTFileWriter}.

(** The key of an item and what is written for it; [None] is a panic. *)
Definition itemOp (prefix : bytes) (item : bytes) : option (bytes * dbOp) :=
  '(ts, p) ← decodeSorterItem item;
  ts ← Uint64 ts;
  let key := prefix ++ PairKey p in
  Some (PairKey p, if Tree.Delete p then OpDelete key ts else OpPut key ts (default [] (PairValue p))).

(** The loop over the sorted items, with the files finished and the one open. *)
Fixpoint writeItems (prefix : bytes) (sstFileSize : Z) (items : list bytes) (lastKey : bytes)
    (files : list (list dbOp)) (current : list dbOp) : option (result (list (list dbOp))) :=
  match items with
  | [] => Some (_ ← sstFinish current; Ok (files ++ [current]))
  | item :: items =>
      '(key, op) ← itemOp prefix item;
      if (sstFileSize <=? FileSize current) && negb (bool_decide (lastKey = key)) then
        match (_ ← sstFinish current; sstAdd [] op) with
        | Err e => Some (Err e)
        | Ok current' => writeItems prefix sstFileSize items key (files ++ [current]) current'
        end
      else
        match sstAdd current op with
        | Err e => Some (Err e)
        | Ok current' => writeItems prefix sstFileSize items key files current'
        end
  end.

Definition sstFileName (store : string) (seq : nat) : string :=
  store +:+ "-" +:+ pretty seq +:+ ".sst".

End Write.

Section Convert.
Context {SW : SSTFileWriter}.
Context (os_Open : string -> result bytes) (stdin : bytes) (unzlib unsnappy : bytes -> result bytes).
Context (os_ReadDir : string -> result (list string)) (sortFiles : list FileWithVersion -> list FileWithVersion).
(** The parameters of the sorter: [sort.Slice], snappy, the order in which its
    goroutines finish. *)
Context (sortSlice : list bytes -> list bytes) (compress decompress : bytes -> bytes).
Context (order : list bytes -> list bytes).

(** The files it leaves; errors inside the sorter panic. *)
Definition convertSingleStore (store changeSetDir : string) (sstFileSize sorterChunkSize : Z)
    : option (result (list (string * list dbOp))) :=
  r ← scanChangeSetFiles os_Open stdin unzlib unsnappy os_ReadDir sortFiles changeSetDir store;
  match r with
  | Err e => Some (Err e)
  | Ok [] => Some (Ok [])
  | Ok csFiles =>
      r ← readItems os_Open stdin unzlib unsnappy csFiles [];
      match r with
      | Err e => Some (Err e)
      | Ok [] => Some (Ok [])
      | Ok items =>
          r ← Spawn (mkOptions true true sorterChunkSize) lessItem sortSlice compress decompress items order (S (length items));
          match r with
          | Err _ => None
          | Ok outputChan =>
              r ← writeItems (storePrefix store) sstFileSize outputChan [] [] [];
              Some (files ← r; Ok (imap (fun i f => (sstFileName store i, f)) files))
          end
      end
  end.
End Convert.

(** ** Ingestion *)

Class SSTIngest (D : Type) := IngestExternalFileCF : D -> list (list dbOp) -> result D.

Definition IngestVersionDBSST `{TSDB D} `{SSTIngest D} (files : list (list dbOp)) (maxVersion : Z) (d : D)
    : option (result D) :=
  match (match files with [] => Ok d | _ => IngestExternalFileCF d files end) with
  | Err e => Some (Err e)
  | Ok d =>
      if 0 <? maxVersion then
        latestVersion ← GetLatestVersion d;
        Some (if latestVersion <? maxVersion then SetLatestVersion d maxVersion else Ok d)
      else Some (Ok d)
  end.

(** ** Items and their order *)

(** A pair of a change set with the timestamp of its version. *)
Abbreviation tsPair := (Z * KVPair)%type.

Definition pair_before (x y : tsPair) : Prop :=
  PairKey x.2 <b PairKey y.2 \/ PairKey x.2 = PairKey y.2 /\ y.1 < x.1.

Definition tsItem (x : tsPair) : bytes := itemBytes x.1 x.2.

Definition item_fits (x : tsPair) : Prop := item_ok x.1 x.2 /\ zlen (tsItem x) <= MaxUint32.

Definition tsOp (store : string) (x : tsPair) : dbOp :=
  let key := prependStoreKey store (PairKey x.2) in
  if Tree.Delete x.2 then OpDelete key x.1 else OpPut key x.1 (valueOf x.2).

Lemma lessItem_strict_weak : strict_weak lessItem.
Proof.
  split.
  - intros a b. unfold lessItem. destruct (default _ (keyVersion a)) as [ka va], (default _ (keyVersion b)) as [kb vb].
    destruct (bytes_compare_spec ka kb) as [E|Hlt|Hlt], (bytes_compare_spec kb ka) as [E'|Hlt'|Hlt']; try done; try (exfalso; subst; bytes_order).
    intros H%Z.ltb_lt. apply Z.ltb_ge. lia.
  - intros a b c. unfold lessItem.
    destruct (default _ (keyVersion a)) as [ka va], (default _ (keyVersion b)) as [kb vb], (default _ (keyVersion c)) as [kc vc].
    destruct (bytes_compare_spec kb ka) as [E|Hlt|Hlt], (bytes_compare_spec kc kb) as [E'|Hlt'|Hlt'],
      (bytes_compare_spec kc ka) as [E''|Hlt''|Hlt'']; try done; try (exfalso; subst; bytes_order).
    intros H1%Z.ltb_ge H2%Z.ltb_ge. apply Z.ltb_ge. lia.
Qed.

Lemma keyVersion_item x : item_ok x.1 x.2 -> keyVersion (tsItem x) = Some (PairKey x.2, x.1).
Proof.
  intros H. unfold keyVersion, tsItem. destruct (item_keyLen _ _ H) as (t & -> & Et). cbn [mbind option_bind]. rewrite Et.
  cbn [mbind option_bind]. unfold itemBytes. rewrite item_key. cbn [mbind option_bind]. rewrite item_version.
  cbn [mbind option_bind]. by rewrite Uint64_Put by apply H.
Qed.

(** On items the comparison of the sorter does not panic, and is the order. *)
Lemma lessItem_compare x y :
  item_ok x.1 x.2 -> item_ok y.1 y.2 -> compareSorterItem (tsItem x) (tsItem y) = Some (lessItem (tsItem x) (tsItem y)).
Proof.
  intros Hx Hy. unfold lessItem. rewrite !keyVersion_item by done. cbn [default]. by apply compare_items.
Qed.

Lemma lessItem_before x y :
  item_ok x.1 x.2 -> item_ok y.1 y.2 -> lessItem (tsItem y) (tsItem x) = false ->
  pair_before x y \/ (PairKey x.2, x.1) = (PairKey y.2, y.1).
Proof.
  intros Hx Hy. unfold lessItem, pair_before. rewrite !keyVersion_item by done. cbn [from_option id].
  destruct (bytes_compare_spec (PairKey y.2) (PairKey x.2)) as [E|Hlt|Hlt]; [|intros Hb; discriminate Hb|intros _; left; by left].
  intros H%Z.ltb_ge. destruct (decide (x.1 = y.1)) as [->|Hne]; [right; by rewrite E|left; right; split; [done|lia]].
Qed.

(** Sorted items with different keys or versions are strictly ordered. *)
Lemma sorted_strict l :
  Forall (fun x => item_ok x.1 x.2) l -> NoDup ((fun x : tsPair => (PairKey x.2, x.1)) <$> l) ->
  StronglySorted (fun a b => lessItem b a = false) (tsItem <$> l) -> StronglySorted pair_before l.
Proof.
  induction l as [|x l IH]; [constructor|]. intros [Hx Hl]%Forall_cons. rewrite !fmap_cons. intros [Hn Hnd]%NoDup_cons Hs.
  apply StronglySorted_inv in Hs as [Hs Hf]. constructor; [by apply IH|]. rewrite Forall_fmap in Hf.
  rewrite Forall_forall in Hl, Hf |- *. intros y Hy.
  destruct (lessItem_before x y Hx (Hl y Hy) (Hf y Hy)) as [|E]; [done|].
  exfalso. apply Hn. rewrite E. by apply (list_elem_of_fmap_2 (fun x : tsPair => (PairKey x.2, x.1))).
Qed.

Lemma itemOp_item store x :
  item_ok x.1 x.2 -> itemOp (storePrefix store) (tsItem x) = Some (PairKey x.2, tsOp store x).
Proof.
  intros H. unfold itemOp, tsItem. rewrite decode_item by done. cbn [mbind option_bind].
  rewrite <- (app_nil_r (PutUint64 _)), Uint64_Put by apply H. cbn [mbind option_bind Tree.Delete PairKey PairValue].
  unfold tsOp, prependStoreKey, valueOf. by destruct (Tree.Delete x.2).
Qed.

(** ** Writing the files *)

Definition op_before (a b : dbOp) : Prop :=
  match a, b with
  | OpPut k t _, OpPut k' t' _ | OpPut k t _, OpDelete k' t' | OpDelete k t, OpPut k' t' _ | OpDelete k t, OpDelete k' t' =>
      k <b k' \/ k = k' /\ t' < t
  | _, _ => False
  end.

(** A new file has size zero; keys have to be added in the order of the comparator;
    an empty file cannot be finished. *)
Class SSTWriterLaws `{SSTFileWriter} : Prop := {
  FileSize_new : FileSize [] = 0;
  sstAdd_ok f op : (forall x, last f = Some x -> op_before x op) -> sstAdd f op = Ok (f ++ [op]);
  sstFinish_ok f : f <> [] -> sstFinish f = Ok tt
}.

Definition fileOps (store : string) (f : list tsPair) : list dbOp := tsOp store <$> f.

(** Every key of one file is before every key of another. *)
Definition file_before (f g : list tsPair) : Prop :=
  forall x y, x ∈ f -> y ∈ g -> PairKey x.2 <b PairKey y.2.

Section Written.
Context {SW : SSTFileWriter} {WL : SSTWriterLaws}.
Implicit Types (c l : list tsPair) (fs : list (list tsPair)).

Lemma tsOp_before store x y : pair_before x y -> op_before (tsOp store x) (tsOp store y).
Proof.
  intros H. assert (forall a b, a <b b -> prependStoreKey store a <b prependStoreKey store b) as Hp.
  { intros a b. unfold prependStoreKey, bytes_lt. by rewrite compare_app. }
  unfold tsOp. destruct (Tree.Delete x.2), (Tree.Delete y.2); cbn [op_before];
    (destruct H as [H|[-> H]]; [left; by apply Hp|by right]).
Qed.

Lemma add_next store c x l :
  StronglySorted pair_before (c ++ x :: l) -> sstAdd (tsOp store <$> c) (tsOp store x) = Ok (tsOp store <$> (c ++ [x])).
Proof.
  intros Hs. rewrite sstAdd_ok, fmap_app; [done|]. intros o Ho. rewrite fmap_last in Ho.
  destruct (last c) as [y|] eqn:Ey; [|done]. injection Ho as <-. apply tsOp_before.
  apply last_Some in Ey as [c' ->]. eapply StronglySorted_app_1_elem_of; [exact Hs|set_solver..].
Qed.

Lemma sorted_keys x y l : StronglySorted pair_before (x :: l) -> y ∈ x :: l -> PairKey x.2 <=b PairKey y.2.
Proof.
  intros [Hf _]%StronglySorted_cons [->|Hy]%elem_of_cons; [bytes_order|]. rewrite Forall_forall in Hf.
  destruct (Hf y Hy) as [H|[-> _]]; bytes_order.
Qed.

(** A file ends where the key changes. *)
Lemma split_before c x y l :
  StronglySorted pair_before (c ++ y :: l) -> last c = Some x -> PairKey x.2 <> PairKey y.2 -> file_before c (y :: l).
Proof.
  intros Hs [c' ->]%last_Some Hne a b Ha Hb. apply StronglySorted_app in Hs as (Hcross & Hc & Hl).
  pose proof (sorted_keys y b l Hl Hb) as Hyb.
  assert (PairKey x.2 <b PairKey y.2) as Hxy by (destruct (Hcross x y) as [|[E _]]; [set_solver|by left|done|done]).
  assert (PairKey a.2 <=b PairKey x.2) as Hax.
  { apply elem_of_app in Ha as [Ha| ->%list_elem_of_singleton]; [|bytes_order].
    destruct (StronglySorted_app_1_elem_of _ _ _ a x Hc Ha ltac:(left)) as [H|[-> _]]; bytes_order. }
  bytes_order.
Qed.

Lemma writeItems_ok store sstFileSize l : forall c lastKey files,
  0 < sstFileSize -> Forall (fun x => item_ok x.1 x.2) l -> StronglySorted pair_before (c ++ l) -> c ++ l <> [] ->
  (forall x, last c = Some x -> PairKey x.2 = lastKey) ->
  exists fs, writeItems (storePrefix store) sstFileSize (tsItem <$> l) lastKey files (tsOp store <$> c) =
      Some (Ok (files ++ (fileOps store <$> fs))) /\
    concat fs = c ++ l /\ Forall (fun f => f <> []) fs /\ StronglySorted file_before fs.
Proof.
  induction l as [|x l IH]; intros c lastKey files Hsz Hok Hs Hne Hlast.
  - rewrite app_nil_r in *. exists [c]. cbn [fmap list_fmap writeItems]. rewrite sstFinish_ok by by destruct c.
    cbn. rewrite app_nil_r. split_and!; [done|done|by repeat constructor|by repeat constructor].
  - apply Forall_cons in Hok as [Hx Hok]. rewrite fmap_cons. cbn [writeItems]. rewrite itemOp_item by done. cbn [mbind option_bind].
    destruct ((sstFileSize <=? FileSize (tsOp store <$> c)) && negb (bool_decide (lastKey = PairKey x.2))) eqn:Esplit.
    + apply andb_prop in Esplit as [Hsize%Z.leb_le Hkey%negb_true_iff%bool_decide_eq_false].
      destruct (last c) as [y|] eqn:Ey.
      2: { apply last_None in Ey as ->. cbn [fmap list_fmap] in Hsize. rewrite FileSize_new in Hsize. lia. }
      rewrite sstFinish_ok by by destruct c. cbn [mbind result_bind].
      pose proof (add_next store [] x l (StronglySorted_app_1_r _ _ _ Hs)) as Ea.
      change (tsOp store <$> []) with (@nil dbOp) in Ea. cbn [app] in Ea. rewrite Ea.
      destruct (IH [x] (PairKey x.2) (files ++ [tsOp store <$> c]) Hsz Hok) as (fs & E & Ec & Hn & Hss).
      * exact (StronglySorted_app_1_r _ _ _ Hs).
      * done.
      * by intros ? [= <-].
      * exists (c :: fs). rewrite E, <- app_assoc. split; [done|]. cbn [concat]. rewrite Ec. split; [done|].
        split; [constructor; [by destruct c|done]|]. constructor; [done|]. apply Forall_forall. intros f Hf a b Ha Hb.
        apply (split_before c y x l); [done|done| |done|].
        -- rewrite (Hlast y) by done. done.
        -- change (x :: l) with ([x] ++ l). rewrite <- Ec. by apply list_elem_of_In; apply in_concat; exists f; split; [by apply list_elem_of_In|by apply list_elem_of_In].
    + rewrite (add_next store c x l) by done. destruct (IH (c ++ [x]) (PairKey x.2) files Hsz Hok) as (fs & E & Ec & Hn & Hss).
      * by rewrite <- app_assoc.
      * by destruct c.
      * intros y. rewrite last_snoc. by intros [= <-].
      * exists fs. rewrite E. split_and!; try done. by rewrite Ec, <- app_assoc.
Qed.
End Written.

(** ** Reading the files *)

(** The pairs of change sets with their timestamps. *)
Definition setPairs (x : Z * ChangeSet) : list tsPair := (fun p => (u64 x.1, p)) <$> x.2.
Definition allPairs (sets : list (Z * ChangeSet)) : list tsPair := sets ≫= setPairs.

Lemma IterateChangeSets_whole {S} (f : S -> Z -> ChangeSet -> S) l s :
  Forall set_ok l ->
  IterateChangeSets (fun s v cs => (f s v cs, Ok true)) (concat (setBytes <$> l)) s =
  Some (foldl (fun s x => f s x.1 (normalPair <$> x.2)) s l, zlen (concat (setBytes <$> l)), None).
Proof.
  intros Hl. destruct (iterateFile_sets true f l [] (setBytes (0, [])) (0, []) s Hl) as (err & _ & He & E).
  - split; [done|]. split; [constructor|done].
  - done.
  - done.
  - rewrite He, app_nil_r in E by done. exact E.
Qed.

Lemma tsItem_normal v p : tsItem (v, normalPair p) = tsItem (v, p).
Proof.
  unfold tsItem, itemBytes, itemTail, normalPair. cbn [fst snd Tree.Delete PairKey PairValue]. by destruct (Tree.Delete p).
Qed.

Lemma encode_pairs v cs :
  Forall (fun p => item_ok (u64 v) p) cs ->
  mapM (encodeSorterItem (u64 v)) (normalPair <$> cs) = Some (tsItem <$> setPairs (v, cs)).
Proof.
  induction 1 as [|p cs Hp _ IH]; [done|]. rewrite fmap_cons. cbn [mapM]. rewrite encodeSorterItem_bytes by exact Hp.
  cbn [mbind option_bind]. rewrite IH. cbn [mbind option_bind mret option_ret]. f_equal.
  change (setPairs (v, p :: cs)) with ((u64 v, p) :: setPairs (v, cs)). rewrite fmap_cons. f_equal. exact (tsItem_normal (u64 v) p).
Qed.

Lemma sendItems_sets sets items :
  Forall (fun x => item_ok x.1 x.2) (allPairs sets) ->
  foldl (fun s x => (sendItems s x.1 (normalPair <$> x.2)).1) (Some items) sets = Some (items ++ (tsItem <$> allPairs sets)).
Proof.
  revert items. induction sets as [|[v cs] sets IH]; intros items Hok; [cbn; by rewrite app_nil_r|].
  change (allPairs ((v, cs) :: sets)) with (setPairs (v, cs) ++ allPairs sets) in *. apply Forall_app in Hok as [Hx Hok].
  cbn [foldl]. assert ((sendItems (Some items) v (normalPair <$> cs)).1 = Some (items ++ (tsItem <$> setPairs (v, cs)))) as E.
  { cbn [sendItems fst mbind option_bind]. rewrite encode_pairs; [done|]. unfold setPairs in Hx. by rewrite Forall_fmap in Hx. }
  cbn [fst snd]. rewrite E, IH by done. by rewrite fmap_app, app_assoc.
Qed.

Section Read.
Context (os_Open : string -> result bytes) (stdin : bytes) (unzlib unsnappy : bytes -> result bytes).
Context (os_ReadDir : string -> result (list string)) (sortFiles : list FileWithVersion -> list FileWithVersion).

(** A file that holds the given change sets. *)
Definition holds (path : string) (sets : list (Z * ChangeSet)) : Prop :=
  openChangeSetFile os_Open stdin unzlib unsnappy path = Ok (concat (setBytes <$> sets)) /\ Forall set_ok sets.

Lemma readItems_ok (fs : list (FileWithVersion * list (Z * ChangeSet))) items :
  Forall (fun f => holds (FileName f.1) f.2) fs ->
  Forall (fun x => item_ok x.1 x.2) (allPairs (concat fs.*2)) ->
  readItems os_Open stdin unzlib unsnappy fs.*1 items = Some (Ok (items ++ (tsItem <$> allPairs (concat fs.*2)))).
Proof.
  intros Hf. revert items. induction Hf as [|[f sets] fs [Ho Hs] _ IH]; intros items Hok; [cbn; by rewrite app_nil_r|].
  cbn [fst snd] in *. rewrite !fmap_cons in *. cbn [concat fst snd] in *. unfold allPairs in *. rewrite bind_app in *.
  apply Forall_app in Hok as [Hx Hok]. cbn [readItems]. rewrite Ho.
  pose proof (IterateChangeSets_whole (fun s v cs => (sendItems s v cs).1) sets (Some items) Hs
    : IterateChangeSets sendItems _ _ = _) as E. rewrite E. cbn [mbind option_bind].
  rewrite sendItems_sets by done. cbn [mbind option_bind]. rewrite IH by done. by rewrite fmap_app, app_assoc.
Qed.

Lemma ReadFirstVersion_ok path sets :
  holds path sets ->
  ReadFirstVersion os_Open stdin unzlib unsnappy path =
  Some (match sets with [] => Err EOF | x :: _ => Ok (u64 x.1) end).
Proof.
  intros [Ho _]. unfold ReadFirstVersion. rewrite Ho. destruct sets as [|x sets]; [done|].
  rewrite fmap_cons. cbn [concat]. unfold setBytes at 1. rewrite <- !app_assoc.
  pose proof (codec_full (PutUint64 (u64 x.1)) 8 eq_refl) as Hc. rewrite (codec_read _ _ _ Hc). cbn [mbind option_bind].
  rewrite <- (app_nil_r (PutUint64 _)), Uint64_Put by apply u64_range. done.
Qed.

(** The files that are not empty, with what they hold. *)
Lemma firstVersions_ok (fs : list (string * list (Z * ChangeSet))) :
  Forall (fun f => holds f.1 f.2) fs ->
  exists vs, firstVersions os_Open stdin unzlib unsnappy fs.*1 = Some (Ok vs.*1) /\
    Forall (fun f => holds (FileName f.1) f.2) vs /\ concat vs.*2 = concat fs.*2.
Proof.
  induction 1 as [|[path sets] fs Hf _ (vs & E & Hvs & Ec)]; [by exists []|]. cbn [fst snd] in Hf.
  rewrite !fmap_cons. cbn [firstVersions fst snd concat]. rewrite (ReadFirstVersion_ok _ _ Hf). cbn [mbind option_bind].
  destruct sets as [|x sets].
  - rewrite bool_decide_true by done. by exists vs.
  - rewrite E. exists ((mkFileVersion path (u64 x.1), x :: sets) :: vs). cbn [mbind option_bind]. rewrite !fmap_cons. cbn [concat snd].
    split; [done|]. split; [by constructor|]. by rewrite Ec.
Qed.

Lemma scan_ok changeSetDir store (entries : list (string * list (Z * ChangeSet))) :
  os_ReadDir (changeSetDir +:+ "/" +:+ store) = Ok entries.*1 ->
  Forall (fun f => holds ((changeSetDir +:+ "/" +:+ store) +:+ "/" +:+ f.1) f.2) entries ->
  (forall l, sortFiles l ≡ₚ l) ->
  exists vs, scanChangeSetFiles os_Open stdin unzlib unsnappy os_ReadDir sortFiles changeSetDir store = Some (Ok vs.*1) /\
    Forall (fun f => holds (FileName f.1) f.2) vs /\ concat vs.*2 ≡ₚ concat entries.*2.
Proof.
  intros Hdir Hf Hsort. unfold scanChangeSetFiles. rewrite Hdir. unfold SortFilesByFirstVerson.
  set (full := fun f : string * list (Z * ChangeSet) => ((changeSetDir +:+ "/" +:+ store) +:+ "/" +:+ f.1, f.2)).
  destruct (firstVersions_ok (full <$> entries)) as (vs & E & Hvs & Ec); [by rewrite Forall_fmap|].
  rewrite <- list_fmap_compose in E. rewrite <- list_fmap_compose.
  pose proof (E : firstVersions _ _ _ _ ((fun name => (changeSetDir +:+ "/" +:+ store) +:+ "/" +:+ name) ∘ fst <$> entries) = _) as E1.
  rewrite E1. cbn [mbind option_bind result_bind].
  destruct (Permutation_map_inv fst vs (Hsort vs.*1)) as (vs' & E' & Hp).
  exists vs'. split; [by f_equal; f_equal|]. split; [by rewrite <- Hp|].
  rewrite <- list_fmap_compose in Ec. change (concat vs.*2 = concat entries.*2) in Ec. rewrite <- Ec. symmetry. by rewrite Hp.
Qed.
End Read.
