(* ===== verification/ConvertProps.v ===== *)
(** * The database built from change set files

    What [convertSingleStore] of [Convert] writes, and that a database into which
    its files are moved answers as one that was written block by block. *)

From S2P Require Import Prelude KV Binary Tree Proto GoIO ChangeSetFile ExtSort SorterItem VersionStore Convert.
From Stdlib Require Import Strings.Byte.

Open Scope string_scope.
Open Scope Z_scope.
Open Scope list_scope.

(** ** The files of a store *)

Section Converted.
Context {SW : SSTFileWriter} {WL : SSTWriterLaws}.
Context (os_Open : string -> result bytes) (stdin : bytes) (unzlib unsnappy : bytes -> result bytes).
Context (os_ReadDir : string -> result (list string)) (sortFiles : list FileWithVersion -> list FileWithVersion).
Context (sortSlice : list bytes -> list bytes) (compress decompress : bytes -> bytes) (order : list bytes -> list bytes).

(** [sort.Slice] sorts, snappy reads back what it wrote, the goroutines finish in
    any order. *)
Definition libraries_ok : Prop :=
  (forall l, sortFiles l ≡ₚ l) /\ sorts lessItem sortSlice /\ lossless compress decompress /\
  (forall files, order files ≡ₚ files).

(** The directory of a store holds the change sets of a history, in any number of
    files and in any order. *)
Definition dumped (changeSetDir store : string) (hist : list (Z * ChangeSet)) : Prop :=
  exists entries : list (string * list (Z * ChangeSet)),
    os_ReadDir (changeSetDir +:+ "/" +:+ store) = Ok entries.*1 /\
    Forall (fun f => holds os_Open stdin unzlib unsnappy ((changeSetDir +:+ "/" +:+ store) +:+ "/" +:+ f.1) f.2) entries /\
    concat entries.*2 ≡ₚ hist.

Lemma allPairs_perm l l' : l ≡ₚ l' -> allPairs l ≡ₚ allPairs l'.
Proof. intros H. unfold allPairs. by rewrite H. Qed.

Lemma convert_files store changeSetDir hist sstFileSize chunk :
  libraries_ok -> dumped changeSetDir store hist -> 0 < sstFileSize ->
  Forall item_fits (allPairs hist) -> NoDup ((fun x : tsPair => (PairKey x.2, x.1)) <$> allPairs hist) ->
  exists fs, convertSingleStore os_Open stdin unzlib unsnappy os_ReadDir sortFiles sortSlice compress decompress order
      store changeSetDir sstFileSize chunk = Some (Ok (imap (fun i f => (sstFileName store i, f)) (fileOps store <$> fs))) /\
    concat fs ≡ₚ allPairs hist /\ StronglySorted pair_before (concat fs) /\
    Forall (fun f => f <> []) fs /\ StronglySorted file_before fs.
Proof.
  intros (Hsf & Hss & Hll & Hor) (entries & Hdir & Hf & Hp) Hsz Hfit Hnd. unfold convertSingleStore.
  destruct (scan_ok _ _ _ _ _ _ changeSetDir store entries Hdir Hf Hsf) as (vs & -> & Hvs & Hpv). cbn [mbind option_bind].
  rewrite Hp in Hpv. apply allPairs_perm in Hpv.
  assert (Forall item_fits (allPairs (concat vs.*2))) as Hfit' by by rewrite Hpv.
  pose proof (readItems_ok _ _ _ _ vs [] Hvs (Forall_impl _ _ _ Hfit' (fun x => @proj1 _ _))) as Er.
  assert (allPairs hist = [] -> exists fs, Some (Ok []) =
      Some (Ok (imap (fun i f => (sstFileName store i, f)) (fileOps store <$> fs))) /\
    concat fs ≡ₚ allPairs hist /\ StronglySorted pair_before (concat fs) /\ Forall (fun f => f <> []) fs /\
    StronglySorted file_before fs) as Hnone by (intros ->; exists []; split_and!; done || constructor).
  destruct vs as [|v vs]; [by apply Hnone, Permutation.Permutation_nil|]. rewrite fmap_cons. rewrite fmap_cons in Er. rewrite Er.
  cbn [app mbind option_bind].
  destruct (allPairs (concat (v :: vs).*2)) as [|x l]; [by apply Hnone, Permutation.Permutation_nil|]. clear Er Hnone.
  destruct (Spawn_sorts (mkOptions true true chunk) lessItem sortSlice compress decompress (tsItem <$> x :: l) order
    (S (length (tsItem <$> x :: l)))) as (out & Es & Hpo & Hso); try done.
  { apply lessItem_strict_weak. }
  { rewrite Forall_fmap. eapply Forall_impl; [exact Hfit'|]. by intros y [_ Hy]. }
  { lia. }
  rewrite fmap_cons in Es, Hpo |- *. rewrite Es. cbn [mbind option_bind].
  rewrite <- (fmap_cons tsItem) in Hpo. apply Permutation_map_inv in Hpo as (l' & -> & Hl'). rewrite Hpv in Hl'.
  assert (Forall (fun x => item_ok x.1 x.2) l') as Hok by (rewrite <- Hl'; eapply Forall_impl; [exact Hfit|]; by intros y [Hy _]).
  assert (StronglySorted pair_before l') as Hst by (apply sorted_strict; [done|by rewrite <- Hl'|done]).
  destruct (writeItems_ok store sstFileSize l' [] [] [] Hsz Hok Hst) as (fs & Ew & Ec & Hne & Hfb).
  { cbn [app]. intros ->. apply symmetry, Permutation.Permutation_nil in Hl'. rewrite Hl' in Hpv. apply symmetry in Hpv. by apply Permutation.Permutation_nil_cons in Hpv. }
  { done. }
  exists fs. change (map tsItem l') with (tsItem <$> l'). change (tsOp store <$> []) with (@nil dbOp) in Ew. rewrite Ew.
  cbn [mbind option_bind result_bind app]. split; [done|].
  rewrite Ec. by split_and!.
Qed.
End Converted.

(** ** The database *)

(** Files whose keys are in order can be moved into a database; their operations
    take effect there. *)
Class SSTIngestLaws (D : Type) `{TSDB D} `{SSTIngest D} : Prop := {
  ingest_entry (d : D) files d' k t : StronglySorted op_before (concat files) -> IngestExternalFileCF d files = Ok d' ->
    db_entry d' k t = foldl (opEntry k t) (db_entry d k t) (concat files);
  ingest_plain (d : D) files d' : IngestExternalFileCF d files = Ok d' -> db_plain d' = db_plain d
}.

(** The history of a store as the database has it. *)
Definition storeHist (store : string) (hist : list (Z * ChangeSet)) : list (Z * list StoreKVPair) :=
  (fun x : Z * ChangeSet => (x.1, (fun p => mkStorePair store (Tree.Delete p) (PairKey p) (valueOf p)) <$> x.2)) <$> hist.

Definition history_ok (hist : list (Z * ChangeSet)) : Prop :=
  StronglySorted Z.lt hist.*1 /\ Forall (fun x => 1 <= x.1 < 2 ^ 63 /\ NoDup (PairKey <$> x.2)) hist /\
  Forall item_fits (allPairs hist).

Abbreviation idOf := (fun x : tsPair => (PairKey x.2, x.1)).

(** The order of operations on different keys or versions does not matter. *)
Lemma tsOps_perm store l l' k t acc :
  l ≡ₚ l' -> NoDup (idOf <$> l) -> foldl (opEntry k t) acc (tsOp store <$> l) = foldl (opEntry k t) acc (tsOp store <$> l').
Proof.
  intros Hp. revert acc. induction Hp as [|x l l' _ IH|x y l|l l1 l2 Hp1 IH1 _ IH2]; intros acc; [done|..].
  - rewrite !fmap_cons. intros [_ Hnd]%NoDup_cons. cbn [foldl]. by apply IH.
  - rewrite !fmap_cons. intros [Hn _]%NoDup_cons. cbn [foldl]. f_equal.
    assert (idOf x <> idOf y) as Hne by (intros E; apply Hn; rewrite E; left).
    unfold tsOp. destruct (Tree.Delete x.2), (Tree.Delete y.2); cbn [opEntry]; repeat case_bool_decide; try done;
      exfalso; destruct_and!; subst; apply Hne; cbn; f_equal; try done;
      unfold prependStoreKey in *; by simplify_list_eq.
  - intros Hnd. rewrite IH1 by done. apply IH2. by rewrite <- Hp1.
Qed.

Lemma history_ids hist : history_ok hist -> NoDup (idOf <$> allPairs hist).
Proof.
  intros (Hs & Hx & _). induction hist as [|[v cs] hist IH]; [constructor|].
  rewrite fmap_cons in Hs. apply StronglySorted_cons in Hs as [Hlt Hs]. apply Forall_cons in Hx as [[Hv Hnd] Hx].
  change (allPairs ((v, cs) :: hist)) with (setPairs (v, cs) ++ allPairs hist). rewrite fmap_app. apply NoDup_app.
  split; [|split; [|by apply IH]].
  - unfold setPairs. rewrite <- list_fmap_compose. cbn [fst snd] in *.
    apply (NoDup_fmap_1 fst). by rewrite <- list_fmap_compose.
  - intros [k t] Ha Hb. apply list_elem_of_fmap in Ha as ([t1 p1] & [= -> ->] & Ha). apply list_elem_of_fmap in Hb as ([t2 p2] & [= _ E] & Hb).
    apply list_elem_of_fmap in Ha as (? & [= -> _] & _). apply list_elem_of_bind in Hb as ([w cs'] & Hb & Hw).
    apply list_elem_of_fmap in Hb as (? & [= -> _] & _). cbn [fst] in *.
    destruct (proj1 (Forall_forall _ _) Hx _ Hw) as [Hw1 _]. cbn [fst] in *. rewrite !u64_id in E by lia.
    apply (list_elem_of_fmap_2 fst) in Hw. pose proof (proj1 (Forall_forall _ _) Hlt _ Hw) as Hvw. cbn [fst] in Hvw. lia.
Qed.

(** A database written block by block has the operations of the history. *)
Lemma written_history store hist :
  plain_name store -> StronglySorted Z.lt hist.*1 -> Forall (fun x => 1 <= x.1 < 2 ^ 63) hist ->
  exists m : memdb, written (storeHist store hist) m /\
    forall k t, db_entry m k t = foldl (opEntry k t) None (tsOp store <$> allPairs hist).
Proof.
  intros Hst. induction hist as [|[v cs] hist IH] using rev_ind; intros Hs Hx.
  { exists []. split; [by constructor|done]. }
  rewrite fmap_app in Hs. apply StronglySorted_app in Hs as (Hlt & Hs & _). apply Forall_app in Hx as [Hx [Hv _]%Forall_cons].
  destruct (IH Hs Hx) as (m & Hm & He). set (ops := OpLatest (PutUint64 (u64 v)) :: (tsOp store <$> setPairs (v, cs))).
  exists (m ++ ops). split.
  - unfold storeHist. rewrite fmap_app. apply (written_put _ m _ v _); [exact Hm| |done| |].
    + apply Forall_fmap, Forall_forall. intros x Hin. cbn. apply Hlt; [by apply list_elem_of_fmap_2|left].
    + apply Forall_fmap, Forall_true. intros p. exact Hst.
    + unfold PutAtVersion. cbn. unfold ops, setPairs. rewrite <- !list_fmap_compose. done.
  - intros k t. cbn [db_entry memdb_ops]. rewrite foldl_app. change (foldl (opEntry k t) None m) with (db_entry m k t).
    rewrite He. unfold allPairs. rewrite bind_app, fmap_app, foldl_app. cbn [mbind list_bind]. by rewrite app_nil_r.
Qed.

(** The key of an operation. *)
Definition opKey (op : dbOp) : bytes := match op with OpPut k _ _ | OpDelete k _ => k | OpLatest _ => [] end.

Lemma opKey_tsOp store x : opKey (tsOp store x) = prependStoreKey store (PairKey x.2).
Proof. unfold tsOp. by destruct (Tree.Delete x.2). Qed.

Lemma files_disjoint store fs :
  StronglySorted file_before fs ->
  StronglySorted (fun f g : list dbOp => forall a b, a ∈ f -> b ∈ g -> opKey a <b opKey b) (fileOps store <$> fs).
Proof.
  induction 1 as [|f fs _ IH Hf]; [constructor|]. rewrite fmap_cons. constructor; [done|]. apply Forall_fmap.
  eapply Forall_impl; [exact Hf|]. intros g Hg a b Ha Hb.
  apply list_elem_of_fmap in Ha as (x & -> & Hx), Hb as (y & -> & Hy). rewrite !opKey_tsOp.
  unfold prependStoreKey, bytes_lt. rewrite compare_app. by apply Hg.
Qed.

Lemma concat_fileOps store fs : concat (fileOps store <$> fs) = tsOp store <$> concat fs.
Proof. induction fs as [|f fs IH]; [done|]. rewrite fmap_cons. cbn [concat]. by rewrite IH, fmap_app. Qed.

Lemma ops_ordered store l : StronglySorted pair_before l -> StronglySorted op_before (tsOp store <$> l).
Proof.
  induction 1 as [|x l _ IH Hx]; [constructor|]. rewrite fmap_cons. constructor; [done|]. apply Forall_fmap.
  eapply Forall_impl; [exact Hx|]. intros y. apply tsOp_before.
Qed.

Section Ingested.
Context {D : Type} {TD : TSDB D} {TL : TSDBLaws D} {SI : SSTIngest D} {IL : SSTIngestLaws D}.
Implicit Types (d : D).

Lemma ingested_entries files maxVersion d d' :
  StronglySorted op_before (concat files) -> (forall k t, db_entry d k t = None) -> db_plain d = None -> maxVersion < 2 ^ 63 ->
  IngestVersionDBSST files maxVersion d = Some (Ok d') ->
  (forall k t, db_entry d' k t = foldl (opEntry k t) None (concat files)) /\ GetLatestVersion d' = Some (Z.max 0 maxVersion).
Proof.
  intros Hs Hd Hp Hmax. unfold IngestVersionDBSST.
  destruct (match files with [] => Ok d | _ => IngestExternalFileCF d files end) as [d1|] eqn:E1; [|done].
  assert ((forall k t, db_entry d1 k t = foldl (opEntry k t) None (concat files)) /\ db_plain d1 = None) as [He1 Hp1].
  { destruct files as [|f files]; [injection E1 as <-; by split|]. split; [|by rewrite (ingest_plain _ _ _ E1)].
    intros k t. by rewrite (ingest_entry _ _ _ k t Hs E1), Hd. }
  assert (GetLatestVersion d1 = Some 0) as El by (unfold GetLatestVersion; by rewrite Hp1).
  destruct (Z.ltb_spec 0 maxVersion) as [Hpos|Hneg].
  - rewrite El. cbn [mbind option_bind]. rewrite (proj2 (Z.ltb_lt _ _)) by done. intros [= E]. unfold SetLatestVersion in E. split.
    + intros k t. rewrite (db_write_entry _ _ _ _ _ E). cbn. apply He1.
    + unfold GetLatestVersion. rewrite (db_write_plain _ _ _ E). cbn [foldl opPlain]. rewrite Z.max_r by lia. apply latest_decoded. lia.
  - intros [= <-]. split; [done|]. by rewrite Z.max_l by lia.
Qed.

(** Reads only depend on the entries. *)
Lemma same_reads `{TSDBLaws D'} d (m : D') skip store key ver :
  (forall k t, db_entry d k t = db_entry m k t) -> GetAtVersion skip d store key ver = GetAtVersion skip m store key ver.
Proof.
  intros He. unfold GetAtVersion.
  rewrite (newest_unique _ _ _ _ (db_get_newest d _ _) (newest_ext _ _ _ _ (fun u _ => eq_sym (He _ u)) (db_get_newest m _ _))).
  done.
Qed.
End Ingested.

Section Correct.
Context {SW : SSTFileWriter} {WL : SSTWriterLaws}.
Context {D : Type} {TD : TSDB D} {TL : TSDBLaws D} {SI : SSTIngest D} {IL : SSTIngestLaws D}.

(** C35: building the database of versions from dumped change sets.  However the
    change sets of a store are spread over files, the conversion ends, its writer
    is never given a key out of order, no file is empty and no key is in two
    files; and a new database into which the files are moved answers every read
    of the store at every version as the change sets up to that version say. *)
Theorem converted_db_correct os_Open stdin unzlib unsnappy os_ReadDir sortFiles sortSlice compress decompress order
    store changeSetDir hist sstFileSize chunk :
  libraries_ok sortFiles sortSlice compress decompress order ->
  dumped os_Open stdin unzlib unsnappy os_ReadDir changeSetDir store hist ->
  0 < sstFileSize -> history_ok hist -> plain_name store ->
  exists files : list (string * list dbOp),
    convertSingleStore os_Open stdin unzlib unsnappy os_ReadDir sortFiles sortSlice compress decompress order
      store changeSetDir sstFileSize chunk = Some (Ok files) /\
    Forall (fun f => f <> []) files.*2 /\ StronglySorted op_before (concat files.*2) /\
    StronglySorted (fun f g => forall a b, a ∈ f -> b ∈ g -> opKey a <b opKey b) files.*2 /\
    forall (d d' : D) maxVersion,
      (forall k t, db_entry d k t = None) -> db_plain d = None -> maxVersion < 2 ^ 63 ->
      IngestVersionDBSST files.*2 maxVersion d = Some (Ok d') ->
      GetLatestVersion d' = Some (Z.max 0 maxVersion) /\
      forall skip key v, 0 <= v < 2 ^ 63 ->
        GetAtVersion skip d' store key (Some v) = valueAt (storeHist store hist) v store key.
Proof.
  intros Hlib Hdump Hsz Hhist Hst. pose proof (history_ids hist Hhist) as Hids. destruct Hhist as (Hs & Hx & Hfit).
  destruct (convert_files os_Open stdin unzlib unsnappy os_ReadDir sortFiles sortSlice compress decompress order
    store changeSetDir hist sstFileSize chunk Hlib Hdump Hsz Hfit Hids) as (fs & E & Hp & Hord & Hne & Hfb).
  exists (imap (fun i f => (sstFileName store i, f)) (fileOps store <$> fs)).
  assert ((imap (fun i f => (sstFileName store i, f)) (fileOps store <$> fs)).*2 = fileOps store <$> fs) as E2.
  { rewrite fmap_imap. apply list_eq. intros i. rewrite list_lookup_imap. by destruct (_ !! i). }
  rewrite E2. split; [done|]. split; [|split; [|split; [by apply files_disjoint|]]].
  - apply Forall_fmap. eapply Forall_impl; [exact Hne|]. intros f Hf. by destruct f.
  - rewrite concat_fileOps. by apply ops_ordered.
  - intros d d' maxVersion Hd Hpl Hmax Hi.
    apply ingested_entries in Hi as [He Hl]; [|rewrite concat_fileOps; by apply ops_ordered|done..]. split; [done|].
    intros skip key v Hv. rewrite concat_fileOps in He.
    destruct (written_history store hist Hst Hs (Forall_impl _ _ _ Hx (fun x => @proj1 _ _))) as (m & Hm & Em).
    rewrite (same_reads d' m).
    + rewrite (GetAtVersion_valueAt _ _ _ _ _ _ Hm Hst). cbn [readTimestamp]. by rewrite u64_id by lia.
    + intros k t. rewrite He, Em. apply tsOps_perm; [done|]. by rewrite Hp.
Qed.
End Correct.

(** ** An example: two files *)

#[local] Instance exWriter : SSTFileWriter := {|
  FileSize f := zlen f;
  sstAdd f op := Ok (f ++ [op]);
  sstFinish f := match f with [] => Err "no entries" | _ => Ok tt end
|}.

#[local] Instance exWriter_laws : SSTWriterLaws.
Proof. split; [done|done|]. by intros [|op f]. Qed.

(** A file only has operations on keys. *)
Definition onKey (op : dbOp) : bool := match op with OpLatest _ => false | _ => true end.

#[local] Instance exIngest : SSTIngest memdb := fun d files => Ok (d ++ filter (fun op => onKey op = true) (concat files)).

#[local] Instance exIngest_laws : SSTIngestLaws memdb.
Proof.
  split.
  - intros d files d' k t _ [= <-]. cbn. rewrite foldl_app. generalize (foldl (opEntry k t) None d) as acc.
    induction (concat files) as [|op l IH]; intros acc; [done|]. by destruct op; cbn; apply IH.
  - intros d files d' [= <-]. cbn. rewrite foldl_app. generalize (foldl opPlain None d) as acc.
    induction (concat files) as [|op l IH]; intros acc; [done|]. by destruct op; cbn; apply IH.
Qed.

Definition exHist : list (Z * ChangeSet) :=
  [(1, [mkPair false [x01] (Some [x0a]); mkPair false [x02] (Some [x0b])]); (3, [mkPair true [x01] None])].

(** The later change set is in the first file. *)
Definition exOpen (name : string) : result bytes :=
  if bool_decide (name = "cs/bank/block-0") then Ok (setBytes (3, [mkPair true [x01] None]))
  else Ok (setBytes (1, [mkPair false [x01] (Some [x0a]); mkPair false [x02] (Some [x0b])])).

Definition exSortItems : list bytes -> list bytes :=
  merge_sort (fun a b => lessItem b a = false) (H := fun a b => decide (lessItem b a = false)).

Lemma exLibraries : libraries_ok (fun l => l) exSortItems (fun b => b) (fun b => b) (@rev bytes).
Proof.
  split_and!; [done| |done|intros l; symmetry; apply Permutation_rev]. intros l. split; [apply merge_sort_Permutation|].
  destruct lessItem_strict_weak as [Ha Ht]. apply StronglySorted_merge_sort.
  - intros a b c H1 H2. by apply (Ht a b c).
  - intros a b. destruct (lessItem b a) eqn:E; [right; by apply Ha|by left].
Qed.

Lemma exDumped : dumped exOpen [] Ok Ok (fun _ => Ok ["block-0"; "block-1"]) "cs" "bank" exHist.
Proof.
  exists [("block-0", [(3, [mkPair true [x01] None])]);
          ("block-1", [(1, [mkPair false [x01] (Some [x0a]); mkPair false [x02] (Some [x0b])])])].
  split; [done|]. split; [|apply Permutation_swap].
  repeat constructor; try (vm_compute; congruence).
Qed.

Lemma exHist_ok : history_ok exHist.
Proof.
  split; [|split].
  - repeat constructor.
  - constructor; [split; [cbn; lia|]|constructor; [split; [cbn; lia|]|constructor]].
    + cbn. apply NoDup_cons. split; [set_solver|apply NoDup_singleton].
    + apply NoDup_singleton.
  - repeat constructor; cbn; try lia; vm_compute; congruence.
Qed.

Lemma converted_db_correct_witness :
  exists files, convertSingleStore exOpen [] Ok Ok (fun _ => Ok ["block-0"; "block-1"]) (fun l => l) exSortItems
      (fun b => b) (fun b => b) (@rev bytes) "bank" "cs" 1 100 = Some (Ok files) /\
    forall d', IngestVersionDBSST files.*2 3 ([] : memdb) = Some (Ok d') ->
      GetAtVersion true d' "bank" [x01] (Some 2) = Some [x0a] /\ GetAtVersion true d' "bank" [x01] (Some 3) = None.
Proof.
  destruct (converted_db_correct (D := memdb) exOpen [] Ok Ok (fun _ => Ok ["block-0"; "block-1"]) (fun l => l) exSortItems
    (fun b => b) (fun b => b) (@rev bytes) "bank" "cs" exHist 1 100) as (files & E & _ & _ & _ & Hr).
  - exact exLibraries.
  - exact exDumped.
  - lia.
  - exact exHist_ok.
  - intros Hin. apply list_elem_of_In in Hin. vm_compute in Hin. intuition discriminate.
  - exists files. split; [exact E|]. intros d' Hi. destruct (Hr ([] : memdb) d' 3) as [_ Hg]; [done|done|lia|exact Hi|].
    rewrite !Hg by lia. split; reflexivity.
Defined.
