(* ===== verification/Db.v ===== *)
(** * The database: [memiavl/db.go]

    [DB] on top of [MultiTree]: the pending log, synchronous and asynchronous
    commits to the write-ahead log, snapshot rewriting in the background,
    pruning, loading.  The disk (the snapshot directories, the [current] link
    and the log) is part of the state, so that a crash is the loss of
    everything but the disk.

    The methods are atomic, as the mutex makes them; the goroutines (the log
    writer, the snapshot rewriter, the pruner) take their own steps, one disk
    operation each.  The [Logger], the export trigger and the file lock have no
    effect on the state and are left out. *)

From S2P Require Import Prelude KV Binary Sha256 Node Hash Snapshot Persisted Tree Proto Wal.
From S2P Require Import MultiTree MultiSnapshot SnapshotName.

Open Scope string_scope.
Open Scope Z_scope.
Open Scope list_scope.

(** ** State *)

Record walEntry := mkEntry { index : Z; data : WALEntry }.

Definition emptyLog : WALEntry := mkWALEntry [] [].

#[global] Instance name_le_dec a b : Decision (name_le a b).
Proof. unfold name_le. apply _. Defined.

(** The log writer: running, blocked on sending its error, or gone. *)
Inductive writerState := WRunning | WFailed (err : error) | WClosed.

Section DB.
Context {C : Type} `{CacheC : Cache C} {L : Type} `{LogL : WalLog L}.

(** The directory of the database: the snapshot directories by name (the
    temporary ones included), the link [current], the link [current-tmp] when
    one is left, and the log. *)
Record Disk := mkDisk {
  dirs : gmap string snapshotDir;
  current : option string;
  currentTmp : option string;
  wal : L
}.

(** What the snapshot rewriting goroutine does next, or the value in its
    channel: the loaded tree, an error, or neither when the channel was closed
    without a value. *)
Inductive rewriter :=
  | RWrite (cloned : MultiTree C)
  | RRename (cloned : MultiTree C)
  | RSymlink (cloned : MultiTree C)
  | RSwitch (cloned : MultiTree C)
  | RLoad (cloned : MultiTree C)
  | RResult (mtree : option (MultiTree C)) (err : option error).

(** What the pruning goroutine does next: read the listing, move the directories
    of some versions away one by one and remove them, truncate the log unless
    the traversal failed. *)
Inductive pruner :=
  | PList
  | PRename (versions : list Z) (err : option error)
  | PRemove (version : Z) (versions : list Z) (err : option error)
  | PTruncate.

(** The channel holds also the entries the writer has received and not yet
    written; [None] is a nil channel.  A nil [wal] is [walOpen = false]. *)
Record DB := mkDB {
  mtree : MultiTree C;
  readOnly : bool;
  snapshotKeepRecent : Z;
  snapshotInterval : Z;
  walOpen : bool;
  walChanSize : Z;
  walChan : option (list walEntry);
  walQuit : writerState;
  pendingLog : WALEntry;
  rewriting : option rewriter;
  pruning : option pruner
}.

Record Sys := mkSys { db : DB; disk : Disk }.

Definition withDb (s : Sys) (f : DB -> DB) : Sys := mkSys (f (db s)) (disk s).
Definition withDisk (s : Sys) (f : Disk -> Disk) : Sys := mkSys (db s) (f (disk s)).

Definition setTree (x : MultiTree C) (d : DB) : DB :=
  mkDB x (readOnly d) (snapshotKeepRecent d) (snapshotInterval d) (walOpen d) (walChanSize d)
    (walChan d) (walQuit d) (pendingLog d) (rewriting d) (pruning d).
Definition setPending (x : WALEntry) (d : DB) : DB :=
  mkDB (mtree d) (readOnly d) (snapshotKeepRecent d) (snapshotInterval d) (walOpen d)
    (walChanSize d) (walChan d) (walQuit d) x (rewriting d) (pruning d).
Definition setChan (x : option (list walEntry)) (d : DB) : DB :=
  mkDB (mtree d) (readOnly d) (snapshotKeepRecent d) (snapshotInterval d) (walOpen d)
    (walChanSize d) x (walQuit d) (pendingLog d) (rewriting d) (pruning d).
Definition setQuit (x : writerState) (d : DB) : DB :=
  mkDB (mtree d) (readOnly d) (snapshotKeepRecent d) (snapshotInterval d) (walOpen d)
    (walChanSize d) (walChan d) x (pendingLog d) (rewriting d) (pruning d).
Definition setRewriting (x : option rewriter) (d : DB) : DB :=
  mkDB (mtree d) (readOnly d) (snapshotKeepRecent d) (snapshotInterval d) (walOpen d)
    (walChanSize d) (walChan d) (walQuit d) (pendingLog d) x (pruning d).
Definition setPruning (x : option pruner) (d : DB) : DB :=
  mkDB (mtree d) (readOnly d) (snapshotKeepRecent d) (snapshotInterval d) (walOpen d)
    (walChanSize d) (walChan d) (walQuit d) (pendingLog d) (rewriting d) x.

Definition setWal (l : L) (d : Disk) : Disk := mkDisk (dirs d) (current d) (currentTmp d) l.
Definition setDirs (m : gmap string snapshotDir) (d : Disk) : Disk :=
  mkDisk m (current d) (currentTmp d) (wal d).

Definition errReadOnly : error := "db is read-only".

(** A method of the embedded [MultiTree]. *)
Definition onTree {A} (f : SE (MultiTree C) A) : SE Sys A := fun s =>
  '(r, t) ← f (mtree (db s)); Some (r, withDb s (setTree t)).

Definition guardReadOnly : SE Sys unit :=
  ro ← gets (fun s => readOnly (db s));
  if (ro : bool) then throw errReadOnly else mret tt.

(** ** Changes *)

Definition DBApplyUpgrades (us : list TreeNameUpgrade) : SE Sys unit :=
  _ ← guardReadOnly;
  _ ← onTree (MTApplyUpgrades us);
  modify (fun s => withDb s (setPending
    (mkWALEntry (weChangesets (pendingLog (db s))) (weUpgrades (pendingLog (db s)) ++ us)))).

(** A stable sort of change sets by name. *)
Fixpoint insertCS (cs : NamedChangeSet) (l : list NamedChangeSet) : list NamedChangeSet :=
  match l with
  | [] => [cs]
  | cs' :: l' => if name_ltb (csName cs') (csName cs) then cs' :: insertCS cs l' else cs :: l
  end.

Definition sortCS (l : list NamedChangeSet) : list NamedChangeSet := foldr insertCS [] l.

(** Append to the first pending change set of the store, or add one. *)
Definition mergePending (name : string) (pairs : ChangeSet) (css : list NamedChangeSet)
    : list NamedChangeSet :=
  match list_find (fun cs => csName cs = name) css with
  | Some (i, _) => alter (fun cs => mkNamedCS (csName cs) (csPairs cs ++ pairs)) i css
  | None => sortCS (css ++ [mkNamedCS name pairs])
  end.

Definition applyChangeSet (name : string) (pairs : ChangeSet) : SE Sys unit :=
  match pairs with
  | [] => mret tt
  | _ =>
      _ ← guardReadOnly;
      _ ← modify (fun s => withDb s (setPending
            (mkWALEntry (mergePending name pairs (weChangesets (pendingLog (db s))))
               (weUpgrades (pendingLog (db s))))));
      onTree (MTApplyChangeSet name pairs)
  end.

Definition DBApplyChangeSet (name : string) (pairs : ChangeSet) : SE Sys unit :=
  match pairs with [] => mret tt | _ => applyChangeSet name pairs end.

Definition DBApplyChangeSets (css : list NamedChangeSet) : SE Sys unit :=
  match css with
  | [] => mret tt
  | _ =>
      _ ← guardReadOnly;
      pending ← gets (fun s => weChangesets (pendingLog (db s)));
      match pending with
      | [] =>
          _ ← modify (fun s => withDb s (setPending
                (mkWALEntry css (weUpgrades (pendingLog (db s))))));
          onTree (MTApplyChangeSets css)
      | _ => forM css (fun cs => applyChangeSet (csName cs) (csPairs cs))
      end
  end.

(** ** The log *)

(** [writeEntry] on an empty batch: an index that is already there is skipped. *)
Definition writeEntry (lastIndex : Z) (e : walEntry) : list (Z * bytes) :=
  if index e <=? lastIndex then []
  else [(index e, WALEntry_Marshal (data e))].

Definition writeEntries (lastIndex : Z) (es : list walEntry) : list (Z * bytes) :=
  es ≫= writeEntry lastIndex.

(** One round of the loop of [initAsyncCommit]: the first [n] entries of the
    channel in one batch; an error ends the goroutine. *)
Definition writeBatch (n : nat) (q : list walEntry) (s : Sys) : Sys :=
  let l := wal (disk s) in
  match log_write l (writeEntries (log_last l) (take n q)) with
  | Ok l' => mkSys (setChan (Some (drop n q)) (db s)) (setWal l' (disk s))
  | Err e => withDb s (fun d => setQuit (WFailed e) (setChan (Some (drop n q)) d))
  end.

(** Wait until the writer has emptied the channel. *)
Definition drainWal (s : Sys) : Sys :=
  match walQuit (db s), walChan (db s) with
  | WRunning, Some (e :: q) => writeBatch (S (length q)) (e :: q) s
  | _, _ => s
  end.

(** Closing the channel, and the error the writer leaves. *)
Definition waitAsyncCommit : SE Sys unit :=
  ch ← gets (fun s => walChan (db s));
  match ch with
  | None => mret tt
  | Some _ =>
      _ ← modify drainWal;
      q ← gets (fun s => walQuit (db s));
      _ ← modify (fun s => withDb s (fun d => setQuit WRunning (setChan None d)));
      match q with
      | WFailed e => throw e
      | _ => mret tt
      end
  end.

(** [CommittedVersion]; the panic of [SnapshotVersion] is [None]. *)
Definition CommittedVersion (s : Sys) : option Z :=
  if log_last (wal (disk s)) =? 0 then SnapshotVersion (mtree (db s))
  else Some (walVersion (log_last (wal (disk s))) (initialVersion (mtree (db s)))).

(** ** Background results *)

(** [reloadMultiTree] *)
Definition reloadMultiTree (t : MultiTree C) : SE Sys unit :=
  _ ← modify (fun s => withDb s (setTree t));
  p ← gets (fun s => pendingLog (db s));
  onTree (applyWALEntry p).

Definition checkAsyncCommit : SE Sys unit :=
  q ← gets (fun s => walQuit (db s));
  match q with
  | WRunning => mret tt
  | WFailed e =>
      _ ← modify (fun s => withDb s (setQuit WClosed));
      throw ("async wal writing goroutine quit unexpectedly: " ++ e)%string
  | WClosed => throw "async wal writing goroutine quit unexpectedly: %!w(<nil>)"
  end.

(** The spin loop waits for the log writer; it ends only when the log has
    reached the version of the tree. *)
Definition checkBackgroundSnapshotRewrite : SE Sys unit :=
  r ← gets (fun s => rewriting (db s));
  match r with
  | Some (RResult m err) =>
      _ ← modify (fun s => withDb s (setRewriting None));
      match m with
      | None =>
          match err with
          | Some e => throw ("background snapshot rewriting failed: " ++ e)%string
          | None => mret tt
          end
      | Some m =>
          _ ← modify drainWal;
          committed ← gets CommittedVersion;
          v ← gets (fun s => MTVersion (mtree (db s)));
          committed ← orPanic committed;
          if negb (v =? committed) then orPanic None
          else
            l ← gets (fun s => wal (disk s));
            r ← orPanic (CatchupWAL l 0 m);
            _ ← orErr r.1;
            _ ← reloadMultiTree r.2;
            p ← gets (fun s => pruning (db s));
            match p with
            | None => modify (fun s => withDb s (setPruning (Some PList)))
            | Some _ => orPanic None
            end
      end
  | _ => mret tt
  end.

(** The error of a call, the state after it. *)
Definition catch (m : SE Sys unit) : SE Sys (option error) := fun s =>
  '(r, s) ← m s; Some (Ok match r with Ok _ => None | Err e => Some e end, s).

(** [errors.Join] evaluates both. *)
Definition checkAsyncTasks : SE Sys unit :=
  e1 ← catch checkAsyncCommit;
  e2 ← catch checkBackgroundSnapshotRewrite;
  match e1, e2 with
  | None, None => mret tt
  | Some e, None | None, Some e => throw e
  | Some e1, Some e2 => throw (e1 ++ "; " ++ e2)%string
  end.

(** [rewriteSnapshotBackground]: the goroutine starts with a copy. *)
Definition rewriteSnapshotBackground : SE Sys unit :=
  r ← gets (fun s => rewriting (db s));
  match r with
  | Some _ => throw "there's another ongoing snapshot rewriting process"
  | None =>
      modify (fun s => withDb s (setRewriting (Some (RWrite (MTCopy (mtree (db s)) 0)))))
  end.

Definition RewriteSnapshotBackground : SE Sys unit :=
  _ ← guardReadOnly; rewriteSnapshotBackground.

(** The remainder panics on a zero interval. *)
Definition rewriteIfApplicable (height : Z) : SE Sys unit :=
  i ← gets (fun s => snapshotInterval (db s));
  if i =? 0 then orPanic None
  else if negb (Z.rem height i =? 0) then mret tt
  else _ ← catch rewriteSnapshotBackground; mret tt.

(** ** Commit *)

(** A send to a channel whose writer runs; [initAsyncCommit] makes both. *)
Definition sendEntry (e : walEntry) (d : DB) : DB :=
  match walChan d with
  | Some q => setChan (Some (q ++ [e])) d
  | None => setQuit WRunning (setChan (Some [e]) d)
  end.

Definition writeLog (entry : walEntry) : SE Sys unit :=
  size ← gets (fun s => walChanSize (db s));
  if 0 <=? size then modify (fun s => withDb s (sendEntry entry))
  else
    l ← gets (fun s => wal (disk s));
    l ← orErr (log_write l (writeEntry (log_last l) entry));
    modify (fun s => withDisk s (setWal l)).

(** [Commit] up to the reset of the pending log: what follows looks after the
    goroutines. *)
Definition commitLog : SE Sys Z :=
  _ ← guardReadOnly;
  v ← onTree (MTSaveVersion true);
  hasLog ← gets (fun s => walOpen (db s));
  entry ← gets (fun s => mkEntry (walIndex v (initialVersion (mtree (db s)))) (pendingLog (db s)));
  _ ← (if (hasLog : bool) then writeLog entry else mret tt);
  _ ← modify (fun s => withDb s (setPending emptyLog));
  mret v.

Definition Commit : SE Sys Z :=
  v ← commitLog;
  _ ← checkAsyncTasks;
  _ ← rewriteIfApplicable v;
  mret v.

(** [DB.Copy]: a database of its own in memory, without a log. *)
Definition DBCopy (d : DB) : DB :=
  mkDB (MTCopy (mtree d) (cacheSize (mtree d))) false 0 0 false 0 None WRunning emptyLog None None.

(** [DB.SaveVersion] *)
Definition DBSaveVersion (updateCommitInfo : bool) : SE Sys Z :=
  _ ← guardReadOnly; onTree (MTSaveVersion updateCommitInfo).

(** [DB.Close]: the goroutine that rewrites a snapshot is cancelled and waited
    for; closing twice dereferences the nil log. *)
Definition Close : SE Sys unit :=
  err ← catch waitAsyncCommit;
  r ← gets (fun s => rewriting (db s));
  opened ← gets (fun s => walOpen (db s));
  match r, opened with
  | None, true | Some (RResult _ _), true =>
      _ ← modify (fun s => withDb s (fun d =>
            mkDB (MTClose (mtree d)) (readOnly d) (snapshotKeepRecent d) (snapshotInterval d) false
              (walChanSize d) (walChan d) (walQuit d) (pendingLog d) None (pruning d)));
      match err with Some e => throw e | None => mret tt end
  | _, _ => orPanic None
  end.

(** ** Snapshot directories *)

(** Writing into a directory replaces the files of the stores written and keeps
    those of other stores. *)
Definition writeInto (old : option snapshotDir) (d : snapshotDir) : snapshotDir :=
  match old with
  | None => d
  | Some o => mkSnapshotDir
      (sdTrees d ++ List.filter (fun e => negb (bool_decide (e.1 ∈ (sdTrees d).*1))) (sdTrees o))
      (sdMetadata d)
  end.

Definition writeDir (name : string) (sd : snapshotDir) (d : Disk) : Disk :=
  setDirs (<[name := writeInto (dirs d !! name) sd]> (dirs d)) d.

(** [os.Rename] on directories: the target must not be there (a snapshot
    directory is never empty). *)
Definition renameDir (from to : string) (d : Disk) : result Disk :=
  match dirs d !! from, dirs d !! to with
  | None, _ => Err "no such file or directory"
  | Some _, Some _ => Err "file exists"
  | Some x, None => Ok (setDirs (<[to := x]> (delete from (dirs d))) d)
  end.

Definition RemoveAll (name : string) (d : Disk) : Disk := setDirs (delete name (dirs d)) d.

Definition tmpName (name : string) : string := (name ++ TmpSuffix)%string.

Definition atomicRemoveDir (name : string) (d : Disk) : result Disk :=
  d ← renameDir name (tmpName name) d; Ok (RemoveAll (tmpName name) d).

(** The two calls of [updateCurrentSymlink]. *)
Definition symlinkTmp (snapshot : string) (d : Disk) : result Disk :=
  match currentTmp d with
  | Some _ => Err "file exists"
  | None => Ok (mkDisk (dirs d) (current d) (Some snapshot) (wal d))
  end.

Definition renameLink (d : Disk) : result Disk :=
  match currentTmp d with
  | Some snapshot => Ok (mkDisk (dirs d) (Some snapshot) None (wal d))
  | None => Err "no such file or directory"
  end.

Definition updateCurrentSymlink (snapshot : string) (d : Disk) : result Disk :=
  d ← symlinkTmp snapshot d; renameLink d.

(** [os.ReadDir]: sorted by name.  The links and files and the directory of the
    log have no name of a snapshot and no temporary name. *)
Definition readDir (d : Disk) : list (string * bool) :=
  (fun n => (n, true)) <$> merge_sort name_le (elements (dom (dirs d))).

Definition currentVersion (d : Disk) : result Z :=
  match current d with
  | None => Err "no such file or directory"
  | Some name => parseVersion name
  end.

(** A step of the disk that can fail. *)
Definition onDisk (f : Disk -> result Disk) : SE Sys unit := fun s =>
  match f (disk s) with
  | Ok d => Some (Ok tt, mkSys (db s) d)
  | Err e => Some (Err e, s)
  end.

(** *** Writing and switching *)

(** [RewriteSnapshotWithContext] *)
Definition RewriteSnapshot (ctxDone : Z -> bool) : SE Sys unit :=
  _ ← guardReadOnly;
  t ← gets (fun s => mtree (db s));
  let snapshotDir := snapshotName (MTVersion t) in
  let tmpDir := tmpName snapshotDir in
  match MTWriteSnapshotWithContext ctxDone t with
  | Err e => _ ← modify (fun s => withDisk s (RemoveAll tmpDir)); throw e
  | Ok sd =>
      _ ← modify (fun s => withDisk s (writeDir tmpDir sd));
      _ ← onDisk (renameDir tmpDir snapshotDir);
      onDisk (updateCurrentSymlink snapshotDir)
  end.

Definition currentDir (d : Disk) : result snapshotDir :=
  match current d ≫= (fun n => dirs d !! n) with
  | Some sd => Ok sd
  | None => Err "no such file or directory"
  end.

Definition Reload : SE Sys unit :=
  t ← gets (fun s => mtree (db s));
  sd ← gets (fun s => currentDir (disk s));
  sd ← orErr sd;
  r ← orPanic (LoadMultiTree sd (mtZeroCopy t) (cacheSize t));
  t ← orErr r;
  reloadMultiTree t.

(** The goroutine of [rewriteSnapshotBackground], phase by phase: writing the
    directories of all stores is one phase, and so is loading them again and
    catching up with the log; the renaming and the two halves of the replacement
    of the link are one disk operation each.  A failure before the snapshot is
    there only closes the channel. *)
Definition rewriterStep (ctxDone : Z -> bool) (s : Sys) : option Sys :=
  let next r d := Some (mkSys (setRewriting (Some r) (db s)) d) in
  let try (r : rewriter) (x : result Disk) :=
    match x with
    | Ok d => next r d
    | Err _ => next (RResult None None) (disk s)
    end in
  let name t := snapshotName (MTVersion t) in
  match rewriting (db s) with
  | Some (RWrite t) =>
      match MTWriteSnapshotWithContext ctxDone t with
      | Ok sd => next (RRename t) (writeDir (tmpName (name t)) sd (disk s))
      | Err _ => next (RResult None None) (RemoveAll (tmpName (name t)) (disk s))
      end
  | Some (RRename t) => try (RSymlink t) (renameDir (tmpName (name t)) (name t) (disk s))
  | Some (RSymlink t) => try (RSwitch t) (symlinkTmp (name t) (disk s))
  | Some (RSwitch t) => try (RLoad t) (renameLink (disk s))
  | Some (RLoad t) =>
      match currentDir (disk s) with
      | Err e => next (RResult None (Some e)) (disk s)
      | Ok sd =>
          r ← LoadMultiTree sd (mtZeroCopy t) 0;
          match r with
          | Err e => next (RResult None (Some e)) (disk s)
          | Ok m =>
              '(r, m) ← CatchupWAL (wal (disk s)) 0 m;
              match r with
              | Err e => next (RResult None (Some e)) (disk s)
              | Ok _ => next (RResult (Some m) None) (disk s)
              end
          end
      end
  | _ => None
  end.

(** The goroutine of [pruneSnapshots], one disk operation at a time. *)
Definition prunerStep (s : Sys) : option Sys :=
  let next p d := Some (mkSys (setPruning p (db s)) d) in
  match pruning (db s) with
  | Some PList =>
      match currentVersion (disk s) with
      | Err _ => next None (disk s)
      | Ok v =>
          let '(l, err) := prunedVersions (readDir (disk s)) v (snapshotKeepRecent (db s)) in
          next (Some (PRename l err)) (disk s)
      end
  | Some (PRename (v :: l) err) =>
      match renameDir (snapshotName v) (tmpName (snapshotName v)) (disk s) with
      | Ok d => next (Some (PRemove v l err)) d
      | Err _ => next (Some (PRename l err)) (disk s)
      end
  | Some (PRemove v l err) =>
      next (Some (PRename l err)) (RemoveAll (tmpName (snapshotName v)) (disk s))
  | Some (PRename [] (Some _)) => next None (disk s)
  | Some (PRename [] None) => next (Some PTruncate) (disk s)
  | Some PTruncate =>
      let earliestVersion :=
        match firstSnapshotVersion (readDir (disk s)) with Ok v => v | Err _ => 0 end in
      match log_truncate_front (wal (disk s))
              (walIndex (earliestVersion + 1) (initialVersion (mtree (db s)))) with
      | Ok l => next None (setWal l (disk s))
      | Err _ => next None (disk s)
      end
  | None => None
  end.

(** ** Opening *)

Definition initEmptyDB (iv : Z) (d : Disk) : result Disk :=
  sd ← MTWriteSnapshotWithContext (fun _ => false) (NewEmptyMultiTree (C:=C) iv 0);
  updateCurrentSymlink (snapshotName 0) (writeDir (snapshotName 0) sd d).

Definition createDBIfNotExist (iv : Z) (d : Disk) : result Disk :=
  match currentDir d with
  | Ok _ => Ok d
  | Err _ => initEmptyDB iv d
  end.

Definition DBSetInitialVersion (iv : Z) : SE Sys unit :=
  _ ← guardReadOnly;
  v ← gets (fun s => MTVersion (mtree (db s)));
  if 0 <? v then throw "initial version can only be set before any commit"
  else
    _ ← onTree (MTSetInitialVersion iv);
    iv ← gets (fun s => initialVersion (mtree (db s)));
    onDisk (initEmptyDB iv).

Definition hasSuffix (p b : bytes) : bool :=
  (length p <=? length b)%nat && bool_decide (drop (length b - length p) b = p).

(** [strings.HasSuffix(name, TmpSuffix)] *)
Definition isTmpName (name : string) : bool :=
  hasSuffix (bytes_of_string TmpSuffix) (bytes_of_string name).

(** Only directories: a link [current-tmp] stays. *)
Definition removeTmpDirs (d : Disk) : Disk :=
  setDirs (filter (fun e => isTmpName e.1 = false) (dirs d)) d.

Record Options := mkOptions {
  CreateIfMissing : bool;
  InitialVersion : Z;
  ReadOnly : bool;
  InitialStores : list string;
  SnapshotKeepRecent : Z;
  SnapshotInterval : Z;
  TargetVersion : Z;
  AsyncCommitBuffer : Z;
  ZeroCopy : bool;
  CacheSize : Z;
  LoadForOverwriting : bool
}.

Definition Validate (o : Options) : result unit :=
  fail_if (ReadOnly o && CreateIfMissing o) "can't create db in read-only mode" ;;
  fail_if (ReadOnly o && LoadForOverwriting o) "can't rollback db in read-only mode".

Definition DefaultSnapshotInterval : Z := 1000.

(** [FillDefaults], the part the state depends on. *)
Definition filledInterval (o : Options) : Z :=
  if SnapshotInterval o =? 0 then DefaultSnapshotInterval else SnapshotInterval o.

(** The snapshots after the target, from the newest on, until one is not. *)
Definition newerVersions (entries : list (string * bool)) (target : Z) : list Z * option error :=
  traverseSnapshots (fun l version =>
    if version <=? target then (l, true) else (l ++ [version], false)) entries false [].

(** A directory that cannot be removed is logged and skipped. *)
Definition removeVersion (d : Disk) (v : Z) : Disk :=
  match atomicRemoveDir (snapshotName v) d with Ok d => d | Err _ => d end.

(** The rollback part of [Load]. *)
Definition overwrite (snapshot : string) (target iv : Z) : SE Disk unit :=
  cur ← gets current;
  match cur with
  | None => throw "fail to read current version"
  | Some cur =>
      _ ← (if bool_decide (snapshot = cur) then mret tt
           else
             d ← gets (updateCurrentSymlink snapshot);
             d ← orErr d; modify (fun _ => d));
      l ← gets (fun d => log_truncate_back (wal d) (walIndex target iv));
      l ← orErr l;
      _ ← modify (setWal l);
      r ← gets (fun d => newerVersions (readDir d) target);
      _ ← modify (fun d => foldl removeVersion d r.1);
      match r.2 with
      | Some e => throw ("fail to prune snapshots: " ++ e)%string
      | None => mret tt
      end
  end.

(** The name of the snapshot to load: [None] is the one [current] links to. *)
Definition loadName (o : Options) : SE Disk (option string) :=
  if 0 <? TargetVersion o then
    r ← gets (fun d => seekSnapshot (readDir d) (TargetVersion o));
    v ← orErr r;
    mret (Some (snapshotName v))
  else mret None.

Definition openDir (name : option string) (d : Disk) : result snapshotDir :=
  match name with
  | None => currentDir d
  | Some n => match dirs d !! n with Some sd => Ok sd | None => Err "no such file or directory" end
  end.

(** The multi-tree at the target version, or at the end of the log. *)
Definition loadTree (o : Options) (name : option string) : SE Disk (MultiTree C) :=
  sd ← gets (openDir name);
  sd ← orErr sd;
  r ← orPanic (LoadMultiTree sd (ZeroCopy o) (CacheSize o));
  t ← orErr r;
  l ← gets wal;
  if (TargetVersion o =? 0) || (MTVersion t <? TargetVersion o) then
    r ← orPanic (CatchupWAL l (TargetVersion o) t);
    _ ← orErr r.1;
    mret r.2
  else mret t.

Definition Load (o : Options) : SE Disk DB :=
  _ ← orErr (Validate o);
  _ ← (if CreateIfMissing o then
         d ← gets (createDBIfNotExist (InitialVersion o));
         d ← orErr d; modify (fun _ => d)
       else mret tt);
  _ ← (if ReadOnly o then mret tt else modify removeTmpDirs);
  name ← loadName o;
  t ← loadTree o name;
  _ ← match name with
      | Some n => if LoadForOverwriting o then overwrite n (TargetVersion o) (initialVersion t)
                  else mret tt
      | None => mret tt
      end;
  let db0 := mkDB t (ReadOnly o) (SnapshotKeepRecent o) (filledInterval o) true
               (AsyncCommitBuffer o) None WRunning emptyLog None None in
  if negb (ReadOnly o) && (MTVersion t =? 0) && negb (bool_decide (InitialStores o = [])) then
    d ← gets (fun d => d);
    r ← orPanic (DBApplyUpgrades ((fun n => mkUpgrade n "" false) <$> InitialStores o) (mkSys db0 d));
    _ ← orErr r.1;
    mret (db r.2)
  else mret db0.

Definition GetLatestVersion (d : Disk) : option (result Z) :=
  match currentDir d with
  | Err _ => Some (Ok 0)
  | Ok sd =>
      md ← readMetadata (sdMetadata sd);
      match md with
      | Err e => Some (Err e)
      | Ok metadata => Some (Ok (walVersion (log_last (wal d)) (u32 (mdInitialVersion metadata))))
      end
  end.
End DB.

Arguments Disk : clear implicits.
Arguments rewriter : clear implicits.
Arguments DB : clear implicits.
Arguments Sys : clear implicits.
