(* ===== verification/DbDisk.v ===== *)
(** * The names in the directory of a database

    Names of snapshots and temporary names are apart, and the listing of a
    directory with such names is the sorted list of its snapshots. *)

From Stdlib Require Import Strings.Byte.
From S2P Require Import Prelude KV Binary Sha256 Node Hash Snapshot Persisted Tree Proto Wal.
From S2P Require Import MultiTree MultiSnapshot SnapshotName Db.

Open Scope string_scope.
Open Scope Z_scope.
Open Scope list_scope.

Lemma bytes_of_string_app a b :
  bytes_of_string (a ++ b)%string = bytes_of_string a ++ bytes_of_string b.
Proof.
  unfold bytes_of_string, String.list_byte_of_string. induction a as [|c a IH]; [done|].
  change (String c a +:+ b) with (String c (a +:+ b)). cbn [String.list_ascii_of_string map app].
  by rewrite IH.
Qed.

Lemma tmpName_bytes n : bytes_of_string (tmpName n) = bytes_of_string n ++ bytes_of_string TmpSuffix.
Proof. apply bytes_of_string_app. Qed.

Lemma tmpName_inj n m : tmpName n = tmpName m -> n = m.
Proof.
  intros E%(f_equal bytes_of_string). rewrite !tmpName_bytes in E. apply app_inv_tail in E.
  rewrite <- (String.string_of_list_byte_of_string n), <- (String.string_of_list_byte_of_string m).
  by f_equal.
Qed.

Lemma isTmpName_tmpName n : isTmpName (tmpName n) = true.
Proof.
  unfold isTmpName, hasSuffix. rewrite tmpName_bytes, length_app, Nat.add_sub, drop_app_length.
  rewrite bool_decide_true by done. rewrite (proj2 (Nat.leb_le _ _)) by lia. done.
Qed.

(** A snapshot name ends in digits. *)
Lemma isTmpName_snapshotName v : 0 <= v -> isTmpName (snapshotName v) = false.
Proof.
  intros Hv. unfold isTmpName, hasSuffix. rewrite snapshotName_bytes by done.
  apply andb_false_iff. right. apply bool_decide_eq_false.
  rewrite length_app, length_digits. change (length (bytes_of_string SnapshotPrefix)) with 9%nat.
  change (length (bytes_of_string TmpSuffix)) with 4%nat. cbn [Nat.add Nat.sub].
  change 25%nat with (length (bytes_of_string SnapshotPrefix) + 16)%nat. rewrite <- drop_drop, drop_app_length.
  change (digits 20 v) with (digits 19 (v / 10) ++ [byte_of_Z (48 + v mod 10)]).
  rewrite drop_app_le by (rewrite length_digits; lia).
  intros E%(f_equal last). change (last (bytes_of_string TmpSuffix)) with (Some x70) in E.
  rewrite last_snoc in E.
  injection E as E%(f_equal byte_to_Z). rewrite digit_byte in E. cbn in E.
  pose proof (Z.mod_pos_bound v 10). lia.
Qed.

Lemma isSnapshotName_tmpName v : 0 <= v -> isSnapshotName (tmpName (snapshotName v)) = false.
Proof.
  intros Hv. unfold isSnapshotName. apply andb_false_iff. right.
  rewrite tmpName_bytes, snapshotName_bytes, !length_app, length_digits by done. done.
Qed.

Lemma tmpName_snapshotName v w : 0 <= w -> tmpName (snapshotName v) <> snapshotName w.
Proof.
  intros Hw E. pose proof (isTmpName_tmpName (snapshotName v)) as Ht.
  by rewrite E, isTmpName_snapshotName in Ht.
Qed.

(** ** Listings *)

(** The names a database directory has. *)
Definition good_name (n : string) : Prop :=
  exists v, 0 <= v < 2 ^ 31 /\ (n = snapshotName v \/ n = tmpName (snapshotName v)).

Lemma parse_good v : 0 <= v < 2 ^ 31 -> parseVersion (snapshotName v) = Ok v.
Proof. intros Hv. rewrite parseVersion_snapshotName by lia. by rewrite (proj2 (Z.leb_gt _ _)) by lia. Qed.

Definition dirEntries (names : list string) : list (string * bool) := (fun n => (n, true)) <$> names.

Lemma dirEntries_ok l : Forall good_name l -> entries_ok (dirEntries l).
Proof.
  intros Hl. apply Forall_fmap. eapply Forall_impl; [exact Hl|]. intros n (v & Hv & [->| ->]) _.
  - intros _. exists v. by apply parse_good.
  - cbn [fst]. by rewrite isSnapshotName_tmpName by lia.
Qed.

Lemma elem_of_snapshotVersions l v :
  Forall good_name l -> v ∈ snapshotVersions (dirEntries l) <-> 0 <= v < 2 ^ 31 /\ snapshotName v ∈ l.
Proof.
  intros Hl. unfold snapshotVersions, dirEntries. rewrite list_elem_of_omap. split.
  - intros ([n b] & (m & E & Hin)%list_elem_of_fmap & Hv). injection E as -> ->. cbn [andb] in Hv.
    rewrite Forall_forall in Hl. destruct (Hl m Hin) as (w & Hw & [->| ->]).
    + rewrite isSnapshotName_snapshotName, parse_good in Hv by lia. by injection Hv as <-.
    + by rewrite isSnapshotName_tmpName in Hv by lia.
  - intros [Hv Hin]. exists (snapshotName v, true). split; [by apply (list_elem_of_fmap_2 (fun n => (n, true)))|].
    by rewrite isSnapshotName_snapshotName, parse_good by lia.
Qed.

Lemma snapshotVersions_sorted l :
  Forall good_name l -> NoDup l -> StronglySorted name_le l ->
  StronglySorted Z.lt (snapshotVersions (dirEntries l)).
Proof.
  intros Hl Hnd Hs. induction Hs as [|n l Hs IH Hall]; [constructor|].
  pose proof (proj2 (proj1 (Forall_cons _ _ _) Hl)) as Hl'.
  apply NoDup_cons in Hnd as [Hnin Hnd]. specialize (IH Hl' Hnd).
  change (dirEntries (n :: l)) with ([(n, true)] ++ dirEntries l). unfold snapshotVersions.
  rewrite omap_app. fold (snapshotVersions (dirEntries l)). cbn [omap list_omap andb].
  apply Forall_cons in Hl as [(v & Hv & [->| ->]) _].
  - rewrite isSnapshotName_snapshotName, parse_good by lia. cbn [app]. constructor; [done|].
    apply Forall_forall. intros w [Hw Hin]%elem_of_snapshotVersions; [|done].
    rewrite Forall_forall in Hall. specialize (Hall _ Hin).
    destruct (Z.lt_trichotomy v w) as [?|[<-|Hlt]]; [done|done|].
    unfold name_le in Hall. by rewrite snapshotName_lt in Hall by lia.
  - by rewrite isSnapshotName_tmpName by lia.
Qed.

#[global] Instance name_le_total : Total name_le.
Proof. intros a b. rewrite !name_le_bytes, !bytes_le_lteq.
  destruct (bytes_compare_spec (String.list_byte_of_string a) (String.list_byte_of_string b)); auto. Qed.

#[global] Instance name_le_trans : Transitive name_le.
Proof. intros a b c. rewrite !name_le_bytes. intros. bytes_order. Qed.

(** The versions of the snapshots on a disk: what the traversals see. *)
Lemma readDir_versions {L} (d : Disk L) :
  (forall n, n ∈ dom (dirs d) -> good_name n) ->
  entries_ok (readDir d) /\ StronglySorted Z.lt (snapshotVersions (readDir d)) /\
  forall v, v ∈ snapshotVersions (readDir d) <-> 0 <= v < 2 ^ 31 /\ snapshotName v ∈ dom (dirs d).
Proof.
  intros Hd. set (l := merge_sort name_le (elements (dom (dirs d)))).
  change (readDir d) with (dirEntries l).
  assert (Permutation l (elements (dom (dirs d)))) as Hp by apply merge_sort_Permutation.
  assert (Forall good_name l) as Hl.
  { rewrite Hp. apply Forall_forall. intros n Hn%elem_of_elements. by apply Hd. }
  split; [by apply dirEntries_ok|]. split.
  - apply snapshotVersions_sorted; [done| |].
    + rewrite Hp. apply NoDup_elements.
    + apply (StronglySorted_merge_sort name_le).
  - intros v. rewrite elem_of_snapshotVersions by done. by rewrite Hp, elem_of_elements.
Qed.
