(* ===== verification/NameSort.v ===== *)
(** * Sorting by name

    [sort.SliceStable] and [os.ReadDir] order by a name; the insertion sort here
    is stable, and on distinct names its result does not depend on the order of
    the input, which is what makes a loop over a Go map deterministic. *)

From S2P Require Import Prelude KV Binary MultiTree DbDisk.

Open Scope list_scope.

Section SortBy.
Context {A : Type} (name : A -> string).

Fixpoint insertBy (x : A) (l : list A) : list A :=
  match l with
  | [] => [x]
  | y :: l' => if name_ltb (name y) (name x) then y :: insertBy x l' else x :: l
  end.

Definition sortBy (l : list A) : list A := foldr insertBy [] l.

Lemma insertBy_perm x l : insertBy x l ≡ₚ x :: l.
Proof.
  induction l as [|y l IH]; [done|]. cbn [insertBy]. destruct (name_ltb _ _); [|done].
  rewrite IH. apply Permutation_swap.
Qed.

Lemma sortBy_perm l : sortBy l ≡ₚ l.
Proof. induction l as [|x l IH]; [done|]. cbn [sortBy foldr]. by rewrite insertBy_perm, IH. Qed.

Lemma sortBy_id l : StronglySorted name_le (name <$> l) -> sortBy l = l.
Proof.
  induction l as [|x l IH]; [done|]. cbn [fmap list_fmap]. intros [Hs Hf]%StronglySorted_inv.
  cbn [sortBy foldr]. fold (sortBy l). rewrite IH by done. destruct l as [|y l]; [done|].
  apply Forall_cons in Hf as [Hy _]. unfold name_le in Hy. cbn [insertBy]. by rewrite Hy.
Qed.

Lemma name_ltb_antisym a b : a <> b -> name_ltb a b = negb (name_ltb b a).
Proof.
  intros Hne. destruct (name_ltb_spec a b), (name_ltb_spec b a); try done.
  - exfalso. bytes_order.
  - exfalso. apply Hne. rewrite <- (String.string_of_list_byte_of_string a).
    rewrite <- (String.string_of_list_byte_of_string b). f_equal. by apply bytes_le_antisym.
Qed.

Lemma name_ltb_trans a b c : name_ltb a b = true -> name_ltb b c = true -> name_ltb a c = true.
Proof.
  destruct (name_ltb_spec a b), (name_ltb_spec b c), (name_ltb_spec a c); try done. exfalso. bytes_order.
Qed.

Lemma insertBy_comm x y l :
  name x <> name y -> insertBy x (insertBy y l) = insertBy y (insertBy x l).
Proof.
  intros Hne. induction l as [|z l IH]; cbn [insertBy].
  - rewrite (name_ltb_antisym (name y) (name x)) by done. by destruct (name_ltb (name x) (name y)).
  - destruct (name_ltb (name z) (name y)) eqn:Ey, (name_ltb (name z) (name x)) eqn:Ex; cbn [insertBy];
      rewrite ?Ex, ?Ey; [by rewrite IH|..].
    + destruct (name_ltb (name x) (name y)) eqn:Exy; [by rewrite ?Ey|].
      rewrite (name_ltb_antisym (name x) (name y)) in Exy by done. apply negb_false_iff in Exy.
      by rewrite (name_ltb_trans _ _ _ Ey Exy) in Ex.
    + destruct (name_ltb (name y) (name x)) eqn:Eyx; [by rewrite ?Ex|].
      rewrite (name_ltb_antisym (name y) (name x)) in Eyx by done. apply negb_false_iff in Eyx.
      by rewrite (name_ltb_trans _ _ _ Ex Eyx) in Ey.
    + rewrite (name_ltb_antisym (name y) (name x)) by done.
      destruct (name_ltb (name x) (name y)); cbn [negb]; by rewrite ?Ex, ?Ey.
Qed.

(** The sorted list does not depend on the order of the input. *)
Lemma sortBy_unique l l' : l ≡ₚ l' -> NoDup (name <$> l) -> sortBy l = sortBy l'.
Proof.
  induction 1 as [|x l l' _ IH|x y l|l l' l'' Hp IH _ IH']; cbn [fmap list_fmap]; intros Hnd; [done|..].
  - apply NoDup_cons in Hnd as [_ Hnd]. cbn [sortBy foldr]. f_equal. by apply IH.
  - cbn [sortBy foldr]. apply insertBy_comm. apply NoDup_cons in Hnd as [Hn _]. set_solver.
  - rewrite IH by done. apply IH'. by rewrite <- Hp.
Qed.

Lemma sortBy_app l l' : sortBy (l ++ l') = foldr insertBy (sortBy l') l.
Proof. apply foldr_app. Qed.
End SortBy.
