(* ===== verification/DbHistory.v ===== *)
(** * The history of a database

    The sequence of entries committed so far determines the state at every
    version: what their replay makes of the empty multi-tree.  This file has
    the lemmas on replaying a history: every prefix is a well-formed state, and
    replaying the rest from an equivalent state leads to equivalent states. *)

From S2P Require Import Prelude KV Binary Sha256 Node Hash Snapshot Persisted Tree Proto Wal.
From S2P Require Import MultiTree MultiSnapshot SnapshotName Db.

Open Scope string_scope.
Open Scope Z_scope.
Open Scope list_scope.

Section History.
Context {C : Type} `{LawsC : CacheLaws C}.
Implicit Types t : MultiTree C.

(** ** Operations that succeed keep the invariant *)

Lemma applyUpgrade_forall (P : Tree C -> Prop) u t t' :
  (forall tr, NewWithInitialVersion (u32 (nextVersion (MTVersion t) (initialVersion t))) (cacheSize t)
     = Some tr -> P tr) ->
  Forall (fun e => P (ntTree e)) (trees t) -> applyUpgrade u t = Some (Ok tt, t') ->
  t' = withTrees t (trees t') /\ Forall (fun e => P (ntTree e)) (trees t').
Proof.
  intros Hf Hl. unfold applyUpgrade. sstate. destruct (upDelete u).
  - destruct (indexOfName _ _) as [i|] eqn:Ei; [|done]. intros [= <-]. split; [done|].
    cbn [trees withTrees]. unfold swapDelete. destruct (last (trees t)) as [e|] eqn:El; [|done].
    apply Forall_take, Forall_insert; [done|]. rewrite Forall_forall in Hl. apply Hl.
    by apply last_Some_elem_of.
  - destruct (negb _).
    + destruct (indexOfName _ _) as [i|] eqn:Ei; [|done]. intros [= <-]. split; [done|].
      cbn [trees withTrees]. apply Forall_alter; [done|]. by intros ? _.
    + sstate. destruct (NewWithInitialVersion _ _) as [tr|]; [|done]. sstate. intros [= <-].
      split; [done|]. cbn [trees withTrees]. apply Forall_app. split; [done|].
      repeat constructor. by apply Hf.
Qed.

Lemma forM_applyUpgrade_forall (P : Tree C -> Prop) us t t' :
  (forall tr, NewWithInitialVersion (u32 (nextVersion (MTVersion t) (initialVersion t))) (cacheSize t)
     = Some tr -> P tr) ->
  Forall (fun e => P (ntTree e)) (trees t) -> forM us applyUpgrade t = Some (Ok tt, t') ->
  t' = withTrees t (trees t') /\ Forall (fun e => P (ntTree e)) (trees t').
Proof.
  revert t. induction us as [|u us IH]; intros t Hf Hl; cbn [forM].
  { intros [= <-]. by destruct t. }
  intros E%SE_bind_inv. destruct (applyUpgrade u t) as [[[[]|] t1]|] eqn:E1; try done.
  destruct (applyUpgrade_forall P u t t1 Hf Hl E1) as [Et1 Hl1]. rewrite Et1 in E.
  apply IH in E as [Et' Hl']; [by split|done|done].
Qed.

Lemma MTApplyUpgrades_forall (P : Tree C -> Prop) us t t' :
  (forall tr, NewWithInitialVersion (u32 (nextVersion (MTVersion t) (initialVersion t))) (cacheSize t)
     = Some tr -> P tr) ->
  Forall (fun e => P (ntTree e)) (trees t) -> MTApplyUpgrades us t = Some (Ok tt, t') ->
  t' = withNames (withTrees t (trees t')) (treesByName t') /\ Forall (fun e => P (ntTree e)) (trees t').
Proof.
  intros Hf Hl E. destruct us as [|u us]; [injection E as <-; by destruct t|].
  cbn [MTApplyUpgrades] in E. rewrite SE_bind_modify in E. apply SE_bind_inv in E.
  destruct (forM _ _ _) as [[[[]|] t1]|] eqn:E1; try done.
  apply (forM_applyUpgrade_forall P) in E1 as [Et1 Hall]; [|done|done].
  autorewrite with sstate in E. destruct (indexTrees 0 _ ∅) as [m [err|]]; [done|].
  injection E as <-. rewrite Et1. split; [done|]. cbn [trees withNames withTrees].
  by rewrite sortByName_perm.
Qed.

Lemma MTApplyUpgrades_ok us t t' :
  mt_ok t -> treeVersion t < MaxUint32 -> MTApplyUpgrades us t = Some (Ok tt, t') ->
  mt_ok t' /\ MTVersion t' = MTVersion t /\ initialVersion t' = initialVersion t.
Proof.
  intros Hok Hlt E. destruct (decide (us = [])) as [->|Hus]; [by injection E as <-|].
  pose proof (MTApplyUpgrades_names us t t' Hus E) as [Hi Hs].
  pose proof Hok as (_ & _ & Hv & Ht).
  apply (MTApplyUpgrades_forall (fun tr => version tr = treeVersion t /\ tree_ok tr)) in E as [Et Hall].
  - destruct Hv as (Hv0 & Hiv & Htv & _). rewrite Et in *. split; [|done].
    split; [done|]. split; [done|]. split; [split; [done|split; [done|split; [done|]]]|].
    + eapply Forall_impl; [exact Hall|]. by intros e [? _].
    + eapply Forall_impl; [exact Hall|]. by intros e [_ ?].
  - intros tr Htr. destruct (fresh_tree t Hv Hlt) as (tr' & E' & _ & ? & ?).
    rewrite E' in Htr. by injection Htr as <-.
  - apply Forall_and. split; [apply Hv|done].
Qed.

(** An entry fits a state: its upgrades succeed, its change sets are for stores
    that are there and do not outgrow them. *)
Definition fits (e : WALEntry) (t : MultiTree C) : Prop :=
  exists t1, MTApplyUpgrades (weUpgrades e) t = Some (Ok tt, t1) /\
    Forall (fun cs => csName cs ∈ names (trees t1)) (weChangesets e) /\
    css_fit (weChangesets e) (trees t1).

Lemma MTApplyChangeSets_ok t css :
  mt_ok t -> Forall (fun cs => csName cs ∈ names (trees t)) css -> css_fit css (trees t) ->
  exists l, MTApplyChangeSets css t = Some (Ok tt, withTrees t l) /\ mt_ok (withTrees t l) /\
    treesApply css (trees t) = Some l /\ names l = names (trees t) /\ Forall2 (tree_after css) (trees t) l.
Proof.
  intros Hok Hn Hfit. pose proof Hok as (Hi & _ & _ & Ht).
  destruct (treesApply_ok css (trees t) Ht Hfit) as (l & El & Hl). exists l.
  split; [by rewrite MTApplyChangeSets_spec, El by done|].
  split; [by eapply mt_ok_withTrees|]. split; [done|]. split; [by eapply tree_after_names|done].
Qed.

Lemma applyWALEntry_ok e t :
  mt_ok t -> treeVersion t < MaxUint32 -> fits e t ->
  exists t', applyWALEntry e t = Some (Ok tt, t') /\ mt_ok t' /\
    MTVersion t' = MTVersion t /\ initialVersion t' = initialVersion t.
Proof.
  intros Hok Hlt (t1 & E1 & Hn & Hfit).
  destruct (MTApplyUpgrades_ok _ _ _ Hok Hlt E1) as (Hok1 & Ev & Ei).
  destruct (MTApplyChangeSets_ok t1 (weChangesets e) Hok1 Hn Hfit) as (l & El & Hl & _).
  exists (withTrees t1 l). unfold applyWALEntry. by rewrite (SE_bind_ok _ _ _ _ _ E1).
Qed.

Lemma replayEntry_ok e t :
  mt_ok t -> treeVersion t < MaxUint32 -> fits e t ->
  exists t1, applyWALEntry e t = Some (Ok tt, t1) /\ mt_ok t1 /\
    replayEntry e t = Some (Ok tt, saved t1 false) /\ mt_ok (saved t1 false) /\
    MTVersion (saved t1 false) = nextVersion (MTVersion t) (initialVersion t) /\
    initialVersion (saved t1 false) = initialVersion t.
Proof.
  intros Hok Hlt Hf. destruct (applyWALEntry_ok e t Hok Hlt Hf) as (t1 & E1 & Hok1 & Ev & Ei).
  assert (treeVersion t1 = treeVersion t) as Et by (unfold treeVersion; by rewrite Ev, Ei).
  destruct (saved_ok t1 false Hok1) as (Es & Hok' & Ev'); [lia|].
  exists t1. split; [done|]. split; [done|]. split; [|split; [done|]].
  - unfold replayEntry. by rewrite (SE_bind_ok _ _ _ _ _ E1), (SE_bind_ok _ _ _ _ _ Es).
  - rewrite Ev', Ev, Ei. done.
Qed.

(** ** Facts that depend on a state up to equivalence *)

Lemma css_fit_equiv css (l l' : list (NamedTree C)) :
  Forall2 same_named l l' -> css_fit css l -> css_fit css l'.
Proof.
  unfold css_fit. induction 1 as [|a b l l' (En & _ & Er) _ IH]; intros Hl; [constructor|].
  apply Forall_cons in Hl as [Ha Hl]. constructor; [by rewrite <- En, <- Er|by apply IH].
Qed.

Lemma fits_equiv e t t' : t ≡ t' -> fits e t -> fits e t'.
Proof.
  intros Heq (t1 & E1 & Hn & Hf).
  destruct (rel_ok _ _ _ _ _ _ (MTApplyUpgrades_rel _) Heq E1) as (t1' & E1' & Heq1).
  exists t1'. pose proof Heq1 as (_ & _ & _ & Hl). split; [done|].
  split; [by rewrite <- (same_names _ _ Hl)|by eapply css_fit_equiv].
Qed.

(** The commit info of a state whose versions are saved. *)
Definition infoOf (t : MultiTree C) : CommitInfo := buildCommitInfo t (MTVersion t).

Lemma infoOf_equiv t t' : t ≡ t' -> infoOf t = infoOf t'.
Proof.
  intros (_ & Ev & _ & Hl). unfold infoOf, buildCommitInfo. rewrite Ev. f_equal.
  induction Hl as [|a b l l' (En & Evv & Er) _ IH]; [done|]. cbn [fmap list_fmap].
  rewrite IH. f_equal. unfold RootHash. by rewrite En, Evv, Er.
Qed.

(** The state fits the snapshot format. *)
Definition storable_state (t : MultiTree C) : Prop :=
  Forall (fun e => storable_root (treeRoot (ntTree e))) (trees t) /\
  metadata_valid (mkMetadata (Some (infoOf t)) (initialVersion t)).

Lemma storable_state_equiv t t' : t ≡ t' -> storable_state t -> storable_state t'.
Proof.
  intros Heq [Hr Hm]. unfold storable_state. rewrite <- (infoOf_equiv _ _ Heq).
  destruct Heq as (Ei & _ & _ & Hl). rewrite <- Ei. split; [|done]. clear Hm.
  induction Hl as [|a b l l' (_ & _ & Er) _ IH]; [constructor|].
  apply Forall_cons in Hr as [Ha Hr]. constructor; [by rewrite <- Er|by apply IH].
Qed.

Lemma mt_storable_state t :
  mt_ok t -> MTVersion t < 2 ^ 32 -> lastCommitInfo t = infoOf t -> storable_state t -> mt_storable t.
Proof. intros Hok Hv Ei [Hr Hm]. split; [done|]. split; [done|]. by rewrite Ei. Qed.

Lemma UpdateCommitInfo_equiv t : UpdateCommitInfo t ≡ t.
Proof. by apply withCommitInfo_equiv. Qed.

Lemma UpdateCommitInfo_ok t : mt_ok t -> mt_ok (UpdateCommitInfo t).
Proof. done. Qed.

Lemma treeVersion_equiv t t' : t ≡ t' -> treeVersion t = treeVersion t'.
Proof. intros (Ei & Ev & _). unfold treeVersion. by rewrite Ei, Ev. Qed.

(** A copy is the same state. *)
Lemma MTCopy_ok t cs :
  mt_ok t -> MTCopy t cs ≡ t /\ mt_ok (MTCopy t cs) /\
  lastCommitInfo (MTCopy t cs) = lastCommitInfo t.
Proof.
  intros (Hi & Hs & Hv & Ht). destruct Hi as (m & Em & Hm).
  set (l := mapTrees (fun tr => TreeCopy tr cs) (trees t)).
  assert (names l = names (trees t)) as En
    by (unfold l, names, mapTrees; by rewrite <- list_fmap_compose).
  assert (indexed m l) as Hml by (intros n i; by rewrite En).
  assert (indexByName l = m) as Eidx.
  { apply (indexed_unique _ _ l); [|done]. apply indexByName_indexed. rewrite En.
    by eapply indexed_NoDup. }
  assert (Forall2 same_named l (trees t)) as Hl.
  { unfold l, mapTrees. apply Forall2_fmap_l. apply Forall_Forall2_diag, Forall_forall.
    by intros [] _. }
  split; [|split; [|done]].
  - split; [done|]. split; [done|]. split; [|done]. cbn [treesByName MTCopy]. fold l. by rewrite Eidx, Em.
  - split; [exists m; split; [cbn; fold l; by rewrite Eidx|done]|].
    split; [apply sorted_names_iff; cbn [trees MTCopy]; fold l; rewrite En; by apply sorted_names_iff|].
    destruct Hv as (Hv1 & Hv2 & Hv3 & Hv4). split; [split; [done|split; [done|split; [done|]]]|].
    + change (treeVersion (MTCopy t cs)) with (treeVersion t). by apply Forall_fmap.
    + apply Forall_fmap. eapply Forall_impl; [exact Ht|]. intros [tr n] (Hwf & _ & Hvv).
      split; [done|]. split; [|done]. unfold coherent. cbn. unfold NewCache.
      destruct (cs =? 0); [done|]. intros k x Hg. by rewrite cache_get_new in Hg.
Qed.

(** ** Histories *)

Section Genesis.
Context (iv : Z) (Hiv : 0 <= iv < 2 ^ 32).

Definition genesis : MultiTree C := NewEmptyMultiTree iv 0.

(** The state after the first [i] entries. *)
Definition stateAt (es : list WALEntry) (i : nat) (t : MultiTree C) : Prop :=
  replay (take i es) genesis = Some (Ok tt, t).

(** The version after [i] commits. *)
Definition versionAt (i : nat) : Z :=
  if (i =? 0)%nat then 0 else if 1 <? iv then iv + Z.of_nat i - 1 else Z.of_nat i.

Record hist_ok (es : list WALEntry) : Prop := {
  hist_states i : (i <= length es)%nat -> exists t, stateAt es i t /\ mt_ok t /\ storable_state t;
  hist_fits i e t : es !! i = Some e -> stateAt es i t -> fits e t;
  hist_small : Forall (fun e => zlen (WALEntry_Marshal e) < 2 ^ 63) es;
  hist_versions : versionAt (length es) < 2 ^ 31
}.

Lemma genesis_ok : mt_ok genesis.
Proof.
  split; [exists ∅; split; [done|]; intros n i; by rewrite lookup_empty|].
  split; [constructor|]. split; [|constructor]. split; [done|]. split; [done|]. split; [|constructor].
  unfold treeVersion. pose proof (nextVersion_pos 0 iv ltac:(lia)).
  change (MTVersion genesis) with 0. cbn [initialVersion genesis NewEmptyMultiTree]. lia.
Qed.

Lemma stateAt_unique es i t t' : stateAt es i t -> stateAt es i t' -> t = t'.
Proof. unfold stateAt. congruence. Qed.

Lemma stateAt_take es i j t : (i <= j)%nat -> stateAt (take j es) i t <-> stateAt es i t.
Proof. intros Hij. unfold stateAt. by rewrite take_take, Nat.min_l. Qed.

Lemma stateAt_app es es' i t :
  (i <= length es)%nat -> stateAt (es ++ es') i t <-> stateAt es i t.
Proof. intros Hi. unfold stateAt. by rewrite take_app_le. Qed.

Lemma stateAt_S es i e t t' :
  es !! i = Some e -> stateAt es i t -> replayEntry e t = Some (Ok tt, t') -> stateAt es (S i) t'.
Proof.
  intros He Ht E. unfold stateAt, replay. rewrite (take_S_r _ _ _ He), forM_app.
  rewrite (SE_bind_ok _ _ _ _ _ Ht). cbn [forM]. by rewrite (SE_bind_ok _ _ _ _ _ E).
Qed.

Lemma versionAt_S i : versionAt (S i) = nextVersion (versionAt i) iv.
Proof.
  unfold versionAt, nextVersion. cbn [Nat.eqb]. destruct (Nat.eqb_spec i 0) as [->|Hi].
  - cbn [Z.eqb andb]. destruct (1 <? iv); lia.
  - destruct (Z.ltb_spec 1 iv); rewrite (proj2 (Z.eqb_neq _ _)) by lia; cbn [andb]; lia.
Qed.

Lemma versionAt_lt i j : (i < j)%nat -> versionAt i < versionAt j.
Proof.
  intros Hij. unfold versionAt. rewrite (proj2 (Nat.eqb_neq j 0)) by lia.
  destruct (Nat.eqb_spec i 0), (Z.ltb_spec 1 iv); lia.
Qed.

Lemma versionAt_le i j : (i <= j)%nat -> versionAt i <= versionAt j.
Proof. intros Hij. destruct (decide (i = j)) as [->|]; [lia|]. pose proof (versionAt_lt i j). lia. Qed.

Lemma versionAt_nonneg i : 0 <= versionAt i.
Proof. apply (versionAt_le 0). lia. Qed.

Lemma versionAt_inj i j : versionAt i = versionAt j -> i = j.
Proof.
  intros E. destruct (Nat.lt_trichotomy i j) as [Hl|[?|Hl]]; [|done|];
    apply versionAt_lt in Hl; lia.
Qed.

(** The log index of a version. *)
Lemma walIndex_versionAt i : (1 <= i)%nat -> versionAt i < 2 ^ 63 -> walIndex (versionAt i) iv = Z.of_nat i.
Proof.
  intros Hi Hv. pose proof (versionAt_nonneg i). rewrite walIndex_spec; [|done|lia|].
  - unfold versionAt. rewrite (proj2 (Nat.eqb_neq i 0)) by lia. destruct (1 <? iv); lia.
  - unfold versionAt. rewrite (proj2 (Nat.eqb_neq i 0)) by lia. intros H1.
    rewrite (proj2 (Z.ltb_lt _ _)) by done. lia.
Qed.

Lemma walVersion_versionAt i :
  (1 <= i)%nat -> versionAt i < 2 ^ 62 -> walVersion (Z.of_nat i) iv = versionAt i.
Proof.
  intros Hi Hv. unfold versionAt in *. rewrite (proj2 (Nat.eqb_neq i 0)) in * by lia.
  rewrite walVersion_spec; destruct (1 <? iv) eqn:E; lia.
Qed.

(** One more entry. *)
Lemma stateAt_next es i e t :
  es !! i = Some e -> stateAt es i t -> mt_ok t -> fits e t ->
  MTVersion t = versionAt i -> initialVersion t = iv -> versionAt (S i) < 2 ^ 31 ->
  exists t1, applyWALEntry e t = Some (Ok tt, t1) /\ mt_ok t1 /\
    MTVersion t1 = versionAt i /\ initialVersion t1 = iv /\
    stateAt es (S i) (saved t1 false) /\ mt_ok (saved t1 false) /\
    MTVersion (saved t1 false) = versionAt (S i).
Proof.
  intros He Ht Hok Hf Ev Ei Hlt.
  assert (treeVersion t < MaxUint32) as Hlt'
    by (unfold treeVersion, MaxUint32; rewrite Ev, Ei, <- versionAt_S; lia).
  destruct (applyWALEntry_ok e t Hok Hlt' Hf) as (t1 & E1 & Hok1 & Ev1 & Ei1).
  destruct (replayEntry_ok e t Hok Hlt' Hf) as (t1' & E1' & _ & Er & Hok' & Ev' & Ei').
  rewrite E1 in E1'. injection E1' as <-. exists t1. rewrite Ev', versionAt_S, Ev1, Ei1, Ev, Ei.
  split; [done|]. split; [done|]. split; [done|]. split; [done|].
  split; [by eapply stateAt_S|done].
Qed.

Lemma stateAt_version es i t :
  hist_ok es -> (i <= length es)%nat -> stateAt es i t ->
  MTVersion t = versionAt i /\ initialVersion t = iv /\ mt_ok t /\ storable_state t.
Proof.
  intros Hh Hi Ht. destruct (hist_states es Hh i Hi) as (t' & Ht' & Hok & Hst).
  pose proof (stateAt_unique _ _ _ _ Ht Ht') as <-.
  enough (MTVersion t = versionAt i /\ initialVersion t = iv) by tauto.
  clear Hok Hst Ht'. revert t Ht. induction i as [|i IH]; intros t Ht.
  { by injection Ht as <-. }
  destruct (hist_states es Hh i) as (t0 & Ht0 & Hok0 & _); [lia|].
  destruct (lookup_lt_is_Some_2 es i) as [e He]; [lia|].
  destruct (IH ltac:(lia) _ Ht0) as [Ev Ei].
  pose proof (hist_versions es Hh). pose proof (versionAt_le (S i) (length es) ltac:(lia)).
  destruct (stateAt_next es i e t0 He Ht0 Hok0) as (t1 & _ & _ & _ & Ei1 & Ht1 & _ & Ev1);
    [by eapply hist_fits|done|done|lia|].
  pose proof (stateAt_unique _ _ _ _ Ht Ht1) as ->. by split.
Qed.

Lemma hist_nil : storable_state genesis -> hist_ok [].
Proof.
  intros Hst. split; [|done|constructor|done].
  intros i Hi. exists genesis. cbn [length] in Hi. replace i with 0%nat by lia.
  split; [done|]. by split; [apply genesis_ok|].
Qed.

Lemma hist_take es n : hist_ok es -> hist_ok (take n es).
Proof.
  intros Hh. split.
  - intros i Hi. rewrite length_take in Hi. destruct (hist_states es Hh i) as (t & Ht & ?); [lia|].
    exists t. split; [|done]. apply stateAt_take; [lia|done].
  - intros i e t He Ht. pose proof (lookup_lt_Some _ _ _ He) as Hl. rewrite length_take in Hl.
    rewrite lookup_take_lt in He by lia. eapply hist_fits; [done|done|].
    eapply stateAt_take; [|exact Ht]. lia.
  - apply Forall_take, Hh.
  - pose proof (hist_versions es Hh). rewrite length_take.
    pose proof (versionAt_le (n `min` length es) (length es) ltac:(lia)). lia.
Qed.

Lemma hist_snoc es e t :
  hist_ok es -> stateAt es (length es) t -> fits e t -> zlen (WALEntry_Marshal e) < 2 ^ 63 ->
  versionAt (S (length es)) < 2 ^ 31 ->
  (forall t', stateAt (es ++ [e]) (S (length es)) t' -> storable_state t') ->
  hist_ok (es ++ [e]).
Proof.
  intros Hh Ht Hf Hsz Hv Hst.
  destruct (stateAt_version es (length es) t Hh ltac:(lia) Ht) as (Ev & Ei & Hok & _).
  assert ((es ++ [e]) !! length es = Some e) as He by (by rewrite lookup_app_r, Nat.sub_diag by lia).
  pose proof (proj2 (stateAt_app es [e] (length es) t ltac:(lia)) Ht) as Ht'.
  split.
  - intros i Hi. rewrite length_app in Hi. cbn [length] in Hi.
    destruct (decide (i <= length es)%nat) as [Hle|].
    + destruct (hist_states es Hh i Hle) as (ti & Hti & ?). exists ti. split; [|done].
      by apply stateAt_app.
    + replace i with (S (length es)) by lia.
      destruct (stateAt_next _ _ e t He Ht' Hok Hf Ev Ei Hv) as (t1 & _ & _ & _ & _ & Hs & Hok' & _).
      exists (saved t1 false). split; [done|]. split; [done|]. by apply Hst.
  - intros i e' ti He' Hti. pose proof (lookup_lt_Some _ _ _ He') as Hl.
    rewrite length_app in Hl. cbn [length] in Hl.
    destruct (decide (i = length es)) as [->|Hne].
    + rewrite He in He'. injection He' as <-. by rewrite (stateAt_unique _ _ _ _ Hti Ht').
    + rewrite lookup_app_l in He' by lia. eapply hist_fits; [done|done|].
      eapply stateAt_app; [|exact Hti]. lia.
  - apply Forall_app. split; [apply Hh|by repeat constructor].
  - rewrite length_app, Nat.add_comm. done.
Qed.

(** Replaying a stretch of the history from an equivalent state. *)
Lemma replay_from es i j t ti :
  hist_ok es -> (i <= j <= length es)%nat -> stateAt es i ti -> t ≡ ti -> mt_ok t ->
  exists t' tj, replay (drop i (take j es)) t = Some (Ok tt, t') /\ stateAt es j tj /\
    t' ≡ tj /\ mt_ok t'.
Proof.
  intros Hh Hij Hti. revert t. remember (j - i)%nat as n eqn:En. revert i ti Hij Hti En.
  induction n as [|n IH]; intros i ti Hij Hti En t Heq Hok.
  { replace j with i in * by lia. exists t, ti. rewrite drop_ge by (rewrite length_take; lia). done. }
  destruct (lookup_lt_is_Some_2 es i) as [e He]; [lia|].
  destruct (stateAt_version es i ti Hh ltac:(lia) Hti) as (Ev & Ei & Hoki & _).
  pose proof (hist_versions es Hh). pose proof (versionAt_le (S i) (length es) ltac:(lia)).
  pose proof (hist_fits es Hh i e ti He Hti) as Hf.
  destruct (stateAt_next es i e ti He Hti Hoki Hf Ev Ei) as (t1 & _ & _ & _ & _ & Ht1 & _); [lia|].
  assert (treeVersion t < MaxUint32) as Hlt.
  { rewrite (treeVersion_equiv _ _ Heq). unfold treeVersion, MaxUint32.
    rewrite Ev, Ei, <- versionAt_S. lia. }
  destruct (replayEntry_ok e t Hok Hlt) as (u & _ & _ & Eu & Hoku & _);
    [by eapply fits_equiv|].
  destruct (rel_ok _ _ _ _ _ _ (replayEntry_rel e) Heq Eu) as (v & Ev' & Hequ).
  pose proof (stateAt_unique _ _ _ _ (stateAt_S _ _ _ _ _ He Hti Ev') Ht1) as ->.
  destruct (IH (S i) _ ltac:(lia) Ht1 ltac:(lia) _ Hequ Hoku) as (t' & tj & Er & Htj & Heq' & Hok').
  exists t', tj. split; [|done].
  rewrite (drop_S (take j es) e i) by (rewrite lookup_take_lt by lia; done).
  unfold replay. cbn [forM]. by rewrite (SE_bind_ok _ _ _ _ _ Eu).
Qed.

(** ** The log of a history *)

Section Log.
Context {L : Type} `{LawsL : WalLaws L}.

(** The log holds the history, up to some entry and from some entry on. *)
Definition log_holds (l : L) (es : list WALEntry) : Prop :=
  log_last l <= zlen es /\
  forall i e, es !! i = Some e -> log_first l <= Z.of_nat (S i) <= log_last l ->
    log_read l (Z.of_nat (S i)) = Ok (WALEntry_Marshal e).

(** Nothing after the first [i] entries is missing at the front. *)
Definition log_from (l : L) (i : nat) : Prop := log_last l = 0 \/ log_first l <= Z.of_nat (S i).

Lemma logged_stretch l es i j :
  log_holds l es -> log_from l i -> Z.of_nat j <= log_last l ->
  Forall (fun e => zlen (WALEntry_Marshal e) < 2 ^ 63) es ->
  logged l (Z.of_nat (S i)) (drop i (take j es)).
Proof.
  intros [Hlast Hh] Hf Hj Hsz. remember (j - i)%nat as n eqn:En. revert i Hf En.
  induction n as [|n IH]; intros i Hf En.
  { by rewrite drop_ge by (rewrite length_take; lia). }
  destruct (lookup_lt_is_Some_2 es i) as [e He]; [lia|].
  rewrite (drop_S (take j es) e i) by (rewrite lookup_take_lt by lia; done). cbn [logged].
  split; [|split].
  - apply Hh; [done|]. destruct Hf; lia.
  - rewrite Forall_forall in Hsz. apply Hsz. by eapply list_elem_of_lookup_2.
  - replace (Z.of_nat (S i) + 1) with (Z.of_nat (S (S i))) by lia. apply IH; [|lia].
    destruct Hf; [by left|right; lia].
Qed.

(** The entry after which catching up stops. *)
Definition catchup_end (l : L) (i : nat) (endVersion : Z) (k : nat) : Prop :=
  endVersion = 0 /\ k = Z.to_nat (log_last l) \/ endVersion = versionAt k /\ (i < k)%nat.

Lemma catchup_state l es i k endVersion t ti :
  hist_ok es -> (i <= length es)%nat -> (k <= length es)%nat -> stateAt es i ti -> t ≡ ti -> mt_ok t ->
  log_holds l es -> log_from l i -> catchup_end l i endVersion k ->
  let m := (i `max` (k `min` Z.to_nat (log_last l)))%nat in
  exists t' tm, CatchupWAL l endVersion t = Some (Ok tt, t') /\ stateAt es m tm /\ t' ≡ tm /\ mt_ok t' /\
    (lastCommitInfo t = infoOf t -> lastCommitInfo t' = infoOf t').
Proof.
  intros Hh Hi Hk Hti Heq Hok Hl Hf Hend m.
  destruct (stateAt_version es i ti Hh Hi Hti) as (Ev & Ei & _).
  pose proof Heq as (Ei' & Ev' & _).
  pose proof (hist_versions es Hh) as Hv31. pose proof (log_last_pos l) as Hpos.
  assert (forall n, (n <= S (length es))%nat -> versionAt n < 2 ^ 62) as Hlt.
  { intros n Hn. pose proof (versionAt_le n (S (length es)) Hn).
    assert (versionAt (S (length es)) <= versionAt (length es) + 2 ^ 32); [|lia].
    unfold versionAt. cbn [Nat.eqb]. destruct (length es); cbn [Nat.eqb]; destruct (1 <? iv); lia. }
  assert (walIndex (nextVersion (MTVersion t) (initialVersion t)) (initialVersion t) = Z.of_nat (S i)) as Enext.
  { rewrite Ei', Ev', Ei, Ev, <- versionAt_S. apply walIndex_versionAt; [lia|].
    specialize (Hlt (S i) ltac:(lia)). lia. }
  destruct (decide (log_last l < Z.of_nat (S i))) as [Hup|Hup].
  { exists t, ti. replace m with i by lia. rewrite CatchupWAL_uptodate by lia. done. }
  assert (m = k `min` Z.to_nat (log_last l))%nat as Em.
  { destruct Hend as [[_ ->]|[_ ?]]; lia. }
  destruct (replay_from es i m t ti Hh ltac:(lia) Hti Heq Hok) as (t' & tm & Er & Htm & Heqm & Hokm).
  exists (UpdateCommitInfo t'), tm. split; [|split; [done|split; [by rewrite UpdateCommitInfo_equiv|done]]].
  assert (zlen (drop i (take m es)) = Z.of_nat m - Z.of_nat i) as Ezl.
  { rewrite length_drop, length_take. lia. }
  rewrite (CatchupWAL_spec l t endVersion (drop i (take m es))).
  - rewrite (SE_bind_ok _ _ _ _ _ Er). done.
  - rewrite Enext, Ezl. destruct Hend as [[-> ->]|[-> Hik]]; [cbn [Z.eqb]; lia|].
    rewrite (proj2 (Z.eqb_neq _ _)) by (pose proof (versionAt_lt 0 k ltac:(lia)); cbn in *; lia).
    rewrite Ei', Ei, walIndex_versionAt; [lia|lia|]. specialize (Hlt k ltac:(lia)). lia.
  - intros E. rewrite E in Ezl. cbn in Ezl. destruct Hend as [[_ ->]|[_ ?]]; lia.
  - rewrite Enext. apply logged_stretch; [done|done|lia|apply Hh].
Qed.
End Log.
End Genesis.
End History.
