(* ===== verification/DbPending.v ===== *)
(** * The pending log of a database

    Between two commits the database applies upgrades and change sets to its
    trees and merges them into the pending log.  This file relates the two: the
    merged entry, applied to the last committed state, gives the live state. *)

From S2P Require Import Prelude KV Binary Sha256 Node Hash Snapshot Persisted Tree Proto Wal.
From S2P Require Import MultiTree MultiSnapshot SnapshotName Db DbHistory.

Open Scope string_scope.
Open Scope Z_scope.
Open Scope list_scope.

(** ** Merging change sets *)

Definition only_for (n k : string) (pairs : ChangeSet) : ChangeSet :=
  if bool_decide (n = k) then pairs else [].

Lemma pairs_for_insert k cs l :
  pairs_for k (insertCS cs l) = only_for (csName cs) k (csPairs cs) ++ pairs_for k l.
Proof.
  induction l as [|c l IH]; [done|]. cbn [insertCS].
  destruct (name_ltb (csName c) (csName cs)) eqn:E; [|done].
  assert (csName c <> csName cs) as Hne.
  { intros Hc. rewrite Hc in E. destruct (name_ltb_spec (csName cs) (csName cs)); [bytes_order|done]. }
  cbn [pairs_for]. rewrite IH. unfold only_for.
  repeat case_bool_decide; try done. congruence.
Qed.

Lemma pairs_for_sort k l : pairs_for k (sortCS l) = pairs_for k l.
Proof.
  induction l as [|cs l IH]; [done|]. cbn [sortCS foldr]. fold (sortCS l).
  by rewrite pairs_for_insert, IH.
Qed.

Lemma insertCS_perm cs l : insertCS cs l ≡ₚ cs :: l.
Proof.
  induction l as [|c l IH]; [done|]. cbn [insertCS].
  destruct (name_ltb (csName c) (csName cs)); [|done]. rewrite IH. constructor.
Qed.

Lemma sortCS_perm l : sortCS l ≡ₚ l.
Proof. induction l as [|cs l IH]; [done|]. cbn [sortCS foldr]. fold (sortCS l). by rewrite insertCS_perm, IH. Qed.

Lemma pairs_for_none k css : k ∉ csName <$> css -> pairs_for k css = [].
Proof.
  induction css as [|cs css IH]; [done|]. cbn [fmap list_fmap pairs_for]. intros Hn.
  rewrite bool_decide_false by set_solver. apply IH. set_solver.
Qed.

(** Without duplicate names, merging keeps the order of the pairs of each store. *)
Lemma mergePending_spec n pairs css :
  NoDup (csName <$> css) ->
  NoDup (csName <$> mergePending n pairs css) /\
  (forall k, k ∈ csName <$> mergePending n pairs css <-> k = n \/ k ∈ csName <$> css) /\
  (forall k, pairs_for k (mergePending n pairs css) = pairs_for k css ++ only_for n k pairs).
Proof.
  intros Hnd. unfold mergePending. destruct (list_find _ css) as [[i cs]|] eqn:Ef.
  - apply list_find_Some in Ef as (Hi & Hn & _). apply list_elem_of_split_length in Hi
      as (l1 & l2 & -> & ->).
    rewrite alter_app_r_alt, Nat.sub_diag by lia. cbn [alter list_alter].
    rewrite !fmap_app in *. cbn [fmap list_fmap csName] in *. split; [done|].
    split; [set_solver|]. intros k. rewrite !pairs_for_app. cbn [pairs_for csName csPairs].
    rewrite <- !app_assoc. f_equal. unfold only_for. rewrite Hn.
    destruct (decide (n = k)) as [<-|Hnk].
    + rewrite !bool_decide_true, <- app_assoc by done.
      apply NoDup_app in Hnd as (_ & _ & [Hnin _]%NoDup_cons).
      by rewrite pairs_for_none, app_nil_r by (by rewrite <- Hn).
    + by rewrite !bool_decide_false, app_nil_r by done.
  - apply list_find_None in Ef. rewrite Forall_forall in Ef.
    assert (n ∉ csName <$> css) as Hnin by (intros (cs & -> & Hin)%list_elem_of_fmap; by apply (Ef cs)).
    rewrite sortCS_perm, fmap_app. cbn [fmap list_fmap csName]. split; [|split].
    + apply NoDup_app. split; [done|]. split; [|apply NoDup_singleton]. set_solver.
    + intros k. rewrite sortCS_perm, fmap_app. set_solver.
    + intros k. rewrite pairs_for_sort, pairs_for_app. cbn [pairs_for csName csPairs].
      by rewrite app_nil_r.
Qed.

(** ** Batches of upgrades *)

(** The names an upgrade leaves, when it does not pass through a clash. *)
Definition upgradeName (ns : gset string) (u : TreeNameUpgrade) : option (gset string) :=
  if upDelete u then
    if decide (upName u ∈ ns) then Some (ns ∖ {[ upName u ]}) else None
  else if negb (bool_decide (upRenameFrom u = "")) then
    if decide (upRenameFrom u ∈ ns /\ upName u ∉ ns ∖ {[ upRenameFrom u ]})
    then Some ({[ upName u ]} ∪ (ns ∖ {[ upRenameFrom u ]})) else None
  else if decide (upName u ∈ ns) then None else Some ({[ upName u ]} ∪ ns).

Fixpoint upgradeNames (ns : gset string) (us : list TreeNameUpgrade) : option (gset string) :=
  match us with
  | [] => Some ns
  | u :: us => ns ← upgradeName ns u; upgradeNames ns us
  end.

Lemma upgradeNames_app ns us1 us2 :
  upgradeNames ns (us1 ++ us2) = ns ← upgradeNames ns us1; upgradeNames ns us2.
Proof.
  revert ns. induction us1 as [|u us1 IH]; intros ns; [done|]. cbn [upgradeNames app].
  destruct (upgradeName ns u); sbind; [apply IH|done].
Qed.

Section Upgrades.
Context {C : Type} `{LawsC : CacheLaws C}.
Implicit Types t : MultiTree C.

Lemma upgrade_spec_names (fresh : Tree C) m u ns :
  upgradeName (dom m) u = Some ns -> exists m', upgrade_spec fresh m u = Some m' /\ dom m' = ns.
Proof.
  unfold upgradeName, upgrade_spec. destruct (upDelete u); [|destruct (negb _)].
  - case_decide as Hin; [|done]. intros [= <-]. apply elem_of_dom in Hin as [tr ->]. sbind.
    eexists. split; [done|]. apply dom_delete_L.
  - case_decide as Hc; [|done]. destruct Hc as [Hin Hnin]. intros [= <-].
    apply elem_of_dom in Hin as [tr ->]. sbind.
    rewrite decide_True by (apply not_elem_of_dom; by rewrite dom_delete_L).
    eexists. split; [done|]. by rewrite dom_insert_L, dom_delete_L.
  - case_decide as Hin; [done|]. intros [= <-]. apply not_elem_of_dom in Hin.
    rewrite decide_True by done. eexists. split; [done|]. apply dom_insert_L.
Qed.

Lemma upgrades_spec_names (fresh : Tree C) m us ns :
  upgradeNames (dom m) us = Some ns -> exists m', upgrades_spec fresh m us = Some m' /\ dom m' = ns.
Proof.
  revert m. induction us as [|u us IH]; intros m; cbn [upgradeNames upgrades_spec].
  { intros [= <-]. by exists m. }
  destruct (upgradeName (dom m) u) as [ns1|] eqn:E; [|done]. sbind.
  destruct (upgrade_spec_names fresh m u ns1 E) as (m1 & -> & <-). apply IH.
Qed.

Lemma upgrades_spec_app (fresh : Tree C) m us1 us2 :
  upgrades_spec fresh m (us1 ++ us2) = m ← upgrades_spec fresh m us1; upgrades_spec fresh m us2.
Proof.
  revert m. induction us1 as [|u us1 IH]; intros m; [done|]. cbn [upgrades_spec app].
  destruct (upgrade_spec fresh m u); sbind; [apply IH|done].
Qed.

(** A batch that never passes through a clash of names. *)
Definition clash_free (us : list TreeNameUpgrade) (t : MultiTree C) : Prop :=
  is_Some (upgradeNames (list_to_set (names (trees t))) us).

Lemma clash_free_equiv us t t' : t ≡ t' -> clash_free us t -> clash_free us t'.
Proof. intros (_ & _ & _ & Hl). unfold clash_free. by rewrite (same_names _ _ Hl). Qed.

Lemma represents_exists (l : list (NamedTree C)) :
  NoDup (names l) -> exists m, represents l m /\ dom m = list_to_set (names l).
Proof.
  induction l as [|e l IH]; intros Hnd.
  { exists ∅. split; [split; [done|]|by rewrite dom_empty_L]. intros n tr.
    rewrite lookup_empty. set_solver. }
  cbn [names fmap list_fmap] in *. apply NoDup_cons in Hnd as [Hnin Hnd].
  destruct (IH Hnd) as (m & Hm & Hd). exists (<[ntName e := ntTree e]> m). split.
  - apply represents_cons; [done|]. apply not_elem_of_dom. rewrite Hd. by apply not_elem_of_list_to_set.
  - rewrite dom_insert_L, Hd. done.
Qed.

Lemma represents_dom (l : list (NamedTree C)) m : represents l m -> dom m = list_to_set (names l).
Proof.
  intros [_ Hm]. apply set_eq. intros n. rewrite elem_of_dom, elem_of_list_to_set. split.
  - intros [tr Htr]. apply Hm in Htr. by eapply names_elem.
  - intros ([tr n'] & -> & Hin)%list_elem_of_fmap. exists tr. by apply Hm.
Qed.

(** The sorted list of a map of stores is unique. *)
Lemma represents_unique (l l' : list (NamedTree C)) m :
  represents l m -> represents l' m -> sorted_names l -> sorted_names l' -> l = l'.
Proof.
  intros [Hnd Hm] [Hnd' Hm'] Hs Hs'.
  assert (forall e, e ∈ l <-> e ∈ l') as Hel by (intros [tr n]; by rewrite <- Hm, <- Hm').
  apply (StronglySorted_unique_strong (fun e e' => name_le (ntName e) (ntName e'))); [|done|done|].
  - intros [tr n] [tr' n'] H1 H2 Ha Hb. apply name_le_bytes in Ha, Hb. cbn [ntName] in *.
    assert (n = n') as <-.
    { rewrite <- (String.string_of_list_byte_of_string n), <- (String.string_of_list_byte_of_string n').
      f_equal. apply bytes_le_antisym; done. }
    apply Hm in H1. apply Hel, Hm in H2. congruence.
  - apply NoDup_Permutation; [by eapply NoDup_fmap_1|by eapply NoDup_fmap_1|done].
Qed.

(** Two batches one after the other are one batch. *)
Lemma MTApplyUpgrades_app us1 us2 t t1 :
  mt_ok t -> treeVersion t < MaxUint32 ->
  clash_free us1 t -> MTApplyUpgrades us1 t = Some (Ok tt, t1) -> clash_free us2 t1 ->
  clash_free (us1 ++ us2) t /\
  exists t2, MTApplyUpgrades us2 t1 = Some (Ok tt, t2) /\ MTApplyUpgrades (us1 ++ us2) t = Some (Ok tt, t2).
Proof.
  intros Hok Hlt Hc1 E1 Hc2. pose proof Hok as ((idx & _ & Hidx) & _ & Hv & _).
  destruct (represents_exists (trees t)) as (m & Hm & Hd); [by eapply indexed_NoDup|].
  destruct (fresh_tree t Hv Hlt) as (fresh & Ef & _).
  unfold clash_free in Hc1. rewrite <- Hd in Hc1. destruct Hc1 as [ns1 Hns1].
  destruct (upgrades_spec_names fresh m us1 ns1 Hns1) as (m1 & Hm1 & Hd1).
  assert (exists l1 idx1, t1 = withNames (withTrees t l1) idx1 /\ represents l1 m1) as (l1 & idx1 & -> & Hl1).
  { destruct (decide (us1 = [])) as [->|Hus].
    - injection E1 as <-. injection Hm1 as <-. exists (trees t), (treesByName t). by destruct t.
    - destruct (MTApplyUpgrades_spec us1 t fresh m m1 Hus Ef Hm Hm1) as (l & i & E & Hl & _).
      rewrite E1 in E. injection E as ->. by exists l, (Some i). }
  unfold clash_free in *. cbn [trees withNames withTrees] in Hc2. rewrite <- Hd.
  rewrite <- (represents_dom _ _ Hl1), Hd1 in Hc2. destruct Hc2 as [ns2 Hns2].
  rewrite upgradeNames_app, Hns1. sbind. split; [by exists ns2|].
  destruct (decide (us2 = [])) as [->|Hus2].
  { rewrite app_nil_r. eexists. by split. }
  rewrite <- Hd1 in Hns2. destruct (upgrades_spec_names fresh m1 us2 ns2 Hns2) as (m2 & Hm2 & _).
  destruct (MTApplyUpgrades_spec us2 (withNames (withTrees t l1) idx1) fresh m1 m2 Hus2 Ef Hl1 Hm2)
    as (l2 & i2 & E2 & Hl2 & Hi2 & Hs2).
  destruct (MTApplyUpgrades_spec (us1 ++ us2) t fresh m m2) as (l3 & i3 & E3 & Hl3 & Hi3 & Hs3);
    [by destruct us1|done|done|by rewrite upgrades_spec_app, Hm1|].
  pose proof (represents_unique _ _ _ Hl2 Hl3 Hs2 Hs3) as <-.
  pose proof (indexed_unique _ _ _ Hi2 Hi3) as <-. eexists. by split.
Qed.
End Upgrades.

(** ** The live state *)

Section Live.
Context {C : Type} `{LawsC : CacheLaws C}.
Implicit Types t : MultiTree C.

(** [t] is the committed state [t0] with the pending entry applied. *)
Record live (e : WALEntry) (t0 t : MultiTree C) : Prop := {
  live_ok : mt_ok t;
  live_fits : fits e t0;
  live_clash : clash_free (weUpgrades e) t0;
  live_nodup : NoDup (csName <$> weChangesets e);
  live_state : exists t', applyWALEntry e t0 = Some (Ok tt, t') /\ t ≡ t'
}.

Lemma content_storable n : storable_root n -> zlen (content n) < 2 ^ 32.
Proof.
  destruct n as [n|]; [|done]. intros ((Ha & _) & _ & Hl & _). unfold leafCount in Hl. done.
Qed.

Lemma NewWithInitialVersion_root v cs (tr : Tree C) : NewWithInitialVersion v cs = Some tr -> treeRoot tr = None.
Proof.
  unfold NewWithInitialVersion, New, NewEmptyTree.
  destruct (v <=? 1); destruct (MaxUint32 <=? _); try done; by intros [= <-].
Qed.

(** The pending pairs of a store are fewer than any memory holds. *)
Definition css_small (css : list NamedChangeSet) : Prop := forall n, zlen (pairs_for n css) < 2 ^ 62.

Lemma fits_small t0 t1 us css :
  storable_state t0 -> MTApplyUpgrades us t0 = Some (Ok tt, t1) ->
  Forall (fun cs => csName cs ∈ names (trees t1)) css -> css_small css ->
  fits (mkWALEntry css us) t0.
Proof.
  intros [Hr _] E Hn Hsm. exists t1. split; [done|]. split; [done|].
  apply (MTApplyUpgrades_forall (fun tr => storable_root (treeRoot tr))) in E as [_ Hall].
  - eapply Forall_impl; [exact Hall|]. intros e He%content_storable. specialize (Hsm (ntName e)).
    cbn [weChangesets]. lia.
  - by intros tr ->%NewWithInitialVersion_root.
  - done.
Qed.

Lemma live_init t0 t : storable_state t0 -> mt_ok t -> t ≡ t0 -> live emptyLog t0 t.
Proof.
  intros Hst Hok Heq. split; [done| |by eexists|constructor|by exists t0].
  by apply (fits_small t0 t0).
Qed.

Lemma live_upgrades e t0 t us :
  mt_ok t0 -> storable_state t0 -> treeVersion t0 < MaxUint32 ->
  live e t0 t -> weChangesets e = [] -> clash_free us t ->
  exists t', MTApplyUpgrades us t = Some (Ok tt, t') /\ live (mkWALEntry [] (weUpgrades e ++ us)) t0 t' /\
    MTVersion t' = MTVersion t /\ initialVersion t' = initialVersion t.
Proof.
  intros Hok0 Hst Hlt [Hok _ Hcl _ (t' & Et & Heq)] He Hus.
  unfold applyWALEntry in Et. rewrite He in Et. apply SE_bind_inv in Et.
  destruct (MTApplyUpgrades (weUpgrades e) t0) as [[[[]|] t1]|] eqn:E1; try done.
  injection Et as ->.
  destruct (MTApplyUpgrades_app _ us t0 t' Hok0 Hlt Hcl E1) as (Hcl2 & t2 & E2 & E12);
    [by eapply clash_free_equiv|].
  destruct (rel_ok _ _ _ _ _ _ (MTApplyUpgrades_rel us) (symmetry Heq) E2) as (u & Eu & Hequ).
  destruct (MTApplyUpgrades_ok _ _ _ Hok0 Hlt E1) as (_ & Ev1 & Ei1).
  assert (treeVersion t = treeVersion t0) as Et.
  { destruct Heq as (Ei & Ev & _). unfold treeVersion. by rewrite Ev, Ei, Ev1, Ei1. }
  destruct (MTApplyUpgrades_ok us t u Hok) as (Hoku & Hvu & Hiu); [lia|done|].
  exists u. split; [done|]. split; [|done].
  split; [done|by eapply fits_small|done|constructor|].
  exists t2. split; [|done]. unfold applyWALEntry. cbn [weUpgrades weChangesets].
  by rewrite (SE_bind_ok _ _ _ _ _ E12).
Qed.

(** More change sets fit when all of them do. *)
Lemma css_fit_rest css new all (l l' : list (NamedTree C)) :
  (forall k, pairs_for k all = pairs_for k css ++ pairs_for k new) ->
  Forall (fun e => tree_ok (ntTree e)) l -> css_fit all l -> Forall2 (tree_after css) l l' ->
  css_fit css l /\ css_fit new l'.
Proof.
  intros Hp Hok Hf Hl. unfold css_fit in *.
  induction Hl as [|e e' l l' (En & _ & _ & Ec) _ IH]; [by split|].
  apply Forall_cons in Hok as [He Hok], Hf as [Hfe Hf]. destruct (IH Hok Hf) as [IH1 IH2].
  rewrite Hp, length_app in Hfe. split; (constructor; [|done]); [lia|].
  rewrite Ec, En. pose proof (apply_pairs_length (content (treeRoot (ntTree e)))
    (pairs_for (ntName e) css) (content_sorted _ (proj1 He))). lia.
Qed.

Lemma live_changes e t0 t new css :
  mt_ok t0 -> storable_state t0 -> treeVersion t0 < MaxUint32 ->
  live e t0 t -> Forall (fun cs => csName cs ∈ names (trees t)) new ->
  (forall k, pairs_for k css = pairs_for k (weChangesets e) ++ pairs_for k new) ->
  (forall k, k ∈ csName <$> css -> k ∈ csName <$> weChangesets e ++ new) ->
  NoDup (csName <$> css) -> css_small css ->
  exists l, MTApplyChangeSets new t = Some (Ok tt, withTrees t l) /\
    live (mkWALEntry css (weUpgrades e)) t0 (withTrees t l) /\ names l = names (trees t) /\
    Forall2 (tree_after new) (trees t) l.
Proof.
  intros Hok0 Hst Hlt [Hok (t1 & E1 & Hn1 & Hf1) Hcl _ (t' & Et & Heq)] Hn Hp Hsub Hnd Hsm.
  destruct (MTApplyUpgrades_ok _ _ _ Hok0 Hlt E1) as (Hok1 & _).
  unfold applyWALEntry in Et. rewrite (SE_bind_ok _ _ _ _ _ E1) in Et.
  pose proof Hok1 as (Hi1 & _ & _ & Ht1).
  destruct (treesApply_ok _ _ Ht1 Hf1) as (l1 & El1 & Hl1).
  rewrite MTApplyChangeSets_spec, El1 in Et by done. injection Et as <-.
  pose proof (tree_after_names _ _ _ Hl1) as En1. pose proof Heq as (_ & _ & _ & Hl).
  cbn [trees withTrees] in Hl. pose proof (same_names _ _ Hl) as En.
  assert (Forall (fun cs => csName cs ∈ names (trees t1)) css) as Hnall.
  { apply Forall_forall. intros cs Hin. apply (list_elem_of_fmap_2 csName), Hsub in Hin.
    rewrite fmap_app, elem_of_app in Hin. rewrite Forall_forall in Hn1, Hn.
    destruct Hin as [(c & -> & Hc)%list_elem_of_fmap|(c & -> & Hc)%list_elem_of_fmap].
    - by apply Hn1.
    - rewrite <- En1, <- En. by apply Hn. }
  pose proof (fits_small t0 t1 (weUpgrades e) css Hst E1 Hnall Hsm) as Hfits.
  pose proof Hfits as (t1' & E1' & _ & Hfall). cbn [weUpgrades weChangesets] in *.
  rewrite E1 in E1'. injection E1' as <-.
  destruct (css_fit_rest _ new css _ _ Hp Ht1 Hfall Hl1) as [_ Hfn].
  destruct (MTApplyChangeSets_ok t new Hok Hn) as (l & E & Hokl & El & Enl & Hafter).
  { eapply css_fit_equiv; [|exact Hfn]. by symmetry. }
  exists l. split; [done|]. split; [|by split]. split; [done|done|done|done|].
  destruct (rel_ok _ _ _ _ _ _ (rel_forM new _ _ (fun cs => MTApplyChangeSet_rel (csName cs) (csPairs cs)))
    Heq E) as (u & Eu & Hequ).
  exists u. split; [|done]. unfold applyWALEntry. cbn [weUpgrades weChangesets].
  rewrite (SE_bind_ok _ _ _ _ _ E1), MTApplyChangeSets_spec by done.
  rewrite (treesApply_ext css (weChangesets e ++ new)), treesApply_app, El1
    by (intros; by rewrite pairs_for_app).
  sbind. fold (MTApplyChangeSets new) in Eu. rewrite MTApplyChangeSets_spec in Eu.
  - exact Eu.
  - by apply indexes_withTrees.
  - cbn [trees withTrees]. by rewrite <- En.
Qed.
End Live.
