(* ===== verification/DbInv.v ===== *)
(** * The invariant of a database

    A database, its goroutines and its disk, against the history of what was
    committed: the log and every snapshot on disk are parts of the history, the
    trees in memory are its last state with the pending changes, and nothing
    that recovery needs is removed. *)

From S2P Require Import Prelude KV Binary Sha256 Node Hash Snapshot Persisted Tree Proto Wal.
From S2P Require Import MultiTree MultiSnapshot SnapshotName Db DbDisk DbHistory DbPending.

Open Scope string_scope.
Open Scope Z_scope.
Open Scope list_scope.

(** Log entries from an index on. *)
Fixpoint entriesFrom (i : Z) (es : list WALEntry) : list walEntry :=
  match es with
  | [] => []
  | e :: es => mkEntry i e :: entriesFrom (i + 1) es
  end.

Lemma entriesFrom_app i l1 l2 :
  entriesFrom i (l1 ++ l2) = entriesFrom i l1 ++ entriesFrom (i + zlen l1) l2.
Proof.
  revert i. induction l1 as [|e l1 IH]; intros i; cbn [entriesFrom app length].
  { f_equal. cbn. lia. }
  rewrite IH. do 3 f_equal. lia.
Qed.

Lemma length_entriesFrom i l : length (entriesFrom i l) = length l.
Proof. revert i. induction l; intros i; cbn; [done|]. by f_equal. Qed.

Lemma entriesFrom_take_drop i l m :
  (m <= length l)%nat ->
  take m (entriesFrom i l) = entriesFrom i (take m l) /\
  drop m (entriesFrom i l) = entriesFrom (i + Z.of_nat m) (drop m l).
Proof.
  intros Hm. rewrite <- (take_drop m l) at 1 3. rewrite entriesFrom_app, length_take, Nat.min_l by done.
  split; [apply take_app_length'|apply drop_app_length']; rewrite length_entriesFrom, length_take; lia.
Qed.

Definition toBatch (e : walEntry) : Z * bytes := (index e, WALEntry_Marshal (data e)).

Lemma writeEntries_from n i l :
  n < i -> writeEntries n (entriesFrom i l) = toBatch <$> entriesFrom i l.
Proof.
  revert i. induction l as [|e l IH]; intros i Hi; [done|]. unfold writeEntries in *.
  cbn [entriesFrom fmap list_fmap]. rewrite bind_cons, IH by lia. unfold writeEntry. cbn [index data].
  by rewrite (proj2 (Z.leb_gt _ _)) by lia.
Qed.

Lemma toBatch_consecutive i l : consecutive i (toBatch <$> entriesFrom i l).
Proof. revert i. induction l as [|e l IH]; intros i; [done|]. by split. Qed.

Lemma toBatch_elem i l k e :
  l !! k = Some e -> (i + Z.of_nat k, WALEntry_Marshal e) ∈ toBatch <$> entriesFrom i l.
Proof.
  revert i k. induction l as [|e' l IH]; intros i [|k] Hk; try done; cbn [entriesFrom fmap list_fmap].
  - injection Hk as ->. rewrite Z.add_0_r. by left.
  - right. replace (i + Z.of_nat (S k)) with (i + 1 + Z.of_nat k) by lia. by apply IH.
Qed.

Section Invariant.
Context {C : Type} `{LawsC : CacheLaws C} {L : Type} `{LawsL : WalLaws L}.
Context (iv : Z) (Hiv : 0 <= iv < 2 ^ 32).
Implicit Types (t : MultiTree C) (s : Sys C L) (d : Disk L) (es : list WALEntry).

(** The name of the snapshot of the state after [i] entries. *)
Definition snap (i : nat) : string := snapshotName (versionAt iv i).

(** A multi-tree that can be written as the snapshot of state [i]. *)
Definition clone_ok es (i : nat) t : Prop :=
  mt_storable t /\ lastCommitInfo t = infoOf t /\ exists ti, stateAt iv es i ti /\ t ≡ ti.

(** A directory of state [i]: its snapshot, from which the log goes on, or a
    temporary one. *)
Definition dir_ok es (l : L) (n : string) (sd : snapshotDir) : Prop :=
  exists i t, (i <= length es)%nat /\ clone_ok es i t /\ sd = dirOf t /\
    (n = snap i /\ log_from l i \/ n = tmpName (snap i)).

Record disk_ok es d (c : nat) : Prop := {
  disk_names n sd : dirs d !! n = Some sd -> dir_ok es (wal d) n sd;
  disk_current : current d = Some (snap c) /\ is_Some (dirs d !! snap c) /\ (c <= length es)%nat;
  disk_log : log_holds (wal d) es
}.

(** The rewriting goroutine at a snapshot not older than the current one. *)
Definition rewriter_ok es d (c : nat) (r : rewriter C) : Prop :=
  match r with
  | RWrite t => exists i, (c <= i <= length es)%nat /\ clone_ok es i t
  | RRename t => exists i, (c <= i <= length es)%nat /\ clone_ok es i t /\
      dirs d !! tmpName (snap i) = Some (dirOf t)
  | RSymlink t | RSwitch t => exists i, (c <= i <= length es)%nat /\ clone_ok es i t /\
      is_Some (dirs d !! snap i)
  | RLoad t => clone_ok es c t
  | RResult None err => err = None
  | RResult (Some m) _ => exists j tj, (c <= j <= length es)%nat /\ stateAt iv es j tj /\ m ≡ tj /\
      mt_ok m /\ lastCommitInfo m = infoOf m
  end.

(** The pruning goroutine removes only snapshots before the current one. *)
Definition pruner_ok (c : nat) (p : pruner) : Prop :=
  let old v := exists i, v = versionAt iv i /\ (i < c)%nat in
  match p with
  | PRename l _ => Forall old l
  | PRemove v l _ => Forall old (v :: l)
  | _ => True
  end.

Definition walQueue (d : DB C) : list walEntry := default [] (walChan d).

Record inv es s (c : nat) : Prop := {
  inv_hist : hist_ok (C:=C) iv es;
  inv_disk : disk_ok es (disk s) c;
  inv_live : exists tN, stateAt iv es (length es) tN /\ live (pendingLog (db s)) tN (mtree (db s));
  inv_info : pendingLog (db s) = emptyLog -> lastCommitInfo (mtree (db s)) = infoOf (mtree (db s));
  inv_mode : readOnly (db s) = false /\ walOpen (db s) = true /\ snapshotInterval (db s) <> 0 /\
    walQuit (db s) = WRunning;
  inv_queue : walQueue (db s) =
    entriesFrom (log_last (wal (disk s)) + 1) (drop (Z.to_nat (log_last (wal (disk s)))) es);
  inv_sync : walChanSize (db s) < 0 -> walQueue (db s) = [];
  inv_rewriter r : rewriting (db s) = Some r -> rewriter_ok es (disk s) c r;
  inv_link : currentTmp (disk s) =
    match rewriting (db s) with Some (RSwitch t) => Some (snapshotName (MTVersion t)) | _ => None end;
  inv_pruner p : pruning (db s) = Some p -> pruner_ok c p
}.

(** ** Names and clones *)

Lemma versionAt_range es i :
  hist_ok (C:=C) iv es -> (i <= length es)%nat -> 0 <= versionAt iv i < 2 ^ 31.
Proof.
  intros Hh Hi. pose proof (hist_versions iv es Hh). pose proof (versionAt_le iv i _ Hi).
  pose proof (versionAt_nonneg iv i). lia.
Qed.

Lemma snap_inj es i j :
  hist_ok (C:=C) iv es -> (i <= length es)%nat -> (j <= length es)%nat -> snap i = snap j -> i = j.
Proof.
  intros Hh Hi Hj E. pose proof (versionAt_range es i Hh Hi). pose proof (versionAt_range es j Hh Hj).
  apply snapshotName_inj in E; [by apply versionAt_inj in E|lia|lia].
Qed.

Lemma snap_tmp i j : snap i <> tmpName (snap j).
Proof. intros E. symmetry in E. by apply tmpName_snapshotName in E; [|apply versionAt_nonneg]. Qed.

Lemma clone_version es i t : hist_ok iv es -> (i <= length es)%nat -> clone_ok es i t ->
  snapshotName (MTVersion t) = snap i /\ MTVersion t = versionAt iv i /\ initialVersion t = iv.
Proof.
  intros Hh Hi (_ & _ & ti & Hti & (Ei & Ev & _)).
  destruct (stateAt_version iv Hiv es i ti Hh Hi Hti) as (Ev' & Ei' & _). unfold snap.
  rewrite Ev, Ei, Ev', Ei'. done.
Qed.

(** What is equivalent to a state and has its commit info is a clone. *)
Lemma clone_equiv es i t ti :
  hist_ok iv es -> (i <= length es)%nat -> stateAt iv es i ti -> t ≡ ti -> mt_ok t ->
  lastCommitInfo t = infoOf t -> clone_ok es i t.
Proof.
  intros Hh Hi Hti Heq Hok Hinfo. split; [|split; [done|by exists ti]].
  destruct (stateAt_version iv Hiv es i ti Hh Hi Hti) as (Ev & _ & _ & Hst).
  apply mt_storable_state; [done| |done|].
  - pose proof (versionAt_range es i Hh Hi). destruct Heq as (_ & -> & _). lia.
  - eapply storable_state_equiv; [|exact Hst]. by symmetry.
Qed.

Lemma clone_app es e i t : (i <= length es)%nat -> clone_ok es i t -> clone_ok (es ++ [e]) i t.
Proof.
  intros Hi (Hst & Hinfo & ti & Hti & Heq). split; [done|]. split; [done|]. exists ti.
  split; [|done]. by apply stateAt_app.
Qed.

Lemma disk_good_names es d c n :
  hist_ok (C:=C) iv es -> disk_ok es d c -> n ∈ dom (dirs d) -> good_name n.
Proof.
  intros Hh Hd [sd Hsd]%elem_of_dom. destruct (disk_names es d c Hd n sd Hsd) as (i & t & Hi & _ & _ & Hn).
  exists (versionAt iv i). split; [by apply (versionAt_range es)|]. destruct Hn as [[Hn _]|Hn]; auto.
Qed.

(** The directory of a snapshot. *)
Lemma disk_snap es d c i sd :
  hist_ok (C:=C) iv es -> disk_ok es d c -> (i <= length es)%nat -> dirs d !! snap i = Some sd ->
  exists t, clone_ok es i t /\ sd = dirOf t /\ log_from (wal d) i.
Proof.
  intros Hh Hd Hi Hsd. destruct (disk_names es d c Hd _ _ Hsd) as (j & t & Hj & Ht & -> & [[Hn Hf]|Hn]).
  - apply (snap_inj es) in Hn as <-; [by exists t|done|done|done].
  - by apply snap_tmp in Hn.
Qed.

Lemma disk_from es d c :
  hist_ok (C:=C) iv es -> disk_ok es d c -> log_from (wal d) c.
Proof.
  intros Hh Hd. destruct (disk_current _ _ _ Hd) as (_ & [sd Hsd] & Hc).
  by destruct (disk_snap es d c c sd Hh Hd Hc Hsd) as (t & _ & _ & Hf).
Qed.

Lemma log_from_mono (l : L) i j : (i <= j)%nat -> log_from l i -> log_from l j.
Proof. intros Hij [?|?]; [by left|right; lia]. Qed.

(** ** The log writer *)

Lemma log_append (l : L) es m :
  let n := Z.to_nat (log_last l) in
  log_holds l es -> (m <= length (drop n es))%nat ->
  exists l', log_write l (writeEntries (log_last l)
               (entriesFrom (log_last l + 1) (take m (drop n es)))) = Ok l' /\
    log_last l' = log_last l + Z.of_nat m /\ log_holds l' es /\
    (forall i, log_from l i -> log_from l' i).
Proof.
  intros n [Hlast Hh] Hm. rewrite writeEntries_from by lia.
  pose proof (log_last_pos l) as Hpos. rewrite length_drop in Hm.
  set (batch := toBatch <$> entriesFrom (log_last l + 1) (take m (drop n es))).
  destruct (log_write_ok l batch (toBatch_consecutive _ _)) as (l' & El & Elast & Hf1 & Hf2 & Hold & Hnew).
  assert (zlen batch = Z.of_nat m) as Elen.
  { unfold batch. rewrite length_fmap, length_entriesFrom, length_take, length_drop. lia. }
  exists l'. split; [done|]. split; [lia|]. split.
  - split; [lia|]. intros i e He Hi.
    assert (log_entry l' (Z.of_nat (S i)) = Some (WALEntry_Marshal e)) as E.
    { destruct (decide (Z.of_nat (S i) <= log_last l)) as [Hle|Hgt].
      - rewrite Hold by done. unfold log_entry. rewrite (Hh i e He); [done|]. rewrite <- Hf1; lia.
      - apply Hnew. replace (Z.of_nat (S i)) with (log_last l + 1 + Z.of_nat (i - n)) by lia.
        apply toBatch_elem. rewrite lookup_take_lt, lookup_drop by lia.
        by replace (n + (i - n))%nat with i by lia. }
    unfold log_entry in E. destruct (log_read l' _); [by injection E as ->|done].
  - intros i Hi. unfold log_from in *. destruct (decide (log_last l = 0)) as [E0|Hne].
    + destruct (decide (batch = [])) as [Eb|Hb]; [left; rewrite Elast, Eb; cbn; lia|].
      right. rewrite Hf2 by done. lia.
    + right. rewrite Hf1 by done. destruct Hi; [done|lia].
Qed.

(** A change of the log alone. *)
Lemma disk_setWal es d c l :
  disk_ok es d c -> log_holds l es -> (forall i, log_from (wal d) i -> log_from l i) ->
  disk_ok es (setWal l d) c.
Proof.
  intros [Hn Hc Hl] Hl' Hf'. split; [|exact Hc|done]. intros n sd Hsd.
  destruct (Hn n sd Hsd) as (i & t & Hi & Ht & Esd & Hname). exists i, t.
  split; [done|]. split; [done|]. split; [done|]. destruct Hname as [[En Hf]|En]; auto.
Qed.

Lemma inv_writeBatch es s c q m :
  inv es s c -> walChan (db s) = Some q -> (m <= length q)%nat ->
  inv es (writeBatch m q s) c /\
  log_last (wal (disk (writeBatch m q s))) = log_last (wal (disk s)) + Z.of_nat m.
Proof.
  intros Hi Hq Hm. destruct Hi as [Hh Hd Hl Hinf Hmode Hqu Hsy Hr Hlk Hp].
  assert (q = entriesFrom (log_last (wal (disk s)) + 1) (drop (Z.to_nat (log_last (wal (disk s)))) es)) as Eq
    by (by rewrite <- Hqu; unfold walQueue; rewrite Hq).
  rewrite Eq, length_entriesFrom in Hm. pose proof (disk_log _ _ _ Hd) as Hlog.
  destruct (log_append (wal (disk s)) es m Hlog Hm) as (l' & El & Elast & Hl' & Hf').
  destruct (entriesFrom_take_drop (log_last (wal (disk s)) + 1)
    (drop (Z.to_nat (log_last (wal (disk s)))) es) m Hm) as [Et Ed].
  rewrite <- Eq in Et, Ed. unfold writeBatch. rewrite Et, El. split; [|done].
  pose proof (log_last_pos (wal (disk s))).
  split; cbn [db disk mtree pendingLog readOnly walOpen snapshotInterval walQuit walChanSize setChan
    rewriting pruning wal setWal currentTmp]; try done.
  - by apply disk_setWal.
  - unfold walQueue. cbn [walChan setChan default]. rewrite Ed, drop_drop, Elast. unfold id.
    f_equal; [lia|]. f_equal. lia.
  - intros Hneg%Hsy. unfold walQueue in *. cbn [walChan setChan]. rewrite Hq in Hneg. cbn in *.
    by rewrite Hneg, drop_nil.
Qed.

Lemma inv_drainWal es s c :
  inv es s c -> inv es (drainWal s) c /\ log_last (wal (disk (drainWal s))) = zlen es /\
  mtree (db (drainWal s)) = mtree (db s) /\ pendingLog (db (drainWal s)) = pendingLog (db s) /\
  rewriting (db (drainWal s)) = rewriting (db s) /\ pruning (db (drainWal s)) = pruning (db s) /\
  walChanSize (db (drainWal s)) = walChanSize (db s).
Proof.
  intros Hi. pose proof (inv_queue _ _ _ Hi) as Hqu.
  pose proof (proj1 (disk_log _ _ _ (inv_disk _ _ _ Hi))) as Hlast. pose proof (log_last_pos (wal (disk s))).
  destruct (inv_mode _ _ _ Hi) as (_ & _ & _ & Hw). unfold drainWal, walQueue in *. rewrite Hw.
  assert (length (default [] (walChan (db s))) = length (drop (Z.to_nat (log_last (wal (disk s)))) es)) as El
    by (by rewrite Hqu, length_entriesFrom).
  rewrite length_drop in El.
  destruct (walChan (db s)) as [[|e q]|] eqn:Eq; cbn [default] in El; unfold id in El; cbn [length] in El.
  - split; [done|]. split; [lia|done].
  - destruct (inv_writeBatch es s c (e :: q) (S (length q)) Hi Eq) as [Hi' Elast]; [done|].
    split; [done|]. rewrite Elast. split; [lia|]. unfold writeBatch. by destruct (log_write _ _).
  - split; [done|]. split; [lia|done].
Qed.

(** ** Changes *)

Lemma treeVersion_lt es tN :
  hist_ok iv es -> stateAt iv es (length es) tN -> treeVersion tN < MaxUint32.
Proof.
  intros Hh Ht. destruct (stateAt_version iv Hiv es (length es) tN Hh (le_n _) Ht) as (Ev & Ei & _).
  unfold treeVersion, MaxUint32. rewrite Ev, Ei, <- versionAt_S. pose proof (hist_versions iv es Hh) as Hlt.
  unfold versionAt in *. cbn [Nat.eqb]. destruct (length es); cbn [Nat.eqb] in *; destruct (1 <? iv); lia.
Qed.

(** The version of the trees in memory. *)
Lemma inv_version es s c :
  inv es s c -> MTVersion (mtree (db s)) = versionAt iv (length es) /\
  initialVersion (mtree (db s)) = iv /\ mt_ok (mtree (db s)).
Proof.
  intros Hi. pose proof (inv_hist _ _ _ Hi) as Hh. destruct (inv_live _ _ _ Hi) as (tN & HtN & Hl).
  destruct (stateAt_version iv Hiv es (length es) tN Hh (le_n _) HtN) as (Ev & Ei & Hok & _).
  destruct (applyWALEntry_ok _ tN Hok (treeVersion_lt es tN Hh HtN) (live_fits _ _ _ Hl))
    as (t' & E & _ & Ev' & Ei').
  destruct (live_state _ _ _ Hl) as (t1 & E1 & (Ei1 & Ev1 & _)). rewrite E in E1. injection E1 as <-.
  split; [congruence|]. split; [congruence|]. apply Hl.
Qed.

(** New trees and pending changes. *)
Lemma inv_setLive es s c p t tN :
  inv es s c -> stateAt iv es (length es) tN -> live p tN t ->
  (p = emptyLog -> lastCommitInfo t = infoOf t) ->
  inv es (withDb s (fun x => setTree t (setPending p x))) c.
Proof.
  intros [Hh Hd Hl Hinf Hmode Hqu Hsy Hr Hlk Hp] HtN Hlive Hinfo.
  split; [done|done|by exists tN|done|done|done|done|done|done|done].
Qed.

Lemma inv_applyUpgrades es s c us :
  inv es s c -> weChangesets (pendingLog (db s)) = [] -> clash_free us (mtree (db s)) ->
  exists s', DBApplyUpgrades us s = Some (Ok tt, s') /\ inv es s' c /\ disk s' = disk s.
Proof.
  intros Hi Hcs Hus. pose proof (inv_hist _ _ _ Hi) as Hh.
  destruct (inv_live _ _ _ Hi) as (tN & HtN & Hl).
  destruct (stateAt_version iv Hiv es (length es) tN Hh (le_n _) HtN) as (_ & _ & Hok & Hst).
  destruct (live_upgrades _ tN _ us Hok Hst (treeVersion_lt es tN Hh HtN) Hl Hcs Hus)
    as (t' & Et & Hl' & _).
  destruct (inv_mode _ _ _ Hi) as (Hro & _).
  unfold DBApplyUpgrades, guardReadOnly. sstate. rewrite (SE_bind_ok _ _ _ tt s) by (sstate; by rewrite Hro).
  rewrite (SE_bind_ok _ _ _ tt (withDb s (setTree t'))) by (unfold onTree; by rewrite Et).
  eexists. split; [reflexivity|]. cbn [db withDb setTree pendingLog]. rewrite Hcs.
  eapply (inv_setLive es s c _ t' tN) in Hl'; [by split; [exact Hl'|]|done|done|].
  intros E. injection E as E. apply app_eq_nil in E as [Eu ->]. injection Et as <-.
  apply (inv_info _ _ _ Hi). destruct (pendingLog (db s)) as [css ups]. cbn in *. by subst.
Qed.

Lemma MTApplyChangeSets_one n cs t : MTApplyChangeSets [mkNamedCS n cs] t = MTApplyChangeSet n cs t.
Proof.
  unfold MTApplyChangeSets. cbn [forM csName csPairs]. unfold mbind, SE_bind.
  by destruct (MTApplyChangeSet n cs t) as [[[[]|]]|].
Qed.

Lemma inv_applyChangeSet es s c n pairs :
  inv es s c -> n ∈ names (trees (mtree (db s))) ->
  css_small (weChangesets (pendingLog (db s)) ++ [mkNamedCS n pairs]) ->
  exists s', applyChangeSet n pairs s = Some (Ok tt, s') /\ inv es s' c /\
    names (trees (mtree (db s'))) = names (trees (mtree (db s))) /\
    Forall2 (tree_after [mkNamedCS n pairs]) (trees (mtree (db s))) (trees (mtree (db s'))) /\
    forall k, pairs_for k (weChangesets (pendingLog (db s'))) =
              pairs_for k (weChangesets (pendingLog (db s)) ++ [mkNamedCS n pairs]).
Proof.
  intros Hi Hn Hsm. destruct (decide (pairs = [])) as [->|Hpairs].
  { exists s. split; [done|]. split; [done|]. split; [done|]. destruct (inv_live _ _ _ Hi) as (tN & _ & Hl).
    split; [apply tree_after_refl, (live_ok _ _ _ Hl)|]. intros k. rewrite pairs_for_app. cbn.
    case_bool_decide; by rewrite app_nil_r. }
  pose proof (inv_hist _ _ _ Hi) as Hh. destruct (inv_live _ _ _ Hi) as (tN & HtN & Hl).
  destruct (stateAt_version iv Hiv es (length es) tN Hh (le_n _) HtN) as (_ & _ & Hok & Hst).
  set (css := weChangesets (pendingLog (db s))) in *.
  destruct (mergePending_spec n pairs css (live_nodup _ _ _ Hl)) as (Hnd & Hnames & Hp).
  assert (forall k, pairs_for k (mergePending n pairs css) = pairs_for k css ++ pairs_for k [mkNamedCS n pairs]) as Hp'.
  { intros k. rewrite Hp. cbn [pairs_for csName csPairs]. by rewrite app_nil_r. }
  destruct (live_changes _ tN _ [mkNamedCS n pairs] (mergePending n pairs css) Hok Hst
    (treeVersion_lt es tN Hh HtN) Hl) as (l & El & Hl' & Enl & Hafter).
  { by repeat constructor. }
  { done. }
  { intros k. rewrite Hnames, fmap_app. cbn. set_solver. }
  { done. }
  { intros k. specialize (Hsm k). by rewrite Hp', <- pairs_for_app. }
  rewrite MTApplyChangeSets_one in El. destruct (inv_mode _ _ _ Hi) as (Hro & _).
  assert (applyChangeSet n pairs s = Some (Ok tt, withDb s (fun x => setTree (withTrees (mtree (db s)) l)
    (setPending (mkWALEntry (mergePending n pairs css) (weUpgrades (pendingLog (db s)))) x)))) as ->.
  { unfold applyChangeSet, guardReadOnly. destruct pairs as [|p pairs]; [done|].
    rewrite (SE_bind_ok _ _ _ tt s) by (sstate; by rewrite Hro). sstate. unfold onTree.
    cbn [db withDb setPending mtree]. by rewrite El. }
  eexists. split; [reflexivity|]. split; [|split; [done|split; [done|]]].
  - eapply inv_setLive; [done|done|exact Hl'|]. intros [= E _]. exfalso.
    apply (not_elem_of_nil n). rewrite <- (fmap_nil csName), <- E. apply Hnames. by left.
  - intros k. cbn [db withDb setTree setPending pendingLog weChangesets]. by rewrite Hp', <- pairs_for_app.
Qed.

Lemma inv_applyChangeSet_all es c css s :
  inv es s c -> Forall (fun cs => csName cs ∈ names (trees (mtree (db s)))) css ->
  css_small (weChangesets (pendingLog (db s)) ++ css) ->
  exists s', forM css (fun cs => applyChangeSet (csName cs) (csPairs cs)) s = Some (Ok tt, s') /\ inv es s' c /\
    Forall2 (tree_after css) (trees (mtree (db s))) (trees (mtree (db s'))).
Proof.
  revert s. induction css as [|[n pairs] css IH]; intros s Hi Hn Hsm.
  { exists s. split; [done|]. split; [done|]. destruct (inv_live _ _ _ Hi) as (tN & _ & Hl).
    apply tree_after_nil, (live_ok _ _ _ Hl). }
  apply Forall_cons in Hn as [Hn Hns]. cbn [forM csName csPairs] in *.
  destruct (inv_applyChangeSet es s c n pairs Hi Hn) as (s1 & E1 & Hi1 & En & Ha & Hp).
  { intros k. specialize (Hsm k). rewrite !pairs_for_app, !length_app in *.
    cbn [pairs_for csName csPairs] in *. rewrite length_app in *. cbn [length] in *. lia. }
  destruct (IH s1 Hi1) as (s' & E' & Hi' & Ha').
  { by rewrite En. }
  { intros k. specialize (Hsm k). rewrite pairs_for_app, Hp, <- pairs_for_app, <- app_assoc. done. }
  exists s'. rewrite (SE_bind_ok _ _ _ _ _ E1). split; [done|]. split; [done|]. by eapply tree_after_trans.
Qed.

Lemma inv_applyChangeSets es s c css :
  inv es s c -> Forall (fun cs => csName cs ∈ names (trees (mtree (db s)))) css ->
  NoDup (csName <$> css) -> css_small (weChangesets (pendingLog (db s)) ++ css) ->
  exists s', DBApplyChangeSets css s = Some (Ok tt, s') /\ inv es s' c /\
    Forall2 (tree_after css) (trees (mtree (db s))) (trees (mtree (db s'))).
Proof.
  intros Hi Hn Hnd Hsm. destruct css as [|cs0 css0] eqn:Ecss.
  { apply (inv_applyChangeSet_all es c [] s Hi Hn Hsm). }
  destruct (inv_mode _ _ _ Hi) as (Hro & _). unfold DBApplyChangeSets, guardReadOnly. rewrite <- Ecss in *.
  rewrite (SE_bind_ok _ _ _ tt s) by (sstate; by rewrite Hro). sstate.
  destruct (weChangesets (pendingLog (db s))) as [|x l0] eqn:Ep; [|by apply inv_applyChangeSet_all; rewrite ?Ep].
  sstate. pose proof (inv_hist _ _ _ Hi) as Hh. destruct (inv_live _ _ _ Hi) as (tN & HtN & Hl).
  destruct (stateAt_version iv Hiv es (length es) tN Hh (le_n _) HtN) as (_ & _ & Hok & Hst).
  destruct (live_changes _ tN _ css css Hok Hst (treeVersion_lt es tN Hh HtN) Hl Hn)
    as (l & El & Hl' & _ & Ha); [by rewrite Ep|by rewrite Ep|done|done|].
  assert (onTree (L:=L) (MTApplyChangeSets css) (withDb s (setPending (mkWALEntry css (weUpgrades (pendingLog (db s)))))) =
    Some (Ok tt, withDb s (fun x => setTree (withTrees (mtree (db s)) l)
      (setPending (mkWALEntry css (weUpgrades (pendingLog (db s)))) x)))) as ->.
  { unfold onTree. cbn [db withDb setPending mtree]. by rewrite El. }
  eexists. split; [reflexivity|]. split; [|done]. eapply inv_setLive; [done|done|exact Hl'|]. by rewrite Ecss.
Qed.
End Invariant.
