(* ===== verification/DbStep.v ===== *)
(** * The steps of a database keep its invariant

    Commits, the goroutines and the methods between commits. *)

From S2P Require Import Prelude KV Binary Sha256 Node Hash Snapshot Persisted Tree Proto Wal.
From S2P Require Import MultiTree MultiSnapshot SnapshotName Db DbDisk DbHistory DbPending DbInv.

Open Scope string_scope.
Open Scope Z_scope.
Open Scope list_scope.

Section Step.
Context {C : Type} `{LawsC : CacheLaws C} {L : Type} `{LawsL : WalLaws L}.
Context (iv : Z) (Hiv : 0 <= iv < 2 ^ 32).
Implicit Types (t : MultiTree C) (s : Sys C L) (d : Disk L) (es : list WALEntry).

Local Notation inv := (inv (C:=C) (L:=L) iv).
Local Notation disk_ok := (disk_ok (C:=C) (L:=L) iv).
Local Notation clone_ok := (clone_ok (C:=C) iv).
Local Notation rewriter_ok := (rewriter_ok (C:=C) (L:=L) iv).

(** ** One more entry in the history *)

Lemma log_holds_app (l : L) es e : log_holds l es -> log_holds l (es ++ [e]).
Proof.
  intros [Hlast Hh]. split; [rewrite length_app; lia|]. intros i e' He Hi.
  apply Hh; [|done]. by rewrite lookup_app_l in He by lia.
Qed.

Lemma disk_app es d c e : disk_ok es d c -> disk_ok (es ++ [e]) d c.
Proof.
  intros [Hn Hc Hl]. split; [| |by apply log_holds_app].
  - intros n sd Hsd. destruct (Hn n sd Hsd) as (i & t & Hi & Ht & Esd & Hname).
    exists i, t. rewrite length_app. split; [lia|]. split; [by apply clone_app|by split].
  - rewrite length_app. destruct Hc as (? & ? & ?). split; [done|]. split; [done|lia].
Qed.

Lemma rewriter_app es d c e r :
  (c <= length es)%nat -> rewriter_ok es d c r -> rewriter_ok (es ++ [e]) d c r.
Proof.
  intros Hc. destruct r as [t|t|t|t|t|[m|] err]; cbn [DbInv.rewriter_ok];
    [intros (i & Hi & Ht)|intros (i & Hi & Ht & ?)|intros (i & Hi & Ht & ?)|intros (i & Hi & Ht & ?)
    |intros Ht|intros (j & tj & Hj & Htj & ?)|done];
    try (exists i; rewrite length_app; split; [lia|]; try split; [by apply clone_app; [lia|]|done]).
  - exists i. rewrite length_app. split; [lia|]. apply clone_app; [lia|done].
  - by apply clone_app.
  - exists j, tj. rewrite length_app. split; [lia|]. split; [|done]. by apply stateAt_app; [lia|].
Qed.

(** ** Commit *)

(** What a commit relies on: the entry and the trees are within the limits of
    the formats. *)
Definition commit_fits s : Prop :=
  zlen (WALEntry_Marshal (pendingLog (db s))) < 2 ^ 63 /\
  nextVersion (MTVersion (mtree (db s))) (initialVersion (mtree (db s))) < 2 ^ 31 /\
  storable_state (saved (mtree (db s)) true).

(** The next state of the history, and the saved trees. *)
Lemma commit_state es s c :
  inv es s c -> commit_fits s ->
  let es' := es ++ [pendingLog (db s)] in
  let t' := saved (mtree (db s)) true in
  MTSaveVersion true (mtree (db s)) = Some (Ok (versionAt iv (length es')), t') /\
  hist_ok (C:=C) iv es' /\ initialVersion t' = iv /\ lastCommitInfo t' = infoOf t' /\
  exists tN, stateAt iv es' (length es') tN /\ live emptyLog tN t'.
Proof.
  intros Hi (Hsz & Hnv & Hst) es' t'. pose proof (inv_hist _ _ _ _ Hi) as Hh.
  destruct (inv_version iv Hiv _ _ _ Hi) as (Ev & Ei & Hok). rewrite Ev, Ei, <- versionAt_S in Hnv.
  destruct (inv_live _ _ _ _ Hi) as (tN & HtN & Hl).
  destruct (stateAt_version iv Hiv es (length es) tN Hh (le_n _) HtN) as (EvN & EiN & HokN & _).
  assert (length es' = S (length es)) as El by (unfold es'; rewrite length_app; cbn; lia).
  assert (es' !! length es = Some (pendingLog (db s))) as He
    by (unfold es'; by rewrite lookup_app_r, Nat.sub_diag by lia).
  assert (stateAt iv es' (length es) tN) as HtN' by (by apply stateAt_app).
  destruct (stateAt_next iv es' (length es) _ tN He HtN' HokN (live_fits _ _ _ Hl) EvN EiN Hnv)
    as (t1 & E1 & Hok1 & Ev1 & Ei1 & Ht1 & Hokt1 & _).
  destruct (live_state _ _ _ Hl) as (t1' & E1' & Heq). rewrite E1 in E1'. injection E1' as <-.
  assert (treeVersion (mtree (db s)) < MaxUint32) as Hlt
    by (unfold treeVersion, MaxUint32; rewrite Ev, Ei, <- versionAt_S; lia).
  destruct (saved_ok (mtree (db s)) true Hok Hlt) as (Es & Hok' & Ev').
  rewrite Ev, Ei, <- versionAt_S, <- El in Es.
  destruct (rel_ok _ _ _ _ _ _ (MTSaveVersion_rel true false) Heq Es) as (u & Eu & Hequ).
  assert (treeVersion t1 < MaxUint32) as Hlt1 by (by rewrite <- (treeVersion_equiv _ _ Heq)).
  destruct (saved_ok t1 false Hok1 Hlt1) as (Es1 & _). rewrite Es1 in Eu. injection Eu as _ <-.
  split; [done|]. split; [|split; [done|split; [done|]]].
  - eapply (hist_snoc iv Hiv); [done|done|apply Hl|done|done|].
    intros x Hx. fold es' in Hx. rewrite (stateAt_unique _ _ _ _ _ Hx Ht1).
    by eapply storable_state_equiv.
  - exists (saved t1 false). rewrite El. split; [done|]. apply live_init; [|done|done].
    by eapply storable_state_equiv.
Qed.

(** Logging the entry: the trees are saved, the pending log is still there. *)
Lemma writeLog_inv es s c :
  inv es s c -> commit_fits s ->
  let es' := es ++ [pendingLog (db s)] in
  let s1 := withDb s (setTree (saved (mtree (db s)) true)) in
  exists s2, writeLog (mkEntry (Z.of_nat (length es')) (pendingLog (db s))) s1 = Some (Ok tt, s2) /\
    inv es' (withDb s2 (setPending emptyLog)) c /\
    rewriting (db s2) = rewriting (db s) /\ pruning (db s2) = pruning (db s) /\
    walChanSize (db s2) = walChanSize (db s).
Proof.
  intros Hi Hfit es' s1. destruct (commit_state es s c Hi Hfit) as (_ & Hh' & Ei' & Hinfo & Hlive').
  fold es' in Hh', Hlive'. pose proof Hi as [Hh Hd Hl Hinf Hmode Hqu Hsy Hr Hlk Hp].
  pose proof (disk_log _ _ _ _ Hd) as Hlog. pose proof (log_last_pos (wal (disk s))) as Hpos.
  destruct (disk_current _ _ _ _ Hd) as (_ & _ & Hc).
  assert (length es' = S (length es)) as El by (unfold es'; rewrite length_app; cbn; lia).
  assert (drop (Z.to_nat (log_last (wal (disk s)))) es' =
    drop (Z.to_nat (log_last (wal (disk s)))) es ++ [pendingLog (db s)]) as Ed
    by (unfold es'; apply drop_app_le; destruct Hlog; lia).
  assert (entriesFrom (log_last (wal (disk s)) + 1) (drop (Z.to_nat (log_last (wal (disk s)))) es') =
    walQueue (db s) ++ [mkEntry (Z.of_nat (length es')) (pendingLog (db s))]) as Eq'.
  { rewrite Ed, entriesFrom_app, Hqu. f_equal. cbn [entriesFrom]. do 2 f_equal.
    rewrite length_drop, El. destruct Hlog. lia. }
  unfold writeLog. sstate. cbn [db withDb setTree walChanSize s1].
  destruct (Z.leb_spec 0 (walChanSize (db s))) as [Hs|Hs].
  - eexists. split; [reflexivity|]. unfold sendEntry, withDb, s1.
    cbn [db disk withDb walChan setTree].
    assert (forall q', q' = walQueue (db s) ++ [mkEntry (Z.of_nat (length es')) (pendingLog (db s))] ->
      inv es' (withDb s (fun x => setPending emptyLog (setChan (Some q')
        (setTree (saved (mtree (db s)) true) x)))) c) as Hq.
    { intros q' ->. split; cbn [db disk withDb mtree pendingLog readOnly walOpen snapshotInterval walQuit
        walChanSize setChan setPending setTree rewriting pruning]; try done.
      + by apply disk_app.
      + intros ?. lia.
      + intros r Er. by apply rewriter_app, Hr. }
    destruct Hmode as (? & ? & ? & Hw).
    destruct (walChan (db s)) as [q|] eqn:Ec.
    + split; [|done]. unfold walQueue in Hq. rewrite Ec in Hq. by apply (Hq (q ++ _)).
    + split; [|done]. unfold walQueue in Hq. rewrite Ec in Hq. specialize (Hq _ eq_refl).
      cbn [default app] in Hq. destruct s as [x dd]. cbn in *. destruct x. cbn in *. by subst.
  - specialize (Hsy Hs). rewrite Hsy in *. cbn [app] in Eq'.
    assert (drop (Z.to_nat (log_last (wal (disk s)))) es = []) as Ed0.
    { symmetry in Hqu. destruct (drop _ es); [done|]. by cbn in Hqu. }
    rewrite Ed, Ed0 in Eq'. cbn [app entriesFrom] in Eq'. injection Eq' as Eidx.
    destruct (log_append (wal (disk s)) es' 1) as (l' & Ew & Elast & Hl' & Hf').
    { by apply log_holds_app. }
    { rewrite Ed, Ed0. cbn. lia. }
    rewrite Ed, Ed0 in Ew. cbn [take app entriesFrom] in Ew. rewrite Eidx in Ew.
    unfold writeEntries in Ew. rewrite bind_cons, app_nil_r in Ew. sstate. unfold s1. cbn [disk withDb]. rewrite Ew. sstate.
    eexists. split; [reflexivity|]. split; [|done].
    split; cbn [db disk withDb withDisk mtree pendingLog readOnly walOpen snapshotInterval walQuit walChanSize
      setChan setPending setTree rewriting pruning wal setWal currentTmp]; try done.
    + apply disk_setWal; [by apply disk_app|done|done].
    + change (walQueue _) with (walQueue (db s)). rewrite Hsy, Elast, drop_ge; [done|].
      rewrite El. destruct Hlog as [Hlast _]. apply (f_equal length) in Ed0. rewrite length_drop in Ed0. cbn in Ed0. lia.
    + intros r Er. specialize (Hr r Er). by apply rewriter_app.
Qed.

(** Commit up to the background tasks. *)
Lemma inv_commitLog es s c :
  inv es s c -> commit_fits s ->
  let es' := es ++ [pendingLog (db s)] in
  exists s', commitLog s = Some (Ok (versionAt iv (length es')), s') /\
    inv es' s' c /\ pendingLog (db s') = emptyLog /\
    rewriting (db s') = rewriting (db s) /\ pruning (db s') = pruning (db s) /\
    walChanSize (db s') = walChanSize (db s).
Proof.
  intros Hi Hfit es'. destruct (commit_state es s c Hi Hfit) as (Es & Hh' & Ei' & _).
  fold es' in Es, Hh'. set (v := versionAt iv (length es')) in *.
  destruct (writeLog_inv es s c Hi Hfit) as (s2 & Ew & Hi2 & Er & Ep & Esz).
  destruct (inv_mode _ _ _ _ Hi) as (Hro & Hwo & _).
  assert (walIndex v iv = Z.of_nat (length es')) as Eidx.
  { pose proof (versionAt_range iv es' (length es') Hh' (le_n _)). apply walIndex_versionAt; [done| |lia].
    unfold es'. rewrite length_app. cbn. lia. }
  exists (withDb s2 (setPending emptyLog)). split; [|by split_and!].
  unfold commitLog, guardReadOnly. rewrite (SE_bind_ok _ _ _ tt s) by (sstate; by rewrite Hro).
  rewrite (SE_bind_ok _ _ _ v (withDb s (setTree (saved (mtree (db s)) true))))
    by (unfold onTree; by rewrite Es).
  sstate. cbn [db withDb setTree walOpen mtree pendingLog]. rewrite Hwo, Ei', Eidx.
  by rewrite (SE_bind_ok _ _ _ _ _ Ew), SE_bind_modify.
Qed.

(** ** Background tasks *)

Lemma inv_setRewriting es s c r :
  inv es s c -> (forall x, r = Some x -> rewriter_ok es (disk s) c x) ->
  currentTmp (disk s) = match r with Some (RSwitch t) => Some (snapshotName (MTVersion t)) | _ => None end ->
  inv es (withDb s (setRewriting r)) c.
Proof. intros [] Hr Hl. by split. Qed.

Lemma inv_setPruning es s c p :
  inv es s c -> (forall x, p = Some x -> pruner_ok iv c x) -> inv es (withDb s (setPruning p)) c.
Proof. intros [] Hp. by split. Qed.

Lemma catch_ok (m : SE (Sys C L) unit) s s' : m s = Some (Ok tt, s') -> catch m s = Some (Ok None, s').
Proof. unfold catch. by intros ->. Qed.

Lemma inv_committed es s c :
  inv es s c -> es <> [] -> log_last (wal (disk s)) = zlen es ->
  CommittedVersion s = Some (MTVersion (mtree (db s))).
Proof.
  intros Hi Hes El. destruct (inv_version iv Hiv _ _ _ Hi) as (Ev & Ei & _). unfold CommittedVersion.
  destruct es as [|e es]; [done|]. rewrite El, Ei, Ev, walVersion_versionAt.
  - rewrite (proj2 (Z.eqb_neq _ _)); [done|]. cbn. lia.
  - done.
  - cbn. lia.
  - pose proof (hist_versions iv _ (inv_hist _ _ _ _ Hi)). lia.
Qed.

(** A new snapshot is ready and the pruning of the one before is not finished. *)
Definition waiting s : bool :=
  match rewriting (db s), pruning (db s) with
  | Some (RResult (Some _) _), Some _ => true
  | _, _ => false
  end.

(** Switching to the new snapshot: it has caught up with the trees it replaces. *)
Lemma inv_checkBackground es s c :
  inv es s c -> pendingLog (db s) = emptyLog -> es <> [] ->
  if waiting s then checkBackgroundSnapshotRewrite s = None
  else exists s', checkBackgroundSnapshotRewrite s = Some (Ok tt, s') /\ inv es s' c /\
    pendingLog (db s') = emptyLog /\ walChanSize (db s') = walChanSize (db s).
Proof.
  intros Hi Hpend Hes. unfold waiting. unfold checkBackgroundSnapshotRewrite. sstate.
  pose proof (inv_link _ _ _ _ Hi) as Hlk.
  destruct (rewriting (db s)) as [[t|t|t|t|t|m err]|] eqn:Er; try (by exists s).
  pose proof (inv_rewriter _ _ _ _ Hi _ Er) as Hr. sstate.
  assert (inv es (withDb s (setRewriting None)) c) as Hi1 by (by apply inv_setRewriting).
  destruct m as [m|]; [|cbn in Hr; subst err; by eexists].
  destruct Hr as (j & tj & Hj & Htj & Heq & Hokm & Hinfo).
  destruct (inv_drainWal iv es _ c Hi1) as (Hi2 & Elast & Et2 & Ep2 & _ & Epr2 & Esz2).
  sstate. set (s2 := drainWal _) in *. cbn [db withDb setRewriting mtree pendingLog pruning walChanSize] in Et2, Ep2, Epr2, Esz2.
  rewrite (inv_committed es s2 c Hi2 Hes Elast). sstate. rewrite Z.eqb_refl. cbn [negb]. sstate.
  pose proof (inv_hist _ _ _ _ Hi2) as Hh. pose proof (inv_disk _ _ _ _ Hi2) as Hd2.
  destruct (disk_current _ _ _ _ Hd2) as (_ & Hcur & _).
  destruct (catchup_state iv Hiv (wal (disk s2)) es j (length es) 0 m tj Hh) as
    (m' & tm & Ec & Htm & Heqm & Hokm' & Hinfo'); [lia|lia|done|done|done|apply Hd2| | |].
  { eapply log_from_mono; [|by apply (disk_from iv es _ c)]. lia. }
  { left. split; [done|]. rewrite Elast. lia. }
  rewrite Ec. sstate. cbn [fst snd]. sstate. unfold reloadMultiTree.
  assert (pendingLog (db s2) = emptyLog) as Hp2 by congruence.
  replace (j `max` (length es `min` Z.to_nat (log_last (wal (disk s2)))))%nat with (length es) in Htm by lia.
  assert (live emptyLog tm m') as Hlive.
  { apply live_init; [|done|done]. by apply (stateAt_version iv Hiv es (length es) tm Hh). }
  pose proof (inv_setLive iv es s2 c emptyLog m' tm Hi2 Htm Hlive (fun _ => Hinfo' Hinfo)) as Hi3.
  rewrite (SE_bind_ok _ _ _ tt (withDb s2 (setTree m'))).
  2: { sstate. cbn [db withDb setTree pendingLog]. by rewrite Hp2. }
  sstate. cbn [db withDb setTree pruning]. rewrite Epr2. destruct (pruning (db s)); [done|].
  eexists. split; [reflexivity|].
  split; [|done]. apply (inv_setPruning es _ c (Some PList)) in Hi3; [|by intros x [= <-]].
  destruct s2 as [x2 dd2]. destruct x2. cbn in *. by rewrite <- Hp2 in Hi3.
Qed.

Lemma inv_rewriteBackground es s c :
  inv es s c -> pendingLog (db s) = emptyLog ->
  exists r s', rewriteSnapshotBackground s = Some (r, s') /\ inv es s' c /\ pendingLog (db s') = emptyLog /\
    walChanSize (db s') = walChanSize (db s).
Proof.
  intros Hi Hpend. unfold rewriteSnapshotBackground. sstate. pose proof (inv_link _ _ _ _ Hi) as Hlk.
  destruct (rewriting (db s)) as [r|] eqn:Er; [by eexists _, s|]. eexists _, _. split; [reflexivity|].
  split; [|done]. apply inv_setRewriting; [done| |done]. intros x [= <-].
  exists (length es). pose proof (inv_disk _ _ _ _ Hi) as Hd. destruct (disk_current _ _ _ _ Hd) as (_ & _ & Hc).
  split; [lia|]. destruct (inv_live _ _ _ _ Hi) as (tN & HtN & Hl).
  destruct (live_state _ _ _ Hl) as (t' & Et' & Heq). rewrite Hpend in Et'. injection Et' as <-.
  destruct (MTCopy_ok (mtree (db s)) 0 (live_ok _ _ _ Hl)) as (Heqc & Hokc & Hinfoc).
  apply (clone_equiv iv Hiv es (length es) _ tN); [apply Hi|lia|done|by etrans|done|].
  rewrite Hinfoc, (infoOf_equiv _ _ Heqc). by apply (inv_info _ _ _ _ Hi).
Qed.

Lemma inv_checkAsyncTasks es s c :
  inv es s c -> pendingLog (db s) = emptyLog -> es <> [] ->
  if waiting s then checkAsyncTasks s = None
  else exists s', checkAsyncTasks s = Some (Ok tt, s') /\ inv es s' c /\ pendingLog (db s') = emptyLog /\
    walChanSize (db s') = walChanSize (db s).
Proof.
  intros Hi Hp Hes. pose proof (inv_checkBackground es s c Hi Hp Hes) as Hb.
  destruct (inv_mode _ _ _ _ Hi) as (_ & _ & _ & Hw). unfold checkAsyncTasks, checkAsyncCommit.
  rewrite (SE_bind_ok _ _ _ None s) by (apply catch_ok; sstate; by rewrite Hw).
  destruct (waiting s).
  - unfold mbind at 1, SE_bind, catch. by rewrite Hb.
  - destruct Hb as (s' & E & Hi' & Hp'). exists s'. split; [|done].
    by rewrite (SE_bind_ok _ _ _ None s') by (by apply catch_ok).
Qed.

Lemma inv_rewriteIfApplicable es s c v :
  inv es s c -> pendingLog (db s) = emptyLog ->
  exists s', rewriteIfApplicable v s = Some (Ok tt, s') /\ inv es s' c /\ pendingLog (db s') = emptyLog /\
    walChanSize (db s') = walChanSize (db s).
Proof.
  intros Hi Hp. destruct (inv_mode _ _ _ _ Hi) as (_ & _ & Hint & _). unfold rewriteIfApplicable. sstate.
  rewrite (proj2 (Z.eqb_neq _ _)) by done.
  destruct (negb (Z.rem v (snapshotInterval (db s)) =? 0)); [by exists s|].
  destruct (inv_rewriteBackground es s c Hi Hp) as (r & s' & E & Hi' & Hp').
  exists s'. split; [|done]. by rewrite (SE_bind_ok _ _ _ (match r with Ok _ => None | Err e => Some e end) s')
    by (unfold catch; by rewrite E).
Qed.

(** A commit within the limits succeeds, unless it has to wait for the pruning
    of an earlier snapshot. *)
Lemma inv_Commit es s c :
  inv es s c -> commit_fits s -> waiting s = false ->
  let es' := es ++ [pendingLog (db s)] in
  exists s', Commit s = Some (Ok (versionAt iv (length es')), s') /\ inv es' s' c /\
    pendingLog (db s') = emptyLog /\ walChanSize (db s') = walChanSize (db s).
Proof.
  intros Hi Hfit Hwait es'. destruct (inv_commitLog es s c Hi Hfit) as (s1 & E1 & Hi1 & Hp1 & Er1 & Epr1 & Esz1).
  fold es' in Hi1, E1. unfold Commit. rewrite (SE_bind_ok _ _ _ _ _ E1).
  pose proof (inv_checkAsyncTasks es' s1 c Hi1 Hp1) as Ht.
  assert (waiting s1 = false) as Hw by (by unfold waiting in *; rewrite Er1, Epr1). rewrite Hw in Ht.
  destruct Ht as (s2 & E2 & Hi2 & Hp2 & Esz2); [by unfold es'; destruct es|].
  destruct (inv_rewriteIfApplicable es' s2 c (versionAt iv (length es')) Hi2 Hp2) as (s3 & E3 & Hi3 & Hp3 & Esz3).
  exists s3. split; [|split; [done|split; [done|congruence]]]. by rewrite (SE_bind_ok _ _ _ _ _ E2), (SE_bind_ok _ _ _ _ _ E3).
Qed.
End Step.
