(* ===== verification/DbTasks.v ===== *)
(** * The goroutines keep the invariant

    Rewriting a snapshot, phase by phase, and pruning, removal by removal, interleaved
    with everything else. *)

From S2P Require Import Prelude KV Binary Sha256 Node Hash Snapshot Persisted Tree Proto Wal.
From S2P Require Import MultiTree MultiSnapshot SnapshotName Db DbDisk DbHistory DbPending DbInv DbStep.

Open Scope string_scope.
Open Scope Z_scope.
Open Scope list_scope.

Section Tasks.
Context {C : Type} `{LawsC : CacheLaws C} {L : Type} `{LawsL : WalLaws L}.
Context (iv : Z) (Hiv : 0 <= iv < 2 ^ 32).
Implicit Types (t : MultiTree C) (s : Sys C L) (d : Disk L) (es : list WALEntry).

Local Notation inv := (inv (C:=C) (L:=L) iv).
Local Notation disk_ok := (disk_ok (C:=C) (L:=L) iv).
Local Notation clone_ok := (clone_ok (C:=C) iv).
Local Notation rewriter_ok := (rewriter_ok (C:=C) (L:=L) iv).
Local Notation snap := (snap iv).

(** ** Changes of the directories *)

(** A new directory of a state, current or newer when it is a snapshot. *)
Lemma disk_insert es d c n i t :
  hist_ok (C:=C) iv es -> disk_ok es d c -> (i <= length es)%nat -> clone_ok es i t ->
  n = snap i /\ (c <= i)%nat \/ n = tmpName (snap i) ->
  disk_ok es (setDirs (<[n := dirOf t]> (dirs d)) d) c.
Proof.
  intros Hh Hd Hi Ht Hname. pose proof (disk_from iv es d c Hh Hd) as Hfc.
  destruct Hd as [Hn (Hc1 & Hc2 & Hc3) Hl]. split; cbn [dirs current wal setDirs]; [| |done].
  - intros m sd [[<- <-]|[_ Hm]]%lookup_insert_Some; [|by apply Hn].
    exists i, t. split; [done|]. split; [done|]. split; [done|].
    destruct Hname as [[En Hci]|En]; [left|by right]. split; [done|]. by eapply log_from_mono.
  - split; [done|]. split; [|done]. apply lookup_insert_is_Some'. by right.
Qed.

Lemma disk_delete es d c n :
  disk_ok es d c -> n <> snap c -> disk_ok es (setDirs (delete n (dirs d)) d) c.
Proof.
  intros [Hn (Hc1 & Hc2 & Hc3) Hl] Hne. split; cbn [dirs current wal setDirs]; [| |done].
  - intros m sd [_ Hm]%lookup_delete_Some. by apply Hn.
  - split; [done|]. split; [|done]. by rewrite lookup_delete_ne.
Qed.

Lemma dirOf_names t : (sdTrees (dirOf t)).*1 = names (trees t).
Proof. unfold names. cbn [sdTrees dirOf]. by rewrite <- list_fmap_compose. Qed.

(** Writing a state over itself. *)
Lemma writeInto_same t t' : t ≡ t' -> writeInto (Some (dirOf t')) (dirOf t) = dirOf t.
Proof.
  intros (_ & _ & _ & Hl%same_names). unfold writeInto. rewrite dirOf_names, Hl, <- dirOf_names.
  assert (forall l k : list (string * snapshotFiles), (forall e, e ∈ l -> e.1 ∈ k.*1) ->
    List.filter (fun e => negb (bool_decide (e.1 ∈ k.*1))) l = []) as Hf.
  { intros l k. induction l as [|e l IH]; intros He; [done|]. cbn [List.filter].
    rewrite bool_decide_true by (apply He; by left). cbn [negb]. apply IH. intros x Hx. apply He. by right. }
  rewrite Hf; [by rewrite app_nil_r|]. intros e He. by apply (list_elem_of_fmap_2 fst).
Qed.

Lemma writeDir_state es d c i t :
  hist_ok (C:=C) iv es -> disk_ok es d c -> (i <= length es)%nat -> clone_ok es i t ->
  writeDir (tmpName (snap i)) (dirOf t) d = setDirs (<[tmpName (snap i) := dirOf t]> (dirs d)) d.
Proof.
  intros Hh Hd Hi (Hst & Hinfo & ti & Hti & Heq). unfold writeDir. f_equal. f_equal.
  destruct (dirs d !! tmpName (snap i)) as [sd|] eqn:Esd; [|done].
  destruct (disk_names _ _ _ _ Hd _ _ Esd) as (j & t' & Hj & (_ & _ & tj & Htj & Heq') & -> & [[E _]|E]).
  - symmetry in E. by apply snap_tmp in E.
  - apply tmpName_inj, (snap_inj iv es) in E as <-; [|done|done|done].
    apply writeInto_same. rewrite Heq, (stateAt_unique _ _ _ _ _ Hti Htj). by symmetry.
Qed.

(** ** Frame *)

(** The rewriting goroutine depends on the directories from the current one on. *)
Lemma rewriter_frame es d d' c r :
  (forall i, (c <= i <= length es)%nat -> dirs d' !! snap i = dirs d !! snap i /\
    dirs d' !! tmpName (snap i) = dirs d !! tmpName (snap i)) ->
  rewriter_ok es d c r -> rewriter_ok es d' c r.
Proof.
  intros Hf. destruct r as [t|t|t|t|t|[m|] err]; cbn [DbInv.rewriter_ok]; try done.
  - intros (i & Hi & Ht & E). exists i. destruct (Hf i Hi) as [_ ->]. done.
  - intros (i & Hi & Ht & E). exists i. destruct (Hf i Hi) as [-> _]. done.
  - intros (i & Hi & Ht & E). exists i. destruct (Hf i Hi) as [-> _]. done.
Qed.

(** New goroutine states and a new disk with the same log. *)
Lemma inv_change es s c c' d' r p :
  inv es s c -> disk_ok es d' c' -> log_last (wal d') = log_last (wal (disk s)) ->
  (forall x, r = Some x -> rewriter_ok es d' c' x) ->
  currentTmp d' = match r with Some (RSwitch t) => Some (snapshotName (MTVersion t)) | _ => None end ->
  (forall x, p = Some x -> pruner_ok iv c' x) ->
  inv es (mkSys (setPruning p (setRewriting r (db s))) d') c'.
Proof.
  intros [] Hd El Hr Hlk Hp. split; cbn [db disk]; try done. by rewrite El.
Qed.

Lemma pruner_mono c c' p : (c <= c')%nat -> pruner_ok iv c p -> pruner_ok iv c' p.
Proof.
  intros Hc. assert (forall l, Forall (fun v => exists i, v = versionAt iv i /\ (i < c)%nat) l ->
    Forall (fun v => exists i, v = versionAt iv i /\ (i < c')%nat) l) as Hl.
  { intros l Hl. eapply Forall_impl; [exact Hl|]. intros v (i & -> & Hi). exists i. split; [done|lia]. }
  destruct p; cbn [pruner_ok]; auto.
Qed.

(** ** The rewriting goroutine *)

(** Loading the current snapshot and catching up. *)
Lemma load_current es d c zc cs :
  hist_ok (C:=C) iv es -> disk_ok es d c ->
  exists sd t m tj, currentDir d = Ok sd /\ LoadMultiTree sd zc cs = Some (Ok t) /\
    MTVersion t = versionAt iv c /\ initialVersion t = iv /\
    CatchupWAL (wal d) 0 t = Some (Ok tt, m) /\
    stateAt iv es (c `max` Z.to_nat (log_last (wal d))) tj /\ m ≡ tj /\ mt_ok m /\
    lastCommitInfo m = infoOf m.
Proof.
  intros Hh Hd. destruct (disk_current _ _ _ _ Hd) as (Ecur & [sd Esd] & Hc).
  destruct (disk_snap iv es d c c sd Hh Hd Hc Esd) as (t & Ht & -> & Hf).
  pose proof (clone_version iv Hiv es c t Hh Hc Ht) as (_ & Ev & Ei).
  destruct Ht as (Hst & Hinfo & tc & Htc & Heq).
  destruct (LoadMultiTree_dirOf t zc cs Hst) as (t' & El & Heq' & Hok' & Hci & _).
  pose proof (disk_log _ _ _ _ Hd) as Hlog.
  destruct (catchup_state iv Hiv (wal d) es c (Z.to_nat (log_last (wal d))) 0 t' tc Hh Hc) as
    (m & tm & Ec & Htm & Heqm & Hokm & Hinfom); [|done|by etrans|done|done|done|by left|].
  { destruct Hlog. lia. }
  rewrite Nat.min_id in Htm. exists (dirOf t), t', m, tm. pose proof Heq' as (Ei' & Ev' & _).
  split; [unfold currentDir; rewrite Ecur; sbind; by rewrite Esd|]. split; [done|].
  split; [congruence|]. split; [congruence|]. split; [done|]. split; [done|]. split; [done|].
  split; [done|]. apply Hinfom. by rewrite Hci, Hinfo, (infoOf_equiv _ _ Heq').
Qed.

(** A rewriting goroutine that is not done can go on. *)
Definition rewriter_busy (r : rewriter C) : Prop :=
  match r with RResult _ _ => False | _ => True end.

Lemma inv_rewriterStep es s c r ctxDone :
  inv es s c -> rewriting (db s) = Some r -> rewriter_busy r ->
  exists s' c', rewriterStep ctxDone s = Some s' /\ inv es s' c' /\ (c <= c')%nat.
Proof.
  intros Hi Er Hb. pose proof (inv_hist _ _ _ _ Hi) as Hh. pose proof (inv_disk _ _ _ _ Hi) as Hd.
  pose proof (inv_rewriter _ _ _ _ Hi r Er) as Hr. pose proof (inv_link _ _ _ _ Hi) as Hlk.
  rewrite Er in Hlk. pose proof (inv_pruner _ _ _ _ Hi) as Hp.
  assert (forall c' d' x, disk_ok es d' c' -> log_last (wal d') = log_last (wal (disk s)) ->
    rewriter_ok es d' c' x ->
    currentTmp d' = match x with RSwitch t => Some (snapshotName (MTVersion t)) | _ => None end ->
    (c <= c')%nat -> inv es (mkSys (setRewriting (Some x) (db s)) d') c') as Hnext.
  { intros c' d' x Hd' El Hx Hl Hc. apply (inv_change es s c c' d' (Some x) (pruning (db s))); try done.
    - by intros y [= <-].
    - intros y Hy. eapply pruner_mono; [exact Hc|]. by apply Hp. }
  unfold rewriterStep. rewrite Er. destruct r as [t|t|t|t|t|m err]; [..|done]; cbn [DbInv.rewriter_ok] in Hr.
  - destruct Hr as (i & Hci & Ht). destruct (clone_version iv Hiv es i t Hh ltac:(lia) Ht) as (-> & _).
    destruct (MTWriteSnapshotWithContext ctxDone t) as [sd|e] eqn:Ew.
    + apply MTWriteSnapshot_done in Ew as ->; [|apply Ht].
      rewrite (writeDir_state es (disk s) c i t Hh Hd) by (done || lia).
      eexists _, c. split; [done|]. split; [|lia]. apply Hnext; [|done| |done|lia].
      * apply (disk_insert es (disk s) c _ i t); [done|done|lia|done|by right].
      * exists i. split; [done|]. split; [done|]. apply lookup_insert_eq.
    + eexists _, c. split; [done|]. split; [|lia]. apply Hnext; [|done|done|done|lia].
      apply disk_delete; [done|]. intros E. symmetry in E. by apply snap_tmp in E.
  - destruct Hr as (i & Hci & Ht & Esd). destruct (clone_version iv Hiv es i t Hh ltac:(lia) Ht) as (-> & _).
    unfold renameDir. rewrite Esd. destruct (dirs (disk s) !! snap i) as [x|] eqn:Ei.
    + eexists _, c. split; [done|]. split; [|lia]. by apply Hnext.
    + eexists _, c. split; [done|]. split; [|lia]. apply Hnext; [|done| |done|lia].
      * apply (disk_insert es (RemoveAll (tmpName (snap i)) (disk s)) c _ i t);
          [done| |lia|done|left; split; [done|lia]].
        apply disk_delete; [done|]. intros E. symmetry in E. by apply snap_tmp in E.
      * exists i. split; [done|]. split; [done|]. cbn [dirs setDirs]. by rewrite lookup_insert_eq.
  - destruct Hr as (i & Hci & Ht & Esd). unfold symlinkTmp. rewrite Hlk.
    eexists _, c. split; [done|]. split; [|lia]. apply Hnext; [|done| |done|lia].
    + by destruct Hd.
    + by exists i.
  - destruct Hr as (i & Hci & Ht & Esd). unfold renameLink. rewrite Hlk.
    destruct (clone_version iv Hiv es i t Hh ltac:(lia) Ht) as (-> & _).
    eexists _, i. split; [done|]. split; [|lia]. apply Hnext; [|done|done|done|lia].
    destruct Hd as [Hn _ Hl]. split; [exact Hn| |exact Hl]. split; [done|]. split; [done|lia].
  - destruct (load_current es (disk s) c (mtZeroCopy t) 0 Hh Hd)
      as (sd & u & m & tj & -> & -> & _ & _ & Ec & Htj & Heq & Hok & Hinfo).
    sbind. rewrite Ec. eexists _, c. split; [done|]. split; [|lia]. apply Hnext; [done|done| |done|lia].
    exists (c `max` Z.to_nat (log_last (wal (disk s))))%nat, tj. split; [|done].
    destruct (disk_current _ _ _ _ Hd) as (_ & _ & Hc). destruct (disk_log _ _ _ _ Hd) as [Hlast _]. lia.
Qed.

(** ** The pruning goroutine *)

(** An older version is apart from everything from the current one on. *)
Lemma snap_older es i c :
  hist_ok (C:=C) iv es -> (i < c)%nat -> (c <= length es)%nat ->
  forall j, (c <= j <= length es)%nat ->
  snap i <> snap j /\ snap i <> tmpName (snap j) /\
  tmpName (snap i) <> snap j /\ tmpName (snap i) <> tmpName (snap j).
Proof.
  intros Hh Hi Hc j Hj. assert (snap i <> snap j) as Hne.
  { intros E. apply (snap_inj iv es) in E; [lia|done|lia|lia]. }
  split; [done|]. split; [apply snap_tmp|]. split.
  - intros E. symmetry in E. by apply snap_tmp in E.
  - by intros E%tmpName_inj.
Qed.

(** The version of a snapshot on disk is the version of a state. *)
Lemma version_state es d c v :
  hist_ok (C:=C) iv es -> disk_ok es d c -> 0 <= v < 2 ^ 31 -> snapshotName v ∈ dom (dirs d) ->
  exists j, (j <= length es)%nat /\ v = versionAt iv j.
Proof.
  intros Hh Hd Hv [sd Hsd]%elem_of_dom.
  destruct (disk_names _ _ _ _ Hd _ _ Hsd) as (j & t & Hj & _ & _ & [[E _]|E]).
  - pose proof (versionAt_range iv es j Hh Hj). apply snapshotName_inj in E; [by exists j|lia|lia].
  - symmetry in E. by apply tmpName_snapshotName in E; [|lia].
Qed.

(** The index the log is truncated to is in range only when it is not after any
    snapshot. *)
Lemma earliest_index es d c i :
  hist_ok (C:=C) iv es -> disk_ok es d c -> (i <= length es)%nat -> is_Some (dirs d !! snap i) ->
  let earliest := match firstSnapshotVersion (readDir d) with Ok v => v | Err _ => 0 end in
  let k := walIndex (earliest + 1) iv in
  log_first (wal d) <= k <= log_last (wal d) -> 1 <= log_first (wal d) -> k <= Z.of_nat (S i).
Proof.
  intros Hh Hd Hi Hsi earliest k Hk H1. pose proof (disk_log _ _ _ _ Hd) as [Hlast _].
  destruct (readDir_versions d) as (Hok & Hs & Hin).
  { intros n Hn. by eapply disk_good_names. }
  unfold earliest in k. clear earliest. subst k. rewrite firstSnapshotVersion_spec in * by done.
  pose proof (versionAt_range iv es i Hh Hi) as Hvi.
  assert (versionAt iv i ∈ snapshotVersions (readDir d)) as Hel.
  { apply Hin. split; [done|]. by apply elem_of_dom. }
  destruct (snapshotVersions (readDir d)) as [|v l] eqn:Ev; [by apply elem_of_nil in Hel|].
  assert (v <= versionAt iv i) as Hle.
  { inversion Hs as [|? ? _ Hall]; subst. apply elem_of_cons in Hel as [->|Hel]; [lia|].
    rewrite Forall_forall in Hall. specialize (Hall _ Hel). lia. }
  pose proof (hist_versions iv es Hh) as Hv31.
  assert (zlen es < 2 ^ 31 + 1) as Hlen.
  { unfold versionAt in Hv31. destruct (length es) as [|n]; [done|]. cbn [Nat.eqb] in Hv31. destruct (1 <? iv) eqn:?; lia. }
  destruct (Z.eqb_spec v 0) as [->|Hv0].
  - change (0 + 1) with 1 in *. unfold walIndex in *. change (u64 1) with 1 in *.
    destruct (Z.ltb_spec 1 iv); [|lia].
    exfalso. unfold u64 in Hk. rewrite Zplus_mod_idemp_l in Hk.
    destruct (decide (iv = 2)) as [E2|].
    { rewrite E2 in Hk. change ((1 - 2 + 1) mod 2 ^ 64) with 0 in Hk. lia. }
    replace (1 - iv + 1) with (2 ^ 64 - (iv - 2) + -1 * 2 ^ 64) in Hk by lia.
    rewrite Z.mod_add, Z.mod_small in Hk by lia. lia.
  - assert (v ∈ snapshotVersions (readDir d)) as Hv by (rewrite Ev; by left). rewrite Ev in Hv.
    apply Hin in Hv as [Hvr Hvd].
    destruct (version_state es d c v Hh Hd Hvr Hvd) as (j & Hj & ->).
    pose proof (versionAt_range iv es j Hh Hj) as Hvj.
    assert (j <> 0%nat) as Hj0 by (by intros ->).
    assert (j <= i)%nat as Hji.
    { destruct (decide (i < j)%nat) as [Hlt|]; [|lia]. apply (versionAt_lt iv) in Hlt. lia. }
    assert (versionAt iv j + 1 = versionAt iv (S j)) as Es.
    { rewrite versionAt_S. unfold nextVersion. rewrite (proj2 (Z.eqb_neq _ _)) by done. done. }
    rewrite Es, walIndex_versionAt; [lia|done|lia|lia].
Qed.

Lemma disk_reach es d c l :
  disk_ok es d c -> log_holds l es ->
  (forall i, (i <= length es)%nat -> is_Some (dirs d !! snap i) -> log_from l i) ->
  disk_ok es (setWal l d) c.
Proof.
  intros [Hn Hc Hl] Hl' Hf'. split; [|exact Hc|done]. intros n sd Hsd.
  destruct (Hn n sd Hsd) as (i & t & Hi & Ht & Esd & Hname). exists i, t.
  split; [done|]. split; [done|]. split; [done|]. destruct Hname as [[En Hf]|En]; [left|by right].
  split; [done|]. apply Hf'; [done|]. rewrite <- En. by exists sd.
Qed.

Lemma truncate_from es d c l :
  hist_ok (C:=C) iv es -> disk_ok es d c ->
  let earliest := match firstSnapshotVersion (readDir d) with Ok v => v | Err _ => 0 end in
  log_truncate_front (wal d) (walIndex (earliest + 1) iv) = Ok l ->
  disk_ok es (setWal l d) c /\ log_last l = log_last (wal d).
Proof.
  intros Hh Hd earliest El. set (k := walIndex (earliest + 1) iv) in *.
  pose proof (disk_log _ _ _ _ Hd) as [Hlast Hlog]. pose proof (log_last_pos (wal d)).
  destruct (decide (log_last (wal d) <> 0 /\ log_first (wal d) <= k <= log_last (wal d))) as [[Hne Hk]|Hout].
  2: { destruct (log_truncate_range (wal d) k) as (e1 & e2 & E1 & _); [lia|]. congruence. }
  destruct (log_truncate_front_ok (wal d) k Hne Hk) as (l' & El' & Efirst & Elast & Hkeep).
  rewrite El in El'. injection El' as <-. split; [|done]. apply disk_reach; [done| |].
  - split; [lia|]. intros i e He Hi. assert (log_entry l (Z.of_nat (S i)) = Some (WALEntry_Marshal e)) as E.
    { rewrite Hkeep by lia. unfold log_entry. rewrite (Hlog i e He); [done|lia]. }
    unfold log_entry in E. destruct (log_read l _); [by injection E as ->|done].
  - intros i Hi Hsi. right. rewrite Efirst. apply (earliest_index es d c i Hh Hd Hi Hsi Hk).
    by apply log_nonempty.
Qed.

Lemma inv_prunerStep es s c p :
  inv es s c -> pruning (db s) = Some p -> exists s', prunerStep s = Some s' /\ inv es s' c.
Proof.
  intros Hi Ep. pose proof (inv_hist _ _ _ _ Hi) as Hh. pose proof (inv_disk _ _ _ _ Hi) as Hd.
  pose proof (inv_pruner _ _ _ _ Hi p Ep) as Hp. pose proof (inv_link _ _ _ _ Hi) as Hlk.
  pose proof (inv_rewriter _ _ _ _ Hi) as Hr. destruct (disk_current _ _ _ _ Hd) as (Ecur & Hcur & Hc).
  assert (forall d' x, disk_ok es d' c -> log_last (wal d') = log_last (wal (disk s)) ->
    currentTmp d' = currentTmp (disk s) ->
    (forall i, (c <= i <= length es)%nat -> dirs d' !! snap i = dirs (disk s) !! snap i /\
       dirs d' !! tmpName (snap i) = dirs (disk s) !! tmpName (snap i)) ->
    (forall y, x = Some y -> pruner_ok iv c y) ->
    inv es (mkSys (setPruning x (db s)) d') c) as Hnext.
  { intros d' x Hd' El Et Hfr Hx. apply (inv_change es s c c d' (rewriting (db s)) x); try done.
    - intros r Er. eapply rewriter_frame; [exact Hfr|]. by apply Hr.
    - by rewrite Et. }
  unfold prunerStep. rewrite Ep. destruct p as [|l err|v l err|]; cbn [pruner_ok] in Hp.
  - destruct (currentVersion (disk s)) as [v|] eqn:Ev; [|eexists; split; [done|by apply Hnext]].
    destruct (readDir_versions (disk s)) as (Hok & _ & Hin).
    { intros n Hn. by eapply disk_good_names. }
    rewrite prunedVersions_spec by done. eexists. split; [done|]. apply Hnext; try done.
    intros y [= <-]. apply Forall_forall. intros w Hw%subseteq_drop.
    apply list_elem_of_In, filter_In in Hw as [Hw Hlt%Z.ltb_lt]. rewrite <- in_rev, <- list_elem_of_In in Hw.
    apply Hin in Hw as [Hwr Hwd]. unfold currentVersion in Ev. rewrite Ecur in Ev. unfold DbInv.snap in Ev.
    rewrite parse_good in Ev by (by apply (versionAt_range iv es)). injection Ev as <-.
    destruct (version_state es (disk s) c w Hh Hd Hwr Hwd) as (j & Hj & ->). exists j. split; [done|].
    destruct (decide (j < c)%nat) as [|Hge]; [done|].
    pose proof (versionAt_le iv c j ltac:(lia)). lia.
  - destruct l as [|v l].
    { destruct err; eexists; (split; [done|apply Hnext; try done]). by intros y [= <-]. }
    apply Forall_cons in Hp as [(i & -> & Hic) Hp]. change (snapshotName (versionAt iv i)) with (snap i).
    pose proof (snap_older es i c Hh Hic Hc) as Hap. unfold renameDir.
    destruct (dirs (disk s) !! snap i) as [sd|] eqn:Esd;
      [|eexists; split; [done|]; apply Hnext; try done; by intros y [= <-]].
    destruct (dirs (disk s) !! tmpName (snap i)) as [sd'|] eqn:Esd';
      [eexists; split; [done|]; apply Hnext; try done; by intros y [= <-]|].
    destruct (disk_snap iv es (disk s) c i sd Hh Hd ltac:(lia) Esd) as (t & Ht & -> & _).
    eexists. split; [done|]. apply Hnext; [|done|done| |].
    + apply (disk_insert es (RemoveAll (snap i) (disk s)) c _ i t); [done| |lia|done|by right].
      apply disk_delete; [done|]. apply Hap. lia.
    + intros j Hj. cbn [dirs setDirs]. destruct (Hap j Hj) as (? & ? & ? & ?).
      by rewrite !lookup_insert_ne, !lookup_delete_ne.
    + intros y [= <-]. constructor; [by exists i|done].
  - apply Forall_cons in Hp as [(i & -> & Hic) Hp]. change (snapshotName (versionAt iv i)) with (snap i).
    pose proof (snap_older es i c Hh Hic Hc) as Hap. eexists. split; [done|]. apply Hnext; [|done|done| |].
    + apply disk_delete; [done|]. apply Hap. lia.
    + intros j Hj. cbn [dirs setDirs RemoveAll]. destruct (Hap j Hj) as (? & ? & ? & ?).
      by rewrite !lookup_delete_ne.
    + by intros y [= <-].
  - destruct (inv_version iv Hiv es s c Hi) as (_ & -> & _).
    destruct (log_truncate_front _ _) as [l|] eqn:El; [|eexists; split; [done|by apply Hnext]].
    destruct (truncate_from es (disk s) c l Hh Hd El) as [Hd' Elast].
    eexists. split; [done|]. by apply Hnext.
Qed.
End Tasks.
