(* ===== verification/DbLoad.v ===== *)
(** * Loading a database

    What [Load] makes of the disk a database leaves, in the middle of any
    operation: the last state in the log or in the current snapshot, the state
    at a target version, or the rollback to one. *)

From S2P Require Import Prelude KV Binary Sha256 Node Hash Snapshot Persisted Tree Proto Wal.
From S2P Require Import MultiTree MultiSnapshot SnapshotName Db DbDisk DbHistory DbPending DbInv DbStep DbTasks.

Open Scope string_scope.
Open Scope Z_scope.
Open Scope list_scope.

Section Load.
Context {C : Type} `{LawsC : CacheLaws C} {L : Type} `{LawsL : WalLaws L}.
Context (iv : Z) (Hiv : 0 <= iv < 2 ^ 32).
Implicit Types (t : MultiTree C) (s : Sys C L) (d : Disk L) (es : list WALEntry) (o : Options).

Local Notation inv := (inv (C:=C) (L:=L) iv).
Local Notation disk_ok := (disk_ok (C:=C) (L:=L) iv).
Local Notation clone_ok := (clone_ok (C:=C) iv).
Local Notation snap := (snap iv).

(** What a crash leaves: the disk as it is, where directories with temporary
    names may be half written or half removed. *)
Definition crash d d' : Prop :=
  current d' = current d /\ currentTmp d' = currentTmp d /\ wal d' = wal d /\
  forall n, isTmpName n = false -> dirs d' !! n = dirs d !! n.

Lemma crash_clean d d' : crash d d' -> removeTmpDirs d' = removeTmpDirs d.
Proof.
  intros (Ec & Et & Ew & Hn). unfold removeTmpDirs, setDirs. rewrite Ec, Et, Ew. f_equal.
  apply map_eq. intros n. apply option_eq. intros sd. rewrite !map_lookup_filter_Some. cbn [fst].
  split; intros [E Ht]; (split; [|done]); by rewrite <- E, Hn.
Qed.

Lemma isTmpName_snap i : isTmpName (snap i) = false.
Proof. apply isTmpName_snapshotName, versionAt_nonneg. Qed.

Lemma crash_currentDir es d d' c : disk_ok es d c -> crash d d' -> currentDir d' = currentDir d.
Proof.
  intros Hd (Ec & _ & _ & Hn). destruct (disk_current _ _ _ _ Hd) as (Ecur & _). unfold currentDir.
  rewrite Ec, Ecur. sbind. by rewrite Hn by apply isTmpName_snap.
Qed.

Lemma disk_clean es d c : disk_ok es d c -> disk_ok es (removeTmpDirs d) c.
Proof.
  intros [Hn (Hc1 & [sd Hc2] & Hc3) Hl]. split; cbn [dirs current wal removeTmpDirs setDirs]; [| |done].
  - intros n x [Hx _]%map_lookup_filter_Some. by apply Hn.
  - split; [done|]. split; [|done]. exists sd. apply map_lookup_filter_Some. split; [done|].
    apply isTmpName_snap.
Qed.

(** The database [Load] makes around a multi-tree. *)
Definition loaded o t : DB C :=
  mkDB t (ReadOnly o) (SnapshotKeepRecent o) (filledInterval o) true
    (AsyncCommitBuffer o) None WRunning emptyLog None None.

Definition initialUpgrades o : list TreeNameUpgrade := (fun n => mkUpgrade n "" false) <$> InitialStores o.

(** The end of [Load]: the initial stores of an empty database. *)
Definition finish o t d : option (result (DB C) * Disk L) :=
  if negb (ReadOnly o) && (MTVersion t =? 0) && negb (bool_decide (InitialStores o = [])) then
    match DBApplyUpgrades (initialUpgrades o) (mkSys (loaded o t) d) with
    | None => None
    | Some (Ok _, s) => Some (Ok (db s), d)
    | Some (Err e, _) => Some (Err e, d)
    end
  else Some (Ok (loaded o t), d).

(** [Load] step by step, when the database exists. *)
Lemma Load_steps o d sd n d1 t d2 :
  Validate o = Ok tt -> currentDir d = Ok sd ->
  (if ReadOnly o then d else removeTmpDirs d) = d1 ->
  loadName o d1 = Some (Ok n, d1) -> loadTree o n d1 = Some (Ok t, d1) ->
  match n with
  | Some n => if LoadForOverwriting o then overwrite n (TargetVersion o) (initialVersion t) d1
              else Some (Ok tt, d1)
  | None => Some (Ok tt, d1)
  end = Some (Ok tt, d2) ->
  Load o d = finish o t d2.
Proof.
  intros Hv Hcur Hd1 Hn Ht Ho. unfold Load. rewrite Hv. sstate.
  rewrite (SE_bind_ok _ _ _ tt d).
  2: { destruct (CreateIfMissing o); [|done]. sstate. unfold createDBIfNotExist. rewrite Hcur. done. }
  rewrite (SE_bind_ok _ _ _ tt d1) by (destruct (ReadOnly o); by rewrite <- Hd1).
  rewrite (SE_bind_ok _ _ _ _ _ Hn), (SE_bind_ok _ _ _ _ _ Ht).
  rewrite (SE_bind_ok _ _ _ tt d2) by (destruct n; [by destruct (LoadForOverwriting o)|done]).
  unfold finish, loaded, initialUpgrades. destruct (_ && _); [|done]. sstate.
  destruct (DBApplyUpgrades _ _) as [[[[]|e] s']|]; done.
Qed.

Lemma Validate_writable o : ReadOnly o = false -> Validate o = Ok tt.
Proof. intros Hro. unfold Validate. by rewrite Hro. Qed.

(** *** The latest state *)

Lemma Load_latest es d d' c o :
  hist_ok (C:=C) iv es -> disk_ok es d c -> crash d d' -> ReadOnly o = false -> TargetVersion o = 0 ->
  exists t tm, Load o d' = finish o t (removeTmpDirs d) /\
    stateAt iv es (c `max` Z.to_nat (log_last (wal d))) tm /\ t ≡ tm /\ mt_ok t /\
    lastCommitInfo t = infoOf t.
Proof.
  intros Hh Hd Hcr Hro Htg. pose proof (disk_clean es d c Hd) as Hd1.
  destruct (load_current iv Hiv es (removeTmpDirs d) c (ZeroCopy o) (CacheSize o) Hh Hd1)
    as (sd & u & m & tj & Ecur & El & Ev & _ & Ec & Htj & Heq & Hok & Hinfo).
  destruct (load_current iv Hiv es d c (ZeroCopy o) (CacheSize o) Hh Hd) as (sd' & _ & _ & _ & Ecur' & _).
  exists m, tj. split; [|done].
  apply (Load_steps o d' sd' None (removeTmpDirs d)).
  - by apply Validate_writable.
  - by rewrite (crash_currentDir es d d' c).
  - rewrite Hro. by apply crash_clean.
  - unfold loadName. by rewrite Htg.
  - unfold loadTree. sstate. cbn [openDir]. rewrite Ecur. sstate. rewrite El. sstate. rewrite Htg.
    cbn [Z.eqb orb]. change (wal (removeTmpDirs d)) with (wal d) in *. rewrite Ec. sstate. done.
  - done.
Qed.

(** *** A loaded database has the invariant *)

Lemma inv_loaded es d c o t tN :
  hist_ok (C:=C) iv es -> disk_ok es d c -> log_last (wal d) = zlen es -> currentTmp d = None ->
  ReadOnly o = false -> stateAt iv es (length es) tN -> t ≡ tN -> mt_ok t -> lastCommitInfo t = infoOf t ->
  inv es (mkSys (loaded o t) d) c.
Proof.
  intros Hh Hd Elast Hlk Hro HtN Heq Hok Hinfo.
  split; cbn [db disk loaded mtree pendingLog readOnly walOpen snapshotInterval walQuit rewriting pruning];
    try done.
  - exists tN. split; [done|]. apply live_init; [|done|done].
    by apply (stateAt_version iv Hiv es (length es) tN Hh).
  - split; [done|]. split; [done|]. split; [|done]. unfold filledInterval.
    destruct (Z.eqb_spec (SnapshotInterval o) 0); [done|lia].
  - rewrite Elast, Nat2Z.id, drop_all. done.
Qed.

Lemma upgradeNames_fresh ns l :
  NoDup l -> (forall n, n ∈ l -> n ∉ ns) ->
  is_Some (upgradeNames ns ((fun n => mkUpgrade n "" false) <$> l)).
Proof.
  revert ns. induction l as [|n l IH]; intros ns Hnd Hn; [by eexists|].
  apply NoDup_cons in Hnd as [Hnin Hnd]. cbn [fmap list_fmap upgradeNames]. unfold upgradeName.
  cbn [upDelete upRenameFrom upName]. rewrite bool_decide_true by done. cbn [negb].
  rewrite decide_False by (apply Hn; by left). sbind. apply IH; [done|].
  intros k Hk. specialize (Hn k (list_elem_of_further _ _ _ Hk)). set_solver.
Qed.

Lemma finish_inv es d c o t :
  inv es (mkSys (loaded o t) d) c -> NoDup (InitialStores o) ->
  exists db', finish o t d = Some (Ok db', d) /\ inv es (mkSys db' d) c.
Proof.
  intros Hi Hnd. unfold finish.
  destruct (negb (ReadOnly o) && (MTVersion t =? 0) && negb (bool_decide (InitialStores o = []))) eqn:Eb;
    [|by eexists].
  apply andb_prop in Eb as [[_ Ev%Z.eqb_eq]%andb_prop _].
  destruct (inv_version iv Hiv es _ c Hi) as (Ev' & _). cbn [db mtree loaded] in Ev'.
  assert (length es = 0%nat) as El by (apply (versionAt_inj iv); rewrite <- Ev', Ev; done).
  destruct es; [|done]. destruct (inv_live _ _ _ _ Hi) as (tN & HtN & Hl).
  injection HtN as <-. destruct (live_state _ _ _ Hl) as (t' & Et' & (_ & _ & _ & Heq)).
  injection Et' as <-. cbn [db mtree loaded] in Heq.
  destruct (inv_applyUpgrades iv Hiv [] _ c (initialUpgrades o) Hi) as ([db' d'] & E & Hi' & Ed).
  - done.
  - unfold clash_free. cbn [db mtree loaded]. rewrite (same_names _ _ Heq).
    apply upgradeNames_fresh; [done|]. set_solver.
  - rewrite E. cbn [disk] in Ed. subst d'. by exists db'.
Qed.

(** *** A target version *)

Lemma seek_state es d c k i0 :
  hist_ok (C:=C) iv es -> disk_ok es d c -> (i0 <= k <= length es)%nat -> is_Some (dirs d !! snap i0) ->
  exists i, (i0 <= i <= k)%nat /\ is_Some (dirs d !! snap i) /\
    seekSnapshot (readDir d) (versionAt iv k) = Ok (versionAt iv i).
Proof.
  intros Hh Hd Hk Hi0. destruct (readDir_versions d) as (Hok & Hs & Hin).
  { intros n Hn. by eapply disk_good_names. }
  pose proof (seekSnapshot_spec (readDir d) (versionAt iv k) Hok Hs) as Hseek.
  assert (versionAt iv i0 ∈ snapshotVersions (readDir d)) as Hel.
  { apply Hin. split; [apply (versionAt_range iv es); [done|lia]|by apply elem_of_dom]. }
  pose proof (versionAt_le iv i0 k ltac:(lia)) as Hle.
  destruct (seekSnapshot (readDir d) (versionAt iv k)) as [v|e].
  - destruct Hseek as (Hv & Hvk & Hmax). apply Hin in Hv as [Hvr Hvd].
    destruct (version_state iv es d c v Hh Hd Hvr Hvd) as (i & Hi & ->). exists i.
    split; [|split; [by apply elem_of_dom|done]]. specialize (Hmax _ Hel Hle). split.
    + destruct (decide (i < i0)%nat) as [Hlt|]; [|lia]. apply (versionAt_lt iv) in Hlt. lia.
    + destruct (decide (k < i)%nat) as [Hlt|]; [|lia]. apply (versionAt_lt iv) in Hlt. lia.
  - specialize (Hseek _ Hel). lia.
Qed.

Lemma load_at es d c i k o :
  hist_ok (C:=C) iv es -> disk_ok es d c -> (i <= k <= length es)%nat -> (1 <= k)%nat ->
  is_Some (dirs d !! snap i) -> (i = k \/ Z.of_nat k <= log_last (wal d)) ->
  TargetVersion o = versionAt iv k ->
  exists t tk, loadTree o (Some (snap i)) d = Some (Ok t, d) /\ stateAt iv es k tk /\ t ≡ tk /\
    mt_ok t /\ lastCommitInfo t = infoOf t /\ initialVersion t = iv.
Proof.
  intros Hh Hd Hik Hk1 [sd Hsd] Hreach Htg.
  destruct (disk_snap iv es d c i sd Hh Hd ltac:(lia) Hsd) as (t & Ht & -> & Hf).
  pose proof (clone_version iv Hiv es i t Hh ltac:(lia) Ht) as (_ & Ev & Ei).
  destruct Ht as (Hst & Hinfo & ti & Hti & Heq).
  destruct (LoadMultiTree_dirOf t (ZeroCopy o) (CacheSize o) Hst) as (u & El & Hequ & Hoku & Hci & _).
  assert (lastCommitInfo u = infoOf u) as Hinfou by (by rewrite Hci, Hinfo, (infoOf_equiv _ _ Hequ)).
  pose proof Hequ as (Eiu & Evu & _).
  pose proof (versionAt_lt iv 0 k ltac:(lia)) as Hpos. change (versionAt iv 0) with 0 in Hpos.
  unfold loadTree. sstate. cbn [openDir]. rewrite Hsd. sstate. rewrite El. sstate. rewrite Htg, Evu, Ev.
  rewrite (proj2 (Z.eqb_neq _ _)) by lia. cbn [orb].
  destruct (decide (i = k)) as [->|Hne].
  - rewrite Z.ltb_irrefl. exists u, ti. split; [done|]. split; [done|]. split; [by etrans|].
    split; [done|]. split; [done|congruence].
  - rewrite (proj2 (Z.ltb_lt _ _)) by (apply versionAt_lt; lia).
    destruct (catchup_state iv Hiv (wal d) es i k (versionAt iv k) u ti Hh) as
      (m & tm & Ec & Htm & Heqm & Hokm & Hinfom); [lia|lia|done|by etrans|done|apply Hd|done| |].
    { right. split; [done|lia]. }
    rewrite Ec. sstate. exists m, tm. split; [done|].
    replace (i `max` (k `min` Z.to_nat (log_last (wal d))))%nat with k in Htm by lia.
    split; [done|]. split; [done|]. split; [done|]. split; [by apply Hinfom|].
    destruct Heqm as (-> & _). apply (stateAt_version iv Hiv es k tm Hh); [lia|done].
Qed.

(** *** Rolling back *)

(** The traversal collects the versions after the target. *)
Lemma newer_fold l target acc :
  StronglySorted (fun a b => b < a) l ->
  visit (fun l version => if version <=? target then (l, true) else (l ++ [version], false)) l acc =
  acc ++ List.filter (fun v => target <? v) l.
Proof.
  intros Hs. revert acc. induction Hs as [|v l Hs IH Hall]; intros acc; cbn [visit List.filter].
  { by rewrite app_nil_r. }
  destruct (Z.leb_spec v target) as [Hv|Hv].
  - rewrite (proj2 (Z.ltb_ge _ _)) by done. replace (List.filter _ l) with (@nil Z); [by rewrite app_nil_r|].
    clear IH Hs. induction Hall as [|w l Hw _ IH]; [done|]. cbn [List.filter].
    by rewrite (proj2 (Z.ltb_ge _ _)) by lia.
  - rewrite (proj2 (Z.ltb_lt _ _)), IH by done. by rewrite <- app_assoc.
Qed.

Lemma newerVersions_spec es d c k :
  hist_ok (C:=C) iv es -> disk_ok es d c ->
  exists l, newerVersions (readDir d) (versionAt iv k) = (l, None) /\ NoDup l /\
    forall v, v ∈ l <-> (exists j, (k < j <= length es)%nat /\ v = versionAt iv j /\ is_Some (dirs d !! snap j)).
Proof.
  intros Hh Hd. destruct (readDir_versions d) as (Hok & Hs & Hin).
  { intros n Hn. by eapply disk_good_names. }
  unfold newerVersions, traverseSnapshots. rewrite traverse_visit by (by apply entries_ok_rev).
  pose proof (filter_sorted_rev (fun _ => true) _ Hs) as Hsr.
  assert (forall l : list Z, List.filter (fun _ => true) l = l) as Hid
    by (induction l; cbn; congruence).
  rewrite Hid in Hsr. rewrite snapshotVersions_rev, newer_fold by done.
  eexists. split; [done|]. cbn [app]. split.
  - pose proof (filter_sorted_rev (fun v => versionAt iv k <? v) _ Hs) as Hf.
    apply NoDup_alt. intros a b x Ha Hb. destruct (Nat.lt_trichotomy a b) as [Hab|[->|Hab]]; [|done|].
    + pose proof (StronglySorted_lookup_lt _ _ _ _ _ _ Hf Ha Hb Hab) as Hx. cbn in Hx. lia.
    + pose proof (StronglySorted_lookup_lt _ _ _ _ _ _ Hf Hb Ha Hab) as Hx. cbn in Hx. lia.
  - intros v. rewrite list_elem_of_In, filter_In, <- in_rev, <- list_elem_of_In, Hin, Z.ltb_lt. split.
    + intros [[Hvr Hvd] Hlt]. destruct (version_state iv es d c v Hh Hd Hvr Hvd) as (j & Hj & ->).
      exists j. split; [|split; [done|by apply elem_of_dom]].
      destruct (decide (j <= k)%nat) as [Hle|]; [|lia]. apply (versionAt_le iv) in Hle. lia.
    + intros (j & Hj & -> & Hs'). pose proof (versionAt_range iv es j Hh ltac:(lia)).
      split; [split; [done|by apply elem_of_dom]|]. apply versionAt_lt. lia.
Qed.

(** Removing snapshots, when no temporary directory is in the way. *)
Lemma removeVersions_spec l d :
  NoDup l -> Forall (fun v => 0 <= v < 2 ^ 31) l ->
  (forall n, is_Some (dirs d !! n) -> isTmpName n = false) ->
  (forall v, v ∈ l -> is_Some (dirs d !! snapshotName v)) ->
  foldl removeVersion d l = setDirs (filter (fun e => e.1 ∉ snapshotName <$> l) (dirs d)) d.
Proof.
  revert d. induction l as [|v l IH]; intros d Hnd Hr Htmp Hl; cbn [foldl].
  { destruct d as [m ? ? ?]. unfold setDirs. cbn. f_equal. symmetry. apply map_filter_id. set_solver. }
  apply NoDup_cons in Hnd as [Hnin Hnd]. apply Forall_cons in Hr as [Hv Hr].
  assert (dirs d !! tmpName (snapshotName v) = None) as Et.
  { apply eq_None_not_Some. intros H1%Htmp. by rewrite isTmpName_tmpName in H1. }
  destruct (Hl v (list_elem_of_here _ _)) as [sd Hsd].
  assert (removeVersion d v = setDirs (delete (snapshotName v) (dirs d)) d) as ->.
  { unfold removeVersion, atomicRemoveDir, renameDir. rewrite Hsd, Et. sbind.
    unfold RemoveAll, setDirs. cbn [dirs current currentTmp wal]. f_equal. apply delete_insert_id.
    apply lookup_delete_None. by right. }
  rewrite IH; [|done|done| |].
  - unfold setDirs. cbn [dirs current currentTmp wal]. f_equal. apply map_eq. intros n. apply option_eq.
    intros x. rewrite !map_lookup_filter_Some, lookup_delete_Some. cbn [fst fmap list_fmap].
    rewrite not_elem_of_cons. naive_solver.
  - intros n [x Hx]. cbn [dirs setDirs] in Hx. apply lookup_delete_Some in Hx as [_ Hx]. by apply Htmp; exists x.
  - intros w Hw. cbn [dirs setDirs]. rewrite lookup_delete_ne; [apply Hl; by right|].
    intros E. apply snapshotName_inj in E; [by subst|lia|]. rewrite Forall_forall in Hr. specialize (Hr w Hw). lia.
Qed.

(** The disk after a rollback: the snapshots and the log up to the target. *)
Lemma disk_rollback es d c i k l m :
  hist_ok (C:=C) iv es -> disk_ok es d c -> (i <= k <= length es)%nat -> is_Some (m !! snap i) ->
  (forall n sd, m !! n = Some sd -> dirs d !! n = Some sd /\
     forall j, (k < j <= length es)%nat -> n <> snap j /\ n <> tmpName (snap j)) ->
  log_last l = Z.of_nat k -> log_first l = log_first (wal d) ->
  log_last (wal d) <> 0 -> Z.of_nat k <= log_last (wal d) ->
  (forall j, j <= Z.of_nat k -> log_entry l j = log_entry (wal d) j) ->
  disk_ok (take k es) (mkDisk m (Some (snap i)) None l) i.
Proof.
  intros Hh Hd Hik Hi Hm Elast Efirst Hne Hkl Hkeep. pose proof (disk_log _ _ _ _ Hd) as [Hlast Hlog].
  split; cbn [dirs current wal].
  - intros n sd Hn. destruct (Hm n sd Hn) as [Hn' Hnew].
    destruct (disk_names _ _ _ _ Hd n sd Hn') as (j & t & Hj & (Hst & Hinfo & tj & Htj & Heq) & Esd & Hname).
    assert (j <= k)%nat as Hjk.
    { destruct (decide (k < j)%nat) as [Hlt|]; [|lia]. destruct (Hnew j) as [H1 H2]; [lia|].
      by destruct Hname as [[-> _]| ->]. }
    exists j, t. rewrite length_take. split; [lia|]. split; [|split; [done|]].
    + split; [done|]. split; [done|]. exists tj. split; [|done]. by apply stateAt_take.
    + destruct Hname as [[En Hf]|En]; [left|by right]. split; [done|].
      destruct Hf as [?|Hf]; [done|]. right. lia.
  - rewrite length_take. split; [done|]. split; [done|lia].
  - split; [rewrite length_take; lia|]. intros j e He Hj. rewrite Elast, Efirst in Hj.
    rewrite lookup_take_lt in He by lia.
    assert (log_entry l (Z.of_nat (S j)) = Some (WALEntry_Marshal e)) as E.
    { rewrite Hkeep by lia. unfold log_entry. rewrite (Hlog j e He); [done|lia]. }
    unfold log_entry in E. destruct (log_read l _); [by injection E as ->|done].
Qed.

Lemma overwrite_spec es d c i k :
  hist_ok (C:=C) iv es -> disk_ok es d c -> currentTmp d = None ->
  (forall n, is_Some (dirs d !! n) -> isTmpName n = false) ->
  (i <= k <= length es)%nat -> (1 <= k)%nat -> is_Some (dirs d !! snap i) ->
  log_first (wal d) <= Z.of_nat k <= log_last (wal d) ->
  exists d', overwrite (snap i) (versionAt iv k) iv d = Some (Ok tt, d') /\
    disk_ok (take k es) d' i /\ log_last (wal d') = Z.of_nat k /\ currentTmp d' = None.
Proof.
  intros Hh Hd Hlk Htmp Hik Hk Hi Hrange. destruct (disk_current _ _ _ _ Hd) as (Ecur & _).
  pose proof (hist_versions iv es Hh) as H31. pose proof (versionAt_le iv k (length es) ltac:(lia)).
  destruct (log_truncate_back_ok (wal d) (Z.of_nat k)) as (l & El & Efirst & Elast & Hkeep); [lia|done|].
  destruct (newerVersions_spec es d c k Hh Hd) as (vs & Evs & Hnd & Hvs).
  set (m := filter (fun e : string * snapshotDir => e.1 ∉ snapshotName <$> vs) (dirs d)).
  exists (mkDisk m (Some (snap i)) None l). split; [|split; [|done]].
  - unfold overwrite. sstate. rewrite Ecur.
    rewrite (SE_bind_ok _ _ _ tt (mkDisk (dirs d) (Some (snap i)) None (wal d))).
    2: { case_bool_decide as E.
         - rewrite E, <- Ecur, <- Hlk. by destruct d.
         - sstate. unfold updateCurrentSymlink, symlinkTmp, renameLink. rewrite Hlk. done. }
    sstate. cbn [wal]. rewrite walIndex_versionAt by (done || lia). rewrite El. sstate.
    change (readDir _) with (readDir d). rewrite Evs. cbn [fst snd].
    rewrite removeVersions_spec; [done|done| |done|].
    + apply Forall_forall. intros v (j & Hj & -> & _)%Hvs. apply (versionAt_range iv es); [done|lia].
    + by intros v (j & Hj & -> & Hs)%Hvs.
  - assert (forall j, (k < j <= length es)%nat -> m !! snap j = None) as Hm.
    { intros j Hj. apply eq_None_not_Some. intros [sd [Hsd Hn]%map_lookup_filter_Some]. apply Hn. cbn [fst].
      apply (list_elem_of_fmap_2 snapshotName). apply Hvs. exists j. split; [done|]. split; [done|by exists sd]. }
    apply (disk_rollback es d c); try done; [| |lia|lia].
    + destruct Hi as [sd Hsd]. exists sd. apply map_lookup_filter_Some. split; [done|]. cbn [fst].
      intros (v & E & (j & Hj & -> & _)%Hvs)%list_elem_of_fmap. apply (snap_inj iv es) in E; [lia|done|lia|lia].
    + intros n sd Hn. pose proof Hn as [Hd' _]%map_lookup_filter_Some. split; [done|].
      intros j Hj. split; [intros ->; by rewrite Hm in Hn|].
      intros ->. specialize (Htmp _ (ex_intro _ sd Hd')). by rewrite isTmpName_tmpName in Htmp.
Qed.

(** Loading for overwriting: the target version is the latest one afterwards. *)
Lemma Load_rollback es d d' c k i0 o :
  hist_ok (C:=C) iv es -> disk_ok es d c -> crash d d' -> currentTmp d = None ->
  ReadOnly o = false -> LoadForOverwriting o = true -> TargetVersion o = versionAt iv k ->
  (i0 <= k <= length es)%nat -> (1 <= k)%nat -> is_Some (dirs d !! snap i0) ->
  log_first (wal d) <= Z.of_nat k <= log_last (wal d) ->
  exists t d2 i, Load o d' = finish o t d2 /\ inv (take k es) (mkSys (loaded o t) d2) i.
Proof.
  intros Hh Hd Hcr Hlk Hro How Htg Hik Hk [sd0 Hi0] Hrange. pose proof (disk_clean es d c Hd) as Hd1.
  set (d1 := removeTmpDirs d) in *.
  assert (is_Some (dirs d1 !! snap i0)) as Hi1.
  { exists sd0. apply map_lookup_filter_Some. split; [done|]. apply isTmpName_snap. }
  destruct (seek_state es d1 c k i0 Hh Hd1 Hik Hi1) as (i & Hi & Hsi & Eseek).
  destruct (load_at es d1 c i k o Hh Hd1 ltac:(lia) Hk Hsi) as (t & tk & Et & Htk & Heq & Hok & Hinfo & Ei);
    [right; cbn; lia|done|].
  destruct (overwrite_spec es d1 c i k Hh Hd1 Hlk) as (d2 & Eo & Hd2 & Elast & Hlk2); [|lia|done|done|done|].
  { by intros n [sd [_ Hn]%map_lookup_filter_Some]. }
  destruct (load_current iv Hiv es d c (ZeroCopy o) (CacheSize o) Hh Hd) as (sd' & _ & _ & _ & Ecur' & _).
  assert (length (take k es) = k) as El by (rewrite length_take; lia).
  exists t, d2, i. split.
  - apply (Load_steps o d' sd' (Some (snap i)) d1).
    + by apply Validate_writable.
    + by rewrite (crash_currentDir es d d' c).
    + rewrite Hro. by apply crash_clean.
    + unfold loadName. pose proof (versionAt_lt iv 0 k ltac:(lia)) as Hpos. change (versionAt iv 0) with 0 in Hpos.
      rewrite Htg, (proj2 (Z.ltb_lt _ _)) by done. sstate. rewrite Eseek. done.
    + done.
    + by rewrite How, Htg, Ei.
  - apply (inv_loaded (take k es) d2 i o t tk); [by apply hist_take|done|by rewrite El|done|done| |done|done|done].
    rewrite El. by apply stateAt_take.
Qed.

(** *** A new database *)

Lemma genesis_storable : storable_state (genesis (C:=C) iv).
Proof.
  split; [constructor|]. split; [split; [unfold int64_ok; cbn; lia|constructor]|].
  split; [unfold int64_ok; cbn; lia|]. unfold MultiTreeMetadata_Marshal. rewrite length_app.
  change (length (match mdCommitInfo _ with Some ci => _ | None => _ end)) with 2%nat.
  unfold putInt. destruct (negb _); [|done]. cbn [length].
  pose proof (encodeVarint_bound (u64 (mdInitialVersion (mkMetadata (Some (infoOf (genesis (C:=C) iv)))
    (initialVersion (genesis (C:=C) iv)))))). lia.
Qed.

(** Creating a database on an empty disk. *)
Lemma Load_create o (l : L) :
  log_last l = 0 -> CreateIfMissing o = true -> ReadOnly o = false -> TargetVersion o = 0 ->
  InitialVersion o = iv -> NoDup (InitialStores o) ->
  exists db' d', Load o (mkDisk ∅ None None l) = Some (Ok db', d') /\ inv [] (mkSys db' d') 0.
Proof.
  intros El Hcr Hro Htg Hio Hnd. set (d0 := mkDisk ∅ None None l : Disk L).
  set (g := genesis (C:=C) iv).
  pose proof (hist_nil iv Hiv genesis_storable) as Hh.
  assert (clone_ok [] 0 g) as Hg.
  { apply (clone_equiv iv Hiv [] 0 g g Hh); [done|done|done|by apply genesis_ok|done]. }
  set (d := mkDisk {[ snap 0 := dirOf g ]} (Some (snap 0)) None l : Disk L).
  assert (createDBIfNotExist (C:=C) iv d0 = Ok d) as Ec.
  { unfold createDBIfNotExist, initEmptyDB. cbn [currentDir current d0 mbind option_bind].
    fold (genesis (C:=C) iv). fold g. rewrite MTWriteSnapshot_dirOf by (done || apply Hg). sbind.
    unfold writeDir. cbn [dirs d0]. rewrite lookup_empty. done. }
  assert (disk_ok [] d 0) as Hd.
  { split.
    - intros n sd Hn. cbn [dirs d] in Hn. apply lookup_singleton_Some in Hn as [<- <-].
      exists 0%nat, g. split; [done|]. split; [done|]. split; [done|]. left. split; [done|by left].
    - split; [done|]. split; [|done]. cbn [dirs d]. rewrite lookup_singleton_eq. by eexists.
    - split; [cbn [wal d]; rewrite El; done|]. by intros i e He. }
  destruct (Load_latest [] d d 0 o Hh Hd) as (t & tm & E & Htm & Heq & Hok & Hinfo); [|done|done|].
  { by split. }
  destruct (finish_inv [] (removeTmpDirs d) 0 o t) as (db' & Ef & Hi); [|done|].
  { change (wal d) with l in Htm. rewrite El in Htm.
    by apply (inv_loaded [] _ 0 o t tm); [|apply disk_clean|..]. }
  exists db', (removeTmpDirs d). split; [|done]. rewrite <- Ef, <- E. unfold Load.
  rewrite Hcr, Hio, Validate_writable by done. sstate.
  assert (createDBIfNotExist (C:=C) iv d = Ok d) as Ed.
  { unfold createDBIfNotExist, currentDir. cbn [current dirs d mbind option_bind].
    by rewrite lookup_singleton_eq. }
  rewrite (SE_bind_ok _ _ _ tt d) by (sstate; by rewrite Ec).
  symmetry. by rewrite (SE_bind_ok _ _ _ tt d) by (sstate; by rewrite Ed).
Qed.
End Load.
