(* ===== verification/DbRun.v ===== *)
(** * Runs of a database

    The methods, the goroutines and restarts after a crash as one transition
    system over the history, the database and the disk; and what holds in every
    state it reaches. *)

From S2P Require Import Prelude KV Binary Sha256 Node Hash Snapshot Persisted Tree Proto Wal.
From S2P Require Import MultiTree MultiSnapshot SnapshotName Db DbDisk DbHistory DbPending DbInv DbStep DbTasks DbLoad.
From stdpp Require Import relations.

Open Scope string_scope.
Open Scope Z_scope.
Open Scope list_scope.

Section Run.
Context {C : Type} `{CacheC : Cache C} {L : Type} `{LogL : WalLog L}.
Implicit Types (t : MultiTree C) (s : Sys C L) (d : Disk L) (es : list WALEntry) (o : Options).

(** One action: a method called the way the state machine does, or one
    operation of a goroutine.  The history records what is committed. *)
Inductive act : list WALEntry * Sys C L -> list WALEntry * Sys C L -> Prop :=
  | act_upgrades es s s' us :
      weChangesets (pendingLog (db s)) = [] -> clash_free us (mtree (db s)) ->
      DBApplyUpgrades us s = Some (Ok tt, s') -> act (es, s) (es, s')
  | act_changes es s s' css :
      Forall (fun cs => csName cs ∈ names (trees (mtree (db s)))) css -> NoDup (csName <$> css) ->
      css_small (weChangesets (pendingLog (db s)) ++ css) ->
      DBApplyChangeSets css s = Some (Ok tt, s') -> act (es, s) (es, s')
  | act_change es s s' n pairs :
      n ∈ names (trees (mtree (db s))) ->
      css_small (weChangesets (pendingLog (db s)) ++ [mkNamedCS n pairs]) ->
      DBApplyChangeSet n pairs s = Some (Ok tt, s') -> act (es, s) (es, s')
  | act_log es s s' v :
      commit_fits s -> commitLog s = Some (Ok v, s') -> act (es, s) (es ++ [pendingLog (db s)], s')
  | act_tasks es s s' :
      pendingLog (db s) = emptyLog -> es <> [] ->
      checkAsyncTasks s = Some (Ok tt, s') -> act (es, s) (es, s')
  | act_rewrite es s s' v :
      pendingLog (db s) = emptyLog -> rewriteIfApplicable v s = Some (Ok tt, s') -> act (es, s) (es, s')
  | act_background es s s' r :
      pendingLog (db s) = emptyLog -> RewriteSnapshotBackground s = Some (r, s') -> act (es, s) (es, s')
  | act_wait es s s' : waitAsyncCommit s = Some (Ok tt, s') -> act (es, s) (es, s')
  | act_writer es s q n :
      walChan (db s) = Some q -> (n <= length q)%nat -> act (es, s) (es, writeBatch n q s)
  | act_rewriter es s s' ctxDone : rewriterStep ctxDone s = Some s' -> act (es, s) (es, s')
  | act_pruner es s s' : prunerStep s = Some s' -> act (es, s) (es, s').

(** Starting again on the disk a crash leaves, when no link is in the middle of
    being replaced: with a complete log at its end, or rolled back to a version
    that a snapshot and the log hold. *)
Inductive restart (iv : Z) : list WALEntry * Sys C L -> list WALEntry * Sys C L -> Prop :=
  | restart_load es s d d' o db' :
      crash (disk s) d -> walQueue (db s) = [] -> currentTmp (disk s) = None ->
      ReadOnly o = false -> TargetVersion o = 0 -> NoDup (InitialStores o) ->
      Load o d = Some (Ok db', d') -> restart iv (es, s) (es, mkSys db' d')
  | restart_rollback es s d d' o db' i k :
      crash (disk s) d -> currentTmp (disk s) = None ->
      ReadOnly o = false -> LoadForOverwriting o = true -> NoDup (InitialStores o) ->
      TargetVersion o = versionAt iv k -> (i <= k <= length es)%nat -> (1 <= k)%nat ->
      is_Some (dirs (disk s) !! snap iv i) ->
      log_first (wal (disk s)) <= Z.of_nat k <= log_last (wal (disk s)) ->
      Load o d = Some (Ok db', d') -> restart iv (es, s) (take k es, mkSys db' d').

(** A database created with an initial version, and everything after. *)
Inductive reachable (iv : Z) : list WALEntry * Sys C L -> Prop :=
  | reachable_create o l db' d' :
      log_last l = 0 -> CreateIfMissing o = true -> ReadOnly o = false -> TargetVersion o = 0 ->
      InitialVersion o = iv -> NoDup (InitialStores o) ->
      Load o (mkDisk ∅ None None l) = Some (Ok db', d') -> reachable iv ([], mkSys db' d')
  | reachable_act x y : reachable iv x -> act x y -> reachable iv y
  | reachable_restart x y : reachable iv x -> restart iv x y -> reachable iv y.
End Run.

Section RunInv.
Context {C : Type} `{LawsC : CacheLaws C} {L : Type} `{LawsL : WalLaws L}.
Context (iv : Z) (Hiv : 0 <= iv < 2 ^ 32).
Implicit Types (t : MultiTree C) (s : Sys C L) (d : Disk L) (es : list WALEntry) (o : Options).

Local Notation inv := (inv (C:=C) (L:=L) iv).

Lemma inv_synced es s c : inv es s c -> walQueue (db s) = [] -> log_last (wal (disk s)) = zlen es.
Proof.
  intros Hi Hq. pose proof (inv_queue _ _ _ _ Hi) as E. rewrite Hq in E.
  pose proof (proj1 (disk_log _ _ _ _ (inv_disk _ _ _ _ Hi))). pose proof (log_last_pos (wal (disk s))).
  apply (f_equal length) in E. rewrite length_entriesFrom, length_drop in E. cbn in E. lia.
Qed.

Lemma inv_wait es s c :
  inv es s c -> exists s', waitAsyncCommit s = Some (Ok tt, s') /\ inv es s' c.
Proof.
  intros Hi. unfold waitAsyncCommit. sstate. destruct (walChan (db s)) as [q|] eqn:Eq; [|by exists s].
  destruct (inv_drainWal iv es s c Hi) as (Hi' & Elast & _). sstate.
  destruct (inv_mode _ _ _ _ Hi') as (? & ? & ? & Hw). rewrite Hw. eexists. split; [reflexivity|].
  destruct Hi' as [Hh Hd Hl Hinf Hmode Hqu Hsy Hr Hlk Hp].
  split; cbn [db disk withDb setQuit setChan mtree pendingLog readOnly walOpen snapshotInterval walQuit
    rewriting pruning]; try done.
  rewrite Elast, Nat2Z.id, drop_all. done.
Qed.

(** Two results of the same call. *)
Ltac same_result :=
  match goal with
  | H1 : ?x = Some _, H2 : ?x = Some _ |- _ => rewrite H1 in H2; injection H2; intros; subst; clear H2
  end.

Lemma act_inv es s es' s' c : act (es, s) (es', s') -> inv es s c -> exists c', inv es' s' c'.
Proof.
  intros Ha Hi. inversion Ha; subst; clear Ha.
  - destruct (inv_applyUpgrades iv Hiv es' s c us) as (s1 & E & Hi' & _); [done..|]. same_result. by exists c.
  - destruct (inv_applyChangeSets iv Hiv es' s c css) as (s1 & E & Hi' & _); [done..|]. same_result. by exists c.
  - destruct (inv_applyChangeSet iv Hiv es' s c n pairs) as (s1 & E & Hi' & _); [done..|].
    assert (DBApplyChangeSet n pairs s = applyChangeSet n pairs s) as Ea by (by destruct pairs).
    rewrite Ea in *. same_result. by exists c.
  - destruct (inv_commitLog iv Hiv es s c) as (s1 & E & Hi' & _); [done..|]. same_result. by exists c.
  - pose proof (inv_checkAsyncTasks iv Hiv es' s c Hi) as Ht. destruct (waiting s).
    + rewrite Ht in *; done.
    + destruct Ht as (s1 & E & Hi' & _); [done..|]. same_result. by exists c.
  - destruct (inv_rewriteIfApplicable iv Hiv es' s c v) as (s1 & E & Hi' & _); [done..|]. same_result. by exists c.
  - destruct (inv_rewriteBackground iv Hiv es' s c) as (r1 & s1 & E & Hi' & _); [done..|].
    destruct (inv_mode _ _ _ _ Hi) as (Hro & _). unfold RewriteSnapshotBackground, guardReadOnly in *.
    rewrite (SE_bind_ok _ _ _ tt s) in * by (sstate; by rewrite Hro). same_result. by exists c.
  - destruct (inv_wait es' s c) as (s1 & E & Hi'); [done|]. same_result. by exists c.
  - exists c. by apply inv_writeBatch.
  - destruct (rewriting (db s)) as [r|] eqn:Er; [|unfold rewriterStep in *; by rewrite Er in *].
    destruct r as [t|t|t|t|t|m err]; [..|unfold rewriterStep in *; by rewrite Er in *];
      (destruct (inv_rewriterStep iv Hiv es' s c _ ctxDone Hi Er I) as (s1 & c' & E & Hi' & _);
       same_result; by exists c').
  - destruct (pruning (db s)) as [p|] eqn:Ep; [|unfold prunerStep in *; by rewrite Ep in *].
    destruct (inv_prunerStep iv Hiv es' s c p Hi Ep) as (s1 & E & Hi'). same_result. by exists c.
Qed.

(** Restarting with a complete log. *)
Lemma inv_restart es s c d o :
  inv es s c -> crash (disk s) d -> walQueue (db s) = [] -> currentTmp (disk s) = None ->
  ReadOnly o = false -> TargetVersion o = 0 -> NoDup (InitialStores o) ->
  exists db' d', Load o d = Some (Ok db', d') /\ inv es (mkSys db' d') c.
Proof.
  intros Hi Hcr Hq Hlk Hro Htg Hnd. pose proof (inv_hist _ _ _ _ Hi) as Hh.
  pose proof (inv_disk _ _ _ _ Hi) as Hd. pose proof (inv_synced es s c Hi Hq) as El.
  destruct (Load_latest iv Hiv es (disk s) d c o Hh Hd Hcr Hro Htg) as (t & tm & E & Htm & Heq & Hok & Hinfo).
  destruct (disk_current _ _ _ _ Hd) as (_ & _ & Hc). rewrite El, Nat2Z.id, Nat.max_r in Htm by lia.
  destruct (finish_inv iv Hiv es (removeTmpDirs (disk s)) c o t) as (db' & Ef & Hi'); [|done|].
  - by apply (inv_loaded iv Hiv es _ c o t tm); [|apply disk_clean|..].
  - exists db', (removeTmpDirs (disk s)). by rewrite E.
Qed.

(** Rolling back. *)
Lemma inv_rollback es s c d o i k :
  inv es s c -> crash (disk s) d -> currentTmp (disk s) = None ->
  ReadOnly o = false -> LoadForOverwriting o = true -> NoDup (InitialStores o) ->
  TargetVersion o = versionAt iv k -> (i <= k <= length es)%nat -> (1 <= k)%nat ->
  is_Some (dirs (disk s) !! snap iv i) ->
  log_first (wal (disk s)) <= Z.of_nat k <= log_last (wal (disk s)) ->
  exists t d' c', Load o d = Some (Ok (loaded o t), d') /\ inv (take k es) (mkSys (loaded o t) d') c'.
Proof.
  intros Hi Hcr Hlk Hro How Hnd Htg Hik Hk Hs Hrange. pose proof (inv_hist _ _ _ _ Hi) as Hh.
  destruct (Load_rollback iv Hiv es (disk s) d c k i o Hh (inv_disk _ _ _ _ Hi) Hcr Hlk Hro How Htg Hik Hk Hs
    Hrange) as (t & d2 & c' & E & Hi').
  exists t, d2, c'. split; [|done]. rewrite E. unfold finish.
  destruct (inv_version iv Hiv (take k es) _ c' Hi') as [Ev _]. cbn [db mtree loaded] in Ev.
  rewrite Ev, length_take, Nat.min_l by lia. pose proof (versionAt_lt iv 0 k ltac:(lia)) as Hpos.
  change (versionAt iv 0) with 0 in Hpos. rewrite (proj2 (Z.eqb_neq _ _)) by lia.
  by rewrite andb_false_r.
Qed.

Lemma reachable_inv es s : reachable iv (es, s) -> exists c, inv es s c.
Proof.
  intros Hr. remember (es, s) as x eqn:Ex. revert es s Ex.
  induction Hr as [o l db' d' Hl Hcr Hro Htg Hio Hnd E|[es0 s0] y Hr IH Ha|[es0 s0] y Hr IH Ha];
    intros es s Ex.
  - injection Ex as <- <-. destruct (Load_create iv Hiv o l) as (db1 & d1 & E1 & Hi); [done..|].
    rewrite E in E1. injection E1 as <- <-. by exists 0%nat.
  - subst y. destruct (IH es0 s0 eq_refl) as (c & Hi). by eapply act_inv.
  - subst y. destruct (IH es0 s0 eq_refl) as (c & Hi). inversion Ha; subst.
    + destruct (inv_restart es s0 c d o) as (db1 & d1 & E1 & Hi1); [done..|]. same_result. by exists c.
    + destruct (inv_rollback es0 s0 c d o i k) as (t1 & d1 & c1 & E1 & Hi1); [done..|]. same_result. by exists c1.
Qed.
End RunInv.
