(* ===== verification/DbProps.v ===== *)
(** * What a database promises

    The properties of every state the transition system of [DbRun] reaches:
    commits, recovery after a crash, loading an old version and rolling back. *)

From S2P Require Import Prelude KV Binary Sha256 Node Hash Snapshot Persisted Tree Proto Wal.
From S2P Require Import MultiTree MultiSnapshot SnapshotName Db DbDisk DbHistory DbPending DbInv DbStep DbTasks DbLoad DbRun.
From stdpp Require Import relations.

Open Scope string_scope.
Open Scope Z_scope.
Open Scope list_scope.

Section Props.
Context {C : Type} `{LawsC : CacheLaws C} {L : Type} `{LawsL : WalLaws L}.
Context (iv : Z) (Hiv : 0 <= iv < 2 ^ 32).
Implicit Types (t : MultiTree C) (s : Sys C L) (d : Disk L) (es : list WALEntry) (o : Options).

Lemma live_empty tN t : live emptyLog tN t -> t ≡ tN.
Proof. intros Hl. destruct (live_state _ _ _ Hl) as (t' & E & Heq). by injection E as <-. Qed.

(** The trees in memory between commits are the last state of the history. *)
Lemma inv_committed_state es s c :
  inv iv es s c -> pendingLog (db s) = emptyLog ->
  exists tN, stateAt iv es (length es) tN /\ mtree (db s) ≡ tN.
Proof.
  intros Hi Hp. destruct (inv_live _ _ _ _ Hi) as (tN & HtN & Hl). rewrite Hp in Hl.
  exists tN. split; [done|]. by apply live_empty.
Qed.

(** A commit is three actions. *)
Lemma reachable_Commit es s v s' c :
  reachable iv (es, s) -> inv iv es s c -> commit_fits s -> Commit s = Some (Ok v, s') ->
  reachable iv (es ++ [pendingLog (db s)], s').
Proof.
  intros Hr Hi Hf E. unfold Commit in E.
  destruct (inv_commitLog iv Hiv es s c Hi Hf) as (s1 & E1 & Hi1 & Hp1 & _).
  rewrite (SE_bind_ok _ _ _ _ _ E1) in E.
  pose proof (inv_checkAsyncTasks iv Hiv _ s1 c Hi1 Hp1 ltac:(by destruct es)) as Ht.
  destruct (waiting s1); [unfold mbind, SE_bind in E; by rewrite Ht in E|].
  destruct Ht as (s2 & E2 & Hi2 & Hp2 & _). rewrite (SE_bind_ok _ _ _ _ _ E2) in E.
  destruct (inv_rewriteIfApplicable iv Hiv _ s2 c (versionAt iv (length (es ++ [pendingLog (db s)]))) Hi2 Hp2)
    as (s3 & E3 & _). rewrite (SE_bind_ok _ _ _ _ _ E3) in E. injection E as <- <-.
  eapply reachable_act; [eapply reachable_act; [eapply reachable_act; [exact Hr|]|]|].
  - by eapply act_log.
  - apply act_tasks; [done|by destruct es|exact E2].
  - by eapply act_rewrite.
Qed.

(** C3: committing succeeds in every reachable state whose sizes are in range,
    unless a finished snapshot still waits for the pruner: the version returned
    is the next one, the trees are the replay of the history with the pending
    entry, which the commit has cleared; the state reached is again one of the
    system; and a synchronous commit has written the entry to the log. *)
Theorem commit_correct es s :
  reachable iv (es, s) -> commit_fits s -> waiting s = false ->
  let e := pendingLog (db s) in
  exists s' tN, Commit s = Some (Ok (versionAt iv (S (length es))), s') /\
    reachable iv (es ++ [e], s') /\ pendingLog (db s') = emptyLog /\
    stateAt iv (es ++ [e]) (S (length es)) tN /\ mtree (db s') ≡ tN /\
    MTVersion (mtree (db s')) = versionAt iv (S (length es)) /\
    (walChanSize (db s) < 0 ->
      log_last (wal (disk s')) = zlen es + 1 /\
      log_read (wal (disk s')) (zlen es + 1) = Ok (WALEntry_Marshal e)).
Proof.
  intros Hr Hf Hw e. destruct (reachable_inv iv Hiv es s Hr) as (c & Hi).
  destruct (inv_Commit iv Hiv es s c Hi Hf Hw) as (s' & E & Hi' & Hp & Hsz).
  fold e in E, Hi'. assert (length (es ++ [e]) = S (length es)) as El by (rewrite length_app; cbn; lia).
  rewrite El in E. destruct (inv_committed_state _ s' c Hi' Hp) as (tN & HtN & Heq). rewrite El in HtN.
  destruct (inv_version iv Hiv _ s' c Hi') as [Ev _]. rewrite El in Ev.
  exists s', tN. split_and!; try done; [by eapply reachable_Commit|].
  intros Hneg. rewrite <- Hsz in Hneg.
  pose proof (inv_synced iv _ s' c Hi' (inv_sync _ _ _ _ Hi' Hneg)) as Elast. rewrite El in Elast.
  pose proof (disk_log _ _ _ _ (inv_disk _ _ _ _ Hi')) as [_ Hread]. split; [lia|].
  replace (zlen es + 1) with (Z.of_nat (S (length es))) by lia. apply Hread; [by apply list_lookup_middle|].
  pose proof (log_nonempty (wal (disk s'))). lia.
Qed.

(** The end of [Load] at a state of the history: the initial stores are added to
    an empty database only. *)
Lemma finish_state es m o t tm d :
  hist_ok (C:=C) iv es -> (m <= length es)%nat -> stateAt iv es m tm -> t ≡ tm -> mt_ok t ->
  ReadOnly o = false -> NoDup (InitialStores o) ->
  exists db', finish o t d = Some (Ok db', d) /\ MTVersion (mtree db') = versionAt iv m /\
    (m <> O \/ InitialStores o = [] -> mtree db' ≡ tm).
Proof.
  intros Hh Hm Htm Heq Hok Hro Hnd. destruct (stateAt_version iv Hiv es m tm Hh Hm Htm) as (Ev & _ & Hok' & Hst).
  assert (MTVersion t = versionAt iv m) as Evt by (rewrite <- Ev; apply Heq).
  unfold finish. rewrite Hro. cbn [negb andb].
  destruct (_ && _) eqn:Eb; [|by exists (loaded o t)].
  apply andb_prop in Eb as [E0%Z.eqb_eq Hne%negb_true_iff%bool_decide_eq_false].
  assert (m = O) as -> by (apply (versionAt_inj iv); rewrite <- Evt, E0; done).
  injection Htm as <-. destruct (live_upgrades emptyLog _ t (initialUpgrades o) Hok' Hst) as (t' & Et & _ & Ev' & _).
  - by apply (treeVersion_lt iv Hiv []); [apply hist_nil, (genesis_storable iv Hiv)|].
  - by apply live_init.
  - done.
  - unfold clash_free. rewrite (same_names _ (trees (genesis iv))) by apply Heq.
    apply (upgradeNames_fresh iv Hiv); [done|]. set_solver.
  - unfold DBApplyUpgrades, guardReadOnly. rewrite (SE_bind_ok _ _ _ tt (mkSys (loaded o t) d)) by (sstate; cbn [readOnly db loaded]; by rewrite Hro).
    rewrite (SE_bind_ok _ _ _ tt (mkSys (setTree t' (loaded o t)) d)) by (unfold onTree; cbn [db mtree loaded]; by rewrite Et).
    eexists. split; [reflexivity|]. cbn. split; [by rewrite Ev'|]. naive_solver.
Qed.

(** C1: after a crash of the process at any moment, opening the database again succeeds and
    recovers a state of the history that is at least as new as everything in the
    log, so that no synchronously committed version is lost: with nothing left
    in the queue of the log writer it is the last one.  Half-written and
    half-removed directories are gone. *)
Theorem crash_recovery es s d o :
  reachable iv (es, s) -> crash (disk s) d ->
  ReadOnly o = false -> TargetVersion o = 0 -> NoDup (InitialStores o) ->
  exists db' d' (m : nat) tm, Load o d = Some (Ok db', d') /\
    log_last (wal (disk s)) <= Z.of_nat m <= zlen es /\ stateAt iv es m tm /\
    MTVersion (mtree db') = versionAt iv m /\
    (m <> O \/ InitialStores o = [] -> mtree db' ≡ tm) /\
    (walQueue (db s) = [] -> m = length es) /\
    (forall n, is_Some (dirs d' !! n) -> isTmpName n = false).
Proof.
  intros Hr Hcr Hro Htg Hnd. destruct (reachable_inv iv Hiv es s Hr) as (c & Hi).
  pose proof (inv_hist _ _ _ _ Hi) as Hh. pose proof (inv_disk _ _ _ _ Hi) as Hd.
  destruct (Load_latest iv Hiv es (disk s) d c o Hh Hd Hcr Hro Htg) as (t & tm & E & Htm & Heq & Hok & _).
  destruct (disk_current _ _ _ _ Hd) as (_ & _ & Hc). pose proof (proj1 (disk_log _ _ _ _ Hd)) as Hlog.
  pose proof (log_last_pos (wal (disk s))) as Hpos.
  set (m := (c `max` Z.to_nat (log_last (wal (disk s))))%nat) in *. assert (m <= length es)%nat as Hm by lia.
  destruct (finish_state es m o t tm (removeTmpDirs (disk s)) Hh Hm Htm Heq Hok Hro Hnd)
    as (db' & Ef & Ev & Hst).
  exists db', (removeTmpDirs (disk s)), m, tm.
  split_and!; [by rewrite E|lia|lia|done|done|done| |].
  - intros Hq. pose proof (inv_synced iv es s c Hi Hq). lia.
  - by intros n [sd [_ Hn]%map_lookup_filter_Some].
Qed.

(** C9: rolling back to version [k], which a snapshot and the log hold, loads
    that version, drops everything after it from the log, and leaves a database
    whose history is the first [k] entries. *)
Theorem rollback_correct es s d o i k :
  reachable iv (es, s) -> crash (disk s) d -> currentTmp (disk s) = None ->
  ReadOnly o = false -> LoadForOverwriting o = true -> NoDup (InitialStores o) ->
  TargetVersion o = versionAt iv k -> (i <= k <= length es)%nat -> (1 <= k)%nat ->
  is_Some (dirs (disk s) !! snap iv i) ->
  log_first (wal (disk s)) <= Z.of_nat k <= log_last (wal (disk s)) ->
  exists db' d' tk, Load o d = Some (Ok db', d') /\ reachable iv (take k es, mkSys db' d') /\
    stateAt iv es k tk /\ mtree db' ≡ tk /\ log_last (wal d') = Z.of_nat k.
Proof.
  intros Hr Hcr Hlk Hro How Hnd Htg Hik Hk Hs Hrange. destruct (reachable_inv iv Hiv es s Hr) as (c & Hi).
  destruct (inv_rollback iv Hiv es s c d o i k) as (t & d' & c' & E & Hi'); [done..|].
  destruct (inv_committed_state _ _ _ Hi' eq_refl) as (tk & Htk & Heq).
  assert (length (take k es) = k) as El by (rewrite length_take; lia). rewrite El in Htk.
  exists (loaded o t), d', tk. split_and!; [done| |by eapply stateAt_take|done|].
  - eapply reachable_restart; [exact Hr|]. by eapply restart_rollback.
  - pose proof (inv_synced iv _ _ c' Hi' eq_refl) as Elast. rewrite El in Elast. exact Elast.
Qed.

Lemma load_version es s c o i k :
  inv iv es s c -> LoadForOverwriting o = false -> CreateIfMissing o && ReadOnly o = false ->
  TargetVersion o = versionAt iv k -> (i <= k)%nat -> (1 <= k)%nat ->
  is_Some (dirs (disk s) !! snap iv i) -> Z.of_nat k <= log_last (wal (disk s)) ->
  exists t d' tk, Load o (disk s) = Some (Ok (loaded o t), d') /\ stateAt iv es k tk /\ t ≡ tk /\
    mt_ok t /\ lastCommitInfo t = infoOf t /\ MTVersion t = versionAt iv k /\ (ReadOnly o = true -> d' = disk s).
Proof.
  intros Hi How Hval Htg Hik Hk [sd0 Hs] Hlast.
  pose proof (inv_hist _ _ _ _ Hi) as Hh. pose proof (inv_disk _ _ _ _ Hi) as Hd.
  pose proof (proj1 (disk_log _ _ _ _ Hd)) as Hlog.
  set (d1 := if ReadOnly o then disk s else removeTmpDirs (disk s)).
  assert (disk_ok (C:=C) iv es d1 c) as Hd1 by (unfold d1; destruct (ReadOnly o); [done|by apply disk_clean]).
  assert (wal d1 = wal (disk s)) as Ew by (unfold d1; by destruct (ReadOnly o)).
  assert (is_Some (dirs d1 !! snap iv i)) as Hs1.
  { exists sd0. unfold d1. destruct (ReadOnly o); [done|]. apply map_lookup_filter_Some.
    split; [done|apply isTmpName_snap]. }
  destruct (seek_state iv es d1 c k i Hh Hd1 ltac:(lia) Hs1) as (j & Hj & Hsj & Eseek).
  destruct (load_at iv Hiv es d1 c j k o Hh Hd1 ltac:(lia) Hk Hsj) as (t & tk & Et & Htk & Heq & Hok & Hinfo & _);
    [right; rewrite Ew; lia|done|].
  destruct (load_current iv Hiv es (disk s) c false 0 Hh Hd) as (sd & _ & _ & _ & Ecur & _).
  destruct (stateAt_version iv Hiv es k tk Hh ltac:(lia) Htk) as (Ev & _).
  pose proof (versionAt_lt iv 0 k ltac:(lia)) as Hpos. change (versionAt iv 0) with 0 in Hpos.
  assert (MTVersion t = versionAt iv k) as Evt by (rewrite <- Ev; apply Heq).
  exists t, d1, tk. split_and!; try done; [|unfold d1; by intros ->].
  rewrite (Load_steps o (disk s) sd (Some (snap iv j)) d1 t d1); try done.
  - unfold finish. rewrite Evt, (proj2 (Z.eqb_neq _ _)) by lia. by rewrite andb_false_r.
  - unfold Validate. rewrite How. destruct (ReadOnly o), (CreateIfMissing o); done.
  - unfold loadName. rewrite Htg, (proj2 (Z.ltb_lt _ _)) by done. sstate. by rewrite Eseek.
  - by rewrite How.
Qed.

(** C18: loading an old version that a snapshot and the log hold, from the disk
    of a running or stopped database, gives exactly the state of that version;
    read-only loading leaves the disk as it is. *)
Theorem load_target es s o i k :
  reachable iv (es, s) -> LoadForOverwriting o = false -> CreateIfMissing o && ReadOnly o = false ->
  TargetVersion o = versionAt iv k -> (i <= k)%nat -> (1 <= k)%nat ->
  is_Some (dirs (disk s) !! snap iv i) -> Z.of_nat k <= log_last (wal (disk s)) ->
  exists db' d' tk, Load o (disk s) = Some (Ok db', d') /\ stateAt iv es k tk /\ mtree db' ≡ tk /\
    MTVersion (mtree db') = versionAt iv k /\ (ReadOnly o = true -> d' = disk s).
Proof.
  intros Hr How Hval Htg Hik Hk Hs Hlast. destruct (reachable_inv iv Hiv es s Hr) as (c & Hi).
  destruct (load_version es s c o i k) as (t & d' & tk & E & Htk & Heq & _ & _ & Ev & Hd); [done..|].
  by exists (loaded o t), d', tk.
Qed.

(** Steps of one goroutine. *)
Definition rewriterSteps (ctxDone : Z -> bool) : nat -> Sys C L -> option (Sys C L) :=
  fix go n s := match n with O => Some s | S n => s ← rewriterStep ctxDone s; go n s end.

Definition prunerSteps : nat -> Sys C L -> option (Sys C L) :=
  fix go n s := match n with O => Some s | S n => s ← prunerStep s; go n s end.

(** The stale link is there. *)
Definition hasLink (x : string) (d : Disk L) : Prop := currentTmp d = Some x.

(** A replacement of the link fails. *)
Lemma hasLink_update x (f : Disk L -> result (Disk L)) :
  (forall d d', f d = Ok d' -> currentTmp d' = currentTmp d \/ currentTmp d = None) ->
  preserves (hasLink x) (d ← gets f; d ← orErr d; modify (fun _ => d)).
Proof.
  intros Hf d r d' E Hx. unfold hasLink in *. unfold mbind, SE_bind, gets, orErr, modify in E. specialize (Hf d).
  destruct (f d) as [d1|e]; simplify_eq/=; [|done]. destruct (Hf _ eq_refl); congruence.
Qed.

Lemma updateCurrentSymlink_fresh n d d' : updateCurrentSymlink n d = Ok d' -> currentTmp d = None.
Proof. unfold updateCurrentSymlink, symlinkTmp. by destruct (currentTmp d). Qed.

Lemma removeVersion_link l d : currentTmp (foldl removeVersion d l) = currentTmp d.
Proof.
  revert d. induction l as [|v l IH]; intros d; [done|]. cbn [foldl]. rewrite IH.
  unfold removeVersion, atomicRemoveDir, renameDir. by repeat case_match; simplify_eq/=.
Qed.

Lemma removeVersion_link' x l d : hasLink x d -> hasLink x (foldl removeVersion d l).
Proof. unfold hasLink. by rewrite removeVersion_link. Qed.
End Props.

Section Link.
Context {C : Type} `{LawsC : CacheLaws C} {L : Type} `{LawsL : WalLaws L}.
Implicit Types (d : Disk L) (o : Options).

Lemma overwrite_link x n v iv : preserves (hasLink x) (overwrite (L:=L) n v iv).
Proof.
  unfold overwrite. apply preserves_bind; [auto with preserves|]. intros [cur|]; [|auto with preserves].
  apply preserves_bind.
  { destruct (bool_decide _); [auto with preserves|]. apply hasLink_update.
    intros d d' E. right. by eapply updateCurrentSymlink_fresh. }
  intros _. repeat (apply preserves_bind; [auto using removeVersion_link' with preserves|intros ?]).
  case_match; auto with preserves.
Qed.

Lemma Load_link x o : preserves (hasLink x) (Load (C:=C) (L:=L) o).
Proof.
  unfold Load, loadName, loadTree. apply preserves_bind; [auto with preserves|]. intros _.
  apply preserves_bind.
  { destruct (CreateIfMissing o); [|auto with preserves]. apply hasLink_update. intros d d' E.
    unfold createDBIfNotExist, initEmptyDB in E. destruct (currentDir d); [left; by injection E as <-|right].
    destruct (MTWriteSnapshotWithContext _ _); [|done]. by apply updateCurrentSymlink_fresh in E. }
  intros _. apply preserves_bind; [destruct (ReadOnly o); auto with preserves|]. intros _.
  apply preserves_bind; [destruct (0 <? _); auto 10 with preserves|]. intros n.
  apply preserves_bind.
  { repeat (apply preserves_bind; [auto with preserves|intros ?]). destruct (_ || _); auto 10 with preserves. }
  intros t. apply preserves_bind.
  { destruct n; [|auto with preserves]. destruct (LoadForOverwriting o); auto using overwrite_link with preserves. }
  intros _. cbn zeta. destruct (_ && _); auto 10 with preserves.
Qed.

(** the link that a crash between the two calls of [updateCurrentSymlink]
    leaves is never removed: opening the database again keeps it, whatever the
    options, and as long as it is there the rewriter of any snapshot gives up
    before the switch, leaving [current] where it is. *)
Theorem stale_link_blocks d o (db' : DB C) d' snapshot t ctxDone :
  currentTmp d = Some snapshot -> Load o d = Some (Ok db', d') ->
  currentTmp d' = Some snapshot /\
  rewriterStep ctxDone (mkSys (setRewriting (Some (RSymlink t)) db') d') =
    Some (mkSys (setRewriting (Some (RResult None None)) db') d').
Proof.
  intros Hx E. pose proof (Load_link snapshot o d _ d' E Hx) as Hx'. split; [done|].
  unfold rewriterStep. cbn [db rewriting setRewriting disk]. unfold symlinkTmp. by rewrite Hx'.
Qed.
End Link.

(** ** A database without stores *)

Definition exOptions (create overwriting : bool) (target : Z) : Options :=
  mkOptions create 1 false [] 1 1 target (-1) false 0 overwriting.

Definition exEmpty : Sys slot memlog :=
  match Load (exOptions true false 0) (mkDisk ∅ None None (mkLog 0 [])) with
  | Some (Ok db', d') => mkSys db' d'
  | _ => mkSys (loaded (exOptions true false 0) (genesis 1)) (mkDisk ∅ None None (mkLog 0 []))
  end.

(** After one commit: the rewriter has started. *)
Definition exOne : Sys slot memlog :=
  match Commit exEmpty with Some (_, s) => s | None => exEmpty end.

Lemma exEmpty_reachable : reachable 1 ([], exEmpty).
Proof.
  eapply (reachable_create 1 (exOptions true false 0) (mkLog 0 [])); try reflexivity.
  constructor.
Qed.

Lemma exEmpty_fits : commit_fits exEmpty.
Proof.
  split; [vm_compute; reflexivity|]. split; [vm_compute; reflexivity|].
  split; [by apply Forall_nil|]. split; [split; [vm_compute; split; congruence|by apply Forall_nil]|].
  split; [vm_compute; split; congruence|vm_compute; reflexivity].
Qed.

Lemma exOne_reachable : reachable 1 ([emptyLog], exOne).
Proof.
  destruct (reachable_inv 1 ltac:(lia) [] exEmpty exEmpty_reachable) as (c & Hi).
  apply (reachable_Commit 1 ltac:(lia) [] exEmpty 1 exOne c exEmpty_reachable Hi exEmpty_fits).
  vm_compute. reflexivity.
Qed.

Lemma commit_correct_witness :
  exists s' tN, Commit exEmpty = Some (Ok (versionAt 1 1), s') /\
    reachable 1 ([emptyLog], s') /\ pendingLog (db s') = emptyLog /\
    stateAt 1 [emptyLog] 1 tN /\ mtree (db s') ≡ tN /\ MTVersion (mtree (db s')) = versionAt 1 1 /\
    (walChanSize (db exEmpty) < 0 ->
      log_last (wal (disk s')) = 1 /\ log_read (wal (disk s')) 1 = Ok (WALEntry_Marshal emptyLog)).
Proof.
  exact (commit_correct 1 ltac:(lia) [] exEmpty exEmpty_reachable exEmpty_fits eq_refl).
Defined.

Lemma crash_recovery_witness :
  exists db' d' (m : nat) tm, Load (exOptions false false 0) (disk exOne) = Some (Ok db', d') /\
    log_last (wal (disk exOne)) <= Z.of_nat m <= 1 /\ stateAt (C:=slot) 1 [emptyLog] m tm /\
    MTVersion (mtree db') = versionAt 1 m /\ (m <> O \/ @nil string = [] -> mtree db' ≡ tm) /\
    (walQueue (db exOne) = [] -> m = 1%nat) /\
    (forall n, is_Some (dirs d' !! n) -> isTmpName n = false).
Proof.
  apply (crash_recovery 1 ltac:(lia) [emptyLog] exOne (disk exOne) (exOptions false false 0)).
  - exact exOne_reachable.
  - split_and!; reflexivity.
  - reflexivity.
  - reflexivity.
  - constructor.
Defined.

Lemma rollback_correct_witness :
  exists db' d' tk, Load (exOptions false true 1) (disk exOne) = Some (Ok db', d') /\
    reachable 1 ([emptyLog], mkSys db' d') /\ stateAt (C:=slot) 1 [emptyLog] 1 tk /\ mtree db' ≡ tk /\
    log_last (wal d') = 1.
Proof.
  apply (rollback_correct 1 ltac:(lia) [emptyLog] exOne (disk exOne) (exOptions false true 1) 0 1).
  - exact exOne_reachable.
  - split_and!; reflexivity.
  - vm_compute. reflexivity.
  - reflexivity.
  - reflexivity.
  - constructor.
  - reflexivity.
  - cbn. lia.
  - lia.
  - vm_compute. eexists. reflexivity.
  - vm_compute. split; congruence.
Defined.

Lemma load_target_witness :
  exists db' d' tk, Load (exOptions false false 1) (disk exOne) = Some (Ok db', d') /\
    stateAt (C:=slot) 1 [emptyLog] 1 tk /\ mtree db' ≡ tk /\ MTVersion (mtree db') = versionAt 1 1 /\
    (false = true -> d' = disk exOne).
Proof.
  apply (load_target 1 ltac:(lia) [emptyLog] exOne (exOptions false false 1) 0 1).
  - exact exOne_reachable.
  - reflexivity.
  - reflexivity.
  - reflexivity.
  - lia.
  - lia.
  - vm_compute. eexists. reflexivity.
  - vm_compute. congruence.
Defined.

(** The disk of a crash between the two calls, with the rewriter of the first
    snapshot. *)
Definition exStale : Disk memlog :=
  match rewriterSteps (fun _ => false) 3 exOne with Some s => disk s | None => disk exOne end.

Definition exReloaded : Sys slot memlog :=
  match Load (exOptions false false 0) exStale with Some (Ok db', d') => mkSys db' d' | _ => exOne end.

Lemma stale_link_blocks_witness :
  currentTmp (disk exReloaded) = Some (snapshotName 1) /\
  rewriterStep (fun _ => false) (mkSys (setRewriting (Some (RSymlink (genesis 1))) (db exReloaded)) (disk exReloaded)) =
    Some (mkSys (setRewriting (Some (RResult None None)) (db exReloaded)) (disk exReloaded)).
Proof.
  apply (stale_link_blocks exStale (exOptions false false 0)); vm_compute; reflexivity.
Defined.
