(* ===== verification/DbAsync.v ===== *)
(** * The background goroutines of a database

    The snapshot rewriter and the pruner run beside the methods and the log
    writer ([memiavl/db.go]: [rewriteSnapshotBackground], [pruneSnapshots]).  A
    step of the rewriter is a phase of it, the writing of all stores and the
    loading of the new snapshot being one phase each; a step of the pruner is one
    operation on the disk. *)

From S2P Require Import Prelude KV Binary Sha256 Node Hash Snapshot Persisted Tree Proto Wal.
From S2P Require Import MultiTree MultiSnapshot SnapshotName Db DbDisk DbHistory DbPending DbInv DbStep DbTasks DbLoad DbRun DbProps.
From stdpp Require Import relations.

Open Scope string_scope.
Open Scope Z_scope.
Open Scope list_scope.

Section Interference.
Context {C : Type} `{CacheC : Cache C} {L : Type} `{LogL : WalLog L}.
Implicit Types (s : Sys C L) (r : option (rewriter C)) (p : option pruner).

(** What the methods do not touch. *)
Definition tasks_are r p s : Prop := rewriting (db s) = r /\ pruning (db s) = p.

Lemma onTree_tasks {A} r p (f : SE (MultiTree C) A) : preserves (tasks_are r p) (onTree (L:=L) f).
Proof.
  intros s x s'. unfold onTree. destruct (f (mtree (db s))) as [[y t]|]; [|done]. by intros [= <- <-].
Qed.

Lemma writeBatch_tasks r p n q s : tasks_are r p s -> tasks_are r p (writeBatch n q s).
Proof. unfold writeBatch. by destruct (log_write _ _). Qed.

Lemma drainWal_tasks r p s : tasks_are r p s -> tasks_are r p (drainWal s).
Proof. intros H. unfold drainWal. repeat case_match; auto using writeBatch_tasks. Qed.

Lemma sendEntry_tasks r p e s : tasks_are r p s -> tasks_are r p (withDb s (sendEntry e)).
Proof. unfold tasks_are, withDb, sendEntry. cbn. by destruct (walChan _). Qed.

Lemma catch_preserves (I : Sys C L -> Prop) m : preserves I m -> preserves I (catch m).
Proof.
  intros H s x s'. unfold catch. destruct (m s) as [[y s1]|] eqn:E; [|done]. intros [= <- <-]. by apply (H s y s1).
Qed.

#[local] Hint Resolve onTree_tasks drainWal_tasks sendEntry_tasks catch_preserves : preserves.

(** Take a block apart. *)
Ltac tasks := repeat (apply preserves_bind; [|intros ?]); try case_match; auto with preserves.

Lemma guardReadOnly_tasks r p : preserves (tasks_are r p) (guardReadOnly (C:=C) (L:=L)).
Proof. unfold guardReadOnly. tasks. Qed.

#[local] Hint Resolve guardReadOnly_tasks : preserves.

Lemma upgrades_tasks r p us : preserves (tasks_are r p) (DBApplyUpgrades (C:=C) (L:=L) us).
Proof. unfold DBApplyUpgrades. tasks. Qed.

Lemma change_tasks r p n cs : preserves (tasks_are r p) (applyChangeSet (C:=C) (L:=L) n cs).
Proof. unfold applyChangeSet. destruct cs; tasks. Qed.

Lemma change1_tasks r p n cs : preserves (tasks_are r p) (DBApplyChangeSet (C:=C) (L:=L) n cs).
Proof. unfold DBApplyChangeSet. destruct cs; [tasks|apply change_tasks]. Qed.

Lemma changes_tasks r p css : preserves (tasks_are r p) (DBApplyChangeSets (C:=C) (L:=L) css).
Proof.
  unfold DBApplyChangeSets. destruct css; [tasks|]. apply preserves_bind; [auto with preserves|]. intros _.
  apply preserves_bind; [auto with preserves|]. intros [|]; [tasks|].
  apply preserves_forM. intros cs _. apply change_tasks.
Qed.

Lemma commitLog_tasks r p : preserves (tasks_are r p) (commitLog (C:=C) (L:=L)).
Proof.
  unfold commitLog, writeLog. do 4 (apply preserves_bind; [auto with preserves|intros ?]).
  apply preserves_bind; [|intros _; tasks]. case_match; [|auto with preserves].
  apply preserves_bind; [auto with preserves|intros ?]. tasks.
Qed.

Lemma wait_tasks r p : preserves (tasks_are r p) (waitAsyncCommit (C:=C) (L:=L)).
Proof.
  unfold waitAsyncCommit. apply preserves_bind; [auto with preserves|]. intros [q|]; [|auto with preserves]. tasks.
Qed.

Lemma checkAsyncCommit_tasks r p : preserves (tasks_are r p) (checkAsyncCommit (C:=C) (L:=L)).
Proof. unfold checkAsyncCommit. apply preserves_bind; [auto with preserves|]. intros [| |]; tasks. Qed.
End Interference.

Section Async.
Context {C : Type} `{LawsC : CacheLaws C} {L : Type} `{LawsL : WalLaws L}.
Context (iv : Z) (Hiv : 0 <= iv < 2 ^ 32).
Implicit Types (t : MultiTree C) (s : Sys C L) (d : Disk L) (es : list WALEntry) (r : rewriter C) (p : pruner).

(** The phases a goroutine has left at most. *)
Definition rewriterLeft r : nat :=
  match r with RWrite _ => 5 | RRename _ => 4 | RSymlink _ => 3 | RSwitch _ => 2 | RLoad _ => 1 | RResult _ _ => 0 end.

Definition prunerLeft (p : option pruner) : nat :=
  match p with
  | Some (PRename l _) => 2 * length l + 2
  | Some (PRemove _ l _) => 2 * length l + 3
  | Some PTruncate => 1
  | _ => 0
  end.

(** A later phase of the rewriter. *)
Definition rewriterLater r (r' : option (rewriter C)) : Prop :=
  match r' with Some r' => (rewriterLeft r' < rewriterLeft r)%nat | None => False end.

(** A later phase of the pruner, which knows only after reading the directory
    how much there is to do. *)
Definition prunerLater p (p' : option pruner) : Prop :=
  p' <> Some PList /\ (p = PList \/ (prunerLeft p' < prunerLeft (Some p))%nat).

Lemma rewriterStep_later ctxDone s s' r :
  rewriting (db s) = Some r -> rewriterStep ctxDone s = Some s' ->
  rewriterLater r (rewriting (db s')) /\ pruning (db s') = pruning (db s).
Proof.
  intros Er. unfold rewriterStep. rewrite Er. intros E.
  destruct r; cbn [mbind option_bind] in E; try done;
    repeat (case_match || (apply bind_Some in E as (? & ? & E))); try done;
    simplify_eq; (split; [cbn; lia|done]).
Qed.

Lemma prunerStep_later s s' p :
  pruning (db s) = Some p -> prunerStep s = Some s' ->
  prunerLater p (pruning (db s')) /\ rewriting (db s') = rewriting (db s).
Proof.
  intros Ep. unfold prunerStep. rewrite Ep. intros E. unfold prunerLater.
  repeat (case_match; try done); simplify_eq; (split; [|done]); (split; [done|]);
    first [by left|right; cbn; lia].
Qed.

(** Looking after the goroutines leaves those alone that are not done. *)
Lemma background_rewriter r :
  rewriter_busy r -> preserves (fun s => rewriting (db s) = Some r) (checkBackgroundSnapshotRewrite (C:=C) (L:=L)).
Proof.
  intros Hb s x s' E Er. revert E. unfold checkBackgroundSnapshotRewrite. sstate. rewrite Er.
  destruct r; try done; by intros [= _ <-].
Qed.

Lemma background_pruner p :
  preserves (fun s => pruning (db s) = Some p) (checkBackgroundSnapshotRewrite (C:=C) (L:=L)).
Proof.
  unfold checkBackgroundSnapshotRewrite, reloadMultiTree. apply preserves_bind; [auto with preserves|].
  intros [[ | | | | |m err]|]; auto with preserves.
  apply preserves_bind; [auto with preserves|]. intros _. destruct m as [m|]; [|destruct err; auto with preserves].
  apply preserves_bind.
  { intros s x s' [= _ <-] E. by apply (drainWal_tasks (rewriting (db s)) (Some p) s). }
  intros _. do 3 (apply preserves_bind; [auto with preserves|intros ?]). case_match; [auto with preserves|].
  do 3 (apply preserves_bind; [auto with preserves|intros ?]).
  apply preserves_bind.
  { do 2 (apply preserves_bind; [auto with preserves|intros ?]).
    intros s x s' E Ep. by apply (onTree_tasks (rewriting (db s)) (Some p) _ s x s' E). }
  intros _ s x s'. sstate. intros E Ep. by rewrite Ep in E.
Qed.

Lemma checkAsyncTasks_keeps (I : Sys C L -> Prop) :
  preserves I checkAsyncCommit -> preserves I checkBackgroundSnapshotRewrite -> preserves I checkAsyncTasks.
Proof.
  intros H1 H2. unfold checkAsyncTasks. apply preserves_bind; [by apply catch_preserves|]. intros e1.
  apply preserves_bind; [by apply catch_preserves|]. intros e2. destruct e1, e2; auto with preserves.
Qed.

Lemma checkAsyncCommit_keeps {A} (f : DB C -> A) (x : A) :
  (forall q x, f (setQuit q x) = f x) -> preserves (fun s => f (db s) = x) (checkAsyncCommit (C:=C) (L:=L)).
Proof.
  intros Hf. unfold checkAsyncCommit. apply preserves_bind; [auto with preserves|].
  intros [|e|]; auto with preserves. apply preserves_bind; [|auto with preserves].
  intros s y s' [= _ <-] E. cbn. by rewrite Hf.
Qed.

(** Starting a snapshot while one is written does nothing. *)
Lemma start_rewriter r :
  preserves (fun s => rewriting (db s) = Some r) (rewriteSnapshotBackground (C:=C) (L:=L)).
Proof.
  intros s x s' E Er. revert E. unfold rewriteSnapshotBackground. sstate. rewrite Er. by intros [= _ <-].
Qed.

Lemma start_pruner p :
  preserves (fun s => pruning (db s) = Some p) (rewriteSnapshotBackground (C:=C) (L:=L)).
Proof.
  unfold rewriteSnapshotBackground. apply preserves_bind; [auto with preserves|]. intros [r|]; auto with preserves.
Qed.

Lemma rewriteIfApplicable_keeps (I : Sys C L -> Prop) v :
  preserves I rewriteSnapshotBackground -> preserves I (rewriteIfApplicable v).
Proof.
  intros Hm. unfold rewriteIfApplicable. apply preserves_bind; [auto with preserves|]. intros i.
  do 2 (case_match; [auto with preserves|]). apply preserves_bind; [by apply catch_preserves|auto with preserves].
Qed.

Lemma RewriteSnapshotBackground_keeps (I : Sys C L -> Prop) :
  preserves I rewriteSnapshotBackground -> preserves I RewriteSnapshotBackground.
Proof.
  intros Hm. unfold RewriteSnapshotBackground, guardReadOnly. apply preserves_bind; [|done].
  apply preserves_bind; [auto with preserves|]. intros [|]; auto with preserves.
Qed.

(** The methods and the log writer that look at neither goroutine. *)
Lemma tasks_kept {A} (m : SE (Sys C L) A) s x s' :
  preserves (tasks_are (rewriting (db s)) (pruning (db s))) m -> m s = Some (x, s') ->
  rewriting (db s') = rewriting (db s) /\ pruning (db s') = pruning (db s).
Proof. intros Hm E. by apply (Hm s x s' E). Qed.

(** Whatever happens next, a goroutine that runs stays where it is or goes on. *)
Lemma act_rewriting es s es' s' r :
  act (es, s) (es', s') -> rewriting (db s) = Some r -> rewriter_busy r ->
  rewriting (db s') = Some r \/ rewriterLater r (rewriting (db s')).
Proof.
  intros Ha Er Hb. inversion Ha as [? ? ? us _ _ E|? ? ? css _ _ _ E|? ? ? n pairs _ _ E|? ? ? v _ E|? ? ? _ _ E
    |? ? ? v _ E|? ? ? x _ E|? ? ? E|? ? q n _ _|? ? ? ctxDone E|? ? ? E]; subst.
  1-4,8: left; rewrite <- Er; eapply tasks_kept; [|exact E];
    auto using upgrades_tasks, changes_tasks, change1_tasks, commitLog_tasks, wait_tasks.
  - left. refine (checkAsyncTasks_keeps (fun s => rewriting (db s) = Some r) _ _ s _ s' E Er); [by apply checkAsyncCommit_keeps|by apply background_rewriter].
  - left. refine (rewriteIfApplicable_keeps (fun s => rewriting (db s) = Some r) _ _ s _ s' E Er). apply start_rewriter.
  - left. refine (RewriteSnapshotBackground_keeps (fun s => rewriting (db s) = Some r) _ s _ s' E Er). apply start_rewriter.
  - left. rewrite <- Er. by apply (writeBatch_tasks (rewriting (db s)) (pruning (db s)) n q s).
  - right. by eapply rewriterStep_later.
  - left. rewrite <- Er. destruct (pruning (db s)) as [p|] eqn:Ep; [by eapply prunerStep_later|].
    unfold prunerStep in E. by rewrite Ep in E.
Qed.

Lemma act_pruning es s es' s' p :
  act (es, s) (es', s') -> pruning (db s) = Some p ->
  pruning (db s') = Some p \/ prunerLater p (pruning (db s')).
Proof.
  intros Ha Ep. inversion Ha as [? ? ? us _ _ E|? ? ? css _ _ _ E|? ? ? n pairs _ _ E|? ? ? v _ E|? ? ? _ _ E
    |? ? ? v _ E|? ? ? x _ E|? ? ? E|? ? q n _ _|? ? ? ctxDone E|? ? ? E]; subst.
  1-4,8: left; rewrite <- Ep; eapply tasks_kept; [|exact E];
    auto using upgrades_tasks, changes_tasks, change1_tasks, commitLog_tasks, wait_tasks.
  - left. refine (checkAsyncTasks_keeps (fun s => pruning (db s) = Some p) _ _ s _ s' E Ep); [by apply checkAsyncCommit_keeps|by apply background_pruner].
  - left. refine (rewriteIfApplicable_keeps (fun s => pruning (db s) = Some p) _ _ s _ s' E Ep). apply start_pruner.
  - left. refine (RewriteSnapshotBackground_keeps (fun s => pruning (db s) = Some p) _ s _ s' E Ep). apply start_pruner.
  - left. rewrite <- Ep. by apply (writeBatch_tasks (rewriting (db s)) (pruning (db s)) n q s).
  - left. rewrite <- Ep. destruct (rewriting (db s)) as [r|] eqn:Er; [by eapply rewriterStep_later|].
    unfold rewriterStep in E. by rewrite Er in E.
  - right. by eapply prunerStep_later.
Qed.

(** *** To the end *)

(** The rewriter will deliver the snapshot of version [v]. *)
Definition promising (ctxDone : Z -> bool) (v : Z) r s : Prop :=
  match r with
  | RWrite t => MTVersion t = v /\ (forall k, ctxDone k = false) /\ dirs (disk s) !! snapshotName v = None
  | RRename t => MTVersion t = v /\ dirs (disk s) !! snapshotName v = None
  | RSymlink t | RSwitch t => MTVersion t = v
  | RLoad t => current (disk s) = Some (snapshotName v)
  | RResult m err => is_Some m /\ err = None /\ current (disk s) = Some (snapshotName v)
  end.

Lemma promising_step ctxDone v es s c r s' :
  inv iv es s c -> rewriting (db s) = Some r -> promising ctxDone v r s ->
  rewriterStep ctxDone s = Some s' ->
  exists r', rewriting (db s') = Some r' /\ promising ctxDone v r' s'.
Proof.
  intros Hi Er Hg. pose proof (inv_hist _ _ _ _ Hi) as Hh. pose proof (inv_disk _ _ _ _ Hi) as Hd.
  pose proof (inv_rewriter _ _ _ _ Hi r Er) as Hr. pose proof (inv_link _ _ _ _ Hi) as Hlk.
  rewrite Er in Hlk. unfold rewriterStep. rewrite Er.
  destruct r as [t|t|t|t|t|m err]; [..|done]; cbn [DbInv.rewriter_ok promising] in Hr, Hg.
  - destruct Hr as (i & Hci & Ht), Hg as (<- & Hctx & Hn).
    rewrite MTWriteSnapshot_dirOf by (done || apply Ht). intros [= <-]. eexists. split; [reflexivity|]. split; [done|].
    destruct (clone_version iv Hiv es i t Hh ltac:(lia) Ht) as (Es & _). cbn [disk dirs writeDir setDirs].
    rewrite lookup_insert_ne by (rewrite Es; intros E; symmetry in E; by apply snap_tmp in E). done.
  - destruct Hr as (i & Hci & Ht & Esd), Hg as [<- Hn]. destruct (clone_version iv Hiv es i t Hh ltac:(lia) Ht) as (Es & _).
    unfold renameDir. rewrite Hn. rewrite Es, Esd. intros [= <-]. by eexists.
  - unfold symlinkTmp. rewrite Hlk. intros [= <-]. by eexists.
  - unfold renameLink. rewrite Hlk. intros [= <-]. subst v. by eexists.
  - destruct (load_current iv Hiv es (disk s) c (mtZeroCopy t) 0 Hh Hd) as (sd & u & m & tj & -> & -> & _ & _ & Ec & _).
    sbind. rewrite Ec. intros [= <-]. eexists. split; [reflexivity|]. by split.
Qed.

(** Giving up leaves the current snapshot in place. *)
Definition result_ok es s s' : Prop :=
  exists m err, rewriting (db s') = Some (RResult m err) /\
    match m with
    | None => err = None /\ current (disk s') = current (disk s)
    | Some m => exists i j tj, current (disk s') = Some (snap iv i) /\ (i <= j <= length es)%nat /\
        stateAt iv es j tj /\ m ≡ tj
    end.

Lemma result_state es s s' m err c :
  inv iv es s' c -> rewriting (db s') = Some (RResult m err) ->
  (m = None -> current (disk s') = current (disk s)) -> result_ok es s s'.
Proof.
  intros Hi Er Hc. exists m, err. split; [done|]. pose proof (inv_rewriter _ _ _ _ Hi _ Er) as Hr.
  destruct m as [m|]; [|by split; [|apply Hc]]. destruct Hr as (j & tj & Hj & Htj & Heq & _).
  exists c, j, tj. destruct (disk_current _ _ _ _ (inv_disk _ _ _ _ Hi)) as (Ecur & _). done.
Qed.

(** Only the replacement of the link changes the current snapshot. *)
Lemma rewriterStep_current ctxDone s s' r :
  rewriting (db s) = Some r -> rewriterStep ctxDone s = Some s' ->
  current (disk s') = current (disk s) \/ exists t, r = RSwitch t.
Proof.
  intros Er. unfold rewriterStep. rewrite Er. intros E.
  destruct r as [t|t|t|t|t|m err]; [| | |by right; exists t| |done]; left.
  - by destruct (MTWriteSnapshotWithContext ctxDone t); simplify_eq.
  - unfold renameDir in E. by repeat case_match; simplify_eq.
  - unfold symlinkTmp in E. by repeat case_match; simplify_eq.
  - cbn [mbind option_bind] in E. by repeat (case_match || (apply bind_Some in E as (? & ? & E))); simplify_eq.
Qed.

Lemma rewriter_finishes ctxDone es s r :
  reachable iv (es, s) -> rewriting (db s) = Some r ->
  exists n s' m err, rewriterSteps ctxDone n s = Some s' /\ reachable iv (es, s') /\
    rewriting (db s') = Some (RResult m err) /\
    (forall v, promising ctxDone v r s -> promising ctxDone v (RResult m err) s') /\
    (m = None -> current (disk s') = current (disk s)).
Proof.
  remember (rewriterLeft r) as k eqn:Ek. revert s r Ek. induction k as [k IH] using lt_wf_ind.
  intros s r -> Hr Er. destruct (reachable_inv iv Hiv es s Hr) as (c & Hi).
  destruct (decide (rewriterLeft r = 0%nat)) as [E0|E0].
  { destruct r as [t|t|t|t|t|m err]; try done. exists 0%nat, s, m, err. by split_and!. }
  assert (rewriter_busy r) as Hb by (by destruct r).
  destruct (inv_rewriterStep iv Hiv es s c _ ctxDone Hi Er Hb) as (s1 & _ & E1 & _).
  destruct (rewriterStep_later ctxDone s s1 _ Er E1) as [Hlt _].
  destruct (rewriting (db s1)) as [r1|] eqn:Er1; [|done].
  destruct (IH _ Hlt s1 r1 eq_refl) as (n & s' & m & err & En & Hr' & Em & Hv & Hcur); [|done|].
  { eapply reachable_act; [exact Hr|by eapply act_rewriter]. }
  assert (forall v, promising ctxDone v r s -> promising ctxDone v r1 s1) as Hstep.
  { intros v Hg. destruct (promising_step ctxDone v es s c r s1 Hi Er Hg E1) as (r2 & Er2 & Hg2). congruence. }
  exists (S n), s', m, err. split_and!; [cbn [rewriterSteps]; by rewrite E1|done|done|auto|].
  intros ->. destruct (rewriterStep_current ctxDone s s1 r Er E1) as [<-|[t ->]]; [by apply Hcur|].
  destruct (Hv (MTVersion t)) as ([? [=]] & _). by apply Hstep.
Qed.

Lemma pruner_runs es s p :
  reachable iv (es, s) -> pruning (db s) = Some p ->
  exists s', prunerStep s = Some s' /\ reachable iv (es, s').
Proof.
  intros Hr Ep. destruct (reachable_inv iv Hiv es s Hr) as (c & Hi).
  destruct (inv_prunerStep iv Hiv es s c p Hi Ep) as (s' & E & _). exists s'. split; [done|].
  eapply reachable_act; [exact Hr|by apply act_pruner].
Qed.

Lemma pruner_listed es s :
  reachable iv (es, s) -> pruning (db s) <> Some PList ->
  exists n s', prunerSteps n s = Some s' /\ pruning (db s') = None /\ reachable iv (es, s').
Proof.
  remember (prunerLeft (pruning (db s))) as k eqn:Ek. revert s Ek. induction k as [k IH] using lt_wf_ind.
  intros s -> Hr Hp. destruct (pruning (db s)) as [p|] eqn:Ep; [|by exists 0%nat, s].
  destruct (pruner_runs es s p Hr Ep) as (s1 & E1 & Hr1).
  destruct (prunerStep_later s s1 p Ep E1) as [[Hp1 [->|Hlt]] _]; [done|].
  destruct (IH _ Hlt s1 eq_refl Hr1 Hp1) as (n & s' & En & Em & Hr').
  exists (S n), s'. split_and!; [|done|done]. cbn [prunerSteps]. by rewrite E1.
Qed.

Lemma pruner_finishes es s :
  reachable iv (es, s) -> exists n s', prunerSteps n s = Some s' /\ pruning (db s') = None /\ reachable iv (es, s').
Proof.
  intros Hr. assert (pruning (db s) = Some PList \/ pruning (db s) <> Some PList) as [Ep|Hp]
    by (destruct (pruning (db s)) as [[]|]; auto); [|by apply pruner_listed].
  destruct (pruner_runs es s PList Hr Ep) as (s1 & E1 & Hr1).
  destruct (prunerStep_later s s1 PList Ep E1) as [[Hp1 _] _].
  destruct (pruner_listed es s1 Hr1 Hp1) as (n & s' & En & Em & Hr').
  exists (S n), s'. split_and!; [|done|done]. cbn [prunerSteps]. by rewrite E1.
Qed.

(** C17: the goroutines finish, and with the right results.  In every reachable
    state a snapshot rewriter that runs can go on, and whatever the methods, the
    log writer and the pruner do leaves it where it is or finds it in a later
    phase.  Left to itself it delivers a result: a failure is
    never an error, and leaves the current snapshot as it was; a success is a
    state of the history that is not older than the snapshot that is now the
    current one; and a rewriter that starts on a version without a snapshot, and
    is not cancelled, succeeds and makes its snapshot the current one.  The pruner
    likewise can always go on, is not disturbed, and comes to its end. *)
Theorem goroutines_finish es s :
  reachable iv (es, s) ->
  (forall r ctxDone, rewriting (db s) = Some r -> rewriter_busy r ->
    (exists s', rewriterStep ctxDone s = Some s') /\
    (forall es' s', act (es, s) (es', s') ->
      rewriting (db s') = Some r \/ rewriterLater r (rewriting (db s'))) /\
    exists n s', rewriterSteps ctxDone n s = Some s' /\ reachable iv (es, s') /\ result_ok es s s' /\
      forall t, r = RWrite t -> (forall k, ctxDone k = false) ->
        dirs (disk s) !! snapshotName (MTVersion t) = None ->
        current (disk s') = Some (snapshotName (MTVersion t)) /\
        exists m, rewriting (db s') = Some (RResult (Some m) None)) /\
  (forall p, pruning (db s) = Some p ->
    (exists s', prunerStep s = Some s') /\
    (forall es' s', act (es, s) (es', s') -> pruning (db s') = Some p \/ prunerLater p (pruning (db s')))) /\
  exists n s', prunerSteps n s = Some s' /\ pruning (db s') = None /\ reachable iv (es, s').
Proof.
  intros Hr. destruct (reachable_inv iv Hiv es s Hr) as (c & Hi). split; [|split; [|by apply pruner_finishes]].
  - intros r ctxDone Er Hb. destruct (inv_rewriterStep iv Hiv es s c r ctxDone Hi Er Hb) as (s1 & _ & E1 & _).
    split; [by exists s1|]. split; [intros es' s' Ha; by eapply act_rewriting|].
    destruct (rewriter_finishes ctxDone es s r Hr Er) as (n & s' & m & err & En & Hr' & Em & Hv & Hcur).
    destruct (reachable_inv iv Hiv es s' Hr') as (c' & Hi').
    exists n, s'. split_and!; [done|done|by eapply result_state|].
    intros t -> Hctx Hn. destruct (Hv (MTVersion t)) as ([x ->] & -> & Ecur); [done|]. split; [done|by exists x].
  - intros p Ep. split; [|intros es' s' Ha; by eapply act_pruning].
    destruct (pruner_runs es s p Hr Ep) as (s' & E & _). by exists s'.
Qed.
End Async.

(** After the first commit of the database without stores the rewriter of its
    snapshot runs. *)
Lemma goroutines_finish_witness :
  exists t, rewriting (db exOne) = Some (RWrite t) /\
    (exists n s', rewriterSteps (fun _ => false) n exOne = Some s' /\
      current (disk s') = Some (snapshotName (MTVersion t)) /\
      exists m, rewriting (db s') = Some (RResult (Some m) None)) /\
    exists n s', prunerSteps n exOne = Some s' /\ pruning (db s') = None /\ reachable 1 ([emptyLog], s').
Proof.
  destruct (goroutines_finish 1 ltac:(lia) [emptyLog] exOne exOne_reachable) as (Hr & _ & Hp).
  eexists. split; [vm_compute; reflexivity|]. split; [|exact Hp].
  destruct (Hr _ (fun _ => false) ltac:(vm_compute; reflexivity) I) as (_ & _ & n & s' & En & _ & _ & Hs).
  destruct (Hs _ eq_refl (fun _ => eq_refl) ltac:(vm_compute; reflexivity)) as [Ecur Hm].
  exists n, s'. split_and!; [exact En|exact Ecur|exact Hm].
Defined.
