(* ===== verification/StateSync.v ===== *)
(** * State sync: [MultiTreeExporter], [MultiTreeImporter] of [memiavl/export.go]
    and [memiavl/import.go], [Snapshot] and [restore] of [store/rootmulti]

    A node sends the stores of one version as a stream of messages: the name of
    a store, then its nodes in post-order.  Another node rebuilds the snapshot
    directory of that version from the stream and links it as the current one.
    The exporter of a tree is the list of nodes its [Next] calls return, and the
    importer of a tree is the list of nodes added to it: [Export] and
    [TreeImport] justify both for every interleaving with their goroutines. *)

From S2P Require Import Prelude KV Binary Sha256 Node Hash Snapshot Persisted Tree Export Import TreeImport.
From S2P Require Import Proto Wal MultiTree MultiSnapshot SnapshotName.
From S2P Require Import Db DbDisk NameSort DbHistory DbPending DbInv DbStep DbTasks DbLoad DbRun DbProps.

Open Scope string_scope.
Open Scope Z_scope.
Open Scope list_scope.

Definition MaxInt8 : Z := 127.

(** [types.SnapshotItem] of the store module: its oneof; the messages of
    extensions are opaque, [SnapNone] has no item set.  Key and value may be
    nil. *)
Inductive SnapshotItem :=
  | SnapStore (name : string)
  | SnapIAVL (key value : option bytes) (version height : Z)
  | SnapOther (payload : bytes)
  | SnapNone.

(** The items of an export. *)
Inductive item := ItemTree (name : string) | ItemNode (n : ExportNode).

Section StateSync.
Context {C : Type} `{CacheC : Cache C} {L : Type} `{LogL : WalLog L}.

(** ** Export *)

(** Only one of [db] and [mtree] is set. *)
Inductive exportSource := FromDB (d : DB C) | FromSnapshot (t : MultiTree C).

Record MultiTreeExporter := mkMTExporter {
  source : exportSource;
  iTree : nat;
  exporter : option (list ExportNode)
}.

Definition exportOptions (version : Z) : Options :=
  mkOptions false 0 true [] 0 0 version 0 true 0 false.

Definition NewMultiTreeExporter (d : Disk L) (version : Z) (supportExportNonSnapshotVersion : bool)
    : option (result MultiTreeExporter) :=
  if supportExportNonSnapshotVersion then
    match Load (exportOptions version) d with
    | None => None
    | Some (Err e, _) => Some (Err ("invalid height: " ++ e)%string)
    | Some (Ok db, _) => Some (Ok (mkMTExporter (FromDB db) 0 None))
    end
  else
    match currentVersion d with
    | Err e => Some (Err ("failed to load current version: " ++ e)%string)
    | Ok curVersion =>
        if curVersion <? version then Some (Err "snapshot is not created yet")
        else
          match openDir (Some (snapshotName version)) d with
          | Err e => Some (Err ("snapshot don't exists: " ++ e)%string)
          | Ok sd =>
              r ← LoadMultiTree sd true 0;
              Some (match r with
                    | Err e => Err ("snapshot don't exists: " ++ e)%string
                    | Ok t => Ok (mkMTExporter (FromSnapshot t) 0 None)
                    end)
          end
    end.

Definition exportTrees (e : MultiTreeExporter) : list (NamedTree C) :=
  match source e with FromDB d => trees (mtree d) | FromSnapshot t => trees t end.

Definition ErrorExportDone : error := "export is complete".

(** The part of [Next] after the exporter of the last tree is done. *)
Definition nextTree (e : MultiTreeExporter) : option (result item * MultiTreeExporter) :=
  match exportTrees e !! iTree e with
  | None => Some (Err ErrorExportDone, e)
  | Some tree =>
      nodes ← Export (ntTree tree);
      Some (Ok (ItemTree (ntName tree)), mkMTExporter (source e) (S (iTree e)) (Some nodes))
  end.

Definition Next (e : MultiTreeExporter) : option (result item * MultiTreeExporter) :=
  match exporter e with
  | Some (node :: nodes) =>
      Some (Ok (ItemNode node), mkMTExporter (source e) (iTree e) (Some nodes))
  | Some [] => nextTree (mkMTExporter (source e) (iTree e) None)
  | None => nextTree e
  end.

(** [MultiTreeExporter.Close]; unmapping a snapshot does not fail. *)
Definition closeExporter (e : MultiTreeExporter) (d : Disk L) : option (result unit) :=
  match source e with
  | FromDB db => r ← Close (mkSys db d); Some r.1
  | FromSnapshot _ => Some (Ok tt)
  end.

(** The message of an item, as [Snapshot] writes it. *)
Definition toMsg (i : item) : SnapshotItem :=
  match i with
  | ItemNode n => SnapIAVL (Some (eKey n)) (eValue n) (eVersion n) (eHeight n)
  | ItemTree name => SnapStore name
  end.

(** The loop of [Snapshot] over the items: the messages written.  [writeMsg] is
    the answer of the writer to the next message after those written. *)
Fixpoint snapshotLoop (fuel : nat) (writeMsg : list SnapshotItem -> result unit)
    (e : MultiTreeExporter) (sent : list SnapshotItem)
    : option (result (list SnapshotItem) * MultiTreeExporter) :=
  match fuel with
  | O => None
  | S fuel =>
      '(r, e) ← Next e;
      match r with
      | Err _ => Some (Ok sent, e)
      | Ok i =>
          match writeMsg sent with
          | Err err => Some (Err err, e)
          | Ok _ => snapshotLoop fuel writeMsg e (sent ++ [toMsg i])
          end
      end
  end.

(** [Store.Snapshot] *)
Definition SnapshotAt (fuel : nat) (writeMsg : list SnapshotItem -> result unit) (d : Disk L)
    (height : Z) (support : bool) : option (result (list SnapshotItem)) :=
  if MaxUint32 <? height then Some (Err "height overflows uint32")
  else
    e ← NewMultiTreeExporter d (u32 height) support;
    match e with
    | Err err => Some (Err err)
    | Ok e =>
        '(r, e) ← snapshotLoop fuel writeMsg e [];
        c ← closeExporter e d;
        Some (msgs ← r; _ ← c; Ok msgs)
    end.

(** ** Import *)

(** A [TreeImporter] with the directory of its store and the nodes added; not
    [tiOpen] once it is closed. *)
Record treeImport := mkTreeImport { tiName : string; tiNodes : list ExportNode; tiOpen : bool }.

Record MultiTreeImporter := mkMTImporter { height : Z; mtiImporter : option treeImport }.

Record ImportSys := mkImport { mti : MultiTreeImporter; idisk : Disk L }.

(** What a failed import leaves in the directory of the store, in place of what
    was there. *)
Context (partial : list ExportNode -> option snapshotFiles -> snapshotFiles).

(** [lock] is the answer of [LockFile]. *)
Definition NewMultiTreeImporter (height : Z) (lock : result unit) : result MultiTreeImporter :=
  fail_if (MaxUint32 <? height) "version overflows uint32" ;;
  _ ← lock;
  Ok (mkMTImporter height None).

Definition importDir (h : Z) : string := tmpName (snapshotName h).

Definition storeFiles (name : string) (sd : option snapshotDir) : option snapshotFiles :=
  sd ← sd; snd <$> (snd <$> list_find (fun e => e.1 = name) (sdTrees sd)).

(** Writing the directory of one store; an empty metadata file stands for none. *)
Definition putStore (name : string) (f : snapshotFiles) (sd : option snapshotDir) : snapshotDir :=
  let sd := default (mkSnapshotDir [] []) sd in
  mkSnapshotDir (List.filter (fun e => negb (bool_decide (e.1 = name))) (sdTrees sd) ++ [(name, f)])
    (sdMetadata sd).

Definition setImporter (i : option treeImport) (s : ImportSys) : ImportSys :=
  mkImport (mkMTImporter (height (mti s)) i) (idisk s).

Definition importDisk (f : Disk L -> Disk L) (s : ImportSys) : ImportSys :=
  mkImport (mti s) (f (idisk s)).

(** The directory the goroutine of [doImport] leaves. *)
Definition writeStore (h : Z) (i : treeImport) (r : result snapshotFiles) (d : Disk L) : Disk L :=
  let sd := dirs d !! importDir h in
  let f := match r with Ok f => f | Err _ => partial (tiNodes i) (storeFiles (tiName i) sd) end in
  setDirs (<[importDir h := putStore (tiName i) f sd]> (dirs d)) d.

(** [TreeImporter.Close] of the current importer, when there is one; closing
    twice is tolerated. *)
Definition closeTree : SE ImportSys unit :=
  m ← gets mti;
  match mtiImporter m with
  | Some (mkTreeImport name nodes true as i) =>
      r ← orPanic (doImport (height m) nodes);
      _ ← modify (fun s => importDisk (writeStore (height m) i r)
                             (setImporter (Some (mkTreeImport name nodes false)) s));
      _ ← orErr r;
      mret tt
  | _ => mret tt
  end.

Definition slash : Ascii.ascii := Ascii.ascii_of_nat 47.

(** The name of an entry of a directory. *)
Definition plainName (name : string) : bool :=
  forallb (fun c => negb (Ascii.eqb c slash)) (String.list_ascii_of_string name) &&
  negb (existsb (String.eqb name) [""; "."; ".."]).

(** The name is joined to the temporary directory as it comes; a name that is
    not plain puts the files elsewhere, which is not modelled ([None]). *)
Definition AddTree (name : string) : SE ImportSys unit :=
  _ ← closeTree;
  _ ← (if plainName name then mret tt else orPanic None);
  modify (setImporter (Some (mkTreeImport name [] true))).

(** [None]: no importer is set, or the send never returns, the channel being nil
    or full with nobody receiving. *)
Definition AddNode (n : ExportNode) : SE ImportSys unit :=
  m ← gets mti;
  match mtiImporter m with
  | Some (mkTreeImport name nodes true) =>
      if addBlocks (height m) nodes then orPanic None
      else modify (setImporter (Some (mkTreeImport name (nodes ++ [n]) true)))
  | _ => orPanic None
  end.

Definition Add (i : item) : SE ImportSys unit :=
  match i with ItemNode n => AddNode n | ItemTree name => AddTree name end.

(** [Snapshot.RootHash] *)
Definition snapRootHash (s : Snapshot) : option bytes :=
  if IsEmptySnapshot s then Some emptyHash else p ← RootNode s; pHash s p.

(** The entries of a directory by name. *)
Definition readStores (sd : snapshotDir) : list (string * snapshotFiles) :=
  sortBy fst (sdTrees sd).

Fixpoint readInfos (h : Z) (l : list (string * snapshotFiles)) : option (result (list StoreInfo)) :=
  match l with
  | [] => Some (Ok [])
  | (name, f) :: l =>
      match OpenSnapshot f with
      | Err e => Some (Err e)
      | Ok s =>
          hash ← snapRootHash s;
          rest ← readInfos h l;
          Some (rest ← rest; Ok (mkStoreInfo name (mkCommitID h hash) :: rest))
      end
  end.

Definition updateMetadataFile (h : Z) (sd : option snapshotDir) : option (result snapshotDir) :=
  match sd with
  | None => Some (Err "no such file or directory")
  | Some sd =>
      r ← readInfos h (readStores sd);
      Some (storeInfos ← r;
            Ok (mkSnapshotDir (sdTrees sd)
                  (MultiTreeMetadata_Marshal (mkMetadata (Some (mkCommitInfo h storeInfos)) (h + 1)))))
  end.

Definition onImportDisk (f : Disk L -> result (Disk L)) : SE ImportSys unit :=
  d ← gets (fun s => f (idisk s));
  d ← orErr d;
  modify (importDisk (fun _ => d)).

Definition Finalize : SE ImportSys unit :=
  _ ← closeTree;
  _ ← modify (setImporter None);
  h ← gets (fun s => height (mti s));
  sd ← gets (fun s => dirs (idisk s) !! importDir h);
  r ← orPanic (updateMetadataFile h sd);
  sd ← orErr r;
  _ ← modify (importDisk (fun d => setDirs (<[importDir h := sd]> (dirs d)) d));
  _ ← onImportDisk (renameDir (importDir h) (snapshotName h));
  onImportDisk (updateCurrentSymlink (snapshotName h)).

(** [MultiTreeImporter.Close], after which the lock is released. *)
Definition closeImporter : SE ImportSys unit := closeTree.

(** The node of a message: [restore] replaces nil keys, and nil values of
    leaves. *)
Definition msgNode (key value : option bytes) (version height : Z) : ExportNode :=
  let h := i8 height in
  mkExport (default [] key) (if h =? 0 then Some (default [] value) else value) version h.

(** The loop of [restore] over what [ReadMsg] returns, up to [io.EOF]. *)
Fixpoint restoreLoop (msgs : list (result SnapshotItem)) : SE ImportSys SnapshotItem :=
  match msgs with
  | [] => mret SnapNone
  | Err e :: _ => throw ("invalid protobuf message: " ++ e)%string
  | Ok m :: msgs =>
      match m with
      | SnapStore name => _ ← AddTree name; restoreLoop msgs
      | SnapIAVL key value version height =>
          if MaxInt8 <? height then throw "node height cannot exceed"
          else _ ← AddNode (msgNode key value version height); restoreLoop msgs
      | SnapOther _ | SnapNone => mret m
      end
  end.

(** [Store.restore]: the importer is closed on every path. *)
Definition restore (h : Z) (lock : result unit) (msgs : list (result SnapshotItem)) : SE (Disk L) SnapshotItem :=
  fun d =>
  match NewMultiTreeImporter h lock with
  | Err e => Some (Err e, d)
  | Ok m =>
      match (item ← restoreLoop msgs; _ ← Finalize; mret item) (mkImport m d) with
      | None => None
      | Some (r, s) =>
          match closeImporter s with
          | None => None
          | Some (_, s) => Some (r, idisk s)
          end
      end
  end.
End StateSync.

(** ** What an export sends *)

Section ExportProof.
Context {C : Type} `{LawsC : CacheLaws C} {L : Type} `{LawsL : WalLaws L}.
Implicit Types (t : MultiTree C) (d : Disk L) (e : NamedTree C).

Definition nodesOf e : list ExportNode := exportNode <$> postorder_root (treeRoot (ntTree e)).

(** The items of one store, and of a list of stores. *)
Definition itemsOf e : list item := ItemTree (ntName e) :: (ItemNode <$> nodesOf e).

Definition allItems (l : list (NamedTree C)) : list item := l ≫= itemsOf.

(** Both routes of [Export] give the nodes of the tree in post-order. *)
Definition exports e : Prop := Export (ntTree e) = Some (nodesOf e).

Lemma snapshotLoop_nodes fuel writeMsg src i (ns : list ExportNode) sent :
  (forall l, writeMsg l = Ok tt) ->
  snapshotLoop (length ns + fuel) writeMsg (mkMTExporter src i (Some ns)) sent =
  snapshotLoop (C:=C) fuel writeMsg (mkMTExporter src i (Some []))
    (sent ++ (toMsg ∘ ItemNode <$> ns)).
Proof.
  intros Hw. revert sent. induction ns as [|n ns IH]; intros sent; [by rewrite app_nil_r|].
  cbn [length Nat.add snapshotLoop Next exporter source iTree mbind option_bind].
  rewrite Hw, IH. cbn [fmap list_fmap]. by rewrite <- app_assoc.
Qed.

Lemma snapshotLoop_items fuel writeMsg src i ex sent :
  let l := match src with FromDB db => trees (mtree db) | FromSnapshot t => trees t end in
  (forall l, writeMsg l = Ok tt) -> Forall exports l -> ex = None \/ ex = Some [] ->
  (length (allItems (drop i l)) < fuel)%nat -> (i <= length l)%nat ->
  snapshotLoop fuel writeMsg (mkMTExporter src i ex) sent =
  Some (Ok (sent ++ (toMsg <$> allItems (drop i l))), mkMTExporter src (length l) None).
Proof.
  intros l Hw Hl. remember (length l - i)%nat as n eqn:En. revert fuel i ex sent En.
  induction n as [|n IH]; intros fuel i ex sent En Hex Hf Hi; (destruct fuel as [|fuel]; [lia|]);
    cbn [snapshotLoop].
  - assert (Next (mkMTExporter src i ex) = Some (Err ErrorExportDone, mkMTExporter src (length l) None)) as ->.
    { replace i with (length l) by lia.
      by destruct Hex as [->| ->]; cbn; unfold nextTree, exportTrees; cbn [source iTree exporter];
        fold l; rewrite lookup_ge_None_2. }
    sbind. rewrite drop_ge by lia. by rewrite app_nil_r.
  - destruct (lookup_lt_is_Some_2 l i) as [e He]; [lia|].
    rewrite (drop_S _ _ _ He) in Hf |- *. cbn [allItems mbind list_bind] in Hf |- *.
    fold (allItems (drop (S i) l)) in *.
    assert (Next (mkMTExporter src i ex) =
      Some (Ok (ItemTree (ntName e)), mkMTExporter src (S i) (Some (nodesOf e)))) as ->.
    { rewrite Forall_forall in Hl. pose proof (Hl e (list_elem_of_lookup_2 _ _ _ He)) as Ee.
      by destruct Hex as [->| ->]; cbn; unfold nextTree, exportTrees; cbn [source iTree exporter];
        fold l; rewrite He, Ee. }
    cbn [mbind option_bind]. rewrite Hw. unfold itemsOf in *. cbn [app length fmap list_fmap] in *.
    rewrite length_app, length_fmap in Hf.
    replace fuel with (length (nodesOf e) + (fuel - length (nodesOf e)))%nat by lia.
    rewrite snapshotLoop_nodes by done. rewrite IH; [|lia|by right|lia|lia].
    rewrite fmap_app, <- list_fmap_compose, <- !app_assoc. done.
Qed.

(** A tree opened from the files of a snapshot. *)
Lemma OpenSnapshot_filesOf v n :
  0 <= v < 2 ^ 32 -> storable_root n ->
  OpenSnapshot (filesOf v n) = Ok
    match n with
    | Some n => mkSnapshot (branchChunk 0 0 n) (leafChunk 0 n) (kvChunk n) v (Some (rootAt 0 0 n))
    | None => mkSnapshot [] [] [] v None
    end.
Proof.
  intros Hv Hn. destruct n as [n|]; [by apply OpenSnapshot_written|].
  destruct (metadata_decode v Hv) as (M0 & M1 & M2 & M3).
  unfold OpenSnapshot, filesOf. cbn [fMetadata fNodes fLeaves fKvs]. by rewrite M0, M1, M2, M3.
Qed.

Lemma export_filesOf v n s :
  0 <= v < 2 ^ 32 -> storable_root n -> OpenSnapshot (filesOf v n) = Ok s ->
  export s never = Some (exportNode <$> postorder_root n) /\ snapVersion s = v.
Proof.
  intros Hv Hn. rewrite OpenSnapshot_filesOf by done. intros [= <-].
  destruct n as [n|]; [|done]. split; [by apply export_written|done].
Qed.

(** The snapshots under the trees are of version [v] at the latest. *)
Definition snapshots_upto (v : Z) t : Prop :=
  Forall (fun e => match snapshot (ntTree e) with Some s => snapVersion s <= v | None => True end) (trees t).

Lemma exports_scan e :
  match snapshot (ntTree e) with Some s => snapVersion s <> version (ntTree e) | None => True end ->
  exports e.
Proof.
  unfold exports, Export, nodesOf. destruct (snapshot (ntTree e)) as [s|]; intros Hs;
    [rewrite (proj2 (Z.eqb_neq _ _)) by congruence|]; by rewrite ScanPostOrder_postorder.
Qed.

Lemma loadTrees_exports (l l' : list (NamedTree C)) zc cs :
  Forall (fun e => tree_ok (ntTree e) /\ storable_root (treeRoot (ntTree e))) l ->
  loadTrees ((fun e => (ntName e, filesOf (version (ntTree e)) (treeRoot (ntTree e)))) <$> l)
    zc cs = Some (Ok l') ->
  Forall (fun e => exports e /\ exists s, snapshot (ntTree e) = Some s /\ snapVersion s = version (ntTree e)) l'.
Proof.
  revert l'. induction l as [|e l IH]; intros l' Hl; cbn [fmap list_fmap loadTrees].
  { intros [= <-]. constructor. }
  apply Forall_cons in Hl as [[(Hwf & _ & Hv) Hst] Hl].
  destruct (load_filesOf (version (ntTree e)) (treeRoot (ntTree e)) zc cs Hv Hst)
    as (s & tr & Es & Et & Ev & Er & _).
  destruct (export_filesOf _ _ _ Hv Hst Es) as [Ex Esv].
  rewrite Es, Et. sbind. destruct (loadTrees _ zc cs) as [[l1|]|] eqn:El; sbind; try done.
  intros [= <-]. constructor; [|by apply IH]. unfold NewFromSnapshot in Et.
  destruct (if IsEmptySnapshot s then _ else _) as [r|] eqn:Err; [|done]. injection Et as <-.
  cbn [ntTree version treeRoot snapshot] in *. subst r. split; [|by exists s].
  unfold exports, Export, nodesOf. cbn [ntTree version treeRoot snapshot]. by rewrite Z.eqb_refl, Ex.
Qed.

(** Setting the initial version keeps what a loaded tree exports. *)
Lemma exports_initial e iv :
  exports e -> (exists s, snapshot (ntTree e) = Some s /\ snapVersion s = version (ntTree e)) ->
  exports (mkNamed (setInitialVersion (ntTree e) iv) (ntName e)).
Proof.
  intros He (s & Es & Ev). destruct e as [[v r sn c z] n]. cbn [ntTree ntName snapshot version] in *.
  unfold setInitialVersion. cbn [version]. destruct (Z.ltb_spec 0 v); [done|].
  assert (forall w, exports (mkNamed (withVersion (mkTree v r sn c z) w) n)) as Hw.
  { intros w. destruct (decide (w = v)) as [->|Hne]; [done|]. apply exports_scan.
    cbn [ntTree withVersion snapshot version]. rewrite Es. congruence. }
  by destruct (iv <? 1).
Qed.

Lemma setInitialVersion_snapshot (tr : Tree C) iv : snapshot (setInitialVersion tr iv) = snapshot tr.
Proof. unfold setInitialVersion. by repeat destruct (_ <? _). Qed.

Lemma LoadMultiTree_exports t t' zc cs :
  mt_storable t -> LoadMultiTree (dirOf t) zc cs = Some (Ok t') ->
  Forall exports (trees t') /\ snapshots_upto (treeVersion t) t'.
Proof.
  intros (Hok & _ & Hmd & Hst). pose proof Hok as (_ & _ & (_ & _ & _ & Hvers) & Ht).
  unfold LoadMultiTree, dirOf, readMetadata. cbn [sdMetadata sdTrees].
  rewrite MultiTreeMetadata_roundtrip by done. cbn [mdCommitInfo mdInitialVersion mbind option_bind].
  destruct (_ <? _); [done|]. destruct (_ <? _); [done|]. cbn [mdCommitInfo mdInitialVersion].
  destruct (loadTrees _ zc cs) as [[l|]|] eqn:El; try done. cbn [mbind option_bind]. intros [= <-].
  assert (Forall (fun e => tree_ok (ntTree e) /\ storable_root (treeRoot (ntTree e))) (trees t)) as Hl
    by (apply Forall_and; by split).
  pose proof (loadTrees_exports _ _ _ _ Hl El) as Hex.
  destruct (loadTrees_written (trees t) zc cs Hl) as (l2 & El2 & Hsame & _).
  rewrite El in El2. injection El2 as <-.
  assert (Forall (fun e => match snapshot (ntTree e) with Some s => snapVersion s <= treeVersion t | None => True end) l)
    as Hup.
  { clear -Hsame Hvers Hex. revert Hvers Hex. induction Hsame as [|a b l l2 (_ & Ev & _) _ IH]; [by constructor|].
    intros [Hb Hv]%Forall_cons [(_ & s & Es & Esv) Hx]%Forall_cons. constructor; [|by apply IH].
    rewrite Es. lia. }
  rewrite <- (sortByName_perm l) in Hex, Hup. unfold snapshots_upto, mtSetInitialVersion. cbn [trees].
  destruct (1 <? _); unfold mapTrees; (split; [try apply Forall_fmap|try apply Forall_fmap; try done]).
  - eapply Forall_impl; [exact Hex|]. intros e [He Hs]. by apply exports_initial.
  - eapply Forall_impl; [exact Hup|]. intros e He. cbn. by rewrite setInitialVersion_snapshot.
  - eapply Forall_impl; [exact Hex|]. by intros e [He _].
Qed.

(** *** Replaying the log keeps the snapshots under the trees *)

Lemma ApplyChangeSet_snapshot (tr tr' : Tree C) cs :
  ApplyChangeSet tr cs = Some tr' -> snapshot tr' = snapshot tr.
Proof.
  revert tr. induction cs as [|kv cs IH]; intros tr; cbn [ApplyChangeSet]; [by intros [= <-]|].
  destruct (if Delete kv then _ else _) as [tr1|] eqn:E1; [|done]. sbind. intros ->%IH.
  destruct (Delete kv); unfold remove, set in E1; simplify_option_eq; by repeat case_match; simplify_eq.
Qed.

Lemma NewWithInitialVersion_snapshot iv cs (tr : Tree C) :
  NewWithInitialVersion iv cs = Some tr -> snapshot tr = None.
Proof.
  unfold NewWithInitialVersion, New, NewEmptyTree. by repeat case_match; intros; simplify_eq.
Qed.

Lemma saveTrees_snapshots v (l : list (NamedTree C)) uh :
  let P e := match snapshot (ntTree e) with Some s => snapVersion s <= v | None => True end in
  Forall P l -> Forall P (saveTrees l uh).1.
Proof.
  intros P. induction l as [|e l IH]; intros Hl; [done|]. apply Forall_cons in Hl as [He Hl].
  cbn [saveTrees]. unfold SaveVersion. destruct (_ =? _); cbn [fail_if]; sbind; [by constructor|].
  specialize (IH Hl). destruct (saveTrees l uh) as [l1 err]. by constructor.
Qed.

Lemma snapshots_upto_trees v t l :
  Forall (fun e => match snapshot (ntTree e) with Some s => snapVersion s <= v | None => True end) l ->
  snapshots_upto v (withTrees t l).
Proof. done. Qed.

Lemma applyUpgrade_snapshots v u : preserves (snapshots_upto v) (applyUpgrade (C:=C) u).
Proof.
  intros t r t' E Ht. unfold applyUpgrade in E. autorewrite with sstate in E.
  destruct (upDelete u).
  { destruct (indexOfName _ _) as [i|]; [|by injection E as _ <-]. injection E as _ <-. apply snapshots_upto_trees. unfold swapDelete.
    destruct (last (trees t)) as [e|] eqn:El; [|constructor]. apply Forall_take, Forall_insert; [done|].
    unfold snapshots_upto in Ht. rewrite Forall_forall in Ht. apply Ht. by apply last_Some_elem_of. }
  destruct (negb _).
  { destruct (indexOfName _ _) as [i|]; [|by injection E as _ <-]. injection E as _ <-. apply snapshots_upto_trees.
    apply Forall_alter; [done|]. by intros e _ He. }
  autorewrite with sstate in E.
  destruct (NewWithInitialVersion _ _) as [tr|] eqn:En; autorewrite with sstate in E; [|done].
  injection E as _ <-. apply snapshots_upto_trees, Forall_app. split; [done|]. constructor; [|constructor].
  cbn. by rewrite (NewWithInitialVersion_snapshot _ _ _ En).
Qed.

Lemma MTApplyUpgrades_snapshots v us : preserves (snapshots_upto v) (MTApplyUpgrades (C:=C) us).
Proof.
  unfold MTApplyUpgrades. destruct us as [|u us]; [auto with preserves|].
  apply preserves_bind; [by apply preserves_modify|intros _].
  apply preserves_bind; [apply preserves_forM; intros; apply applyUpgrade_snapshots|intros _].
  apply preserves_bind.
  { apply preserves_modify. intros t Ht. apply snapshots_upto_trees. by rewrite sortByName_perm. }
  intros _. apply preserves_bind; [auto with preserves|intros [m err]].
  apply preserves_bind; [by apply preserves_modify|intros _]. destruct err; [apply preserves_throw|apply preserves_mret].
Qed.

Lemma MTApplyChangeSets_snapshots v css : preserves (snapshots_upto v) (MTApplyChangeSets (C:=C) css).
Proof.
  apply preserves_forM. intros cs _ t r t' E Ht. unfold MTApplyChangeSet in E. autorewrite with sstate in E.
  destruct (treesByName t ≫= _) as [i|]; [|by injection E as _ <-]. autorewrite with sstate in E.
  destruct (trees t !! i) as [e|] eqn:Ee; autorewrite with sstate in E; [|done].
  destruct (ApplyChangeSet (ntTree e) (csPairs cs)) as [tr|] eqn:Etr; autorewrite with sstate in E; [|done].
  injection E as _ <-. apply snapshots_upto_trees, Forall_insert; [done|].
  cbn. rewrite (ApplyChangeSet_snapshot _ _ _ Etr).
  unfold snapshots_upto in Ht. rewrite Forall_forall in Ht. apply Ht. by eapply list_elem_of_lookup_2.
Qed.

Lemma MTSaveVersion_snapshots v uci : preserves (snapshots_upto v) (MTSaveVersion (C:=C) uci).
Proof.
  intros t r t' E Ht. unfold MTSaveVersion in E. autorewrite with sstate in E.
  pose proof (saveTrees_snapshots v (trees t) uci Ht) as Hs.
  cbn [trees withCommitInfo] in E. destruct (saveTrees (trees t) uci) as [l [err|]]; cbn [fst snd] in *;
    autorewrite with sstate in E; injection E as _ <-; by destruct uci.
Qed.

Lemma CatchupWAL_snapshots v (wal : L) endVersion : preserves (snapshots_upto v) (CatchupWAL (C:=C) wal endVersion).
Proof.
  unfold CatchupWAL, replayIndex, applyWALEntry. cbn zeta.
  apply preserves_bind; [auto with preserves|]. intros i. destruct (_ <? _); [auto with preserves|].
  apply preserves_bind; [auto with preserves|]. intros j. destruct (_ <? _); [auto with preserves|].
  apply preserves_bind; [|intros _; by apply preserves_modify].
  apply preserves_forM. intros k _.
  apply preserves_bind; [auto with preserves|intros bz].
  apply preserves_bind; [auto with preserves|intros entry].
  apply preserves_bind; [|auto using MTSaveVersion_snapshots with preserves].
  apply preserves_bind; auto using MTApplyUpgrades_snapshots, MTApplyChangeSets_snapshots.
Qed.

(** What a database opened at a version exports. *)
Lemma loadTree_exports o n d d' t t0 :
  dirs d !! n = Some (dirOf t0) -> mt_storable t0 -> loadTree o (Some n) d = Some (Ok t, d') -> mt_ok t ->
  treeVersion t0 < treeVersion t \/ MTVersion t0 = TargetVersion o /\ TargetVersion o <> 0 ->
  Forall exports (trees t).
Proof.
  intros Hn Hst E (_ & _ & (_ & _ & _ & Hvers) & _) Hcase.
  destruct (LoadMultiTree_dirOf t0 (ZeroCopy o) (CacheSize o) Hst) as (u & El & (_ & Ev & _) & _).
  destruct (LoadMultiTree_exports _ _ _ _ Hst El) as [Hex Hup].
  unfold loadTree in E. autorewrite with sstate in E. cbn [openDir] in E. rewrite Hn in E.
  autorewrite with sstate in E. rewrite El in E. autorewrite with sstate in E. rewrite Ev in E.
  destruct ((TargetVersion o =? 0) || (MTVersion t0 <? TargetVersion o)) eqn:Eb.
  - destruct (CatchupWAL (wal d) (TargetVersion o) u) as [[r t1]|] eqn:Ec;
      autorewrite with sstate in E; [|done]. cbn [fst snd] in E.
    destruct r as [[]|]; autorewrite with sstate in E; simplify_eq/=.
    pose proof (CatchupWAL_snapshots _ _ _ _ _ _ Ec Hup) as Hup'.
    destruct Hcase as [Hlt|[Heq Hne]].
    2: { apply orb_prop in Eb as [?%Z.eqb_eq|?%Z.ltb_lt]; lia. }
    eapply Forall_impl; [apply Forall_and; split; [exact Hvers|exact Hup']|]. intros e [He Hs].
    apply exports_scan. destruct (snapshot (ntTree e)); [|done]. lia.
  - by injection E as <- <-.
Qed.
End ExportProof.

Section Source.
Context {C : Type} `{LawsC : CacheLaws C} {L : Type} `{LawsL : WalLaws L}.
Context (iv : Z) (Hiv : 0 <= iv < 2 ^ 32).
Implicit Types (t : MultiTree C) (d : Disk L) (es : list WALEntry).

Local Abbreviation disk_ok := (disk_ok (C:=C) (L:=L) iv).
Local Abbreviation snap := (snap iv).

Lemma exporter_db es d c i k :
  hist_ok (C:=C) iv es -> disk_ok es d c -> (i <= k <= length es)%nat -> (1 <= k)%nat ->
  is_Some (dirs d !! snap i) -> Z.of_nat k <= log_last (wal d) ->
  exists t tk, NewMultiTreeExporter d (versionAt iv k) true =
      Some (Ok (mkMTExporter (FromDB (loaded (exportOptions (versionAt iv k)) t)) 0 None)) /\
    stateAt iv es k tk /\ t ≡ tk /\ Forall exports (trees t).
Proof.
  intros Hh Hd Hik Hk Hs Hlast.
  destruct (seek_state iv es d c k i Hh Hd ltac:(lia) Hs) as (j & Hj & Hsj & Eseek).
  set (o := exportOptions (versionAt iv k)).
  destruct (load_at iv Hiv es d c j k o Hh Hd ltac:(lia) Hk Hsj) as (t & tk & Et & Htk & Heq & Hok & _);
    [right; lia|done|].
  destruct (load_current iv Hiv es d c false 0 Hh Hd) as (sd & _ & _ & _ & Ecur & _).
  destruct (stateAt_version iv Hiv es k tk Hh ltac:(lia) Htk) as (Ev & Ei & _).
  pose proof (versionAt_lt iv 0 k ltac:(lia)) as Hpos. change (versionAt iv 0) with 0 in Hpos.
  assert (MTVersion t = versionAt iv k) as Evt by (rewrite <- Ev; apply Heq).
  exists t, tk. split; [|split; [done|split; [done|]]].
  - unfold NewMultiTreeExporter. fold o.
    rewrite (Load_steps o d sd (Some (snap j)) d t d); try done.
    unfold loadName. cbn [TargetVersion o exportOptions]. rewrite (proj2 (Z.ltb_lt _ _)) by done.
      sstate. by rewrite Eseek.
  - destruct Hsj as [sdj Hsj].
    destruct (disk_snap iv es d c j sdj Hh Hd ltac:(lia) Hsj) as (tj & Htj & -> & Hf).
    pose proof (clone_version iv Hiv es j tj Hh ltac:(lia) Htj) as (_ & Evj & Eij).
    eapply loadTree_exports; [exact Hsj|apply Htj|exact Et|done|].
    destruct (decide (j = k)) as [->|Hne]; [right; split; [done|cbn; lia]|left].
    pose proof Heq as (Eit & _). unfold treeVersion. rewrite Evj, Eij, Evt, Eit, Ei.
    rewrite <- !versionAt_S. pose proof (versionAt_lt iv (S j) (S k) ltac:(lia)). lia.
Qed.

Lemma exporter_snapshot es d c k :
  hist_ok (C:=C) iv es -> disk_ok es d c -> (k <= c)%nat -> is_Some (dirs d !! snap k) ->
  exists t tk, NewMultiTreeExporter d (versionAt iv k) false =
      Some (Ok (mkMTExporter (FromSnapshot t) 0 None)) /\
    stateAt iv es k tk /\ t ≡ tk /\ Forall exports (trees t).
Proof.
  intros Hh Hd Hk [sd Hsd]. destruct (disk_current _ _ _ _ Hd) as (Ecur & _ & Hc).
  destruct (disk_snap iv es d c k sd Hh Hd ltac:(lia) Hsd) as (t0 & (Hst & _ & tk & Htk & Heq) & -> & _).
  destruct (LoadMultiTree_dirOf t0 true 0 Hst) as (t & El & Heqt & _).
  exists t, tk. split; [|split; [done|split; [by etrans|]]].
  - unfold NewMultiTreeExporter, currentVersion. rewrite Ecur.
    unfold DbInv.snap at 1. rewrite parse_good by (apply (versionAt_range iv es); [done|lia]).
    rewrite (proj2 (Z.ltb_ge _ _)) by (apply versionAt_le; lia).
    cbn [openDir]. unfold DbInv.snap in Hsd. rewrite Hsd, El. done.
  - by apply (LoadMultiTree_exports t0 t true 0).
Qed.

(** The disk of a database serves the state after [k] entries: from a snapshot
    and the log, or from the snapshot of that very version. *)
Definition served d (k : nat) (support : bool) : Prop :=
  if support then
    exists i, (i <= k)%nat /\ is_Some (dirs d !! snap i) /\ Z.of_nat k <= log_last (wal d)
  else is_Some (dirs d !! snap k) /\ exists v, currentVersion d = Ok v /\ versionAt iv k <= v.

Lemma allItems_equiv (l l' : list (NamedTree C)) : Forall2 same_named l l' -> allItems l = allItems l'.
Proof.
  induction 1 as [|a b l l' (En & _ & Er) _ IH]; [done|]. cbn [allItems mbind list_bind].
  unfold allItems in IH. rewrite IH. f_equal. unfold itemsOf, nodesOf. by rewrite En, Er.
Qed.

Lemma snapshot_sends es d c k support fuel writeMsg tk :
  hist_ok (C:=C) iv es -> disk_ok es d c -> (1 <= k <= length es)%nat -> served d k support ->
  (forall l, writeMsg l = Ok tt) -> stateAt iv es k tk -> (length (allItems (trees tk)) < fuel)%nat ->
  SnapshotAt (C:=C) fuel writeMsg d (versionAt iv k) support = Some (Ok (toMsg <$> allItems (trees tk))).
Proof.
  intros Hh Hd Hk Hserved Hw Htk Hf. pose proof (versionAt_range iv es k Hh ltac:(lia)) as Hr.
  assert (exists src t, NewMultiTreeExporter d (versionAt iv k) support =
            Some (Ok (mkMTExporter src 0 None)) /\
          match src with FromDB db => trees (mtree db) | FromSnapshot t => trees t end = trees t /\
          (forall i, closeExporter (mkMTExporter src i None) d = Some (Ok tt)) /\
          t ≡ tk /\ Forall exports (trees t)) as (src & t & Enew & Esrc & Eclose & Heq & Hex).
  { destruct support.
    - destruct Hserved as (i & Hi & Hs & Hl).
      destruct (exporter_db es d c i k Hh Hd ltac:(lia) ltac:(lia) Hs Hl) as (t & tk' & E & Htk' & Heq & Hex).
      rewrite (stateAt_unique _ _ _ _ _ Htk Htk'). by eexists _, t.
    - destruct Hserved as (Hs & v & Ev & Hle). destruct (disk_current _ _ _ _ Hd) as (Ecur & _ & Hc).
      assert (k <= c)%nat as Hkc.
      { unfold currentVersion in Ev. rewrite Ecur in Ev. unfold DbInv.snap in Ev.
        rewrite parse_good in Ev by (apply (versionAt_range iv es); [done|lia]). injection Ev as <-.
        destruct (decide (c < k)%nat) as [Hlt|]; [|lia]. apply (versionAt_lt iv) in Hlt. lia. }
      destruct (exporter_snapshot es d c k Hh Hd Hkc Hs) as (t & tk' & E & Htk' & Heq & Hex).
      rewrite (stateAt_unique _ _ _ _ _ Htk Htk'). by eexists _, t. }
  pose proof Heq as (_ & _ & _ & Hl). apply allItems_equiv in Hl. rewrite <- Hl in *.
  unfold SnapshotAt. rewrite (proj2 (Z.ltb_ge _ _)) by (unfold MaxUint32; lia).
  rewrite u32_id by lia. rewrite Enew. sbind.
  rewrite snapshotLoop_items; rewrite ?Esrc; rewrite ?drop_0; [|done|done|by left|done|lia].
  sbind. by rewrite Eclose.
Qed.
End Source.

(** ** What an import makes of it *)

(** The encoding of messages on the way: protobuf does not tell nil from empty
    bytes. *)
Class Wire := wire : SnapshotItem -> SnapshotItem.

Class WireLaws `{Wire} : Prop := {
  wire_store n : wire (SnapStore n) = SnapStore n;
  wire_iavl k v version height :
    - 2 ^ 63 <= version < 2 ^ 63 -> - 2 ^ 31 <= height < 2 ^ 31 ->
    exists k' v', wire (SnapIAVL k v version height) = SnapIAVL k' v' version height /\
      default [] k' = default [] k /\ default [] v' = default [] v
}.

(** Nodes that are imported alike. *)
Definition same_node (a b : ExportNode) : Prop :=
  eKey a = eKey b /\ eVersion a = eVersion b /\ eHeight a = eHeight b /\
  default [] (eValue a) = default [] (eValue b).

Lemma importAll_same i ns ns' : Forall2 same_node ns ns' -> importAll i ns = importAll i ns'.
Proof.
  intros Hl. revert i. induction Hl as [|a b ns ns' (Ek & Ev & Eh & Ex) _ IH]; intros i; [done|].
  cbn [importAll]. assert (importerAdd i a = importerAdd i b) as ->.
  { unfold importerAdd. by rewrite Ek, Ev, Eh, Ex. }
  destruct (importerAdd i b) as [[]|]; sbind; [apply IH|done|done].
Qed.

Lemma doImport_same v ns ns' : Forall2 same_node ns ns' -> doImport v ns = doImport v ns'.
Proof. intros Hl. unfold doImport. by rewrite (importAll_same _ _ _ Hl). Qed.

Lemma doImport_ok v ns f :
  doImport v ns = Some (Ok f) -> v <= MaxUint32 /\ exists i, importAll newImporter ns = Some (Ok i).
Proof.
  unfold doImport. destruct (Z.ltb_spec MaxUint32 v); [done|]. fold newImporter.
  destruct (importAll newImporter ns) as [[i|e]|]; sbind; [by eauto|done|done].
Qed.

(** While an import can succeed, adding does not block. *)
Lemma addBlocks_prefix v ns ns' f : doImport v (ns ++ ns') = Some (Ok f) -> addBlocks v ns = false.
Proof.
  intros (Hv & i & E)%doImport_ok. unfold addBlocks, gaveUp. rewrite (proj2 (Z.ltb_ge _ _)) by done.
  rewrite importAll_app in E. destruct (importAll newImporter ns) as [[j|]|] eqn:Ej; try done.
  by rewrite (receives_none _ _ _ Ej).
Qed.

Lemma postorder_versions t : disk_range t -> Forall (fun n => 0 <= Version n < 2 ^ 32) (postorder t).
Proof.
  induction t as [v k x|h s v k l IHl r IHr]; cbn [disk_range postorder].
  - intros Hr. constructor; [apply Hr|constructor].
  - intros (Hv & Hl & Hr). apply Forall_app. split; [by apply IHl|]. apply Forall_app.
    split; [by apply IHr|]. by constructor.
Qed.

Section ImportProof.
Context {C : Type} `{LawsC : CacheLaws C} {L : Type} `{LawsL : WalLaws L} `{WireL : WireLaws}.
Context (partial : list ExportNode -> option snapshotFiles -> snapshotFiles).
Implicit Types (t : MultiTree C) (d : Disk L) (e : NamedTree C) (l : list (NamedTree C)).

Local Abbreviation close_tree := (closeTree (L:=L) partial).
Local Abbreviation restore_loop := (restoreLoop (L:=L) partial).

Definition received (i : item) : result SnapshotItem := Ok (wire (toMsg i)).

(** An exported node arrives as a message that [restore] accepts. *)
Lemma received_node (n : Node) :
  0 <= Version n < 2 ^ 32 ->
  exists k v ver h, received (ItemNode (exportNode n)) = Ok (SnapIAVL k v ver h) /\ h <= MaxInt8 /\
    same_node (msgNode k v ver h) (exportNode n).
Proof.
  intros Hv. unfold received, exportNode. cbn [toMsg eKey eValue eVersion eHeight].
  assert (- 2 ^ 7 <= i8 (Height n) < 2 ^ 7) as Hh
    by (unfold i8; pose proof (Z.mod_pos_bound (Height n + 2 ^ 7) (2 ^ 8)); lia).
  destruct (wire_iavl (Some (Key n)) (Value n) (Version n) (i8 (Height n))) as (k' & v' & E & Ek & Ex);
    [lia|lia|]. rewrite E. eexists _, _, _, _. split; [done|]. split; [unfold MaxInt8; lia|].
  unfold msgNode, same_node. cbn [eKey eValue eVersion eHeight]. rewrite i8_id by lia.
  split; [done|]. split; [done|]. split; [done|]. by destruct (_ =? 0).
Qed.

Lemma restore_nodes v name acc acc0 (ns : list Node) rest d f :
  Forall (fun n => 0 <= Version n < 2 ^ 32) ns -> Forall2 same_node acc acc0 ->
  doImport v (acc0 ++ (exportNode <$> ns)) = Some (Ok f) ->
  exists ns', Forall2 same_node ns' (acc0 ++ (exportNode <$> ns)) /\
    restore_loop ((received ∘ ItemNode ∘ exportNode <$> ns) ++ rest)
      (mkImport (mkMTImporter v (Some (mkTreeImport name acc true))) d) =
    restore_loop rest (mkImport (mkMTImporter v (Some (mkTreeImport name ns' true))) d).
Proof.
  intros Hns. revert acc acc0. induction Hns as [|n ns Hn Hns IH]; intros acc acc0 Hacc Hd.
  { exists acc. cbn [fmap list_fmap]. by rewrite app_nil_r. }
  destruct (received_node n Hn) as (k & x & ver & h & E & Hh & Hsame).
  destruct (IH (acc ++ [msgNode k x ver h]) (acc0 ++ [exportNode n])) as (ns' & Hns' & Erun).
  { apply Forall2_app; [done|by constructor]. }
  { by rewrite <- app_assoc. }
  exists ns'. rewrite <- app_assoc in Hns'. split; [done|]. rewrite <- Erun.
  cbn [fmap list_fmap app].
  change ((received ∘ ItemNode ∘ exportNode) n) with (received (ItemNode (exportNode n))). rewrite E.
  cbn [restoreLoop].
  rewrite (proj2 (Z.ltb_ge _ _)) by done.
  assert (addBlocks v acc = false) as Eb.
  { apply (addBlocks_prefix v acc (exportNode <$> n :: ns) f). rewrite <- Hd. apply doImport_same.
    apply Forall2_app; [done|]. apply Forall_Forall2_diag, Forall_forall. by intros. }
  erewrite SE_bind_ok; [reflexivity|]. unfold AddNode. sstate. cbn [mti mtiImporter height].
  by rewrite Eb.
Qed.

(** The files of a store at the version, and the disk with the files of some
    stores in the temporary directory. *)
Definition stored (v : Z) e : string * snapshotFiles := (ntName e, filesOf v (treeRoot (ntTree e))).

Definition importStores (v : Z) l d : Disk L :=
  match l with
  | [] => d
  | _ => setDirs (<[importDir v := mkSnapshotDir (stored v <$> l) []]> (dirs d)) d
  end.

(** The importer after the messages of some stores. *)
Definition imported (v : Z) l d (s : ImportSys) : Prop :=
  match last l with
  | None => s = mkImport (mkMTImporter v None) d
  | Some e => exists ns, Forall2 same_node ns (nodesOf e) /\
      s = mkImport (mkMTImporter v (Some (mkTreeImport (ntName e) ns true)))
            (importStores v (removelast l) d)
  end.

Lemma importStores_snoc v l e d :
  dirs d !! importDir v = None -> NoDup (names (l ++ [e])) ->
  writeStore (L:=L) partial v (mkTreeImport (ntName e) (nodesOf e) true)
    (Ok (filesOf v (treeRoot (ntTree e)))) (importStores v l d) = importStores v (l ++ [e]) d.
Proof.
  intros Hd Hnd. unfold writeStore. cbn [tiName].
  assert (forall l', importStores v (l' ++ [e]) d =
    setDirs (<[importDir v := mkSnapshotDir (stored v <$> l' ++ [e]) []]> (dirs d)) d) as -> by (by intros []).
  destruct l as [|e0 l]; cbn [importStores].
  - rewrite Hd. unfold putStore. done.
  - unfold setDirs. cbn [dirs current currentTmp wal]. rewrite lookup_insert_eq, insert_insert_eq.
    do 2 f_equal. unfold putStore. cbn [default from_option id sdTrees sdMetadata]. rewrite fmap_app. do 2 f_equal.
    unfold names in Hnd. rewrite fmap_app in Hnd. apply NoDup_app in Hnd as (_ & Hdisj & _).
    assert (Forall (fun x : string * snapshotFiles => x.1 <> ntName e) (stored v <$> e0 :: l)) as Hall.
    { apply Forall_fmap, Forall_forall. intros x Hx. cbn. intros Ex. apply (Hdisj (ntName e)); [|by left].
      rewrite <- Ex. by apply list_elem_of_fmap_2. }
    revert Hall. generalize (stored v <$> e0 :: l). induction l0 as [|a m IH]; [done|].
    intros [Ha Hm]%Forall_cons. cbn [List.filter]. rewrite bool_decide_false by done. cbn [negb].
    by rewrite IH.
Qed.

Section Stores.
Context (v : Z) (Hv : 0 <= v < 2 ^ 32) (d : Disk L) (Hd : dirs d !! importDir v = None).

Lemma doImport_stored e :
  storable_root (treeRoot (ntTree e)) ->
  doImport v (nodesOf e) = Some (Ok (filesOf v (treeRoot (ntTree e)))).
Proof.
  intros Hst. destruct (import_export (fun _ => false) v (treeRoot (ntTree e)) (fun _ => eq_refl) Hv Hst)
    as (f & Ef & Ei).
  rewrite WriteSnapshot_filesOf in Ef by done. injection Ef as <-.
  by rewrite ScanPostOrder_postorder in Ei.
Qed.

(** Closing the importer of the last store writes its files. *)
Lemma closeTree_imported l s :
  Forall (fun e => storable_root (treeRoot (ntTree e))) l -> NoDup (names l) -> imported v l d s ->
  exists i, close_tree s = Some (Ok tt, mkImport (mkMTImporter v i) (importStores v l d)) /\
    match i with Some i => tiOpen i = false | None => True end.
Proof.
  destruct l as [|e l _] using rev_ind; unfold imported.
  { intros _ _ ->. by exists None. }
  rewrite last_snoc, removelast_last. intros Hst Hnd (ns & Hns & ->).
  apply Forall_app in Hst as [_ [Hst _]%Forall_cons].
  exists (Some (mkTreeImport (ntName e) ns false)). split; [|done].
  unfold closeTree. sstate. cbn [mti mtiImporter height].
  rewrite (doImport_same _ _ _ Hns), doImport_stored by done. sstate.
  rewrite <- importStores_snoc by done. done.
Qed.

Lemma restore_trees l rest :
  Forall (fun e => storable_root (treeRoot (ntTree e))) l -> NoDup (names l) ->
  Forall (fun n => plainName n = true) (names l) ->
  exists s, imported v l d s /\
    restore_loop ((received <$> allItems l) ++ rest) (mkImport (mkMTImporter v None) d) = restore_loop rest s.
Proof.
  revert rest. induction l as [|e l IH] using rev_ind; intros rest Hst Hnd Hpl.
  { by eexists. }
  apply Forall_app in Hst as [Hst [He _]%Forall_cons]. pose proof Hnd as Hnd'.
  unfold names in Hpl. rewrite fmap_app in Hpl. apply Forall_app in Hpl as [Hpl [Hple _]%Forall_cons].
  unfold names in Hnd'. rewrite fmap_app in Hnd'. apply NoDup_app in Hnd' as (Hnd' & _).
  assert (allItems (l ++ [e]) = allItems l ++ itemsOf e) as ->.
  { unfold allItems. rewrite bind_app. cbn. by rewrite app_nil_r. }
  rewrite fmap_app, <- app_assoc.
  destruct (IH ((received <$> itemsOf e) ++ rest) Hst Hnd' Hpl) as (s & Hs & ->).
  destruct (closeTree_imported l s Hst Hnd' Hs) as (i & Ec & _).
  unfold itemsOf. cbn [fmap list_fmap app]. unfold received at 1. cbn [toMsg]. rewrite wire_store.
  cbn [restoreLoop]. rewrite (SE_bind_ok _ _ _ tt
    (mkImport (mkMTImporter v (Some (mkTreeImport (ntName e) [] true))) (importStores v l d))).
  2: { unfold AddTree. rewrite (SE_bind_ok _ _ _ _ _ Ec), Hple. by sstate. }
  destruct (restore_nodes v (ntName e) [] [] (postorder_root (treeRoot (ntTree e))) rest
    (importStores v l d) (filesOf v (treeRoot (ntTree e)))) as (ns & Hns & Erun).
  { destruct (treeRoot (ntTree e)) as [n|]; [|constructor]. by apply postorder_versions, He. }
  { constructor. }
  { by apply doImport_stored. }
  eexists. split; [|unfold nodesOf; rewrite <- !list_fmap_compose; exact Erun].
  unfold imported. rewrite last_snoc, removelast_last. by exists ns.
Qed.
End Stores.

(** The state that a restored snapshot holds: the log starts after it. *)
Definition restarted t : MultiTree C :=
  mkMultiTree (MTVersion t + 1) (mtZeroCopy t) (cacheSize t) (trees t) (treesByName t) (infoOf t)
    (metadata t).

Lemma readStores_sorted v l : sorted_names l -> readStores (mkSnapshotDir (stored v <$> l) []) = stored v <$> l.
Proof.
  intros Hs. apply sortBy_id. cbn [sdTrees]. rewrite <- list_fmap_compose. by apply sorted_names_iff.
Qed.

Lemma snapRootHash_filesOf v (tr : Tree C) :
  0 <= v < 2 ^ 32 -> storable_root (treeRoot tr) ->
  exists s, OpenSnapshot (filesOf v (treeRoot tr)) = Ok s /\ snapRootHash s = Some (RootHash tr).
Proof.
  intros Hv Hst. rewrite OpenSnapshot_filesOf by done. eexists. split; [done|].
  unfold RootHash. destruct (treeRoot tr) as [n|]; [|done]. unfold snapRootHash.
  cbn [IsEmptySnapshot root RootNode mbind option_bind].
  pose proof (persisted_denotes _ _ _ (written_persisted v n Hst)) as Hden.
  destruct n; apply Hden.
Qed.

Lemma readInfos_stored v l :
  0 <= v < 2 ^ 32 -> Forall (fun e => storable_root (treeRoot (ntTree e))) l ->
  Forall (fun e => version (ntTree e) = v) l ->
  readInfos v (stored v <$> l) =
  Some (Ok ((fun e => mkStoreInfo (ntName e) (mkCommitID (version (ntTree e)) (RootHash (ntTree e)))) <$> l)).
Proof.
  intros Hv. induction l as [|e l IH]; intros Hst Hver; [done|].
  apply Forall_cons in Hst as [He Hst]. apply Forall_cons in Hver as [Ev Hver].
  destruct (snapRootHash_filesOf v (ntTree e) Hv He) as (s & Es & Eh).
  cbn [fmap list_fmap readInfos stored]. rewrite Es, Eh. sbind. rewrite IH by done. sbind.
  by rewrite Ev.
Qed.

Lemma stored_version v l :
  Forall (fun e => version (ntTree e) = v) l ->
  stored v <$> l = (fun e => (ntName e, filesOf (version (ntTree e)) (treeRoot (ntTree e)))) <$> l.
Proof.
  induction 1 as [|e l He _ IH]; [done|]. cbn [fmap list_fmap]. rewrite IH. unfold stored. by rewrite He.
Qed.

Lemma Finalize_imported t s d :
  let v := MTVersion t in
  0 <= v < 2 ^ 32 -> trees t <> [] -> sorted_names (trees t) -> NoDup (names (trees t)) ->
  Forall (fun e => storable_root (treeRoot (ntTree e))) (trees t) ->
  Forall (fun e => version (ntTree e) = v) (trees t) ->
  dirs d !! importDir v = None -> dirs d !! snapshotName v = None -> currentTmp d = None ->
  imported v (trees t) d s ->
  Finalize partial s = Some (Ok tt, mkImport (mkMTImporter v None)
    (mkDisk (<[snapshotName v := dirOf (restarted t)]> (dirs d)) (Some (snapshotName v)) None (wal d))).
Proof.
  intros v Hv Hne Hs Hnd Hst Hver Hd Hd' Hlink Himp.
  destruct (closeTree_imported v Hv d Hd (trees t) s Hst Hnd Himp) as (i & Ec & _).
  unfold Finalize. rewrite (SE_bind_ok _ _ _ _ _ Ec). sstate. cbn [setImporter mti height idisk].
  assert (importStores v (trees t) d =
    setDirs (<[importDir v := mkSnapshotDir (stored v <$> trees t) []]> (dirs d)) d) as ->.
  { by destruct (trees t). }
  cbn [dirs setDirs]. rewrite lookup_insert_eq. unfold updateMetadataFile.
  rewrite readStores_sorted, readInfos_stored by done. sbind. sstate.
  assert (importDir v <> snapshotName v) as Hne' by (apply tmpName_snapshotName; lia).
  unfold importDisk, setImporter, setDirs. cbn [mti idisk dirs current currentTmp wal sdTrees height].
  rewrite insert_insert_eq.
  rewrite (SE_bind_ok _ _ _ tt (mkImport (mkMTImporter v None)
    (mkDisk (<[snapshotName v := dirOf (restarted t)]> (dirs d)) (current d) (currentTmp d) (wal d)))).
  2: { unfold onImportDisk. sstate. cbn [idisk]. unfold renameDir. cbn [dirs].
       rewrite lookup_insert_eq, lookup_insert_ne, Hd' by done. sstate. unfold importDisk, setDirs.
       cbn [dirs current currentTmp wal mti].
       rewrite delete_insert_id by done. unfold dirOf, restarted, infoOf, buildCommitInfo.
       cbn [trees lastCommitInfo initialVersion]. fold v.
       by rewrite (stored_version v (trees t) Hver). }
  unfold onImportDisk. sstate. cbn [idisk]. unfold updateCurrentSymlink, symlinkTmp. cbn [currentTmp].
  rewrite Hlink. done.
Qed.

(** The stream ends, or goes on with messages of an extension. *)
Definition afterStores (ext : list (result SnapshotItem)) : option SnapshotItem :=
  match ext with
  | [] => Some SnapNone
  | Ok (SnapOther x) :: _ => Some (SnapOther x)
  | _ => None
  end.

Definition restoredDisk t d : Disk L :=
  mkDisk (<[snapshotName (MTVersion t) := dirOf (restarted t)]> (dirs d))
    (Some (snapshotName (MTVersion t))) None (wal d).

(** A disk on which nothing is in the way of the snapshot of a version. *)
Definition fresh_for (v : Z) d : Prop :=
  dirs d !! importDir v = None /\ dirs d !! snapshotName v = None /\ currentTmp d = None.

Lemma restore_sent t d ext m :
  let v := MTVersion t in
  0 <= v < 2 ^ 32 -> trees t <> [] -> sorted_names (trees t) -> NoDup (names (trees t)) ->
  Forall (fun e => storable_root (treeRoot (ntTree e))) (trees t) ->
  Forall (fun e => version (ntTree e) = v) (trees t) ->
  Forall (fun n => plainName n = true) (names (trees t)) ->
  fresh_for v d -> afterStores ext = Some m ->
  restore partial v (Ok tt) ((received <$> allItems (trees t)) ++ ext) d = Some (Ok m, restoredDisk t d).
Proof.
  intros v Hv Hne Hs Hnd Hst Hver Hpl (Hd & Hd' & Hlink) Hext.
  destruct (restore_trees v Hv d Hd (trees t) ext Hst Hnd Hpl) as (s & Himp & Erun).
  unfold restore, NewMultiTreeImporter.
  rewrite (proj2 (Z.ltb_ge _ _)) by (unfold MaxUint32; lia). cbn [fail_if]. sbind.
  rewrite (SE_bind_ok _ _ _ m s).
  2: { rewrite Erun. destruct ext as [|[[]|] ext]; try done; by injection Hext as <-. }
  rewrite (SE_bind_ok _ _ _ _ _ (Finalize_imported t s d Hv Hne Hs Hnd Hst Hver Hd Hd' Hlink Himp)).
  done.
Qed.

Lemma restarted_storable t :
  mt_ok t -> 0 < MTVersion t < 2 ^ 32 - 1 -> Forall (fun e => storable_root (treeRoot (ntTree e))) (trees t) ->
  metadata_valid (mkMetadata (Some (infoOf t)) (MTVersion t + 1)) ->
  mt_storable (restarted t) /\ Forall (fun e => version (ntTree e) = MTVersion t) (trees t).
Proof.
  intros (Hi & Hs & (_ & _ & _ & Hver) & Ht) Hv Hst Hmd.
  assert (treeVersion t = MTVersion t) as Etv.
  { unfold treeVersion, nextVersion. rewrite (proj2 (Z.eqb_neq _ _)) by lia. cbn [andb]. lia. }
  assert (treeVersion (restarted t) = MTVersion t) as Etr.
  { unfold treeVersion, nextVersion. change (MTVersion (restarted t)) with (MTVersion t).
    rewrite (proj2 (Z.eqb_neq _ _)) by lia. cbn [andb]. lia. }
  rewrite Etv in Hver. split; [|done].
  split; [|split; [change (MTVersion (restarted t)) with (MTVersion t); lia|by split]].
  split; [done|]. split; [done|]. split; [|done]. unfold versions_ok. rewrite Etr.
  change (MTVersion (restarted t)) with (MTVersion t). cbn [initialVersion restarted trees].
  split_and!; (done || lia).
Qed.

(** Opening the restored database. *)
Lemma Load_restored t d o :
  mt_storable (restarted t) -> 0 < MTVersion t < 2 ^ 32 - 1 -> log_last (wal d) = 0 ->
  ReadOnly o = false -> TargetVersion o = 0 ->
  exists t', Load o (restoredDisk t d) = Some (Ok (loaded o t'), removeTmpDirs (restoredDisk t d)) /\
    t' ≡ restarted t /\ mt_ok t' /\ lastCommitInfo t' = infoOf t.
Proof.
  intros Hst Hv Hlog Hro Htg.
  destruct (LoadMultiTree_dirOf (restarted t) (ZeroCopy o) (CacheSize o) Hst) as (t' & El & Heq & Hok & Hci & _).
  exists t'. split; [|done]. pose proof Heq as (Ei & Ev & _). change (MTVersion (restarted t)) with (MTVersion t) in Ev.
  rewrite (Load_steps o _ (dirOf (restarted t)) None (removeTmpDirs (restoredDisk t d)) t'
             (removeTmpDirs (restoredDisk t d))).
  - unfold finish. rewrite Ev, (proj2 (Z.eqb_neq _ _)) by lia. by rewrite andb_false_r.
  - by apply Validate_writable.
  - unfold currentDir, restoredDisk. cbn [current dirs mbind option_bind]. by rewrite lookup_insert_eq.
  - by rewrite Hro.
  - unfold loadName. by rewrite Htg.
  - unfold loadTree. sstate. cbn [openDir]. unfold currentDir.
    cbn [removeTmpDirs setDirs current dirs restoredDisk wal mbind option_bind].
    assert (0 <= MTVersion t) as Hv0 by lia.
    rewrite (proj2 (map_lookup_filter_Some _ _ _ _)
              (conj (lookup_insert_eq _ _ _) (isTmpName_snapshotName _ Hv0))).
    sstate. rewrite El. sstate. rewrite Htg. cbn [Z.eqb orb].
    rewrite CatchupWAL_uptodate; [by sstate|].
    change (wal (removeTmpDirs (restoredDisk t d))) with (wal d).
    rewrite Hlog, Ev, Ei. cbn [initialVersion restarted]. unfold nextVersion, walIndex.
    rewrite (proj2 (Z.eqb_neq _ _)) by lia. cbn [andb]. rewrite (proj2 (Z.ltb_lt 1 _)) by lia.
    rewrite (u64_id (MTVersion t + 1)) by lia. rewrite Z.sub_diag. done.
  - done.
Qed.
End ImportProof.

(** ** Restoring never damages what is there *)

Section Failsafe.
Context {L : Type} `{LogL : WalLog L}.
Context (partial : list ExportNode -> option snapshotFiles -> snapshotFiles).
Implicit Types (d : Disk L) (s : ImportSys (L:=L)).









(** ** Restores that do not return *)














End Failsafe.

(** ** Properties *)


(** C7: state sync.  From any reachable database, the state of a version that its
    disk serves, sent as a stream of messages and restored on the disk of another
    node where nothing is in the way, gives there a database that opens at that
    version with the same stores, each with the same tree node for node, the same
    commit info and so the same root hash, and that starts its own log with the
    next version. *)
Theorem state_sync_roundtrip {C} `{CacheLaws C} {L} `{WalLaws L} `{WireLaws}
    iv es (s : Sys C L) k support fuel writeMsg tk partial (d : Disk L) ext m o :
  0 <= iv < 2 ^ 32 -> reachable iv (es, s) -> (1 <= k <= length es)%nat ->
  served iv (disk s) k support -> (forall l, writeMsg l = Ok tt) ->
  stateAt iv es k tk -> (length (allItems (trees tk)) < fuel)%nat ->
  trees tk <> [] -> Forall (fun n => plainName n = true) (names (trees tk)) ->
  metadata_valid (mkMetadata (Some (infoOf tk)) (versionAt iv k + 1)) ->
  fresh_for (versionAt iv k) d -> log_last (wal d) = 0 -> afterStores ext = Some m ->
  ReadOnly o = false -> TargetVersion o = 0 ->
  exists msgs d' t' d'',
    SnapshotAt (C:=C) fuel writeMsg (disk s) (versionAt iv k) support = Some (Ok msgs) /\
    restore partial (versionAt iv k) (Ok tt) ((Ok ∘ wire <$> msgs) ++ ext) d = Some (Ok m, d') /\
    Load o d' = Some (Ok (loaded o t'), d'') /\
    MTVersion t' = versionAt iv k /\ Forall2 same_named (trees t') (trees tk) /\
    lastCommitInfo t' = infoOf tk /\ initialVersion t' = versionAt iv k + 1 /\ mt_ok t'.
Proof.
  intros Hiv Hr Hk Hserved Hw Htk Hf Hne Hpl Hmd Hfresh Hlog Hext Hro Htg.
  destruct (reachable_inv iv Hiv es s Hr) as (c & Hi).
  pose proof (inv_hist _ _ _ _ Hi) as Hh. pose proof (inv_disk _ _ _ _ Hi) as Hd.
  destruct (stateAt_version iv Hiv es k tk Hh ltac:(lia) Htk) as (Ev & _ & Hok & Hst).
  pose proof (versionAt_range iv es k Hh ltac:(lia)) as Hrange.
  pose proof (versionAt_lt iv 0 k ltac:(lia)) as Hpos. change (versionAt iv 0) with 0 in Hpos.
  rewrite <- Ev in *.
  destruct (restarted_storable tk Hok ltac:(lia) (proj1 Hst) Hmd) as [Hre Hver].
  pose proof Hok as ((nm & _ & Hidx) & Hsort & _).
  destruct (Load_restored tk d o Hre ltac:(lia) Hlog Hro Htg) as (t' & El & (Ei' & Ev' & _ & Hl') & Hok' & Hci).
  exists (toMsg <$> allItems (trees tk)), (restoredDisk tk d), t', (removeTmpDirs (restoredDisk tk d)).
  split_and!; try done.
  - rewrite Ev. by apply (snapshot_sends iv Hiv es (disk s) c).
  - rewrite <- list_fmap_compose. apply restore_sent; try done; [lia|by eapply indexed_NoDup|apply Hst].
Qed.

(** *** Examples *)

Definition nonEmpty (b : option bytes) : option bytes :=
  match b with Some [] => None | _ => b end.

(** Decoding never gives empty bytes that are not nil. *)
#[global] Instance protoWire : Wire := fun m =>
  match m with
  | SnapIAVL k v version height => SnapIAVL (nonEmpty k) (nonEmpty v) version height
  | _ => m
  end.

#[global] Instance protoWire_laws : WireLaws.
Proof.
  split; [done|]. intros k v version height _ _. eexists _, _. split; [done|].
  by split; [destruct k as [[]|]|destruct v as [[]|]].
Qed.

Definition exNothing (ns : list ExportNode) (old : option snapshotFiles) : snapshotFiles :=
  default (mkFiles [] [] [] []) old.

Definition exDisk : Disk memlog := mkDisk ∅ None None (mkLog 0 []).



(** A stream in which a branch comes before its children crashes the process. *)
Definition exHeadless : list (result SnapshotItem) :=
  [Ok (SnapStore "bank"); Ok (SnapIAVL (Some []) None 1 1)].

Lemma branch_crashes : restore exNothing 3 (Ok tt) exHeadless exDisk = None.
Proof. vm_compute. reflexivity. Qed.

(** A database with one store and one entry, after its first commit. *)
Definition exBankOptions : Options := mkOptions true 1 false ["bank"] 1 1 0 (-1) false 0 false.

Definition run {S A} (m : SE S A) (s : S) : S := match m s with Some (_, s) => s | None => s end.

Definition exCreated : Sys slot memlog :=
  match Load exBankOptions exDisk with
  | Some (Ok db', d') => mkSys db' d'
  | _ => mkSys (loaded exBankOptions (genesis 1)) exDisk
  end.

Definition exPairs : list NamedChangeSet :=
  [mkNamedCS "bank" [mkPair false [Byte.x01] (Some [Byte.x0b])]].

Definition exWritten : Sys slot memlog := run (DBApplyChangeSets exPairs) exCreated.
Definition exBank : Sys slot memlog := run Commit exWritten.
Definition exEntry : WALEntry := pendingLog (db exWritten).

Definition exState : MultiTree slot :=
  match replay [exEntry] (genesis 1) with Some (_, t) => t | None => genesis 1 end.

Lemma exCreated_reachable : reachable 1 ([], exCreated).
Proof.
  eapply (reachable_create 1 exBankOptions (mkLog 0 [])); try reflexivity.
  apply NoDup_singleton.
Qed.

Lemma exWritten_reachable : reachable 1 ([], exWritten).
Proof.
  eapply reachable_act.
  - exact exCreated_reachable.
  - apply (act_changes [] exCreated exWritten exPairs).
    + repeat constructor.
    + apply NoDup_singleton.
    + intros n. change (weChangesets (pendingLog (db exCreated)) ++ exPairs) with exPairs.
      unfold exPairs. cbn [pairs_for csName csPairs]. destruct (_ : bool); done.
    + vm_compute. reflexivity.
Qed.

Definition exLeaf : Node := Leaf 1 [Byte.x01] [Byte.x0b].

Lemma exLeaf_storable : storable exLeaf.
Proof.
  split_and!; [|simpl; lia|reflexivity|reflexivity].
  unfold wf, exLeaf, kv_sorted; simpl. split_and!; try done. by repeat constructor.
Qed.

Lemma exWritten_trees :
  trees (saved (mtree (db exWritten)) true) = [mkNamed (mkTree 1 (Some exLeaf) None None true) "bank"].
Proof. vm_compute. reflexivity. Qed.

Lemma exWritten_fits : commit_fits exWritten.
Proof.
  split; [vm_compute; reflexivity|]. split; [vm_compute; reflexivity|]. split.
  - rewrite exWritten_trees. constructor; [exact exLeaf_storable|constructor].
  - unfold metadata_valid, infoOf, buildCommitInfo. rewrite exWritten_trees. cbn [mdCommitInfo mdInitialVersion].
    split; [split; [vm_compute; split; congruence|by repeat constructor]|].
    split; [vm_compute; split; congruence|]. vm_compute. reflexivity.
Qed.

Lemma exBank_reachable : reachable 1 ([exEntry], exBank).
Proof.
  destruct (reachable_inv 1 ltac:(lia) [] exWritten exWritten_reachable) as (c & Hi).
  apply (reachable_Commit 1 ltac:(lia) [] exWritten 1 exBank c exWritten_reachable Hi exWritten_fits).
  vm_compute. reflexivity.
Qed.

Lemma exState_trees : trees exState = [mkNamed (mkTree 1 (Some exLeaf) None None true) "bank"].
Proof. vm_compute. reflexivity. Qed.

Lemma state_sync_roundtrip_witness :
  exists msgs d' t' d'',
    SnapshotAt (C:=slot) 10 (fun _ => Ok tt) (disk exBank) 1 true = Some (Ok msgs) /\
    restore exNothing 1 (Ok tt) ((Ok ∘ wire <$> msgs) ++ []) exDisk = Some (Ok SnapNone, d') /\
    Load exBankOptions d' = Some (Ok (loaded exBankOptions t'), d'') /\
    MTVersion t' = 1 /\ Forall2 same_named (trees t') (trees exState) /\
    lastCommitInfo t' = infoOf exState /\ initialVersion t' = 2 /\ mt_ok t'.
Proof.
  apply (state_sync_roundtrip 1 [exEntry] exBank 1 true 10 (fun _ => Ok tt) exState exNothing exDisk []
           SnapNone exBankOptions).
  - lia.
  - exact exBank_reachable.
  - cbn. lia.
  - exists 0%nat. split; [lia|]. split; [vm_compute; by eexists|vm_compute; congruence].
  - reflexivity.
  - vm_compute. reflexivity.
  - rewrite exState_trees. cbn. lia.
  - rewrite exState_trees. congruence.
  - rewrite exState_trees. repeat constructor.
  - unfold metadata_valid, infoOf, buildCommitInfo. rewrite exState_trees. cbn [mdCommitInfo mdInitialVersion].
    split; [split; [vm_compute; split; congruence|by repeat constructor]|].
    split; [vm_compute; split; congruence|]. vm_compute. reflexivity.
  - split_and!; reflexivity.
  - reflexivity.
  - reflexivity.
  - reflexivity.
  - reflexivity.
Defined.

(** The temporary directory of an earlier attempt is not removed first: its
    stores become part of the restored snapshot. *)
Definition exLeftover : Disk memlog :=
  mkDisk {[importDir 1 := mkSnapshotDir [("old", filesOf 1 None)] []]} None None (mkLog 0 []).

Lemma leftover_restored :
  match restore exNothing 1 (Ok tt) [Ok (SnapStore "bank")] exLeftover with
  | Some (Ok SnapNone, d') => (fun sd => (sdTrees sd).*1) <$> dirs d' !! snapshotName 1 = Some ["old"; "bank"]
  | _ => False
  end.
Proof. vm_compute. reflexivity. Qed.
