(* ===== verification/VersionRestore.v ===== *)
(** * Restoring the database of versions: [versiondb/client/restore.go]

    The command fills a new database of historical versions from the stream of a
    state-sync snapshot, the messages that [StateSync] has. *)

From S2P Require Import Prelude KV Binary Sha256 Node Hash Snapshot Persisted Tree Export Import TreeImport.
From S2P Require Import Proto Wal MultiTree MultiSnapshot SnapshotName.
From S2P Require Import Db DbDisk NameSort DbHistory DbPending DbInv DbStep DbTasks DbLoad DbRun DbProps StateSync.
From S2P Require Import VersionStore VersionIter.
From Stdlib Require Import Strings.Byte.

Open Scope string_scope.
Open Scope Z_scope.
Open Scope list_scope.

(** The entries sent to the channel, and the error.  [Wrap] of the SDK's errors
    returns nil for a nil error, so that a node before the name of a store ends
    the loop without an error. *)
Fixpoint readSnapshotEntries (msgs : list (result SnapshotItem)) (storeKey : string)
    : list ImportEntry * result unit :=
  match msgs with
  | [] => ([], Ok tt)
  | Err e :: _ => ([], Err ("invalid protobuf message: " ++ e)%string)
  | Ok m :: msgs =>
      match m with
      | SnapStore name => readSnapshotEntries msgs name
      | SnapIAVL key value version height =>
          if bool_decide (storeKey = EmptyString) then ([], Ok tt)
          else if MaxInt8 <? height then ([], Err "node height cannot exceed")
          else
            let '(entries, r) := readSnapshotEntries msgs storeKey in
            (mkImport storeKey (default [] key) (default [] value) :: entries, r)
      | SnapOther _ | SnapNone => ([], Ok tt)
      end
  end.

(** What the command does with the stream: a failure to read it is only logged. *)
Definition RestoreVersionDB `{TSDB D} (height : Z) (msgs : list (result SnapshotItem)) (d : D) : result D :=
  let '(entries, _) := readSnapshotEntries msgs EmptyString in
  VersionIter.Import height entries d.

(** A stream that breaks off is taken as if it had ended. *)
Lemma broken_stream_accepted `{TSDB D} height msgs e rest (d : D) :
  RestoreVersionDB height (msgs ++ Err e :: rest) d = RestoreVersionDB height msgs d.
Proof.
  unfold RestoreVersionDB.
  assert (forall name, (readSnapshotEntries (msgs ++ Err e :: rest) name).1 = (readSnapshotEntries msgs name).1) as Hs.
  { induction msgs as [|[[n|key value version h| |]|] msgs IH]; intros name; try done; cbn [readSnapshotEntries app]; [apply IH|].
    case_bool_decide; [done|]. destruct (MaxInt8 <? h); [done|]. specialize (IH name).
    destruct (readSnapshotEntries (msgs ++ _) name), (readSnapshotEntries msgs name). cbn in *. by rewrite IH. }
  specialize (Hs EmptyString). destruct (readSnapshotEntries (msgs ++ _) _), (readSnapshotEntries msgs _). cbn in Hs. by rewrite Hs.
Qed.

(** ** What a restored database answers *)

Section Values.
Context {D : Type} `{LawsD : TSDBLaws D}.
Implicit Types (d : D).

Definition empty_db d : Prop := (forall k t, db_entry d k t = None) /\ db_plain d = None.

(** The value that a list of entries leaves for a key. *)
Definition putValue (store : string) (key : bytes) (acc : option bytes) (e : ImportEntry) : option bytes :=
  if bool_decide (imStore e = store /\ imKey e = key) then Some (imValue e) else acc.

Definition imported (store : string) (key : bytes) (entries : list ImportEntry) : option bytes :=
  foldl (putValue store key) None entries.

Lemma puts_value store key v t entries acc :
  plain_name store -> Forall (fun e => plain_name (imStore e)) entries ->
  foldl (opEntry (prependStoreKey store key) t) (if t =? v then Some <$> acc else None)
    ((fun e => OpPut (storePrefix (imStore e) ++ imKey e) v (imValue e)) <$> entries) =
  if t =? v then Some <$> foldl (putValue store key) acc entries else None.
Proof.
  intros Hst Hall. revert acc. induction Hall as [|e entries He _ IH]; intros acc; [done|].
  cbn [fmap list_fmap foldl]. rewrite <- IH. f_equal. cbn [opEntry]. unfold putValue.
  change (storePrefix (imStore e) ++ imKey e) with (prependStoreKey (imStore e) (imKey e)).
  destruct (bool_decide_reflect (prependStoreKey (imStore e) (imKey e) = prependStoreKey store key /\ v = t)) as [[E ->]|Hn].
  - apply prependStoreKey_inj in E as [Es Ek]; [|done..]. rewrite bool_decide_true by done. by rewrite Z.eqb_refl.
  - case_bool_decide as Hb; [|done]. destruct Hb as [<- <-]. destruct (Z.eqb_spec t v) as [->|]; [|done]. by destruct Hn.
Qed.

Lemma restored_reads height entries d d' store key skip ver :
  empty_db d -> 1 <= height < 2 ^ 63 -> plain_name store -> Forall (fun e => plain_name (imStore e)) entries ->
  0 <= ver < 2 ^ 63 -> VersionIter.Import height entries d = Ok d' ->
  GetAtVersion skip d' store key (Some ver) = if height <=? ver then imported store key entries else None.
Proof.
  intros [Hd _] Hh Hst Hall Hver E. apply Import_entries in E as [He _]. rewrite u64_id in He by lia.
  assert (forall t, db_entry d' (prependStoreKey store key) t =
            if t =? height then Some <$> imported store key entries else None) as Hent.
  { intros t. rewrite He, Hd. unfold imported. rewrite <- (puts_value store key height t entries None) by done.
    by destruct (t =? height). }
  unfold GetAtVersion. cbn [readTimestamp]. rewrite u64_id by lia.
  assert (newest (db_entry d' (prependStoreKey store key)) ver
    (if height <=? ver then (fun x => (x, height)) <$> imported store key entries else None)) as Hn.
  { destruct (Z.leb_spec height ver) as [Hle|Hlt].
    - destruct (imported store key entries) as [x|].
      + right. exists height, (Some x). split; [lia|]. rewrite Hent, Z.eqb_refl. split; [done|]. split; [|done].
        intros w Hw. rewrite Hent. by rewrite (proj2 (Z.eqb_neq _ _)) by lia.
      + left. split; [done|]. intros u _. rewrite Hent. by destruct (_ =? _).
    - left. split; [done|]. intros u Hu. rewrite Hent. by rewrite (proj2 (Z.eqb_neq _ _)) by lia. }
  rewrite (newest_unique _ _ _ _ (db_get_newest d' _ _) Hn).
  destruct (height <=? ver); [|done]. destruct (imported store key entries); [|done]. cbn.
  by rewrite (proj2 (Z.eqb_neq _ _)), andb_false_r by lia.
Qed.
End Values.

(** ** The entries of a snapshot *)

Section Stream.
Context {C : Type} `{CacheC : Cache C} `{LawsW : WireLaws}.
Implicit Types (e : NamedTree C) (l : list (NamedTree C)).

Definition nodeEntry (name : string) (n : Node) : ImportEntry := mkImport name (Node.Key n) (default [] (Node.Value n)).

Definition treeEntries e : list ImportEntry := nodeEntry (ntName e) <$> postorder_root (treeRoot (ntTree e)).

Definition in_range (n : Node) : Prop := 0 <= Version n < 2 ^ 32.

Lemma read_nodes name ns rest entries r :
  name <> EmptyString -> Forall in_range ns -> readSnapshotEntries rest name = (entries, r) ->
  readSnapshotEntries ((received ∘ ItemNode ∘ exportNode <$> ns) ++ rest) name = ((nodeEntry name <$> ns) ++ entries, r).
Proof.
  intros Hn Hns Hr. induction Hns as [|n ns Hv _ IH]; [done|]. rewrite !fmap_cons, <- !app_comm_cons.
  change ((received ∘ ItemNode ∘ exportNode) n) with (received (ItemNode (exportNode n))).
  destruct (received_node n Hv) as (k & v & ver & h & -> & Hh & (Ek & _ & _ & Ev)).
  cbn [readSnapshotEntries]. rewrite bool_decide_false by done. rewrite (proj2 (Z.ltb_ge _ _)) by done.
  rewrite IH. unfold nodeEntry at 2. cbn [eKey eValue msgNode exportNode] in Ek, Ev. rewrite <- Ek, <- Ev.
  by destruct (i8 h =? 0).
Qed.

Lemma read_stores l ext m :
  Forall (fun e => ntName e <> EmptyString /\ Forall in_range (postorder_root (treeRoot (ntTree e)))) l ->
  afterStores ext = Some m ->
  forall name, readSnapshotEntries ((received <$> allItems l) ++ ext) name = (l ≫= treeEntries, Ok tt).
Proof.
  intros Hl Hext. induction Hl as [|e l [Hn Hr] _ IH]; intros name.
  { by destruct ext as [|[[]|] ext]. }
  change (allItems (e :: l)) with (itemsOf e ++ allItems l). rewrite fmap_app, <- app_assoc. unfold itemsOf.
  cbn [fmap list_fmap app]. unfold received at 1. cbn [toMsg]. rewrite wire_store. cbn [readSnapshotEntries].
  unfold nodesOf. rewrite <- !list_fmap_compose. exact (read_nodes _ _ _ _ _ Hn Hr (IH (ntName e))).
Qed.

(** A branch comes after its subtrees, with the smallest key of the right one and
    no value, so that every key but the first of a tree ends up empty. *)
Definition restoredValue (kv : kvs) (key : bytes) (acc : option bytes) : option bytes :=
  match kv with
  | [] => acc
  | (k, v) :: rest =>
      if bool_decide (key = k) then Some v else if bool_decide (key ∈ keys rest) then Some [] else acc
  end.

Lemma restoredValue_absent kv key acc : key ∉ keys kv -> restoredValue kv key acc = acc.
Proof.
  destruct kv as [|[k v] rest]; [done|]. cbn [restoredValue keys fmap list_fmap fst]. intros Hn.
  rewrite !bool_decide_false; [done| |]; intros ?; apply Hn; [by right|subst; by left].
Qed.

Lemma tree_values name n key acc :
  keyed n -> NoDup (keys (to_list n)) ->
  foldl (putValue name key) acc (nodeEntry name <$> postorder n) = restoredValue (to_list n) key acc.
Proof.
  revert acc. induction n as [ver k v|h s ver k l IHl r IHr]; intros acc Hk Hnd.
  { cbn. unfold putValue. cbn. rewrite (bool_decide_false (key ∈ [])) by set_solver.
    repeat case_bool_decide; naive_solver. }
  destruct Hk as (Hkl & Hkr & Hhead). cbn [to_list] in *. unfold keys in Hnd. rewrite fmap_app in Hnd.
  apply NoDup_app in Hnd as (Hl & Hdis & Hr). cbn [postorder]. rewrite !fmap_app, !foldl_app, IHl, IHr by done.
  cbn [fmap list_fmap foldl]. unfold putValue, nodeEntry. cbn [imStore imKey imValue Node.Key Node.Value default].
  destruct (to_list l) as [|[k0 v0] restl] eqn:El; [pose proof (to_list_nonempty l); congruence|].
  destruct (to_list r) as [|[k1 v1] restr] eqn:Er; [done|]. injection Hhead as <-.
  assert (key ∈ keys (restl ++ (k1, v1) :: restr) <-> key ∈ keys restl \/ key = k1 \/ key ∈ keys restr) as Hin
    by (unfold keys; rewrite fmap_app, elem_of_app, fmap_cons, elem_of_cons; done).
  cbn [app restoredValue]. rewrite (bool_decide_ext _ _ Hin).
  rewrite !fmap_cons in Hdis. cbn [fst] in Hdis. fold (keys restl) (keys restr) in Hdis.
  repeat case_bool_decide; set_solver.
Qed.
End Stream.

(** ** The restored database *)

Section Restored.
Context {C : Type} `{LawsC : CacheLaws C} {L : Type} `{LawsL : WalLaws L} `{LawsW : WireLaws} {D : Type} `{LawsD : TSDBLaws D}.
Implicit Types (e : NamedTree C) (l : list (NamedTree C)).

Lemma other_store name key acc e :
  ntName e <> name -> foldl (putValue name key) acc (treeEntries e) = acc.
Proof.
  intros Hn. unfold treeEntries. induction (postorder_root _) as [|n ns IH]; [done|]. cbn.
  unfold putValue at 2. rewrite bool_decide_false; [exact IH|]. by intros [? _].
Qed.

Lemma other_stores name key acc l :
  name ∉ names l -> foldl (putValue name key) acc (l ≫= treeEntries) = acc.
Proof.
  revert acc. induction l as [|e l IH]; intros acc Hn; [done|]. cbn [mbind list_bind]. rewrite foldl_app.
  rewrite other_store; [apply IH|]; set_solver.
Qed.

Lemma stores_values l e key :
  NoDup (names l) -> e ∈ l -> wf_root (treeRoot (ntTree e)) ->
  imported (ntName e) key (l ≫= treeEntries) = restoredValue (content (treeRoot (ntTree e))) key None.
Proof.
  intros Hnd (l1 & l2 & ->)%list_elem_of_split Hwf. unfold names in Hnd. rewrite fmap_app, fmap_cons in Hnd.
  apply NoDup_app in Hnd as (_ & Hd1 & [Hd2 _]%NoDup_cons). unfold imported.
  rewrite bind_app, bind_cons, !foldl_app.
  rewrite (other_stores _ _ _ l2) by done. rewrite other_stores by (intros Hin; apply (Hd1 _ Hin); left). unfold treeEntries. destruct (treeRoot (ntTree e)) as [n|]; [|done].
  destruct Hwf as (_ & Hk & Hs). apply tree_values; [done|]. by apply sorted_NoDup.
Qed.

Lemma storable_sent l :
  Forall (fun e => storable_root (treeRoot (ntTree e))) l -> Forall (fun n => n <> EmptyString) (names l) ->
  Forall (fun e => ntName e <> EmptyString /\ Forall in_range (postorder_root (treeRoot (ntTree e)))) l.
Proof.
  intros Hst Hn. unfold names in Hn. rewrite Forall_fmap in Hn. rewrite Forall_forall in *. intros e He. split; [by apply Hn|].
  specialize (Hst e He). destruct (treeRoot (ntTree e)) as [n|]; [|constructor].
  destruct Hst as (_ & Hr & _). by apply postorder_versions.
Qed.

Lemma treeEntries_plain l :
  Forall plain_name (names l) -> Forall (fun x : ImportEntry => plain_name (imStore x)) (l ≫= treeEntries).
Proof.
  induction l as [|e l IH]; [constructor|]. intros [He Hl]%Forall_cons. rewrite bind_cons. apply Forall_app. split; [|by apply IH].
  unfold treeEntries. apply Forall_fmap, Forall_true. intros n. exact He.
Qed.

(** C39: restoring the database of versions from the snapshot of a database.  It
    has no version before the snapshot's, which becomes the latest one, and from
    there on it has exactly the keys of every store; but of the values only that
    of the smallest key of each store: for every other key the inner node that
    starts with it follows its leaf in the stream, is imported as well, and
    overwrites the value with an empty one. *)
Theorem restored_versiondb iv es (s : Sys C L) k support fuel writeMsg tk (d : D) ext m :
  0 <= iv < 2 ^ 32 -> reachable iv (es, s) -> (1 <= k <= length es)%nat ->
  served iv (disk s) k support -> (forall sent, writeMsg sent = Ok tt) ->
  stateAt iv es k tk -> (length (allItems (trees tk)) < fuel)%nat ->
  Forall (fun n => n <> EmptyString) (names (trees tk)) -> Forall plain_name (names (trees tk)) ->
  empty_db d -> afterStores ext = Some m ->
  exists msgs, SnapshotAt (C:=C) fuel writeMsg (disk s) (versionAt iv k) support = Some (Ok msgs) /\
    forall d', RestoreVersionDB (versionAt iv k) ((Ok ∘ wire <$> msgs) ++ ext) d = Ok d' ->
      VersionStore.GetLatestVersion d' = Some (versionAt iv k) /\
      forall e skip key ver, e ∈ trees tk -> 0 <= ver < 2 ^ 63 ->
        GetAtVersion skip d' (ntName e) key (Some ver) =
        if versionAt iv k <=? ver then restoredValue (content (treeRoot (ntTree e))) key None else None.
Proof.
  intros Hiv Hr Hk Hserved Hw Htk Hf Hne Hpl Hd Hext.
  destruct (reachable_inv iv Hiv es s Hr) as (c & Hi).
  pose proof (inv_hist _ _ _ _ Hi) as Hh. pose proof (inv_disk _ _ _ _ Hi) as Hdisk.
  destruct (stateAt_version iv Hiv es k tk Hh ltac:(lia) Htk) as (Ev & _ & Hok & Hst).
  pose proof (versionAt_range iv es k Hh ltac:(lia)) as Hrange.
  pose proof (versionAt_lt iv 0 k ltac:(lia)) as Hpos. change (versionAt iv 0) with 0 in Hpos.
  exists (toMsg <$> allItems (trees tk)). split; [by apply (snapshot_sends iv Hiv es (disk s) c)|].
  intros d' E. unfold RestoreVersionDB in E. rewrite <- list_fmap_compose in E.
  change (Ok ∘ wire ∘ toMsg <$> allItems (trees tk)) with (received <$> allItems (trees tk)) in E.
  rewrite (read_stores (trees tk) ext m (storable_sent _ (proj1 Hst) Hne) Hext) in E. split.
  - apply Import_entries in E as [_ E]. unfold VersionStore.GetLatestVersion. rewrite E. apply latest_decoded. lia.
  - intros e skip key ver He Hver. pose proof Hok as ((nm & _ & Hidx) & _). apply (list_elem_of_fmap_2 ntName) in He as Hin.
    rewrite (restored_reads (versionAt iv k) _ _ _ _ _ _ _ Hd ltac:(lia)
      (proj1 (Forall_forall _ _) Hpl _ Hin) (treeEntries_plain _ Hpl) Hver E).
    rewrite stores_values; [done|by eapply indexed_NoDup|done|].
    destruct Hst as [Hall _]. rewrite Forall_forall in Hall. specialize (Hall e He).
    destruct (treeRoot (ntTree e)); [|done]. apply Hall.
Qed.
End Restored.

(** *** An example: two keys *)

Definition exTwo : Node := Branch 1 2 1 [x02] (Leaf 1 [x01] [x0a]) (Leaf 1 [x02] [x0b]).

(** The key of the second leaf is there, its value is not. *)
Lemma second_value_lost :
  match RestoreVersionDB 1 (received <$> allItems [mkNamed (mkTree (C:=slot) 1 (Some exTwo) None None true) "bank"]) ([] : memdb) with
  | Ok d => GetAtVersion true d "bank" [x01] (Some 1) = Some [x0a] /\ GetAtVersion true d "bank" [x02] (Some 1) = Some []
  | Err _ => False
  end.
Proof. vm_compute. done. Qed.

Lemma restored_versiondb_witness :
  exists msgs, SnapshotAt (C:=slot) 10 (fun _ => Ok tt) (disk exBank) 1 true = Some (Ok msgs) /\
    forall d', RestoreVersionDB 1 ((Ok ∘ wire <$> msgs) ++ []) ([] : memdb) = Ok d' ->
      VersionStore.GetLatestVersion d' = Some 1 /\ GetAtVersion true d' "bank" [x01] (Some 5) = Some [x0b].
Proof.
  destruct (restored_versiondb 1 [exEntry] exBank 1 true 10 (fun _ => Ok tt) exState ([] : memdb) [] SnapNone)
    as (msgs & Es & Hr).
  - lia.
  - exact exBank_reachable.
  - cbn. lia.
  - exists 0%nat. split; [lia|]. split; [vm_compute; by eexists|vm_compute; congruence].
  - reflexivity.
  - vm_compute. reflexivity.
  - rewrite exState_trees. cbn. lia.
  - rewrite exState_trees. by repeat constructor.
  - rewrite exState_trees. constructor; [exact bank_plain|constructor].
  - by split.
  - reflexivity.
  - exists msgs. split; [exact Es|]. intros d' E. destruct (Hr d' E) as [Hl Hg]. split; [exact Hl|].
    rewrite exState_trees in Hg. apply (Hg _ true [x01] 5 ltac:(left)). lia.
Defined.
