(* ===== verification/Verify.v ===== *)
(** * Verification of dumped change sets: [versiondb/client/verify.go]

    The command replays the change set files of every store on trees of the
    storage engine and computes the commit info of the last version. *)

From S2P Require Import Prelude KV Binary Sha256 Node Hash Snapshot Persisted Tree Proto GoIO ChangeSetFile ExtSort.
From S2P Require Import SorterItem VersionStore Convert MultiTree DbDisk NameSort.
From Stdlib Require Import Strings.Byte.

Open Scope string_scope.
Open Scope Z_scope.
Open Scope list_scope.

Section Verify.
Context {C : Type} `{CacheC : Cache C}.
Context (os_Open : string -> result bytes) (stdin : bytes) (unzlib unsnappy : bytes -> result bytes).
Context (os_ReadDir : string -> result (list string)) (sortFiles : list FileWithVersion -> list FileWithVersion).
Implicit Types (t : Tree C).

(** The callback for a change set, on the tree; [None] is a panic. *)
Definition verifyChangeSet (targetVersion : Z) (tree : option (Tree C)) (v : Z) (changeSet : ChangeSet)
    : option (Tree C) * result bool :=
  match tree with
  | None => (None, Ok false)
  | Some t =>
      if v <=? version t then (Some t, Ok true)
      else
        match ApplyChangeSet t changeSet with
        | None => (None, Ok false)
        | Some t =>
            match SaveVersion t false with
            | Err e => (Some t, Err e)
            | Ok (_, v', t) =>
                if negb (v' =? v) then (Some t, Err "version don't match")
                else (Some t, Ok ((targetVersion =? 0) || (v' <? targetVersion)))
            end
        end
  end.

(** The loop over the files. *)
Fixpoint verifyFiles (targetVersion : Z) (files : list FileWithVersion) t : option (result (Tree C)) :=
  match files with
  | [] => Some (Ok t)
  | file :: files =>
      if (0 <? targetVersion) && (u64 targetVersion <? FileVersion file) then Some (Ok t)
      else
        match openChangeSetFile os_Open stdin unzlib unsnappy (FileName file) with
        | Err e => Some (Err e)
        | Ok reader =>
            '(tree, _, err) ← IterateChangeSets (verifyChangeSet targetVersion) reader (Some t);
            t ← tree;
            match err with
            | Some e => Some (Err e)
            | None =>
                if (0 <? targetVersion) && (targetVersion <=? version t) then Some (Ok t)
                else verifyFiles targetVersion files t
            end
        end
  end.

Definition SizeHash : nat := 32.

Definition lastCommitID t : CommitID :=
  mkCommitID (version t) (take SizeHash (RootHash t ++ replicate SizeHash x00)).

(** The store info with the tree, whose snapshot is what is saved on request;
    [None] inside the result when there is nothing up to the target. *)
Definition verifyOneStore t (store changeSetDir : string) (targetVersion : Z)
    : option (result (option (StoreInfo * Tree C))) :=
  r ← scanChangeSetFiles os_Open stdin unzlib unsnappy os_ReadDir sortFiles changeSetDir store;
  match r with
  | Err e => Some (Err e)
  | Ok [] => Some (Ok None)
  | Ok (first :: rest) =>
      let initialVersion := FileVersion first in
      if (0 <? targetVersion) && (u64 targetVersion <? initialVersion) then Some (Ok None)
      else
        match SetInitialVersion t (i64 initialVersion) with
        | Err e => Some (Err e)
        | Ok t =>
            r ← verifyFiles targetVersion (first :: rest) t;
            Some (t ← r; Ok (Some (mkStoreInfo store (lastCommitID t), t)))
        end
  end.

(** [buildCommitInfo]: its second argument is not used; without a store it
    panics. *)
Definition verifiedCommitInfo (storeInfos : list StoreInfo) (version : Z) : option CommitInfo :=
  let storeInfos := sortBy siName storeInfos in
  first ← head storeInfos;
  Some (mkCommitInfo (cidVersion (siCommitId first)) storeInfos).
End Verify.

(** ** Iteration with a callback that can stop *)

Section Run.
Context {S : Type} (fn : S -> Z -> ChangeSet -> S * result bool).



End Run.

(** ** What is replayed *)

Section Replay.
Context {C : Type} `{LawsC : CacheLaws C}.
Implicit Types (t : Tree C) (l : list (Z * ChangeSet)).


Fixpoint consecutive (v : Z) l : Prop :=
  match l with [] => True | x :: l => x.1 = v /\ consecutive (v + 1) l end.



Lemma consecutive_ge v l x : consecutive v l -> x ∈ l -> v <= x.1 <= v + zlen l - 1.
Proof.
  revert v. induction l as [|y l IH]; intros v; [set_solver|]. intros [Hy Hc] [->|Hx]%elem_of_cons; cbn [length]; [lia|].
  specialize (IH _ Hc Hx). lia.
Qed.







End Replay.

(** ** The files of a store *)



Section Files.
Context {C : Type} `{LawsC : CacheLaws C}.
Context (os_Open : string -> result bytes) (stdin : bytes) (unzlib unsnappy : bytes -> result bytes).
Context (os_ReadDir : string -> result (list string)) (sortFiles : list FileWithVersion -> list FileWithVersion).
Implicit Types (t : Tree C).

(** A file with the change sets it holds, in the order of their versions. *)
Abbreviation setFile := (string * list (Z * ChangeSet))%type.



Definition run_file (dir : string) (f : setFile) : Prop :=
  holds os_Open stdin unzlib unsnappy (dir +:+ "/" +:+ f.1) f.2 /\ f.2 <> [].




(** The directory holds a history, cut into files that are listed in any order. *)
Definition dumped_runs (dir : string) (hist : list (Z * ChangeSet)) : Prop :=
  exists (fs l : list setFile), os_ReadDir dir = Ok l.*1 /\ l ≡ₚ fs /\ Forall (run_file dir) fs /\ concat fs.*2 = hist.

(** The same with at least one file; [first] is the part of the history in the
    first. *)
Definition dumped_from (dir : string) (first hist : list (Z * ChangeSet)) : Prop :=
  exists (name : string) (fs l : list setFile), os_ReadDir dir = Ok l.*1 /\ l ≡ₚ (name, first) :: fs /\
    Forall (run_file dir) ((name, first) :: fs) /\ concat ((name, first) :: fs).*2 = hist.

Lemma dumped_runs_from dir hist : dumped_runs dir hist -> hist <> [] -> exists first, dumped_from dir first hist.
Proof.
  intros (fs & l & Hd & Hp & Hf & Hh) Hne. destruct fs as [|[name first] fs]; [by rewrite <- Hh in Hne|].
  exists first, name, fs, l. by split_and!.
Qed.









End Files.

(** ** An example: two files *)

Definition exSet (v : Z) : Z * ChangeSet := (v, [mkPair false [x01] (Some [byte_of_Z v])]).


Definition exSortFiles : list FileWithVersion -> list FileWithVersion :=
  merge_sort (fun a b => FileVersion a <= FileVersion b) (H := fun a b => decide (FileVersion a <= FileVersion b)).

Definition exNewTree (v : Z) : Tree slot := mkTree v None None None true.




(** A tree that is already at the target version gets one more change set. *)
Lemma target_overrun :
  match verifyOneStore (fun _ => Ok (setBytes (exSet 1) ++ setBytes (exSet 2))) [] Ok Ok (fun _ => Ok ["b1"]) exSortFiles
    (exNewTree 1) "bank" "cs" 1 with
  | Some (Ok (Some (info, _))) => cidVersion (siCommitId info) = 2
  | _ => False
  end.
Proof. vm_compute. reflexivity. Qed.
