(* ===== verification/Dump.v ===== *)
(** * Dumping the change sets of a store: [versiondb/client/dump.go]

    The command extracts the change sets of a range of versions from an [iavl]
    tree: the range is cut into chunks, a chunk into a task per worker, and the
    outputs of the tasks are put together into one file per chunk.  The tree is
    a parameter, as are snappy and zlib. *)

From S2P Require Import Prelude KV Binary Tree Proto GoIO ChangeSetFile ExtSort SorterItem VersionStore Convert ConvertProps MultiTree DbDisk Verify.
From stdpp Require Import pretty.
From Stdlib Require Import Strings.Byte.

Open Scope string_scope.
Open Scope Z_scope.
Open Scope list_scope.

Record Range := mkRange { Start : Z; End : Z }.

(** The loop [for i := ...; i < end; i += chunkSize] with the end of each part;
    [None] when it does not end. *)
Fixpoint cutRange (fuel : nat) (i chunkSize last : Z) : option (list Range) :=
  match fuel with
  | O => None
  | S fuel =>
      if i <? last then
        let stop := i64 (i + chunkSize) in
        let stop := if last <? stop then last else stop in
        rest ← cutRange fuel (i64 (i + chunkSize)) chunkSize last;
        Some (mkRange i stop :: rest)
      else Some []
  end.

Definition splitWorkLoad (workers : Z) (full : Range) : option (list Range) :=
  if workers =? 0 then None
  else
    let chunkSize := Z.quot (i64 (End full - Start full + workers - 1)) workers in
    cutRange (S (Z.to_nat (End full - Start full))) (Start full) chunkSize (End full).

Section Dump.
(** [TraverseStateChanges] of the tree, for the versions of a closed range. *)
Context (traverse : Z -> Z -> result (list (Z * ChangeSet))).
(** Snappy for the files of the tasks, zlib at a level for the output. *)
Context (compress decompress : bytes -> bytes) (zlib : Z -> bytes -> result bytes).

(** The file of a task. *)
Definition dumpRangeBlocks (blockRange : Range) : option (result bytes) :=
  match traverse (Start blockRange) (i64 (End blockRange - 1)) with
  | Err e => Some (Err e)
  | Ok sets => bs ← mapM (fun x => WriteChangeSet x.1 x.2) sets; Some (Ok (compress (concat bs)))
  end.

(** The tasks of a chunk; an error of one of them fails the group. *)
Fixpoint dumpTasks (ranges : list Range) : option (result (list bytes)) :=
  match ranges with
  | [] => Some (Ok [])
  | r :: ranges =>
      x ← dumpRangeBlocks r;
      rest ← dumpTasks ranges;
      Some (file ← x; files ← rest; Ok (file :: files))
  end.

(** [collect]: the name and the content of the file of a chunk. *)
Definition collect (beginVersion zlibLevel : Z) (taskFiles : list bytes) : result (string * bytes) :=
  let data := concat (decompress <$> taskFiles) in
  let output := "block-" +:+ pretty beginVersion in
  if 0 <? zlibLevel then bz ← zlib zlibLevel data; Ok (output +:+ ".zz", bz)
  else Ok (output, data).

Fixpoint dumpChunks (concurrency zlibLevel : Z) (chunks : list Range) : option (result (list (string * bytes))) :=
  match chunks with
  | [] => Some (Ok [])
  | c :: chunks =>
      ranges ← splitWorkLoad concurrency c;
      tasks ← dumpTasks ranges;
      rest ← dumpChunks concurrency zlibLevel chunks;
      Some (tasks ← tasks; file ← collect (Start c) zlibLevel tasks; files ← rest; Ok (file :: files))
  end.

(** The files of a store, for the versions from the start to before the end. *)
Definition dumpStore (startVersion endVersion chunkSize concurrency zlibLevel : Z)
    : option (result (list (string * bytes))) :=
  chunks ← cutRange (S (Z.to_nat (endVersion - startVersion))) startVersion chunkSize endVersion;
  dumpChunks concurrency zlibLevel chunks.
End Dump.

(** ** Cutting ranges *)

(** Parts that are not empty and follow each other from one end to the other. *)
Fixpoint tiles (s e : Z) (l : list Range) : Prop :=
  match l with
  | [] => s = e
  | r :: l => Start r = s /\ s < End r <= e /\ tiles (End r) e l
  end.

Lemma cutRange_tiles fuel i n last :
  0 < n -> - 2 ^ 62 <= i <= last -> last + n < 2 ^ 63 -> last - i < Z.of_nat fuel ->
  exists l, cutRange fuel i n last = Some l /\ tiles i last l.
Proof.
  intros Hn. revert i. induction fuel as [|fuel IH]; intros i Hi Hmax Hf; [lia|]. cbn [cutRange].
  destruct (Z.ltb_spec i last) as [Hlt|Hge]; [|exists []; split; [done|cbn; lia]].
  rewrite i64_id by lia. destruct (Z.ltb_spec last (i + n)) as [Hend|Hend].
  - destruct fuel as [|fuel]; [lia|]. cbn [cutRange]. rewrite (proj2 (Z.ltb_ge _ _)) by lia. cbn [mbind option_bind].
    eexists. split; [done|]. cbn. lia.
  - destruct (IH (i + n) ltac:(lia) Hmax ltac:(lia)) as (l & -> & Ht). cbn [mbind option_bind].
    eexists. split; [done|]. cbn. split; [done|]. split; [lia|done].
Qed.

(** The work of a range is divided without gap or overlap among the workers. *)
Lemma splitWorkLoad_tiles workers full :
  0 < workers < 2 ^ 60 -> - 2 ^ 61 <= Start full < End full -> End full < 2 ^ 61 ->
  exists l, splitWorkLoad workers full = Some l /\ tiles (Start full) (End full) l.
Proof.
  intros Hw Hs He. unfold splitWorkLoad. rewrite (proj2 (Z.eqb_neq _ _)) by lia. rewrite i64_id by lia.
  rewrite Z.quot_div_nonneg by lia.
  assert (1 <= (End full - Start full + workers - 1) / workers) by (apply Z.div_le_lower_bound; lia).
  assert ((End full - Start full + workers - 1) / workers <= End full - Start full + workers - 1) by (apply Z.div_le_upper_bound; nia).
  apply cutRange_tiles; lia.
Qed.

(** ** What is dumped *)

(** The change sets of a range of versions. *)
Definition between (a b : Z) (hist : list (Z * ChangeSet)) : list (Z * ChangeSet) :=
  filter (fun x : Z * ChangeSet => a <= x.1 < b) hist.

Lemma between_split a b c hist v :
  consecutive v hist -> a <= b <= c -> between a c hist = between a b hist ++ between b c hist.
Proof.
  intros Hc Hab. revert v Hc. induction hist as [|x hist IH]; intros v; [done|]. intros [Hx Hc]. unfold between in *.
  rewrite !filter_cons, (IH (v + 1) Hc). destruct (decide (a <= x.1 < b)).
  - rewrite (decide_True (P := a <= x.1 < c)) by lia. rewrite decide_False by lia. done.
  - destruct (decide (b <= x.1 < c)).
    + rewrite decide_True by lia.
      assert (filter (fun x : Z * ChangeSet => a <= x.1 < b) hist = []) as ->; [|done].
      clear IH. assert (b <= v + 1) as Hb by lia. revert Hb Hc. generalize (v + 1). clear -Hab.
      induction hist as [|y hist IH]; intros u Hu; [done|]. intros [Hy Hc]. rewrite filter_cons_False by lia. apply (IH (u + 1)); [lia|done].
    + by rewrite decide_False by lia.
Qed.

Lemma between_nil a hist : between a a hist = [].
Proof. unfold between. induction hist as [|x hist IH]; [done|]. by rewrite filter_cons_False by lia. Qed.

Lemma tiles_le s e l : tiles s e l -> s <= e.
Proof. destruct l as [|r l]; cbn; lia. Qed.

Lemma tiles_between s e l hist v :
  consecutive v hist -> tiles s e l -> concat ((fun r => between (Start r) (End r) hist) <$> l) = between s e hist.
Proof.
  intros Hc. revert s. induction l as [|r l IH]; intros s; cbn [tiles fmap list_fmap concat]; [intros ->; by rewrite between_nil|].
  intros (<- & Hr & Ht). pose proof (tiles_le _ _ _ Ht). rewrite (between_split (Start r) (End r) e hist v) by (done || lia). f_equal. by apply IH.
Qed.

(** The versions of a history that starts at [v]. *)
Lemma between_nonempty a b hist v :
  consecutive v hist -> v <= a < b -> a < v + zlen hist -> between a b hist <> [].
Proof.
  intros Hc Ha Hlen. assert (exists x, x ∈ hist /\ x.1 = a) as (x & Hx & Ex).
  { revert v Hc Ha Hlen. induction hist as [|y hist IH]; intros v; cbn [length]; [lia|]. intros [Hy Hc] Ha Hlen.
    destruct (decide (a = v)) as [->|Hne]; [exists y; split; [left|done]|].
    destruct (IH (v + 1) Hc ltac:(lia) ltac:(lia)) as (x & Hx & Ex). exists x. split; [by right|done]. }
  intros E. eapply (filter_nil_not_elem_of (fun x : Z * ChangeSet => a <= x.1 < b) hist x E); [lia|done].
Qed.

Lemma between_all hist v : consecutive v hist -> between v (v + zlen hist) hist = hist.
Proof.
  intros Hc. unfold between. assert (forall x, x ∈ hist -> v <= x.1 < v + zlen hist) as Hall
    by (intros x Hx; pose proof (consecutive_ge v hist x Hc Hx); lia). clear Hc.
  generalize (v + zlen hist) as u, Hall. clear Hall. induction hist as [|x hist IH]; intros u Hall; [done|].
  rewrite filter_cons_True by (apply Hall; left). f_equal. apply IH. intros y Hy. apply Hall. by right.
Qed.

(** ** Names *)

(** A number in decimal ends with a digit. *)
Lemma pretty_N_go_tail x s : exists p, bytes_of_string (pretty_N_go x s) = p ++ bytes_of_string s.
Proof.
  revert s. induction (N.lt_wf_0 x) as [x _ IH]; intros s. destruct (decide (0 < x)%N) as [Hx|Hx].
  - rewrite pretty_N_go_step by done. destruct (IH (x `div` 10)%N (N.div_lt x 10 Hx eq_refl) (String (pretty_N_char (x `mod` 10)) s)) as (p & ->).
    exists (p ++ [Ascii.byte_of_ascii (pretty_N_char (x `mod` 10))]). by rewrite <- app_assoc.
  - assert (x = 0%N) as -> by lia. by exists [].
Qed.

Lemma pretty_last (v : Z) : 0 < v -> exists p d, bytes_of_string (pretty v) = p ++ [Ascii.byte_of_ascii (pretty_N_char d)].
Proof.
  intros Hv. destruct v as [|n|n]; [lia| |lia]. change (pretty (Z.pos n)) with (pretty_N_go (N.pos n) EmptyString).
  rewrite pretty_N_go_step by done.
  destruct (pretty_N_go_tail (N.pos n `div` 10)%N (String (pretty_N_char (N.pos n `mod` 10)) EmptyString)) as (p & ->). by exists p, (N.pos n `mod` 10)%N.
Qed.

Lemma digit_not_suffix d : Ascii.byte_of_ascii (pretty_N_char d) <> x7a /\ Ascii.byte_of_ascii (pretty_N_char d) <> x79.
Proof. unfold pretty_N_char. by repeat case_match. Qed.

Definition blockName (zlibLevel v : Z) : string :=
  if 0 <? zlibLevel then ("block-" +:+ pretty v) +:+ ".zz" else "block-" +:+ pretty v.

Lemma plain_suffix dir v suffix b :
  0 < v -> last (bytes_of_string suffix) = Some b -> b = x7a \/ b = x79 ->
  HasSuffix (dir +:+ "/" +:+ "block-" +:+ pretty v) suffix = false.
Proof.
  intros Hv Hlast Hb. apply bool_decide_eq_false. intros [k E]. destruct (pretty_last v Hv) as (p & d & Ep).
  rewrite !bytes_of_string_app, Ep in E. apply (f_equal last) in E. rewrite !app_assoc, last_snoc in E.
  rewrite last_app, Hlast in E. injection E as E. destruct (digit_not_suffix d) as [H1 H2]. destruct Hb as [->| ->]; congruence.
Qed.

(** ** The dump of a history *)

Section Dumped.
Context (traverse : Z -> Z -> result (list (Z * ChangeSet))).
Context (compress decompress : bytes -> bytes) (zlib : Z -> bytes -> result bytes) (unzlib : bytes -> result bytes).
Context (iv : Z) (hist : list (Z * ChangeSet)).

(** The tree has the change sets of the history; snappy and zlib read back what
    they wrote, at the levels of zlib. *)
Definition sources_ok : Prop :=
  (forall a b, iv <= a <= b -> b < iv + zlen hist -> traverse a b = Ok (between a (b + 1) hist)) /\
  lossless compress decompress /\
  (forall level data, 1 <= level <= 9 -> exists bz, zlib level data = Ok bz /\ unzlib bz = Ok data).

Hypothesis Hsrc : sources_ok.
Hypothesis Hcons : consecutive iv hist.
Hypothesis Hrange : 1 <= iv /\ iv + zlen hist < 2 ^ 61.
Hypothesis Hsets : Forall set_ok hist.

Lemma between_sets a b : Forall set_ok (between a b hist).
Proof. apply Forall_forall. intros x [_ Hx]%list_elem_of_filter. by apply (proj1 (Forall_forall _ _) Hsets). Qed.

Lemma dumpRange_ok r :
  iv <= Start r < End r -> End r <= iv + zlen hist ->
  dumpRangeBlocks traverse compress r = Some (Ok (compress (concat (setBytes <$> between (Start r) (End r) hist)))).
Proof.
  intros Hr He. unfold dumpRangeBlocks. destruct Hsrc as [Ht _]. rewrite i64_id by lia. rewrite Ht by lia.
  replace (End r - 1 + 1) with (End r) by lia.
  assert (mapM (fun x : Z * ChangeSet => WriteChangeSet x.1 x.2) (between (Start r) (End r) hist) =
    Some (setBytes <$> between (Start r) (End r) hist)) as ->; [|done].
  apply mapM_Some, Forall2_fmap_r, Forall_Forall2_diag. eapply Forall_impl; [apply between_sets|]. intros [v cs]. apply WriteChangeSet_bytes.
Qed.

Lemma dumpTasks_ok l s e :
  tiles s e l -> iv <= s -> e <= iv + zlen hist ->
  exists files, dumpTasks traverse compress l = Some (Ok files) /\
    concat (decompress <$> files) = concat (setBytes <$> between s e hist).
Proof.
  revert s. induction l as [|r l IH]; intros s; cbn [tiles dumpTasks].
  { intros -> _ _. exists []. by rewrite between_nil. }
  intros (<- & Hr & Ht) Hs He. pose proof (tiles_le _ _ _ Ht). rewrite dumpRange_ok by lia. cbn [mbind option_bind].
  destruct (IH (End r) Ht ltac:(lia) He) as (files & -> & Ef). cbn [mbind option_bind result_bind].
  eexists. split; [done|]. rewrite fmap_cons. cbn [concat]. rewrite Ef, (proj1 (proj2 Hsrc)).
  by rewrite (between_split (Start r) (End r) e hist iv), fmap_app, concat_app by (done || lia).
Qed.

(** What reading a file of the dump gives. *)
Definition unpack (zlibLevel : Z) (bz : bytes) : result bytes := if 0 <? zlibLevel then unzlib bz else Ok bz.

Definition chunkFile (zlibLevel : Z) (c : Range) (f : string * bytes) : Prop :=
  f.1 = blockName zlibLevel (Start c) /\ unpack zlibLevel f.2 = Ok (concat (setBytes <$> between (Start c) (End c) hist)).

Lemma collect_ok zlibLevel c tasks :
  zlibLevel <= 9 -> concat (decompress <$> tasks) = concat (setBytes <$> between (Start c) (End c) hist) ->
  exists f, collect decompress zlib (Start c) zlibLevel tasks = Ok f /\ chunkFile zlibLevel c f.
Proof.
  intros Hz Hd. unfold collect, chunkFile, unpack, blockName. rewrite Hd. destruct (Z.ltb_spec 0 zlibLevel).
  - destruct (proj2 (proj2 Hsrc) zlibLevel (concat (setBytes <$> between (Start c) (End c) hist))) as (bz & -> & E); [lia|].
    by eexists.
  - by eexists.
Qed.

Lemma dumpChunks_ok concurrency zlibLevel l s e :
  0 < concurrency < 2 ^ 60 -> zlibLevel <= 9 -> tiles s e l -> iv <= s -> e <= iv + zlen hist ->
  exists files, dumpChunks traverse compress decompress zlib concurrency zlibLevel l = Some (Ok files) /\
    Forall2 (chunkFile zlibLevel) l files.
Proof.
  intros Hc Hz. revert s. induction l as [|c l IH]; intros s; cbn [tiles dumpChunks]; [by exists []|].
  intros (<- & Hr & Ht) Hs He. pose proof (tiles_le _ _ _ Ht).
  destruct (splitWorkLoad_tiles concurrency c) as (ranges & -> & Htr); [lia..|]. cbn [mbind option_bind].
  destruct (dumpTasks_ok ranges (Start c) (End c) Htr Hs ltac:(lia)) as (tasks & -> & Et). cbn [mbind option_bind].
  destruct (IH (End c) Ht ltac:(lia) He) as (files & -> & Hf). cbn [mbind option_bind result_bind].
  destruct (collect_ok zlibLevel c tasks Hz Et) as (f & -> & Hcf). cbn [mbind result_bind]. exists (f :: files). split; [done|by constructor].
Qed.
End Dumped.

Lemma block_opens os_Open stdin unzlib unsnappy dir zlibLevel v bz data :
  0 < v -> os_Open (dir +:+ "/" +:+ blockName zlibLevel v) = Ok bz -> unpack unzlib zlibLevel bz = Ok data ->
  openChangeSetFile os_Open stdin unzlib unsnappy (dir +:+ "/" +:+ blockName zlibLevel v) = Ok data.
Proof.
  intros Hv Ho Hu. unfold openChangeSetFile. rewrite bool_decide_false.
  2: { intros E. apply (f_equal (fun s => length (bytes_of_string s))) in E. rewrite !bytes_of_string_app, !length_app in E.
       assert (length (bytes_of_string "block-") <= length (bytes_of_string (blockName zlibLevel v)))%nat
         by (unfold blockName; destruct (0 <? zlibLevel); rewrite !bytes_of_string_app, !length_app; lia).
       change (length (bytes_of_string "block-")) with 6%nat in *. change (length (bytes_of_string "-")) with 1%nat in E. lia. }
  rewrite Ho. cbn [mbind result_bind]. unfold unpack, blockName in *. destruct (0 <? zlibLevel).
  - assert (HasSuffix (dir +:+ "/" +:+ ("block-" +:+ pretty v) +:+ ".zz") ".zz" = true) as ->; [|done].
    apply bool_decide_eq_true. exists (bytes_of_string dir ++ bytes_of_string "/" ++ bytes_of_string ("block-" +:+ pretty v)).
    by rewrite !bytes_of_string_app, !app_assoc.
  - rewrite (plain_suffix dir v ".zz" x7a), (plain_suffix dir v ".snappy" x79) by (done || auto). done.
Qed.

Lemma blockName_inj zlibLevel v w : blockName zlibLevel v = blockName zlibLevel w -> v = w.
Proof.
  intros E. apply (inj (pretty (A := Z))), (inj (String.append "block-")). unfold blockName in E.
  destruct (0 <? zlibLevel); [|done]. apply (f_equal (fun s => bytes_of_string s)) in E.
  rewrite (bytes_of_string_app ("block-" +:+ pretty v)), (bytes_of_string_app ("block-" +:+ pretty w)) in E.
  apply app_inv_tail in E. apply (f_equal String.string_of_list_byte) in E. by rewrite !String.string_of_list_byte_of_string in E.
Qed.

Lemma tiles_starts s e l : tiles s e l -> Forall (fun r => s <= Start r < End r /\ End r <= e) l /\ NoDup (Start <$> l).
Proof.
  revert s. induction l as [|r l IH]; intros s; cbn [tiles]; [intros _; split; constructor|]. intros (<- & Hr & Ht).
  destruct (IH (End r) Ht) as [Hall Hnd]. split.
  - constructor; [lia|]. eapply Forall_impl; [exact Hall|]. cbn beta. lia.
  - rewrite fmap_cons. constructor; [|done]. intros (x & Ex & Hx)%list_elem_of_fmap.
    pose proof (proj1 (Forall_forall _ _) Hall x Hx). cbn beta in *. lia.
Qed.

(** The names of the files and the change sets in them. *)
Definition pieces (zlibLevel : Z) (hist : list (Z * ChangeSet)) (l : list Range) : list (string * list (Z * ChangeSet)) :=
  (fun c => (blockName zlibLevel (Start c), between (Start c) (End c) hist)) <$> l.

Lemma pieces_run os_Open stdin unzlib unsnappy dir zlibLevel iv hist l files :
  consecutive iv hist -> 1 <= iv -> Forall set_ok hist -> tiles iv (iv + zlen hist) l ->
  Forall2 (chunkFile unzlib hist zlibLevel) l files -> Forall (fun f => os_Open (dir +:+ "/" +:+ f.1) = Ok f.2) files ->
  Forall (run_file os_Open stdin unzlib unsnappy dir) (pieces zlibLevel hist l).
Proof.
  intros Hc Hiv Hsets Ht Hf Ho. destruct (tiles_starts _ _ _ Ht) as [Hall _]. clear Ht. unfold pieces.
  induction Hf as [|c f l files [En Eu] _ IH]; [constructor|]. apply Forall_cons in Ho as [Ho Hos], Hall as [Hr Hrs].
  rewrite fmap_cons. constructor; [|by apply IH]. rewrite En in Ho. split; cbn [fst snd].
  - split; [by apply (block_opens _ _ _ _ _ _ _ f.2); [lia|..]|by apply between_sets].
  - apply (between_nonempty _ _ _ iv); [done|lia..].
Qed.

(** C37: dumping the change sets of a store.  However the range of versions is cut
    into chunks and these among workers, the command ends, the files have
    different names, and together, in whatever order they are listed, they hold
    every change set of the range exactly once and in order: they are what the
    conversion and the verification of dumped change sets start from. *)
Theorem dump_complete traverse compress decompress zlib unzlib iv hist chunkSize concurrency zlibLevel :
  sources_ok traverse compress decompress zlib unzlib iv hist -> consecutive iv hist ->
  1 <= iv -> iv + zlen hist < 2 ^ 61 -> Forall set_ok hist ->
  0 < chunkSize < 2 ^ 60 -> 0 < concurrency < 2 ^ 60 -> zlibLevel <= 9 ->
  exists files, dumpStore traverse compress decompress zlib iv (iv + zlen hist) chunkSize concurrency zlibLevel = Some (Ok files) /\
    NoDup files.*1 /\
    forall os_Open stdin unsnappy os_ReadDir changeSetDir store names,
      let dir := changeSetDir +:+ "/" +:+ store in
      Forall (fun f => os_Open (dir +:+ "/" +:+ f.1) = Ok f.2) files -> os_ReadDir dir = Ok names -> names ≡ₚ files.*1 ->
      dumped_runs os_Open stdin unzlib unsnappy os_ReadDir dir hist /\
      dumped os_Open stdin unzlib unsnappy os_ReadDir changeSetDir store hist.
Proof.
  intros Hsrc Hc Hiv Hmax Hsets Hchunk Hconc Hz. unfold dumpStore.
  destruct (cutRange_tiles (S (Z.to_nat (iv + zlen hist - iv))) iv chunkSize (iv + zlen hist)) as (l & -> & Ht); [lia..|]. cbn [mbind option_bind].
  destruct (dumpChunks_ok traverse compress decompress zlib unzlib iv hist Hsrc Hc ltac:(lia) Hsets concurrency zlibLevel l iv (iv + zlen hist))
    as (files & -> & Hf); [done..|lia|lia|]. exists files. split; [done|].
  assert (files.*1 = (pieces zlibLevel hist l).*1) as Enames.
  { unfold pieces. rewrite <- list_fmap_compose. clear -Hf. induction Hf as [|c f l files [En _] _ IH]; [done|].
    rewrite !fmap_cons, IH. f_equal. exact En. }
  split.
  - rewrite Enames. unfold pieces. rewrite <- list_fmap_compose. destruct (tiles_starts _ _ _ Ht) as [_ Hnd].
    change (NoDup ((blockName zlibLevel ∘ Start) <$> l)). rewrite list_fmap_compose.
    apply (NoDup_fmap_2_strong (blockName zlibLevel)); [|done]. intros v w _ _. apply blockName_inj.
  - intros os_Open stdin unsnappy os_ReadDir changeSetDir store names Ho Hdir Hp. set (dir := changeSetDir +:+ "/" +:+ store) in *.
    pose proof (pieces_run os_Open stdin unzlib unsnappy dir zlibLevel iv hist l files Hc Hiv Hsets Ht Hf Ho) as Hrun.
    rewrite Enames in Hp. apply Permutation_map_inv in Hp as (l' & En & Hp').
    assert (concat (pieces zlibLevel hist l).*2 = hist) as Ehist.
    { unfold pieces. rewrite <- list_fmap_compose. change (concat ((fun r => between (Start r) (End r) hist) <$> l) = hist).
      rewrite (tiles_between iv (iv + zlen hist) l hist iv) by done. by apply between_all. }
    split.
    + exists (pieces zlibLevel hist l), l'. split; [transitivity (Ok names); [exact Hdir|by rewrite En]|]. by split.
    + exists l'. split; [transitivity (Ok names); [exact Hdir|by rewrite En]|]. split; [|by rewrite <- Hp', Ehist].
      rewrite <- Hp'. eapply Forall_impl; [exact Hrun|]. by intros f [Hh _].
Qed.

(** ** An example: two versions in two chunks *)

Definition exTwoSets : list (Z * ChangeSet) := [exSet 1; exSet 2].

Lemma dump_complete_witness :
  exists files, dumpStore (fun a b => Ok (between a (b + 1) exTwoSets)) (fun b => b) (fun b => b) (fun _ b => Ok b) 1 3 1 2 6 = Some (Ok files) /\
    files.*1 = ["block-1.zz"; "block-2.zz"] /\
    dumped_runs (fun name => if bool_decide (name = "cs/bank/block-1.zz") then Ok (setBytes (exSet 1)) else Ok (setBytes (exSet 2)))
      [] Ok Ok (fun _ => Ok ["block-2.zz"; "block-1.zz"]) "cs/bank" exTwoSets.
Proof.
  destruct (dump_complete (fun a b => Ok (between a (b + 1) exTwoSets)) (fun b => b) (fun b => b) (fun _ b => Ok b) Ok 1 exTwoSets 1 2 6)
    as (files & E & _ & Hd).
  - split; [done|]. split; [done|]. intros level data _. by exists data.
  - done.
  - lia.
  - cbn. lia.
  - repeat constructor; vm_compute; congruence.
  - lia.
  - lia.
  - lia.
  - exists files. split; [exact E|]. vm_compute in E. injection E as <-. split; [reflexivity|].
    apply (Hd _ [] Ok _ "cs" "bank" ["block-2.zz"; "block-1.zz"]); [by repeat constructor|reflexivity|apply Permutation_swap].
Defined.
