(* ===== verification/RootMulti.v ===== *)
(** * The commit multi-store: [store/rootmulti/store.go], [store/memiavlstore/store.go]

    The adapter of the database to the store interfaces of the Cosmos SDK: the
    stores that collect the writes of a block, the flush into the trees, the
    working hash, the commit, loading with upgrades, rolling back, queries with
    proofs.  The other kinds of stores (transient, memory, object) are code of the
    SDK, instances of class [ExtStores].

    Go ranges over a map in any order: where the code does, the order is an
    argument.  A memiavl store holds a pointer to a tree; [Live] is the pointer to
    the database's tree of that name, [Stale] one to a tree the database no longer
    has. *)

From S2P Require Import Prelude KV Binary Sha256 Node Hash Snapshot Persisted Tree Iterator Ics23 Export Import.
From S2P Require Import Proto Wal MultiTree MultiSnapshot SnapshotName.
From S2P Require Import Db DbDisk NameSort DbHistory DbPending DbInv DbStep DbTasks DbLoad DbRun DbProps StateSync.

Open Scope string_scope.
Open Scope Z_scope.
Open Scope list_scope.

(** ** Keys and types of stores *)

Inductive StoreType :=
  | StoreTypeMulti | StoreTypeDB | StoreTypeIAVL | StoreTypeTransient | StoreTypeMemory
  | StoreTypeSMT | StoreTypePersistent | StoreTypeObject.

#[global] Instance StoreType_eq_dec : EqDecision StoreType.
Proof. solve_decision. Defined.

Inductive KeyKind := KVStoreKey | TransientStoreKey | MemoryStoreKey | ObjectStoreKey.

#[global] Instance KeyKind_eq_dec : EqDecision KeyKind.
Proof. solve_decision. Defined.

Definition kindCode (k : KeyKind) : nat :=
  match k with KVStoreKey => 0 | TransientStoreKey => 1 | MemoryStoreKey => 2 | ObjectStoreKey => 3 end.

Definition kindOf (n : nat) : KeyKind :=
  match n with 0%nat => KVStoreKey | 1%nat => TransientStoreKey | 2%nat => MemoryStoreKey | _ => ObjectStoreKey end.

#[global] Instance KeyKind_countable : Countable KeyKind.
Proof. apply (inj_countable' kindCode kindOf). by intros []. Defined.

(** A key is a pointer: keys of equal names may be different keys. *)
Record StoreKey := mkKey { keyId : nat; keyKind : KeyKind; keyName : string }.

#[global] Instance StoreKey_eq_dec : EqDecision StoreKey.
Proof. solve_decision. Defined.

#[global] Instance StoreKey_countable : Countable StoreKey.
Proof.
  apply (inj_countable' (fun k => (keyId k, keyKind k, keyName k)) (fun x => mkKey x.1.1 x.1.2 x.2)).
  by intros [].
Defined.

(** ** Interfaces of the SDK *)

(** The stores that are not memiavl stores. *)
Class ExtStores (E : Type) := {
  newTransientStore : E;
  newMemStore : E;
  newObjStore : E;
  extCommit : E -> E
}.

(** [types.CommitInfo] *)
Record SdkCommitID := mkSdkID { sdkVersion : Z; sdkHash : bytes }.
Record SdkStoreInfo := mkSdkStore { sdkName : string; sdkCommitId : SdkCommitID }.
Record SdkCommitInfo := mkSdkInfo { sdkInfoVersion : Z; sdkStoreInfos : list SdkStoreInfo }.

(** [CommitInfo.Hash]: the root of the Merkle tree over names and root hashes of
    the stores. *)
Class CommitHash := ciHash : SdkCommitInfo -> bytes.

Definition hashed (s : SdkStoreInfo) : string * bytes := (sdkName s, sdkHash (sdkCommitId s)).

Class CommitHashLaws `{CommitHash} : Prop := {
  ciHash_stores a b :
    hashed <$> sdkStoreInfos a = hashed <$> sdkStoreInfos b -> ciHash a = ciHash b
}.

Definition CommitInfoID `{CommitHash} (ci : SdkCommitInfo) : SdkCommitID :=
  mkSdkID (sdkInfoVersion ci) (ciHash ci).

(** ** Commit infos *)

Definition convertCommitInfo (ci : CommitInfo) : SdkCommitInfo :=
  mkSdkInfo (ciVersion ci)
    ((fun s => mkSdkStore (siName s)
                 (mkSdkID (cidVersion (siCommitId s)) (cidHash (siCommitId s)))) <$> ciStoreInfos ci).

Definition mergeStoreInfos (ci : SdkCommitInfo) (storeInfos : list SdkStoreInfo) : SdkCommitInfo :=
  mkSdkInfo (sdkInfoVersion ci) (sortBy sdkName (sdkStoreInfos ci ++ storeInfos)).

Definition amendCommitInfo (ci : SdkCommitInfo) (storeParams : list (StoreKey * StoreType))
    : SdkCommitInfo :=
  mergeStoreInfos ci
    (omap (fun p => if negb (bool_decide (p.2 = StoreTypeIAVL)) && negb (bool_decide (p.2 = StoreTypeTransient))
                    then Some (mkSdkStore (keyName p.1) (mkSdkID 0 []))
                    else None) storeParams).

(** ** Paths *)

(** [strings.SplitN(_, "/", 2)] *)
Fixpoint splitSlash (s : string) : string * option string :=
  match s with
  | EmptyString => (EmptyString, None)
  | String c s =>
      if Ascii.eqb c slash then (EmptyString, Some s)
      else let '(a, b) := splitSlash s in (String c a, b)
  end.

Definition parsePath (path : string) : result (string * string) :=
  match path with
  | String c rest =>
      if Ascii.eqb c slash then
        let '(storeName, sub) := splitSlash rest in
        Ok (storeName, match sub with Some sub => String slash sub | None => "" end)
      else Err "invalid path"
  | EmptyString => Err "invalid path"
  end.

(** ** Queries *)

Record RequestQuery := mkReq { reqData : bytes; reqPath : string; reqHeight : Z; reqProve : bool }.

Inductive CommitmentProof := ProofExist (p : ExistenceProof) | ProofNonExist (p : NonExistenceProof).

Inductive ProofOp :=
  | IavlOp (key : bytes) (proof : CommitmentProof)
  | CommitInfoOp (ci : SdkCommitInfo) (storeName : string).

Record ResponseQuery := mkRes {
  resKey : bytes;
  resValue : option bytes;
  resHeight : Z;
  resProofOps : option (list ProofOp)
}.

(** [memiavl.Pairs] *)
Definition Pair_Marshal (p : bytes * bytes) : bytes :=
  putBytesOpt Byte.x0a p.1 ++ putBytesOpt Byte.x12 p.2.

Definition Pairs_Marshal (l : kvs) : bytes := mjoin ((fun p => putBytes Byte.x0a (Pair_Marshal p)) <$> l).

(** [types.PrefixEndBytes]: the end of the range of all keys with a prefix. *)
Class PrefixEnd := prefixEnd : bytes -> option bytes.

Class PrefixEndLaws `{PrefixEnd} : Prop := {
  prefixEnd_domain p k : in_domain (Some p) (prefixEnd p) k = hasPrefix p k
}.

Section MemStore.
Context {C : Type} `{CacheC : Cache C} `{PrefixEnd}.

(** [getProofFromTree]; [None] is its panic. *)
Definition getProofFromTree (tree : Tree C) (key : bytes) (exists_ : bool) : option (list ProofOp) :=
  if exists_ then
    r ← GetMembershipProof tree key;
    match r with Ok p => Some [IavlOp key (ProofExist p)] | Err _ => None end
  else
    r ← GetNonMembershipProof tree key;
    match r with Ok p => Some [IavlOp key (ProofNonExist p)] | Err _ => None end.

(** The loop over an iterator; the pairs of a tree are fewer than the fuel. *)
Definition iteratePairs (tree : Tree C) (start end_ : option bytes) (ascending : bool) : kvs :=
  drain (S (length (content (treeRoot tree)))) (NewIterator start end_ ascending (treeRoot tree)).

(** [memiavlstore.Store.Query] on its tree, which is [None] when the pointer is
    nil; the tree is returned with its cache updated. *)
Definition storeQuery (tree : option (Tree C)) (req : RequestQuery)
    : option (result ResponseQuery * option (Tree C)) :=
  match reqData req with
  | [] => Some (Err "query cannot be zero length", tree)
  | _ =>
      tr ← tree;
      if (0 <? reqHeight req) && negb (reqHeight req =? version tr) then Some (Err "invalid height", Some tr)
      else if bool_decide (reqPath req = "/key") then
        let '(value, tr) := TreeGet tr (reqData req) in
        if negb (reqProve req) then Some (Ok (mkRes (reqData req) value (version tr) None), Some tr)
        else
          ops ← getProofFromTree tr (reqData req) (match value with Some _ => true | None => false end);
          Some (Ok (mkRes (reqData req) value (version tr) (Some ops)), Some tr)
      else if bool_decide (reqPath req = "/subspace") then
        let pairs := iteratePairs tr (Some (reqData req)) (prefixEnd (reqData req)) true in
        Some (Ok (mkRes (reqData req) (Some (Pairs_Marshal pairs)) (version tr) None), Some tr)
      else Some (Err "unexpected query path", Some tr)
  end.
End MemStore.

(** ** The store *)

Section RootMulti.
Context {C : Type} `{CacheC : Cache C} {L : Type} `{LogL : WalLog L}.
Context {E : Type} `{ExtE : ExtStores E} `{HashH : CommitHash} `{EndP : PrefixEnd}.
(** The build has object stores. *)
Context (objstore : bool).
(** [rootmulti.RequireProof] *)
Context (requireProof : string -> bool).

Inductive treeRef := Live | Stale (t : Tree C).

(** [memiavlstore.Store] *)
Record memStore := mkMemStore { stTree : treeRef; changeSet : ChangeSet }.

Inductive CommitStore := Memiavl (st : memStore) | Ext (typ : StoreType) (st : E).

Record Store := mkStore {
  rsDb : option (DB C);
  rsDisk : Disk L;
  lastInfo : option SdkCommitInfo;
  storesParams : gmap StoreKey StoreType;
  keysByName : gmap string StoreKey;
  stores : gmap StoreKey CommitStore;
  rsOpts : Options;
  sdk46Compact : bool;
  supportExportNonSnapshotVersion : bool
}.

Definition NewStore (d : Disk L) (opts : Options) (sdk46 support : bool) : Store :=
  mkStore None d None ∅ ∅ ∅ opts sdk46 support.

Definition setDb (x : option (DB C)) (s : Store) : Store :=
  mkStore x (rsDisk s) (lastInfo s) (storesParams s) (keysByName s) (stores s) (rsOpts s)
    (sdk46Compact s) (supportExportNonSnapshotVersion s).
Definition setDisk (x : Disk L) (s : Store) : Store :=
  mkStore (rsDb s) x (lastInfo s) (storesParams s) (keysByName s) (stores s) (rsOpts s)
    (sdk46Compact s) (supportExportNonSnapshotVersion s).
Definition setInfo (x : option SdkCommitInfo) (s : Store) : Store :=
  mkStore (rsDb s) (rsDisk s) x (storesParams s) (keysByName s) (stores s) (rsOpts s)
    (sdk46Compact s) (supportExportNonSnapshotVersion s).
Definition setStores (x : gmap StoreKey CommitStore) (s : Store) : Store :=
  mkStore (rsDb s) (rsDisk s) (lastInfo s) (storesParams s) (keysByName s) x (rsOpts s)
    (sdk46Compact s) (supportExportNonSnapshotVersion s).

(** A method of the database; a nil database panics. *)
Definition onDB {A} (m : SE (Sys C L) A) : SE Store A := fun s =>
  d ← rsDb s;
  '(r, sys) ← m (mkSys d (rsDisk s));
  Some (r, setDisk (disk sys) (setDb (Some (db sys)) s)).

(** [panic(err)] *)
Definition must {A} (m : SE Store A) : SE Store A := fun s =>
  match m s with Some (Ok a, s) => Some (Ok a, s) | _ => None end.

(** *** Mounting *)

Definition MountStoreWithDB (key : option StoreKey) (typ : StoreType) : SE Store unit :=
  key ← orPanic key;
  p ← gets (fun s => storesParams s !! key);
  n ← gets (fun s => keysByName s !! keyName key);
  match p, n with
  | None, None => modify (fun s =>
      mkStore (rsDb s) (rsDisk s) (lastInfo s) (<[key := typ]> (storesParams s))
        (<[keyName key := key]> (keysByName s)) (stores s) (rsOpts s) (sdk46Compact s)
        (supportExportNonSnapshotVersion s))
  | _, _ => orPanic None
  end.

(** *** One memiavl store *)

Definition memStoreOf (key : StoreKey) (s : Store) : option memStore :=
  match stores s !! key with Some (Memiavl st) => Some st | _ => None end.

Definition treeOf (key : StoreKey) (st : memStore) (s : Store) : option (Tree C) :=
  match stTree st with
  | Live => d ← rsDb s; TreeByName (mtree d) (keyName key)
  | Stale t => Some t
  end.

Definition putMem (key : StoreKey) (st : memStore) (s : Store) : Store :=
  setStores (<[key := Memiavl st]> (stores s)) s.

(** The tree object is changed in place. *)
Definition putTree (name : string) (tr : Tree C) (t : MultiTree C) : MultiTree C :=
  match treesByName t ≫= (fun m => m !! name) with
  | Some i => withTrees t (alter (fun e => mkNamed tr (ntName e)) i (trees t))
  | None => t
  end.

Definition writeTree (key : StoreKey) (st : memStore) (tr : Tree C) (s : Store) : Store :=
  match stTree st with
  | Live => setDb ((fun d => setTree (putTree (keyName key) tr (mtree d)) d) <$> rsDb s) s
  | Stale _ => putMem key (mkMemStore (Stale tr) (changeSet st)) s
  end.

(** The methods of the memiavl store of a key; [None] when the key has none. *)
Definition StoreSet (key : StoreKey) (k v : bytes) : SE Store unit :=
  st ← gets (memStoreOf key);
  st ← orPanic st;
  modify (putMem key (mkMemStore (stTree st) (changeSet st ++ [mkPair false k (Some v)]))).

Definition StoreDelete (key : StoreKey) (k : bytes) : SE Store unit :=
  st ← gets (memStoreOf key);
  st ← orPanic st;
  modify (putMem key (mkMemStore (stTree st) (changeSet st ++ [mkPair true k None]))).

Definition StoreGet (key : StoreKey) (k : bytes) : SE Store (option bytes) :=
  st ← gets (memStoreOf key);
  st ← orPanic st;
  tr ← gets (treeOf key st);
  tr ← orPanic tr;
  let '(v, tr) := TreeGet tr k in
  _ ← modify (writeTree key st tr);
  mret v.

Definition StoreHas (key : StoreKey) (k : bytes) : SE Store bool :=
  v ← StoreGet key k; mret (match v with Some _ => true | None => false end).

Definition StoreIterate (key : StoreKey) (start end_ : option bytes) (ascending : bool) : SE Store kvs :=
  st ← gets (memStoreOf key);
  st ← orPanic st;
  tr ← gets (treeOf key st);
  tr ← orPanic tr;
  mret (iteratePairs tr start end_ ascending).

(** *** Flush and commit *)

(** The loop of [flush]: the change sets popped, in the order of the keys. *)
Fixpoint popChangeSets (order : list StoreKey) (m : gmap StoreKey CommitStore)
    : list NamedChangeSet * gmap StoreKey CommitStore :=
  match order with
  | [] => ([], m)
  | key :: order =>
      match m !! key with
      | Some (Memiavl st) =>
          let '(css, m) := popChangeSets order (<[key := Memiavl (mkMemStore (stTree st) [])]> m) in
          (match changeSet st with [] => css | pairs => mkNamedCS (keyName key) pairs :: css end, m)
      | _ => popChangeSets order m
      end
  end.

Definition flush (order : list StoreKey) : SE Store unit :=
  r ← gets (fun s => popChangeSets order (stores s));
  _ ← modify (setStores r.2);
  onDB (DBApplyChangeSets (sortCS r.1)).

(** The commit info of the SDK for one of the database. *)
Definition sdkInfo (params : list (StoreKey * StoreType)) (ci : CommitInfo) : SE Store SdkCommitInfo :=
  gets (fun s => if sdk46Compact s then amendCommitInfo (convertCommitInfo ci) params
                 else convertCommitInfo ci).

Definition dbGets {A} (f : DB C -> A) : SE Store A :=
  d ← gets rsDb; d ← orPanic d; mret (f d).

(** [order] and [params]: how the loops range over the stores and their
    parameters. *)
Definition WorkingHash (order : list StoreKey) (params : list (StoreKey * StoreType)) : SE Store bytes :=
  _ ← must (flush order);
  ci ← dbGets (fun d => WorkingCommitInfo (mtree d));
  ci ← sdkInfo params ci;
  mret (ciHash ci).

Definition commitExt (c : CommitStore) : CommitStore :=
  match c with Ext typ st => Ext typ (extCommit st) | Memiavl st => Memiavl st end.

(** The pointers of the stores when the database closes or replaces its trees. *)
Definition detach (d : DB C) (key : StoreKey) (c : CommitStore) : CommitStore :=
  match c with
  | Memiavl (mkMemStore Live cs) =>
      match TreeByName (mtree d) (keyName key) with
      | Some tr => Memiavl (mkMemStore (Stale (Tree.Close tr)) cs)
      | None => c
      end
  | _ => c
  end.

Definition detachFrom (d : DB C) (s : Store) : Store :=
  setStores (map_imap (fun key c => Some (detach d key c)) (stores s)) s.

(** The database as [Commit] leaves it behind when it switches to a snapshot that
    the rewriter has delivered. *)
Definition replaced (s : Store) : option (DB C) :=
  d ← rsDb s;
  match commitLog (mkSys d (rsDisk s)) with
  | Some (Ok _, y) =>
      match rewriting (db y) with Some (RResult (Some _) _) => Some (db y) | _ => None end
  | _ => None
  end.

(** [rs.db.Commit()]: when it reloads, the stores are left with closed trees. *)
Definition commitDB : SE Store unit :=
  d ← gets replaced;
  _ ← must (onDB Db.Commit);
  match d with Some d => modify (detachFrom d) | None => mret tt end.

(** [SetTree] with the database's tree. *)
Definition setLive (c : CommitStore) : CommitStore :=
  match c with Memiavl st => Memiavl (mkMemStore Live (changeSet st)) | Ext typ st => Ext typ st end.

Definition Commit (order : list StoreKey) (params : list (StoreKey * StoreType)) : SE Store SdkCommitID :=
  _ ← must (flush order);
  _ ← modify (fun s => setStores (commitExt <$> stores s) s);
  _ ← commitDB;
  _ ← modify (fun s => setStores (setLive <$> stores s) s);
  ci ← dbGets (fun d => lastCommitInfo (mtree d));
  ci ← sdkInfo params ci;
  _ ← modify (setInfo (Some ci));
  mret (CommitInfoID ci).

Definition Close : SE Store unit := onDB Db.Close.

Definition LatestVersion : SE Store Z := dbGets (fun d => MTVersion (mtree d)).

Definition LastCommitID : SE Store SdkCommitID :=
  ci ← gets lastInfo;
  match ci with
  | Some ci => mret (CommitInfoID ci)
  | None =>
      d ← gets rsDisk;
      r ← orPanic (GetLatestVersion d);
      match r with Ok v => mret (mkSdkID v []) | Err _ => orPanic None end
  end.

(** *** Loading *)

(** [types.StoreUpgrades]; a renaming is the pair of the old and the new key. *)
Record StoreUpgrades := mkUpgrades {
  upAdded : list string;
  upRenamed : list (string * string);
  upDeleted : list string
}.

Definition treeUpgrades (u : option StoreUpgrades) : list TreeNameUpgrade :=
  match u with
  | None => []
  | Some u =>
      ((fun n => mkUpgrade n "" true) <$> upDeleted u) ++
      ((fun n => mkUpgrade n "" false) <$> upAdded u) ++
      ((fun r : string * string => mkUpgrade r.2 r.1 false) <$> upRenamed u)
  end.

(** [None] is a panic. *)
Definition loadCommitStoreFromParams (d : DB C) (key : StoreKey) (typ : StoreType)
    : option (result CommitStore) :=
  match typ with
  | StoreTypeMulti | StoreTypeDB => None
  | StoreTypeIAVL =>
      Some (match TreeByName (mtree d) (keyName key) with
            | None => Err "new store is not added in upgrades"
            | Some _ => Ok (Memiavl (mkMemStore Live []))
            end)
  | StoreTypeTransient =>
      Some (match keyKind key with
            | TransientStoreKey => Ok (Ext StoreTypeTransient newTransientStore)
            | _ => Err "unexpected key type for a TransientStoreKey"
            end)
  | StoreTypeMemory =>
      Some (match keyKind key with
            | MemoryStoreKey => Ok (Ext StoreTypeMemory newMemStore)
            | _ => Err "unexpected key type for a MemoryStoreKey"
            end)
  | StoreTypeObject =>
      if objstore then
        Some (match keyKind key with
              | ObjectStoreKey => Ok (Ext StoreTypeObject newObjStore)
              | _ => Err "unexpected key type for a ObjectStoreKey"
              end)
      else None
  | StoreTypeSMT | StoreTypePersistent => None
  end.

Fixpoint loadStores (d : DB C) (params : gmap StoreKey StoreType) (keys : list StoreKey)
    (m : gmap StoreKey CommitStore) : option (result (gmap StoreKey CommitStore)) :=
  match keys with
  | [] => Some (Ok m)
  | key :: keys =>
      typ ← params !! key;
      r ← loadCommitStoreFromParams d key typ;
      match r with
      | Err e => Some (Err e)
      | Ok st => loadStores d params keys (<[key := st]> m)
      end
  end.

Definition iavlNames (params : gmap StoreKey StoreType) (keys : list StoreKey) : list string :=
  keyName <$> List.filter (fun k => bool_decide (params !! k = Some StoreTypeIAVL)) keys.

Definition withTarget (o : Options) (target : Z) (create readOnly overwriting : bool)
    (initial : list string) : Options :=
  mkOptions create (InitialVersion o) readOnly initial (SnapshotKeepRecent o) (SnapshotInterval o)
    target (AsyncCommitBuffer o) (ZeroCopy o) (CacheSize o) overwriting.

(** Opening the database on the disk of the store. *)
Definition loadDB (o : Options) : SE Store (DB C) := fun s =>
  '(r, d) ← Load o (rsDisk s); Some (r, setDisk d s).

(** Go's zero [CommitInfo]. *)
Definition emptyInfo : SdkCommitInfo := mkSdkInfo 0 [].

Definition LoadVersionAndUpgrade (ver : Z) (upgrades : option StoreUpgrades)
    (params : list (StoreKey * StoreType)) : SE Store unit :=
  if MaxUint32 <? ver then throw "version overflows uint32"
  else
    ps ← gets storesParams;
    opts ← gets rsOpts;
    let storesKeys := sortBy keyName (elements (dom ps)) in
    d ← loadDB (withTarget opts (u32 ver) true (ReadOnly opts) (LoadForOverwriting opts)
                  (iavlNames ps storesKeys));
    d ← match treeUpgrades upgrades with
        | [] => mret d
        | us => fun s =>
            '(r, sys) ← DBApplyUpgrades us (mkSys d (rsDisk s));
            Some (match r with Ok _ => Ok (db sys) | Err e => Err e end, setDisk (disk sys) s)
        end;
    r ← orPanic (loadStores d ps storesKeys ∅);
    newStores ← orErr r;
    _ ← modify (fun s => setStores newStores (setDb (Some d) s));
    if negb (MTVersion (mtree d) =? 0) then
      ci ← sdkInfo params (lastCommitInfo (mtree d));
      modify (setInfo (Some ci))
    else modify (setInfo (Some emptyInfo)).

Definition LoadLatestVersion (params : list (StoreKey * StoreType)) : SE Store unit :=
  LoadVersionAndUpgrade 0 None params.

Definition SetInitialVersion (v : Z) : SE Store unit := onDB (DBSetInitialVersion v).

Definition detachAll (s : Store) : Store :=
  match rsDb s with Some d => detachFrom d s | None => s end.

(** Close the database when there is one. *)
Definition closeIfOpen : SE Store unit :=
  d ← gets rsDb;
  match d with
  | None => mret tt
  | Some _ => _ ← modify detachAll; onDB Db.Close
  end.

Definition RollbackToVersion (target : Z) : SE Store unit :=
  if target <=? 0 then throw "invalid rollback height target"
  else if MaxUint32 <? target then throw "rollback height target exceeds max uint32"
  else
    _ ← closeIfOpen;
    _ ← modify (setDb None);
    opts ← gets rsOpts;
    d ← loadDB (withTarget opts (u32 target) (CreateIfMissing opts) (ReadOnly opts) true (InitialStores opts));
    modify (setDb (Some d)).

(** *** State sync *)

Definition Snapshot (fuel : nat) (writeMsg : list SnapshotItem -> result unit) (height : Z)
    : SE Store (list SnapshotItem) := fun s =>
  r ← SnapshotAt (C:=C) fuel writeMsg (rsDisk s) height (supportExportNonSnapshotVersion s);
  Some (r, s).

Definition Restore (partial : list ExportNode -> option snapshotFiles -> snapshotFiles)
    (height : Z) (lock : result unit) (msgs : list (result SnapshotItem))
    (params : list (StoreKey * StoreType)) : SE Store SnapshotItem :=
  _ ← closeIfOpen;
  _ ← modify (setDb None);
  item ← (fun s => '(r, d) ← restore partial height lock msgs (rsDisk s); Some (r, setDisk d s));
  _ ← LoadLatestVersion params;
  mret item.

(** *** Views *)

(** What [CacheMultiStoreWithVersion] wraps: the stores as they are, or the
    stores that are not memiavl stores with the trees of a version, each under
    the key of its name; [None] is Go's nil key. *)
Inductive view :=
  | CurrentView
  | VersionView (exts : gmap StoreKey CommitStore) (trees : list (option StoreKey * Tree C)).

Definition isExt (c : CommitStore) : bool := match c with Ext _ _ => true | Memiavl _ => false end.

Definition CacheMultiStoreWithVersion (ver : Z) : SE Store view :=
  ci ← gets lastInfo;
  if (ver =? 0) || match ci with Some ci => ver =? sdkInfoVersion ci | None => false end
  then mret CurrentView
  else
    opts ← gets rsOpts;
    d ← loadDB (withTarget opts (u32 ver) (CreateIfMissing opts) true (LoadForOverwriting opts)
                  (InitialStores opts));
    exts ← gets (fun s => filter (fun e => isExt e.2 = true) (stores s));
    names ← gets keysByName;
    mret (VersionView exts
            ((fun e => (names !! ntName e, ntTree e)) <$> trees (mtree d))).

Definition GetStore (key : StoreKey) : SE Store CommitStore :=
  c ← gets (fun s => stores s !! key); orPanic c.

Definition GetStoreByName (name : string) (s : Store) : option CommitStore :=
  key ← keysByName s !! name; stores s !! key.

(** *** Queries *)

(** The database of the queried version, and how to put back its tree. *)
Definition queryDB (ver : Z) : SE Store (DB C * bool) :=
  ci ← gets lastInfo;
  ci ← orPanic ci;
  if ver =? sdkInfoVersion ci then d ← gets rsDb; d ← orPanic d; mret (d, true)
  else
    d ← loadDB (mkOptions false 0 true [] 0 0 (u32 ver) 0 false 0 false);
    mret (d, false).

Definition Query (params : list (StoreKey * StoreType)) (req : RequestQuery) : SE Store ResponseQuery :=
  ver ← (if reqHeight req =? 0 then dbGets (fun d => MTVersion (mtree d)) else mret (reqHeight req));
  r ← queryDB ver;
  let '(d, own) := r in
  p ← orErr (parsePath (reqPath req));
  let '(storeName, subpath) := p in
  let req := mkReq (reqData req) subpath (reqHeight req) (reqProve req) in
  q ← orPanic (storeQuery (TreeByName (mtree d) storeName) req);
  let '(res, tr) := q in
  _ ← (match tr, own with
       | Some tr, true => modify (setDb (Some (setTree (putTree storeName tr (mtree d)) d)))
       | _, _ => mret tt
       end);
  res ← orErr res;
  if negb (reqProve req) || negb (requireProof subpath) then mret res
  else
    match resProofOps res with
    | None | Some [] => throw "proof is unexpectedly empty"
    | Some ops =>
        ci ← sdkInfo params (lastCommitInfo (mtree d));
        mret (mkRes (resKey res) (resValue res) (resHeight res)
                (Some (ops ++ [CommitInfoOp ci storeName])))
    end.
End RootMulti.
