(* ===== verification/RootProps.v ===== *)
(** * What the commit multi-store promises

    The flush of the pending writes, the working hash and the commit, queries with
    proofs, loading: properties of [RootMulti], proved from those of the database. *)

From S2P Require Import Prelude KV Binary Sha256 Node Hash Snapshot Persisted Tree Iterator Ics23 Export Import.
From S2P Require Import Proto Wal MultiTree MultiSnapshot SnapshotName.
From S2P Require Import Db DbDisk NameSort DbHistory DbPending DbInv DbStep DbTasks DbLoad DbRun DbProps StateSync RootMulti.

Open Scope string_scope.
Open Scope Z_scope.
Open Scope list_scope.

(** ** Commit infos *)

Section Infos.
Context {A B : Type} (f : A -> string) (g : B -> string) (h : A -> B).
Hypothesis same_name : forall x, g (h x) = f x.

Lemma insertBy_fmap x l : h <$> insertBy f x l = insertBy g (h x) (h <$> l).
Proof.
  induction l as [|y l IH]; [done|]. cbn [insertBy fmap list_fmap]. rewrite !same_name.
  destruct (name_ltb _ _); [|done]. cbn [fmap list_fmap]. f_equal. exact IH.
Qed.

Lemma sortBy_fmap l : h <$> sortBy f l = sortBy g (h <$> l).
Proof.
  induction l as [|x l IH]; [done|]. cbn [sortBy foldr fmap list_fmap].
  fold (sortBy f l). fold (sortBy g (h <$> l)). by rewrite insertBy_fmap, IH.
Qed.
End Infos.

(** The infos that [amendCommitInfo] adds. *)
Definition memInfo (p : StoreKey * StoreType) : option SdkStoreInfo :=
  if negb (bool_decide (p.2 = StoreTypeIAVL)) && negb (bool_decide (p.2 = StoreTypeTransient))
  then Some (mkSdkStore (keyName p.1) (mkSdkID 0 []))
  else None.

Definition distinct_names (ks : list StoreKey) : Prop := NoDup (keyName <$> ks).

Lemma memInfo_names ps : distinct_names ps.*1 -> NoDup (sdkName <$> omap memInfo ps).
Proof.
  unfold distinct_names. induction ps as [|p ps IH]; [constructor|]. cbn [fmap list_fmap].
  intros [Hn Hnd]%NoDup_cons. cbn [omap list_omap]. unfold memInfo at 1.
  destruct (_ && _); [|by apply IH]. cbn [fmap list_fmap sdkName]. constructor; [|by apply IH].
  intros (i & Ei & (q & Hq & Eq)%list_elem_of_omap)%list_elem_of_fmap. apply Hn.
  unfold memInfo in Eq. destruct (_ && _); [|done]. injection Eq as <-. cbn [sdkName] in Ei.
  rewrite Ei. apply list_elem_of_fmap. exists q.1. split; [done|]. by apply list_elem_of_fmap_2.
Qed.

(** The amended info does not depend on how the loop ranges over the stores. *)
Lemma amend_perm ci ps ps' :
  ps ≡ₚ ps' -> distinct_names ps.*1 -> amendCommitInfo ci ps = amendCommitInfo ci ps'.
Proof.
  intros Hp Hnd. unfold amendCommitInfo, mergeStoreInfos. fold memInfo. f_equal. rewrite !sortBy_app.
  f_equal. apply sortBy_unique; [by apply omap_Permutation|by apply memInfo_names].
Qed.

Lemma amend_hashed a b ps :
  hashed <$> sdkStoreInfos a = hashed <$> sdkStoreInfos b ->
  hashed <$> sdkStoreInfos (amendCommitInfo a ps) = hashed <$> sdkStoreInfos (amendCommitInfo b ps).
Proof.
  intros E. cbn [amendCommitInfo mergeStoreInfos sdkStoreInfos].
  rewrite !(sortBy_fmap sdkName fst hashed) by done. by rewrite !fmap_app, E.
Qed.

(** ** Pending writes *)

Section Props.
Context {C : Type} `{LawsC : CacheLaws C} {L : Type} `{LawsL : WalLaws L}.
Context {E : Type} `{ExtE : ExtStores E} `{LawsH : CommitHashLaws} `{LawsP : PrefixEndLaws}.
Context (requireProof : string -> bool).
Context (iv : Z) (Hiv : 0 <= iv < 2 ^ 32).

Local Abbreviation Store := (RootMulti.Store (C:=C) (L:=L) (E:=E)).
Local Abbreviation CommitStore := (RootMulti.CommitStore (C:=C) (E:=E)).
Implicit Types (order : list StoreKey) (t : MultiTree C) (s : Store) (m : gmap StoreKey CommitStore) (es : list WALEntry).

Definition cleared (c : CommitStore) : CommitStore :=
  match c with Memiavl st => Memiavl (mkMemStore (stTree st) []) | Ext typ st => Ext typ st end.

(** The change set of a store, if it has one. *)
Definition popOne m (key : StoreKey) : option NamedChangeSet :=
  match m !! key with
  | Some (Memiavl st) => match changeSet st with [] => None | cs => Some (mkNamedCS (keyName key) cs) end
  | _ => None
  end.

Lemma pop_spec order m :
  NoDup order -> (forall key, key ∉ order -> cleared <$> m !! key = m !! key) ->
  popChangeSets order m = (omap (popOne m) order, cleared <$> m).
Proof.
  revert m. induction order as [|key order IH]; intros m Hnd Hcl; cbn [popChangeSets omap list_omap].
  { f_equal. apply map_eq. intros key. rewrite lookup_fmap, Hcl; [done|apply not_elem_of_nil]. }
  apply NoDup_cons in Hnd as [Hk Hnd]. unfold popOne at 1. destruct (m !! key) as [[st|typ st]|] eqn:Em.
  - rewrite IH; [|done|].
    + f_equal; [|by rewrite fmap_insert; apply insert_id; rewrite lookup_fmap, Em].
      assert (omap (popOne (<[key:=Memiavl (mkMemStore (stTree st) [])]> m)) order = omap (popOne m) order) as ->.
      { apply list_omap_ext, Forall_Forall2_diag, Forall_forall. intros k Hin. unfold popOne.
        by rewrite lookup_insert_ne by (intros ->; done). }
      by destruct (changeSet st).
    + intros k Hn. destruct (decide (k = key)) as [->|Hne]; [by rewrite lookup_insert_eq|].
      rewrite lookup_insert_ne by done. apply Hcl. set_solver.
  - apply IH; [done|]. intros k Hn. destruct (decide (k = key)) as [->|Hne]; [by rewrite Em|]. apply Hcl. set_solver.
  - apply IH; [done|]. intros k Hn. destruct (decide (k = key)) as [->|Hne]; [by rewrite Em|]. apply Hcl. set_solver.
Qed.

(** The database of a store with its disk. *)
Definition sysOf s : option (Sys C L) := (fun d => mkSys d (rsDisk s)) <$> rsDb s.

(** Mounting keeps the names of the keys distinct. *)
Definition mounted s : Prop :=
  forall key, is_Some (storesParams s !! key) -> keysByName s !! keyName key = Some key.

(** A loaded store between two calls: the database is in order, the memiavl
    stores point at its trees. *)
Record rs_ok es (c : nat) s (y : Sys C L) : Prop := {
  ok_sys : sysOf s = Some y;
  ok_inv : inv iv es y c;
  ok_dom : dom (stores s) = dom (storesParams s);
  ok_mounted : mounted s;
  ok_tree key st : stores s !! key = Some (Memiavl st) ->
    stTree st = Live /\ keyName key ∈ names (trees (mtree (db y)))
}.

(** [order] ranges over the keys of a map. *)
Definition covers {V} (m : gmap StoreKey V) (order : list StoreKey) : Prop := order ≡ₚ (map_to_list m).*1.

Lemma covers_NoDup {V} (m : gmap StoreKey V) order : covers m order -> NoDup order.
Proof. intros ->. apply NoDup_fst_map_to_list. Qed.

Lemma covers_elem {V} (m : gmap StoreKey V) order key : covers m order -> key ∈ order <-> is_Some (m !! key).
Proof.
  intros ->. split.
  - intros ([k v] & -> & Hin%elem_of_map_to_list)%list_elem_of_fmap. by exists v.
  - intros [v Hv]. apply list_elem_of_fmap. exists (key, v). by rewrite elem_of_map_to_list.
Qed.

Lemma covers_names s order : mounted s -> covers (storesParams s) order -> distinct_names order.
Proof.
  intros Hm Hc. unfold distinct_names. apply NoDup_fmap_2_strong; [|by eapply covers_NoDup].
  intros k1 k2 Hk1%(covers_elem _ _ _ Hc) Hk2%(covers_elem _ _ _ Hc) En.
  apply Hm in Hk1, Hk2. rewrite En in Hk1. congruence.
Qed.

Lemma covers_dom {V W} (m : gmap StoreKey V) (m' : gmap StoreKey W) order :
  dom m = dom m' -> covers m order -> covers m' order.
Proof.
  intros Hd Hc. unfold covers. apply NoDup_Permutation; [by eapply covers_NoDup|apply NoDup_fst_map_to_list|].
  intros k. rewrite (covers_elem m order), (covers_elem m' (map_to_list m').*1) by (done || apply Permutation_refl).
  by rewrite <- !elem_of_dom, Hd.
Qed.

Lemma popped_elem m (order : list StoreKey) (n : string) : n ∈ csName <$> omap (popOne m) order -> n ∈ keyName <$> order.
Proof.
  intros (cs & -> & (k & Hk & Ek)%list_elem_of_omap)%list_elem_of_fmap. unfold popOne in Ek.
  destruct (m !! k) as [[st|]|]; [|done..]. destruct (changeSet st); [done|]. injection Ek as <-.
  by apply (list_elem_of_fmap_2 keyName).
Qed.

Lemma popped_names m order : distinct_names order -> NoDup (csName <$> omap (popOne m) order).
Proof.
  unfold distinct_names. induction order as [|k order IH]; [constructor|]. cbn [fmap list_fmap omap list_omap].
  intros [Hn Hnd]%NoDup_cons. destruct (popOne m k) as [cs|] eqn:Ek; [|by apply IH].
  cbn [fmap list_fmap]. constructor; [|by apply IH]. intros Hin%popped_elem. apply Hn.
  pose proof (popped_elem m [k] (csName cs)) as Hone. cbn [omap list_omap] in Hone. rewrite Ek in Hone.
  replace (keyName k) with (csName cs); [done|]. set_solver.
Qed.

Lemma pairs_for_popped m order key st :
  distinct_names order -> key ∈ order -> m !! key = Some (Memiavl st) ->
  pairs_for (keyName key) (omap (popOne m) order) = changeSet st.
Proof.
  unfold distinct_names. intros Hnd Hin Hm. induction order as [|k order IH]; [by apply not_elem_of_nil in Hin|].
  cbn [fmap list_fmap] in Hnd. apply NoDup_cons in Hnd as [Hn Hnd].
  change (k :: order) with ([k] ++ order). rewrite omap_app, pairs_for_app.
  apply elem_of_cons in Hin as [->|Hin].
  - rewrite (pairs_for_none (keyName k) (omap (popOne m) order)) by (by intros ?%popped_elem).
    rewrite app_nil_r. cbn [omap list_omap]. unfold popOne. rewrite Hm. destruct (changeSet st); [done|].
    cbn [pairs_for csName csPairs]. by rewrite bool_decide_true, app_nil_r.
  - rewrite IH by done. rewrite pairs_for_none; [done|]. intros Hk%popped_elem. apply Hn.
    apply list_elem_of_singleton in Hk. rewrite <- Hk. by apply list_elem_of_fmap_2.
Qed.

Lemma tree_after_ext css css' (l l' : list (NamedTree C)) :
  (forall n, pairs_for n css = pairs_for n css') -> Forall2 (tree_after css) l l' -> Forall2 (tree_after css') l l'.
Proof.
  intros Hp Hl. eapply Forall2_impl; [exact Hl|]. intros e e' (En & Hok & Ev & Ec). by rewrite Hp in Ec.
Qed.

(** [sort.SliceStable] undoes the order of the loop. *)
Lemma sortCS_unique css css' : css ≡ₚ css' -> NoDup (csName <$> css) -> sortCS css = sortCS css'.
Proof. apply (sortBy_unique csName). Qed.

Lemma stores_cleared s order key : covers (stores s) order -> key ∉ order -> cleared <$> stores s !! key = stores s !! key.
Proof.
  intros Hc Hn. destruct (stores s !! key) eqn:Ek; [|done]. exfalso. apply Hn.
  apply (covers_elem _ _ _ Hc). by rewrite Ek.
Qed.

Lemma flush_unfold s order :
  covers (stores s) order ->
  flush order s = onDB (DBApplyChangeSets (sortCS (omap (popOne (stores s)) order)))
                    (setStores (cleared <$> stores s) s).
Proof.
  intros Hc. unfold flush. sstate. rewrite pop_spec; [done|by eapply covers_NoDup|].
  intros key. by apply stores_cleared.
Qed.

(** The state after a flush that left the database in [y]. *)
Definition flushed s (y : Sys C L) : Store :=
  setDisk (disk y) (setDb (Some (db y)) (setStores (cleared <$> stores s) s)).

Lemma flush_perm s order order' :
  mounted s -> dom (stores s) = dom (storesParams s) ->
  covers (stores s) order -> covers (stores s) order' -> flush order s = flush order' s.
Proof.
  intros Hm Hd Hc Hc'. rewrite !flush_unfold by done. f_equal. f_equal. apply sortCS_unique.
  - apply omap_Permutation. unfold covers in *. by rewrite Hc, Hc'.
  - apply popped_names, (covers_names s); [done|]. by eapply covers_dom.
Qed.

Lemma flush_spec es c s y order :
  rs_ok es c s y -> covers (stores s) order ->
  css_small (weChangesets (pendingLog (db y)) ++ omap (popOne (stores s)) order) ->
  exists y1, flush order s = Some (Ok tt, flushed s y1) /\ rs_ok es c (flushed s y1) y1 /\
    Forall2 (tree_after (omap (popOne (stores s)) order)) (trees (mtree (db y))) (trees (mtree (db y1))).
Proof.
  intros [Hy Hi Hd Hm Ht] Hc Hsm. set (css := omap (popOne (stores s)) order) in *.
  assert (covers (storesParams s) order) as Hc' by (by eapply covers_dom).
  destruct (inv_applyChangeSets iv Hiv es y c (sortCS css) Hi) as (y1 & E1 & Hi1 & Ha).
  { apply Forall_forall. intros cs. rewrite sortCS_perm. intros (k & Hk & Ek)%list_elem_of_omap.
    unfold popOne in Ek. destruct (stores s !! k) as [[st|]|] eqn:Es; [|done..].
    destruct (Ht k st Es) as [_ Hn]. destruct (changeSet st); [done|]. by injection Ek as <-. }
  { rewrite sortCS_perm. apply popped_names. by eapply covers_names. }
  { intros n. specialize (Hsm n). by rewrite pairs_for_app, pairs_for_sort, <- pairs_for_app. }
  apply (tree_after_ext _ css) in Ha; [|intros; apply pairs_for_sort].
  exists y1. unfold sysOf in Hy. destruct (rsDb s) as [d|] eqn:Ed; [|done]. injection Hy as <-.
  split; [|split; [|done]].
  - rewrite flush_unfold by done. unfold onDB. cbn [rsDb setStores rsDisk]. rewrite Ed. cbn [mbind option_bind].
    fold css. by rewrite E1.
  - split; [by destruct y1|done|by cbn; rewrite dom_fmap_L|done|].
    cbn [flushed stores setDisk setDb setStores]. intros key st.
    rewrite lookup_fmap. destruct (stores s !! key) as [[st0|]|] eqn:Es; [|done..]. intros [= <-].
    destruct (Ht key st0 Es) as [Hl Hn]. split; [done|]. by rewrite (tree_after_names _ _ _ Ha).
Qed.

Lemma flush_again s y order : covers (stores s) order -> flush order (flushed s y) = Some (Ok tt, flushed s y).
Proof.
  intros Hc. rewrite flush_unfold by (eapply covers_dom; [|done]; cbn; by rewrite dom_fmap_L).
  assert (omap (popOne (stores (flushed s y))) order = []) as ->.
  { clear Hc. induction order as [|k l IH]; [done|]. cbn [omap list_omap]. unfold popOne at 1.
    cbn [flushed stores setDisk setDb setStores]. rewrite lookup_fmap.
    destruct (stores s !! k) as [[st|]|]; exact IH. }
  assert (cleared <$> (cleared <$> stores s) = cleared <$> stores s) as Hcl.
  { apply map_eq. intros key. rewrite !lookup_fmap. by destruct (stores s !! key) as [[st|]|]. }
  unfold onDB, flushed, setDisk, setDb, setStores. cbn. by rewrite Hcl.
Qed.

(** ** Commit *)

Definition infoFor s (params : list (StoreKey * StoreType)) (ci : CommitInfo) : SdkCommitInfo :=
  if sdk46Compact s then amendCommitInfo (convertCommitInfo ci) params else convertCommitInfo ci.

(** [params] ranges over the parameters of the stores. *)
Definition ranges s (params : list (StoreKey * StoreType)) : Prop := params ≡ₚ map_to_list (storesParams s).

Lemma infoFor_perm s params params' ci :
  mounted s -> ranges s params -> ranges s params' -> infoFor s params ci = infoFor s params' ci.
Proof.
  unfold ranges, infoFor. intros Hm Hp Hp'. destruct (sdk46Compact s); [|done].
  apply amend_perm; [by rewrite Hp, Hp'|]. apply (covers_names s); [done|]. unfold covers. by rewrite Hp.
Qed.

Lemma saved_hashes s params (t : MultiTree C) :
  ciHash (infoFor s params (WorkingCommitInfo t)) = ciHash (infoFor s params (infoOf (saved t true))).
Proof.
  apply ciHash_stores.
  assert (hashed <$> sdkStoreInfos (convertCommitInfo (WorkingCommitInfo t)) =
          hashed <$> sdkStoreInfos (convertCommitInfo (infoOf (saved t true)))) as Eh.
  { unfold WorkingCommitInfo, infoOf, buildCommitInfo, convertCommitInfo. cbn [sdkStoreInfos ciStoreInfos].
    cbn [saved trees withCommitInfo withTrees]. unfold mapTrees. by rewrite <- !list_fmap_compose. }
  unfold infoFor. destruct (sdk46Compact s); [by apply amend_hashed|done].
Qed.

Lemma commit_trees es (y : Sys C L) c :
  inv iv es y c -> commit_fits y -> waiting y = false ->
  exists y', Db.Commit y = Some (Ok (versionAt iv (S (length es))), y') /\
    inv iv (es ++ [pendingLog (db y)]) y' c /\ pendingLog (db y') = emptyLog /\
    mtree (db y') ≡ saved (mtree (db y)) true /\
    lastCommitInfo (mtree (db y')) = infoOf (saved (mtree (db y)) true).
Proof.
  intros Hi Hf Hw. destruct (inv_Commit iv Hiv es y c Hi Hf Hw) as (y' & E1 & Hi' & Hp & _).
  destruct (commit_state iv Hiv es y c Hi Hf) as (_ & _ & _ & _ & tN & HtN & Hl).
  destruct (inv_committed_state iv _ y' c Hi' Hp) as (tN' & HtN' & Heq).
  pose proof (stateAt_unique iv _ _ _ _ HtN HtN') as <-.
  assert (mtree (db y') ≡ saved (mtree (db y)) true) as Ht by (rewrite (live_empty _ _ Hl); done).
  exists y'. rewrite length_app, Nat.add_1_r in E1. split; [done|]. split; [done|]. split; [done|]. split; [done|].
  rewrite <- (infoOf_equiv _ _ Ht). by apply (inv_info _ _ _ _ Hi').
Qed.

(** The state after a commit that left the database in [y]. *)
Definition afterCommit s (y : Sys C L) (ci : SdkCommitInfo) : Store :=
  setInfo (Some ci) (setStores (setLive <$> (commitExt <$> stores s)) (setDisk (disk y) (setDb (Some (db y)) s))).

Lemma must_ok {X} (f : SE Store X) s x s1 : f s = Some (Ok x, s1) -> must f s = Some (Ok x, s1).
Proof. unfold must. by intros ->. Qed.

Lemma onDB_ok {X} (f : SE (Sys C L) X) s y r y1 :
  sysOf s = Some y -> f y = Some (r, y1) ->
  onDB f s = Some (r, setDisk (disk y1) (setDb (Some (db y1)) s)).
Proof. unfold sysOf, onDB. destruct (rsDb s); [|done]. intros [= <-] Ef. cbn [mbind option_bind]. by rewrite Ef. Qed.

Lemma flush_sys s s1 y y1 order :
  covers (stores s) order -> sysOf s = Some y -> flush order s = Some (Ok tt, s1) ->
  DBApplyChangeSets (sortCS (omap (popOne (stores s)) order)) y = Some (Ok tt, y1) -> sysOf s1 = Some y1.
Proof.
  intros Hc Hy E1 E2. rewrite flush_unfold in E1 by done.
  rewrite (onDB_ok _ (setStores (cleared <$> stores s) s) y _ _ Hy E2) in E1. injection E1 as <-. by destruct y1.
Qed.

(** The loop after the commit of the database undoes a reload. *)
Lemma setLive_detach d (m : gmap StoreKey CommitStore) :
  setLive <$> map_imap (fun key c => Some (detach d key c)) m = setLive <$> m.
Proof.
  apply map_eq. intros key. rewrite !lookup_fmap, map_lookup_imap. destruct (m !! key) as [c|]; [|done]. cbn.
  destruct c as [[[|t] cs]|typ st]; cbn; try done. by destruct (TreeByName _ _).
Qed.

Lemma Commit_unfold s order params s1 y1 v y2 :
  flush order s = Some (Ok tt, s1) -> sysOf s1 = Some y1 -> Db.Commit y1 = Some (Ok v, y2) ->
  let ci := infoFor s1 params (lastCommitInfo (mtree (db y2))) in
  RootMulti.Commit order params s = Some (Ok (CommitInfoID ci), afterCommit s1 y2 ci).
Proof.
  intros E1 Hy E2 ci. unfold RootMulti.Commit. rewrite (SE_bind_ok _ _ _ _ _ (must_ok _ _ _ _ E1)). sstate.
  set (s2 := setStores (commitExt <$> stores s1) s1). set (s3 := setDisk (disk y2) (setDb (Some (db y2)) s2)).
  assert (exists m, commitDB s2 = Some (Ok tt, setStores m s3) /\ setLive <$> m = setLive <$> stores s2) as (m & Ec & Em).
  { unfold commitDB. sstate. rewrite (SE_bind_ok _ _ _ _ _ (must_ok _ _ _ _ (onDB_ok _ s2 _ _ _ Hy E2))).
    destruct (replaced s2) as [d|]; [|by exists (stores s2)]. eexists. split; [reflexivity|apply setLive_detach]. }
  rewrite (SE_bind_ok _ _ _ _ _ Ec). sstate. cbn [stores setStores]. rewrite Em. reflexivity.
Qed.

(** The content of a store in a multi-tree. *)
Definition contentOf (t : MultiTree C) (n : string) : option kvs := content ∘ treeRoot <$> TreeByName t n.

Lemma TreeByName_equiv t t' n : t ≡ t' -> option_Forall2 same_tree (TreeByName t n) (TreeByName t' n).
Proof.
  intros (_ & _ & Em & Hl). unfold TreeByName. rewrite Em. destruct (treesByName t') as [m|]; [|constructor].
  cbn [mbind option_bind]. destruct (m !! n) as [i|]; [|constructor]. cbn [mbind option_bind].
  destruct (proj1 (Forall2_lookup _ _ _) Hl i) as [a b [_ Hs]|]; by constructor.
Qed.

Lemma contentOf_equiv t t' n : t ≡ t' -> contentOf t n = contentOf t' n.
Proof.
  intros Heq. unfold contentOf. destruct (TreeByName_equiv t t' n Heq) as [a b [_ Hr]|]; [|done].
  cbn. by rewrite Hr.
Qed.

Lemma contentOf_saved (t : MultiTree C) b n : contentOf (saved t b) n = contentOf t n.
Proof.
  unfold contentOf, TreeByName. cbn [saved treesByName trees withCommitInfo withTrees].
  destruct (treesByName t) as [m|]; [|done]. cbn [mbind option_bind]. destruct (m !! n) as [i|]; [|done].
  cbn [mbind option_bind]. unfold mapTrees. rewrite list_lookup_fmap. by destruct (trees t !! i).
Qed.

Lemma contentOf_after t t' css n kv :
  mt_ok t -> mt_ok t' -> Forall2 (tree_after css) (trees t) (trees t') ->
  contentOf t n = Some kv -> contentOf t' n = Some (apply_pairs kv (pairs_for n css)).
Proof.
  intros Hok Hok' Ha. unfold contentOf. destruct (TreeByName t n) as [tr|] eqn:En; [|done]. intros [= <-].
  destruct (tree_after_byName t t' css n tr) as (tr' & -> & Ec); [apply Hok|apply Hok'|done|done|].
  cbn. by rewrite Ec.
Qed.

Lemma contentOf_known (t : MultiTree C) n : mt_ok t -> n ∈ names (trees t) -> is_Some (contentOf t n).
Proof.
  intros Hok (e & -> & He)%list_elem_of_fmap. exists (content (treeRoot (ntTree e))).
  unfold contentOf. rewrite (proj2 (TreeByName_elem t (ntName e) (ntTree e) (proj1 Hok))); [done|]. by destruct e.
Qed.

(** What the pending writes of a block need: sizes that the tree nodes, the log
    and the snapshot format can hold, and no finished snapshot that waits for the
    pruner. *)
Definition block_fits order s : Prop :=
  (forall y, sysOf s = Some y -> css_small (weChangesets (pendingLog (db y)) ++ omap (popOne (stores s)) order)) /\
  forall s1 y1, flush order s = Some (Ok tt, s1) -> sysOf s1 = Some y1 -> commit_fits y1 /\ waiting y1 = false.

(** The last commit info is that of the trees, and nothing is pending. *)
Definition committed s (y : Sys C L) : Prop :=
  pendingLog (db y) = emptyLog /\
  forall params, ranges s params -> lastInfo s = Some (infoFor s params (lastCommitInfo (mtree (db y)))).

Lemma afterCommit_ok es c s y1 y2 ci :
  rs_ok es c (flushed s y1) y1 -> inv iv (es ++ [pendingLog (db y1)]) y2 c ->
  mtree (db y2) ≡ saved (mtree (db y1)) true ->
  rs_ok (es ++ [pendingLog (db y1)]) c (afterCommit (flushed s y1) y2 ci) y2.
Proof.
  intros [_ _ Hd Hm Ht] Hi Heq. split; [by destruct y2|done| |done|].
  - cbn [afterCommit stores setInfo setStores storesParams setDisk setDb]. by rewrite !dom_fmap_L.
  - intros key st. cbn [afterCommit stores setInfo setStores]. rewrite !lookup_fmap. intros Hk.
    destruct (stores (flushed s y1) !! key) as [[st0|]|] eqn:Es; [|done..]. injection Hk as <-.
    destruct (Ht key st0 Es) as [_ Hn]. split; [done|]. destruct Heq as (_ & _ & _ & Hl).
    rewrite (same_names _ _ Hl). cbn [saved trees withCommitInfo withTrees].
    unfold names, mapTrees in *. by rewrite <- list_fmap_compose.
Qed.

(** Committing a block.  Whatever the order in which Go ranges over its maps
    and whether the working hash was asked for first, [Commit] returns the next
    version and the hash that [WorkingHash] announced, and reaches the same
    state; there every memiavl store holds exactly what its writes, in their
    order, make of its earlier content, nothing is pending any more, the last
    commit info is that of the trees, and the store is again in order. *)
Lemma commit_ok es c s y order :
  rs_ok es c s y -> covers (stores s) order -> block_fits order s ->
  exists h s1 s' y' e,
    (forall order' params, covers (stores s) order' -> ranges s params ->
      WorkingHash order' params s = Some (Ok h, s1) /\
      RootMulti.Commit order' params s = Some (Ok (mkSdkID (versionAt iv (S (length es))) h), s') /\
      RootMulti.Commit order' params s1 = Some (Ok (mkSdkID (versionAt iv (S (length es))) h), s')) /\
    rs_ok (es ++ [e]) c s' y' /\ committed s' y' /\
    (forall key st, stores s !! key = Some (Memiavl st) ->
      stores s' !! key = Some (Memiavl (mkMemStore Live [])) /\
      exists kv, contentOf (mtree (db y)) (keyName key) = Some kv /\
        contentOf (mtree (db y')) (keyName key) = Some (apply_pairs kv (changeSet st))).
Proof.
  intros Hok Hc [Hsm Hfit]. pose proof Hok as [Hy Hi Hd Hm Ht].
  destruct (flush_spec es c s y order Hok Hc (Hsm y Hy)) as (y1 & E1 & Hok1 & Ha).
  destruct (Hfit _ y1 E1 (ok_sys _ _ _ _ Hok1)) as [Hf Hw].
  pose proof (ok_inv _ _ _ _ Hok1) as Hi1.
  destruct (commit_trees es y1 c Hi1 Hf Hw) as (y2 & E2 & Hi2 & Hp2 & Heq & Einfo).
  set (s1 := flushed s y1) in *. set (params := map_to_list (storesParams s)).
  set (ci := infoFor s1 params (lastCommitInfo (mtree (db y2)))).
  exists (ciHash ci), s1, (afterCommit s1 y2 ci), y2, (pendingLog (db y1)). split; [|split; [|split]].
  - intros order' params' Hc' Hp'. assert (flush order' s = Some (Ok tt, s1)) as E1' by (by rewrite <- (flush_perm s order)).
    assert (infoFor s1 params' (lastCommitInfo (mtree (db y2))) = ci) as Eci
      by exact (infoFor_perm s1 params' params _ Hm Hp' (Permutation_refl _)).
    assert (CommitInfoID ci = mkSdkID (versionAt iv (S (length es))) (ciHash ci)) as Eid.
    { unfold CommitInfoID. f_equal. unfold ci, infoFor. rewrite Einfo. 
      assert (MTVersion (saved (mtree (db y1)) true) = versionAt iv (S (length es))) as <-.
      { destruct (inv_version iv Hiv _ y2 c Hi2) as [Ev _]. rewrite length_app, Nat.add_1_r in Ev.
        rewrite <- Ev. symmetry. apply Heq. }
      by destruct (sdk46Compact s1). }
    rewrite <- Eid, <- Eci. split; [|split].
    + unfold WorkingHash. rewrite (SE_bind_ok _ _ _ _ _ (must_ok _ _ _ _ E1')).
      rewrite Einfo, <- saved_hashes. reflexivity.
    + exact (Commit_unfold s order' params' s1 y1 _ y2 E1' (ok_sys _ _ _ _ Hok1) E2).
    + exact (Commit_unfold s1 order' params' s1 y1 _ y2 (flush_again s y1 order' Hc') (ok_sys _ _ _ _ Hok1) E2).
  - by apply afterCommit_ok.
  - split; [done|]. intros params' Hp'. cbn [afterCommit lastInfo setInfo]. f_equal. symmetry.
    exact (infoFor_perm s1 params' params _ Hm Hp' (Permutation_refl _)).
  - intros key st Hk. split; [cbn [afterCommit stores setInfo setStores]; unfold s1; cbn [flushed stores setDisk setDb setStores]; by rewrite !lookup_fmap, Hk|].
    destruct (inv_version iv Hiv _ _ _ Hi) as (_ & _ & Hmt). destruct (inv_version iv Hiv _ _ _ Hi1) as (_ & _ & Hmt1).
    destruct (contentOf_known (mtree (db y)) (keyName key) Hmt) as [kv Hkv]; [by apply (Ht key st)|].
    exists kv. split; [done|]. rewrite (contentOf_equiv _ _ _ Heq), contentOf_saved.
    rewrite (contentOf_after _ _ _ _ kv Hmt Hmt1 Ha Hkv). f_equal. f_equal.
    apply pairs_for_popped; [apply (covers_names s); [done|by eapply covers_dom]| |done].
    apply (covers_elem _ _ _ Hc). by rewrite Hk.
Qed.
End Props.
