(* ===== verification/RootQuery.v ===== *)
(** * Reading from the commit multi-store

    Reads of the memiavl stores, queries at the last and at old versions with
    their proofs, and loading after a crash: properties of [RootMulti]. *)

From S2P Require Import Prelude KV Binary Sha256 Node Hash Snapshot Persisted Tree Iterator Ics23 Export Import.
From S2P Require Import Proto Wal MultiTree MultiSnapshot SnapshotName.
From S2P Require Import Db DbDisk NameSort DbHistory DbPending DbInv DbStep DbTasks DbLoad DbRun DbProps StateSync RootMulti RootProps.

Open Scope string_scope.
Open Scope Z_scope.
Open Scope list_scope.

(** ** Paths *)

Definition noSlash (n : string) : bool :=
  forallb (fun c => negb (Ascii.eqb c slash)) (String.list_ascii_of_string n).

Lemma splitSlash_app n sub : noSlash n = true -> splitSlash (n +:+ String slash sub) = (n, Some sub).
Proof.
  unfold noSlash. induction n as [|c n IH]; cbn [String.list_ascii_of_string forallb String.append splitSlash].
  - reflexivity.
  - intros [Hc%negb_true_iff Hn]%andb_prop. change (String c n +:+ String slash sub) with (String c (n +:+ String slash sub)).
    cbn [splitSlash]. by rewrite Hc, IH.
Qed.

Lemma parsePath_sub n sub :
  noSlash n = true -> parsePath (String slash (n +:+ String slash sub)) = Ok (n, String slash sub).
Proof. intros Hn. cbn [parsePath]. by rewrite Ascii.eqb_refl, splitSlash_app. Qed.

(** ** The answer of one store *)

Section Answer.
Context {C : Type} `{LawsC : CacheLaws C} `{LawsP : PrefixEndLaws}.
Context (leafApply : LeafOp -> bytes -> bytes -> option bytes) (innerApply : InnerOp -> bytes -> option bytes).
Hypothesis leafSpec : leaf_spec leafApply.
Hypothesis innerSpec : inner_spec innerApply.

(** The proof of a value, or of its absence, against a root hash: the neighbours
    of an absent key are next to each other. *)
Definition proof_of (root : bytes) (kv : kvs) (key : bytes) (p : CommitmentProof) : Prop :=
  match kv_get key kv, p with
  | Some v, ProofExist p => proves leafApply innerApply root (key, v) p
  | None, ProofNonExist p => neKey p = key /\ exists l1 l2, kv = l1 ++ l2 /\
      (forall k, k ∈ keys l1 -> k <b key) /\ (forall k, k ∈ keys l2 -> key <b k) /\
      proves_opt leafApply innerApply root (last l1) (neLeft p) /\
      proves_opt leafApply innerApply root (head l2) (neRight p)
  | _, _ => False
  end.

Lemma getProofFromTree_ok (tr : Tree C) key :
  wf_root (treeRoot tr) -> zlen (content (treeRoot tr)) < 2 ^ 32 ->
  exists p, getProofFromTree tr key (match kv_get key (content (treeRoot tr)) with Some _ => true | None => false end)
    = Some [IavlOp key p] /\ proof_of (RootHash tr) (content (treeRoot tr)) key p.
Proof.
  intros Hwf Hs. unfold proof_of, getProofFromTree. destruct (kv_get key (content (treeRoot tr))) as [v|] eqn:Eg.
  - destruct (treeRoot tr) as [n|] eqn:Er; [|done].
    pose proof (GetMembershipProof_ok leafApply innerApply tr n key leafSpec innerSpec Er Hwf Hs) as Hp.
    cbn [content] in Eg. rewrite Eg in Hp. destruct Hp as (p & -> & Hp). by exists (ProofExist p).
  - pose proof (GetNonMembershipProof_ok leafApply innerApply tr key leafSpec innerSpec Hwf Hs) as Hp.
    rewrite Eg in Hp. destruct Hp as (p & l1 & l2 & -> & Hk & Hrest). exists (ProofNonExist p).
    split; [done|]. split; [done|]. by exists l1, l2.
Qed.
End Answer.

(** ** Reads *)

Section Reads.
Context {C : Type} `{LawsC : CacheLaws C} {L : Type} `{LawsL : WalLaws L}.
Context {E : Type} `{ExtE : ExtStores E} `{LawsH : CommitHashLaws} `{LawsP : PrefixEndLaws}.
Context (iv : Z) (Hiv : 0 <= iv < 2 ^ 32).

Local Abbreviation Store := (RootMulti.Store (C:=C) (L:=L) (E:=E)).
Implicit Types (t : MultiTree C) (s : Store) (es : list WALEntry) (y : Sys C L).

(** Only the cache of a tree changes. *)
Lemma putTree_spec t n tr tr' :
  mt_ok t -> TreeByName t n = Some tr -> same_tree tr' tr -> tree_ok tr' ->
  mt_ok (putTree n tr' t) /\ putTree n tr' t ≡ t /\ lastCommitInfo (putTree n tr' t) = lastCommitInfo t.
Proof.
  intros Hok Htr [Ev Er] Hok'. pose proof Hok as ((m & Em & Hm) & _ & _ & Ht).
  unfold TreeByName in Htr. unfold putTree. rewrite Em in *. cbn [mbind option_bind] in *.
  destruct (m !! n) as [i|] eqn:Ei; [|done]. cbn [mbind option_bind] in Htr.
  destruct (trees t !! i) as [e|] eqn:Ee; [|done]. injection Htr as <-.
  assert (forall (R : NamedTree C -> NamedTree C -> Prop),
    (forall x, tree_ok (ntTree x) -> R x x) -> R e (mkNamed tr' (ntName e)) ->
    Forall2 R (trees t) (alter (fun e => mkNamed tr' (ntName e)) i (trees t))) as Hall.
  { intros R Hrefl He. apply Forall2_same_length_lookup. rewrite length_alter. split; [done|].
    intros j a b Ha Hb. destruct (decide (i = j)) as [<-|Hne].
    - rewrite list_lookup_alter_eq, Ee in Hb. rewrite Ee in Ha. injection Ha as <-. by injection Hb as <-.
    - rewrite list_lookup_alter_ne in Hb by done. rewrite Ha in Hb. injection Hb as <-. apply Hrefl.
      rewrite Forall_lookup in Ht. by eapply Ht. }
  split; [|split; [|done]].
  - apply (mt_ok_withTrees t _ []); [done|]. apply Hall; [by intros|].
    split_and!; try done. cbn [ntTree pairs_for apply_pairs foldl]. by rewrite Er.
  - split_and!; try done. symmetry. cbn [trees withTrees]. apply Hall; [done|]. by split_and!.
Qed.

Lemma inv_putTree es y c n tr tr' :
  inv iv es y c -> TreeByName (mtree (db y)) n = Some tr -> same_tree tr' tr -> tree_ok tr' ->
  inv iv es (withDb y (setTree (putTree n tr' (mtree (db y))))) c.
Proof.
  intros Hi Htr Hs Hok'. destruct (inv_version iv Hiv es y c Hi) as (_ & _ & Hok).
  destruct (putTree_spec _ n tr tr' Hok Htr Hs Hok') as (Hokp & Heq & Einfo).
  destruct (inv_live _ _ _ _ Hi) as (tN & HtN & [_ Hf Hcl Hnd (u & Eu & Hu)]).
  replace (setTree (putTree n tr' (mtree (db y)))) with
    (fun x : DB C => setTree (putTree n tr' (mtree (db y))) x) by done.
  assert (setPending (pendingLog (db y)) (db y) = db y) as Ep by (by destruct (db y)).
  pose proof (inv_setLive iv es y c (pendingLog (db y)) (putTree n tr' (mtree (db y))) tN Hi HtN) as Hset.
  unfold withDb in *. rewrite Ep in Hset. apply Hset.
  - split; try done. exists u. split; [done|]. by rewrite Heq.
  - intros He. rewrite Einfo, (infoOf_equiv _ _ Heq). by apply (inv_info _ _ _ _ Hi).
Qed.

(** The store with the cache of a tree changed. *)
Lemma rs_ok_putTree es c s y n tr tr' :
  rs_ok iv es c s y -> TreeByName (mtree (db y)) n = Some tr -> same_tree tr' tr -> tree_ok tr' ->
  let t' := putTree n tr' (mtree (db y)) in
  rs_ok iv es c (setDb (Some (setTree t' (db y))) s) (withDb y (setTree t')) /\ t' ≡ mtree (db y) /\
  (committed s y -> committed (setDb (Some (setTree t' (db y))) s) (withDb y (setTree t'))).
Proof.
  intros [Hy Hi Hd Hm Ht] Htr Hs Hok' t'. destruct (inv_version iv Hiv es y c Hi) as (_ & _ & Hok).
  destruct (putTree_spec _ n tr tr' Hok Htr Hs Hok') as (Hokp & Heq & Einfo). fold t' in Hokp, Heq, Einfo.
  split; [|split; [done|]].
  - split; [|by eapply inv_putTree|done|done|].
    + unfold sysOf in *. cbn [rsDb setDb rsDisk]. destruct (rsDb s); [|done]. by injection Hy as <-.
    + intros key st Hk. destruct (Ht key st Hk) as [Hl Hn]. split; [done|].
      cbn [db withDb mtree setTree]. destruct Heq as (_ & _ & _ & Hf). by rewrite (same_names _ _ Hf).
  - intros [Hp Hinfo]. split; [done|]. cbn [db withDb mtree setTree]. rewrite Einfo. exact Hinfo.
Qed.

Lemma TreeGet_version (tr : Tree C) key : version (TreeGet tr key).2 = version tr.
Proof. unfold TreeGet. destruct (mbind _ _); [done|]. by destruct (GetWithIndex _ _).2. Qed.

(** The trees of a state of the history fit the snapshot format. *)
Lemma state_sizes es k t tk n tr :
  hist_ok (C:=C) iv es -> (1 <= k <= length es)%nat -> stateAt iv es k tk -> t ≡ tk -> mt_ok t ->
  TreeByName t n = Some tr ->
  tree_ok tr /\ zlen (content (treeRoot tr)) < 2 ^ 32 /\ version tr = versionAt iv k.
Proof.
  intros Hh Hk Htk Heq Hok Htr. destruct (stateAt_version iv Hiv es k tk Hh ltac:(lia) Htk) as (Ev & _ & _ & Hst).
  apply (storable_state_equiv _ t) in Hst; [|done].
  apply TreeByName_elem in Htr; [|apply Hok]. pose proof Hok as (_ & _ & (_ & _ & _ & Hv) & Ht).
  rewrite Forall_forall in Ht, Hv. split; [by apply (Ht _ Htr)|]. split.
  - apply content_storable. destruct Hst as [Hr _]. rewrite Forall_forall in Hr. by apply (Hr _ Htr).
  - pose proof (Hv _ Htr) as Et. cbn [ntTree] in Et. rewrite Et. unfold treeVersion. replace (MTVersion t) with (versionAt iv k) by (rewrite <- Ev; symmetry; apply Heq).
    pose proof (versionAt_lt iv 0 k ltac:(lia)) as Hpos. change (versionAt iv 0) with 0 in Hpos.
    unfold nextVersion. destruct (_ && _) eqn:Eb; [|lia]. apply andb_prop in Eb as [Eb _]. lia.
Qed.

Lemma hashed_elem s params t n tr :
  mt_ok t -> TreeByName t n = Some tr ->
  (n, RootHash tr) ∈ hashed <$> sdkStoreInfos (infoFor s params (infoOf t)).
Proof.
  intros Hok Htr. apply TreeByName_elem in Htr; [|apply Hok].
  assert (mkSdkStore n (mkSdkID (version tr) (RootHash tr)) ∈ sdkStoreInfos (convertCommitInfo (infoOf t))) as Hin.
  { unfold convertCommitInfo, infoOf, buildCommitInfo. cbn [sdkStoreInfos ciStoreInfos]. rewrite <- list_fmap_compose.
    apply list_elem_of_fmap. by exists (mkNamed tr n). }
  apply (list_elem_of_fmap_2 hashed) in Hin. unfold infoFor. destruct (sdk46Compact s); [|exact Hin].
  cbn [amendCommitInfo mergeStoreInfos sdkStoreInfos]. rewrite sortBy_perm, fmap_app. apply elem_of_app. by left.
Qed.

(** ** Reads and writes of a memiavl store *)

(** A write: [None] deletes the key. *)
Definition doWrite (w : StoreKey * (bytes * option bytes)) : SE Store unit :=
  match w with
  | (key, (k, Some v)) => StoreSet key k v
  | (key, (k, None)) => StoreDelete key k
  end.

Definition pairOf (w : bytes * option bytes) : KVPair :=
  match w.2 with Some v => mkPair false w.1 (Some v) | None => mkPair true w.1 None end.

(** The pairs that a sequence of writes puts in the change set of a store. *)
Fixpoint writtenTo (key : StoreKey) (ws : list (StoreKey * (bytes * option bytes))) : ChangeSet :=
  match ws with
  | [] => []
  | w :: ws => (if bool_decide (w.1 = key) then [pairOf w.2] else []) ++ writtenTo key ws
  end.

Lemma doWrite_ok es c s y w st :
  rs_ok iv es c s y -> stores s !! w.1 = Some (Memiavl st) ->
  doWrite w s = Some (Ok tt, putMem w.1 (mkMemStore (stTree st) (changeSet st ++ [pairOf w.2])) s) /\
  rs_ok iv es c (putMem w.1 (mkMemStore (stTree st) (changeSet st ++ [pairOf w.2])) s) y.
Proof.
  intros [Hy Hi Hd Hm Ht] Hs. destruct w as [key [k v]]. cbn [fst snd] in *. split.
  - unfold doWrite, StoreSet, StoreDelete. destruct v; sstate; unfold memStoreOf; rewrite Hs; reflexivity.
  - split; [done|done| |done|].
    + cbn [stores putMem setStores storesParams]. rewrite dom_insert_lookup_L; [done|by exists (Memiavl st)].
    + intros key' st'. cbn [stores putMem setStores].
      intros [[<- [= <-]]|[_ Hk]]%lookup_insert_Some; [by apply (Ht key st)|by apply (Ht key' st')].
Qed.

(** Writes are collected, in their order, and touch no tree. *)
Lemma writes_collected es c y ws s :
  rs_ok iv es c s y -> Forall (fun w => exists st, stores s !! w.1 = Some (Memiavl st)) ws ->
  exists s1, forM ws doWrite s = Some (Ok tt, s1) /\ rs_ok iv es c s1 y /\ (committed s y -> committed s1 y) /\
    s1 = setStores (stores s1) s /\ forall key st, stores s !! key = Some (Memiavl st) ->
      stores s1 !! key = Some (Memiavl (mkMemStore (stTree st) (changeSet st ++ writtenTo key ws))).
Proof.
  revert s. induction ws as [|w ws IH]; intros s Hok Hall.
  { exists s. split_and!; try done; [by destruct s|]. intros key [tr cs] Hk. cbn. by rewrite app_nil_r. }
  apply Forall_cons in Hall as [[st Hst] Hall]. destruct (doWrite_ok es c s y w st Hok Hst) as [E1 Hok1].
  set (s0 := putMem _ _ s) in *.
  destruct (IH s0 Hok1) as (s1 & E' & Hok' & Hcom & Hs & Hw).
  { eapply Forall_impl; [exact Hall|]. intros w' [st' Hst']. unfold s0. cbn [stores putMem setStores].
    destruct (decide (w.1 = w'.1)) as [->|Hne]; [rewrite lookup_insert_eq|rewrite lookup_insert_ne by done]; by eexists. }
  exists s1. split; [by cbn [forM]; rewrite (SE_bind_ok _ _ _ _ _ E1)|]. split; [done|]. split; [by intros ?; apply Hcom|].
  split; [exact Hs|]. intros key st' Hk. cbn [writtenTo]. case_bool_decide as Ek.
  - subst key. rewrite Hst in Hk. injection Hk as <-.
    rewrite (Hw w.1 (mkMemStore (stTree st) (changeSet st ++ [pairOf w.2]))) by apply lookup_insert_eq.
    cbn [stTree changeSet]. by rewrite <- app_assoc.
  - apply Hw. unfold s0. cbn [stores putMem setStores]. by rewrite lookup_insert_ne.
Qed.

(** Reads of a committed multi-store see the last state, whatever is collected. *)
Lemma StoreGet_committed es c s y key st k :
  rs_ok iv es c s y -> committed s y -> es <> [] -> stores s !! key = Some (Memiavl st) ->
  exists kv s' y', contentOf (mtree (db y)) (keyName key) = Some kv /\
    StoreGet key k s = Some (Ok (kv_get k kv), s') /\ rs_ok iv es c s' y' /\ committed s' y' /\
    mtree (db y') ≡ mtree (db y).
Proof.
  intros Hok Hcom Hne Hst. pose proof Hok as [Hy Hi _ _ Ht]. destruct (Ht key st Hst) as [Hl Hn].
  destruct (inv_version iv Hiv es y c Hi) as (_ & _ & Hmt).
  destruct (inv_committed_state iv es y c Hi (proj1 Hcom)) as (tN & HtN & Heq).
  destruct (contentOf_known (mtree (db y)) (keyName key) Hmt Hn) as [kv Hkv]. exists kv. unfold contentOf in Hkv.
  destruct (TreeByName (mtree (db y)) (keyName key)) as [tr|] eqn:Htr; [|done]. injection Hkv as <-.
  assert (length es <> O) as Hlen by (by destruct es).
  destruct (state_sizes es (length es) (mtree (db y)) tN (keyName key) tr) as (Htok & Hsz & _);
    [apply (inv_hist _ _ _ _ Hi)|lia|done..|].
  destruct (TreeGet_ok tr k Htok Hsz) as (Eg & Hok' & Er). pose proof (TreeGet_version tr k) as Ev.
  assert (rsDb s = Some (db y)) as Edb by (unfold sysOf in Hy; destruct (rsDb s); [by injection Hy as <-|done]).
  destruct (rs_ok_putTree es c s y (keyName key) tr (TreeGet tr k).2 Hok Htr) as (Hok2 & Heq2 & Hcom2); [done..|].
  eexists _, _. split; [by unfold contentOf; rewrite Htr|]. split; [|split; [exact Hok2|split; [by apply Hcom2|exact Heq2]]].
  unfold StoreGet. sstate. unfold memStoreOf. rewrite Hst. sstate. unfold treeOf, writeTree. rewrite Hl, Edb.
  cbn [mbind option_bind fmap option_fmap option_map]. rewrite Htr. sstate. unfold compose.
  rewrite <- Eg. destruct (TreeGet tr k). sstate. by rewrite Edb.
Qed.

(** C4: a block.  Writes to the memiavl stores succeed and are not visible to
    the reads that follow.  Whatever the order in which Go ranges over its maps,
    and whether the working hash is asked for first or not, the commit returns
    the next version with the hash that [WorkingHash] announces and reaches the
    same state, which is again in order; from then on every read of every store
    returns what the writes, in their order, make of the earlier content. *)
Theorem root_block_correct es c s y ws order :
  rs_ok iv es c s y -> committed s y -> es <> [] ->
  (forall key st, stores s !! key = Some (Memiavl st) -> changeSet st = []) ->
  Forall (fun w => exists st, stores s !! w.1 = Some (Memiavl st)) ws -> covers (stores s) order ->
  (forall s1, forM ws doWrite s = Some (Ok tt, s1) -> block_fits order s1) ->
  exists s1 s2 s' y' h e, forM ws doWrite s = Some (Ok tt, s1) /\
    (forall order' params, covers (stores s) order' -> ranges s params ->
      let id := mkSdkID (versionAt iv (S (length es))) h in
      WorkingHash order' params s1 = Some (Ok h, s2) /\
      RootMulti.Commit order' params s1 = Some (Ok id, s') /\ RootMulti.Commit order' params s2 = Some (Ok id, s')) /\
    rs_ok iv (es ++ [e]) c s' y' /\ committed s' y' /\
    forall key st k, stores s !! key = Some (Memiavl st) ->
      exists kv, contentOf (mtree (db y)) (keyName key) = Some kv /\
        fst <$> StoreGet key k s1 = Some (Ok (kv_get k kv)) /\
        fst <$> StoreGet key k s' = Some (Ok (kv_get k (apply_pairs kv (writtenTo key ws)))).
Proof.
  intros Hok Hcom Hne Hclean Hall Hc Hfit.
  destruct (writes_collected es c y ws s Hok Hall) as (s1 & E1 & Hok1 & Hcom1 & Hs1 & Hw). specialize (Hcom1 Hcom).
  assert (storesParams s1 = storesParams s) as Eps by (by rewrite Hs1).
  assert (forall o, covers (stores s) o -> covers (stores s1) o) as Hcov.
  { intros o. apply covers_dom. by rewrite (ok_dom _ _ _ _ _ Hok), (ok_dom _ _ _ _ _ Hok1), Eps. }
  destruct (commit_ok iv Hiv es c s1 y order Hok1 (Hcov _ Hc) (Hfit s1 E1))
    as (h & s2 & s' & y' & e & Hcommit & Hok' & Hcom' & Hst').
  exists s1, s2, s', y', h, e. split; [done|]. split; [|split; [done|split; [done|]]].
  - intros order' params Ho Hp. apply Hcommit; [by apply Hcov|]. unfold ranges. by rewrite Eps.
  - intros key st k Hk. specialize (Hw key st Hk). rewrite (Hclean key st Hk) in Hw. cbn [app] in Hw.
    destruct (StoreGet_committed es c s1 y key _ k Hok1 Hcom1 Hne Hw) as (kv & s3 & y3 & Hkv & Eg & _).
    destruct (Hst' key _ Hw) as (Hlive & kv' & Hkv' & Hafter). rewrite Hkv in Hkv'. injection Hkv' as <-.
    destruct (StoreGet_committed (es ++ [e]) c s' y' key (mkMemStore Live []) k Hok' Hcom') as (kv2 & s4 & y4 & Hkv2 & Eg2 & _);
      [by destruct es|exact Hlive|].
    rewrite Hafter in Hkv2. injection Hkv2 as <-. exists kv. by rewrite Eg, Eg2.
Qed.

(** ** Queries *)

Context (requireProof : string -> bool).
Context (leafApply : LeafOp -> bytes -> bytes -> option bytes) (innerApply : InnerOp -> bytes -> option bytes).
Hypothesis leafSpec : leaf_spec leafApply.
Hypothesis innerSpec : inner_spec innerApply.

(** A query for a key, with a proof. *)
Definition keyQuery (n : string) (key : bytes) (height : Z) : RequestQuery :=
  mkReq key (String slash (n +:+ String slash "key")) height true.

Lemma storeQuery_ok es k t tk n tr key height :
  hist_ok (C:=C) iv es -> (1 <= k <= length es)%nat -> stateAt iv es k tk -> t ≡ tk -> mt_ok t ->
  TreeByName t n = Some tr -> key <> [] -> height = 0 \/ height = versionAt iv k ->
  exists p tr', storeQuery (TreeByName t n) (mkReq key (String slash "key") height true) =
      Some (Ok (mkRes key (kv_get key (content (treeRoot tr))) (versionAt iv k) (Some [IavlOp key p])), Some tr') /\
    same_tree tr' tr /\ tree_ok tr' /\ proof_of leafApply innerApply (RootHash tr) (content (treeRoot tr)) key p.
Proof.
  intros Hh Hk Htk Heq Hok Htr Hkey Hht.
  destruct (state_sizes es k t tk n tr Hh Hk Htk Heq Hok Htr) as (Htok & Hsz & Hv).
  destruct (TreeGet_ok tr key Htok Hsz) as (Eg & Hok' & Er).
  destruct (TreeGet tr key) as [value tr'] eqn:Et. cbn [fst snd] in *. subst value.
  assert (version tr' = version tr) as Ev' by (rewrite <- (TreeGet_version tr key), Et; done).
  destruct (getProofFromTree_ok leafApply innerApply leafSpec innerSpec tr' key) as (p & Ep & Hp);
    [apply Hok'|by rewrite Er|].
  rewrite Er in Ep. exists p, tr'. split; [|split; [done|split; [done|]]].
  - rewrite Htr. unfold storeQuery. cbn [reqData reqHeight reqPath reqProve].
    destruct key as [|b key]; [done|]. cbn [mbind option_bind]. rewrite Hv.
    assert ((0 <? height) && negb (height =? versionAt iv k) = false) as ->.
    { destruct Hht as [->| ->]; [done|]. by rewrite Z.eqb_refl, andb_false_r. }
    rewrite bool_decide_true by done. rewrite Et. cbn [negb]. rewrite Ep. cbn [mbind option_bind].
    by rewrite Ev', Hv.
  - rewrite Er in Hp. unfold RootHash in *. by rewrite Er in Hp.
Qed.

(** The database a query reads. *)
Lemma queryDB_ok es c s y k tk :
  rs_ok iv es c s y -> committed s y -> (1 <= k <= length es)%nat -> stateAt iv es k tk ->
  k = length es \/ (exists i, (i <= k)%nat /\ is_Some (dirs (disk y) !! snap iv i) /\
    Z.of_nat k <= log_last (wal (disk y))) ->
  exists d own, queryDB (versionAt iv k) s = Some (Ok (d, own), s) /\ mtree d ≡ tk /\ mt_ok (mtree d) /\
    lastCommitInfo (mtree d) = infoOf (mtree d) /\ (own = true -> d = db y).
Proof.
  intros [Hy Hi _ _ _] [Hp Hinfo] Hk Htk Hwhere. destruct (inv_version iv Hiv es y c Hi) as (Ev & _ & Hok).
  pose proof (inv_hist _ _ _ _ Hi) as Hh.
  specialize (Hinfo (map_to_list (storesParams s)) (Permutation_refl _)).
  rewrite (inv_info _ _ _ _ Hi Hp) in Hinfo. set (ci := infoFor s _ _) in Hinfo.
  assert (sdkInfoVersion ci = versionAt iv (length es)) as Evi.
  { rewrite <- Ev. unfold ci, infoFor. by destruct (sdk46Compact s). }
  assert (rsDb s = Some (db y) /\ rsDisk s = disk y) as [Edb Edisk].
  { unfold sysOf in Hy. destruct (rsDb s); [|done]. by injection Hy as <-. }
  unfold queryDB. sstate. rewrite Hinfo. sstate. rewrite Evi. destruct (decide (k = length es)) as [->|Hne].
  - rewrite Z.eqb_refl. sstate. rewrite Edb. exists (db y), true. split; [done|].
    destruct (inv_committed_state iv es y c Hi Hp) as (tN & HtN & Heq).
    pose proof (stateAt_unique iv _ _ _ _ HtN Htk) as <-. split; [done|]. split; [done|].
    split; [by apply (inv_info _ _ _ _ Hi)|done].
  - destruct Hwhere as [?|(i & Hik & Hs & Hlast)]; [done|].
    pose proof (versionAt_lt iv k (length es) ltac:(lia)) as Hlt. pose proof (hist_versions _ _ Hh).
    pose proof (versionAt_lt iv 0 k ltac:(lia)) as Hpos. change (versionAt iv 0) with 0 in Hpos.
    rewrite (proj2 (Z.eqb_neq _ _)), u32_id by lia.
    set (o := mkOptions false 0 true [] 0 0 (versionAt iv k) 0 false 0 false).
    destruct (load_version iv Hiv es y c o i k Hi) as (t & d' & tk' & El & Htk' & Heq & Hokt & Hit & _ & Hd);
      [done..|by apply Hk|done|done|].
    pose proof (stateAt_unique iv _ _ _ _ Htk' Htk) as ->. exists (loaded o t), false. split; [|done].
    unfold loadDB. unfold mbind, SE_bind. rewrite Edisk, El, (Hd eq_refl). cbn [mbind option_bind].
    rewrite <- Edisk. by destruct s.
Qed.

Lemma queryVersion es c s y k height :
  rs_ok iv es c s y -> (1 <= k)%nat -> height = versionAt iv k \/ height = 0 /\ k = length es ->
  (if height =? 0 then dbGets (fun d => MTVersion (mtree d)) else mret height) s = Some (Ok (versionAt iv k), s).
Proof.
  intros [Hy Hi _ _ _] Hk Hht. destruct (inv_version iv Hiv es y c Hi) as (Ev & _).
  unfold sysOf in Hy. destruct (rsDb s) as [d|] eqn:Ed; [|done]. injection Hy as <-. destruct Hht as [->|[-> ->]].
  - pose proof (versionAt_lt iv 0 k ltac:(lia)) as Hpos. change (versionAt iv 0) with 0 in Hpos.
    by rewrite (proj2 (Z.eqb_neq _ _)) by lia.
  - cbn [Z.eqb]. unfold dbGets. sstate. rewrite Ed. by rewrite <- Ev.
Qed.

(** C5: a query for a key of a store, at the last version or at an older one
    that a snapshot and the log still hold, answers with the value that the
    store has in the state of that version, or that it has none; the proof
    that comes with it verifies against the root hash which the appended commit
    info of that very state lists for the store; and the multi-store is left as
    it was, up to caches. *)
Theorem root_query_correct es c s y k tk n kv key height params :
  rs_ok iv es c s y -> committed s y -> (1 <= k <= length es)%nat -> stateAt iv es k tk ->
  k = length es \/ (exists i, (i <= k)%nat /\ is_Some (dirs (disk y) !! snap iv i) /\
    Z.of_nat k <= log_last (wal (disk y))) ->
  contentOf tk n = Some kv -> noSlash n = true -> key <> [] -> requireProof (String slash "key") = true ->
  height = versionAt iv k \/ height = 0 /\ k = length es ->
  let ci := infoFor s params (infoOf tk) in
  exists p root s' y', Query requireProof params (keyQuery n key height) s =
      Some (Ok (mkRes key (kv_get key kv) (versionAt iv k) (Some [IavlOp key p; CommitInfoOp ci n])), s') /\
    proof_of leafApply innerApply root kv key p /\ (n, root) ∈ hashed <$> sdkStoreInfos ci /\
    rs_ok iv es c s' y' /\ committed s' y' /\ mtree (db y') ≡ mtree (db y).
Proof.
  intros Hok Hcom Hk Htk Hwhere Hkv Hn Hkey Hreq Hht ci.
  destruct (queryDB_ok es c s y k tk Hok Hcom Hk Htk Hwhere) as (d & own & Eq & Heq & Hokd & Hinfo & Hown).
  pose proof Hok as [Hy Hi _ _ _]. pose proof (inv_hist _ _ _ _ Hi) as Hh.
  rewrite <- (contentOf_equiv _ _ n Heq) in Hkv. unfold contentOf in Hkv.
  destruct (TreeByName (mtree d) n) as [tr|] eqn:Htr; [|done]. injection Hkv as <-. cbn [compose].
  destruct (storeQuery_ok es k (mtree d) tk n tr key height Hh Hk Htk Heq Hokd Htr Hkey) as (p & tr' & Es & Hs & Htok & Hp).
  { destruct Hht as [->|[-> _]]; auto. }
  assert (infoFor s params (lastCommitInfo (mtree d)) = ci) as Eci by (unfold ci; by rewrite Hinfo, (infoOf_equiv _ _ Heq)).
  pose proof (queryVersion es c s y k height Hok ltac:(lia) Hht) as Ever.
  unfold Query, keyQuery. cbn [reqHeight reqPath reqData reqProve].
  rewrite (SE_bind_ok _ _ _ _ _ Ever), (SE_bind_ok _ _ _ _ _ Eq). rewrite parsePath_sub by done. sstate. rewrite Es. sstate.
  assert ((n, RootHash tr) ∈ hashed <$> sdkStoreInfos ci) as Hin.
  { rewrite <- Eci, Hinfo. by apply hashed_elem. }
  destruct own; sstate; rewrite Hreq; cbn [negb orb resProofOps].
  - specialize (Hown eq_refl). subst d.
    destruct (rs_ok_putTree es c s y n tr tr' Hok Htr Hs Htok) as (Hok' & Heq' & Hcom').
    eexists p, (RootHash tr), _, _. split; [by rewrite <- Eci|]. split; [done|]. split; [done|].
    split; [exact Hok'|]. split; [by apply Hcom'|exact Heq'].
  - exists p, (RootHash tr), s, y. split; [by rewrite <- Eci|]. by split_and!.
Qed.
(** A query for a prefix returns all pairs whose keys have it, in key order. *)
Lemma storeQuery_subspace (tr : Tree C) p prove :
  wf_root (treeRoot tr) -> p <> [] ->
  storeQuery (Some tr) (mkReq p (String slash "subspace") 0 prove) =
    Some (Ok (mkRes p (Some (Pairs_Marshal (base.filter (fun e => hasPrefix p e.1 = true) (content (treeRoot tr)))))
      (version tr) None), Some tr).
Proof.
  intros Hwf Hp. unfold storeQuery. cbn [reqData reqHeight reqPath]. destruct p as [|b p]; [done|].
  cbn [mbind option_bind andb Z.ltb Z.compare]. rewrite bool_decide_false, bool_decide_true by done.
  unfold iteratePairs. rewrite drain_range by (done || lia). cbn [id]. do 6 f_equal.
  apply list_filter_iff. intros e. by rewrite prefixEnd_domain.
Qed.

(** A query for a store that the trees do not have ends in a panic. *)
Lemma unknown_store_panics es c s y n key params :
  rs_ok iv es c s y -> committed s y -> es <> [] -> noSlash n = true -> key <> [] ->
  n ∉ names (trees (mtree (db y))) -> Query requireProof params (keyQuery n key 0) s = None.
Proof.
  intros Hok Hcom Hne Hn Hkey Hnot. pose proof Hok as [Hy Hi _ _ _]. assert (length es <> O) as Hlen by (by destruct es).
  destruct (inv_committed_state iv es y c Hi (proj1 Hcom)) as (tN & HtN & Heqy).
  destruct (queryDB_ok es c s y (length es) tN Hok Hcom ltac:(lia) HtN ltac:(by left)) as (d & own & Eq & Heq & Hokd & _).
  assert (TreeByName (mtree d) n = None) as Hnone.
  { destruct (TreeByName (mtree d) n) as [tr|] eqn:Etr; [|done]. exfalso. apply Hnot.
    apply TreeByName_elem in Etr; [|apply Hokd]. apply (list_elem_of_fmap_2 ntName) in Etr.
    rewrite <- Heqy in Heq. destruct Heq as (_ & _ & _ & Hl). by rewrite <- (same_names _ _ Hl). }
  unfold Query, keyQuery. cbn [reqHeight reqPath reqData reqProve].
  rewrite (SE_bind_ok _ _ _ _ _ (queryVersion es c s y (length es) 0 Hok ltac:(lia) ltac:(by right))).
  rewrite (SE_bind_ok _ _ _ _ _ Eq). rewrite parsePath_sub by done. sstate. rewrite Hnone. by destruct key.
Qed.
End Reads.

(** ** Loading *)

Section Loading.
Context {C : Type} `{LawsC : CacheLaws C} {L : Type} `{LawsL : WalLaws L}.
Context {E : Type} `{ExtE : ExtStores E} `{LawsH : CommitHashLaws}.
Context (objstore : bool).
Context (iv : Z) (Hiv : 0 <= iv < 2 ^ 32).

Local Abbreviation Store := (RootMulti.Store (C:=C) (L:=L) (E:=E)).
Implicit Types (t : MultiTree C) (s : Store) (es : list WALEntry) (y : Sys C L).

(** The trees have the mounted memiavl stores, and the other keys are of the kind
    of their stores. *)
Definition loadable (ns : list string) (key : StoreKey) (typ : StoreType) : Prop :=
  match typ with
  | StoreTypeIAVL => keyName key ∈ ns
  | StoreTypeTransient => keyKind key = TransientStoreKey
  | StoreTypeMemory => keyKind key = MemoryStoreKey
  | StoreTypeObject => objstore = true /\ keyKind key = ObjectStoreKey
  | _ => False
  end.

Lemma loadCommitStore_ok (d : DB C) key typ :
  mt_ok (mtree d) -> loadable (names (trees (mtree d))) key typ ->
  exists st, loadCommitStoreFromParams (E:=E) objstore d key typ = Some (Ok st) /\
    forall m, st = Memiavl m -> m = mkMemStore Live [] /\ keyName key ∈ names (trees (mtree d)).
Proof.
  intros Hok Hl. unfold loadCommitStoreFromParams, loadable in *. destruct typ; try done; eauto.
  - destruct (contentOf_known (mtree d) (keyName key) Hok Hl) as [kv Hkv]. unfold contentOf in Hkv.
    destruct (TreeByName (mtree d) (keyName key)); [|done]. eexists. split; [done|]. by intros m [= <-].
  - rewrite Hl. by eexists.
  - rewrite Hl. by eexists.
  - destruct Hl as [-> ->]. by eexists.
Qed.

Lemma loadStores_ok (d : DB C) ps keys m :
  mt_ok (mtree d) ->
  Forall (fun key => exists typ, ps !! key = Some typ /\ loadable (names (trees (mtree d))) key typ) keys ->
  exists m', loadStores (E:=E) objstore d ps keys m = Some (Ok m') /\ dom m' = list_to_set keys ∪ dom m /\
    forall key st, m' !! key = Some (Memiavl st) -> m !! key = Some (Memiavl st) \/
      st = mkMemStore Live [] /\ keyName key ∈ names (trees (mtree d)).
Proof.
  intros Hok. revert m. induction keys as [|key keys IH]; intros m Hall.
  { exists m. split; [done|]. split; [set_solver|auto]. }
  apply Forall_cons in Hall as [(typ & Et & Hl) Hall]. cbn [loadStores]. rewrite Et. cbn [mbind option_bind].
  destruct (loadCommitStore_ok d key typ Hok Hl) as (st & -> & Hst). cbn [mbind option_bind].
  destruct (IH (<[key := st]> m) Hall) as (m' & E' & Hd & Hm). exists m'. split; [done|]. split.
  - rewrite Hd, dom_insert_L. set_solver.
  - intros k st' Hk. destruct (Hm k st' Hk) as [Hk'|?]; [|auto].
    apply lookup_insert_Some in Hk' as [[<- ->]|[_ ?]]; [right; by apply Hst|by left].
Qed.

Lemma iavlNames_NoDup s :
  mounted s -> NoDup (iavlNames (storesParams s) (sortBy keyName (elements (dom (storesParams s))))).
Proof.
  intros Hm. unfold iavlNames. set (ks := sortBy _ _).
  assert (forall k, k ∈ ks -> is_Some (storesParams s !! k)) as Hks.
  { intros k. unfold ks. rewrite sortBy_perm. by rewrite elem_of_elements, elem_of_dom. }
  apply NoDup_fmap_2_strong.
  - intros a b Ha Hb Eab. apply list_elem_of_In, filter_In in Ha as [Ha _], Hb as [Hb _].
    apply list_elem_of_In, Hks, Hm in Ha, Hb. rewrite Eab in Ha. congruence.
  - apply NoDup_ListNoDup, List.NoDup_filter, NoDup_ListNoDup. unfold ks. rewrite sortBy_perm. apply NoDup_elements.
Qed.

Lemma LoadLatestVersion_ok s params d d' m' :
  let keys := sortBy keyName (elements (dom (storesParams s))) in
  let o := withTarget (rsOpts s) 0 true (ReadOnly (rsOpts s)) (LoadForOverwriting (rsOpts s))
             (iavlNames (storesParams s) keys) in
  Load o (rsDisk s) = Some (Ok d, d') -> loadStores objstore d (storesParams s) keys ∅ = Some (Ok m') ->
  (MTVersion (mtree d) =? 0) = false ->
  LoadLatestVersion objstore params s = Some (Ok tt,
    setInfo (Some (infoFor s params (lastCommitInfo (mtree d)))) (setStores m' (setDb (Some d) (setDisk d' s)))).
Proof.
  intros keys o El Est Ez. unfold LoadLatestVersion, LoadVersionAndUpgrade.
  change (MaxUint32 <? 0) with false. cbn [treeUpgrades]. sstate. change (u32 0) with 0.
  rewrite (SE_bind_ok _ _ _ d (setDisk d' s)).
  - sstate. fold keys. rewrite Est. sstate. by rewrite Ez.
  - unfold loadDB. fold keys. fold o. by rewrite El.
Qed.

(** C6: a restart.  After a crash of a process whose log was written, the
    stores mounted again and [LoadLatestVersion] give back a multi-store in
    order whose trees are the state after the last commit, whose memiavl stores
    have no pending writes, and whose last commit info, so its hash, is again
    that of this state, in whatever order the loops range. *)
Theorem root_restart_correct es c y s params :
  inv iv es y c -> es <> [] -> crash (disk y) (rsDisk s) -> walQueue (db y) = [] -> currentTmp (disk y) = None ->
  ReadOnly (rsOpts s) = false -> mounted s -> ranges s params ->
  (forall t key typ, stateAt iv es (length es) t -> storesParams s !! key = Some typ ->
     loadable (names (trees t)) key typ) ->
  exists s' y' tN, LoadLatestVersion objstore params s = Some (Ok tt, s') /\ stateAt iv es (length es) tN /\
    rs_ok iv es c s' y' /\ committed s' y' /\ mtree (db y') ≡ tN /\
    (forall key st, stores s' !! key = Some (Memiavl st) -> changeSet st = []).
Proof.
  intros Hi Hne Hcr Hq Hlk Hro Hm Hps Hload. pose proof (inv_hist _ _ _ _ Hi) as Hh.
  pose proof (inv_disk _ _ _ _ Hi) as Hd. pose proof (inv_synced iv es y c Hi Hq) as El.
  set (keys := sortBy keyName (elements (dom (storesParams s)))).
  set (o := withTarget (rsOpts s) 0 true (ReadOnly (rsOpts s)) (LoadForOverwriting (rsOpts s))
              (iavlNames (storesParams s) keys)).
  destruct (Load_latest iv Hiv es (disk y) (rsDisk s) c o Hh Hd Hcr Hro eq_refl) as (t & tN & Eload & HtN & Heq & Hok & Hinfo).
  destruct (disk_current _ _ _ _ Hd) as (_ & _ & Hc). rewrite El, Nat2Z.id, Nat.max_r in HtN by lia.
  destruct (stateAt_version iv Hiv es (length es) tN Hh (le_n _) HtN) as (Ev & _).
  assert (length es <> O) as Hlen by (by destruct es).
  pose proof (versionAt_lt iv 0 (length es) ltac:(lia)) as Hpos. change (versionAt iv 0) with 0 in Hpos.
  assert (MTVersion t = versionAt iv (length es)) as Evt by (rewrite <- Ev; apply Heq).
  assert ((MTVersion t =? 0) = false) as Ez by (apply Z.eqb_neq; lia).
  unfold finish in Eload. rewrite Ez, andb_false_r in Eload. cbn [andb] in Eload.
  assert (inv iv es (mkSys (loaded o t) (removeTmpDirs (disk y))) c) as Hi'.
  { by apply (inv_loaded iv Hiv es _ c o t tN); [|apply disk_clean|..]. }
  assert (names (trees t) = names (trees tN)) as En by (apply same_names, Heq).
  destruct (loadStores_ok (loaded o t) (storesParams s) keys ∅ Hok) as (m' & Est & Hdom & Hstores).
  { apply Forall_forall. intros key. unfold keys. rewrite sortBy_perm, elem_of_elements, elem_of_dom.
    intros [typ Ht]. exists typ. split; [done|]. cbn [loaded mtree]. rewrite En. by apply Hload. }
  set (ci := infoFor s params (lastCommitInfo t)).
  exists (setInfo (Some ci) (setStores m' (setDb (Some (loaded o t)) (setDisk (removeTmpDirs (disk y)) s)))),
    (mkSys (loaded o t) (removeTmpDirs (disk y))), tN.
  split; [|split; [done|split; [|split; [|split; [done|]]]]].
  - by apply LoadLatestVersion_ok.
  - split; [done|done| |done|].
    + cbn [stores setInfo setStores storesParams setDb setDisk]. rewrite Hdom, dom_empty_L, union_empty_r_L.
      apply set_eq. intros k. unfold keys. by rewrite elem_of_list_to_set, sortBy_perm, elem_of_elements.
    + intros key st Hk. destruct (Hstores key st Hk) as [Hk'|[-> Hn]]; [by rewrite lookup_empty in Hk'|done].
  - split; [done|]. intros params' Hp'. cbn [lastInfo setInfo]. f_equal.
    exact (infoFor_perm s params params' _ Hm Hps Hp').
  - intros key st Hk. destruct (Hstores key st Hk) as [Hk'|[-> _]]; [by rewrite lookup_empty in Hk'|done].
Qed.
End Loading.
