(* ===== verification/RootExample.v ===== *)
(** * A commit multi-store with one memiavl store

    Concrete instances of the interfaces of the multi-store, and the witnesses of
    its properties: a store ["bank"] beside a memory store. *)

From S2P Require Import Prelude KV Binary Sha256 Node Hash Snapshot Persisted Tree Iterator Ics23 Export Import.
From S2P Require Import Proto Wal MultiTree MultiSnapshot SnapshotName.
From S2P Require Import Db DbDisk NameSort DbHistory DbPending DbInv DbStep DbTasks DbLoad DbRun DbProps StateSync RootMulti RootProps RootQuery.

Open Scope string_scope.
Open Scope Z_scope.
Open Scope list_scope.

(** ** Instances *)

#[global] Instance exExt : ExtStores unit :=
  {| newTransientStore := tt; newMemStore := tt; newObjStore := tt; extCommit := fun u => u |}.

#[global] Instance exHash : CommitHash := fun ci =>
  mjoin ((fun h => String.list_byte_of_string h.1 ++ h.2) <$> (hashed <$> sdkStoreInfos ci)).

#[global] Instance exHash_laws : CommitHashLaws.
Proof. split. intros a b E. unfold ciHash, exHash. by rewrite E. Qed.

(** The last byte that can be is incremented, and what follows it dropped. *)
#[global] Instance exEnd : PrefixEnd := fix end_ (p : bytes) : option bytes :=
  match p with
  | [] => None
  | b :: p => match end_ p with
              | Some e => Some (b :: e)
              | None => if byte_to_Z b =? 255 then None else Some [byte_of_Z (byte_to_Z b + 1)]
              end
  end.

Lemma bytes_ltb_cons a l b m :
  bytes_ltb (a :: l) (b :: m) =
  match byte_to_Z a ?= byte_to_Z b with Lt => true | Eq => bytes_ltb l m | Gt => false end.
Proof. unfold bytes_ltb. cbn [bytes_compare]. by destruct (_ ?= _). Qed.

#[global] Instance exEnd_laws : PrefixEndLaws.
Proof.
  split. induction p as [|b p IH]; intros k.
  { by destruct k. }
  destruct k as [|c k].
  { unfold in_domain, hasPrefix. cbn. by rewrite bool_decide_false. }
  specialize (IH k). unfold in_domain, hasPrefix in *. cbn [take length].
  assert (prefixEnd (b :: p) = match prefixEnd p with
            | Some e => Some (b :: e)
            | None => if byte_to_Z b =? 255 then None else Some [byte_of_Z (byte_to_Z b + 1)] end) as -> by done.
  pose proof (byte_to_Z_range b). pose proof (byte_to_Z_range c).
  rewrite bytes_ltb_cons. destruct (Z.compare_spec (byte_to_Z c) (byte_to_Z b)) as [Ec|Hlt|Hgt]; cbn [negb andb].
  - apply (inj byte_to_Z) in Ec as ->.
    rewrite (bool_decide_ext (b :: take (length p) k = b :: p) (take (length p) k = p)) by (split; [by intros [= ->]|by intros ->]).
    rewrite <- IH. f_equal. destruct (prefixEnd p) as [e|].
    + by rewrite bytes_ltb_cons, Z.compare_refl.
    + destruct (Z.eqb_spec (byte_to_Z b) 255); [done|].
      rewrite bytes_ltb_cons, byte_to_of_Z, u8_id by lia. by rewrite (proj2 (Z.compare_lt_iff _ _)) by lia.
  - symmetry. apply bool_decide_eq_false. intros [= -> _]. lia.
  - trans false; [|symmetry; apply bool_decide_eq_false; intros [= -> _]; lia].
    destruct (prefixEnd p) as [e|].
    + rewrite bytes_ltb_cons. by rewrite (proj2 (Z.compare_gt_iff _ _)) by lia.
    + destruct (Z.eqb_spec (byte_to_Z b) 255); [lia|].
      rewrite bytes_ltb_cons, byte_to_of_Z, u8_id by lia.
      destruct (Z.compare_spec (byte_to_Z c) (byte_to_Z b + 1)); [by destruct k|lia|done].
Qed.

(** ** The multi-store *)

Definition exBankKey : StoreKey := mkKey 0 KVStoreKey "bank".
Definition exMemKey : StoreKey := mkKey 1 MemoryStoreKey "mem".
Definition exKeys : list StoreKey := [exBankKey; exMemKey].
Definition exParams : list (StoreKey * StoreType) := [(exMemKey, StoreTypeMemory); (exBankKey, StoreTypeIAVL)].

Definition exRootOptions : Options := mkOptions false 0 false [] 1 1 0 (-1) false 0 false.

(** The multi-store on a database, with pending writes. *)
Definition exMulti (y : Sys slot memlog) (ci : option SdkCommitInfo) (cs : ChangeSet) : Store (C:=slot) (L:=memlog) (E:=unit) :=
  mkStore (Some (db y)) (disk y) ci
    {[ exBankKey := StoreTypeIAVL; exMemKey := StoreTypeMemory ]}
    {[ "bank" := exBankKey; "mem" := exMemKey ]}
    {[ exBankKey := Memiavl (mkMemStore Live cs); exMemKey := Ext StoreTypeMemory tt ]}
    exRootOptions true false.

Lemma exMulti_covers y ci cs : covers (stores (exMulti y ci cs)) exKeys.
Proof. unfold covers. vm_compute. done || constructor. Qed.

Lemma exMulti_ranges y ci cs : ranges (exMulti y ci cs) exParams.
Proof. unfold ranges. vm_compute. done || constructor. Qed.

Lemma exMulti_mounted y ci cs : mounted (exMulti y ci cs).
Proof.
  intros key [typ Ht]. cbn [storesParams exMulti keysByName] in *.
  apply lookup_insert_Some in Ht as [[<- _]|[_ Ht]]; [done|].
  by apply lookup_singleton_Some in Ht as [<- _].
Qed.

Lemma exMulti_sys y ci cs : sysOf (exMulti y ci cs) = Some y.
Proof. by destruct y. Qed.

Lemma exMulti_store y ci cs key st :
  stores (exMulti y ci cs) !! key = Some (Memiavl st) -> key = exBankKey /\ st = mkMemStore Live cs.
Proof.
  cbn [stores exMulti]. intros [[<- [= <-]]|[_ Ht]]%lookup_insert_Some; [done|].
  by apply lookup_singleton_Some in Ht as [_ [=]].
Qed.

Lemma exMulti_ok es c y ci cs :
  inv 1 es y c -> "bank" ∈ names (trees (mtree (db y))) -> rs_ok 1 es c (exMulti y ci cs) y.
Proof.
  intros Hi Hn. split; [apply exMulti_sys|done| |apply exMulti_mounted|].
  - cbn [stores storesParams exMulti]. by rewrite !dom_insert_L, !dom_singleton_L.
  - by intros key st [-> ->]%exMulti_store.
Qed.

(** *** A block, a query, a restart *)

Definition exInfo : SdkCommitInfo :=
  infoFor (exMulti exBank None []) exParams (lastCommitInfo (mtree (db exBank))).
Definition exLoaded := exMulti exBank (Some exInfo) [].

Lemma exLoaded_ok : exists c, rs_ok 1 [exEntry] c exLoaded exBank.
Proof.
  destruct (reachable_inv 1 ltac:(lia) _ _ exBank_reachable) as (c & Hi). exists c.
  apply exMulti_ok; [exact Hi|]. vm_compute. by left.
Qed.

Lemma exLoaded_committed : committed exLoaded exBank.
Proof.
  split; [vm_compute; reflexivity|]. intros params Hp. cbn [lastInfo exLoaded exMulti]. f_equal. unfold exInfo.
  exact (infoFor_perm exLoaded exParams params _ (exMulti_mounted _ _ _) (exMulti_ranges _ _ _) Hp).
Qed.

Definition exWrites : list (StoreKey * (bytes * option bytes)) := [(exBankKey, ([Byte.x01], Some [Byte.x0c]))].
Definition exUpdate : ChangeSet := writtenTo exBankKey exWrites.

(** The database with the write flushed. *)
Definition exUpdated : Sys slot memlog := run (DBApplyChangeSets [mkNamedCS "bank" exUpdate]) exBank.

Lemma exUpdated_trees :
  trees (saved (mtree (db exUpdated)) true) =
    [mkNamed (mkTree 2 (Some (Leaf 2 [Byte.x01] [Byte.x0c])) None None true) "bank"].
Proof. vm_compute. reflexivity. Qed.

Lemma exUpdated_fits : commit_fits exUpdated.
Proof.
  split; [vm_compute; reflexivity|]. split; [vm_compute; reflexivity|]. split.
  - rewrite exUpdated_trees. constructor; [|constructor]. split_and!; [|simpl; lia|reflexivity|reflexivity].
    unfold wf, kv_sorted; simpl. split_and!; try done. by repeat constructor.
  - unfold metadata_valid, infoOf, buildCommitInfo. rewrite exUpdated_trees. cbn [mdCommitInfo mdInitialVersion].
    split; [split; [vm_compute; split; congruence|by repeat constructor]|].
    split; [vm_compute; split; congruence|]. vm_compute. reflexivity.
Qed.

Lemma exLoaded_fits s1 : forM exWrites doWrite exLoaded = Some (Ok tt, s1) -> block_fits exKeys s1.
Proof.
  intros E. assert (s1 = exMulti exBank (Some exInfo) exUpdate) as -> by (by injection E as <-). split.
  - intros y Hy n. rewrite exMulti_sys in Hy. apply (inj Some) in Hy as <-.
    change (omap (popOne (stores (exMulti exBank (Some exInfo) exUpdate))) exKeys) with [mkNamedCS "bank" exUpdate].
    assert (weChangesets (pendingLog (db exBank)) = []) as -> by (vm_compute; reflexivity).
    cbn [app pairs_for csName csPairs]. destruct (_ : bool); done.
  - intros s1 y1 E1 Hy. assert (sysOf s1 = Some exUpdated) as Hy'.
    { apply (flush_sys 1 ltac:(lia) _ s1 exBank exUpdated exKeys (exMulti_covers exBank (Some exInfo) exUpdate)
        (exMulti_sys exBank (Some exInfo) exUpdate) E1).
      vm_compute. reflexivity. }
    rewrite Hy' in Hy. apply (inj Some) in Hy as <-. split; [exact exUpdated_fits|]. vm_compute. reflexivity.
Qed.

Lemma root_block_correct_witness :
  exists c s1 s2 s' y' h e, forM exWrites doWrite exLoaded = Some (Ok tt, s1) /\
    WorkingHash exKeys exParams s1 = Some (Ok h, s2) /\
    RootMulti.Commit exKeys exParams s1 = Some (Ok (mkSdkID 2 h), s') /\ rs_ok 1 [exEntry; e] c s' y' /\
    exists kv, contentOf (mtree (db exBank)) "bank" = Some kv /\
      fst <$> StoreGet exBankKey [Byte.x01] s1 = Some (Ok (kv_get [Byte.x01] kv)) /\
      fst <$> StoreGet exBankKey [Byte.x01] s' = Some (Ok (kv_get [Byte.x01] (apply_pairs kv exUpdate))).
Proof.
  destruct exLoaded_ok as (c & Hok).
  destruct (root_block_correct 1 ltac:(lia) [exEntry] c exLoaded exBank exWrites exKeys Hok exLoaded_committed)
    as (s1 & s2 & s' & y' & h & e & Ew & Hc & Hok' & _ & Hst).
  - done.
  - by intros key st [_ ->]%exMulti_store.
  - constructor; [|constructor]. by exists (mkMemStore Live []).
  - apply exMulti_covers.
  - exact exLoaded_fits.
  - exists c, s1, s2, s', y', h, e. split; [exact Ew|].
    specialize (Hc exKeys exParams (exMulti_covers _ _ _) (exMulti_ranges _ _ _)). cbv zeta in Hc.
    change (versionAt 1 (S (length [exEntry]))) with 2 in Hc. destruct Hc as (Eh & Ec & _).
    split; [exact Eh|]. split; [exact Ec|]. split; [exact Hok'|].
    exact (Hst exBankKey (mkMemStore Live []) [Byte.x01] eq_refl).
Defined.

Lemma exState_at : stateAt 1 [exEntry] 1 exState.
Proof. vm_compute. reflexivity. Qed.

Lemma root_query_correct_witness :
  exists c p root s' y', Query (fun _ => true) exParams (keyQuery "bank" [Byte.x01] 0) exLoaded =
      Some (Ok (mkRes [Byte.x01] (Some [Byte.x0b]) 1
        (Some [IavlOp [Byte.x01] p; CommitInfoOp (infoFor exLoaded exParams (infoOf exState)) "bank"])), s') /\
    proof_of leafApply_spec innerApply_spec root [([Byte.x01], [Byte.x0b])] [Byte.x01] p /\
    ("bank", root) ∈ hashed <$> sdkStoreInfos (infoFor exLoaded exParams (infoOf exState)) /\
    rs_ok 1 [exEntry] c s' y'.
Proof.
  destruct exLoaded_ok as (c & Hok). exists c.
  destruct (root_query_correct 1 ltac:(lia) (fun _ => true) leafApply_spec innerApply_spec leafApply_spec_ok
    innerApply_spec_ok [exEntry] c exLoaded exBank 1 exState "bank" [([Byte.x01], [Byte.x0b])] [Byte.x01] 0 exParams
    Hok exLoaded_committed) as (p & root & s' & y' & Eq & Hp & Hin & Hok' & _).
  - cbn. lia.
  - exact exState_at.
  - by left.
  - vm_compute. reflexivity.
  - reflexivity.
  - done.
  - reflexivity.
  - by right.
  - exists p, root, s', y'. split; [exact Eq|]. split; [exact Hp|]. split; [exact Hin|exact Hok'].
Defined.

(** The stores mounted again on the disk of the database. *)
Definition exMounted : Store (C:=slot) (L:=memlog) (E:=unit) :=
  mkStore None (disk exBank) None (storesParams exLoaded) (keysByName exLoaded) ∅ exRootOptions true false.

Lemma root_restart_correct_witness :
  exists c s' y' tN, LoadLatestVersion false exParams exMounted = Some (Ok tt, s') /\
    stateAt 1 [exEntry] 1 tN /\ rs_ok 1 [exEntry] c s' y' /\ committed s' y' /\ mtree (db y') ≡ tN.
Proof.
  destruct (reachable_inv 1 ltac:(lia) _ _ exBank_reachable) as (c & Hi). exists c.
  destruct (root_restart_correct false 1 ltac:(lia) [exEntry] c exBank exMounted exParams Hi)
    as (s' & y' & tN & El & HtN & Hok & Hcom & Heq & _).
  - done.
  - split_and!; reflexivity.
  - vm_compute. reflexivity.
  - vm_compute. reflexivity.
  - reflexivity.
  - apply (exMulti_mounted exBank None []).
  - apply (exMulti_ranges exBank None []).
  - intros t key typ Ht Hk. pose proof (stateAt_unique 1 _ _ _ _ Ht exState_at) as ->. rewrite exState_trees.
    cbn [storesParams exMounted exLoaded exMulti] in Hk.
    apply lookup_insert_Some in Hk as [[<- <-]|[_ [<- <-]%lookup_singleton_Some]]; [by left|done].
  - exists s', y', tN. split; [exact El|]. split; [exact HtN|]. split; [exact Hok|]. split; [exact Hcom|exact Heq].
Defined.

(** [WorkingHash] makes the writes of a block visible to reads and to queries at
    the last version, before they are committed. *)
Lemma working_hash_exposes :
  let s := run (WorkingHash exKeys exParams) (run (forM exWrites doWrite) exLoaded) in
  lastInfo s = Some exInfo /\ fst <$> StoreGet exBankKey [Byte.x01] s = Some (Ok (Some [Byte.x0c])) /\
  match Query (fun _ => true) exParams (keyQuery "bank" [Byte.x01] 1) s with
  | Some (Ok res, _) => resHeight res = 1 /\ resValue res = Some [Byte.x0c]
  | _ => False
  end.
Proof. vm_compute. done. Qed.

(** A version above [2^32] gives the stores of another version. *)
Lemma version_truncated :
  match CacheMultiStoreWithVersion (2 ^ 32 + 1) exLoaded with
  | Some (Ok (VersionView _ trs), _) => (fun e => (e.1, version e.2)) <$> trs = [(Some exBankKey, 1)]
  | _ => False
  end.
Proof. vm_compute. done. Qed.
