(* ===== verification/Ctx.v ===== *)
(** * The context of an SDK module: stores, coins and addresses

    The parts of the Cosmos SDK and of go-ethereum that the modules of [x]
    call, as interfaces: the key/value store of a module, account and contract
    addresses, coins and big integers.  Their documented behaviour is stated as
    laws; the instances at the end of the file satisfy them. *)

From S2P Require Import Prelude KV Binary Sha256 Proto.
From Stdlib Require Import Strings.Byte.

Open Scope string_scope.
Open Scope Z_scope.
Open Scope list_scope.

(** ** Stores

    [ctx.KVStore(key)]: an ordered map.  [PrefixIterator p] is the content of
    [prefix.NewStore(store, p).Iterator(nil, nil)], the keys without the
    prefix, in their order. *)
Class KVStore (St : Type) := {
  Get : bytes -> St -> option bytes;
  SetKey : bytes -> bytes -> St -> St;
  DeleteKey : bytes -> St -> St;
  PrefixIterator : bytes -> St -> kvs
}.

Class KVStoreLaws (St : Type) `{KVStore St} : Prop := {
  Get_Set_eq k v (s : St) : Get k (SetKey k v s) = Some v;
  Get_Set_ne k k' v (s : St) : k' <> k -> Get k' (SetKey k v s) = Get k' s;
  Get_Delete_eq k (s : St) : Get k (DeleteKey k s) = None;
  Get_Delete_ne k k' (s : St) : k' <> k -> Get k' (DeleteKey k s) = Get k' s;
  PrefixIterator_spec p (s : St) k v : (k, v) ∈ PrefixIterator p s <-> Get (p ++ k) s = Some v;
  PrefixIterator_sorted p (s : St) : kv_sorted (PrefixIterator p s)
}.

(** ** Coins *)

Record Coin := mkCoin { Denom : string; Amount : Z }.
Abbreviation Coins := (list Coin).

#[global] Instance Coin_eq_dec : EqDecision Coin.
Proof. solve_decision. Defined.

(** How much of a denomination a list of coins holds. *)
Definition amountOf (d : string) (cs : Coins) : Z :=
  foldr (fun c n => (if bool_decide (Denom c = d) then Amount c else 0) + n) 0 cs.

(** [common.Address] is an array of 20 bytes. *)
Definition AddressLength : nat := 20.
Definition is_address (a : bytes) : Prop := length a = AddressLength.

(** The helpers the modules use; [None] is a panic. *)
Class Libs := {
  IsHexAddress : string -> bool;
  HexToAddress : string -> bytes;
  AddressHex : bytes -> string;
  BytesToAddress : bytes -> bytes;
  AccAddressFromBech32 : string -> result bytes;
  AccAddressString : bytes -> string;
  NewModuleAddress : string -> bytes;
  CreateAddress : bytes -> Z -> bytes;
  NewCoin : string -> Z -> option Coin;
  NewCoins : Coins -> option Coins;
  CoinsIsValid : Coins -> bool;
  CoinsIsAllPositive : Coins -> bool;
  IntMul : Z -> Z -> option Z;
  IntMod : Z -> Z -> option Z;
  IntSub : Z -> Z -> option Z;
  IntQuo : Z -> Z -> option Z;
  NewIntFromString : string -> option Z;
  Uint64ToBigEndian : Z -> bytes;
  BigEndianToUint64 : bytes -> option Z
}.

(** What their documentation says.  [sdkmath.Int] is an integer of at most 256
    bits whose operations panic when the result does not fit; [NewCoin] panics
    on a negative amount, [NewCoins] drops coins of amount zero. *)
Class LibsLaws `{Libs} : Prop := {
  HexToAddress_length s : is_address (HexToAddress s);
  BytesToAddress_length b : is_address (BytesToAddress b);
  CreateAddress_length a n : is_address (CreateAddress a n);
  BytesToAddress_id a : is_address a -> BytesToAddress a = a;
  IsHexAddress_Hex a : is_address a -> IsHexAddress (AddressHex a) = true;
  HexToAddress_Hex a : is_address a -> HexToAddress (AddressHex a) = a;
  IsHexAddress_empty : IsHexAddress "" = false;
  FromBech32_String a : is_address a -> AccAddressFromBech32 (AccAddressString a) = Ok a;
  FromBech32_nonempty s a : AccAddressFromBech32 s = Ok a -> s <> "" /\ a <> [];
  String_FromBech32 s a : AccAddressFromBech32 s = Ok a -> AccAddressString a <> "";
  AccAddressString_inj a b : AccAddressString a = AccAddressString b -> a = b;
  NewCoin_inv d n c : NewCoin d n = Some c -> c = mkCoin d n /\ 0 <= n;
  NewCoins_single c cs : NewCoins [c] = Some cs -> 0 <= Amount c /\ cs = if Amount c =? 0 then [] else [c];
  IntMul_inv x y z : IntMul x y = Some z -> z = x * y;
  IntSub_inv x y z : IntSub x y = Some z -> z = x - y;
  IntMod_inv x y z : 0 <= x -> 0 < y -> IntMod x y = Some z -> z = x mod y;
  IntQuo_inv x y z : 0 <= x -> 0 < y -> IntQuo x y = Some z -> z = x / y;
  NewCoins_NewCoin d n c : NewCoin d n = Some c -> is_Some (NewCoins [c]);
  CoinsIsValid_single cs c : CoinsIsValid cs = true -> c ∈ cs -> NewCoins [c] = Some [c];
  IntMul_some x y : Z.abs (x * y) < 2 ^ 256 -> IntMul x y = Some (x * y);
  IntSub_some x y : Z.abs (x - y) < 2 ^ 256 -> IntSub x y = Some (x - y);
  IntMod_some x y : 0 <= x < 2 ^ 256 -> 0 < y -> IntMod x y = Some (x mod y);
  IntQuo_some x y : 0 <= x < 2 ^ 256 -> 0 < y -> IntQuo x y = Some (x / y);
  NewModuleAddress_spec s : NewModuleAddress s = take AddressLength (Sha256.Sum256 (bytes_of_string s));
  Uint64ToBigEndian_length z : length (Uint64ToBigEndian z) = 8%nat;
  BigEndianToUint64_empty : BigEndianToUint64 [] = Some 0;
  BigEndianToUint64_some b : length b = 8%nat -> is_Some (BigEndianToUint64 b);
  BigEndian_roundtrip z : 0 <= z < 2 ^ 64 -> BigEndianToUint64 (Uint64ToBigEndian z) = Some z
}.

Lemma NewModuleAddress_length `{LibsLaws} s : is_address (NewModuleAddress s).
Proof. unfold is_address. by rewrite NewModuleAddress_spec, length_take, Sha256.length_Sum256. Qed.

Lemma amountOf_NewCoins `{LibsLaws} d n c cs e :
  NewCoin d n = Some c -> NewCoins [c] = Some cs ->
  amountOf e cs = if bool_decide (d = e) then n else 0.
Proof.
  intros [-> ?]%NewCoin_inv [_ ->]%NewCoins_single. cbn.
  destruct (Z.eqb_spec n 0) as [->|]; cbn; case_bool_decide; lia.
Qed.

(** ** A store in a finite map *)

Definition strip_prefix (p k : bytes) : option bytes :=
  if bool_decide (take (length p) k = p) then Some (drop (length p) k) else None.

Lemma strip_prefix_Some p k x : strip_prefix p k = Some x <-> k = p ++ x.
Proof.
  unfold strip_prefix. case_bool_decide as H; split.
  - intros [= <-]. by rewrite <- H at 1; rewrite take_drop.
  - intros ->. by rewrite drop_app_length.
  - done.
  - intros ->. by rewrite take_app_length in H.
Qed.

Definition key_le (a b : bytes * bytes) : Prop := a.1 <=b b.1.

#[global] Instance key_le_dec a b : Decision (key_le a b).
Proof. unfold key_le, bytes_le. solve_decision. Defined.

#[global] Instance key_le_total : Total key_le.
Proof. intros a b. unfold key_le. destruct (bytes_compare_spec a.1 b.1); [left|left|right]; bytes_order. Qed.

#[global] Instance key_le_trans : Transitive key_le.
Proof. intros a b c. unfold key_le. bytes_order. Qed.

#[global] Instance map_store : KVStore (gmap bytes bytes) := {
  Get k m := m !! k;
  SetKey k v m := <[k := v]> m;
  DeleteKey k m := delete k m;
  PrefixIterator p m :=
    merge_sort key_le (omap (fun kv : bytes * bytes => (fun x => (x, kv.2)) <$> strip_prefix p kv.1) (map_to_list m))
}.

Lemma prefix_entries (p : bytes) (m : gmap bytes bytes) (k v : bytes) :
  (k, v) ∈ omap (fun kv : bytes * bytes => (fun x => (x, kv.2)) <$> strip_prefix p kv.1) (map_to_list m) <->
  m !! (p ++ k) = Some v.
Proof.
  rewrite list_elem_of_omap. split.
  - intros ([k' v'] & Hin%elem_of_map_to_list & Hs). cbn in Hs.
    apply fmap_Some in Hs as (x & ->%strip_prefix_Some & [= -> ->]). done.
  - intros H. exists (p ++ k, v). split; [by apply elem_of_map_to_list|]. cbn.
    by rewrite (proj2 (strip_prefix_Some p (p ++ k) k) eq_refl).
Qed.

Lemma sorted_keys_strict (l : kvs) : StronglySorted key_le l -> NoDup (keys l) -> kv_sorted l.
Proof.
  intros Hs. unfold kv_sorted. induction Hs as [|[k v] l Hs IH Hall]; cbn; [constructor|].
  intros [Hk Hnd]%NoDup_cons. constructor; [by apply IH|]. unfold keys in *.
  apply Forall_fmap, Forall_forall. intros [k' v'] Hin. rewrite Forall_forall in Hall.
  specialize (Hall _ Hin). unfold key_le in Hall. cbn in *.
  apply bytes_le_lteq in Hall as [|<-]; [done|]. destruct Hk.
  by apply (list_elem_of_fmap_2 fst l (k, v')).
Qed.

Lemma prefix_entries_NoDup (p : bytes) (l : list (bytes * bytes)) :
  NoDup l.*1 -> NoDup (keys (omap (fun kv => (fun x => (x, kv.2)) <$> strip_prefix p kv.1) l)).
Proof.
  unfold keys. induction l as [|[k v] l IH]; cbn; [constructor|]. intros [Hk Hnd]%NoDup_cons.
  destruct (strip_prefix p k) as [x|] eqn:E; cbn; [|by apply IH].
  apply NoDup_cons. split; [|by apply IH]. intros ([k1 v1] & -> & Hin)%list_elem_of_fmap.
  apply list_elem_of_omap in Hin as ([k2 v2] & Hin & Hs). cbn in *.
  apply fmap_Some in Hs as (y & ->%strip_prefix_Some & [= -> ->]).
  apply strip_prefix_Some in E as ->. apply Hk. by apply (list_elem_of_fmap_2 fst l (p ++ y, v2)).
Qed.

#[global] Instance map_store_laws : KVStoreLaws (gmap bytes bytes).
Proof.
  split; cbn.
  - intros. by rewrite lookup_insert_eq.
  - intros. by rewrite lookup_insert_ne.
  - intros. by rewrite lookup_delete_eq.
  - intros. by rewrite lookup_delete_ne.
  - intros. rewrite merge_sort_Permutation. apply prefix_entries.
  - intros p m. apply sorted_keys_strict; [apply StronglySorted_merge_sort; apply _|].
    unfold keys. rewrite merge_sort_Permutation. apply prefix_entries_NoDup, NoDup_fst_map_to_list.
Qed.

(** ** Addresses in hexadecimal *)

Definition hexDigit (n : N) : Ascii.ascii := Ascii.ascii_of_N (if (n <? 10)%N then 48 + n else 87 + n).

Definition unhexDigit (c : Ascii.ascii) : option N :=
  let n := Ascii.N_of_ascii c in
  if ((48 <=? n) && (n <=? 57))%N%bool then Some (n - 48)%N
  else if ((97 <=? n) && (n <=? 102))%N%bool then Some (n - 87)%N
  else if ((65 <=? n) && (n <=? 70))%N%bool then Some (n - 55)%N
  else None.

Fixpoint hex_encode (b : bytes) : string :=
  match b with
  | [] => EmptyString
  | x :: b => String (hexDigit (Byte.to_N x / 16)) (String (hexDigit (Byte.to_N x mod 16)) (hex_encode b))
  end.

Fixpoint hex_decode (s : string) : option bytes :=
  match s with
  | EmptyString => Some []
  | String c (String d s) =>
      h ← unhexDigit c; l ← unhexDigit d; b ← Byte.of_N (h * 16 + l); (cons b) <$> hex_decode s
  | _ => None
  end.

Lemma hex_decode_encode b : hex_decode (hex_encode b) = Some b.
Proof.
  induction b as [|x b IH]; [done|]. change (hex_encode (x :: b)) with
    (String (hexDigit (Byte.to_N x / 16)) (String (hexDigit (Byte.to_N x mod 16)) (hex_encode b))).
  cbn [hex_decode]. rewrite IH. by destruct x.
Qed.

(** Drop a prefix of a string when it is there. *)
Definition trimPrefix (p s : string) : option string :=
  if String.prefix p s then Some (String.substring (String.length p) (String.length s - String.length p) s) else None.

Lemma substring_all n s : n = String.length s -> String.substring 0 n s = s.
Proof. intros ->. induction s as [|c s IH]; cbn; [done|]. by rewrite IH. Qed.

Lemma trimPrefix_app p s : trimPrefix p (p ++ s)%string = Some s.
Proof.
  unfold trimPrefix. assert (String.prefix p (p ++ s)%string = true) as ->.
  { induction p as [|c p IH]; [by destruct s|]. change (String c p +:+ s) with (String c (p +:+ s)). cbn.
    by destruct (Ascii.ascii_dec c c). }
  f_equal. induction p as [|c p IH].
  - change ("" +:+ s) with s. cbn. rewrite Nat.sub_0_r. by apply substring_all.
  - change (String c p +:+ s) with (String c (p +:+ s)). exact IH.
Qed.

(** The last 20 bytes, filled with zeros on the left. *)
Definition toAddress (b : bytes) : bytes :=
  replicate (AddressLength - length b) x00 ++ drop (length b - AddressLength) b.

Lemma toAddress_length b : is_address (toAddress b).
Proof. unfold is_address, toAddress. rewrite length_app, length_replicate, length_drop. unfold AddressLength. lia. Qed.

Lemma toAddress_id a : is_address a -> toAddress a = a.
Proof. unfold is_address, toAddress. intros ->. by rewrite Nat.sub_diag. Qed.

Definition in256 (z : Z) : option Z := if Z.abs z <? 2 ^ 256 then Some z else None.

(** An instance of the helpers: addresses are written in plain hexadecimal. *)
Definition plain_libs : Libs := {|
  IsHexAddress s :=
    match hex_decode (default s (trimPrefix "0x" s)) with
    | Some b => Nat.eqb (length b) AddressLength
    | None => false
    end;
  HexToAddress s := toAddress (default [] (hex_decode (default s (trimPrefix "0x" s))));
  AddressHex a := "0x" +:+ hex_encode a;
  BytesToAddress := toAddress;
  AccAddressFromBech32 s :=
    match trimPrefix "crc1" s ≫= hex_decode with
    | Some (x :: a) => Ok (x :: a)
    | _ => Err "invalid Bech32 address"
    end;
  AccAddressString a := match a with [] => "" | _ => "crc1" +:+ hex_encode a end;
  NewModuleAddress s := take AddressLength (Sha256.Sum256 (bytes_of_string s));
  CreateAddress a n := toAddress (a ++ le_bytes 8 n);
  NewCoin d n := if 0 <=? n then Some (mkCoin d n) else None;
  NewCoins cs :=
    let cs := filter (fun c => Amount c <> 0) cs in
    if forallb (fun c => 0 <? Amount c) cs then Some cs else None;
  CoinsIsValid cs := forallb (fun c => 0 <? Amount c) cs && bool_decide (NoDup (Denom <$> cs));
  CoinsIsAllPositive cs := negb (Nat.eqb (length cs) 0) && forallb (fun c => 0 <? Amount c) cs;
  IntMul x y := in256 (x * y);
  IntMod x y := if y =? 0 then None else in256 (x mod y);
  IntSub x y := in256 (x - y);
  IntQuo x y := if y =? 0 then None else in256 (Z.quot x y);
  NewIntFromString s := Some (Z.of_nat (String.length s));
  Uint64ToBigEndian z := rev (le_bytes 8 z);
  BigEndianToUint64 b := if Nat.eqb (length b) 0 then Some 0 else Uint64 (rev b)
|}.

Lemma in256_inv z z' : in256 z = Some z' -> z' = z.
Proof. unfold in256. by case_match; intros; simplify_eq. Qed.

Lemma in256_some z : Z.abs z < 2 ^ 256 -> in256 z = Some z.
Proof. intros H. unfold in256. by rewrite (proj2 (Z.ltb_lt _ _)). Qed.

Lemma plain_libs_laws : @LibsLaws plain_libs.
Proof.
  split; cbn -[trimPrefix hex_encode hex_decode toAddress Z.pow in256 Sha256.Sum256].
  - intros. apply toAddress_length.
  - intros. apply toAddress_length.
  - intros. apply toAddress_length.
  - apply toAddress_id.
  - intros a Ha. rewrite trimPrefix_app. cbn -[hex_encode hex_decode]. by rewrite hex_decode_encode, Ha.
  - intros a Ha. rewrite trimPrefix_app. cbn -[hex_encode hex_decode toAddress].
    rewrite hex_decode_encode. by apply toAddress_id.
  - done.
  - intros a Ha. destruct a as [|x a]; [done|]. rewrite trimPrefix_app. cbn [mbind option_bind].
    by rewrite hex_decode_encode.
  - intros s a H. destruct (trimPrefix "crc1" s ≫= hex_decode) as [[|x b]|] eqn:E; simplify_eq.
    split; [|done]. by intros ->.
  - intros s a H. destruct (trimPrefix "crc1" s ≫= hex_decode) as [[|x b]|]; by simplify_eq.
  - intros a b E. destruct a as [|x a], b as [|y b]; [done..|].
    assert (trimPrefix "crc1" ("crc1" +:+ hex_encode (x :: a)) = trimPrefix "crc1" ("crc1" +:+ hex_encode (y :: b)))
      as E' by by rewrite E.
    rewrite !trimPrefix_app in E'. apply (f_equal (fun o => o ≫= hex_decode)) in E'. cbn [mbind option_bind] in E'.
    rewrite !hex_decode_encode in E'. by injection E' as -> ->.
  - intros d n c. destruct (Z.leb_spec 0 n); intros; by simplify_eq.
  - intros c cs. destruct (Z.eqb_spec (Amount c) 0) as [E|E].
    + rewrite decide_False by (by rewrite E; auto). cbn. intros [= <-]. by rewrite E.
    + rewrite decide_True by done. cbn. destruct (Z.ltb_spec 0 (Amount c)); cbn; intros; simplify_eq.
      split; [lia|done].
  - intros x y z. apply in256_inv.
  - intros x y z. apply in256_inv.
  - intros x y z _ Hy. destruct (Z.eqb_spec y 0); [lia|]. apply in256_inv.
  - intros x y z Hx Hy. destruct (Z.eqb_spec y 0); [lia|]. intros ->%in256_inv. by apply Z.quot_div_nonneg.
  - intros d n c. destruct (Z.leb_spec 0 n); intros; simplify_eq. destruct (Z.eqb_spec n 0) as [->|].
    + rewrite decide_False by auto. by eexists.
    + rewrite decide_True by done. cbn. rewrite (proj2 (Z.ltb_lt _ _)) by lia. by eexists.
  - intros cs c [Hp _]%andb_prop Hin. assert (0 < Amount c) as Hc.
    { apply Z.ltb_lt. rewrite forallb_forall in Hp. apply Hp. by apply list_elem_of_In. }
    rewrite decide_True by lia. cbn. by rewrite (proj2 (Z.ltb_lt _ _)).
  - intros x y. apply in256_some.
  - intros x y. apply in256_some.
  - intros x y Hx Hy. destruct (Z.eqb_spec y 0); [lia|]. apply in256_some.
    pose proof (Z.mod_le x y). pose proof (Z.mod_pos_bound x y). lia.
  - intros x y Hx Hy. destruct (Z.eqb_spec y 0); [lia|]. rewrite Z.quot_div_nonneg by lia. apply in256_some.
    pose proof (Z.div_le_upper_bound x y x). pose proof (Z.div_pos x y). nia.
  - done.
  - intros z. by rewrite length_rev, length_le_bytes.
  - done.
  - intros b Hb. rewrite Hb. cbn. unfold Uint64. rewrite length_rev, Hb. cbn. by eexists.
  - intros z Hz. rewrite length_rev, length_le_bytes, rev_involutive. cbn -[le_bytes].
    rewrite <- (app_nil_r (le_bytes 8 z)). by apply Uint64_Put.
Qed.
