(* ===== verification/CronosTypes.v ===== *)
(** * Types of the cronos module: [x/cronos/types]

    Denominations, store keys, parameters with their validation and their
    protobuf encoding, and the messages with [ValidateBasic]. *)

From S2P Require Import Prelude KV Binary Proto Ctx.
From Stdlib Require Import Strings.Byte.

Open Scope string_scope.
Open Scope Z_scope.
Open Scope list_scope.

(** ** Denominations: [types.go] *)

Definition ibcDenomPrefix : string := "ibc/".
Definition ibcDenomLen : nat := String.length ibcDenomPrefix + 64.
Definition gravityDenomPrefix : string := "gravity0x".
Definition gravityDenomLen : nat := String.length gravityDenomPrefix + 40.
Definition cronosDenomPrefix : string := "cronos0x".
Definition cronosDenomLen : nat := String.length cronosDenomPrefix + 40.

Definition HasPrefix (s p : string) : bool := String.prefix p s.

Definition IsValidIBCDenom (denom : string) : bool :=
  Nat.eqb (String.length denom) ibcDenomLen && HasPrefix denom ibcDenomPrefix.

Definition IsValidGravityDenom (denom : string) : bool :=
  Nat.eqb (String.length denom) gravityDenomLen && HasPrefix denom gravityDenomPrefix.

Definition IsValidCronosDenom (denom : string) : bool :=
  Nat.eqb (String.length denom) cronosDenomLen && HasPrefix denom cronosDenomPrefix.

Definition IsSourceCoin (denom : string) : bool := IsValidCronosDenom denom.

Definition IsValidCoinDenom (denom : string) : bool :=
  IsValidIBCDenom denom || IsValidGravityDenom denom || IsValidCronosDenom denom.

(** [s[n:]] *)
Definition string_from (n : nat) (s : string) : string := String.substring n (String.length s - n) s.

(** [Ten] and [TenPowTen] are pointers: [z.Exp(x, y, nil)] stores [x^y] in [z]
    and returns [z]. *)
Definition bigExp (z x y : nat) (h : nat -> Z) : nat * (nat -> Z) :=
  (z, fun l => if Nat.eqb l z then h x ^ h y else h l).

Definition bigVars : nat * nat * (nat -> Z) :=
  let Ten := O in
  let h := fun _ => 10 in
  let '(TenPowTen, h) := bigExp Ten Ten Ten h in
  (Ten, TenPowTen, h).

Definition Ten : Z := let '(t, _, h) := bigVars in h t.
Definition TenPowTen : Z := let '(_, t, h) := bigVars in h t.

(** ** Store keys: [keys.go] *)

Definition ModuleName : string := "cronos".

Definition KeyPrefixDenomToExternalContract : bytes := [x01].
Definition KeyPrefixDenomToAutoContract : bytes := [x02].
Definition KeyPrefixContractToDenom : bytes := [x03].
Definition ParamsKey : bytes := [x04].
Definition KeyPrefixAdminToPermissions : bytes := [x05].
Definition KeyPrefixBlockList : bytes := [x06].

Definition DenomToExternalContractKey (denom : string) : bytes :=
  KeyPrefixDenomToExternalContract ++ bytes_of_string denom.
Definition DenomToAutoContractKey (denom : string) : bytes :=
  KeyPrefixDenomToAutoContract ++ bytes_of_string denom.
Definition ContractToDenomKey (contract : bytes) : bytes := KeyPrefixContractToDenom ++ contract.
Definition AdminToPermissionsKey (address : bytes) : bytes := KeyPrefixAdminToPermissions ++ address.

(** ** Parameters: [params.go], [cronos.pb.go] *)

Record Params := mkParams {
  IbcCroDenom : string;
  IbcTimeout : Z;
  CronosAdmin : string;
  EnableAutoDeployment : bool;
  MaxCallbackGas : Z
}.

#[global] Instance Params_eq_dec : EqDecision Params.
Proof. solve_decision. Defined.

Definition IbcCroDenomDefaultValue : string :=
  "ibc/6B5A664BF0AF4F71B2F0BAA33141E2F1321242FBD5D19762F541EC971ACB0865".
Definition IbcTimeoutDefaultValue : Z := 86400000000000.
Definition MaxCallbackGasDefaultValue : Z := 50000.

Definition DefaultParams : Params :=
  mkParams IbcCroDenomDefaultValue IbcTimeoutDefaultValue "" false MaxCallbackGasDefaultValue.

(** The fields of a message are read with the unsigned accumulator here. *)
Definition getUint (wireType : Z) (rest : bytes) : result (Z * bytes) :=
  fail_if (negb (wireType =? 0)) "proto: wrong wireType" ;; readVarint rest.

Definition Params_Marshal (m : Params) : bytes :=
  putBytesOpt x0a (bytes_of_string (IbcCroDenom m)) ++ putInt x10 (IbcTimeout m) ++
  putBytesOpt x1a (bytes_of_string (CronosAdmin m)) ++ putBool x20 (EnableAutoDeployment m) ++
  putInt x28 (MaxCallbackGas m).

Definition Params_Size (m : Params) : Z :=
  sizeBytesOpt (zlen (bytes_of_string (IbcCroDenom m))) + sizeInt (IbcTimeout m) +
  sizeBytesOpt (zlen (bytes_of_string (CronosAdmin m))) + sizeBool (EnableAutoDeployment m) +
  sizeInt (MaxCallbackGas m).

Definition Params_field (l fieldNum wireType : Z) (rest : bytes) (m : Params)
    : result (option (Params * bytes)) :=
  let '(mkParams d t a e g) := m in
  if fieldNum =? 1 then
    '(b, rest) ← getBytes l wireType rest; Ok (Some (mkParams (string_of_bytes b) t a e g, rest))
  else if fieldNum =? 2 then
    '(v, rest) ← getUint wireType rest; Ok (Some (mkParams d v a e g, rest))
  else if fieldNum =? 3 then
    '(b, rest) ← getBytes l wireType rest; Ok (Some (mkParams d t (string_of_bytes b) e g, rest))
  else if fieldNum =? 4 then
    '(v, rest) ← getInt wireType rest; Ok (Some (mkParams d t a (negb (v =? 0)) g, rest))
  else if fieldNum =? 5 then
    '(v, rest) ← getUint wireType rest; Ok (Some (mkParams d t a e v, rest))
  else Ok None.

Definition Params_zero : Params := mkParams "" 0 "" false 0.
Definition Params_Unmarshal (data : bytes) : result Params := unmarshal Params_field Params_zero data.

(** The integers are [uint64]s. *)
Definition Params_typed (p : Params) : Prop :=
  0 <= IbcTimeout p < 2 ^ 64 /\ 0 <= MaxCallbackGas p < 2 ^ 64.

(** Dynamic values, as the validation functions of the parameter table take
    them. *)
Inductive iface := IString (s : string) | IUint64 (z : Z) | IBool (b : bool).

Definition ErrParamType : error := "invalid parameter type".
Definition ErrIbcDenom : error := "invalid ibc denom".

Definition validateIsIbcDenom (i : iface) : result unit :=
  match i with
  | IString s => fail_if (negb (IsValidIBCDenom s)) ErrIbcDenom
  | _ => Err ErrParamType
  end.

Definition validateIsUint64 (i : iface) : result unit :=
  match i with IUint64 _ => Ok tt | _ => Err ErrParamType end.

Definition validateIsBool (i : iface) : result unit :=
  match i with IBool _ => Ok tt | _ => Err ErrParamType end.

Section Libs.
Context {L : Libs}.

Definition validateIsAddress (i : iface) : result unit :=
  match i with
  | IString s => if Nat.ltb 0 (String.length s) then (_ ← AccAddressFromBech32 s; Ok tt) else Ok tt
  | _ => Err ErrParamType
  end.

Definition Params_Validate (p : Params) : result unit :=
  validateIsUint64 (IUint64 (IbcTimeout p)) ;;
  validateIsIbcDenom (IString (IbcCroDenom p)) ;;
  (if Nat.ltb 0 (String.length (CronosAdmin p)) then (_ ← AccAddressFromBech32 (CronosAdmin p); Ok tt) else Ok tt) ;;
  validateIsUint64 (IUint64 (MaxCallbackGas p)).

(** The pairs of [ParamSetPairs]: key, value, validation. *)
Definition ParamSetPairs (p : Params) : list (string * iface * (iface -> result unit)) :=
  [("IbcCroDenom", IString (IbcCroDenom p), validateIsIbcDenom);
   ("IbcTimeout", IUint64 (IbcTimeout p), validateIsUint64);
   ("CronosAdmin", IString (CronosAdmin p), validateIsAddress);
   ("EnableAutoDeployment", IBool (EnableAutoDeployment p), validateIsBool);
   ("MaxCallbackGas", IUint64 (MaxCallbackGas p), validateIsUint64)].

Definition GetContractAddressFromDenom (denom : string) : result string :=
  let contractAddress :=
    if HasPrefix denom gravityDenomPrefix then string_from 7 denom
    else if HasPrefix denom cronosDenomPrefix then string_from 6 denom
    else "" in
  if negb (IsHexAddress contractAddress) then Err "invalid contract address" else Ok contractAddress.

(** ** Messages: [messages.go], [tx.pb.go] *)

Record MsgConvertVouchers := mkMsgConvertVouchers { cvAddress : string; cvCoins : Coins }.
Record MsgTransferTokens := mkMsgTransferTokens { ttFrom : string; ttTo : string; ttCoins : Coins }.
Record MsgUpdateTokenMapping := mkMsgUpdateTokenMapping {
  tmSender : string; tmDenom : string; tmContract : string; tmSymbol : string; tmDecimal : Z }.
Record MsgTurnBridge := mkMsgTurnBridge { tbSender : string; tbEnable : bool }.
Record MsgUpdateParams := mkMsgUpdateParams { upAuthority : string; upParams : Params }.
Record MsgUpdatePermissions := mkMsgUpdatePermissions {
  permFrom : string; permAddress : string; permPermissions : Z }.
(** A [nil] blob is [None]. *)
Record MsgStoreBlockList := mkMsgStoreBlockList { blFrom : string; blBlob : option bytes }.

Definition ErrInvalidAddress : error := "invalid address".
Definition ErrInvalidCoins : error := "invalid coins".
Definition ErrInvalidRequest : error := "invalid request".
Definition ErrUnauthorized : error := "unauthorized".

(** [if _, err := sdk.AccAddressFromBech32(s); err != nil] *)
Definition checkBech32 (s : string) : result unit :=
  match AccAddressFromBech32 s with Ok _ => Ok tt | Err _ => Err ErrInvalidAddress end.

Definition MsgConvertVouchers_ValidateBasic (msg : MsgConvertVouchers) : result unit :=
  checkBech32 (cvAddress msg) ;;
  fail_if (negb (CoinsIsValid (cvCoins msg))) ErrInvalidCoins ;;
  fail_if (negb (CoinsIsAllPositive (cvCoins msg))) ErrInvalidCoins.

Definition MsgTransferTokens_ValidateBasic (msg : MsgTransferTokens) : result unit :=
  checkBech32 (ttFrom msg) ;;
  fail_if (negb (CoinsIsValid (ttCoins msg))) ErrInvalidCoins ;;
  fail_if (negb (CoinsIsAllPositive (ttCoins msg))) ErrInvalidCoins.

Definition MsgUpdateTokenMapping_ValidateBasic (msg : MsgUpdateTokenMapping) : result unit :=
  checkBech32 (tmSender msg) ;;
  fail_if (negb (IsValidCoinDenom (tmDenom msg))) ErrInvalidRequest ;;
  fail_if (negb (IsHexAddress (tmContract msg))) ErrInvalidRequest.

Definition MsgTurnBridge_ValidateBasic (msg : MsgTurnBridge) : result unit := checkBech32 (tbSender msg).

Definition MsgUpdateParams_ValidateBasic (msg : MsgUpdateParams) : result unit :=
  checkBech32 (upAuthority msg) ;; Params_Validate (upParams msg).

Definition MsgUpdatePermissions_ValidateBasic (msg : MsgUpdatePermissions) : result unit :=
  checkBech32 (permFrom msg) ;; checkBech32 (permAddress msg).

(** [msg.GetSigners()] panics on a sender that is not an address. *)
Definition GetSigners (msg : MsgUpdateTokenMapping) : option (list bytes) :=
  match AccAddressFromBech32 (tmSender msg) with Ok a => Some [a] | Err _ => None end.

(** [age.Decrypt] returns a wrapped error, a chain from the outermost error
    inwards; an identity gets the stanzas of the header. *)
Section Age.
Context {Stanza : Type} (age_Decrypt : bytes -> (list Stanza -> result bytes) -> list error + bytes).

Definition errDummyIdentity : error := "dummy".
Definition dummyIdentity : list Stanza -> result bytes := fun _ => Err errDummyIdentity.
Definition errors_Is (err : list error) (target : error) : bool := bool_decide (target ∈ err).

Definition MsgStoreBlockList_ValidateBasic (msg : MsgStoreBlockList) : result unit :=
  checkBech32 (blFrom msg) ;;
  match age_Decrypt (default [] (blBlob msg)) dummyIdentity with
  | inl err => fail_if (negb (errors_Is err errDummyIdentity)) (default "" (head err))
  | inr _ => Ok tt
  end.
End Age.

(** ** The proposal: [proposal.go] *)

Record TokenMappingChangeProposal := mkProposal {
  propTitle : string; propDescription : string; propDenom : string;
  propContract : string; propSymbol : string; propDecimal : Z }.

Definition NewTokenMappingChangeProposal title description denom symbol decimal (contractAddr : option bytes) :=
  let contract := match contractAddr with Some a => AddressHex a | None => "" end in
  mkProposal title description denom contract symbol decimal.

Definition Proposal_ValidateBasic (p : TokenMappingChangeProposal) : result unit := Ok tt.

End Libs.

(** ** Lemmas *)

Lemma prefix_get (p s : string) n c : HasPrefix s p = true -> String.get n p = Some c -> String.get n s = Some c.
Proof.
  unfold HasPrefix. revert s n. induction p as [|a p IH]; intros [|b s] [|n]; cbn; try done.
  - destruct (Ascii.ascii_dec a b); [|done]. by intros _ [= ->]; subst.
  - destruct (Ascii.ascii_dec a b); [|done]. apply IH.
Qed.

(** The three classes of denominations do not overlap. *)
Lemma denoms_disjoint d :
  (IsValidIBCDenom d = true -> IsValidGravityDenom d = false /\ IsValidCronosDenom d = false) /\
  (IsValidGravityDenom d = true -> IsValidIBCDenom d = false /\ IsValidCronosDenom d = false).
Proof.
  unfold IsValidIBCDenom, IsValidGravityDenom, IsValidCronosDenom.
  split; intros [->%Nat.eqb_eq _]%andb_true_iff; done.
Qed.

(** [TenPowTen] is what it says, and so is [Ten]. *)
Lemma TenPowTen_value : TenPowTen = 10 ^ 10 /\ Ten = 10 ^ 10.
Proof. done. Qed.

Lemma getUint_put v rest : 0 <= v < 2 ^ 64 -> getUint 0 (encodeVarint (u64 v) ++ rest) = Ok (v, rest).
Proof.
  intros Hv. unfold getUint. change (fail_if _ _) with (Ok tt). sbind.
  rewrite u64_id by done. by apply readVarint_put.
Qed.

(** Read back the field a tag selects. *)
Ltac read_param :=
  unfold Params_field;
  lazymatch goal with
  | |- context [encodeVarint (u64 (zlen _))] => read_field
  | |- context [fieldOf ?t] =>
      let v := eval vm_compute in (fieldOf t) in change (fieldOf t) with v;
      let w := eval vm_compute in (wireOf t) in change (wireOf t) with w;
      cbn [Z.eqb Pos.eqb]; first [rewrite getUint_put by lia | rewrite getInt_true]; sbind
  end; done.

Lemma Params_roundtrip m :
  Params_typed m -> zlen (Params_Marshal m) < 2 ^ 63 -> Params_Unmarshal (Params_Marshal m) = Ok m.
Proof.
  intros [Ht Hg] Hl. apply parses_unmarshal. set (l := zlen (Params_Marshal m)) in *.
  assert (l = zlen (Params_Marshal m)) as El by done. clearbody l. unfold Params_Marshal in *.
  rewrite <- (app_nil_r (putInt x28 _)) in *. destruct m as [d t a e g].
  cbn [IbcCroDenom IbcTimeout CronosAdmin EnableAutoDeployment MaxCallbackGas] in *.
  pose proof (putBytesOpt_length x0a (bytes_of_string d)).
  pose proof (putBytesOpt_length x1a (bytes_of_string a)). rewrite !length_app in El. unfold Params_zero.
  eapply parses_bytesOpt; [done|read_param|by intros ->|]. rewrite string_bytes.
  eapply parses_int; [done|read_param|by intros ->|].
  eapply parses_bytesOpt; [done|read_param|by intros ->|]. rewrite string_bytes.
  eapply parses_bool; [done|read_param|intros ->|intros ->];
    (eapply parses_int; [done|read_param|by intros ->|apply parses_nil]).
Qed.

Lemma Params_Size_length m : zlen (Params_Marshal m) = Params_Size m.
Proof.
  unfold Params_Marshal, Params_Size.
  rewrite !length_app, !Nat2Z.inj_add, !sizeBytesOpt_length, !sizeInt_length, sizeBool_length. lia.
Qed.
