(* ===== verification/CronosKeeper.v ===== *)
(** * The cronos module's store: [x/cronos/keeper]

    Token mappings, parameters, permissions and the block list ([keeper.go],
    [params.go], [permissions.go]), the message server ([msg_server.go]) except
    for the two messages that move coins, the governance handler
    ([proposal_handler.go]), the queries ([grpc_query.go]) and genesis
    ([genesis.go]).  Functions that only use the module's store are functions
    on the store. *)

From S2P Require Import Prelude KV Binary Proto Ctx CronosTypes.
From Stdlib Require Import Strings.Byte.

Open Scope string_scope.
Open Scope Z_scope.
Open Scope list_scope.

(** The state a handler works on: the module's store and the stores of the
    other modules. *)
Record Sys (St W : Type) := mkSys { store : St; world : W }.
Arguments mkSys {St W}.
Arguments store {St W}.
Arguments world {St W}.

(** A denomination's metadata in the bank module. *)
Record DenomUnit := mkDenomUnit { duDenom : string; duExponent : Z }.
Record Metadata := mkBankMetadata {
  mdDescription : string; mdDenomUnits : list DenomUnit; mdBase : string; mdDisplay : string;
  mdName : string; mdSymbol : string; mdURI : string; mdURIHash : string }.

Class BankMetadata (W : Type) := {
  GetDenomMetaData : string -> W -> option Metadata;
  SetDenomMetaData : Metadata -> W -> W
}.

Section Store.
Context {L : Libs} {St : Type} {KS : KVStore St}.

(** ** Token mappings *)

(** An absent key and an empty value are both "not found". *)
Definition getAddress (key : bytes) (st : St) : option bytes :=
  match Get key st with
  | Some (b :: bz) => Some (BytesToAddress (b :: bz))
  | _ => None
  end.

Definition getExternalContractByDenom (denom : string) (st : St) : option bytes :=
  getAddress (DenomToExternalContractKey denom) st.

Definition getAutoContractByDenom (denom : string) (st : St) : option bytes :=
  getAddress (DenomToAutoContractKey denom) st.

Definition GetContractByDenom (denom : string) (st : St) : option bytes :=
  match getExternalContractByDenom denom st with
  | Some contract => Some contract
  | None => getAutoContractByDenom denom st
  end.

Definition GetDenomByContract (contract : bytes) (st : St) : option string :=
  match Get (ContractToDenomKey contract) st with
  | Some (b :: bz) => Some (string_of_bytes (b :: bz))
  | _ => None
  end.

Definition ErrAlreadyRegistered : error := "the contract is already registered".

Definition SetExternalContractForDenom (denom : string) (address : bytes) (st : St) : result St :=
  match GetDenomByContract address st with
  | Some _ => Err ErrAlreadyRegistered
  | None =>
      let st :=
        match getExternalContractByDenom denom st with
        | Some existing => DeleteKey (ContractToDenomKey existing) st
        | None => st
        end in
      let st := SetKey (DenomToExternalContractKey denom) address st in
      Ok (SetKey (ContractToDenomKey address) (bytes_of_string denom) st)
  end.

Record TokenMapping := mkTokenMapping { mapDenom : string; mapContract : string }.

Definition tokenMappings (prefix : bytes) (st : St) : list TokenMapping :=
  (fun kv => mkTokenMapping (string_of_bytes kv.1) (AddressHex (BytesToAddress kv.2))) <$> PrefixIterator prefix st.

Definition GetExternalContracts (st : St) : list TokenMapping := tokenMappings KeyPrefixDenomToExternalContract st.
Definition GetAutoContracts (st : St) : list TokenMapping := tokenMappings KeyPrefixDenomToAutoContract st.

Definition DeleteExternalContractForDenom (denom : string) (st : St) : bool * St :=
  match getExternalContractByDenom denom st with
  | None => (false, st)
  | Some contract =>
      (true, DeleteKey (ContractToDenomKey contract) (DeleteKey (DenomToExternalContractKey denom) st))
  end.

Definition SetAutoContractForDenom (denom : string) (address : bytes) (st : St) : St :=
  SetKey (ContractToDenomKey address) (bytes_of_string denom) (SetKey (DenomToAutoContractKey denom) address st).

(** ** Parameters, permissions, block list *)

(** [MustUnmarshal] panics on an error. *)
Definition GetParams (st : St) : option Params :=
  match Get ParamsKey st with
  | None => Some Params_zero
  | Some bz => match Params_Unmarshal bz with Ok p => Some p | Err _ => None end
  end.

Definition SetParams (params : Params) (st : St) : result St :=
  _ ← Params_Validate params; Ok (SetKey ParamsKey (Params_Marshal params) st).

Definition CanChangeTokenMapping : Z := 1.
Definition CanTurnBridge : Z := 2.
Definition All : Z := Z.lor CanChangeTokenMapping CanTurnBridge.

Definition SetPermissions (address : bytes) (permissions : Z) (st : St) : St :=
  SetKey (AdminToPermissionsKey address) (Uint64ToBigEndian permissions) st.

Definition GetPermissions (address : bytes) (st : St) : option Z :=
  BigEndianToUint64 (default [] (Get (AdminToPermissionsKey address) st)).

Fixpoint hasPermission_loop (admin : string) (accounts : list bytes) (permissionsToCheck : Z) (st : St) : option bool :=
  match accounts with
  | [] => Some false
  | account :: accounts =>
      if bool_decide (admin = AccAddressString account) then Some true
      else
        permission ← GetPermissions account st;
        if Z.land permission permissionsToCheck =? permissionsToCheck then Some true
        else hasPermission_loop admin accounts permissionsToCheck st
  end.

Definition HasPermission (accounts : list bytes) (permissionsToCheck : Z) (st : St) : option bool :=
  if permissionsToCheck =? 0 then Some true
  else params ← GetParams st; hasPermission_loop (CronosAdmin params) accounts permissionsToCheck st.

Definition GetBlockList (st : St) : option bytes := Get KeyPrefixBlockList st.

(** ** Queries: [grpc_query.go] *)

Definition ContractByDenom (denom : string) (st : St) : result (string * string) :=
  let contract := default "" (AddressHex <$> getExternalContractByDenom denom st) in
  let autoContract := default "" (AddressHex <$> getAutoContractByDenom denom st) in
  if Nat.eqb (String.length contract) 0 && Nat.eqb (String.length autoContract) 0
  then Err "contract for the coin denom is not found"
  else Ok (contract, autoContract).

Definition DenomByContract (contract : string) (st : St) : result string :=
  match GetDenomByContract (HexToAddress contract) st with
  | None => Err "coin denom for contract is not found"
  | Some denom => Ok denom
  end.

(** [Permissions]: can the account change the token mapping, turn the bridge. *)
Definition QueryPermissions (address : string) (st : St) : option (result (bool * bool)) :=
  match AccAddressFromBech32 address with
  | Err e => Some (Err e)
  | Ok acc =>
      params ← GetParams st;
      if bool_decide (CronosAdmin params = AccAddressString acc) then Some (Ok (true, true))
      else
        permissions ← GetPermissions acc st;
        Some (Ok (CanChangeTokenMapping =? Z.land permissions CanChangeTokenMapping,
                  CanTurnBridge =? Z.land permissions CanTurnBridge))
  end.

(** ** Genesis: [genesis.go]; a panic is [None] *)

Record GenesisState := mkGenesis {
  genParams : Params; genExternalContracts : list TokenMapping; genAutoContracts : list TokenMapping }.

Definition DefaultGenesis : GenesisState := mkGenesis DefaultParams [] [].

Definition GenesisState_Validate (gs : GenesisState) : result unit := Params_Validate (genParams gs).

Definition panic_if (b : bool) : option unit := if b then None else Some tt.
Definition must {A} (r : result A) : option A := match r with Ok a => Some a | Err _ => None end.

(** The checks both loops make on a mapping. *)
Definition checkMapping (m : TokenMapping) : option unit :=
  panic_if (negb (IsValidIBCDenom (mapDenom m)) && negb (IsValidGravityDenom (mapDenom m))) ;;
  panic_if (negb (IsHexAddress (mapContract m))).

Fixpoint initExternal (ms : list TokenMapping) (st : St) : option St :=
  match ms with
  | [] => Some st
  | m :: ms =>
      checkMapping m ;;
      st ← must (SetExternalContractForDenom (mapDenom m) (HexToAddress (mapContract m)) st);
      initExternal ms st
  end.

Fixpoint initAuto (ms : list TokenMapping) (st : St) : option St :=
  match ms with
  | [] => Some st
  | m :: ms => checkMapping m ;; initAuto ms (SetAutoContractForDenom (mapDenom m) (HexToAddress (mapContract m)) st)
  end.

Definition InitGenesis (genState : GenesisState) (st : St) : option St :=
  st ← must (SetParams (genParams genState) st);
  st ← initExternal (genExternalContracts genState) st;
  initAuto (genAutoContracts genState) st.

Definition ExportGenesis (st : St) : option GenesisState :=
  params ← GetParams st;
  Some (mkGenesis params (GetExternalContracts st) (GetAutoContracts st)).

(** ** Messages: [msg_server.go] *)

Context {W : Type} {BM : BankMetadata W}.
(** [strings.ToLower] on strings with non-ASCII characters, and the authority
    the keeper was made with. *)
Context (unicodeToLower : string -> string) (authority : string).

Definition getStore {A} (f : St -> A) : SE (Sys St W) A := gets (f ∘ store).
Definition putStore (f : St -> St) : SE (Sys St W) unit := modify (fun s => mkSys (f (store s)) (world s)).
Definition putWorld (f : W -> W) : SE (Sys St W) unit := modify (fun s => mkSys (store s) (f (world s))).
(** A store function that can fail; its writes come last. *)
Definition tryStore (f : St -> result St) : SE (Sys St W) unit := fun s =>
  match f (store s) with
  | Ok st => Some (Ok tt, mkSys st (world s))
  | Err e => Some (Err e, s)
  end.

Definition isASCII (c : Ascii.ascii) : bool := (Ascii.N_of_ascii c <? 128)%N.
Definition lowerASCII (c : Ascii.ascii) : Ascii.ascii :=
  let n := Ascii.N_of_ascii c in
  if ((65 <=? n) && (n <=? 90))%N%bool then Ascii.ascii_of_N (n + 32) else c.

Definition ToLower (s : string) : string :=
  let cs := String.list_ascii_of_string s in
  if forallb isASCII cs then String.string_of_list_ascii (lowerASCII <$> cs) else unicodeToLower s.

(** The metadata of a source coin, new or updated. *)
Definition sourceMetadata (msg : MsgUpdateTokenMapping) (old : option Metadata) : Metadata :=
  let metadata := default (mkBankMetadata "" [] (tmDenom msg) "" (tmDenom msg) "" "" "") old in
  let display := ToLower (tmSymbol msg) in
  let units :=
    if negb (tmDecimal msg =? 0)
    then [mkDenomUnit (mdBase metadata) 0; mkDenomUnit display (tmDecimal msg)]
    else [mkDenomUnit (mdBase metadata) 0] in
  mkBankMetadata (mdDescription metadata) units (mdBase metadata) display (mdName metadata) (tmSymbol msg)
    (mdURI metadata) (mdURIHash metadata).

Definition RegisterOrUpdateTokenMapping (msg : MsgUpdateTokenMapping) : SE (Sys St W) unit :=
  if IsSourceCoin (tmDenom msg) then
    _ ← orErr (GetContractAddressFromDenom (tmDenom msg));
    old ← gets (fun s => GetDenomMetaData (tmDenom msg) (world s));
    _ ← putWorld (SetDenomMetaData (sourceMetadata msg old));
    tryStore (SetExternalContractForDenom (tmDenom msg) (HexToAddress (tmContract msg)))
  else if Nat.eqb (String.length (tmContract msg)) 0 then
    putStore (fun st => (DeleteExternalContractForDenom (tmDenom msg) st).2)
  else
    _ ← orErr (fail_if (negb (IsHexAddress (tmContract msg))) ErrInvalidAddress);
    tryStore (SetExternalContractForDenom (tmDenom msg) (HexToAddress (tmContract msg))).

Definition UpdateTokenMapping (msg : MsgUpdateTokenMapping) : SE (Sys St W) unit :=
  signers ← orPanic (GetSigners msg);
  ok ← getStore (HasPermission signers CanChangeTokenMapping);
  ok ← orPanic ok;
  if negb ok then throw ErrUnauthorized else RegisterOrUpdateTokenMapping msg.

Definition TurnBridge (msg : MsgTurnBridge) : SE (Sys St W) unit := mret tt.

Definition ErrInvalidSigner : error := "expected authority account as only signer for proposal message".

Definition UpdateParams (msg : MsgUpdateParams) : SE (Sys St W) unit :=
  if bool_decide (upAuthority msg <> authority) then throw ErrInvalidSigner
  else tryStore (SetParams (upParams msg)).

Definition UpdatePermissions (msg : MsgUpdatePermissions) : SE (Sys St W) unit :=
  params ← getStore GetParams;
  params ← orPanic params;
  if bool_decide (CronosAdmin params <> permFrom msg) then throw ErrUnauthorized
  else
    acc ← orErr (AccAddressFromBech32 (permAddress msg));
    putStore (SetPermissions acc (permPermissions msg)).

(** [Set] panics on a [nil] value. *)
Definition StoreBlockList (msg : MsgStoreBlockList) : SE (Sys St W) unit :=
  params ← getStore GetParams;
  params ← orPanic params;
  if bool_decide (CronosAdmin params <> blFrom msg) then throw ErrUnauthorized
  else blob ← orPanic (blBlob msg); putStore (SetKey KeyPrefixBlockList blob).

(** The governance handler: only this kind of content is known. *)
Inductive Content := TokenMappingChange (p : TokenMappingChangeProposal) | OtherContent.

Definition TokenMappingChangeProposalHandler (content : Content) : SE (Sys St W) unit :=
  match content with
  | TokenMappingChange c =>
      if negb (IsValidCoinDenom (propDenom c)) then throw ErrInvalidRequest
      else RegisterOrUpdateTokenMapping
             (mkMsgUpdateTokenMapping "" (propDenom c) (propContract c) (propSymbol c) (propDecimal c))
  | OtherContent => throw "unrecognized cronos proposal content type"
  end.

End Store.

(** ** Invariants of the store

    Every entry of the store has one of the six kinds of keys and a value of
    the type its readers expect: addresses of 20 bytes under the denominations,
    a denomination under a contract, valid parameters, eight bytes of
    permissions. *)
Section Typed.
Context {L : Libs} {LL : LibsLaws} {St : Type} {KS : KVStore St} {KL : KVStoreLaws St}.

Definition entry_typed (k v : bytes) : Prop :=
  match k with
  | x01 :: d | x02 :: d => d <> [] /\ is_address v
  | x03 :: c => is_address c /\ v <> []
  | [x04] => exists p, Params_Unmarshal v = Ok p /\ Params_Validate p = Ok tt
  | x05 :: _ => length v = 8%nat
  | [x06] => True
  | _ => False
  end.

Definition store_typed (st : St) : Prop := forall k v, Get k st = Some v -> entry_typed k v.

(** The index from contracts to denominations is the inverse of the two
    tables, which share no contract. *)
Definition mapping_inv (st : St) : Prop :=
  (forall c d, GetDenomByContract c st = Some d <->
     getExternalContractByDenom d st = Some c \/ getAutoContractByDenom d st = Some c) /\
  (forall c d d', getExternalContractByDenom d st = Some c -> getAutoContractByDenom d' st <> Some c).

Definition registry_inv (st : St) : Prop := store_typed st /\ mapping_inv st.

Lemma typed_set k v st : store_typed st -> entry_typed k v -> store_typed (SetKey k v st).
Proof.
  intros Hs Hv k' v'. destruct (decide (k' = k)) as [->|Hk].
  - rewrite Get_Set_eq. by intros [= <-].
  - rewrite Get_Set_ne by done. apply Hs.
Qed.

Lemma typed_delete k st : store_typed st -> store_typed (DeleteKey k st).
Proof.
  intros Hs k' v'. destruct (decide (k' = k)) as [->|Hk].
  - by rewrite Get_Delete_eq.
  - rewrite Get_Delete_ne by done. apply Hs.
Qed.

Lemma bytes_of_string_inj d d' : bytes_of_string d = bytes_of_string d' -> d = d'.
Proof. intros E. by rewrite <- (string_bytes d), E, string_bytes. Qed.

Lemma getAddress_set k k' a st :
  is_address a -> getAddress k' (SetKey k a st) = if decide (k' = k) then Some a else getAddress k' st.
Proof.
  intros Ha. unfold getAddress. case_decide as E; [subst|by rewrite Get_Set_ne].
  rewrite Get_Set_eq. destruct a; [done|]. by rewrite BytesToAddress_id.
Qed.

Lemma getAddress_set_other k k' a st : k' <> k -> getAddress k' (SetKey k a st) = getAddress k' st.
Proof. intros Hk. unfold getAddress. by rewrite Get_Set_ne. Qed.

Lemma getAddress_delete k k' st :
  getAddress k' (DeleteKey k st) = if decide (k' = k) then None else getAddress k' st.
Proof.
  unfold getAddress. case_decide as E; [subst; by rewrite Get_Delete_eq|by rewrite Get_Delete_ne].
Qed.

Lemma getAddress_typed k st a x d :
  store_typed st -> k = x :: d -> x = x01 \/ x = x02 -> getAddress k st = Some a ->
  Get k st = Some a /\ is_address a /\ d <> [].
Proof.
  intros Ht -> Hx. unfold getAddress. destruct (Get _ st) as [[|b bz]|] eqn:E; [done| |done].
  intros [= <-]. apply Ht in E as E'. assert (d <> [] /\ is_address (b :: bz)) as [Hd Ha]
    by (destruct Hx; subst; done).
  by rewrite BytesToAddress_id.
Qed.

Lemma rev_set c c' d st :
  d <> "" -> GetDenomByContract c' (SetKey (ContractToDenomKey c) (bytes_of_string d) st) =
             if decide (c' = c) then Some d else GetDenomByContract c' st.
Proof.
  intros Hd. unfold GetDenomByContract. case_decide as E.
  - subst. rewrite Get_Set_eq. destruct (bytes_of_string d) eqn:Eb; [by apply bytes_of_string_nil in Eb|].
    by rewrite <- Eb, string_bytes.
  - rewrite Get_Set_ne; [done|]. unfold ContractToDenomKey. cbn. congruence.
Qed.

Lemma rev_delete c c' st :
  GetDenomByContract c' (DeleteKey (ContractToDenomKey c) st) =
  if decide (c' = c) then None else GetDenomByContract c' st.
Proof.
  unfold GetDenomByContract. case_decide as E; [subst; by rewrite Get_Delete_eq|].
  rewrite Get_Delete_ne; [done|]. unfold ContractToDenomKey. cbn. congruence.
Qed.

(** Entries of other tables do not matter to the index. *)
Lemma rev_set_other k v c st : head k <> Some x03 -> GetDenomByContract c (SetKey k v st) = GetDenomByContract c st.
Proof. intros Hk. unfold GetDenomByContract. rewrite Get_Set_ne; [done|]. by intros <-. Qed.

Lemma rev_delete_other k c st : head k <> Some x03 -> GetDenomByContract c (DeleteKey k st) = GetDenomByContract c st.
Proof. intros Hk. unfold GetDenomByContract. rewrite Get_Delete_ne; [done|]. by intros <-. Qed.

Lemma ext_key_eq d d' : DenomToExternalContractKey d' = DenomToExternalContractKey d <-> d' = d.
Proof. unfold DenomToExternalContractKey. cbn. split; [intros [= E]; by apply bytes_of_string_inj|by intros ->]. Qed.

Lemma auto_key_eq d d' : DenomToAutoContractKey d' = DenomToAutoContractKey d <-> d' = d.
Proof. unfold DenomToAutoContractKey. cbn. split; [intros [= E]; by apply bytes_of_string_inj|by intros ->]. Qed.

(** What the writers do to the three views of the mappings. *)
Definition views_after (st st' : St) (ext auto : string -> option bytes) (rev : bytes -> option string) : Prop :=
  (forall d, getExternalContractByDenom d st' = ext d) /\
  (forall d, getAutoContractByDenom d st' = auto d) /\
  (forall c, GetDenomByContract c st' = rev c).

Lemma SetExternal_views d a st st' :
  d <> "" -> is_address a -> SetExternalContractForDenom d a st = Ok st' ->
  GetDenomByContract a st = None /\
  views_after st st'
    (fun d' => if decide (d' = d) then Some a else getExternalContractByDenom d' st)
    (fun d' => getAutoContractByDenom d' st)
    (fun c => if decide (c = a) then Some d
              else if decide (getExternalContractByDenom d st = Some c) then None else GetDenomByContract c st).
Proof.
  intros Hd Ha. unfold SetExternalContractForDenom.
  destruct (GetDenomByContract a st) as [|] eqn:Er; [done|]. intros [= <-]. split; [done|].
  set (st1 := match getExternalContractByDenom d st with Some _ => _ | None => st end).
  assert (forall d', getExternalContractByDenom d' st1 = getExternalContractByDenom d' st /\
                     getAutoContractByDenom d' st1 = getAutoContractByDenom d' st) as H1.
  { intros d'. subst st1. destruct (getExternalContractByDenom d st); [|done].
    unfold getExternalContractByDenom, getAutoContractByDenom. by rewrite !getAddress_delete, !decide_False. }
  assert (forall c, GetDenomByContract c st1 =
            if decide (getExternalContractByDenom d st = Some c) then None else GetDenomByContract c st) as H2.
  { intros c. subst st1. destruct (getExternalContractByDenom d st) as [e|]; [|done].
    rewrite rev_delete. by repeat case_decide; simplify_eq. }
  split; [|split].
  - intros d'. specialize (H1 d') as [<- _]. unfold getExternalContractByDenom.
    rewrite getAddress_set_other, getAddress_set by done.
    apply decide_ext, ext_key_eq.
  - intros d'. specialize (H1 d') as [_ <-]. unfold getAutoContractByDenom. by rewrite !getAddress_set_other.
  - intros c. rewrite rev_set by done. case_decide; [done|]. by rewrite rev_set_other, H2.
Qed.

Lemma DeleteExternal_views d st :
  views_after st (DeleteExternalContractForDenom d st).2
    (fun d' => if decide (d' = d) then None else getExternalContractByDenom d' st)
    (fun d' => getAutoContractByDenom d' st)
    (fun c => if decide (getExternalContractByDenom d st = Some c) then None else GetDenomByContract c st).
Proof.
  unfold DeleteExternalContractForDenom.
  destruct (getExternalContractByDenom d st) as [e|] eqn:Ee; cbn; (split; [|split]).
  - intros d'. unfold getExternalContractByDenom. rewrite getAddress_delete, decide_False, getAddress_delete by done.
    apply decide_ext, ext_key_eq.
  - intros d'. unfold getAutoContractByDenom. by rewrite !getAddress_delete, !decide_False.
  - intros c. rewrite rev_delete, rev_delete_other by done. by repeat case_decide; simplify_eq.
  - intros d'. by case_decide; subst.
  - done.
  - done.
Qed.

Lemma SetAuto_views d a st :
  d <> "" -> is_address a ->
  views_after st (SetAutoContractForDenom d a st)
    (fun d' => getExternalContractByDenom d' st)
    (fun d' => if decide (d' = d) then Some a else getAutoContractByDenom d' st)
    (fun c => if decide (c = a) then Some d else GetDenomByContract c st).
Proof.
  intros Hd Ha. unfold SetAutoContractForDenom. split; [|split].
  - intros d'. unfold getExternalContractByDenom. by rewrite !getAddress_set_other.
  - intros d'. unfold getAutoContractByDenom. rewrite getAddress_set_other, getAddress_set by done.
    apply decide_ext, auto_key_eq.
  - intros c. rewrite rev_set by done. case_decide; [done|]. by rewrite rev_set_other.
Qed.

(** A write under another prefix keeps the three views. *)
Lemma other_views k v st :
  head k <> Some x01 -> head k <> Some x02 -> head k <> Some x03 ->
  views_after st (SetKey k v st) (fun d => getExternalContractByDenom d st)
    (fun d => getAutoContractByDenom d st) (fun c => GetDenomByContract c st).
Proof.
  intros H1 H2 H3. split; [|split]; intros; unfold getExternalContractByDenom, getAutoContractByDenom.
  - apply getAddress_set_other. by intros <-.
  - apply getAddress_set_other. by intros <-.
  - by apply rev_set_other.
Qed.

Lemma denom_bytes_nonempty d : d <> "" -> bytes_of_string d <> [].
Proof. by intros Hd E%bytes_of_string_nil. Qed.

Lemma SetExternal_inv d a st st' :
  d <> "" -> is_address a -> registry_inv st -> SetExternalContractForDenom d a st = Ok st' -> registry_inv st'.
Proof.
  intros Hd Ha [Ht [Hiff Hdis]] Hset. split.
  - revert Hset. unfold SetExternalContractForDenom. destruct (GetDenomByContract a st); [done|]. intros [= <-].
    repeat apply typed_set.
    + destruct (getExternalContractByDenom d st); [by apply typed_delete|done].
    + split; [by apply denom_bytes_nonempty|done].
    + split; [done|by apply denom_bytes_nonempty].
  - apply SetExternal_views in Hset as (Hr & He & Hau & Hrev); [|done..]. split.
    + intros c d'. rewrite Hrev, He, Hau. specialize (Hiff a d') as Ha'. specialize (Hiff c) as Hc.
      pose proof (Hc d) as Hcd. specialize (Hc d'). specialize (Hdis c d d').
      repeat case_decide; subst; naive_solver congruence.
    + intros c d1 d2. rewrite He, Hau. case_decide; [|by apply Hdis]. intros [= <-] Hx.
      by rewrite (proj2 (Hiff a d2)) in Hr by auto.
Qed.

Lemma DeleteExternal_inv d st : registry_inv st -> registry_inv (DeleteExternalContractForDenom d st).2.
Proof.
  intros [Ht [Hiff Hdis]]. split.
  - unfold DeleteExternalContractForDenom. destruct (getExternalContractByDenom d st); cbn; [|done].
    by repeat apply typed_delete.
  - destruct (DeleteExternal_views d st) as (He & Hau & Hrev). split.
    + intros c d'. rewrite Hrev, He, Hau. specialize (Hiff c) as Hc.
      pose proof (Hc d) as Hcd. specialize (Hc d'). specialize (Hdis c d d').
      repeat case_decide; subst; naive_solver congruence.
    + intros c d1 d2. rewrite He, Hau. case_decide; [done|apply Hdis].
Qed.

Lemma SetAuto_inv d a st :
  d <> "" -> is_address a -> getAutoContractByDenom d st = None -> GetDenomByContract a st = None ->
  registry_inv st -> registry_inv (SetAutoContractForDenom d a st).
Proof.
  intros Hd Ha Hn Hr [Ht [Hiff Hdis]]. split.
  - repeat apply typed_set; [done| |].
    + split; [by apply denom_bytes_nonempty|done].
    + split; [done|by apply denom_bytes_nonempty].
  - destruct (SetAuto_views d a st Hd Ha) as (He & Hau & Hrev). split.
    + intros c d'. rewrite Hrev, He, Hau. specialize (Hiff c d') as Hc. specialize (Hiff a d') as Ha'.
      repeat case_decide; subst; naive_solver congruence.
    + intros c d1 d2. rewrite He, Hau. case_decide; [|apply Hdis]. intros Hx [= <-].
      by rewrite (proj2 (Hiff a d1)) in Hr by auto.
Qed.

Lemma other_inv k v st :
  head k <> Some x01 -> head k <> Some x02 -> head k <> Some x03 -> entry_typed k v ->
  registry_inv st -> registry_inv (SetKey k v st).
Proof.
  intros H1 H2 H3 Hv [Ht [Hiff Hdis]]. split; [by apply typed_set|].
  destruct (other_views k v st H1 H2 H3) as (He & Hau & Hrev). split.
  - intros c d. rewrite Hrev, He, Hau. apply Hiff.
  - intros c d d'. rewrite He, Hau. apply Hdis.
Qed.

(** Parameters as Go holds them: [uint64] integers, a message whose length is
    an [int]. *)
Definition Params_wf (p : Params) : Prop := Params_typed p /\ zlen (Params_Marshal p) < 2 ^ 63.

Lemma SetParams_inv p st st' : Params_wf p -> registry_inv st -> SetParams p st = Ok st' -> registry_inv st'.
Proof.
  intros [Hp Hl] Hi. unfold SetParams. destruct (Params_Validate p) as [[]|] eqn:Ev; sbind; [|done]. intros [= <-].
  apply other_inv; [done..| |done]. exists p. split; [by apply Params_roundtrip|done].
Qed.

Lemma SetPermissions_inv a p st : registry_inv st -> registry_inv (SetPermissions a p st).
Proof. apply other_inv; [done..|]. cbn. apply Uint64ToBigEndian_length. Qed.

Definition empty_store (st : St) : Prop := forall k, Get k st = None.

Lemma empty_registry st : empty_store st -> registry_inv st.
Proof.
  intros He. split; [intros k v; by rewrite He|].
  unfold mapping_inv, GetDenomByContract, getExternalContractByDenom, getAutoContractByDenom, getAddress.
  split; intros *; rewrite !He; naive_solver.
Qed.

(** ** The readers do not panic on a typed store *)

Lemma GetParams_typed st : store_typed st -> exists p, GetParams st = Some p.
Proof.
  intros Ht. unfold GetParams. destruct (Get ParamsKey st) as [bz|] eqn:E; [|by eexists].
  apply Ht in E as (p & -> & _). by eexists.
Qed.

Lemma GetPermissions_typed a st : store_typed st -> exists p, GetPermissions a st = Some p.
Proof.
  intros Ht. unfold GetPermissions. destruct (Get (AdminToPermissionsKey a) st) as [v|] eqn:E; cbn.
  - apply Ht in E. cbn in E. by apply BigEndianToUint64_some in E as [p ->]; eexists.
  - eexists. apply BigEndianToUint64_empty.
Qed.

Lemma HasPermission_typed accounts p st : store_typed st -> exists b, HasPermission accounts p st = Some b.
Proof.
  intros Ht. unfold HasPermission. destruct (p =? 0); [by eexists|].
  destruct (GetParams_typed st Ht) as [params ->]. cbn. induction accounts as [|a accounts IH]; cbn; [by eexists|].
  case_bool_decide; [by eexists|]. destruct (GetPermissions_typed a st Ht) as [q ->]. cbn.
  destruct (_ =? _); [by eexists|done].
Qed.

End Typed.

(** ** The messages *)
Section Messages.
Context {L : Libs} {LL : LibsLaws} {St : Type} {KS : KVStore St} {KL : KVStoreLaws St}.
Context {W : Type} {BM : BankMetadata W} (unicodeToLower : string -> string).

Lemma IsValidCoinDenom_nonempty d : IsValidCoinDenom d = true -> d <> "".
Proof. by intros H ->. Qed.

Lemma tryStore_run (f : St -> result St) (s : Sys St W) :
  tryStore f s = Some (match f (store s) with Ok st => (Ok tt, mkSys st (world s)) | Err e => (Err e, s) end).
Proof. unfold tryStore. by destruct (f (store s)). Qed.

(** Registering a mapping does not panic and keeps the invariant; an error
    leaves the store as it was. *)
Lemma Register_safe msg (s : Sys St W) :
  tmDenom msg <> "" -> registry_inv (store s) ->
  exists r s', RegisterOrUpdateTokenMapping unicodeToLower msg s = Some (r, s') /\ registry_inv (store s') /\
    match r with
    | Err _ => store s' = store s
    | Ok _ => SetExternalContractForDenom (tmDenom msg) (HexToAddress (tmContract msg)) (store s) = Ok (store s') \/
              tmContract msg = "" /\ store s' = (DeleteExternalContractForDenom (tmDenom msg) (store s)).2
    end.
Proof.
  intros Hd Hi. unfold RegisterOrUpdateTokenMapping.
  assert (forall w : W, exists r (s' : Sys St W), tryStore (SetExternalContractForDenom (tmDenom msg) (HexToAddress (tmContract msg)))
      (mkSys (store s) w) = Some (r, s') /\ registry_inv (store s') /\
      match r with
      | Err _ => store s' = store s
      | Ok _ => SetExternalContractForDenom (tmDenom msg) (HexToAddress (tmContract msg)) (store s) = Ok (store s')
      end) as Hset.
  { intros w. rewrite tryStore_run. cbn [store].
    destruct (SetExternalContractForDenom _ _ (store s)) as [st|e] eqn:E; eexists _, _; split; try done.
    split; [|done]. eapply SetExternal_inv; [done|apply HexToAddress_length|done|done]. }
  destruct (IsSourceCoin (tmDenom msg)).
  - destruct (GetContractAddressFromDenom (tmDenom msg)) as [a|e]; [|by eexists _, _].
    sstate. destruct (Hset (SetDenomMetaData (sourceMetadata unicodeToLower msg
      (GetDenomMetaData (tmDenom msg) (world s))) (world s))) as (r & s' & E & Hi' & Hr).
    exists r, s'. split_and!; [exact E|done|]. destruct r; [by left|done].
  - destruct (Nat.eqb_spec (String.length (tmContract msg)) 0) as [E0|_].
    { eexists _, _. split; [reflexivity|]. split; [by apply DeleteExternal_inv|]. right.
      split; [|done]. by destruct (tmContract msg). }
    destruct (IsHexAddress (tmContract msg)) eqn:Eh; cbn [negb fail_if]; [|by eexists _, _].
    sstate. destruct (Hset (world s)) as (r & s' & E & Hi' & Hr). destruct s as [st w].
    exists r, s'. split_and!; [exact E|done|]. destruct r; [by left|done].
Qed.

(** When registering a mapping with a contract address succeeds. *)
Definition is_ok {A} (r : result A) : bool := match r with Ok _ => true | Err _ => false end.

Lemma Register_ok msg (s : Sys St W) :
  IsHexAddress (tmContract msg) = true ->
  exists r s', RegisterOrUpdateTokenMapping unicodeToLower msg s = Some (r, s') /\
    (r = Ok tt <-> GetDenomByContract (HexToAddress (tmContract msg)) (store s) = None /\
       (IsSourceCoin (tmDenom msg) = true -> is_ok (GetContractAddressFromDenom (tmDenom msg)) = true)).
Proof.
  intros Eh. unfold RegisterOrUpdateTokenMapping. destruct (IsSourceCoin (tmDenom msg)).
  - destruct (GetContractAddressFromDenom (tmDenom msg)) as [a|e]; [|by eexists _, _; split; [done|naive_solver]].
    sstate. unfold putWorld. sstate. rewrite tryStore_run. cbn [store world]. unfold SetExternalContractForDenom.
    destruct (GetDenomByContract _ (store s)); eexists _, _; (split; [done|]); naive_solver.
  - destruct (Nat.eqb_spec (String.length (tmContract msg)) 0) as [E0|_].
    { destruct (tmContract msg); [|done]. by rewrite IsHexAddress_empty in Eh. }
    rewrite Eh. cbn [negb fail_if]. sstate. rewrite tryStore_run. unfold SetExternalContractForDenom.
    destruct (GetDenomByContract _ (store s)); eexists _, _; (split; [done|]); naive_solver.
Qed.

(** C23: A validated [MsgUpdateTokenMapping] from an account that may change mappings
    succeeds exactly when the contract is not registered yet and, for a source coin, the
    denomination carries a contract address.  Then the denomination and the contract are
    mapped to each other, the contract the denomination had before is no longer mapped, and
    nothing else changes; on an error the store is as it was. *)
Theorem UpdateTokenMapping_correct m (s : Sys St W) :
  registry_inv (store s) -> MsgUpdateTokenMapping_ValidateBasic m = Ok tt ->
  let c := HexToAddress (tmContract m) in
  let permitted := exists a, AccAddressFromBech32 (tmSender m) = Ok a /\
    HasPermission [a] CanChangeTokenMapping (store s) = Some true in
  exists r s', UpdateTokenMapping unicodeToLower m s = Some (r, s') /\
    (r = Ok tt <-> permitted /\ GetDenomByContract c (store s) = None /\
       (IsSourceCoin (tmDenom m) = true -> is_ok (GetContractAddressFromDenom (tmDenom m)) = true)) /\
    match r with
    | Err _ => store s' = store s
    | Ok _ =>
        GetContractByDenom (tmDenom m) (store s') = Some c /\ GetDenomByContract c (store s') = Some (tmDenom m) /\
        (forall d, d <> tmDenom m -> GetContractByDenom d (store s') = GetContractByDenom d (store s)) /\
        (forall c', c' <> c -> GetDenomByContract c' (store s') =
           if decide (getExternalContractByDenom (tmDenom m) (store s) = Some c') then None
           else GetDenomByContract c' (store s))
    end.
Proof.
  intros Hi Hv c permitted. unfold MsgUpdateTokenMapping_ValidateBasic, checkBech32 in Hv. subst permitted.
  unfold UpdateTokenMapping, GetSigners. destruct (AccAddressFromBech32 (tmSender m)) as [a|e]; [|done]. sbind.
  destruct (IsValidCoinDenom (tmDenom m)) eqn:Ed; [|done].
  destruct (IsHexAddress (tmContract m)) eqn:Eh; [|done]. clear Hv.
  apply IsValidCoinDenom_nonempty in Ed. unfold getStore, compose. sstate.
  destruct (HasPermission_typed [a] CanChangeTokenMapping (store s) (proj1 Hi)) as [b Eb]. rewrite Eb. sstate.
  destruct b; cbn [negb].
  - destruct (Register_ok m s Eh) as (r & s' & E & Hr). exists r, s'. split; [done|].
    destruct (Register_safe m s Ed Hi) as (r' & s'' & E' & _ & Hr'). rewrite E in E'. injection E' as <- <-.
    split; [naive_solver|]. destruct r as [[]|e]; [|done].
    destruct Hr' as [Hset|[E0 _]]; [|by rewrite E0, IsHexAddress_empty in Eh].
    apply SetExternal_views in Hset as (_ & He & Hau & Hrev); [|done|apply HexToAddress_length].
    unfold GetContractByDenom. split_and!.
    + by rewrite He, decide_True.
    + by rewrite Hrev, decide_True.
    + intros d Hd. by rewrite He, Hau, decide_False.
    + intros c' Hc. by rewrite Hrev, decide_False.
  - eexists _, _. split; [done|]. split; [naive_solver congruence|done].
Qed.

End Messages.

(** ** A concrete module: a store and metadata in finite maps, one account with
    the token mapping permission *)
Section Example.
#[local] Existing Instance plain_libs.
#[local] Existing Instance plain_libs_laws.

#[local] Instance map_metadata : BankMetadata (gmap string Metadata) := {
  GetDenomMetaData d m := m !! d;
  SetDenomMetaData md m := <[mdBase md := md]> m
}.

Definition ex_account : bytes := toAddress [x07].
Definition ex_sys : Sys (gmap bytes bytes) (gmap string Metadata) :=
  mkSys (SetPermissions ex_account CanChangeTokenMapping ∅) ∅.
Definition ex_mapping : MsgUpdateTokenMapping :=
  mkMsgUpdateTokenMapping (AccAddressString ex_account) "cronos0x0000000000000000000000000000000000000009"
    (AddressHex (toAddress [x09])) "TOKEN" 6.

Lemma ex_registry : registry_inv (store ex_sys).
Proof. apply SetPermissions_inv, empty_registry. intros k. apply lookup_empty. Defined.

Lemma UpdateTokenMapping_correct_witness :
  exists s', UpdateTokenMapping id ex_mapping ex_sys = Some (Ok tt, s') /\
    GetDenomByContract (toAddress [x09]) (store s') = Some (tmDenom ex_mapping).
Proof.
  destruct (UpdateTokenMapping_correct id ex_mapping ex_sys) as (r & s' & E & Hr & Hs); [apply ex_registry|by vm_compute|].
  assert (r = Ok tt) as ->.
  { apply Hr. split; [exists ex_account; by vm_compute|]. by vm_compute. }
  exists s'. split; [done|]. apply Hs.
Defined.

End Example.
