(* ===== verification/CronosGenesis.v ===== *)
(** * Genesis of the cronos module: [x/cronos/genesis.go]

    Exporting the module's state and initialising an empty store with it. *)

From S2P Require Import Prelude KV Binary Proto Ctx CronosTypes CronosKeeper.
From Stdlib Require Import Strings.Byte.

Open Scope string_scope.
Open Scope Z_scope.
Open Scope list_scope.

Section Genesis.
Context {L : Libs} {LL : LibsLaws} {St : Type} {KS : KVStore St} {KL : KVStoreLaws St}.

(** A table of mappings and how genesis writes it. *)
Definition enc (m : string * bytes) : TokenMapping := mkTokenMapping m.1 (AddressHex m.2).

Definition mappable (d : string) : Prop := IsValidIBCDenom d = true \/ IsValidGravityDenom d = true.

Definition table_ok (l : list (string * bytes)) : Prop :=
  NoDup l.*1 /\ NoDup l.*2 /\ Forall (fun m => mappable m.1 /\ is_address m.2) l.

Lemma mappable_nonempty d : mappable d -> d <> "".
Proof. by intros [H|H] ->. Qed.

Lemma checkMapping_enc d a : mappable d -> is_address a -> checkMapping (enc (d, a)) = Some tt.
Proof.
  intros Hd Ha. unfold checkMapping. cbn. rewrite IsHexAddress_Hex by done.
  by destruct Hd as [-> | ->]; rewrite ?andb_false_r.
Qed.

Lemma initExternal_ok l st :
  table_ok l -> registry_inv st ->
  (forall d a, (d, a) ∈ l -> getExternalContractByDenom d st = None /\ GetDenomByContract a st = None) ->
  exists st', initExternal (enc <$> l) st = Some st' /\ registry_inv st' /\
    (forall d a, getExternalContractByDenom d st' = Some a <-> (d, a) ∈ l \/ getExternalContractByDenom d st = Some a) /\
    (forall d, getAutoContractByDenom d st' = getAutoContractByDenom d st) /\ Get ParamsKey st' = Get ParamsKey st.
Proof.
  revert st. induction l as [|[d a] l IH]; intros st (Hnd & Hna & Hall) Hi Hfree; cbn.
  - exists st. split_and!; [done..|set_solver|done|done].
  - apply NoDup_cons in Hnd as [Hd Hnd]. apply NoDup_cons in Hna as [Ha Hna].
    apply Forall_cons in Hall as [[Hm Had] Hall]. cbn in *. pose proof (mappable_nonempty d Hm).
    destruct (Hfree d a) as [He Hr]; [by left|].
    rewrite checkMapping_enc, HexToAddress_Hex by done. sbind.
    destruct (SetExternalContractForDenom d a st) as [st1|] eqn:Hset;
      [|by unfold SetExternalContractForDenom in Hset; rewrite Hr in Hset]. cbn [must]. sbind.
    pose proof (SetExternal_inv _ _ _ _ ltac:(done) Had Hi Hset) as Hi1.
    assert (Get ParamsKey st1 = Get ParamsKey st) as Hp1.
    { unfold SetExternalContractForDenom in Hset. rewrite Hr, He in Hset. injection Hset as <-.
      by rewrite !Get_Set_ne. }
    apply SetExternal_views in Hset as (_ & He1 & Hau1 & Hrev1); [|done..].
    destruct (IH st1) as (st' & Hrun & Hi' & He' & Hau' & Hp'); [done|done| |].
    { intros d' a' Hin. destruct (Hfree d' a') as [He2 Hr2]; [by right|].
      rewrite He1, Hrev1, He, !decide_False; [done|done| |].
      - intros ->. apply Ha. by apply (list_elem_of_fmap_2 snd l (d', a)).
      - intros ->. apply Hd. by apply (list_elem_of_fmap_2 fst l (d, a')). }
    exists st'. split_and!; [done|done| | |congruence].
    + intros d' a'. rewrite He', He1, elem_of_cons. destruct (decide (d' = d)) as [->|]; [|naive_solver].
      rewrite He. naive_solver.
    + intros d'. by rewrite Hau', Hau1.
Qed.

Lemma initAuto_ok l st :
  table_ok l -> registry_inv st ->
  (forall d a, (d, a) ∈ l -> getAutoContractByDenom d st = None /\ GetDenomByContract a st = None) ->
  exists st', initAuto (enc <$> l) st = Some st' /\ registry_inv st' /\
    (forall d a, getAutoContractByDenom d st' = Some a <-> (d, a) ∈ l \/ getAutoContractByDenom d st = Some a) /\
    (forall d, getExternalContractByDenom d st' = getExternalContractByDenom d st) /\
    Get ParamsKey st' = Get ParamsKey st.
Proof.
  revert st. induction l as [|[d a] l IH]; intros st (Hnd & Hna & Hall) Hi Hfree; cbn.
  - exists st. split_and!; [done..|set_solver|done|done].
  - apply NoDup_cons in Hnd as [Hd Hnd]. apply NoDup_cons in Hna as [Ha Hna].
    apply Forall_cons in Hall as [[Hm Had] Hall]. cbn in *. pose proof (mappable_nonempty d Hm) as Hne.
    destruct (Hfree d a) as [He Hr]; [by left|].
    rewrite checkMapping_enc, HexToAddress_Hex by done. sbind.
    pose proof (SetAuto_inv d a st Hne Had He Hr Hi) as Hi1.
    assert (Get ParamsKey (SetAutoContractForDenom d a st) = Get ParamsKey st) as Hp1
      by (unfold SetAutoContractForDenom; by rewrite !Get_Set_ne).
    destruct (SetAuto_views d a st Hne Had) as (He1 & Hau1 & Hrev1).
    destruct (IH (SetAutoContractForDenom d a st)) as (st' & Hrun & Hi' & Hau' & He' & Hp'); [done|done| |].
    { intros d' a' Hin. destruct (Hfree d' a') as [He2 Hr2]; [by right|].
      rewrite Hau1, Hrev1, !decide_False; [done| |].
      - intros ->. apply Ha. by apply (list_elem_of_fmap_2 snd l (d', a)).
      - intros ->. apply Hd. by apply (list_elem_of_fmap_2 fst l (d, a')). }
    exists st'. split_and!; [done|done| | |congruence].
    + intros d' a'. rewrite Hau', Hau1, elem_of_cons. destruct (decide (d' = d)) as [->|]; [|naive_solver].
      rewrite He. naive_solver.
    + intros d'. by rewrite He', He1.
Qed.

(** The entries of one table of a typed store. *)
Definition table (p : bytes) (st : St) : list (string * bytes) :=
  (fun kv => (string_of_bytes kv.1, kv.2)) <$> PrefixIterator p st.

Lemma table_spec p x (get : string -> St -> option bytes) st :
  p = [x] -> x = x01 \/ x = x02 -> (forall d, get d st = getAddress (p ++ bytes_of_string d) st) ->
  store_typed st ->
  (forall d a, (d, a) ∈ table p st <-> get d st = Some a) /\ NoDup (table p st).*1 /\
  tokenMappings p st = enc <$> table p st.
Proof.
  intros -> Hx Hget Ht.
  assert (forall k v, (k, v) ∈ PrefixIterator [x] st -> is_address v) as Hty.
  { intros k v Hin%PrefixIterator_spec. apply Ht in Hin. destruct Hx; subst; apply Hin. }
  split_and!.
  - intros d a. unfold table. rewrite list_elem_of_fmap, Hget. split.
    + intros ([k v] & [= -> ->] & Hin). pose proof (Hty _ _ Hin) as Ha.
      apply PrefixIterator_spec in Hin. cbn. unfold getAddress. cbn in Hin.
      rewrite String.list_byte_of_string_of_list_byte, Hin. destruct v; [done|]. by rewrite BytesToAddress_id.
    + intros E. eapply getAddress_typed in E as (E & _ & _); [|done|done|done].
      exists (bytes_of_string d, a). cbn [fst snd]. rewrite string_bytes. split; [done|]. by apply PrefixIterator_spec.
  - unfold table. rewrite <- list_fmap_compose.
    change (fst ∘ _) with (string_of_bytes ∘ (fst : bytes * bytes -> bytes)). rewrite list_fmap_compose.
    apply NoDup_fmap_2_strong.
    + intros k k' _ _ E. rewrite <- (String.list_byte_of_string_of_list_byte k), E.
      apply String.list_byte_of_string_of_list_byte.
    + pose proof (PrefixIterator_sorted [x] st) as Hs. by apply sorted_NoDup.
  - unfold tokenMappings, table. rewrite <- list_fmap_compose. apply list_fmap_ext.
    intros i [k v] Hl%list_elem_of_lookup_2. cbn. unfold enc. cbn. by rewrite BytesToAddress_id by by eapply Hty.
Qed.

(** The mappings of a store, both tables, can be written at genesis. *)
Definition all_mappable (st : St) : Prop := forall d c, GetContractByDenom d st = Some c -> mappable d.

Definition same_mappings (st st' : St) : Prop :=
  (forall d, getExternalContractByDenom d st' = getExternalContractByDenom d st) /\
  (forall d, getAutoContractByDenom d st' = getAutoContractByDenom d st) /\
  (forall c, GetDenomByContract c st' = GetDenomByContract c st).

Lemma option_iff_eq {A} (x y : option A) : (forall a, x = Some a <-> y = Some a) -> x = y.
Proof. intros H. destruct x as [a|]; [symmetry; by apply H|]. destruct y as [b|]; [|done]. by apply H. Qed.

Lemma registry_tables st ge ga :
  registry_inv st -> (forall d a, (d, a) ∈ ge <-> getExternalContractByDenom d st = Some a) ->
  (forall d a, (d, a) ∈ ga <-> getAutoContractByDenom d st = Some a) ->
  (forall d a, (d, a) ∈ ge ++ ga -> mappable d /\ is_address a) ->
  NoDup ge.*1 -> NoDup ga.*1 -> table_ok ge /\ table_ok ga.
Proof.
  intros [Ht [Hiff Hdis]] He Ha Hm Hne Hna.
  assert (forall g : list (string * bytes), NoDup g.*1 -> (forall d d' a, (d, a) ∈ g -> (d', a) ∈ g -> d = d') -> NoDup g.*2) as Hinj.
  { intros g Hnd Hfun. apply NoDup_fmap_1 in Hnd as Hnd'. apply NoDup_fmap_2_strong; [|done].
    intros [d a] [d' a'] Hin Hin'. cbn. intros ->. f_equal. by eapply Hfun. }
  split; (split; [done|split]).
  - apply Hinj; [done|]. intros d d' a H1%He H2%He.
    assert (GetDenomByContract a st = Some d) by (apply Hiff; auto).
    assert (GetDenomByContract a st = Some d') by (apply Hiff; auto). congruence.
  - apply Forall_forall. intros [d a] Hin. apply Hm. set_solver.
  - apply Hinj; [done|]. intros d d' a H1%Ha H2%Ha.
    assert (GetDenomByContract a st = Some d) by (apply Hiff; auto).
    assert (GetDenomByContract a st = Some d') by (apply Hiff; auto). congruence.
  - apply Forall_forall. intros [d a] Hin. apply Hm. set_solver.
Qed.

Lemma mappings_address st d a :
  store_typed st -> getExternalContractByDenom d st = Some a \/ getAutoContractByDenom d st = Some a -> is_address a.
Proof. intros Ht [E|E]; eapply getAddress_typed in E as (_ & Ha & _); eauto. Qed.

(** Initialising an empty store with two tables that share no contract. *)
Lemma InitGenesis_tables p ge ga st0 :
  empty_store st0 -> Params_wf p -> Params_Validate p = Ok tt -> table_ok ge -> table_ok ga ->
  (forall d d' a, (d, a) ∈ ge -> (d', a) ∉ ga) ->
  exists st', InitGenesis (mkGenesis p (enc <$> ge) (enc <$> ga)) st0 = Some st' /\ registry_inv st' /\
    (forall d a, getExternalContractByDenom d st' = Some a <-> (d, a) ∈ ge) /\
    (forall d a, getAutoContractByDenom d st' = Some a <-> (d, a) ∈ ga) /\ GetParams st' = Some p.
Proof.
  intros H0 Hwf Hv Te Ta Hdis. unfold InitGenesis, SetParams. cbn [genParams genExternalContracts genAutoContracts].
  rewrite Hv. sbind. cbn [must]. sbind. set (st1 := SetKey ParamsKey _ st0).
  assert (registry_inv st1) as Hi1.
  { eapply (SetParams_inv p st0); [done|by apply empty_registry|]. unfold SetParams. by rewrite Hv. }
  destruct (other_views ParamsKey (Params_Marshal p) st0) as (V1 & V2 & V3); [done..|]. fold st1 in V1, V2, V3.
  assert (forall d, getExternalContractByDenom d st1 = None) as N1.
  { intros d. rewrite V1. unfold getExternalContractByDenom, getAddress. by rewrite H0. }
  assert (forall d, getAutoContractByDenom d st1 = None) as N2.
  { intros d. rewrite V2. unfold getAutoContractByDenom, getAddress. by rewrite H0. }
  assert (forall c, GetDenomByContract c st1 = None) as N3.
  { intros c. rewrite V3. unfold GetDenomByContract. by rewrite H0. }
  destruct (initExternal_ok _ st1 Te Hi1) as (st2 & R2 & Hi2 & E2 & A2 & P2); [by intros; rewrite N1, N3|].
  rewrite R2. sbind.
  destruct (initAuto_ok _ st2 Ta Hi2) as (st3 & R3 & Hi3 & A3 & E3 & P3).
  { intros d a Hin. rewrite A2, N2. split; [done|]. destruct (GetDenomByContract a st2) as [d'|] eqn:Ed; [|done].
    apply (proj1 (proj2 Hi2)) in Ed as [Ed|Ed]; [|by rewrite A2, N2 in Ed].
    apply E2 in Ed as [Ed|Ed]; [by destruct (Hdis d' d a)|by rewrite N1 in Ed]. }
  exists st3. split_and!; [done|done| | |].
  - intros d a. rewrite E3, E2, N1. naive_solver.
  - intros d a. rewrite A3, A2, N2. naive_solver.
  - unfold GetParams. rewrite P3, P2. unfold st1. rewrite Get_Set_eq. destruct Hwf. by rewrite Params_roundtrip.
Qed.

(** C24: Genesis restores what was exported: when the parameters are set and every mapped
    denomination is an IBC voucher or a gravity token, initialising an empty store with the
    exported state does not panic and gives a store with the same parameters, the same
    external and automatic mappings and the same contract index, in which the invariant of
    the registry holds. *)
Theorem genesis_roundtrip st st0 g :
  registry_inv st -> empty_store st0 -> ExportGenesis st = Some g ->
  Params_wf (genParams g) -> Params_Validate (genParams g) = Ok tt -> all_mappable st ->
  exists st', InitGenesis g st0 = Some st' /\ registry_inv st' /\ same_mappings st st' /\
    GetParams st' = Some (genParams g).
Proof.
  intros Hi H0 Hx Hwf Hv Hm. pose proof (proj1 Hi) as Ht. unfold ExportGenesis in Hx.
  destruct (GetParams st) as [p|]; [|done]. sbind. injection Hx as <-. cbn [genParams] in *.
  destruct (table_spec [x01] x01 getExternalContractByDenom st) as (He & Hne & Ee); [auto..|].
  destruct (table_spec [x02] x02 getAutoContractByDenom st) as (Ha & Hna & Ea); [auto..|].
  destruct (registry_tables st (table [x01] st) (table [x02] st)) as [Tke Tka]; [done|exact He|exact Ha| |done|done|].
  { intros d a [Hin%He|Hin%Ha]%elem_of_app; (split; [|by eapply mappings_address; eauto]).
    - apply (Hm d a). unfold GetContractByDenom. by rewrite Hin.
    - unfold all_mappable, GetContractByDenom in Hm. specialize (Hm d). rewrite Hin in Hm.
      destruct (getExternalContractByDenom d st); by eapply Hm. }
  destruct (InitGenesis_tables p (table [x01] st) (table [x02] st) st0) as (st' & Hr & Hi' & E' & A' & P'); [done..| |].
  { intros d d' a Hin%He Hin'%Ha. by destruct (proj2 (proj2 Hi) a d d'). }
  exists st'. unfold GetExternalContracts, GetAutoContracts.
  unfold KeyPrefixDenomToExternalContract, KeyPrefixDenomToAutoContract. rewrite Ee, Ea.
  assert (forall d, getExternalContractByDenom d st' = getExternalContractByDenom d st) as Xe.
  { intros d. apply option_iff_eq. intros a. by rewrite E', He. }
  assert (forall d, getAutoContractByDenom d st' = getAutoContractByDenom d st) as Xa.
  { intros d. apply option_iff_eq. intros a. by rewrite A', Ha. }
  split_and!; [done|done| |done]. split; [done|split; [done|]].
  intros c. apply option_iff_eq. intros d. rewrite (proj1 (proj2 Hi')), (proj1 (proj2 Hi)). by rewrite Xe, Xa.
Qed.

(** ** What genesis does not restore *)

Lemma initExternal_panics ms st m : m ∈ ms -> checkMapping m = None -> initExternal ms st = None.
Proof.
  intros Hin Hm. revert st. induction ms as [|m' ms IH]; intros st; [by apply not_elem_of_nil in Hin|]. cbn.
  apply elem_of_cons in Hin as [<-|Hin]; [by rewrite Hm|].
  destruct (checkMapping m'); cbn; [|done]. destruct (must _); cbn; [by apply IH|done].
Qed.

(** The state of a chain with a mapped source coin ([cronos0x...]) is exported
    with that mapping, and initialising a store with it panics. *)
Lemma genesis_source_panics st st0 g d c :
  store_typed st -> ExportGenesis st = Some g -> getExternalContractByDenom d st = Some c ->
  IsValidCronosDenom d = true -> InitGenesis g st0 = None.
Proof.
  intros Ht Hx Hd Hv. unfold ExportGenesis in Hx. destruct (GetParams st) as [p|]; [|done]. injection Hx as <-.
  unfold InitGenesis. cbn [genParams genExternalContracts genAutoContracts].
  destruct (must (SetParams p st0)) as [st1|]; [|done]. sbind.
  destruct (table_spec [x01] x01 getExternalContractByDenom st) as (He & _ & Ee); [auto..|].
  rewrite (initExternal_panics _ _ (enc (d, c))); [done| |].
  - unfold GetExternalContracts, KeyPrefixDenomToExternalContract. rewrite Ee. by apply list_elem_of_fmap_2, He.
  - unfold checkMapping. cbn. destruct (denoms_disjoint d) as [H1 H2].
    destruct (IsValidIBCDenom d); [by destruct H1 as [_ ?]; [done|congruence]|].
    destruct (IsValidGravityDenom d); [by destruct H2 as [_ ?]; [done|congruence]|done].
Qed.

Lemma initExternal_other ms st st' k :
  head k <> Some x01 -> head k <> Some x03 -> initExternal ms st = Some st' -> Get k st' = Get k st.
Proof.
  intros H1 H3. revert st. induction ms as [|m ms IH]; cbn; intros st; [by intros [= <-]|].
  destruct (checkMapping m); cbn; [|done]. unfold SetExternalContractForDenom.
  destruct (GetDenomByContract _ st); cbn; [done|]. intros ->%IH.
  rewrite !Get_Set_ne by by intros ->. destruct (getExternalContractByDenom _ st); [|done].
  rewrite Get_Delete_ne; [done|]. by intros ->.
Qed.

Lemma initAuto_other ms st st' k :
  head k <> Some x02 -> head k <> Some x03 -> initAuto ms st = Some st' -> Get k st' = Get k st.
Proof.
  intros H1 H3. revert st. induction ms as [|m ms IH]; cbn; intros st; [by intros [= <-]|].
  destruct (checkMapping m); cbn; [|done]. intros ->%IH. unfold SetAutoContractForDenom.
  by rewrite !Get_Set_ne by by intros ->.
Qed.

(** A store made by genesis has no permissions and no block list, whatever the
    exported chain had. *)
Lemma genesis_forgets g st0 st' a :
  empty_store st0 -> InitGenesis g st0 = Some st' -> GetPermissions a st' = Some 0 /\ GetBlockList st' = None.
Proof.
  intros H0. unfold InitGenesis, SetParams. destruct (Params_Validate _); cbn; [|done].
  destruct (initExternal _ _) as [st2|] eqn:E2; cbn; [|done]. intros E3.
  assert (forall k, head k = Some x05 \/ head k = Some x06 -> Get k st' = None) as Hk.
  { intros k Hk. rewrite (initAuto_other _ _ _ k) by (done || by destruct Hk as [-> | ->]).
    rewrite (initExternal_other _ _ _ k) by (done || by destruct Hk as [-> | ->]).
    rewrite Get_Set_ne, H0; [done|]. by intros ->; destruct Hk. }
  unfold GetPermissions, GetBlockList. rewrite !Hk by auto. split; [|done]. apply BigEndianToUint64_empty.
Qed.

End Genesis.

(** ** A concrete chain *)
Section Example.
#[local] Existing Instance plain_libs.
#[local] Existing Instance plain_libs_laws.

Definition ex_ext : list (string * bytes) := [(IbcCroDenomDefaultValue, toAddress [x01])].
Definition ex_auto : list (string * bytes) :=
  [("gravity0x0000000000000000000000000000000000000000", toAddress [x02])].
Definition ex_genesis : GenesisState := mkGenesis DefaultParams (enc <$> ex_ext) (enc <$> ex_auto).

Lemma genesis_roundtrip_witness :
  exists (st st' : gmap bytes bytes) g, InitGenesis ex_genesis (∅ : gmap bytes bytes) = Some st /\
    ExportGenesis st = Some g /\ InitGenesis g (∅ : gmap bytes bytes) = Some st' /\ same_mappings st st'.
Proof.
  destruct (InitGenesis_tables DefaultParams ex_ext ex_auto (∅ : gmap bytes bytes))
    as (st & Hr & Hi & He & Ha & Hp).
  - intros k. apply lookup_empty.
  - split; vm_compute; done.
  - by vm_compute.
  - split_and!; [by repeat constructor; set_solver|by repeat constructor; set_solver|].
    by constructor; [split; [left|]; vm_compute|constructor].
  - split_and!; [by repeat constructor; set_solver|by repeat constructor; set_solver|].
    by constructor; [split; [right|]; vm_compute|constructor].
  - intros d d' a H1 H2. apply list_elem_of_singleton in H1, H2. simplify_eq.
  - assert (exists g, ExportGenesis st = Some g /\ genParams g = DefaultParams) as (g & Eg & Ep).
    { unfold ExportGenesis. rewrite Hp. by eexists. }
    destruct (genesis_roundtrip st ∅ g) as (st' & Hr' & _ & Hs & _); [done|intros k; apply lookup_empty|done| | | |].
    + rewrite Ep. split; vm_compute; done.
    + rewrite Ep. by vm_compute.
    + intros d c. unfold GetContractByDenom. destruct (getExternalContractByDenom d st) as [c'|] eqn:E.
      * intros _. apply He, list_elem_of_singleton in E. simplify_eq. by left; vm_compute.
      * intros E'%Ha%list_elem_of_singleton. simplify_eq. by right; vm_compute.
    + by exists st, st', g.
Defined.

End Example.
