(* ===== verification/Crc21.v ===== *)
(** * The token contracts: [contracts/src/ModuleCRC21.sol], [ModuleCRC20.sol],
    [ModuleCRC20Proxy.sol], [ModuleCRC20ProxyAuthority.sol]

    A contract function is a function from the caller ([msg.sender]), its
    arguments and the contract's storage to the new storage and the events it
    emits; [None] is a revert.  The parent contracts [DSToken] and [DSMath]
    are submodules of the repository and an interface here. *)

From S2P Require Import Prelude KV Ctx.
From Stdlib Require Import Strings.Byte.

Open Scope string_scope.
Open Scope Z_scope.
Open Scope list_scope.

(** ** Storage and events *)

(** [mapping(address => uint) balanceOf], [uint totalSupply] and the rest of
    [DSToken]'s storage. *)
Record Token (R : Type) := mkToken { balances : gmap bytes Z; totalSupply : Z; dsRest : R }.
Arguments mkToken {R}.
Arguments balances {R}.
Arguments totalSupply {R}.
Arguments dsRest {R}.

Definition balanceOf {R} (t : Token R) (a : bytes) : Z := default 0 (balances t !! a).
Definition setBalance {R} (a : bytes) (n : Z) (t : Token R) : Token R :=
  mkToken (<[a := n]> (balances t)) (totalSupply t) (dsRest t).
Definition setTotalSupply {R} (n : Z) (t : Token R) : Token R := mkToken (balances t) n (dsRest t).

(** The events of the contracts, those of [DSToken] apart from the ones named
    here under [OtherEvent].  [__CronosSendToIbc] of [ModuleCRC20] is
    [SendToIbcV1Event], that of the other two [SendToIbcEvent]. *)
Inductive Event :=
| BurnEvent (guy : bytes) (wad : Z)
| TransferEvent (src dst : bytes) (wad : Z)
| SendToIbcV1Event (sender : bytes) (recipient : string) (amount : Z)
| SendToIbcEvent (sender : bytes) (channel_id : Z) (recipient : string) (amount : Z) (extraData : bytes)
| SendToEthereumEvent (recipient : bytes) (amount bridge_fee : Z)
| SendToEvmChainEvent (sender recipient : bytes) (chain_id amount bridge_fee : Z) (extraData : bytes)
| CancelSendToEvmChainEvent (sender : bytes) (id : Z)
| OtherEvent (data : bytes).

(** Events the module reacts to, or that a bridge would. *)
Definition bridge_event (e : Event) : bool :=
  match e with
  | BurnEvent _ _ | TransferEvent _ _ _ | OtherEvent _ => false
  | _ => true
  end.

(** ** [DSToken] and [DSMath]

    [UserCall] stands for the remaining methods, [isAuthorized] for the check
    of the [auth] modifier. *)
Class DSToken (R UserCall : Type) := {
  add : Z -> Z -> option Z;
  sub : Z -> Z -> option Z;
  mint : bytes -> bytes -> Z -> Token R -> option (Token R * list Event);
  burn : bytes -> Z -> Token R -> option (Token R * list Event);
  transferFrom : bytes -> bytes -> bytes -> Z -> Token R -> option (Token R * list Event);
  move : bytes -> bytes -> bytes -> Z -> Token R -> option (Token R * list Event);
  userCall : bytes -> UserCall -> Token R -> option (Token R * list Event);
  newToken : bytes -> bytes -> string -> Token R;
  isAuthorized : R -> bytes -> bool
}.

(** Tokens moved from one account to another, or made or destroyed. *)
Definition shifted {R} (f : bytes -> Z) (ds : Z) (t t' : Token R) : Prop :=
  (forall a, balanceOf t' a = balanceOf t a + f a) /\ totalSupply t' = totalSupply t + ds.

Definition at_ (a : bytes) (n : Z) (x : bytes) : Z := if bool_decide (x = a) then n else 0.

Definition quiet (evs : list Event) : Prop := Forall (fun e => bridge_event e = false) evs.

Definition same_auth `{DSToken R U} (t t' : Token R) : Prop :=
  forall a, isAuthorized (dsRest t') a = isAuthorized (dsRest t) a.

(** Arithmetic reverts on overflow; [mint] and [burn] need authorization, a
    transfer the balance; a caller without authorization cannot change the
    supply nor the authorizations. *)
Class DSTokenLaws (R U : Type) `{DSToken R U} : Prop := {
  add_inv x y z : add x y = Some z -> z = x + y;
  sub_inv x y z : sub x y = Some z -> z = x - y /\ y <= x;
  mint_inv s g n t t' ev : mint s g n t = Some (t', ev) ->
    isAuthorized (dsRest t) s = true /\ shifted (at_ g n) n t t' /\ same_auth t t' /\ quiet ev;
  burn_inv s n t t' ev : burn s n t = Some (t', ev) ->
    isAuthorized (dsRest t) s = true /\ shifted (at_ s (- n)) (- n) t t' /\ same_auth t t' /\ quiet ev;
  transferFrom_inv s src dst n t t' ev : transferFrom s src dst n t = Some (t', ev) ->
    n <= balanceOf t src /\ shifted (fun a => at_ src (- n) a + at_ dst n a) 0 t t' /\ same_auth t t' /\ quiet ev;
  move_inv s src dst n t t' ev : move s src dst n t = Some (t', ev) ->
    n <= balanceOf t src /\ shifted (fun a => at_ src (- n) a + at_ dst n a) 0 t t' /\ same_auth t t' /\ quiet ev;
  userCall_inv s u t t' ev : isAuthorized (dsRest t) s = false -> userCall s u t = Some (t', ev) ->
    totalSupply t' = totalSupply t /\ same_auth t t' /\ quiet ev;
  newToken_inv self s n : totalSupply (newToken self s n) = 0 /\ (forall a, balanceOf (newToken self s n) a = 0) /\
    (forall a, isAuthorized (dsRest (newToken self s n)) a = true -> a = s \/ a = self)
}.

(** [sha256('cronos-evm')[:20]] *)
Definition module_address : bytes :=
  [x89; xa7; xef; x2f; x08; xb1; xc0; x18; xd5; xcc; x88; x83; x62; x49; xb8; x4d; xd5; x39; x29; x05].

Definition require (b : bool) : option unit := if b then Some tt else None.

Section Contracts.
Context {R U : Type} {DS : DSToken R U}.

(** [unsafe_burn], of [ModuleCRC20] and [ModuleCRC21]. *)
Definition unsafe_burn (addr : bytes) (amount : Z) (t : Token R) : option (Token R * list Event) :=
  require (amount <=? balanceOf t addr) ;;
  b ← sub (balanceOf t addr) amount;
  let t := setBalance addr b t in
  s ← sub (totalSupply t) amount;
  Some (setTotalSupply s t, [BurnEvent addr amount]).

Definition unsafe_transfer (src dst : bytes) (amount : Z) (t : Token R) : option (Token R * list Event) :=
  require (amount <=? balanceOf t src) ;;
  b ← sub (balanceOf t src) amount;
  let t := setBalance src b t in
  b ← add (balanceOf t dst) amount;
  Some (setBalance dst b t, [TransferEvent src dst amount]).

(** [emit] after the calls of a function. *)
Definition emit {T} (e : Event) (r : T * list Event) : option (T * list Event) := Some (r.1, r.2 ++ [e]).

(** ** [ModuleCRC21] *)

Record CRC21 := mkCRC21 { tok : Token R; denom : string; decimals : Z; isSource : bool }.

(** The constructor, run by [deployer] at the address [self]. *)
Definition newCRC21 (self deployer : bytes) (denom_ : string) (decimals_ : Z) (isSource_ : bool) : CRC21 :=
  mkCRC21 (newToken self deployer denom_) denom_ decimals_ isSource_.

Inductive crc21Call :=
| MintByModule (addr : bytes) (amount : Z)
| BurnByModule (addr : bytes) (amount : Z)
| TransferByModule (addr : bytes) (amount : Z)
| TransferFromModule (addr : bytes) (amount : Z)
| SendToIbc (recipient : string) (amount channel_id : Z) (extraData : bytes)
| SendToEvmChain (recipient : bytes) (amount chain_id bridge_fee : Z) (extraData : bytes)
| CancelSendToEvmChain (id : Z)
| User (u : U).

Definition withTok (c : CRC21) (r : option (Token R * list Event)) : option (CRC21 * list Event) :=
  '(t, ev) ← r; Some (mkCRC21 t (denom c) (decimals c) (isSource c), ev).

Definition mint_by_cronos_module (sender addr : bytes) (amount : Z) (t : Token R) :=
  require (bool_decide (sender = module_address)) ;; mint sender addr amount t.

Definition burn_by_cronos_module (sender addr : bytes) (amount : Z) (t : Token R) :=
  require (bool_decide (sender = module_address)) ;; unsafe_burn addr amount t.

Definition transfer_by_cronos_module (sender addr : bytes) (amount : Z) (t : Token R) :=
  require (bool_decide (sender = module_address)) ;; unsafe_transfer addr module_address amount t.

Definition transfer_from_cronos_module (sender addr : bytes) (amount : Z) (t : Token R) :=
  transferFrom sender module_address addr amount t.

(** The tokens leave the caller: to the module account or burnt. *)
Definition takeTokens (source : bool) (sender : bytes) (amount : Z) (t : Token R) :=
  if source then transferFrom sender sender module_address amount t else unsafe_burn sender amount t.

Definition send_to_ibc (c : CRC21) (sender : bytes) (recipient : string) (amount channel_id : Z) (extraData : bytes) :=
  r ← takeTokens (isSource c) sender amount (tok c);
  emit (SendToIbcEvent sender channel_id recipient amount extraData) r.

Definition send_to_evm_chain (c : CRC21) (sender recipient : bytes) (amount chain_id bridge_fee : Z) (extraData : bytes) :=
  total ← add amount bridge_fee;
  r ← takeTokens (isSource c) sender total (tok c);
  emit (SendToEvmChainEvent sender recipient chain_id amount bridge_fee extraData) r.

Definition cancel_send_to_evm_chain (c : CRC21) (sender : bytes) (id : Z) : option (Token R * list Event) :=
  Some (tok c, [CancelSendToEvmChainEvent sender id]).

Definition crc21_exec (sender : bytes) (call : crc21Call) (c : CRC21) : option (CRC21 * list Event) :=
  withTok c
    match call with
    | MintByModule addr amount => mint_by_cronos_module sender addr amount (tok c)
    | BurnByModule addr amount => burn_by_cronos_module sender addr amount (tok c)
    | TransferByModule addr amount => transfer_by_cronos_module sender addr amount (tok c)
    | TransferFromModule addr amount => transfer_from_cronos_module sender addr amount (tok c)
    | SendToIbc recipient amount channel_id extraData => send_to_ibc c sender recipient amount channel_id extraData
    | SendToEvmChain recipient amount chain_id bridge_fee extraData =>
        send_to_evm_chain c sender recipient amount chain_id bridge_fee extraData
    | CancelSendToEvmChain id => cancel_send_to_evm_chain c sender id
    | User u => userCall sender u (tok c)
    end.

(** ** [ModuleCRC20] *)

Record CRC20 := mkCRC20 { tok20 : Token R; denom20 : string; decimals20 : Z }.

Definition newCRC20 (self deployer : bytes) (denom_ : string) (decimals_ : Z) : CRC20 :=
  mkCRC20 (newToken self deployer denom_) denom_ decimals_.

Definition crc20_send_to_ethereum (c : CRC20) (sender recipient : bytes) (amount bridge_fee : Z) :=
  total ← add amount bridge_fee;
  r ← unsafe_burn sender total (tok20 c);
  emit (SendToEthereumEvent recipient amount bridge_fee) r.

Definition crc20_send_to_ibc (c : CRC20) (sender : bytes) (recipient : string) (amount : Z) :=
  r ← unsafe_burn sender amount (tok20 c);
  emit (SendToIbcV1Event sender recipient amount) r.

Inductive crc20Call :=
| Mint20 (addr : bytes) (amount : Z)
| Burn20 (addr : bytes) (amount : Z)
| SendToEthereum20 (recipient : bytes) (amount bridge_fee : Z)
| SendToIbc20 (recipient : string) (amount : Z)
| User20 (u : U).

Definition crc20_exec (sender : bytes) (call : crc20Call) (c : CRC20) : option (CRC20 * list Event) :=
  '(t, ev) ←
    match call with
    | Mint20 addr amount => mint_by_cronos_module sender addr amount (tok20 c)
    | Burn20 addr amount => burn_by_cronos_module sender addr amount (tok20 c)
    | SendToEthereum20 recipient amount bridge_fee => crc20_send_to_ethereum c sender recipient amount bridge_fee
    | SendToIbc20 recipient amount => crc20_send_to_ibc c sender recipient amount
    | User20 u => userCall sender u (tok20 c)
    end;
  Some (mkCRC20 t (denom20 c) (decimals20 c), ev).

(** ** [ModuleCRC20Proxy]

    The proxy at [self] calls a [ModuleCRC20]; the token sees the proxy as the
    caller. *)

Definition proxy_mint (self sender addr : bytes) (amount : Z) (t : Token R) :=
  require (bool_decide (sender = module_address)) ;; mint self addr amount t.

Definition crc20_burn (self addr : bytes) (amount : Z) (t : Token R) : option (Token R * list Event) :=
  '(t, ev) ← move self addr self amount t;
  '(t, ev') ← burn self amount t;
  Some (t, ev ++ ev').

Definition proxy_burn (self sender addr : bytes) (amount : Z) (t : Token R) :=
  require (bool_decide (sender = module_address)) ;; crc20_burn self addr amount t.

Definition proxy_transfer_by (self sender addr : bytes) (amount : Z) (t : Token R) :=
  require (bool_decide (sender = module_address)) ;; move self addr module_address amount t.

Definition proxy_transfer_from (self sender addr : bytes) (amount : Z) (t : Token R) :=
  require (bool_decide (sender = module_address)) ;; move self self addr amount t.

Definition proxy_take (source : bool) (self sender : bytes) (amount : Z) (t : Token R) :=
  if source then move self sender self amount t else crc20_burn self sender amount t.

Definition proxy_send_to_ibc (source : bool) (self sender : bytes) (recipient : string) (amount channel_id : Z)
    (extraData : bytes) (t : Token R) :=
  r ← proxy_take source self sender amount t;
  emit (SendToIbcEvent sender channel_id recipient amount extraData) r.

Definition proxy_send_to_evm_chain (source : bool) (self sender recipient : bytes) (amount chain_id bridge_fee : Z)
    (extraData : bytes) (t : Token R) :=
  total ← add amount bridge_fee;
  r ← proxy_take source self sender total t;
  emit (SendToEvmChainEvent sender recipient chain_id amount bridge_fee extraData) r.

Definition proxy_cancel_send_to_evm_chain (sender : bytes) (id : Z) (t : Token R) : option (Token R * list Event) :=
  Some (t, [CancelSendToEvmChainEvent sender id]).

(** A transaction to the proxy; the token's own users call the token. *)
Inductive proxyCall :=
| ProxyMint (addr : bytes) (amount : Z)
| ProxyBurn (addr : bytes) (amount : Z)
| ProxyTransferBy (addr : bytes) (amount : Z)
| ProxyTransferFrom (addr : bytes) (amount : Z)
| ProxySendToEvmChain (recipient : bytes) (amount chain_id bridge_fee : Z) (extraData : bytes)
| ProxySendToIbc (recipient : string) (amount channel_id : Z) (extraData : bytes)
| ProxyCancel (id : Z).

Definition proxy_exec (source : bool) (self sender : bytes) (call : proxyCall) (t : Token R) : option (Token R * list Event) :=
  match call with
  | ProxyMint addr amount => proxy_mint self sender addr amount t
  | ProxyBurn addr amount => proxy_burn self sender addr amount t
  | ProxyTransferBy addr amount => proxy_transfer_by self sender addr amount t
  | ProxyTransferFrom addr amount => proxy_transfer_from self sender addr amount t
  | ProxySendToEvmChain recipient amount chain_id bridge_fee extraData =>
      proxy_send_to_evm_chain source self sender recipient amount chain_id bridge_fee extraData t
  | ProxySendToIbc recipient amount channel_id extraData =>
      proxy_send_to_ibc source self sender recipient amount channel_id extraData t
  | ProxyCancel id => proxy_cancel_send_to_evm_chain sender id t
  end.

(** [ModuleCRC20ProxyAuthority.canCall] *)
Definition canCall (proxyAddress src : bytes) : bool := if bool_decide (src = proxyAddress) then true else false.

End Contracts.
Arguments CRC21 : clear implicits.
Arguments CRC20 : clear implicits.

(** ** What the functions do *)
Section Effects.
Context {R U : Type} {DS : DSToken R U} {DL : DSTokenLaws R U}.

Lemma balanceOf_set a n (t : Token R) x : balanceOf (setBalance a n t) x = if bool_decide (x = a) then n else balanceOf t x.
Proof.
  unfold balanceOf, setBalance. cbn. case_bool_decide; [subst; by rewrite lookup_insert_eq|by rewrite lookup_insert_ne].
Qed.

Lemma require_inv b : require b = Some tt -> b = true.
Proof. by destruct b. Qed.

Lemma unsafe_burn_inv a n t t' ev :
  unsafe_burn a n t = Some (t', ev) ->
  n <= balanceOf t a /\ shifted (at_ a (- n)) (- n) t t' /\ same_auth t t' /\ ev = [BurnEvent a n].
Proof.
  unfold unsafe_burn. destruct (Z.leb_spec n (balanceOf t a)) as [Hn|]; [|done]. cbn.
  destruct (sub (balanceOf t a) n) as [b|] eqn:E1; cbn; [|done].
  destruct (sub (totalSupply t) n) as [s|] eqn:E2; cbn; [|done].
  intros [= <- <-]. apply sub_inv in E1 as [-> _], E2 as [-> _]. split; [done|]. split; [|split; [by intros ?|done]].
  split; [|cbn; lia]. intros x. unfold at_.
  change (balanceOf (setTotalSupply _ ?t) x) with (balanceOf t x). rewrite balanceOf_set.
  case_bool_decide; subst; lia.
Qed.

Lemma unsafe_transfer_inv src dst n t t' ev :
  src <> dst -> unsafe_transfer src dst n t = Some (t', ev) ->
  n <= balanceOf t src /\ shifted (fun a => at_ src (- n) a + at_ dst n a) 0 t t' /\ same_auth t t' /\
  ev = [TransferEvent src dst n].
Proof.
  intros Hne. unfold unsafe_transfer. destruct (Z.leb_spec n (balanceOf t src)) as [Hn|]; [|done]. cbn.
  destruct (sub (balanceOf t src) n) as [b|] eqn:E1; cbn; [|done]. destruct (add _ n) as [s|] eqn:E2; cbn; [|done].
  intros [= <- <-]. apply sub_inv in E1 as [-> _]. apply add_inv in E2 as ->. split; [done|]. split; [|split; [by intros ?|done]].
  split; [|cbn; lia]. intros x. unfold at_. rewrite !balanceOf_set. repeat case_bool_decide; subst; try done; lia.
Qed.

(** What the events say left the contract, towards IBC and towards another
    EVM chain. *)
Fixpoint sent_ibc (evs : list Event) : Z :=
  match evs with
  | [] => 0
  | SendToIbcEvent _ _ _ n _ :: evs => n + sent_ibc evs
  | _ :: evs => sent_ibc evs
  end.

Fixpoint sent_evm (evs : list Event) : Z :=
  match evs with
  | [] => 0
  | SendToEvmChainEvent _ _ _ n fee _ :: evs => n + fee + sent_evm evs
  | _ :: evs => sent_evm evs
  end.

Lemma sent_app evs evs' :
  sent_ibc (evs ++ evs') = sent_ibc evs + sent_ibc evs' /\ sent_evm (evs ++ evs') = sent_evm evs + sent_evm evs'.
Proof. induction evs as [|[] evs [IH1 IH2]]; cbn; lia. Qed.

Lemma sent_quiet evs : quiet evs -> sent_ibc evs = 0 /\ sent_evm evs = 0.
Proof. induction 1 as [|[] evs He Hq IH]; cbn; done. Qed.

(** Who sent the tokens of the events, and how many; events of the other contract kinds do
    not occur. *)
Definition sent_by (P : bytes -> Z -> Prop) (e : Event) : Prop :=
  match e with
  | SendToIbcEvent a _ _ n _ => P a n
  | SendToIbcV1Event _ _ _ | SendToEthereumEvent _ _ _ => False
  | _ => True
  end.

Lemma sent_by_quiet P evs : quiet evs -> Forall (sent_by P) evs.
Proof. induction 1 as [|[] evs He Hq IH]; constructor; done. Qed.

Definition uint256 (n : Z) : Prop := 0 <= n < 2 ^ 256.

(** The amounts of a call are [uint]s. *)
Definition call_typed (call : crc21Call (U := U)) : Prop :=
  match call with
  | SendToIbc _ n _ _ => uint256 n
  | SendToEvmChain _ n _ fee _ => uint256 n /\ uint256 fee
  | _ => True
  end.

(** A call of a token that is not a source token, by anyone but the module and
    accounts with authorization: the supply goes down by exactly what the
    emitted events say was sent. *)
Lemma user_call_supply s call (c c' : CRC21 R) ev :
  isSource c = false -> s <> module_address -> isAuthorized (dsRest (tok c)) s = false -> call_typed call ->
  crc21_exec s call c = Some (c', ev) ->
  totalSupply (tok c') = totalSupply (tok c) - sent_ibc ev - sent_evm ev /\
  0 <= sent_evm ev /\ same_auth (tok c) (tok c') /\ isSource c' = false /\ Forall (sent_by (fun a n => a = s /\ uint256 n)) ev.
Proof.
  intros Hs Hm Ha Hty. unfold crc21_exec, withTok.
  assert (forall (r : option (Token R * list Event)),
    (forall t ev, r = Some (t, ev) -> totalSupply t = totalSupply (tok c) - sent_ibc ev - sent_evm ev /\
       0 <= sent_evm ev /\ same_auth (tok c) t /\ Forall (sent_by (fun a n => a = s /\ uint256 n)) ev) ->
    ('(t, ev) ← r; Some (mkCRC21 t (denom c) (decimals c) (isSource c), ev)) = Some (c', ev) ->
    totalSupply (tok c') = totalSupply (tok c) - sent_ibc ev - sent_evm ev /\
    0 <= sent_evm ev /\ same_auth (tok c) (tok c') /\ isSource c' = false /\ Forall (sent_by (fun a n => a = s /\ uint256 n)) ev) as Hw.
  { intros [[t e]|] Hr; cbn; [|done]. intros [= <- <-]. cbn. destruct (Hr t e eq_refl) as (? & ? & ? & ?). done. }
  assert (forall f ds t e, shifted f ds (tok c) t -> ds = 0 -> same_auth (tok c) t -> quiet e ->
    totalSupply t = totalSupply (tok c) - sent_ibc e - sent_evm e /\ 0 <= sent_evm e /\ same_auth (tok c) t /\
      Forall (sent_by (fun a n => a = s /\ uint256 n)) e) as Hq.
  { intros f ds t e [_ Ht] -> Hau Hqu. destruct (sent_quiet e Hqu) as [-> ->]. split_and!; [lia|lia|done|by apply sent_by_quiet]. }
  apply Hw. intros t e. destruct call as [a n|a n|a n|a n|r n ch x|r n ch fee x|id|u].
  - unfold mint_by_cronos_module. by rewrite bool_decide_false.
  - unfold burn_by_cronos_module. by rewrite bool_decide_false.
  - unfold transfer_by_cronos_module. by rewrite bool_decide_false.
  - intros (_ & Hsh & Hau & Hqu)%transferFrom_inv. by eapply Hq.
  - unfold send_to_ibc, takeTokens. rewrite Hs. destruct (unsafe_burn s n (tok c)) as [[t1 e1]|] eqn:E; cbn; [|done].
    apply unsafe_burn_inv in E as (_ & [_ Ht] & Hau & ->). intros [= <- <-]. cbn.
    cbn in Hty; unfold uint256 in Hty.
    split_and!; [lia|lia|done|]; repeat (apply Forall_cons_2; [by cbn|]); apply Forall_nil_2.
  - unfold send_to_evm_chain, takeTokens. rewrite Hs. destruct (add n fee) as [m|] eqn:Em; cbn; [|done].
    apply add_inv in Em as ->. destruct (unsafe_burn s (n + fee) (tok c)) as [[t1 e1]|] eqn:E; cbn; [|done].
    apply unsafe_burn_inv in E as (_ & [_ Ht] & Hau & ->). intros [= <- <-]. cbn.
    cbn in Hty; unfold uint256 in Hty.
    split_and!; [lia|lia|done|]; repeat (apply Forall_cons_2; [by cbn|]); apply Forall_nil_2.
  - unfold cancel_send_to_evm_chain. intros [= <- <-]. cbn. cbn in Hty; unfold uint256 in Hty.
    split_and!; [lia|lia|done|]; repeat (apply Forall_cons_2; [by cbn|]); apply Forall_nil_2.
  - intros (Ht & Hau & Hqu)%userCall_inv; [|done]. destruct (sent_quiet e Hqu) as [-> ->].
    split_and!; [lia|lia|done|by apply sent_by_quiet].
Qed.

End Effects.

(** ** Tokens locked through the proxy

    [transfer_by_cronos_module] of the proxy moves a holder's tokens to the
    module's address, [transfer_from_cronos_module] takes them from the
    proxy's own: what the first locks does not help the second, which needs
    tokens the proxy had before. *)
Section Proxy.
Context {R U : Type} {DS : DSToken R U} {DL : DSTokenLaws R U}.

Lemma proxy_lock_unlock self sender a b n m (t t1 t2 : Token R) ev1 ev2 :
  a <> self -> self <> module_address ->
  proxy_transfer_by self sender a n t = Some (t1, ev1) -> proxy_transfer_from self sender b m t1 = Some (t2, ev2) ->
  balanceOf t1 module_address = balanceOf t module_address + at_ a (- n) module_address + n /\
  m <= balanceOf t self.
Proof.
  intros Ha Hs. unfold proxy_transfer_by, proxy_transfer_from. case_bool_decide; [|done]. cbn.
  intros (_ & [Hb _] & _)%move_inv (Hm & _)%move_inv. rewrite Hb in Hm. rewrite Hb. unfold at_ in *.
  rewrite (bool_decide_false (self = a)), (bool_decide_false (self = module_address)) in Hm by done.
  rewrite (bool_decide_true (module_address = module_address)) by done. lia.
Qed.

Lemma crc20_burn_inv self a n (t t' : Token R) ev :
  crc20_burn self a n t = Some (t', ev) -> totalSupply t' = totalSupply t - n /\ quiet ev.
Proof.
  unfold crc20_burn. destruct (move self a self n t) as [[t1 e1]|] eqn:E1; cbn; [|done].
  destruct (burn self n t1) as [[t2 e2]|] eqn:E2; cbn; [|done]. intros [= <- <-].
  apply move_inv in E1 as (_ & [_ H1] & _ & Hq1). apply burn_inv in E2 as (_ & [_ H2] & _ & Hq2).
  split; [lia|by apply Forall_app].
Qed.

(** Whoever calls the proxy of a token that is not a source token, the module apart, lowers
    the supply by exactly what the emitted events say was sent. *)
Lemma proxy_call_supply self sender call (t t' : Token R) ev :
  sender <> module_address -> proxy_exec false self sender call t = Some (t', ev) ->
  totalSupply t' = totalSupply t - sent_ibc ev - sent_evm ev.
Proof.
  intros Hs. destruct call as [a n|a n|a n|a n|r n ch fee x|r n ch x|id]; cbn [proxy_exec].
  1: unfold proxy_mint. 2: unfold proxy_burn. 3: unfold proxy_transfer_by. 4: unfold proxy_transfer_from.
  1-4: by rewrite bool_decide_false.
  - unfold proxy_send_to_evm_chain, proxy_take. destruct (add n fee) as [m|] eqn:Em; cbn; [|done].
    apply add_inv in Em as ->. destruct (crc20_burn self sender _ t) as [[t1 e1]|] eqn:E; cbn; [|done].
    apply crc20_burn_inv in E as [Ht [Q1 Q2]%sent_quiet]. intros [= <- <-].
    destruct (sent_app e1 [SendToEvmChainEvent sender r ch n fee x]) as [-> ->]. rewrite Q1, Q2. cbn. lia.
  - unfold proxy_send_to_ibc, proxy_take. destruct (crc20_burn self sender n t) as [[t1 e1]|] eqn:E; cbn; [|done].
    apply crc20_burn_inv in E as [Ht [Q1 Q2]%sent_quiet]. intros [= <- <-].
    destruct (sent_app e1 [SendToIbcEvent sender ch r n x]) as [-> ->]. rewrite Q1, Q2. cbn. lia.
  - intros [= <- <-]. cbn. lia.
Qed.

(** [ModuleCRC21] locks and unlocks at the same address. *)
Lemma crc21_lock_unlock a n (t t1 : Token R) ev1 :
  a <> module_address -> transfer_by_cronos_module module_address a n t = Some (t1, ev1) ->
  balanceOf t1 module_address = balanceOf t module_address + n.
Proof.
  intros Ha. unfold transfer_by_cronos_module. rewrite bool_decide_true by done. cbn.
  intros (_ & [Hb _] & _)%unsafe_transfer_inv; [|done]. rewrite Hb. unfold at_.
  rewrite (bool_decide_false (module_address = a)), (bool_decide_true (module_address = module_address)) by done. lia.
Qed.

End Proxy.

(** ** A plain token: one owner, no allowances *)

Definition plain_move (s src dst : bytes) (n : Z) (t : Token bytes) : option (Token bytes * list Event) :=
  require (bool_decide (s = src) && (0 <=? n) && (n <=? balanceOf t src)) ;;
  let t := setBalance src (balanceOf t src - n) t in
  Some (setBalance dst (balanceOf t dst + n) t, [TransferEvent src dst n]).

#[global] Instance plain_ds : DSToken bytes (bytes * Z) := {
  add x y := if x + y <? 2 ^ 256 then Some (x + y) else None;
  sub x y := if y <=? x then Some (x - y) else None;
  mint s g n t :=
    require (bool_decide (s = dsRest t)) ;;
    Some (setTotalSupply (totalSupply t + n) (setBalance g (balanceOf t g + n) t), [OtherEvent []]);
  burn s n t :=
    require (bool_decide (s = dsRest t)) ;;
    Some (setTotalSupply (totalSupply t - n) (setBalance s (balanceOf t s - n) t), [BurnEvent s n]);
  transferFrom := plain_move;
  move := plain_move;
  userCall s u t := plain_move s s u.1 u.2 t;
  newToken self s name := mkToken ∅ 0 s;
  isAuthorized r a := bool_decide (a = r)
}.

Lemma plain_move_inv s src dst n t t' ev :
  plain_move s src dst n t = Some (t', ev) ->
  n <= balanceOf t src /\ shifted (fun a => at_ src (- n) a + at_ dst n a) 0 t t' /\ dsRest t' = dsRest t /\ quiet ev.
Proof.
  unfold plain_move. destruct (bool_decide (s = src) && (0 <=? n) && (n <=? balanceOf t src)) eqn:E; [|done]. cbn.
  intros [= <- <-]. rewrite !andb_true_iff in E. destruct E as [_ E%Z.leb_le].
  split_and!; [done| |done|by repeat constructor]. split; [|cbn; lia]. intros x. unfold at_.
  rewrite !balanceOf_set. repeat case_bool_decide; subst; try done; lia.
Qed.

#[global] Instance plain_ds_laws : DSTokenLaws bytes (bytes * Z).
Proof.
  assert (forall (t t' : Token bytes), dsRest t' = dsRest t -> same_auth t t') as Hau by (intros t t' E a; by rewrite E).
  split; cbn.
  - intros x y z. case_match; by intros [= <-].
  - intros x y z. destruct (Z.leb_spec y x); [|done]. by intros [= <-].
  - intros s g n t t' ev. case_bool_decide; [|done]. cbn. intros [= <- <-]. split_and!; [done| |by apply Hau|by repeat constructor].
    split; [|done]. intros a. change (balanceOf (setTotalSupply _ ?t) a) with (balanceOf t a).
    rewrite balanceOf_set. unfold at_. case_bool_decide; subst; lia.
  - intros s n t t' ev. case_bool_decide; [|done]. cbn. intros [= <- <-]. split_and!; [done| |by apply Hau|by repeat constructor].
    split; [|cbn; lia]. intros a. change (balanceOf (setTotalSupply _ ?t) a) with (balanceOf t a).
    rewrite balanceOf_set. unfold at_. case_bool_decide; subst; lia.
  - intros s src dst n t t' ev (? & ? & ? & ?)%plain_move_inv. split_and!; [done..|by apply Hau|done].
  - intros s src dst n t t' ev (? & ? & ? & ?)%plain_move_inv. split_and!; [done..|by apply Hau|done].
  - intros s [dst n] t t' ev _ (? & [_ Ht] & ? & ?)%plain_move_inv. split_and!; [lia|by apply Hau|done].
  - intros self s n. split_and!; [done|done|]. intros a. case_bool_decide; [by left|done].
Qed.
