(* ===== verification/CronosBridge.v ===== *)
(** * Moving coins: [x/cronos/keeper/evm.go], [ibc.go], [keeper.go] and
    [x/cronos/middleware]

    Conversion between native coins and CRC-21 tokens, between IBC CRO and the
    EVM's coin, IBC transfers, the packet callbacks and the middleware that
    converts received vouchers.  The keepers of the other modules are
    interfaces ([types/interfaces.go]). *)

From S2P Require Import Prelude KV Binary Proto Ctx CronosTypes CronosKeeper.
From Stdlib Require Import Strings.Byte Strings.Ascii.

Open Scope string_scope.
Open Scope Z_scope.
Open Scope list_scope.

(** ** The expected keepers: [types/interfaces.go] *)

(** The bank; [balance] and [supply] are what its queries return. *)
Class BankKeeper (W : Type) := {
  SendCoins : bytes -> bytes -> Coins -> SE W unit;
  SendCoinsFromModuleToAccount : string -> bytes -> Coins -> SE W unit;
  SendCoinsFromAccountToModule : bytes -> string -> Coins -> SE W unit;
  MintCoins : string -> Coins -> SE W unit;
  BurnCoins : string -> Coins -> SE W unit;
  balance : W -> bytes -> string -> Z;
  supply : W -> string -> Z
}.

Record Log := mkLog { logAddress : bytes; logTopics : list bytes; logData : bytes }.

Record Message := mkMessage {
  msgFrom : bytes; msgTo : option bytes; msgNonce : Z; msgValue : Z; msgGasLimit : Z; msgGasPrice : Z;
  msgData : bytes }.

Record EVMResult := mkEVMResult { resRet : bytes; resLogs : list Log; resFailed : bool }.

(** An argument of a contract method. *)
Inductive abiArg := AAddress (a : bytes) | AUint256 (z : Z) | AUint8 (z : Z) | AString (s : string) | ABool (b : bool).

(** The EVM.  A contract can call back into the module, so a message is applied
    to the whole state.  [StateDB] is the state of an EVM call that is under
    way, if there is one, to which logs are added. *)
Class EvmKeeper (St W : Type) := {
  GetNonce : bytes -> W -> Z;
  ApplyMessage : Message -> SE (Sys St W) EVMResult;
  EvmDenom : W -> string;
  inStateDB : W -> bool;
  AddLog : Log -> W -> W;
  Pack : string -> list abiArg -> result bytes;
  ModuleCRC21Bin : bytes;
  PackOnPacketResult : string -> Z -> bool -> result bytes
}.

Record Hop := mkHop { hopPort : string; hopChannel : string }.
Record IbcDenom := mkIbcDenom { denomBase : string; denomTrace : list Hop }.

Record MsgTransfer := mkMsgTransfer {
  trSourcePort : string; trSourceChannel : string; trToken : Coin; trSender : string; trReceiver : string;
  trTimeoutTimestamp : Z }.

Class TransferKeeper (W : Type) := {
  Transfer : MsgTransfer -> SE W unit;
  GetDenom : bytes -> W -> option IbcDenom;
  ParseHexHash : string -> result bytes;
  IsValidChannelID : string -> bool;
  BlockTimeUnixNano : W -> Z
}.

Definition TransferPortID : string := "transfer".

(** [strings.Split(s, "/")] *)
Fixpoint splitSlash (s cur : string) : list string :=
  match s with
  | EmptyString => [cur]
  | String c s => if Ascii.eqb c "/"%char then cur :: splitSlash s "" else splitSlash s (cur +:+ String c "")
  end.

Section Bridge.
Context {L : Libs} {St : Type} {KS : KVStore St} {W : Type}
  {BK : BankKeeper W} {EK : EvmKeeper St W} {TK : TransferKeeper W}.

Abbreviation M := (SE (Sys St W)).

(** An operation of another module. *)
Definition onWorld {A} (m : SE W A) : M A := fun s =>
  match m (world s) with
  | Some (r, w) => Some (r, mkSys (store s) w)
  | None => None
  end.

Definition getParams : M Params := p ← getStore GetParams; orPanic p.

(** [sdk.NewCoins(sdk.NewCoin(denom, amount))] *)
Definition newCoins (denom : string) (amount : Z) : M Coins := orPanic (c ← NewCoin denom amount; NewCoins [c]).

Definition EVMModuleName : string := "cronos-evm".
Definition EVMModuleAddress : bytes := BytesToAddress (NewModuleAddress EVMModuleName).

(** ** [evm.go] *)

Definition DefaultGasCap : Z := 25000000.

Definition CallEVM (to : option bytes) (data : bytes) (value gasLimit : Z) : M (Message * EVMResult) :=
  nonce ← gets (fun s => GetNonce EVMModuleAddress (world s));
  let msg := mkMessage EVMModuleAddress to nonce value gasLimit 0 data in
  ret ← ApplyMessage msg;
  inDB ← gets (fun s => inStateDB (world s));
  _ ← (if (inDB : bool)
       then putWorld (fun w => foldl (fun w l => AddLog l w) w (resLogs ret))
       else mret tt);
  mret (msg, ret).

Definition CallModuleCRC21 (contract : bytes) (method : string) (args : list abiArg) : M bytes :=
  data ← orErr (Pack method args);
  '(_, res) ← CallEVM (Some contract) data 0 DefaultGasCap;
  if resFailed res then throw "call contract failed" else mret (resRet res).

Definition DeployModuleCRC21 (denom : string) : M bytes :=
  ctor ← orErr (Pack "" [AString denom; AUint8 0; ABool false]);
  let data := ModuleCRC21Bin ++ ctor in
  '(msg, res) ← CallEVM None data 0 DefaultGasCap;
  if resFailed res then throw "contract deploy failed"
  else mret (CreateAddress EVMModuleAddress (msgNonce msg)).

(** The contract of a denomination, deployed if there is none. *)
Definition contractFor (denom : string) (autoDeploy : bool) : M bytes :=
  found ← getStore (GetContractByDenom denom);
  match found with
  | Some contract => mret contract
  | None =>
      if negb autoDeploy then throw "no contract found for the denom"
      else
        contract ← DeployModuleCRC21 denom;
        _ ← putStore (SetAutoContractForDenom denom contract);
        mret contract
  end.

Definition ConvertCoinFromNativeToCRC21 (sender : bytes) (coin : Coin) (autoDeploy : bool) : M unit :=
  if negb (IsValidCoinDenom (Denom coin)) then throw "coin is not supported for conversion"
  else
    contract ← contractFor (Denom coin) autoDeploy;
    coins ← orPanic (NewCoins [coin]);
    if IsSourceCoin (Denom coin) then
      _ ← onWorld (SendCoinsFromAccountToModule sender ModuleName coins);
      _ ← onWorld (BurnCoins ModuleName coins);
      _ ← CallModuleCRC21 contract "transfer_from_cronos_module" [AAddress sender; AUint256 (Amount coin)];
      mret tt
    else
      _ ← onWorld (SendCoins sender contract coins);
      _ ← CallModuleCRC21 contract "mint_by_cronos_module" [AAddress sender; AUint256 (Amount coin)];
      mret tt.

Definition ConvertCoinFromCRC21ToNative (contract receiver : bytes) (amount : Z) : M unit :=
  found ← getStore (GetDenomByContract contract);
  match found with
  | None => throw "the contract address is not mapped to native token"
  | Some denom =>
      coins ← newCoins denom amount;
      if IsSourceCoin denom then
        _ ← CallModuleCRC21 contract "transfer_by_cronos_module" [AAddress receiver; AUint256 amount];
        _ ← onWorld (MintCoins ModuleName coins);
        onWorld (SendCoinsFromModuleToAccount ModuleName receiver coins)
      else
        _ ← onWorld (SendCoins contract receiver coins);
        _ ← CallModuleCRC21 contract "burn_by_cronos_module" [AAddress receiver; AUint256 amount];
        mret tt
  end.

Definition ConvertCoinsFromNativeToCRC21 (sender : bytes) (coins : Coins) (autoDeploy : bool) : M unit :=
  forM coins (fun coin => ConvertCoinFromNativeToCRC21 sender coin autoDeploy).

(** ** [params.go]: the channel of a voucher *)

Definition ErrIbcCroDenomInvalid : error := "ibc cro denom is invalid".
Definition ErrIbcCroDenomEmpty : error := "ibc cro denom is not set".

(** An empty trace panics at [Trace[0]]. *)
Definition GetSourceChannelID (ibcVoucherDenom : string) : M string :=
  match splitSlash ibcVoucherDenom "" with
  | [_; hash] =>
      match ParseHexHash hash with
      | Err _ => throw ErrIbcCroDenomInvalid
      | Ok hexDenomBytes =>
          found ← gets (fun s => GetDenom hexDenomBytes (world s));
          match found with
          | None => throw ErrIbcCroDenomInvalid
          | Some trace => hop ← orPanic (head (denomTrace trace)); mret (hopChannel hop)
          end
      end
  | _ => throw ErrIbcCroDenomInvalid
  end.

(** ** [ibc.go] *)

Definition ConvertVoucher (acc : bytes) (params : Params) (evmDenom : string) (c : Coin) : M unit :=
  if bool_decide (Denom c = IbcCroDenom params) then
    if bool_decide (IbcCroDenom params = "") then throw ErrIbcCroDenomEmpty
    else
      coins ← orPanic (NewCoins [c]);
      _ ← onWorld (SendCoinsFromAccountToModule acc ModuleName coins);
      amount ← orPanic (IntMul (Amount c) TenPowTen);
      amount18dec ← newCoins evmDenom amount;
      _ ← onWorld (MintCoins ModuleName amount18dec);
      onWorld (SendCoinsFromModuleToAccount ModuleName acc amount18dec)
  else ConvertCoinFromNativeToCRC21 (BytesToAddress acc) c (EnableAutoDeployment params).

Definition ConvertVouchersToEvmCoins (from : string) (coins : Coins) : M unit :=
  acc ← orErr (AccAddressFromBech32 from);
  params ← getParams;
  evmDenom ← gets (fun s => EvmDenom (world s));
  forM coins (ConvertVoucher acc params evmDenom).

Definition ibcSendTransfer (sender : bytes) (destination : string) (coin : Coin) (channelId : string) : M unit :=
  channelId ←
    (if IsSourceCoin (Denom coin) then
       if negb (IsValidChannelID channelId) then throw "invalid channel id for ibc transfer of source token"
       else mret channelId
     else GetSourceChannelID (Denom coin));
  params ← getParams;
  now ← gets (fun s => BlockTimeUnixNano (world s));
  let timeoutTimestamp := u64 (u64 now + IbcTimeout params) in
  onWorld (Transfer (mkMsgTransfer TransferPortID channelId coin (AccAddressString sender) destination timeoutTimestamp)).

Definition IbcTransferCoin (acc : bytes) (destination : string) (params : Params) (evmDenom : string)
    (channelId : string) (c : Coin) : M unit :=
  if bool_decide (Denom c = evmDenom) then
    amount8decRem ← orPanic (IntMod (Amount c) TenPowTen);
    amountToBurn ← orPanic (IntSub (Amount c) amount8decRem);
    if amountToBurn =? 0 then mret tt
    else
      coins ← newCoins evmDenom amountToBurn;
      _ ← onWorld (SendCoinsFromAccountToModule acc ModuleName coins);
      _ ← onWorld (BurnCoins ModuleName coins);
      amount8dec ← orPanic (IntQuo (Amount c) TenPowTen);
      ibcCoin ← orPanic (NewCoin (IbcCroDenom params) amount8dec);
      ibcCoins ← orPanic (NewCoins [ibcCoin]);
      _ ← onWorld (SendCoinsFromModuleToAccount ModuleName acc ibcCoins);
      ibcSendTransfer acc destination ibcCoin ""
  else if negb (IsValidIBCDenom (Denom c)) && negb (IsValidCronosDenom (Denom c)) then
    throw "the coin is neither an ibc voucher or a cronos token"
  else
    found ← getStore (GetContractByDenom (Denom c));
    match found with
    | None => throw "coin is not supported"
    | Some _ => ibcSendTransfer acc destination c channelId
    end.

Definition IbcTransferCoins (from destination : string) (coins : Coins) (channelId : string) : M unit :=
  acc ← orErr (AccAddressFromBech32 from);
  if Nat.eqb (String.length destination) 0 then throw "to address cannot be empty"
  else
    params ← getParams;
    evmDenom ← gets (fun s => EvmDenom (world s));
    forM coins (IbcTransferCoin acc destination params evmDenom channelId).

(** ** [msg_server.go]: the messages that move coins *)

Definition ConvertVouchers (msg : MsgConvertVouchers) : M unit := ConvertVouchersToEvmCoins (cvAddress msg) (cvCoins msg).

Definition TransferTokens (msg : MsgTransferTokens) : M unit :=
  IbcTransferCoins (ttFrom msg) (ttTo msg) (ttCoins msg) "".

(** ** [keeper.go]: vouchers and packet callbacks *)

(** [cacheCtx, commit := ctx.CacheContext()]: the writes are kept only when the
    call succeeds; the error is logged. *)
Definition cached (m : M unit) : M unit := fun s =>
  match m s with
  | Some (Ok _, s') => Some (Ok tt, s')
  | Some (Err _, _) => Some (Ok tt, s)
  | None => None
  end.

Definition OnRecvVouchers (tokens : Coins) (receiver : string) : M unit :=
  cached (ConvertVouchersToEvmCoins receiver tokens).

Record Packet := mkPacket {
  pkSequence : Z; pkSourcePort : string; pkSourceChannel : string; pkDestinationPort : string;
  pkDestinationChannel : string; pkData : bytes }.

Definition onPacketResult (packet : Packet) (acknowledgement : bool) (contractAddress packetSenderAddress : string)
    : M unit :=
  sender ← orErr (AccAddressFromBech32 packetSenderAddress);
  let senderAddr := BytesToAddress sender in
  let contractAddr := HexToAddress contractAddress in
  if bool_decide (senderAddr <> contractAddr) then throw "sender is not authenticated"
  else
    data ← orErr (PackOnPacketResult (pkSourceChannel packet) (pkSequence packet) acknowledgement);
    params ← getParams;
    _ ← CallEVM (Some senderAddr) data 0 (MaxCallbackGas params);
    mret tt.

(** Acknowledgements and packet data, as ibc-go decodes them; [IBCDenom] is
    [ibc/hash(trace/base)], or the base of a native coin. *)
Inductive AckResponse := AckResult (b : bytes) | AckError (e : string).

Record PacketToken := mkPacketToken { ptDenom : IbcDenom; ptAmount : string }.
Record TransferData := mkTransferData { tdToken : PacketToken; tdSender : string; tdReceiver : string }.

Context (IBCDenom : IbcDenom -> string) (DenomHasPrefix : IbcDenom -> string -> string -> bool).
Context (UnmarshalPacketData : bytes -> string -> result TransferData).
Context (UnmarshalAck : bytes -> result AckResponse).

Definition ackSuccess (r : AckResponse) : bool := match r with AckResult _ => true | AckError _ => false end.

Definition IBCOnAcknowledgementPacketCallback (packet : Packet) (acknowledgement : bytes)
    (contractAddress packetSenderAddress : string) : M unit :=
  res ← orErr (UnmarshalAck acknowledgement);
  onPacketResult packet (ackSuccess res) contractAddress packetSenderAddress.

Definition IBCOnTimeoutPacketCallback (packet : Packet) (contractAddress packetSenderAddress : string) : M unit :=
  onPacketResult packet false contractAddress packetSenderAddress.

(** ** [middleware/conversion_middleware.go] *)

(** The transfer application the middleware wraps: it answers a packet with an
    acknowledgement, and can fail on an acknowledgement or a timeout. *)
Context (app_OnRecvPacket : string -> Packet -> M AckResponse).
Context (app_OnAcknowledgementPacket : string -> Packet -> bytes -> M unit).
Context (app_OnTimeoutPacket : string -> Packet -> M unit).

Definition canBeConverted (denom : string) : M bool :=
  params ← getParams;
  if bool_decide (denom = IbcCroDenom params) then mret true
  else found ← getStore (GetContractByDenom denom); mret (bool_decide (is_Some found)).

Definition getIbcDenomFromDataForRefund (token : PacketToken) : string := IBCDenom (ptDenom token).

(** [Trace[1:]] panics on an empty trace. *)
Definition getIbcDenomFromPacketAndData (packet : Packet) (token : PacketToken) : option string :=
  let denom := ptDenom token in
  if DenomHasPrefix denom (pkSourcePort packet) (pkSourceChannel packet) then
    match denomTrace denom with
    | [] => None
    | _ :: trace => Some (IBCDenom (mkIbcDenom (denomBase denom) trace))
    end
  else
    Some (IBCDenom (mkIbcDenom (denomBase denom)
      (mkHop (pkDestinationPort packet) (pkDestinationChannel packet) :: denomTrace denom))).

Definition convertVouchers (amount sender receiver denom : string) (isSender : bool) : M unit :=
  match NewIntFromString amount with
  | None => throw "unable to parse transfer amount into sdk.Int in middleware"
  | Some transferAmount =>
      coins ← newCoins denom transferAmount;
      OnRecvVouchers coins (if isSender then sender else receiver)
  end.

Definition errorAck (e : error) : AckResponse := AckError e.

(** The error of [convertVouchers] becomes an error acknowledgement. *)
Definition ackOf (m : M unit) (ack : AckResponse) : M AckResponse := fun s =>
  match m s with
  | Some (Ok _, s') => Some (Ok ack, s')
  | Some (Err e, s') => Some (Ok (errorAck e), s')
  | None => None
  end.

Definition OnRecvPacket (channelVersion : string) (packet : Packet) : M AckResponse :=
  ack ← app_OnRecvPacket channelVersion packet;
  if ackSuccess ack then
    match UnmarshalPacketData (pkData packet) channelVersion with
    | Err _ => mret (errorAck "cannot unmarshal ICS-20 transfer packet data in middleware")
    | Ok data =>
        denom ← orPanic (getIbcDenomFromPacketAndData packet (tdToken data));
        ok ← canBeConverted denom;
        if (ok : bool)
        then ackOf (convertVouchers (ptAmount (tdToken data)) (tdSender data) (tdReceiver data) denom false) ack
        else mret ack
    end
  else mret ack.

(** The vouchers that went back to the sender. *)
Definition refund (channelVersion : string) (packet : Packet) : M unit :=
  data ← orErr (UnmarshalPacketData (pkData packet) channelVersion);
  let denom := getIbcDenomFromDataForRefund (tdToken data) in
  ok ← canBeConverted denom;
  if (ok : bool)
  then convertVouchers (ptAmount (tdToken data)) (tdSender data) (tdReceiver data) denom true
  else mret tt.

Definition OnAcknowledgementPacket (channelVersion : string) (packet : Packet) (acknowledgement : bytes) : M unit :=
  _ ← app_OnAcknowledgementPacket channelVersion packet acknowledgement;
  match UnmarshalAck acknowledgement with
  | Err _ => throw "cannot unmarshal ICS-20 transfer packet acknowledgement in middleware"
  | Ok (AckError _) => refund channelVersion packet
  | Ok _ => mret tt
  end.

Definition OnTimeoutPacket (channelVersion : string) (packet : Packet) : M unit :=
  _ ← app_OnTimeoutPacket channelVersion packet;
  refund channelVersion packet.

End Bridge.

(** ** Reading a successful run backwards *)
Section Inversion.
Context {St W : Type}.
Implicit Types s : Sys St W.

Lemma bind_ok_inv {S A B} (m : SE S A) (k : A -> SE S B) (s s2 : S) b :
  (m ≫= k) s = Some (Ok b, s2) -> exists a (s1 : S), m s = Some (Ok a, s1) /\ k a s1 = Some (Ok b, s2).
Proof. unfold mbind, SE_bind. destruct (m s) as [[[a|e] s1]|]; try done. by eauto. Qed.

Lemma gets_inv {S A} (f : S -> A) (s s1 : S) a : gets f s = Some (Ok a, s1) -> a = f s /\ s1 = s.
Proof. by intros [= <- <-]. Qed.

Lemma getStore_inv {A} (f : St -> A) s s1 a : getStore f s = Some (Ok a, s1) -> a = f (store s) /\ s1 = s.
Proof. by intros [= <- <-]. Qed.

Lemma orPanic_inv {S A} (x : option A) (s s1 : S) a : orPanic x s = Some (Ok a, s1) -> x = Some a /\ s1 = s.
Proof. unfold orPanic. destruct x; cbn; [|done]. by intros [= <- <-]. Qed.

Lemma orErr_inv {S A} (x : result A) (s s1 : S) a : orErr x s = Some (Ok a, s1) -> x = Ok a /\ s1 = s.
Proof. unfold orErr. by intros [= <- <-]. Qed.

Lemma mret_inv {S A} (x : A) (s s1 : S) a : (mret x : SE S A) s = Some (Ok a, s1) -> x = a /\ s1 = s.
Proof. by intros [= <- <-]. Qed.

Lemma onWorld_inv {A} (m : SE W A) s s1 a :
  onWorld m s = Some (Ok a, s1) -> exists w, m (world s) = Some (Ok a, w) /\ s1 = mkSys (store s) w.
Proof. unfold onWorld. destruct (m (world s)) as [[r w]|]; [|done]. intros [= -> <-]. by eauto. Qed.

Lemma putWorld_inv (f : W -> W) s s1 a :
  putWorld f s = Some (Ok a, s1) -> s1 = mkSys (store s) (f (world s)).
Proof. by intros [= <- <-]. Qed.

Lemma putStore_inv (f : St -> St) s s1 a :
  putStore f s = Some (Ok a, s1) -> s1 = mkSys (f (store s)) (world s).
Proof. by intros [= <- <-]. Qed.

Lemma tryStore_inv (f : St -> result St) s s1 a :
  tryStore f s = Some (Ok a, s1) -> exists st, f (store s) = Ok st /\ s1 = mkSys st (world s).
Proof. unfold tryStore. destruct (f (store s)); [|done]. intros [= <- <-]. by eauto. Qed.

(** A run that succeeds in a state with a property that can be evaluated. *)
Definition runs_to {S} (r : option (result unit * S)) (P : S -> bool) : bool :=
  match r with Some (Ok _, s) => P s | _ => false end.

Lemma runs_to_inv {S} (r : option (result unit * S)) P :
  runs_to r P = true -> exists s : S, r = Some (Ok tt, s) /\ P s = true.
Proof. destruct r as [[[[]|] s]|]; [|done..]. by exists s. Qed.

End Inversion.

(** [runs H]: split a successful run of a block into the runs of its calls,
    replacing the states that do not change. *)
Ltac run1 :=
  match goal with
  | H : (_ ≫= _) _ = Some (Ok _, _) |- _ => apply bind_ok_inv in H as (? & ? & ? & H)
  | H : gets _ _ = Some (Ok _, _) |- _ => apply gets_inv in H as [-> ->]
  | H : getStore _ _ = Some (Ok _, _) |- _ => apply getStore_inv in H as [-> ->]
  | H : orPanic _ _ = Some (Ok _, _) |- _ => apply orPanic_inv in H as [? ->]
  | H : orErr _ _ = Some (Ok _, _) |- _ => apply orErr_inv in H as [? ->]
  | H : mret _ _ = Some (Ok _, _) |- _ => apply mret_inv in H as [? ->]
  | H : onWorld _ _ = Some (Ok _, _) |- _ => apply onWorld_inv in H as (? & ? & ->)
  | H : putWorld _ _ = Some (Ok _, _) |- _ => apply putWorld_inv in H as ->
  | H : putStore _ _ = Some (Ok _, _) |- _ => apply putStore_inv in H as ->
  | H : tryStore _ _ = Some (Ok _, _) |- _ => apply tryStore_inv in H as (? & ? & ->)
  | H : throw _ _ = Some (Ok _, _) |- _ => discriminate H
  end.
Ltac runs :=
  repeat (run1; cbn [store world] in *);
  repeat match goal with u : unit |- _ => destruct u end.

(** Take the pairs among the variables apart. *)
Ltac destruct_pairs := repeat match goal with p : (_ * _)%type |- _ => destruct p end.
