(* ===== verification/CronosPath.v ===== *)
(** * What a handler does between its calls of contracts

    A contract that the cronos module calls can do anything, and can call back
    into the module.  The run of a handler is therefore taken apart into the calls
    of the EVM it makes, each with the states before and after it, and what the
    module and the keepers of other modules do between them: a path.  The theorems
    on handlers that call contracts say what the steps between the calls do, and
    leave to the calls what the contracts do. *)

From S2P Require Import Prelude KV Binary Proto Ctx CronosTypes CronosKeeper CronosBridge.
From Stdlib Require Import Strings.Byte.

Open Scope string_scope.
Open Scope Z_scope.
Open Scope list_scope.

(** ** Paths *)

(** A message applied to the EVM, with the states around it. *)
Record Call (St W : Type) := mkCall {
  callMsg : Message; callBefore : Sys St W; callResult : result EVMResult; callAfter : Sys St W }.
Arguments mkCall {St W}.
Arguments callMsg {St W}.
Arguments callBefore {St W}.
Arguments callResult {St W}.
Arguments callAfter {St W}.

(** A call, or the deployment of a contract that is registered for a
    denomination. *)
Inductive event (St W : Type) := Called (c : Call St W) | Deployed (c : Call St W) (denom : string).
Arguments Called {St W}.
Arguments Deployed {St W}.

Definition eventCall {St W} (ev : event St W) : Call St W :=
  match ev with Called c | Deployed c _ => c end.

Section Path.
Context {L : Libs} {St : Type} {KS : KVStore St} {W : Type}
  {BK : BankKeeper W} {EK : EvmKeeper St W}.

(** The module calls in its own name, without a value. *)
Definition made_call (c : Call St W) : Prop :=
  ApplyMessage (callMsg c) (callBefore c) = Some (callResult c, callAfter c) /\
  msgFrom (callMsg c) = EVMModuleAddress /\ msgValue (callMsg c) = 0.

Definition creates (c : Call St W) : Prop :=
  msgTo (callMsg c) = None /\ exists res, callResult c = Ok res /\ resFailed res = false.

(** The address of the contract created. *)
Definition newAddress (c : Call St W) : bytes := CreateAddress EVMModuleAddress (msgNonce (callMsg c)).

Definition register (d : string) (a : bytes) (s : Sys St W) : Sys St W :=
  mkSys (SetAutoContractForDenom d a (store s)) (world s).

(** From one state to another through the calls listed, by steps of [own] and,
    after a deployment, the registration of the new contract. *)
Inductive path (own : Sys St W -> Sys St W -> Prop) : list (event St W) -> Sys St W -> Sys St W -> Prop :=
| path_own s s' : own s s' -> path own [] s s'
| path_call c s s' evs :
    own s (callBefore c) -> made_call c -> path own evs (callAfter c) s' -> path own (Called c :: evs) s s'
| path_deploy c d s s1 s' evs :
    own s (callBefore c) -> GetContractByDenom d (store (callBefore c)) = None ->
    made_call c -> creates c -> own (callAfter c) s1 ->
    path own evs (register d (newAddress c) s1) s' -> path own (Deployed c d :: evs) s s'.

Section Own.
Context (own : Sys St W -> Sys St W -> Prop) {PO : PreOrder own}.

Lemma path_prepend evs s s1 s' : own s s1 -> path own evs s1 s' -> path own evs s s'.
Proof.
  intros H Hp. destruct Hp; [apply path_own|apply path_call|eapply path_deploy]; try done; by etrans.
Qed.

Lemma path_trans evs evs' s s1 s' : path own evs s s1 -> path own evs' s1 s' -> path own (evs ++ evs') s s'.
Proof.
  intros Hp. revert evs' s'. induction Hp as [s s1 H|c s s1 evs H Hc Hp IH|c d s s0 s1 evs H Hg Hc Hn H1 Hp IH];
    intros evs' s' Hp'; cbn [app].
  - by eapply path_prepend.
  - apply path_call; [done..|by apply IH].
  - eapply path_deploy; [done..|by apply IH].
Qed.

(** A quantity that the steps between the calls and the registrations keep
    changes by what the calls change. *)
Lemma path_total (f : Sys St W -> Z) evs s s' :
  (forall s s', own s s' -> f s' = f s) -> (forall d a s, f (register d a s) = f s) ->
  path own evs s s' ->
  f s' = f s + foldr Z.add 0 ((fun ev => f (callAfter (eventCall ev)) - f (callBefore (eventCall ev))) <$> evs).
Proof.
  intros Hf Hr Hp. induction Hp as [s s' H|c s s' evs H Hc Hp IH|c d s s1 s' evs H Hg Hc Hn H1 Hp IH]; cbn.
  - rewrite (Hf _ _ H). lia.
  - rewrite IH, (Hf _ _ H). lia.
  - rewrite IH, Hr, (Hf _ _ H1), (Hf _ _ H). lia.
Qed.

(** ** Runs along paths *)

(** [failing]: errors are runs too; [stuck]: where the module panics; [allowed]:
    what may happen on the way. *)
Context (failing : bool) (stuck : Sys St W -> Prop) (allowed : event St W -> Prop).

Definition along (s s' : Sys St W) : Prop := exists evs, path own evs s s' /\ Forall allowed evs.

Definition traced {A} (m : SE (Sys St W) A) (s : Sys St W) : Prop :=
  match m s with
  | Some (Ok _, s') => along s s'
  | Some (Err _, s') => failing = true -> along s s'
  | None => exists s1, along s s1 /\ stuck s1
  end.

Lemma along_refl s : along s s.
Proof. exists []. split; [by apply path_own|done]. Qed.

Lemma along_trans s s1 s' : along s s1 -> along s1 s' -> along s s'.
Proof.
  intros (e1 & H1 & F1) (e2 & H2 & F2). exists (e1 ++ e2). split; [by eapply path_trans|by apply Forall_app].
Qed.

Lemma along_own s s' : own s s' -> along s s'.
Proof. intros H. exists []. split; [by apply path_own|done]. Qed.

Lemma traced_bind {A B} (m : SE (Sys St W) A) (k : A -> SE (Sys St W) B) s :
  traced m s -> (forall a s', m s = Some (Ok a, s') -> traced (k a) s') -> traced (m ≫= k) s.
Proof.
  unfold traced, mbind, SE_bind. intros Hm Hk. destruct (m s) as [[[a|e] s1]|] eqn:E; [|done..].
  specialize (Hk a s1 eq_refl). destruct (k a s1) as [[[b|e] s2]|].
  - by eapply along_trans.
  - intros Hf. eapply along_trans; [done|by apply Hk].
  - destruct Hk as (s2 & H2 & Hs). exists s2. split; [by eapply along_trans|done].
Qed.

(** A computation that does not change the state. *)
Lemma traced_read {A} (m : SE (Sys St W) A) s : (exists r, m s = Some (r, s)) -> traced m s.
Proof. intros [r E]. unfold traced. rewrite E. destruct r; intros; apply along_refl. Qed.

Lemma traced_gets {A} (f : Sys St W -> A) s : traced (gets f) s.
Proof. apply traced_read. by eexists. Qed.

Lemma traced_getStore {A} (f : St -> A) s : traced (getStore f) s.
Proof. apply traced_read. by eexists. Qed.

Lemma traced_mret {A} (a : A) s : traced (mret a) s.
Proof. apply traced_read. by eexists. Qed.

Lemma traced_throw {A} e s : traced (throw e : SE (Sys St W) A) s.
Proof. apply traced_read. by eexists. Qed.

Lemma traced_orErr {A} (x : result A) s : traced (orErr x) s.
Proof. apply traced_read. by eexists. Qed.

Lemma traced_orPanic {A} (x : option A) s : (x = None -> stuck s) -> traced (orPanic x) s.
Proof.
  intros Hx. destruct x as [a|]; [apply traced_read; by eexists|]. exists s. split; [apply along_refl|auto].
Qed.

(** What an operation of another module has to do. *)
Definition world_ok {A} (m : SE W A) (s : Sys St W) : Prop :=
  match m (world s) with
  | Some (Ok _, w) => own s (mkSys (store s) w)
  | Some (Err _, w) => failing = true -> own s (mkSys (store s) w)
  | None => stuck s
  end.

Lemma traced_onWorld {A} (m : SE W A) s : world_ok m s -> traced (onWorld m) s.
Proof.
  unfold world_ok, traced, onWorld. destruct (m (world s)) as [[[a|e] w]|]; intros H.
  - by apply along_own.
  - intros Hf. apply along_own, H, Hf.
  - exists s. split; [apply along_refl|done].
Qed.

Lemma traced_along {A} (m : SE (Sys St W) A) s a s' : traced m s -> m s = Some (Ok a, s') -> along s s'.
Proof. unfold traced. intros Ht E. by rewrite E in Ht. Qed.

Lemma traced_forM {A} (l : list A) (f : A -> SE (Sys St W) unit) s :
  (forall a s1, a ∈ l -> along s s1 -> traced (f a) s1) -> traced (forM l f) s.
Proof.
  revert s. induction l as [|a l IH]; intros s Hf; cbn [forM]; [apply traced_mret|].
  assert (traced (f a) s) as Ha by (apply Hf; [by left|apply along_refl]). apply traced_bind; [done|].
  intros [] s1 E. pose proof (traced_along _ _ _ _ Ha E) as H1. apply IH. intros b s2 Hb H2.
  apply Hf; [by right|by eapply along_trans].
Qed.

(** ** The calls of contracts *)

Hypothesis own_log : forall l (s : Sys St W), own s (mkSys (store s) (AddLog l (world s))).
Hypothesis evm_stuck : forall msg (s : Sys St W), msgFrom msg = EVMModuleAddress -> ApplyMessage msg s = None -> stuck s.
Hypothesis call_allowed : forall c, allowed (Called c).

Lemma own_logs ls (s : Sys St W) : own s (mkSys (store s) (foldl (fun w l => AddLog l w) (world s) ls)).
Proof.
  revert s. induction ls as [|l ls IH]; intros [st w]; cbn; [reflexivity|].
  etrans; [apply (own_log l)|]. exact (IH (mkSys st (AddLog l w))).
Qed.

Lemma CallEVM_spec to data gas (s : Sys St W) :
  match CallEVM to data 0 gas s with
  | Some (Ok (msg, res), s') => exists c, callBefore c = s /\ made_call c /\ callMsg c = msg /\ msgTo msg = to /\
      callResult c = Ok res /\ own (callAfter c) s'
  | Some (Err e, s') => exists c, callBefore c = s /\ made_call c /\ callAfter c = s'
  | None => stuck s
  end.
Proof.
  unfold CallEVM. rewrite SE_bind_gets. cbn zeta. set (msg := mkMessage _ _ _ _ _ _ _).
  unfold mbind at 1, SE_bind at 1. destruct (ApplyMessage msg s) as [[[res|e] s1]|] eqn:E.
  - rewrite SE_bind_gets. destruct (inStateDB (world s1)).
    + unfold putWorld. rewrite SE_bind_modify. exists (mkCall msg s (Ok res) s1). split_and!; try done.
      cbn [callAfter]. apply own_logs.
    + rewrite SE_bind_mret. by exists (mkCall msg s (Ok res) s1).
  - by exists (mkCall msg s (Err e) s1).
  - by apply (evm_stuck msg).
Qed.

Lemma CallModuleCRC21_traced contract method args s : traced (CallModuleCRC21 contract method args) s.
Proof.
  unfold CallModuleCRC21. apply traced_bind; [apply traced_orErr|]. intros data _ [_ ->]%orErr_inv.
  apply traced_bind.
  - unfold traced. pose proof (CallEVM_spec (Some contract) data DefaultGasCap s) as H.
    assert (forall c s', callBefore c = s -> made_call c -> own (callAfter c) s' -> along s s') as Hc.
    { intros c s' Hb Hm Ho. exists [Called c]. split; [|by constructor].
      apply path_call; [by rewrite Hb|done|by apply path_own]. }
    destruct (CallEVM _ _ _ _ s) as [[[[msg res]|e] s']|].
    + destruct H as (c & Hb & Hm & _ & _ & _ & Ho). by eapply Hc.
    + destruct H as (c & Hb & Hm & <-). intros _. by eapply Hc.
    + exists s. split; [apply along_refl|done].
  - intros [msg res] s1 _. destruct (resFailed res); [apply traced_throw|apply traced_mret].
Qed.

Lemma contractFor_traced d autoDeploy s :
  (autoDeploy = true -> forall c, allowed (Deployed c d)) ->
  traced (contractFor d autoDeploy) s.
Proof.
  intros Ha. unfold contractFor, getStore, traced. rewrite SE_bind_gets. unfold compose.
  destruct (GetContractByDenom d (store s)) as [contract|] eqn:Eg; [apply along_refl|].
  destruct autoDeploy; cbn [negb]; [|intros _; apply along_refl].
  specialize (Ha eq_refl). unfold DeployModuleCRC21.
  unfold mbind at 1, SE_bind at 1. unfold mbind at 1, SE_bind at 1. unfold orErr.
  destruct (Pack "" _) as [ctor|e]; [|intros _; apply along_refl]. cbn zeta.
  unfold mbind at 1, SE_bind at 1. pose proof (CallEVM_spec None (ModuleCRC21Bin ++ ctor) DefaultGasCap s) as H.
  destruct (CallEVM _ _ _ _ s) as [[[[msg res]|e] s']|].
  - destruct H as (c & Hb & Hm & Em & Et & Er & Ho). destruct (resFailed res) eqn:Ef.
    + intros _. exists [Called c]. split; [|by constructor].
      apply path_call; [by rewrite Hb|done|by apply path_own].
    + cbn. exists [Deployed c d]. split; [|by constructor].
      eapply path_deploy; [by rewrite Hb|by rewrite Hb|done|split; [congruence|by exists res]|done|].
      apply path_own. unfold register, newAddress. by rewrite Em.
  - destruct H as (c & Hb & Hm & <-). intros _. exists [Called c]. split; [|by constructor].
    apply path_call; [by rewrite Hb|done|by apply path_own].
  - exists s. split; [apply along_refl|done].
Qed.

(** A coin that is not CRO: only its own denomination is deployed, and the bank
    moves only the coin. *)
Lemma ConvertCoin_traced sender coin autoDeploy s :
  (IsValidCoinDenom (Denom coin) = true -> autoDeploy = true -> forall c, allowed (Deployed c (Denom coin))) ->
  (NewCoins [coin] = None -> forall s, stuck s) ->
  (IsValidCoinDenom (Denom coin) = true -> forall coins contract s, NewCoins [coin] = Some coins ->
    world_ok (SendCoinsFromAccountToModule sender ModuleName coins) s /\
    world_ok (BurnCoins ModuleName coins) s /\ world_ok (SendCoins sender contract coins) s) ->
  traced (ConvertCoinFromNativeToCRC21 sender coin autoDeploy) s.
Proof.
  intros Ha Hn Hw. unfold ConvertCoinFromNativeToCRC21.
  destruct (IsValidCoinDenom (Denom coin)); cbn [negb]; [|apply traced_throw].
  apply traced_bind; [apply contractFor_traced; auto|]. intros contract s1 _.
  apply traced_bind; [apply traced_orPanic; auto|]. intros coins _ [Hc ->]%orPanic_inv.
  specialize (Hw eq_refl coins contract). assert (forall m args s, traced (_ ← CallModuleCRC21 contract m args; mret tt) s) as Hcall.
  { intros m args s2. apply traced_bind; [apply CallModuleCRC21_traced|]. intros. apply traced_mret. }
  destruct (IsSourceCoin (Denom coin)).
  - apply traced_bind; [by apply traced_onWorld, Hw|]. intros _ s2 _.
    apply traced_bind; [by apply traced_onWorld, Hw|]. intros _ s3 _. apply Hcall.
  - apply traced_bind; [by apply traced_onWorld, Hw|]. intros _ s2 _. apply Hcall.
Qed.
End Own.
End Path.
