(* ===== verification/CronosPeg.v ===== *)
(** * The CRO peg

    Every coin of the EVM's denomination that the module mints stands for IBC
    CRO held by the module account, ten billion to one ([ibc.go]): converting
    vouchers, transferring coins back and the packets of the middleware keep the
    difference between the supply and what is held, between the calls of
    contracts they make. *)

From S2P Require Import Prelude KV Binary Sha256 Proto Ctx CronosTypes CronosKeeper Crc21 CronosBridge CronosPath.
From Stdlib Require Import Strings.Byte.

Open Scope string_scope.
Open Scope Z_scope.
Open Scope list_scope.

(** ** The bank *)

Definition on (a x : bytes) (n : Z) : Z := if bool_decide (x = a) then n else 0.

(** Coins went from one account to another. *)
Definition moved `{BankKeeper W} (from to : bytes) (cs : Coins) (w w' : W) : Prop :=
  (forall a d, balance w' a d = balance w a d - on from a (amountOf d cs) + on to a (amountOf d cs)) /\
  (forall d, supply w' d = supply w d).

(** Coins were made (or destroyed, for [k = -1]) in an account. *)
Definition made `{BankKeeper W} (k : Z) (acc : bytes) (cs : Coins) (w w' : W) : Prop :=
  (forall a d, balance w' a d = balance w a d + on acc a (k * amountOf d cs)) /\
  (forall d, supply w' d = supply w d + k * amountOf d cs).

(** What the bank's operations do when they succeed.  Module accounts cannot
    receive coins from [SendCoinsFromModuleToAccount] ([app.BlockedAddrs]). *)
Class BankLaws (W : Type) `{L : Libs} `{BankKeeper W} (blocked : bytes -> Prop) : Prop := {
  SendCoins_ok a b cs w w' : SendCoins a b cs w = Some (Ok tt, w') -> moved a b cs w w';
  ModuleToAccount_ok m b cs w w' :
    SendCoinsFromModuleToAccount m b cs w = Some (Ok tt, w') -> moved (NewModuleAddress m) b cs w w' /\ ~ blocked b;
  AccountToModule_ok a m cs w w' :
    SendCoinsFromAccountToModule a m cs w = Some (Ok tt, w') -> moved a (NewModuleAddress m) cs w w';
  MintCoins_ok m cs w w' : MintCoins m cs w = Some (Ok tt, w') -> made 1 (NewModuleAddress m) cs w w';
  BurnCoins_ok m cs w w' : BurnCoins m cs w = Some (Ok tt, w') -> made (-1) (NewModuleAddress m) cs w w'
}.

Section Peg.
Context {L : Libs} {LL : LibsLaws} {St : Type} {KS : KVStore St} {W : Type}
  {BK : BankKeeper W} {EK : EvmKeeper St W} {TK : TransferKeeper W}.
Context (blocked : bytes -> Prop) {BL : BankLaws W blocked}.

Abbreviation moduleAccount := (NewModuleAddress ModuleName).

(** [evm] is the EVM's denomination, [cro] the voucher. *)
Context (evm cro : string).

(** The EVM coins that are not covered by CRO in the module account. *)
Definition uncovered (w : W) : Z := supply w evm - 10 ^ 10 * balance w moduleAccount cro.

(** A change that the peg does not notice. *)
Definition unnoticed (w w' : W) : Prop :=
  supply w' evm = supply w evm /\ balance w' moduleAccount cro = balance w moduleAccount cro.

(** ICS-20: a coin sent is locked in an escrow account, or burned when it is a
    voucher; a coin received, or given back, is taken from the escrow account, or
    minted when it is a voucher. *)
Definition sent (acc : bytes) (c : Coin) (w w' : W) : Prop :=
  (exists escrow, escrow <> moduleAccount /\ moved acc escrow [c] w w') \/
  (IsValidIBCDenom (Denom c) = true /\ made (-1) acc [c] w w').

Definition received (acc : bytes) (c : Coin) (w w' : W) : Prop :=
  (exists escrow, escrow <> moduleAccount /\ moved escrow acc [c] w w') \/
  (IsValidIBCDenom (Denom c) = true /\ made 1 acc [c] w w').

Definition same_coins (w w' : W) : Prop :=
  (forall a d, balance w' a d = balance w a d) /\ (forall d, supply w' d = supply w d).

(** A step of the transfer application: it has no access to the store of the
    module, does not change the parameters of the EVM, and pays no blocked
    address. *)
Definition ics20_step (s s' : Sys St W) : Prop :=
  store s' = store s /\ EvmDenom (world s') = EvmDenom (world s) /\
  (same_coins (world s) (world s') \/
   exists acc c, ~ blocked acc /\ received acc c (world s) (world s')).

(** The transfer application that the middleware wraps, and ibc-go's codecs. *)
Context (IBCDenom : IbcDenom -> string) (DenomHasPrefix : IbcDenom -> string -> string -> bool).
Context (UnmarshalPacketData : bytes -> string -> result TransferData).
Context (UnmarshalAck : bytes -> result AckResponse).
Context (app_OnRecvPacket : string -> Packet -> SE (Sys St W) AckResponse).
Context (app_OnAcknowledgementPacket : string -> Packet -> bytes -> SE (Sys St W) unit).
Context (app_OnTimeoutPacket : string -> Packet -> SE (Sys St W) unit).

(** The module account is blocked; the EVM's coin is not a bridged denomination
    and CRO is a voucher; adding a log does not move coins; IBC transfers are as
    ICS-20 has them. *)
Hypothesis module_blocked : blocked moduleAccount.
Hypothesis evm_denom : IsValidCoinDenom evm = false.
Hypothesis cro_denom : IsValidIBCDenom cro = true.
Hypothesis log_added : forall l (w : W), same_coins w (AddLog l w).
Hypothesis transfer_sends : forall msg acc (w w' : W),
  Transfer msg w = Some (Ok tt, w') -> trSender msg = AccAddressString acc -> sent acc (trToken msg) w w'.
Hypothesis recv_ics20 : forall v packet s ack s',
  app_OnRecvPacket v packet s = Some (Ok ack, s') -> ackSuccess ack = true -> ics20_step s s'.
Hypothesis ack_ics20 : forall v packet a s s',
  app_OnAcknowledgementPacket v packet a s = Some (Ok tt, s') -> ics20_step s s'.
Hypothesis timeout_ics20 : forall v packet s s',
  app_OnTimeoutPacket v packet s = Some (Ok tt, s') -> ics20_step s s'.

Lemma unnoticed_uncovered w w' : unnoticed w w' -> uncovered w' = uncovered w.
Proof. intros [E1 E2]. unfold uncovered. by rewrite E1, E2. Qed.

Lemma evm_cro_ne : cro <> evm.
Proof. intros E. unfold IsValidCoinDenom in evm_denom. by rewrite <- E, cro_denom in evm_denom. Qed.

(** Coins of other denominations. *)
Lemma moved_unnoticed from to cs w w' : moved from to cs w w' -> amountOf cro cs = 0 -> unnoticed w w'.
Proof.
  intros [Hb Hs] E. split; [by rewrite Hs|]. rewrite Hb, E. unfold on. repeat case_bool_decide; lia.
Qed.

Lemma made_unnoticed k acc cs w w' :
  made k acc cs w w' -> amountOf cro cs = 0 -> amountOf evm cs = 0 -> unnoticed w w'.
Proof.
  intros [Hb Hs] E1 E2. split; [by rewrite Hs, E2; lia|]. rewrite Hb, E1. unfold on. case_bool_decide; lia.
Qed.

Lemma single_amount c cs d : NewCoins [c] = Some cs -> Denom c <> d -> amountOf d cs = 0.
Proof.
  intros [_ ->]%NewCoins_single Hd. destruct (Amount c =? 0); cbn; [done|]. rewrite bool_decide_false by done. lia.
Qed.

Lemma newCoins_amount d n (s s' : Sys St W) cs e :
  newCoins d n s = Some (Ok cs, s') -> amountOf e cs = (if bool_decide (d = e) then n else 0) /\ s' = s.
Proof.
  unfold newCoins. intros H. runs. split; [|done].
  match goal with H : _ = Some cs |- _ => apply bind_Some in H as (c & E1 & E2) end. by eapply amountOf_NewCoins.
Qed.

Lemma single_amount_eq c cs : NewCoins [c] = Some cs -> amountOf (Denom c) cs = Amount c.
Proof.
  intros [_ ->]%NewCoins_single. destruct (Z.eqb_spec (Amount c) 0); cbn; [lia|]. rewrite bool_decide_true by done. lia.
Qed.

(** The accounts of a conversion and of a transfer back. *)
Lemma convert_bank acc coins cs n w0 w1 w2 w3 :
  moved acc moduleAccount coins w0 w1 -> made 1 moduleAccount cs w1 w2 -> moved moduleAccount acc cs w2 w3 ->
  acc <> moduleAccount -> amountOf cro coins = n -> amountOf evm cs = n * 10 ^ 10 -> amountOf cro cs = 0 ->
  uncovered w3 = uncovered w0.
Proof.
  intros [B1 S1] [B2 S2] [B3 S3] Ha E1 E2 E3. unfold uncovered.
  rewrite S3, S2, S1, B3, B2, B1, E1, E2, E3. unfold on.
  rewrite !(bool_decide_true (moduleAccount = moduleAccount)), !(bool_decide_false (moduleAccount = acc)) by done. lia.
Qed.

Lemma transfer_bank acc cs coins n w0 w1 w2 w3 :
  moved acc moduleAccount cs w0 w1 -> made (-1) moduleAccount cs w1 w2 -> moved moduleAccount acc coins w2 w3 ->
  acc <> moduleAccount -> amountOf cro coins = n -> amountOf evm cs = n * 10 ^ 10 -> amountOf cro cs = 0 ->
  uncovered w3 = uncovered w0.
Proof.
  intros [B1 S1] [B2 S2] [B3 S3] Ha E1 E2 E3. unfold uncovered.
  rewrite S3, S2, S1, B3, B2, B1, E1, E2, E3. unfold on.
  rewrite !(bool_decide_true (moduleAccount = moduleAccount)), !(bool_decide_false (moduleAccount = acc)) by done. lia.
Qed.

Lemma unblocked acc : ~ blocked acc -> acc <> moduleAccount.
Proof. by intros H ->. Qed.

(** One voucher of CRO. *)
Lemma ConvertVoucher_cro acc params c (s s' : Sys St W) :
  IbcCroDenom params = cro -> Denom c = cro -> ConvertVoucher acc params evm c s = Some (Ok tt, s') ->
  uncovered (world s') = uncovered (world s).
Proof.
  intros Hc Ed. unfold ConvertVoucher. rewrite bool_decide_true by congruence.
  case_bool_decide; [done|]. intros Hr. runs.
  match goal with H : newCoins _ _ _ = _ |- _ =>
    destruct (newCoins_amount _ _ _ _ _ evm H) as [Ee ->], (newCoins_amount _ _ _ _ _ cro H) as [Ec _] end.
  match goal with H : IntMul _ _ = _ |- _ => apply IntMul_inv in H as -> end.
  match goal with H : SendCoinsFromModuleToAccount _ _ _ _ = _ |- _ =>
    apply ModuleToAccount_ok in H as [Hm Hb%unblocked] end.
  rewrite bool_decide_true in Ee by done. rewrite bool_decide_false in Ec by (apply not_eq_sym, evm_cro_ne).
  eapply convert_bank; [by eapply AccountToModule_ok|by eapply MintCoins_ok|exact Hm|done| |exact Ee|exact Ec].
  rewrite <- Ed. by apply single_amount_eq.
Qed.

Lemma GetSourceChannelID_state d (s s' : Sys St W) ch : GetSourceChannelID d s = Some (Ok ch, s') -> s' = s.
Proof.
  unfold GetSourceChannelID. intros H. repeat case_match; runs; try done. case_match; runs; done.
Qed.

Lemma ibc_evm_ne d : IsValidIBCDenom d = true -> d <> evm.
Proof. intros E ->. unfold IsValidCoinDenom in evm_denom. by rewrite E in evm_denom. Qed.

Lemma coin_amount d c : Denom c <> d -> amountOf d [c] = 0.
Proof. intros Hd. cbn. by rewrite bool_decide_false. Qed.

Lemma sent_unnoticed acc c w w' : acc <> moduleAccount -> sent acc c w w' -> unnoticed w w'.
Proof.
  intros Ha [(escrow & He & Hb & Hs)|(Hd%ibc_evm_ne & Hb & Hs)].
  - split; [by rewrite Hs|]. rewrite Hb. unfold on. rewrite !bool_decide_false by (by apply not_eq_sym). lia.
  - split; [rewrite Hs, coin_amount by done; lia|]. rewrite Hb. unfold on.
    rewrite bool_decide_false by (by apply not_eq_sym). lia.
Qed.

Lemma received_unnoticed acc c w w' : acc <> moduleAccount -> received acc c w w' -> unnoticed w w'.
Proof.
  intros Ha [(escrow & He & Hb & Hs)|(Hd%ibc_evm_ne & Hb & Hs)].
  - split; [by rewrite Hs|]. rewrite Hb. unfold on. rewrite !bool_decide_false by (by apply not_eq_sym). lia.
  - split; [rewrite Hs, coin_amount by done; lia|]. rewrite Hb. unfold on.
    rewrite bool_decide_false by (by apply not_eq_sym). lia.
Qed.

Lemma ics20_unnoticed (s s' : Sys St W) : ics20_step s s' -> unnoticed (world s) (world s').
Proof.
  intros (_ & _ & [[Hb Hs]|(acc & c & Ha & Hr)]); [split; [apply Hs|apply Hb]|].
  eapply received_unnoticed; [by apply unblocked|done].
Qed.

Lemma ibcSendTransfer_unnoticed acc dest c ch (s s' : Sys St W) :
  acc <> moduleAccount -> ibcSendTransfer acc dest c ch s = Some (Ok tt, s') -> unnoticed (world s) (world s').
Proof.
  intros Ha. unfold ibcSendTransfer, getParams. intros H. runs.
  assert (x0 = s) as ->.
  { destruct (IsSourceCoin (Denom c)); [destruct (negb _); by runs|by eapply GetSourceChannelID_state]. }
  match goal with H : Transfer _ _ = _ |- _ => eapply transfer_sends in H; [|done] end. by eapply sent_unnoticed.
Qed.

(** One coin sent over IBC. *)
Lemma IbcTransferCoin_peg acc dest params ch c (s s' : Sys St W) :
  IbcCroDenom params = cro -> 0 <= Amount c -> acc <> moduleAccount ->
  IbcTransferCoin acc dest params evm ch c s = Some (Ok tt, s') -> uncovered (world s') = uncovered (world s).
Proof.
  intros Hc Hn Ha. unfold IbcTransferCoin. case_bool_decide as Ed.
  - intros Hr. rewrite Hc in Hr. runs. destruct (_ =? 0); runs; [done|].
    match goal with H : newCoins _ _ _ = _ |- _ =>
      destruct (newCoins_amount _ _ _ _ _ evm H) as [Ee ->], (newCoins_amount _ _ _ _ _ cro H) as [Ec _] end.
    rewrite bool_decide_true in Ee by done. rewrite bool_decide_false in Ec by (apply not_eq_sym, evm_cro_ne).
    repeat match goal with
    | H : IntMod _ _ = _ |- _ => apply IntMod_inv in H as ->; [|done|done]
    | H : IntSub _ _ = _ |- _ => apply IntSub_inv in H as ->
    | H : IntQuo _ _ = _ |- _ => apply IntQuo_inv in H as ->; [|done|done]
    | H : NewCoin _ _ = _ |- _ => apply NewCoin_inv in H as [-> _]
    | H : SendCoinsFromModuleToAccount _ _ _ _ = _ |- _ => apply ModuleToAccount_ok in H as [Hm _]
    end.
    match goal with H : ibcSendTransfer _ _ _ _ _ = _ |- _ =>
      apply ibcSendTransfer_unnoticed in H; [|done]; apply unnoticed_uncovered in H; rewrite H end.
    eapply transfer_bank; [by eapply AccountToModule_ok|by eapply BurnCoins_ok|exact Hm|done| | |exact Ec].
    + match goal with H : NewCoins _ = _ |- _ => exact (single_amount_eq _ _ H) end.
    + rewrite Ee. cbn [Amount]. change TenPowTen with (10 ^ 10). pose proof (Z.div_mod (Amount c) (10 ^ 10)). lia.
  - destruct (negb _ && negb _); [done|]. intros Hr. runs. destruct (GetContractByDenom _ _); [|done].
    by apply unnoticed_uncovered, (ibcSendTransfer_unnoticed acc dest c ch).
Qed.

(** ** Between the calls of contracts *)

Definition pegged (s s' : Sys St W) : Prop := uncovered (world s') = uncovered (world s).

#[local] Instance pegged_preorder : PreOrder pegged.
Proof. split; unfold pegged; [done|congruence]. Qed.

Lemma unnoticed_pegged st st' w w' : unnoticed w w' -> pegged (mkSys st w) (mkSys st' w').
Proof. apply unnoticed_uncovered. Qed.

Lemma log_pegged l (s : Sys St W) : pegged s (mkSys (store s) (AddLog l (world s))).
Proof.
  destruct s as [st w]. apply unnoticed_pegged. destruct (log_added l w) as [Hb Hs]. split; [apply Hs|apply Hb].
Qed.

(** Runs that succeed; [P] rules calls out. *)
Local Abbreviation pegTraced P := (traced pegged false (fun _ => True) (fun _ => ~ (P : Prop))).

Lemma peg_traced (P : Prop) {A} (m : SE (Sys St W) A) s :
  (forall a s', m s = Some (Ok a, s') -> pegged s s') -> pegTraced P m s.
Proof.
  intros H. unfold traced. destruct (m s) as [[[a|e] s']|]; [|done|].
  - apply along_own. by eapply H.
  - exists s. split; [|done]. apply along_refl. apply _.
Qed.

Lemma bank_world (P : Prop) {A} (m : SE W A) (s : Sys St W) :
  (forall a w', m (world s) = Some (Ok a, w') -> unnoticed (world s) w') -> world_ok pegged false (fun _ => True) m s.
Proof.
  intros H. unfold world_ok. destruct (m (world s)) as [[[a|e] w']|] eqn:E; [|done..].
  destruct s as [st w]. apply unnoticed_pegged. by eapply H.
Qed.

Lemma ConvertVoucher_pegged (P : Prop) acc params c (s : Sys St W) :
  IbcCroDenom params = cro -> (P -> Denom c = cro) -> pegTraced P (ConvertVoucher acc params evm c) s.
Proof.
  intros Hc HP. destruct (decide (Denom c = cro)) as [Ed|Hd].
  { apply peg_traced. intros [] s' E. by eapply ConvertVoucher_cro. }
  unfold ConvertVoucher. rewrite bool_decide_false by congruence.
  apply ConvertCoin_traced; try done; [apply _|apply log_pegged|tauto|tauto|].
  intros Hv coins contract s1 Hn.
  assert (Denom c <> evm) as He by (intros E; by rewrite E, evm_denom in Hv).
  assert (amountOf cro coins = 0) as E1 by (by eapply single_amount).
  assert (amountOf evm coins = 0) as E2 by (by eapply single_amount).
  split_and!; apply (bank_world P); intros [] w' E.
  - eapply moved_unnoticed; [by eapply AccountToModule_ok|done].
  - eapply made_unnoticed; [by eapply BurnCoins_ok|done|done].
  - eapply moved_unnoticed; [by eapply SendCoins_ok|done].
Qed.

Lemma ConvertVouchers_pegged (P : Prop) from coins p (s : Sys St W) :
  GetParams (store s) = Some p -> IbcCroDenom p = cro -> EvmDenom (world s) = evm ->
  (P -> Forall (fun c => Denom c = cro) coins) -> pegTraced P (ConvertVouchersToEvmCoins from coins) s.
Proof.
  intros Hp Hc He HP. unfold ConvertVouchersToEvmCoins, getParams, getStore.
  apply traced_bind; [apply _|apply traced_orErr; apply _|]. intros acc _ [_ ->]%orErr_inv.
  unfold traced. rewrite SE_bind_ok with (a := p) (s' := s) by (rewrite SE_bind_gets; unfold compose; by rewrite Hp).
  rewrite SE_bind_gets, He. apply (traced_forM pegged). intros c s1 Hin _. apply ConvertVoucher_pegged; [done|].
  intros HP'. by apply (proj1 (Forall_forall _ _) (HP HP')).
Qed.
(** ** The ways in which CRO enters and leaves the EVM *)

Inductive CroOp :=
| OpConvert (msg : MsgConvertVouchers)
| OpTransfer (msg : MsgTransferTokens)
| OpReceive (channelVersion : string) (packet : Packet)
| OpAcknowledge (channelVersion : string) (packet : Packet) (acknowledgement : bytes)
| OpTimeout (channelVersion : string) (packet : Packet).

(** [false] for a packet answered with an error: ibc-go drops what it wrote. *)
Definition runCro (op : CroOp) : SE (Sys St W) bool :=
  match op with
  | OpConvert msg => _ ← ConvertVouchers msg; mret true
  | OpTransfer msg => _ ← TransferTokens msg; mret true
  | OpReceive v packet =>
      ack ← OnRecvPacket IBCDenom DenomHasPrefix UnmarshalPacketData app_OnRecvPacket v packet; mret (ackSuccess ack)
  | OpAcknowledge v packet a =>
      _ ← OnAcknowledgementPacket IBCDenom UnmarshalPacketData UnmarshalAck app_OnAcknowledgementPacket v packet a;
      mret true
  | OpTimeout v packet =>
      _ ← OnTimeoutPacket IBCDenom UnmarshalPacketData app_OnTimeoutPacket v packet; mret true
  end.

(** Amounts are not negative, and the module account signs no transfer. *)
Definition cro_op_ok (op : CroOp) : Prop :=
  match op with
  | OpTransfer msg => Forall (fun c => 0 <= Amount c) (ttCoins msg) /\ AccAddressFromBech32 (ttFrom msg) <> Ok moduleAccount
  | _ => True
  end.

(** No token contract takes part. *)
Definition only_cro (op : CroOp) : Prop :=
  match op with
  | OpConvert msg => Forall (fun c => Denom c = cro) (cvCoins msg)
  | OpTransfer msg => True
  | OpReceive v packet => forall data, UnmarshalPacketData (pkData packet) v = Ok data ->
      getIbcDenomFromPacketAndData IBCDenom DenomHasPrefix packet (tdToken data) = Some cro
  | OpAcknowledge v packet _ | OpTimeout v packet => forall data, UnmarshalPacketData (pkData packet) v = Ok data ->
      getIbcDenomFromDataForRefund IBCDenom (tdToken data) = cro
  end.

Lemma TransferTokens_pegged msg p (s : Sys St W) :
  GetParams (store s) = Some p -> IbcCroDenom p = cro -> EvmDenom (world s) = evm ->
  cro_op_ok (OpTransfer msg) -> pegTraced True (TransferTokens msg) s.
Proof.
  intros Hp Hc He [Hn Ha]. unfold TransferTokens, IbcTransferCoins, getParams, getStore.
  apply traced_bind; [apply _|apply traced_orErr; apply _|]. intros acc _ [Eacc ->]%orErr_inv.
  destruct (Nat.eqb _ 0); [apply traced_throw; apply _|].
  unfold traced. rewrite SE_bind_ok with (a := p) (s' := s) by (rewrite SE_bind_gets; unfold compose; by rewrite Hp).
  rewrite SE_bind_gets, He. apply (traced_forM pegged). intros c s1 Hin _. apply peg_traced. intros [] s' E.
  eapply IbcTransferCoin_peg; [done|by eapply Forall_forall in Hn| |done]. intros ->. by apply Ha.
Qed.

Lemma convertVouchers_pegged (P : Prop) amount sender receiver denom b p (s : Sys St W) :
  GetParams (store s) = Some p -> IbcCroDenom p = cro -> EvmDenom (world s) = evm -> (P -> denom = cro) ->
  pegTraced P (convertVouchers amount sender receiver denom b) s.
Proof.
  intros Hp Hc He HP. unfold convertVouchers. destruct (NewIntFromString amount) as [n|]; [|apply traced_throw; apply _].
  apply traced_bind; [apply _|apply traced_orPanic; [apply _|done]|]. intros coins _ [En ->]%orPanic_inv.
  assert (P -> Forall (fun c => Denom c = cro) coins) as Hcs.
  { intros HP'. apply bind_Some in En as (c & [-> _]%NewCoin_inv & [_ ->]%NewCoins_single).
    destruct (_ =? 0); [done|]. repeat constructor. by apply HP. }
  pose proof (ConvertVouchers_pegged P (if b then sender else receiver) coins p s Hp Hc He Hcs) as Ht.
  unfold OnRecvVouchers, cached. unfold traced in Ht |- *.
  destruct (ConvertVouchersToEvmCoins _ coins s) as [[[u|e] s']|]; [done| |done]. apply along_refl. apply _.
Qed.

Lemma canBeConverted_state denom (s s' : Sys St W) b : canBeConverted denom s = Some (Ok b, s') -> s' = s.
Proof.
  unfold canBeConverted, getParams. intros H. runs. case_bool_decide; runs; done.
Qed.

Lemma along_start (P : Prop) (s s1 s' : Sys St W) :
  ics20_step s s1 -> along pegged (fun _ => ~ P) s1 s' -> along pegged (fun _ => ~ P) s s'.
Proof.
  intros Hi. apply along_trans; [apply _|]. apply along_own. by apply unnoticed_uncovered, ics20_unnoticed.
Qed.

Lemma refund_pegged (P : Prop) v packet p (s s' : Sys St W) :
  GetParams (store s) = Some p -> IbcCroDenom p = cro -> EvmDenom (world s) = evm ->
  (P -> forall data, UnmarshalPacketData (pkData packet) v = Ok data -> getIbcDenomFromDataForRefund IBCDenom (tdToken data) = cro) ->
  refund IBCDenom UnmarshalPacketData v packet s = Some (Ok tt, s') -> along pegged (fun _ => ~ P) s s'.
Proof.
  intros Hp Hc He HP. unfold refund. intros H. runs.
  match goal with H : canBeConverted _ _ = _ |- _ => apply canBeConverted_state in H as -> end.
  case_match; runs; [|apply along_refl; apply _].
  eapply traced_along; [|eassumption]. eapply convertVouchers_pegged; [done..|]. intros HP'. by apply HP.
Qed.

Lemma runCro_pegged op p (s s' : Sys St W) :
  GetParams (store s) = Some p -> IbcCroDenom p = cro -> EvmDenom (world s) = evm -> cro_op_ok op ->
  runCro op s = Some (Ok true, s') -> along pegged (fun _ => ~ only_cro op) s s'.
Proof.
  intros Hp Hc He Hok. destruct op as [msg|msg|v packet|v packet a|v packet]; cbn [runCro]; intros H; runs.
  - eapply traced_along; [|eassumption]. by eapply ConvertVouchers_pegged.
  - eapply traced_along; [|eassumption]. by eapply TransferTokens_pegged.
  - unfold OnRecvPacket in *. runs.
    destruct (ackSuccess _) eqn:Ea; runs; [|congruence].
    match goal with H : app_OnRecvPacket _ _ _ = _ |- _ => pose proof (recv_ics20 _ _ _ _ _ H Ea) as Hi end.
    pose proof Hi as (Est & Eev & _). eapply along_start; [exact Hi|].
    destruct (UnmarshalPacketData (pkData packet) v) as [data|e] eqn:Eu; runs; [|by subst].
    match goal with H : canBeConverted _ _ = _ |- _ => apply canBeConverted_state in H as -> end.
    case_match; runs; [|apply along_refl; apply _].
    unfold ackOf in *. destruct (convertVouchers _ _ _ _ _ _) as [[[u|e] s2]|] eqn:Ec; simplify_eq.
    eapply traced_along; [|exact Ec]. eapply convertVouchers_pegged; [by rewrite Est|done|by rewrite Eev|].
    intros Ho. specialize (Ho data Eu). congruence.
  - unfold OnAcknowledgementPacket in *. runs.
    match goal with H : app_OnAcknowledgementPacket _ _ _ _ = _ |- _ => pose proof (ack_ics20 _ _ _ _ _ H) as Hi end.
    pose proof Hi as (Est & Eev & _). eapply along_start; [exact Hi|].
    destruct (UnmarshalAck a) as [[b|e]|e]; runs; [apply along_refl; apply _|].
    eapply refund_pegged; [by rewrite Est|done|by rewrite Eev| |eassumption]. done.
  - unfold OnTimeoutPacket in *. runs.
    match goal with H : app_OnTimeoutPacket _ _ _ = _ |- _ => pose proof (timeout_ics20 _ _ _ _ H) as Hi end.
    pose proof Hi as (Est & Eev & _). eapply along_start; [exact Hi|].
    eapply refund_pegged; [by rewrite Est|done|by rewrite Eev| |eassumption]. done.
Qed.

(** C8: the CRO peg.  Take any message that converts vouchers or transfers coins,
    with any list of coins, and any packet that is received, acknowledged or
    timed out, through the whole middleware.  Between the calls of contracts the
    supply of the EVM's coin minus 10^10 times the IBC CRO in the module account
    does not change: the calls the module makes, in its own name and without a
    value, account for all of the change.  A transfer, and a conversion of CRO
    only, make no call, so that no EVM coin is made without CRO being locked for it
    and no CRO is released without EVM coins being burned, the remainder of an
    amount below 10^10 included. *)
Theorem cro_peg op p (s s' : Sys St W) :
  GetParams (store s) = Some p -> IbcCroDenom p = cro -> EvmDenom (world s) = evm -> cro_op_ok op ->
  runCro op s = Some (Ok true, s') ->
  exists evs, path pegged evs s s' /\ (only_cro op -> evs = []) /\
    uncovered (world s') = uncovered (world s) + foldr Z.add 0
      ((fun ev => uncovered (world (callAfter (eventCall ev))) - uncovered (world (callBefore (eventCall ev)))) <$> evs).
Proof.
  intros Hp Hc He Hok E. destruct (runCro_pegged op p s s' Hp Hc He Hok E) as (evs & Hpath & Hall).
  exists evs. split; [done|]. split; [|by apply (path_total pegged (fun s => uncovered (world s)))].
  intros Ho. destruct Hall as [|ev evs Hev _]; [done|by destruct (Hev Ho)].
Qed.

End Peg.

(** ** A concrete chain: accounts, supplies and token contracts in finite maps *)

Record Ledger := mkLedger {
  lBal : gmap (bytes * string) Z; lSup : gmap string Z; lNonce : Z; lTok : gmap bytes (CRC21 bytes) }.

Fixpoint shiftBal (a : bytes) (k : Z) (cs : Coins) (m : gmap (bytes * string) Z) : gmap (bytes * string) Z :=
  match cs with
  | [] => m
  | c :: cs => let m := shiftBal a k cs m in <[(a, Denom c) := default 0 (m !! (a, Denom c)) + k * Amount c]> m
  end.

Fixpoint shiftSup (k : Z) (cs : Coins) (m : gmap string Z) : gmap string Z :=
  match cs with
  | [] => m
  | c :: cs => let m := shiftSup k cs m in <[Denom c := default 0 (m !! Denom c) + k * Amount c]> m
  end.

Lemma shiftBal_get a k cs m x d :
  default 0 (shiftBal a k cs m !! (x, d)) = default 0 (m !! (x, d)) + on a x (k * amountOf d cs).
Proof.
  unfold on. induction cs as [|c cs IH].
  - cbn. case_bool_decide; lia.
  - cbn -[Z.mul]. fold (amountOf d cs). destruct (decide ((x, d) = (a, Denom c))) as [E|E].
    + injection E as -> ->. rewrite lookup_insert_eq. cbn -[Z.mul]. rewrite bool_decide_true in * by done.
      rewrite (bool_decide_true (Denom c = Denom c)) by done. rewrite IH. lia.
    + rewrite lookup_insert_ne by done. rewrite IH. case_bool_decide; [subst|done].
      rewrite bool_decide_false; [lia|congruence].
Qed.

Lemma shiftSup_get k cs m d : default 0 (shiftSup k cs m !! d) = default 0 (m !! d) + k * amountOf d cs.
Proof.
  induction cs as [|c cs IH]; cbn -[Z.mul]; [lia|]. fold (amountOf d cs). case_bool_decide as E.
  - subst. rewrite lookup_insert_eq. cbn -[Z.mul]. rewrite IH. lia.
  - rewrite lookup_insert_ne by done. rewrite IH. lia.
Qed.

Definition enough (a : bytes) (cs : Coins) (w : Ledger) : bool :=
  forallb (fun c => amountOf (Denom c) cs <=? default 0 (lBal w !! (a, Denom c))) cs.

Definition setBal (w : Ledger) (m : gmap (bytes * string) Z) : Ledger := mkLedger m (lSup w) (lNonce w) (lTok w).

Definition ledgerSend (a b : bytes) (cs : Coins) : SE Ledger unit := fun w =>
  if enough a cs w then Some (Ok tt, setBal w (shiftBal b 1 cs (shiftBal a (-1) cs (lBal w))))
  else Some (Err "insufficient funds", w).

Definition ledgerMake (k : Z) (a : bytes) (cs : Coins) : SE Ledger unit := fun w =>
  if (0 <? k) || enough a cs w
  then Some (Ok tt, mkLedger (shiftBal a k cs (lBal w)) (shiftSup k cs (lSup w)) (lNonce w) (lTok w))
  else Some (Err "insufficient funds", w).

(** Calls are encoded as one byte for the method, the address and the amount. *)
Definition methodCode (method : string) : byte :=
  if String.eqb method "mint_by_cronos_module" then x01
  else if String.eqb method "burn_by_cronos_module" then x02
  else if String.eqb method "transfer_by_cronos_module" then x03
  else if String.eqb method "transfer_from_cronos_module" then x04 else x00.

Definition decodeCall (data : bytes) : option (crc21Call (U := bytes * Z)) :=
  match data with
  | k :: rest =>
      let a := take AddressLength rest in
      let n := le_val (drop AddressLength rest) in
      if bool_decide (k = x01) then Some (MintByModule a n)
      else if bool_decide (k = x02) then Some (BurnByModule a n)
      else if bool_decide (k = x03) then Some (TransferByModule a n)
      else if bool_decide (k = x04) then Some (TransferFromModule a n) else None
  | [] => None
  end.

Definition okResult : EVMResult := mkEVMResult [] [] false.
Definition failedResult : EVMResult := mkEVMResult [] [] true.

Definition setTok (c : bytes) (t : CRC21 bytes) (w : Ledger) : Ledger :=
  mkLedger (lBal w) (lSup w) (lNonce w + 1) (<[c := t]> (lTok w)).

Section Chain.
#[local] Existing Instance plain_libs.
Context {St : Type}.

Definition ledgerApply (msg : Message) : SE (Sys St Ledger) EVMResult := fun s =>
  match msgTo msg with
  | None =>
      match msgData msg with
      | x60 :: ctor =>
          let c := CreateAddress (msgFrom msg) (msgNonce msg) in
          Some (Ok okResult,
                mkSys (store s) (setTok c (newCRC21 c (msgFrom msg) (string_of_bytes ctor) 0 false) (world s)))
      | _ => Some (Ok failedResult, s)
      end
  | Some c =>
      match lTok (world s) !! c, decodeCall (msgData msg) with
      | Some t, Some call =>
          match crc21_exec (msgFrom msg) call t with
          | Some (t, _) => Some (Ok okResult, mkSys (store s) (setTok c t (world s)))
          | None => Some (Ok failedResult, s)
          end
      | _, _ => Some (Ok failedResult, s)
      end
  end.

Definition ledger_bank : BankKeeper Ledger := {|
  SendCoins := ledgerSend;
  SendCoinsFromModuleToAccount m b cs :=
    if bool_decide (b = NewModuleAddress ModuleName) then throw "unauthorized" else ledgerSend (NewModuleAddress m) b cs;
  SendCoinsFromAccountToModule a m := ledgerSend a (NewModuleAddress m);
  MintCoins m := ledgerMake 1 (NewModuleAddress m);
  BurnCoins m := ledgerMake (-1) (NewModuleAddress m);
  balance w a d := default 0 (lBal w !! (a, d));
  supply w d := default 0 (lSup w !! d)
|}.

Definition ledger_evm : EvmKeeper St Ledger := {|
  GetNonce a w := lNonce w;
  ApplyMessage := ledgerApply;
  EvmDenom w := "basecro";
  inStateDB w := false;
  AddLog l w := w;
  Pack method args :=
    match args with
    | [AAddress a; AUint256 n] => Ok (methodCode method :: a ++ le_bytes 32 n)
    | AString d :: _ => Ok (bytes_of_string d)
    | _ => Err "abi"
    end;
  ModuleCRC21Bin := [x60];
  PackOnPacketResult ch seq ok := Ok []
|}.

Definition ledger_transfer : TransferKeeper Ledger := {|
  Transfer msg w :=
    match AccAddressFromBech32 (trSender msg) with
    | Ok acc => ledgerMake (-1) acc [trToken msg] w
    | Err e => Some (Err e, w)
    end;
  GetDenom hash w := Some (mkIbcDenom "basecro" [mkHop TransferPortID "channel-0"]);
  ParseHexHash s := Ok (bytes_of_string s);
  IsValidChannelID s := HasPrefix s "channel-";
  BlockTimeUnixNano w := 0
|}.

End Chain.

Section ChainLaws.
#[local] Existing Instance plain_libs.
#[local] Existing Instance plain_libs_laws.
#[local] Existing Instance ledger_bank.
#[local] Existing Instance ledger_evm.

Lemma ledgerSend_moved a b cs (w w' : Ledger) : ledgerSend a b cs w = Some (Ok tt, w') -> moved a b cs w w'.
Proof.
  unfold ledgerSend. destruct (enough a cs w); [|done]. intros [= <-]. split; [|done]. intros x d. cbn -[Z.mul].
  rewrite !shiftBal_get. unfold on. repeat case_bool_decide; lia.
Qed.

Lemma ledgerMake_made k a cs (w w' : Ledger) : ledgerMake k a cs w = Some (Ok tt, w') -> made k a cs w w'.
Proof.
  unfold ledgerMake. destruct (_ || _); [|done]. intros [= <-]. split; [intros x d|intros d]; cbn -[Z.mul].
  - apply shiftBal_get.
  - apply shiftSup_get.
Qed.

#[local] Instance ledger_laws : BankLaws Ledger (fun a => a = NewModuleAddress ModuleName).
Proof.
  split; cbn -[Sha256.Sum256 ledgerMake ledgerSend].
  - apply ledgerSend_moved.
  - intros m b cs w w'. case_bool_decide; [done|]. intros Hm. split; [by apply ledgerSend_moved|done].
  - intros a m. apply ledgerSend_moved.
  - intros m. apply ledgerMake_made.
  - intros m. apply ledgerMake_made.
Qed.

Lemma plain_FromBech32_String a acc : AccAddressFromBech32 (AccAddressString a) = Ok acc -> acc = a.
Proof.
  destruct a as [|x a]; [done|]. unfold AccAddressFromBech32, AccAddressString. cbn -[trimPrefix hex_encode hex_decode].
  rewrite trimPrefix_app. cbn -[hex_encode hex_decode]. rewrite hex_decode_encode. by intros [= <-].
Qed.

(** A chain that only transfers vouchers: they are burned when they leave, and
    minted when they come. *)
#[local] Instance voucher_transfer : TransferKeeper Ledger := {|
  Transfer msg w :=
    match AccAddressFromBech32 (trSender msg) with
    | Ok acc =>
        if IsValidIBCDenom (Denom (trToken msg)) then ledgerMake (-1) acc [trToken msg] w
        else Some (Err "not a voucher", w)
    | Err e => Some (Err e, w)
    end;
  GetDenom := @GetDenom _ ledger_transfer;
  ParseHexHash := @ParseHexHash _ ledger_transfer;
  IsValidChannelID := @IsValidChannelID _ ledger_transfer;
  BlockTimeUnixNano := @BlockTimeUnixNano _ ledger_transfer
|}.

Lemma voucher_sends (msg : MsgTransfer) (acc : bytes) (w w' : Ledger) :
  Transfer msg w = Some (Ok tt, w') -> trSender msg = AccAddressString acc -> sent acc (trToken msg) w w'.
Proof.
  intros Ht Hs. change (Transfer msg w) with
    (match AccAddressFromBech32 (trSender msg) with
     | Ok acc => if IsValidIBCDenom (Denom (trToken msg)) then ledgerMake (-1) acc [trToken msg] w
                 else Some (Err "not a voucher", w)
     | Err e => Some (Err e, w) end) in Ht.
  rewrite Hs in Ht. destruct (AccAddressFromBech32 (AccAddressString acc)) as [acc'|] eqn:Ea; [|done].
  apply plain_FromBech32_String in Ea as ->. destruct (IsValidIBCDenom _) eqn:Ed; [|done].
  right. split; [done|]. by apply ledgerMake_made.
Qed.

Lemma ledger_logs (l : Log) (w : Ledger) : same_coins w (AddLog (St := gmap bytes bytes) l w).
Proof. by split. Qed.

(** A packet brings five IBC CRO to an account, and the middleware converts them. *)
Definition ex_holder : bytes := toAddress [x07].
Definition ex_chain : Sys (gmap bytes bytes) Ledger :=
  mkSys (default ∅ (CronosKeeper.must (SetParams DefaultParams ∅))) (mkLedger ∅ ∅ 0 ∅).

Definition ex_packet : Packet := mkPacket 1 TransferPortID "channel-7" TransferPortID "channel-0" [].
Definition ex_data (b : bytes) (v : string) : result TransferData :=
  Ok (mkTransferData (mkPacketToken (mkIbcDenom "basecro" []) "12345") "cro1" (AccAddressString ex_holder)).

Definition ex_app : SE (Sys (gmap bytes bytes) Ledger) AckResponse :=
  _ ← onWorld (ledgerMake 1 ex_holder [mkCoin IbcCroDenomDefaultValue 5]); mret (AckResult [x01]).

Lemma ex_app_ics20 (v : string) (packet : Packet) s ack s' :
  ex_app s = Some (Ok ack, s') -> ackSuccess ack = true ->
  ics20_step (fun a => a = NewModuleAddress ModuleName) s s'.
Proof.
  unfold ex_app. intros H _. runs. split; [done|]. split; [done|]. right.
  exists ex_holder, (mkCoin IbcCroDenomDefaultValue 5). split; [by vm_compute|]. right. split; [done|].
  by apply ledgerMake_made.
Qed.

Lemma idle_ics20 (s s' : Sys (gmap bytes bytes) Ledger) :
  (mret tt : SE _ unit) s = Some (Ok tt, s') -> ics20_step (fun a => a = NewModuleAddress ModuleName) s s'.
Proof. intros [= <-]. split; [done|]. split; [done|]. by left. Qed.

Definition ex_op : CroOp := OpReceive "ics20-1" ex_packet.

Definition ex_run : SE (Sys (gmap bytes bytes) Ledger) bool :=
  runCro (fun _ => IbcCroDenomDefaultValue) (fun _ _ _ => false) ex_data (fun _ => Err "ack") (fun _ _ => ex_app)
    (fun _ _ _ => mret tt) (fun _ _ => mret tt) ex_op.

(** The run succeeds and leaves the coins minted. *)
Definition ex_minted (r : option (result bool * Sys (gmap bytes bytes) Ledger)) : bool :=
  match r with Some (Ok true, s) => supply (world s) "basecro" =? 5 * 10 ^ 10 | _ => false end.

Lemma ex_minted_inv r :
  ex_minted r = true -> exists s, r = Some (Ok true, s) /\ supply (world s) "basecro" = 5 * 10 ^ 10.
Proof. destruct r as [[[[]|] s]|]; [|done..]. intros E%Z.eqb_eq. by exists s. Qed.

Lemma cro_peg_witness :
  exists s', ex_run ex_chain = Some (Ok true, s') /\ supply (world s') "basecro" = 5 * 10 ^ 10 /\
    uncovered "basecro" IbcCroDenomDefaultValue (world s') = uncovered "basecro" IbcCroDenomDefaultValue (world ex_chain).
Proof.
  destruct (ex_minted_inv (ex_run ex_chain)) as (s' & E & Hs); [vm_compute; reflexivity|].
  exists s'. split; [exact E|]. split; [exact Hs|].
  destruct (cro_peg (fun a => a = NewModuleAddress ModuleName) "basecro" IbcCroDenomDefaultValue
    (fun _ => IbcCroDenomDefaultValue) (fun _ _ _ => false) ex_data (fun _ => Err "ack") (fun _ _ => ex_app)
    (fun _ _ _ => mret tt) (fun _ _ => mret tt)
    eq_refl eq_refl eq_refl ledger_logs voucher_sends ex_app_ics20
    (fun _ _ _ => idle_ics20) (fun _ _ => idle_ics20) ex_op DefaultParams ex_chain s')
    as (evs & _ & Hevs & Hu); [vm_compute; reflexivity|reflexivity|reflexivity|exact I|exact E|].
  rewrite Hevs in Hu; [rewrite Hu; apply Z.add_0_r|]. intros data _. reflexivity.
Defined.

End ChainLaws.
