(* ===== verification/CronosMsgs.v ===== *)
(** * The messages of the cronos module

    All handlers of the message server ([keeper/msg_server.go]) and the governance
    handler ([keeper/proposal_handler.go]): who can change which entry of the
    module's store, and that the store stays well typed.  Converting vouchers calls
    contracts, so what it does is given with the calls on its path. *)

From S2P Require Import Prelude KV Binary Proto Ctx CronosTypes CronosKeeper CronosBridge CronosPath.
From S2P Require Import Crc21 CronosPeg.
From Stdlib Require Import Strings.Byte.

Open Scope string_scope.
Open Scope Z_scope.
Open Scope list_scope.

(** ** The handlers *)

Inductive Msg :=
| ConvertVouchersMsg (m : MsgConvertVouchers)
| TransferTokensMsg (m : MsgTransferTokens)
| TokenMappingMsg (m : MsgUpdateTokenMapping)
| TurnBridgeMsg (m : MsgTurnBridge)
| ParamsMsg (m : MsgUpdateParams)
| PermissionsMsg (m : MsgUpdatePermissions)
| BlockListMsg (m : MsgStoreBlockList)
| ProposalMsg (c : Content).

Section Messages.
Context {L : Libs} {LL : LibsLaws} {St : Type} {KS : KVStore St} {KL : KVStoreLaws St}.
Context {W : Type} {BM : BankMetadata W} {BK : BankKeeper W} {EK : EvmKeeper St W} {TK : TransferKeeper W}.
Context (unicodeToLower : string -> string) (authority : string).
Implicit Types s : Sys St W.

Definition handle (msg : Msg) : SE (Sys St W) unit :=
  match msg with
  | ConvertVouchersMsg m => ConvertVouchers m
  | TransferTokensMsg m => TransferTokens m
  | TokenMappingMsg m => UpdateTokenMapping unicodeToLower m
  | TurnBridgeMsg m => TurnBridge m
  | ParamsMsg m => UpdateParams authority m
  | PermissionsMsg m => UpdatePermissions m
  | BlockListMsg m => StoreBlockList m
  | ProposalMsg c => TokenMappingChangeProposalHandler unicodeToLower c
  end.

(** ** Paths on which the module's store stays *)

Definition same_store s s' : Prop := store s' = store s.

#[local] Instance same_store_preorder : PreOrder same_store.
Proof. split; unfold same_store; [done|congruence]. Qed.

(** A deployment on the way of a conversion: automatic deployment is on, and the
    denomination is that of a coin in the message, valid and not CRO. *)
Definition deploys (m : MsgConvertVouchers) s (ev : event St W) : Prop :=
  match ev with
  | Called _ => True
  | Deployed _ d => exists p, GetParams (store s) = Some p /\ EnableAutoDeployment p = true /\
      IsValidCoinDenom d = true /\ d <> IbcCroDenom p /\ d ∈ Denom <$> cvCoins m
  end.

(** The calls of contracts on the way from one state to another. *)
Definition events (msg : Msg) (evs : list (event St W)) s s' : Prop :=
  match msg with
  | ConvertVouchersMsg m => path same_store evs s s' /\ Forall (deploys m s) evs
  | TransferTokensMsg _ => evs = [] /\ same_store s s'
  | _ => evs = []
  end.

(** ** When a handler panics *)

(** A keeper of another module panics. *)
Definition keeper_panics s : Prop :=
  (exists msg, msgFrom msg = EVMModuleAddress /\ ApplyMessage msg s = None) \/
  (exists a b cs, SendCoins a b cs (world s) = None) \/
  (exists b cs, SendCoinsFromModuleToAccount ModuleName b cs (world s) = None) \/
  (exists a cs, SendCoinsFromAccountToModule a ModuleName cs (world s) = None) \/
  (exists cs, MintCoins ModuleName cs (world s) = None) \/
  (exists cs, BurnCoins ModuleName cs (world s) = None) \/
  (exists msg, Transfer msg (world s) = None).

(** The voucher is known to IBC without a trace. *)
Definition emptyTrace (d : string) s : Prop :=
  exists port hash b t, splitSlash d "" = [port; hash] /\ ParseHexHash hash = Ok b /\
    GetDenom b (world s) = Some t /\ denomTrace t = [].

(** A message handled from [s0] panics at [s]: only those that move coins do, when
    a keeper panics, the amount is too large for an [sdkmath.Int] of the EVM's
    coin, a denomination of the parameters cannot be that of a coin, or a voucher
    has no trace. *)
Definition panics (msg : Msg) s0 s : Prop :=
  exists p, GetParams (store s0) = Some p /\
  match msg with
  | ConvertVouchersMsg m =>
      keeper_panics s \/
      exists c, c ∈ cvCoins m /\ Denom c = IbcCroDenom p /\
        (2 ^ 256 <= Amount c * 10 ^ 10 \/ NewCoin (EvmDenom (world s0)) (Amount c * 10 ^ 10) = None)
  | TransferTokensMsg m =>
      keeper_panics s \/
      exists c, c ∈ ttCoins m /\
        (Denom c = EvmDenom (world s0) /\
           (NewCoin (EvmDenom (world s0)) (Amount c - Amount c mod 10 ^ 10) = None \/
            NewCoin (IbcCroDenom p) (Amount c / 10 ^ 10) = None \/ emptyTrace (IbcCroDenom p) s) \/
         emptyTrace (Denom c) s)
  | _ => False
  end.

(** What validation and the decoding of a message ensure: an [sdkmath.Int] has at
    most 256 bits. *)
Definition msg_ok (msg : Msg) : Prop :=
  match msg with
  | ConvertVouchersMsg m => MsgConvertVouchers_ValidateBasic m = Ok tt /\ Forall (fun c => Amount c < 2 ^ 256) (cvCoins m)
  | TransferTokensMsg m => MsgTransferTokens_ValidateBasic m = Ok tt /\ Forall (fun c => Amount c < 2 ^ 256) (ttCoins m)
  | TokenMappingMsg m => MsgUpdateTokenMapping_ValidateBasic m = Ok tt
  | ParamsMsg m => Params_wf (upParams m)
  | BlockListMsg m => is_Some (blBlob m)
  | _ => True
  end.

Lemma valid_coin cs c : CoinsIsValid cs = true -> c ∈ cs -> NewCoins [c] = Some [c] /\ 0 <= Amount c.
Proof.
  intros Hv Hin. pose proof (CoinsIsValid_single cs c Hv Hin) as E. split; [done|]. by apply NewCoins_single in E as [? _].
Qed.

Lemma convert_valid m : MsgConvertVouchers_ValidateBasic m = Ok tt -> CoinsIsValid (cvCoins m) = true.
Proof.
  unfold MsgConvertVouchers_ValidateBasic. destruct (checkBech32 _); [|done]. sbind. by destruct (CoinsIsValid _).
Qed.

Lemma transfer_valid m : MsgTransferTokens_ValidateBasic m = Ok tt -> CoinsIsValid (ttCoins m) = true.
Proof.
  unfold MsgTransferTokens_ValidateBasic. destruct (checkBech32 _); [|done]. sbind. by destruct (CoinsIsValid _).
Qed.

(** *** The two messages that move coins, step by step *)

Section Moving.
Context (stuck : Sys St W -> Prop) (allowed : event St W -> Prop).
Hypothesis keeper_stuck : forall s, keeper_panics s -> stuck s.
Hypothesis calls_allowed : forall c, allowed (Called c).

Local Abbreviation tr := (traced same_store true stuck allowed).

Lemma onWorld_traced {A} (m : SE W A) s : (m (world s) = None -> keeper_panics s) -> tr (onWorld m) s.
Proof.
  intros Hm. apply traced_onWorld; [apply _|]. unfold world_ok.
  destruct (m (world s)) as [[[a|e] w]|]; [done|done|auto].
Qed.

Lemma newCoins_traced d n s : (NewCoin d n = None -> stuck s) -> tr (newCoins d n) s.
Proof.
  intros Hs. apply traced_orPanic; [apply _|]. intros E. destruct (NewCoin d n) as [c|] eqn:Ec; [|by apply Hs].
  cbn in E. destruct (NewCoins_NewCoin d n c Ec). congruence.
Qed.

Lemma keeper_log l s : same_store s (mkSys (store s) (AddLog l (world s))).
Proof. done. Qed.

Lemma evm_stuck msg s : msgFrom msg = EVMModuleAddress -> ApplyMessage msg s = None -> stuck s.
Proof. intros Hf E. apply keeper_stuck. left. by exists msg. Qed.

Lemma ConvertVoucher_traced acc params evmDenom c s :
  (NewCoins [c] = None -> forall s, stuck s) ->
  (Denom c = IbcCroDenom params -> IntMul (Amount c) TenPowTen = None \/ NewCoin evmDenom (Amount c * 10 ^ 10) = None ->
    forall s, stuck s) ->
  (Denom c <> IbcCroDenom params -> IsValidCoinDenom (Denom c) = true -> EnableAutoDeployment params = true ->
    forall call, allowed (Deployed call (Denom c))) ->
  tr (ConvertVoucher acc params evmDenom c) s.
Proof.
  intros Hn Hs Hd. unfold ConvertVoucher. case_bool_decide as Ed.
  - specialize (Hs Ed). case_bool_decide; [apply traced_throw; apply _|].
    apply traced_bind; [apply _|apply traced_orPanic; [apply _|auto]|]. intros coins s0 _.
    apply traced_bind; [apply _|apply onWorld_traced; unfold keeper_panics; eauto 10|]. intros _ s1 _.
    apply traced_bind; [apply _|apply traced_orPanic; [apply _|auto]|].
    intros n s2 [->%IntMul_inv _]%orPanic_inv.
    apply traced_bind; [apply _|apply newCoins_traced; intros En; apply Hs; by right|]. intros amount s3 _.
    apply traced_bind; [apply _|apply onWorld_traced; unfold keeper_panics; eauto 10|]. intros _ s4 _.
    apply onWorld_traced. unfold keeper_panics. eauto 10.
  - apply ConvertCoin_traced; [apply _|apply keeper_log|apply evm_stuck|apply calls_allowed|auto|auto|].
    intros _ coins contract s1 _. unfold world_ok, keeper_panics in *.
    split_and!; match goal with |- match ?x with _ => _ end => destruct x as [[[a|e] w]|] eqn:E end;
      try done; apply keeper_stuck; eauto 10.
Qed.

Lemma GetSourceChannelID_traced d s : (emptyTrace d s -> stuck s) -> tr (GetSourceChannelID d) s.
Proof.
  intros Hs. unfold GetSourceChannelID, emptyTrace in *.
  destruct (splitSlash d "") as [|port [|hash [|]]]; try (apply traced_throw; apply _).
  destruct (ParseHexHash hash) as [b|] eqn:Eb; [|apply traced_throw; apply _].
  apply traced_bind; [apply _|apply traced_gets; apply _|]. intros found _ [-> ->]%gets_inv.
  destruct (GetDenom b (world s)) as [t|] eqn:Et; [|apply traced_throw; apply _].
  apply traced_bind; [apply _|apply traced_orPanic; [apply _|]|intros; apply traced_mret; apply _].
  intros Eh. apply Hs. exists port, hash, b, t. split_and!; try done. by destruct (denomTrace t).
Qed.

Lemma ibcSendTransfer_traced acc dest c ch p s :
  GetParams (store s) = Some p -> (emptyTrace (Denom c) s -> stuck s) -> tr (ibcSendTransfer acc dest c ch) s.
Proof.
  intros Hp Hs. unfold ibcSendTransfer, getParams, getStore. apply traced_bind; [apply _| |].
  { destruct (IsSourceCoin (Denom c)); [|by apply GetSourceChannelID_traced].
    destruct (negb _); [apply traced_throw; apply _|apply traced_mret; apply _]. }
  intros channel s1 E. assert (s1 = s) as ->.
  { destruct (IsSourceCoin (Denom c)); [destruct (negb _); by runs|by eapply GetSourceChannelID_state]. }
  unfold traced. rewrite SE_bind_ok with (a := p) (s' := s) by (rewrite SE_bind_gets; unfold compose; by rewrite Hp).
  rewrite SE_bind_gets. cbn zeta. apply onWorld_traced. unfold keeper_panics. eauto 10.
Qed.

Lemma IbcTransferCoin_traced acc dest params evmDenom ch c p s :
  GetParams (store s) = Some p -> 0 <= Amount c < 2 ^ 256 ->
  (Denom c = evmDenom -> NewCoin evmDenom (Amount c - Amount c mod 10 ^ 10) = None \/
     NewCoin (IbcCroDenom params) (Amount c / 10 ^ 10) = None -> forall s, stuck s) ->
  (Denom c = evmDenom -> forall s, emptyTrace (IbcCroDenom params) s -> stuck s) ->
  (forall s, emptyTrace (Denom c) s -> stuck s) ->
  tr (IbcTransferCoin acc dest params evmDenom ch c) s.
Proof.
  intros Hp Ha Hn Hcro Htr. unfold IbcTransferCoin. change TenPowTen with (10 ^ 10). case_bool_decide as Ed.
  - specialize (Hn Ed). specialize (Hcro Ed). rewrite IntMod_some by lia.
    apply traced_bind; [apply _|apply traced_mret; apply _|]. intros r _ [<- ->]%mret_inv.
    pose proof (Z.mod_pos_bound (Amount c) (10 ^ 10)). pose proof (Z.mod_le (Amount c) (10 ^ 10)).
    rewrite IntSub_some by lia. apply traced_bind; [apply _|apply traced_mret; apply _|]. intros b _ [<- ->]%mret_inv.
    destruct (_ =? 0); [apply traced_mret; apply _|].
    apply traced_bind; [apply _|apply newCoins_traced; auto|]. intros coins _ [_ ->]%orPanic_inv.
    apply traced_bind; [apply _|apply onWorld_traced; unfold keeper_panics; eauto 10|]. intros _ _ (w1 & _ & ->)%onWorld_inv.
    apply traced_bind; [apply _|apply onWorld_traced; unfold keeper_panics; eauto 10|]. intros _ _ (w2 & _ & ->)%onWorld_inv.
    rewrite IntQuo_some by lia. apply traced_bind; [apply _|apply traced_mret; apply _|]. intros q _ [<- ->]%mret_inv.
    apply traced_bind; [apply _|apply traced_orPanic; [apply _|auto]|]. intros ibcCoin _ [Ec ->]%orPanic_inv.
    destruct (NewCoins_NewCoin _ _ _ Ec) as [ibcCoins Ei]. rewrite Ei. apply NewCoin_inv in Ec as [-> _].
    apply traced_bind; [apply _|apply traced_mret; apply _|]. intros x _ [<- ->]%mret_inv.
    apply traced_bind; [apply _|apply onWorld_traced; unfold keeper_panics; eauto 10|]. intros _ _ (w3 & _ & ->)%onWorld_inv.
    eapply ibcSendTransfer_traced; [exact Hp|]. cbn [Denom]. auto.
  - destruct (negb _ && negb _); [apply traced_throw; apply _|].
    apply traced_bind; [apply _|apply traced_getStore; apply _|]. intros found _ [-> ->]%getStore_inv.
    destruct (GetContractByDenom _ _); [|apply traced_throw; apply _]. eapply ibcSendTransfer_traced; [exact Hp|auto].
Qed.

End Moving.
(** *** The two messages *)

Lemma ConvertVouchers_traced (stuck : Sys St W -> Prop) m s :
  (forall s, keeper_panics s -> stuck s) -> (GetParams (store s) = None -> stuck s) ->
  (forall p c, GetParams (store s) = Some p -> c ∈ cvCoins m ->
    NewCoins [c] = None \/ Denom c = IbcCroDenom p /\
      (IntMul (Amount c) TenPowTen = None \/ NewCoin (EvmDenom (world s)) (Amount c * 10 ^ 10) = None) ->
    forall s, stuck s) ->
  traced same_store true stuck (deploys m s) (ConvertVouchers m) s.
Proof.
  intros Hk Hp Hc. unfold ConvertVouchers, ConvertVouchersToEvmCoins, getParams.
  apply traced_bind; [apply _|apply traced_orErr; apply _|]. intros acc _ [_ ->]%orErr_inv.
  apply traced_bind; [apply _| |].
  { apply traced_bind; [apply _|apply traced_getStore; apply _|]. intros x _ [-> ->]%getStore_inv.
    apply traced_orPanic; [apply _|done]. }
  intros p s1 Ep. runs. apply traced_bind; [apply _|apply traced_gets; apply _|]. intros d _ [-> ->]%gets_inv.
  apply traced_forM; [apply _|]. intros c s1 Hin _.
  apply ConvertVoucher_traced; [done|done| | |].
  - intros En. eapply Hc; [done|done|by left].
  - intros Ed Ho. eapply Hc; [done|done|by right].
  - intros Hd Hv Ha call. exists p. split_and!; try done. by apply list_elem_of_fmap_2.
Qed.

(** Without events the store stays. *)
Lemma along_nothing s s' : along same_store (fun _ => False) s s' -> same_store s s'.
Proof. intros (evs & Hp & Hn). destruct Hn; [|done]. by inversion Hp. Qed.

Lemma TransferTokens_traced m s p :
  GetParams (store s) = Some p -> msg_ok (TransferTokensMsg m) ->
  traced same_store true (panics (TransferTokensMsg m) s) (fun _ => False) (TransferTokens m) s.
Proof.
  intros Hp [Hv%transfer_valid Hsz]. unfold TransferTokens, IbcTransferCoins, getParams, getStore.
  apply traced_bind; [apply _|apply traced_orErr; apply _|]. intros acc _ [_ ->]%orErr_inv.
  destruct (Nat.eqb _ 0); [apply traced_throw; apply _|].
  unfold traced. rewrite SE_bind_ok with (a := p) (s' := s) by (rewrite SE_bind_gets; unfold compose; by rewrite Hp).
  rewrite SE_bind_gets. apply (traced_forM same_store). intros c s1 Hin Hs1%along_nothing.
  destruct (valid_coin _ c Hv Hin) as [_ Ha]. pose proof (proj1 (Forall_forall _ _) Hsz c Hin) as Hlt. cbn in Hlt.
  apply IbcTransferCoin_traced with (p := p); [|by rewrite Hs1|done|..].
  - intros s2 Hk. exists p. split; [done|by left].
  - intros Ed Ho s2. exists p. split; [done|]. right. exists c. split; [done|]. left. split; [done|]. tauto.
  - intros Ed s2 He. exists p. split; [done|]. right. exists c. split; [done|]. left. split; [done|]. tauto.
  - intros s2 He. exists p. split; [done|]. right. exists c. split; [done|]. by right.
Qed.

(** ** The invariant *)

(** The contract that is called leaves the registry in order; the module's own
    contract, when it is deployed, does not map its denomination, and its address
    is not in use. *)
Definition event_safe (ev : event St W) : Prop :=
  let c := eventCall ev in
  (registry_inv (store (callBefore c)) -> registry_inv (store (callAfter c))) /\
  match ev with
  | Called _ => True
  | Deployed c d =>
      getAutoContractByDenom d (store (callAfter c)) = None /\ GetDenomByContract (newAddress c) (store (callAfter c)) = None
  end.

Lemma path_registry m s0 evs s s' :
  path same_store evs s s' -> Forall (deploys m s0) evs -> Forall event_safe evs ->
  registry_inv (store s) -> registry_inv (store s').
Proof.
  intros Hp. induction Hp as [s s' H|c s s' evs H Hc Hp IH|c d s s1 s' evs H Hg Hc Hn H1 Hp IH];
    intros Hd Hs Hi; unfold same_store in *.
  - by rewrite H.
  - apply Forall_cons in Hd as [_ Hd], Hs as [[Hs _] Hs']. cbn in Hs. apply IH; [done..|]. apply Hs. by rewrite H.
  - apply Forall_cons in Hd as [(p & _ & _ & Hv & _) Hd], Hs as [(Hs & Hau & Hdn) Hs']. cbn in Hs, Hau, Hdn.
    apply IH; [done..|]. cbn [register store]. rewrite H1. apply SetAuto_inv; try done.
    + by apply IsValidCoinDenom_nonempty.
    + apply CreateAddress_length.
    + apply Hs. by rewrite H.
Qed.

Lemma traced_match {A} stuck allowed (m : SE (Sys St W) A) s :
  traced same_store true stuck allowed m s ->
  match m s with
  | Some (r, s') => along same_store allowed s s'
  | None => exists s1, along same_store allowed s s1 /\ stuck s1
  end.
Proof. unfold traced. destruct (m s) as [[[a|e] s']|]; auto. Qed.

(** The messages that move coins. *)
Definition moves (msg : Msg) : bool :=
  match msg with ConvertVouchersMsg _ | TransferTokensMsg _ => true | _ => false end.

Lemma plain_safe msg s :
  moves msg = false -> registry_inv (store s) -> msg_ok msg ->
  exists r s', handle msg s = Some (r, s') /\ registry_inv (store s').
Proof.
  intros Hm Hi Hok. pose proof (proj1 Hi) as Ht. destruct (GetParams_typed (store s) Ht) as [p Ep].
  destruct msg as [m|m|m|m|m|m|m|c]; cbn [handle msg_ok] in *; [done|done|..].
  - unfold MsgUpdateTokenMapping_ValidateBasic, checkBech32 in Hok. unfold UpdateTokenMapping, GetSigners.
    destruct (AccAddressFromBech32 (tmSender m)) as [a|e]; [|done]. sbind.
    destruct (IsValidCoinDenom (tmDenom m)) eqn:Ed; [|done]. sstate.
    destruct (HasPermission_typed [a] CanChangeTokenMapping (store s) Ht) as [b Eb]. unfold getStore. sstate.
    unfold compose. rewrite Eb. sstate. destruct b; cbn [negb]; [|by eexists _, _].
    destruct (Register_safe unicodeToLower m s) as (r & s' & E & Hi' & _);
      [by apply IsValidCoinDenom_nonempty|done|by exists r, s'].
  - by eexists _, _.
  - unfold UpdateParams. case_bool_decide; [by eexists _, _|]. rewrite tryStore_run.
    destruct (SetParams (upParams m) (store s)) as [st|e] eqn:E; eexists _, _; split; try done.
    by eapply SetParams_inv.
  - unfold UpdatePermissions, getStore. sstate. unfold compose. rewrite Ep. sstate. case_bool_decide; [by eexists _, _|].
    destruct (AccAddressFromBech32 (permAddress m)) as [a|e]; [|by eexists _, _]. sstate.
    eexists _, _. split; [done|]. by apply SetPermissions_inv.
  - unfold StoreBlockList, getStore. sstate. unfold compose. rewrite Ep. sstate. case_bool_decide; [by eexists _, _|].
    destruct Hok as [blob ->]. sstate. eexists _, _. split; [done|]. by apply other_inv.
  - destruct c as [q|]; cbn; [|by eexists _, _]. destruct (IsValidCoinDenom (propDenom q)) eqn:Ed; cbn; [|by eexists _, _].
    destruct (Register_safe unicodeToLower
      (mkMsgUpdateTokenMapping "" (propDenom q) (propContract q) (propSymbol q) (propDecimal q)) s)
      as (r & s' & E & Hi' & _); [by apply IsValidCoinDenom_nonempty|done|by exists r, s'].
Qed.

Lemma convert_safe m s p :
  GetParams (store s) = Some p -> msg_ok (ConvertVouchersMsg m) ->
  traced same_store true (panics (ConvertVouchersMsg m) s) (deploys m s) (ConvertVouchers m) s.
Proof.
  intros Ep [Hv%convert_valid _]. apply ConvertVouchers_traced.
  - intros s1 Hk. exists p. split; [done|by left].
  - by rewrite Ep.
  - intros q c Eq Hin. rewrite Ep in Eq. injection Eq as <-. destruct (valid_coin _ c Hv Hin) as [En Ha].
    intros [E|(Ed & Ho)] s1; [congruence|]. exists p. split; [done|]. right. exists c. split_and!; try done.
    destruct Ho as [Ho|Ho]; [left|by right]. destruct (Z.lt_ge_cases (Amount c * 10 ^ 10) (2 ^ 256)); [|done].
    change TenPowTen with (10 ^ 10) in Ho. rewrite IntMul_some in Ho; [done|lia].
Qed.

(** C11: messages cannot go wrong on a well-typed store.  Every handler of the
    message server and the governance handler, on any validated message, returns a
    result or an error, and the store it leaves, also with an error, is again well
    typed, with the contract index being exactly the inverse of the two mapping
    tables.  Only the two messages that move coins depend on others: converting
    vouchers keeps the registry when the contracts on its path do, and a new
    contract's address is not in use; and they panic only when a keeper of another
    module does, a CRO amount times 10^10 has more than 256 bits, the EVM's or the
    CRO denomination cannot be that of a coin, or a voucher has an empty trace. *)
Theorem store_type_safety msg s :
  registry_inv (store s) -> msg_ok msg ->
  match handle msg s with
  | Some (r, s') => exists evs, events msg evs s s' /\ (Forall event_safe evs -> registry_inv (store s'))
  | None => exists evs s1, events msg evs s s1 /\ panics msg s s1
  end.
Proof.
  intros Hi Hok. destruct (GetParams_typed (store s) (proj1 Hi)) as [p Ep]. destruct (moves msg) eqn:Em.
  - destruct msg as [m|m|m|m|m|m|m|c]; try done; cbn [handle].
    + pose proof (traced_match _ _ _ _ (convert_safe m s p Ep Hok)) as Ht.
      destruct (ConvertVouchers m s) as [[r s']|].
      * destruct Ht as (evs & Hp & Hd). exists evs. split; [done|]. intros Hs. by eapply path_registry.
      * destruct Ht as (s1 & (evs & Hp & Hd) & Hst). by exists evs, s1.
    + pose proof (traced_match _ _ _ _ (TransferTokens_traced m s p Ep Hok)) as Ht.
      destruct (TransferTokens m s) as [[r s']|].
      * apply along_nothing in Ht. exists []. split; [done|]. intros _. by rewrite Ht.
      * destruct Ht as (s1 & Hs%along_nothing & Hst). by exists [], s1.
  - destruct (plain_safe msg s Em Hi Hok) as (r & s' & E & Hi'). rewrite E. exists []. split; [by destruct msg|done].
Qed.

(** ** Who may change what *)

Definition is_admin (addr : string) s : Prop :=
  exists p, GetParams (store s) = Some p /\ CronosAdmin p = addr.

Definition may_map (a : bytes) s : Prop :=
  is_admin (AccAddressString a) s \/ exists q, GetPermissions a (store s) = Some q /\ Z.testbit q 0 = true.

(** The entries of a mapping: that of the denomination, and in the index that of
    the contract and that of the contract the denomination had before. *)
Definition mapping_key (denom contract : string) s (k : bytes) : Prop :=
  k = DenomToExternalContractKey denom \/ k = ContractToDenomKey (HexToAddress contract) \/
  exists old, getExternalContractByDenom denom (store s) = Some old /\ k = ContractToDenomKey old.

(** The sender of the message, with what was called on the way, has the right to
    change the entry with key [k]. *)
Definition may_change (msg : Msg) s (evs : list (event St W)) (k : bytes) : Prop :=
  match msg with
  | ConvertVouchersMsg m =>
      (exists c d, Deployed c d ∈ evs /\ (k = DenomToAutoContractKey d \/ k = ContractToDenomKey (newAddress c))) \/
      (exists ev, ev ∈ evs /\ Get k (store (callAfter (eventCall ev))) <> Get k (store (callBefore (eventCall ev))))
  | TransferTokensMsg _ | TurnBridgeMsg _ => False
  | TokenMappingMsg m =>
      (exists a, AccAddressFromBech32 (tmSender m) = Ok a /\ may_map a s) /\ mapping_key (tmDenom m) (tmContract m) s k
  | ParamsMsg m => upAuthority m = authority /\ k = ParamsKey
  | PermissionsMsg m =>
      is_admin (permFrom m) s /\ exists a, AccAddressFromBech32 (permAddress m) = Ok a /\ k = AdminToPermissionsKey a
  | BlockListMsg m => is_admin (blFrom m) s /\ k = KeyPrefixBlockList
  | ProposalMsg (TokenMappingChange p) => mapping_key (propDenom p) (propContract p) s k
  | ProposalMsg OtherContent => False
  end.

Lemma land_1_testbit q : Z.land q 1 = 1 -> Z.testbit q 0 = true.
Proof.
  intros E. assert (Z.testbit (Z.land q 1) 0 = true) as H by by rewrite E.
  rewrite Z.land_spec in H. by apply andb_true_iff in H as [-> _].
Qed.

Lemma HasPermission_single a s : HasPermission [a] CanChangeTokenMapping (store s) = Some true -> may_map a s.
Proof.
  unfold HasPermission, may_map, is_admin. cbn. destruct (GetParams (store s)) as [p|]; cbn; [|done].
  case_bool_decide as Ea; [left; by exists p|].
  destruct (GetPermissions a (store s)) as [q|]; cbn; [|done].
  destruct (Z.eqb_spec (Z.land q CanChangeTokenMapping) CanChangeTokenMapping) as [E|]; [|done].
  right. exists q. split; [done|]. by apply land_1_testbit.
Qed.

(** A write or a removal changes only its key. *)
Lemma Get_Set_changed k k' v (st : St) : Get k (SetKey k' v st) <> Get k st -> k = k'.
Proof. intros H. apply dec_stable. intros Hne. apply H. by rewrite Get_Set_ne. Qed.

Lemma Get_changed_trans k (st st1 st2 : St) :
  Get k st2 <> Get k st -> Get k st2 <> Get k st1 \/ Get k st1 <> Get k st.
Proof. intros H. destruct (decide (Get k st2 = Get k st1)) as [E|]; [right; congruence|by left]. Qed.

Lemma SetExternal_frame d a (st st' : St) k :
  SetExternalContractForDenom d a st = Ok st' -> Get k st' <> Get k st ->
  k = DenomToExternalContractKey d \/ k = ContractToDenomKey a \/
  exists old, getExternalContractByDenom d st = Some old /\ k = ContractToDenomKey old.
Proof.
  unfold SetExternalContractForDenom. destruct (GetDenomByContract a st); [done|]. intros [= <-] Hk.
  eapply Get_changed_trans in Hk as [Hk%Get_Set_changed|Hk]; [by right; left|].
  eapply Get_changed_trans in Hk as [Hk%Get_Set_changed|Hk]; [by left|].
  destruct (getExternalContractByDenom d st) as [old|]; [|done]. right. right. exists old. split; [done|].
  apply dec_stable. intros Hne. apply Hk. by rewrite Get_Delete_ne.
Qed.

Lemma Register_frame msg s s' r k :
  RegisterOrUpdateTokenMapping unicodeToLower msg s = Some (r, s') -> Get k (store s') <> Get k (store s) ->
  mapping_key (tmDenom msg) (tmContract msg) s k.
Proof.
  unfold RegisterOrUpdateTokenMapping. destruct (IsSourceCoin (tmDenom msg)).
  - destruct (GetContractAddressFromDenom (tmDenom msg)) as [a|e]; [|by intros [= <- <-]]. sstate.
    unfold putWorld. sstate. rewrite tryStore_run. cbn [store world].
    destruct (SetExternalContractForDenom _ _ (store s)) eqn:E; intros [= <- <-]; [|done]. by apply SetExternal_frame.
  - destruct (Nat.eqb _ 0).
    + unfold putStore, modify. intros [= <- <-]. cbn. unfold DeleteExternalContractForDenom, mapping_key.
      destruct (getExternalContractByDenom _ (store s)) as [old|]; [|done]. cbn. intros Hk.
      destruct (decide (k = DenomToExternalContractKey (tmDenom msg))) as [|H1]; [by left|].
      right. right. exists old. split; [done|]. apply dec_stable. intros H2. apply Hk. by rewrite !Get_Delete_ne.
    + destruct (negb _); [by intros [= <- <-]|]. cbn [fail_if]. sstate. rewrite tryStore_run.
      destruct (SetExternalContractForDenom _ _ (store s)) eqn:E; intros [= <- <-]; [|done]. by apply SetExternal_frame.
Qed.

(** The entries that change along a path. *)
Lemma path_frame m s0 evs s s' k :
  path same_store evs s s' -> Get k (store s') <> Get k (store s) -> may_change (ConvertVouchersMsg m) s0 evs k.
Proof.
  intros Hp. induction Hp as [s s' H|c s s' evs H Hc Hp IH|c d s s1 s' evs H Hg Hc Hn H1 Hp IH];
    unfold same_store in *; intros Hk; cbn [may_change].
  - by rewrite H in Hk.
  - apply (Get_changed_trans _ _ (store (callAfter c))) in Hk as [Hk|Hk].
    + destruct (IH Hk) as [(c' & d' & Hin & Hk')|(ev & Hin & Hk')].
      * left. exists c', d'. split; [by right|done].
      * right. exists ev. split; [by right|done].
    + right. exists (Called c). split; [by left|]. cbn. by rewrite H.
  - apply (Get_changed_trans _ _ (store (register d (newAddress c) s1))) in Hk as [Hk|Hk].
    { destruct (IH Hk) as [(c' & d' & Hin & Hk')|(ev & Hin & Hk')].
      * left. exists c', d'. split; [by right|done].
      * right. exists ev. split; [by right|done]. }
    cbn [register store] in Hk. unfold SetAutoContractForDenom in Hk.
    eapply Get_changed_trans in Hk as [Hk%Get_Set_changed|Hk].
    { left. exists c, d. split; [by left|by right]. }
    eapply Get_changed_trans in Hk as [Hk%Get_Set_changed|Hk].
    { left. exists c, d. split; [by left|by left]. }
    right. exists (Deployed c d). split; [by left|]. cbn. by rewrite <- H1, H.
Qed.

(** A transfer writes nothing of the module. *)
Lemma onWorld_store {A} (st : St) (m : SE W A) : preserves (fun s => store s = st) (onWorld m).
Proof. intros s r s'. unfold onWorld. destruct (m (world s)) as [[x w]|]; [|done]. by intros [= <- <-]. Qed.

Lemma getStore_store {A} (st : St) (f : St -> A) : preserves (fun s : Sys St W => store s = st) (getStore f).
Proof. unfold getStore. auto with preserves. Qed.

#[local] Hint Resolve onWorld_store getStore_store : preserves.
Local Ltac keeps := repeat (apply preserves_bind; [|intros ?]); auto with preserves; repeat case_match; auto with preserves.

Lemma GetSourceChannelID_store st d : preserves (fun s => store s = st) (GetSourceChannelID d).
Proof. apply preserves_read. intros s r s' E. revert E. unfold GetSourceChannelID.
  repeat case_match; try (by intros [= <- <-]). sstate. destruct (GetDenom _ _) as [t|]; [|by intros [= <- <-]].
  unfold mbind, SE_bind, orPanic. destruct (head _); cbn; [|done]. by intros [= <- <-].
Qed.

#[local] Hint Resolve GetSourceChannelID_store : preserves.

Lemma ibcSendTransfer_store st acc dest c ch : preserves (fun s => store s = st) (ibcSendTransfer acc dest c ch).
Proof. unfold ibcSendTransfer, getParams. keeps. Qed.

#[local] Hint Resolve ibcSendTransfer_store : preserves.

Lemma TransferTokens_store st m : preserves (fun s => store s = st) (TransferTokens m).
Proof.
  unfold TransferTokens, IbcTransferCoins, getParams. apply preserves_bind; [auto with preserves|]. intros acc.
  case_match; [auto with preserves|]. do 2 (apply preserves_bind; [auto with preserves|intros ?]).
  apply preserves_forM. intros c _. unfold IbcTransferCoin, newCoins. case_bool_decide.
  - do 2 (apply preserves_bind; [auto with preserves|intros ?]). case_match; [auto with preserves|]. keeps.
  - case_match; [auto with preserves|]. keeps.
Qed.

(** C10: an entry of the module's store only changes through a message whose sender
    may change it.  A mapping is changed by the admin or an account holding the
    token mapping permission bit, or by governance, and only the entry of the
    denomination in the message and, in the index, the entries of its new and its
    old contract; parameters by the authority; permissions and the block list by
    the admin; a transfer changes nothing.  Converting vouchers, which anybody can
    do, changes only the two entries of a contract that it has deployed itself, for
    a coin of the message that had none, with automatic deployment on, besides what
    the contracts it calls change. *)
Theorem only_authorized msg s s' r :
  handle msg s = Some (r, s') ->
  exists evs, events msg evs s s' /\
    forall k, Get k (store s') <> Get k (store s) -> may_change msg s evs k.
Proof.
  intros E. destruct msg as [m|m|m|m|m|m|m|c]; cbn [handle] in E.
  { pose proof (traced_match _ _ _ _ (ConvertVouchers_traced (fun _ => True) m s (fun _ _ => I) (fun _ => I)
      (fun _ _ _ _ _ _ => I))) as Ht. rewrite E in Ht. destruct Ht as (evs & Hp & Hd).
    exists evs. split; [done|]. intros k. by apply path_frame. }
  { pose proof (TransferTokens_store (store s) m s r s' E eq_refl) as Es. exists []. split; [done|].
    intros k Hk. by rewrite Es in Hk. }
  all: exists []; (split; [done|]); intros k; revert E; cbn [may_change].
  - unfold UpdateTokenMapping, GetSigners. destruct (AccAddressFromBech32 (tmSender m)) as [a|e] eqn:Ea; [|done].
    unfold getStore, compose. sstate. destruct (HasPermission [a] _ (store s)) as [b|] eqn:Eb; [|done]. sstate.
    destruct b; cbn [negb]; [|by intros [= <- <-]]. intros Hr Hk.
    split; [|by eapply Register_frame]. exists a. split; [done|by apply HasPermission_single].
  - by intros [= <- <-].
  - unfold UpdateParams. case_bool_decide as Ea; [by intros [= <- <-]|]. rewrite tryStore_run. unfold SetParams.
    destruct (Params_Validate _); sbind; intros [= <- <-]; [|done]. cbn. intros Hk%Get_Set_changed.
    done.
  - unfold UpdatePermissions, getStore, compose. sstate. destruct (GetParams (store s)) as [p|] eqn:Ep; [|done]. sstate.
    case_bool_decide as Ea; [by intros [= <- <-]|].
    destruct (AccAddressFromBech32 (permAddress m)) as [a|e] eqn:Eb; [|by intros [= <- <-]]. sstate.
    unfold putStore, modify, SetPermissions. intros [= <- <-]. cbn. intros Hk%Get_Set_changed.
    split; [by exists p|by exists a].
  - unfold StoreBlockList, getStore, compose. sstate. destruct (GetParams (store s)) as [p|] eqn:Ep; [|done]. sstate.
    case_bool_decide as Ea; [by intros [= <- <-]|]. destruct (blBlob m) as [b|]; [|done]. sstate.
    unfold putStore, modify. intros [= <- <-]. cbn. intros Hk%Get_Set_changed.
    split; [by exists p|done].
  - destruct c as [p|]; cbn; [|by intros [= <- <-]].
    destruct (negb _); [by intros [= <- <-]|]. intros Hr Hk. exact (Register_frame _ _ _ _ _ Hr Hk).
Qed.

(** The address of a contract that is going to be deployed can already be mapped:
    the registration does not look, and the index forgets the first denomination. *)
Lemma auto_contract_clash d d' c (st : St) :
  d <> "" -> d' <> d -> is_address c -> getExternalContractByDenom d' st = Some c ->
  ~ mapping_inv (SetAutoContractForDenom d c st).
Proof.
  intros Hd Hne Hc He [Hiff _]. destruct (SetAuto_views d c st Hd Hc) as (Hext & _ & Hrev).
  specialize (Hiff c d'). rewrite Hext, Hrev, decide_True in Hiff by done. destruct Hiff as [_ Hiff].
  specialize (Hiff (or_introl He)). congruence.
Qed.

End Messages.

(** ** A chain with automatic deployment *)
Section Example.
#[local] Existing Instance plain_libs.
#[local] Existing Instance plain_libs_laws.
#[local] Existing Instance ledger_bank.
#[local] Existing Instance ledger_evm.
#[local] Existing Instance ledger_transfer.

(** The ledger has no metadata. *)
#[local] Instance ledger_metadata : BankMetadata Ledger := {
  GetDenomMetaData d w := None;
  SetDenomMetaData md w := w
}.

Definition auto_params : Params := mkParams IbcCroDenomDefaultValue 0 "" true 0.
Definition auto_denom : string := "ibc/BBBBBBBBBBBBBBBBBBBBBBBBBBBBBBBBBBBBBBBBBBBBBBBBBBBBBBBBBBBBBBBB".
Definition auto_sys : Sys (gmap bytes bytes) Ledger :=
  mkSys (SetKey ParamsKey (Params_Marshal auto_params) ∅)
    (mkLedger {[(ex_holder, auto_denom) := 10]} {[auto_denom := 10]} 0 ∅).
Definition auto_msg : Msg :=
  ConvertVouchersMsg (mkMsgConvertVouchers (AccAddressString ex_holder) [mkCoin auto_denom 10]).
Definition auto_after : Sys (gmap bytes bytes) Ledger :=
  match handle id "" auto_msg auto_sys with Some (_, s) => s | None => auto_sys end.

Lemma auto_registry : registry_inv (store auto_sys).
Proof.
  refine (SetParams_inv auto_params ∅ (store auto_sys) _ _ eq_refl).
  - split; [split; cbn; lia|vm_compute; reflexivity].
  - apply empty_registry. intros k. apply lookup_empty.
Qed.

(** Whether a run succeeds. *)
Definition succeeds {S A} (r : option (result A * S)) : bool := match r with Some (Ok _, _) => true | _ => false end.

Lemma auto_runs : handle id "" auto_msg auto_sys = Some (Ok tt, auto_after).
Proof.
  assert (succeeds (handle id "" auto_msg auto_sys) = true) as E by (vm_compute; reflexivity).
  unfold auto_after. by destruct (handle id "" auto_msg auto_sys) as [[[[]|] s]|].
Qed.

Lemma store_type_safety_witness :
  handle id "" auto_msg auto_sys = Some (Ok tt, auto_after) /\
  exists evs, events auto_msg evs auto_sys auto_after /\ (Forall event_safe evs -> registry_inv (store auto_after)).
Proof.
  split; [exact auto_runs|]. pose proof (store_type_safety id "" auto_msg auto_sys auto_registry) as H.
  rewrite auto_runs in H. apply H. split; [vm_compute; reflexivity|]. apply Forall_cons_2; [vm_compute; reflexivity|apply Forall_nil_2].
Defined.

Definition is_set {A} (x : option A) : bool := match x with Some _ => true | None => false end.

Lemma only_authorized_witness :
  exists evs, events auto_msg evs auto_sys auto_after /\
    may_change "" auto_msg auto_sys evs (DenomToAutoContractKey auto_denom).
Proof.
  destruct (only_authorized id "" auto_msg auto_sys auto_after (Ok tt)) as (evs & Hev & Hk); [exact auto_runs|].
  exists evs. split; [exact Hev|]. apply Hk. intros E.
  assert (is_set (Get (DenomToAutoContractKey auto_denom) (store auto_after)) = true) as H1 by (vm_compute; reflexivity).
  assert (is_set (Get (DenomToAutoContractKey auto_denom) (store auto_sys)) = false) as H0 by (vm_compute; reflexivity).
  rewrite E, H0 in H1. discriminate H1.
Defined.

End Example.
