(* ===== verification/CronosHooks.v ===== *)
(** * EVM hooks: [x/cronos/keeper/evm_hooks.go], [x/cronos/keeper/evmhandlers]

    After an EVM transaction the logs of its receipt are dispatched to the
    handlers of the module, which turn token contract events into native
    coin movements. *)

From S2P Require Import Prelude KV Binary Proto Ctx CronosTypes CronosKeeper Crc21 CronosBridge.
From Stdlib Require Import Strings.Byte.
From stdpp Require Import pretty.

Open Scope string_scope.
Open Scope Z_scope.
Open Scope list_scope.

(** The ABI of the events, from go-ethereum: their ids and how the data of a
    log is unpacked. *)
Class EventABI := {
  SendToAccountID : bytes;
  SendToIbcID : bytes;
  SendToIbcV2ID : bytes;
  SendCroToIbcID : bytes;
  UnpackSendToAccount : bytes -> result (bytes * Z);
  UnpackSendToIbc : bytes -> result (bytes * string * Z);
  UnpackSendToIbcV2 : bytes -> result (string * Z * bytes);
  UnpackSendCroToIbc : bytes -> result (bytes * string * Z)
}.

(** [new(big.Int).SetBytes(b)] *)
Definition bigSetBytes (b : bytes) : Z := foldl (fun z x => z * 256 + byte_to_Z x) 0 b.

Section Hooks.
Context {L : Libs} {St : Type} {KS : KVStore St} {W : Type}
  {BK : BankKeeper W} {EK : EvmKeeper St W} {TK : TransferKeeper W} {EA : EventABI}.

Abbreviation M := (SE (Sys St W)).

(** A handler gets the contract that emitted the log, its topics and its data. *)
Abbreviation Handler := (bytes -> list bytes -> bytes -> M unit).

Definition ErrNotConnected : error := "contract is not connected to native token".

(** ** [send_to_account.go]; a log that cannot be decoded is ignored *)
Definition SendToAccount_Handle : Handler := fun contract topics data =>
  match UnpackSendToAccount data with
  | Err _ => mret tt
  | Ok (recipient, amount) =>
      found ← getStore (GetDenomByContract contract);
      match found with
      | None => throw ErrNotConnected
      | Some denom => coins ← newCoins denom amount; onWorld (SendCoins contract recipient coins)
      end
  end.

(** ** [send_to_ibc.go] *)
Definition SendToIbc_handle (contract senderAddress : bytes) (recipient : string) (amount : Z) (id : option Z) : M unit :=
  found ← getStore (GetDenomByContract contract);
  match found with
  | None => throw ErrNotConnected
  | Some denom =>
      if negb (IsValidIBCDenom denom) && negb (IsValidCronosDenom denom) then
        throw "the native token associated with the contract is neither an ibc voucher or a cronos token"
      else
        coins ← newCoins denom amount;
        _ ← (if IsSourceCoin denom then
               _ ← onWorld (MintCoins ModuleName coins);
               onWorld (SendCoinsFromModuleToAccount ModuleName senderAddress coins)
             else onWorld (SendCoins contract senderAddress coins));
        let channelId := match id with Some id => "channel-" +:+ pretty id | None => "" end in
        IbcTransferCoins (AccAddressString senderAddress) recipient coins channelId
  end.

Definition SendToIbc_Handle : Handler := fun contract topics data =>
  match UnpackSendToIbc data with
  | Err _ => mret tt
  | Ok (sender, recipient, amount) => SendToIbc_handle contract sender recipient amount None
  end.

(** ** [send_to_ibc_v2.go]: the sender and the channel are topics *)
Definition SendToIbcV2_Handle : Handler := fun contract topics data =>
  match topics with
  | [_; topic1; topic2] =>
      match UnpackSendToIbcV2 data with
      | Err _ => mret tt
      | Ok (recipient, amount, _) =>
          SendToIbc_handle contract (BytesToAddress topic1) recipient amount (Some (bigSetBytes topic2))
      end
  | _ => mret tt
  end.

(** ** [send_cro_to_ibc.go] *)
Definition SendCroToIbc_Handle : Handler := fun contract topics data =>
  match UnpackSendCroToIbc data with
  | Err _ => mret tt
  | Ok (sender, recipient, amount) =>
      evmDenom ← gets (fun s => EvmDenom (world s));
      coins ← newCoins evmDenom amount;
      _ ← onWorld (SendCoins contract sender coins);
      IbcTransferCoins (AccAddressString sender) recipient coins ""
  end.

(** ** [evm_hooks.go] *)

(** A later handler for the same event replaces an earlier one. *)
Definition NewLogProcessEvmHook (handlers : list (bytes * Handler)) : gmap bytes Handler :=
  foldl (fun m h => <[h.1 := h.2]> m) ∅ handlers.

Definition PostTxProcessing (handlers : gmap bytes Handler) (logs : list Log) : M unit :=
  forM logs (fun log =>
    match logTopics log with
    | [] => mret tt
    | topic :: _ =>
        match handlers !! topic with
        | None => mret tt
        | Some handle => handle (logAddress log) (logTopics log) (logData log)
        end
    end).

(** The handlers [app.go] installs. *)
Definition appHandlers : gmap bytes Handler :=
  NewLogProcessEvmHook
    [(SendToAccountID, SendToAccount_Handle); (SendToIbcID, SendToIbc_Handle);
     (SendCroToIbcID, SendCroToIbc_Handle); (SendToIbcV2ID, SendToIbcV2_Handle)].

End Hooks.
