(* ===== verification/CronosBacking.v ===== *)
(** * Bridged tokens are backed

    The contract of a bridged coin, the conversions of the keeper and the EVM
    hook together: at every moment the tokens a [ModuleCRC21] contract has
    issued are covered by native coins held at the contract's address. *)

From S2P Require Import Prelude KV Binary Proto Ctx CronosTypes CronosKeeper Crc21 CronosBridge CronosPeg CronosHooks.
From Stdlib Require Import Strings.Byte.

Open Scope string_scope.
Open Scope Z_scope.
Open Scope list_scope.

(** The token contracts the EVM holds, and how their events become logs. *)
Class TokenWorld (W R : Type) := {
  tokenAt : W -> bytes -> option (CRC21 R);
  encodeEvent : bytes -> Event -> Log
}.

(** The method and the arguments by which the module makes a call. *)
Definition moduleCall {U} (method : string) (a : bytes) (n : Z) : option (crc21Call (U := U)) :=
  if String.eqb method "mint_by_cronos_module" then Some (MintByModule a n)
  else if String.eqb method "burn_by_cronos_module" then Some (BurnByModule a n)
  else if String.eqb method "transfer_by_cronos_module" then Some (TransferByModule a n)
  else if String.eqb method "transfer_from_cronos_module" then Some (TransferFromModule a n)
  else None.

(** How the modules interact.  The bank and IBC transfers do not touch
    contracts; a transfer takes at most its coin, and only from its sender.  A
    call the module makes to a token contract runs the contract's function
    and changes nothing else.  An event is decoded as it was emitted. *)
Class BridgeLaws (St W R U : Type) {L : Libs} {BK : BankKeeper W} {EK : EvmKeeper St W} {TK : TransferKeeper W}
    {EA : EventABI} {DS : DSToken R U} {TW : TokenWorld W R} : Prop := {
  SendCoins_tok a b cs w w' c : SendCoins a b cs w = Some (Ok tt, w') -> tokenAt w' c = tokenAt w c;
  ModuleToAccount_tok m b cs w w' c :
    SendCoinsFromModuleToAccount m b cs w = Some (Ok tt, w') -> tokenAt w' c = tokenAt w c;
  AccountToModule_tok a m cs w w' c :
    SendCoinsFromAccountToModule a m cs w = Some (Ok tt, w') -> tokenAt w' c = tokenAt w c;
  MintCoins_tok m cs w w' c : MintCoins m cs w = Some (Ok tt, w') -> tokenAt w' c = tokenAt w c;
  BurnCoins_tok m cs w w' c : BurnCoins m cs w = Some (Ok tt, w') -> tokenAt w' c = tokenAt w c;
  Transfer_keeps msg acc w w' : Transfer msg w = Some (Ok tt, w') -> trSender msg = AccAddressString acc ->
    (forall c, tokenAt w' c = tokenAt w c) /\
    (forall a d, balance w a d - on acc a (amountOf d [trToken msg]) <= balance w' a d);
  AddLog_keeps l (w : W) :
    (forall c, tokenAt (AddLog l w) c = tokenAt w c) /\ (forall a d, balance (AddLog l w) a d = balance w a d);
  evm_runs method call a n data msg (s : Sys St W) r s' c t :
    moduleCall method a n = Some call -> is_address a -> uint256 n -> Pack method [AAddress a; AUint256 n] = Ok data ->
    msgFrom msg = EVMModuleAddress -> msgTo msg = Some c -> msgValue msg = 0 -> msgData msg = data ->
    tokenAt (world s) c = Some t -> ApplyMessage msg s = Some (Ok r, s') -> resFailed r = false ->
    exists t' evs, crc21_exec EVMModuleAddress call t = Some (t', evs) /\ tokenAt (world s') c = Some t' /\
      (forall a d, balance (world s') a d = balance (world s) a d) /\ store s' = store s;
  evm_creates denom ctor msg (s : Sys St W) r s' :
    Pack "" [AString denom; AUint8 0; ABool false] = Ok ctor ->
    msgFrom msg = EVMModuleAddress -> msgTo msg = None -> msgData msg = ModuleCRC21Bin ++ ctor ->
    ApplyMessage msg s = Some (Ok r, s') -> resFailed r = false ->
    let c := CreateAddress EVMModuleAddress (msgNonce msg) in
    tokenAt (world s') c = Some (newCRC21 c EVMModuleAddress denom 0 false) /\
    (forall a d, balance (world s') a d = balance (world s) a d) /\ store s' = store s;
  encode_ibc c a ch r n x : is_address a -> uint256 n -> exists t1 t2 data,
    encodeEvent c (SendToIbcEvent a ch r n x) = mkLog c [SendToIbcV2ID; t1; t2] data /\
    BytesToAddress t1 = a /\ UnpackSendToIbcV2 data = Ok (r, n, x);
  encode_other c e : sent_by (fun _ _ => False) e -> exists topic topics data,
    encodeEvent c e = mkLog c (topic :: topics) data /\
    topic ∉ [SendToAccountID; SendToIbcID; SendCroToIbcID; SendToIbcV2ID];
  UnpackSendToIbc_address data a r n : UnpackSendToIbc data = Ok (a, r, n) -> is_address a;
  UnpackSendCroToIbc_address data a r n : UnpackSendCroToIbc data = Ok (a, r, n) -> is_address a
}.

Section Backing.
Context {L : Libs} {LL : LibsLaws} {St : Type} {KS : KVStore St} {KL : KVStoreLaws St} {W : Type}
  {BK : BankKeeper W} {EK : EvmKeeper St W} {TK : TransferKeeper W} {EA : EventABI}
  {R U : Type} {DS : DSToken R U} {DL : DSTokenLaws R U} {TW : TokenWorld W R}.
Context (blocked : bytes -> Prop) {BL : BankLaws W blocked} {BR : BridgeLaws St W R U}.

Abbreviation moduleAccount := (NewModuleAddress ModuleName).

(** ** What an IBC transfer can take *)

(** No contract changes, and the accounts lose at most the given amounts;
    the module account apart. *)
Definition takes (out : bytes -> string -> Z) (s s' : Sys St W) : Prop :=
  store s' = store s /\ (forall c, tokenAt (world s') c = tokenAt (world s) c) /\
  (forall a d, a <> moduleAccount -> balance (world s) a d - out a d <= balance (world s') a d).

Lemma takes_trans f g h s1 s2 s3 :
  takes f s1 s2 -> takes g s2 s3 -> (forall a d, f a d + g a d <= h a d) -> takes h s1 s3.
Proof.
  intros (S1 & T1 & B1) (S2 & T2 & B2) Hh. split_and!; [congruence|congruence|].
  intros a d Ha. specialize (B1 a d Ha). specialize (B2 a d Ha). specialize (Hh a d). lia.
Qed.

Definition taken (acc : bytes) (cs : Coins) (a : bytes) (d : string) : Z := on acc a (amountOf d cs).

Lemma onWorld_takes (m : SE W unit) s s' out :
  onWorld m s = Some (Ok tt, s') ->
  (forall w', m (world s) = Some (Ok tt, w') -> (forall c, tokenAt w' c = tokenAt (world s) c) /\
     (forall a d, a <> moduleAccount -> balance (world s) a d - out a d <= balance w' a d)) -> takes out s s'.
Proof. intros (w & E & ->)%onWorld_inv H. destruct (H w E). done. Qed.

Lemma bank_takes a b cs (w w' : W) : moved a b cs w w' -> (forall d, 0 <= amountOf d cs) ->
  forall x d, balance w x d - taken a cs x d <= balance w' x d.
Proof. intros [Hb _] Hp x d. rewrite Hb. specialize (Hp d). unfold taken, on. repeat case_bool_decide; lia. Qed.

Lemma amounts_nonneg cs : Forall (fun c => 0 <= Amount c) cs -> forall d, 0 <= amountOf d cs.
Proof. intros H d. induction H as [|c cs Hc H IH]; [done|]. cbn. fold (amountOf d cs). case_bool_decide; lia. Qed.

Lemma NewCoins_nonneg c cs : NewCoins [c] = Some cs -> Forall (fun c => 0 <= Amount c) cs.
Proof.
  intros [Hc ->]%NewCoins_single. destruct (_ =? 0); constructor; [done|constructor].
Qed.

Lemma newCoins_nonneg d n (s s' : Sys St W) cs : newCoins d n s = Some (Ok cs, s') -> Forall (fun c => 0 <= Amount c) cs.
Proof.
  unfold newCoins. intros H. runs.
  match goal with H : _ = Some cs |- _ => apply bind_Some in H as (c & E1 & E2) end. by eapply NewCoins_nonneg.
Qed.

Lemma amountOf_cons d c cs : amountOf d (c :: cs) = amountOf d [c] + amountOf d cs.
Proof. unfold amountOf. cbn. lia. Qed.

Lemma amountOf_single d c : amountOf d [c] = if bool_decide (Denom c = d) then Amount c else 0.
Proof. cbn. case_bool_decide; lia. Qed.

Lemma NewCoins_amount c cs d : NewCoins [c] = Some cs -> amountOf d cs = amountOf d [c].
Proof. intros [_ ->]%NewCoins_single. destruct (Z.eqb_spec (Amount c) 0) as [E|]; [|done]. cbn. case_bool_decide; lia. Qed.

Lemma single_nonneg d c : 0 <= Amount c -> 0 <= amountOf d [c].
Proof. rewrite amountOf_single. case_bool_decide; lia. Qed.

Lemma ibcSendTransfer_takes acc dest c ch (s s' : Sys St W) :
  0 <= Amount c -> ibcSendTransfer acc dest c ch s = Some (Ok tt, s') -> takes (taken acc [c]) s s'.
Proof.
  intros Hn. unfold ibcSendTransfer, getParams. intros H. runs.
  assert (x0 = s) as ->.
  { destruct (IsSourceCoin (Denom c)); [destruct (negb _); by runs|by eapply GetSourceChannelID_state]. }
  match goal with H : Transfer _ _ = _ |- _ => eapply Transfer_keeps in H as [Ht Hb]; [|done] end.
  split_and!; [done|done|]. intros a d _. apply Hb.
Qed.

Lemma IbcTransferCoin_takes acc dest params evm ch c (s s' : Sys St W) :
  0 <= Amount c -> IbcTransferCoin acc dest params evm ch c s = Some (Ok tt, s') -> takes (taken acc [c]) s s'.
Proof.
  intros Hn. unfold IbcTransferCoin. case_bool_decide as Ed.
  - intros Hr. runs.
    repeat match goal with
    | H : IntMod _ _ = _ |- _ => apply IntMod_inv in H as ->; [|done|done]
    | H : IntSub _ _ = _ |- _ => apply IntSub_inv in H as ->
    end.
    destruct (_ =? 0); runs.
    { split_and!; [done|done|]. intros a d _. pose proof (single_nonneg d c Hn).
      unfold taken, on. case_bool_decide; lia. }
    match goal with H : newCoins _ _ _ = _ |- _ =>
      pose proof (newCoins_nonneg _ _ _ _ _ H) as Hp; pose proof (fun d => newCoins_amount _ _ _ _ _ d H) as Ha end.
    destruct (Ha evm) as [_ ->]. cbn [world store] in *.
    repeat match goal with
    | H : IntQuo _ _ = _ |- _ => apply IntQuo_inv in H as ->; [|done|done]
    | H : NewCoin _ _ = _ |- _ => apply NewCoin_inv in H as [-> ?]
    | H : SendCoinsFromModuleToAccount _ _ _ _ = _ |- _ =>
        pose proof (fun c => ModuleToAccount_tok _ _ _ _ _ c H); apply ModuleToAccount_ok in H as [[Hb3 _] _]
    | H : SendCoinsFromAccountToModule _ _ _ _ = _ |- _ =>
        pose proof (fun c => AccountToModule_tok _ _ _ _ _ c H); apply AccountToModule_ok in H as [Hb1 _]
    | H : BurnCoins _ _ _ = _ |- _ => pose proof (fun c => BurnCoins_tok _ _ _ _ c H); apply BurnCoins_ok in H as [Hb2 _]
    | H : ibcSendTransfer _ _ _ _ _ = _ |- _ => apply ibcSendTransfer_takes in H as (Hst & Htk & Hb4); [|done]
    end.
    split_and!; [done|by intros k; rewrite Htk; cbn [world];
      repeat match goal with H : forall c : bytes, tokenAt _ c = _ |- _ => rewrite H; clear H end|].
    intros a d Hm. specialize (Hb4 a d Hm). specialize (Hb3 a d). specialize (Hb2 a d). specialize (Hb1 a d).
    destruct (Ha d) as [Had _]. cbn [world store] in *.
    match goal with H : NewCoins _ = Some _ |- _ => rewrite (NewCoins_amount _ _ d H) in Hb3 end.
    rewrite Had in Hb1. unfold taken in *. rewrite (amountOf_single d c).
    change TenPowTen with (10 ^ 10) in *. rewrite Ed. pose proof (Z.mod_pos_bound (Amount c) (10 ^ 10)).
    unfold on in *. rewrite (bool_decide_false (a = moduleAccount)) in * by done.
    repeat case_bool_decide; lia.
  - destruct (negb _ && negb _); [done|]. intros Hr. runs. destruct (GetContractByDenom _ _); [|done].
    by apply (ibcSendTransfer_takes acc dest c ch).
Qed.

Lemma IbcTransferCoins_takes from acc dest coins ch (s s' : Sys St W) :
  AccAddressFromBech32 from = Ok acc -> Forall (fun c => 0 <= Amount c) coins ->
  IbcTransferCoins from dest coins ch s = Some (Ok tt, s') -> takes (taken acc coins) s s'.
Proof.
  intros Ef Hp. unfold IbcTransferCoins, getParams. intros H. runs. rewrite Ef in *. simplify_eq.
  destruct (Nat.eqb _ 0); [done|]. runs.
  match goal with H : forM _ _ _ = _ |- _ => revert H end. generalize (EvmDenom (world s)). intros evm.
  clear -Hp LL BL BR. revert s. induction Hp as [|c coins Hc Hp IH]; cbn; intros s H; runs.
  - split_and!; [done|done|]. intros a d _. unfold taken, on. cbn. case_bool_decide; lia.
  - match goal with H : IbcTransferCoin _ _ _ _ _ _ _ = _ |- _ => apply IbcTransferCoin_takes in H; [|done] end.
    eapply takes_trans; [eassumption|by apply IH|]. intros a d. unfold taken, on. rewrite (amountOf_cons d c coins).
    case_bool_decide; lia.
Qed.

(** ** What a log can take *)

(** Only the contract that emitted the log can lose coins. *)
Definition from_contract (x : bytes) (m : string -> Z) (a : bytes) (d : string) : Z := on x a (m d).
Definition only (denom : string) (n : Z) (d : string) : Z := if bool_decide (denom = d) then n else 0.

Lemma SendCoins_takes a b cs (s s' : Sys St W) :
  onWorld (SendCoins a b cs) s = Some (Ok tt, s') -> takes (fun x d => taken a cs x d - taken b cs x d) s s'.
Proof.
  intros H. eapply onWorld_takes; [exact H|]. intros w' E. split; [intros c; by eapply SendCoins_tok|].
  apply SendCoins_ok in E as [Hb _]. intros x d _. rewrite Hb. unfold taken. lia.
Qed.

Lemma mint_takes b cs (s s' : Sys St W) :
  (_ ← onWorld (MintCoins ModuleName cs); onWorld (SendCoinsFromModuleToAccount ModuleName b cs)) s = Some (Ok tt, s') ->
  takes (fun x d => - taken b cs x d) s s'.
Proof.
  intros H. runs.
  repeat match goal with
  | H : MintCoins _ _ _ = _ |- _ => pose proof (fun c => MintCoins_tok _ _ _ _ c H) as Ht1; apply MintCoins_ok in H as [Hb1 _]
  | H : SendCoinsFromModuleToAccount _ _ _ _ = _ |- _ =>
      pose proof (fun c => ModuleToAccount_tok _ _ _ _ _ c H) as Ht2; apply ModuleToAccount_ok in H as [[Hb2 _] _]
  end.
  split_and!; [done|intros c; by rewrite Ht2, Ht1|]. intros x d Hx. cbn [world] in *. rewrite Hb2, Hb1.
  unfold taken, on. rewrite (bool_decide_false (x = moduleAccount)) by done. lia.
Qed.

Lemma SendToIbc_handle_takes x snd rcp n id (s s' : Sys St W) :
  is_address snd -> SendToIbc_handle x snd rcp n id s = Some (Ok tt, s') ->
  exists denom, GetDenomByContract x (store s) = Some denom /\ takes (from_contract x (only denom n)) s s'.
Proof.
  intros Hs. unfold SendToIbc_handle. intros H. runs.
  destruct (GetDenomByContract x (store s)) as [denom|]; [|done]. exists denom. split; [done|].
  destruct (negb _ && negb _); [done|]. runs.
  match goal with H : newCoins _ _ _ = _ |- _ =>
    pose proof (newCoins_nonneg _ _ _ _ _ H) as Hp; pose proof (fun d => newCoins_amount _ _ _ _ _ d H) as Ha end.
  destruct (Ha denom) as [_ ->].
  match goal with H : IbcTransferCoins _ _ _ _ _ = _ |- _ =>
    eapply IbcTransferCoins_takes in H; [|by apply FromBech32_String|done] end.
  destruct (IsSourceCoin denom).
  - match goal with H : (_ ≫= _) _ = _ |- _ => apply mint_takes in H end.
    eapply takes_trans; [eassumption|eassumption|]. intros a d. destruct (Ha d) as [Ea _].
    pose proof (amounts_nonneg _ Hp d). unfold from_contract, only, on. rewrite <- Ea.
    destruct (bool_decide (a = x)); lia.
  - match goal with H : onWorld _ _ = _ |- _ => apply SendCoins_takes in H end.
    eapply takes_trans; [eassumption|eassumption|]. intros a d. destruct (Ha d) as [Ea _].
    unfold from_contract, only, taken, on. rewrite <- Ea. lia.
Qed.

Lemma nothing_takes x (s : Sys St W) : exists m, takes (from_contract x m) s s.
Proof.
  exists (fun _ => 0). split_and!; [done|done|]. intros a d _. unfold from_contract, on. case_bool_decide; lia.
Qed.

Lemma SendToAccount_takes x topics data (s s' : Sys St W) :
  SendToAccount_Handle x topics data s = Some (Ok tt, s') -> exists m, takes (from_contract x m) s s'.
Proof.
  unfold SendToAccount_Handle. destruct (UnpackSendToAccount data) as [[recipient n]|e].
  - intros H. runs. destruct (GetDenomByContract x (store s)) as [denom|]; [|done]. runs.
    match goal with H : newCoins _ _ _ = _ |- _ => pose proof (newCoins_nonneg _ _ _ _ _ H) as Hp;
      destruct (newCoins_amount _ _ _ _ _ "" H) as [_ ->] end.
    match goal with H : SendCoins _ _ ?cs _ = Some (Ok tt, ?w) |- _ => exists (fun d => amountOf d cs);
      destruct (SendCoins_takes x recipient cs s (mkSys (store s) w)) as (Hst & Ht & Hb); [unfold onWorld; by rewrite H|] end.
    split_and!; [done|done|]. intros a d Hm. specialize (Hb a d Hm). pose proof (amounts_nonneg _ Hp d).
    unfold from_contract, taken, on in *. repeat case_bool_decide; lia.
  - intros [= <-]. apply nothing_takes.
Qed.

Lemma SendCroToIbc_takes x topics data (s s' : Sys St W) :
  SendCroToIbc_Handle x topics data s = Some (Ok tt, s') -> exists m, takes (from_contract x m) s s'.
Proof.
  unfold SendCroToIbc_Handle. destruct (UnpackSendCroToIbc data) as [[[snd rcp] n]|e] eqn:Eu.
  - apply UnpackSendCroToIbc_address in Eu. intros H. runs.
    match goal with H : newCoins _ _ _ = _ |- _ => pose proof (newCoins_nonneg _ _ _ _ _ H) as Hp;
      destruct (newCoins_amount _ _ _ _ _ "" H) as [_ ->] end.
    match goal with H : IbcTransferCoins _ _ _ _ _ = _ |- _ =>
      eapply IbcTransferCoins_takes in H; [|by apply FromBech32_String|done] end.
    match goal with H : SendCoins _ _ ?cs _ = Some (Ok tt, ?w) |- _ => exists (fun d => amountOf d cs);
      assert (takes (fun a d => taken x cs a d - taken snd cs a d) s (mkSys (store s) w))
        by (apply SendCoins_takes; unfold onWorld; by rewrite H) end.
    eapply takes_trans; [eassumption|eassumption|]. intros a d. unfold from_contract, taken. lia.
  - intros [= <-]. apply nothing_takes.
Qed.

(** Any handler, on any log of a contract. *)
Lemma handler_takes handle topic x topics data (s s' : Sys St W) :
  appHandlers !! topic = Some handle -> handle x topics data s = Some (Ok tt, s') ->
  exists m, takes (from_contract x m) s s'.
Proof.
  unfold appHandlers, NewLogProcessEvmHook. cbn.
  rewrite !lookup_insert_Some, lookup_empty. intros [[_ <-]|[_ [[_ <-]|[_ [[_ <-]|[_ [[_ <-]|[_ ?]]]]]]]]; try done.
  - unfold SendToIbcV2_Handle. destruct topics as [|? [|t1 [|t2 [|]]]]; try (intros [= <-]; apply nothing_takes).
    destruct (UnpackSendToIbcV2 data) as [[[r n] ?]|]; [|intros [= <-]; apply nothing_takes].
    intros (denom & _ & Ht)%SendToIbc_handle_takes; [by eexists|apply BytesToAddress_length].
  - apply SendCroToIbc_takes.
  - unfold SendToIbc_Handle. destruct (UnpackSendToIbc data) as [[[a r] n]|] eqn:E; [|intros [= <-]; apply nothing_takes].
    intros (denom & _ & Ht)%SendToIbc_handle_takes; [by eexists|by eapply UnpackSendToIbc_address].
  - apply SendToAccount_takes.
Qed.

(** ** One bridged contract

    [c] is the contract, [d] its denomination, an IBC voucher. *)
Context (c : bytes) (d : string).
Hypothesis c_address : is_address c.
Hypothesis c_not_module : c <> moduleAccount.

Definition own_logs (logs : list Log) : list Log := filter (fun l => logAddress l = c) logs.

Lemma encode_address e : sent_by (fun a n => is_address a /\ uint256 n) e -> logAddress (encodeEvent c e) = c.
Proof.
  intros He. assert (sent_by (fun _ _ => False) e \/ exists a ch r n x, e = SendToIbcEvent a ch r n x) as [Ho|Hi].
  { destruct e; cbn in *; auto. right. by repeat eexists. }
  - by destruct (encode_other c e Ho) as (? & ? & ? & -> & _).
  - destruct Hi as (a & ch & r & n & x & ->), He as [Ha Hn].
    by destruct (encode_ibc c a ch r n x Ha Hn) as (? & ? & ? & -> & _).
Qed.

(** No handler looks at the contract's other events. *)
Lemma unhandled_logs es (s : Sys St W) :
  Forall (sent_by (fun _ _ => False)) es -> PostTxProcessing appHandlers (encodeEvent c <$> es) s = Some (Ok tt, s).
Proof.
  unfold PostTxProcessing. induction 1 as [|e es Ho _ IH]; [done|]. cbn [fmap list_fmap forM].
  destruct (encode_other c e Ho) as (topic & topics & data & -> & Hnot). cbn [logTopics logAddress logData].
  assert (appHandlers !! topic = None) as ->; [|done].
  unfold appHandlers, NewLogProcessEvmHook. cbn. rewrite !lookup_insert_ne by set_solver. apply lookup_empty.
Qed.

(** The handlers of a log of the contract itself. *)
Lemma own_log_takes e (s s' : Sys St W) :
  sent_by (fun a n => is_address a /\ uint256 n) e ->
  (forall d', GetDenomByContract c (store s) = Some d' -> d' = d) ->
  PostTxProcessing appHandlers [encodeEvent c e] s = Some (Ok tt, s') ->
  takes (from_contract c (only d (sent_ibc [e]))) s s'.
Proof.
  intros He Hrev.
  assert (sent_by (fun _ _ => False) e \/ exists a ch r n x, e = SendToIbcEvent a ch r n x) as [Ho|Hi].
  { destruct e; cbn in *; auto. right. by repeat eexists. }
  - rewrite (unhandled_logs [e]) by by constructor. assert (sent_ibc [e] = 0) as -> by by destruct e.
    intros [= <-]. split_and!; [done|done|]. intros a d' _. unfold from_contract, only, on. repeat case_bool_decide; lia.
  - destruct Hi as (a & ch & r & n & x & ->), He as [Ha Hn].
    destruct (encode_ibc c a ch r n x Ha Hn) as (t1 & t2 & data & -> & Et & Eu).
    unfold PostTxProcessing. cbn [forM logTopics logAddress logData].
    unfold appHandlers, NewLogProcessEvmHook. cbn [foldl fst snd]. rewrite lookup_insert_eq.
    unfold SendToIbcV2_Handle. rewrite Eu, Et. intros H. runs.
    match goal with H : SendToIbc_handle _ _ _ _ _ _ = _ |- _ =>
      apply SendToIbc_handle_takes in H as (denom & Hd & Htk); [|done] end.
    apply Hrev in Hd as ->. cbn [sent_ibc]. by rewrite Z.add_0_r.
Qed.

(** All logs of a transaction: the contract loses at most what its events say
    was sent over IBC. *)
Lemma PostTx_takes logs evs (s s' : Sys St W) :
  own_logs logs = encodeEvent c <$> evs -> Forall (sent_by (fun a n => is_address a /\ uint256 n)) evs ->
  (forall d', GetDenomByContract c (store s) = Some d' -> d' = d) ->
  PostTxProcessing appHandlers logs s = Some (Ok tt, s') ->
  store s' = store s /\ tokenAt (world s') c = tokenAt (world s) c /\
  balance (world s) c d - sent_ibc evs <= balance (world s') c d.
Proof.
  revert evs s. induction logs as [|l logs IH]; intros evs s Hown Hev Hrev Hrun.
  - destruct evs; [|done]. injection Hrun as <-. cbn. split_and!; [done|done|lia].
  - assert (exists s1, PostTxProcessing appHandlers [l] s = Some (Ok tt, s1) /\
        PostTxProcessing appHandlers logs s1 = Some (Ok tt, s')) as (s1 & H1 & H2).
    { unfold PostTxProcessing in Hrun |- *. cbn [forM] in Hrun |- *. apply bind_ok_inv in Hrun as ([] & s1 & E1 & E2).
      exists s1. by rewrite (SE_bind_ok _ _ _ _ _ E1). }
    unfold own_logs in Hown. destruct (decide (logAddress l = c)) as [El|El].
    + rewrite filter_cons_True in Hown by done. destruct evs as [|e evs]; [done|]. injection Hown as -> Hown.
      apply Forall_cons in Hev as [He Hev]. apply own_log_takes in H1 as (Hst & Ht & Hb); [|done|done].
      destruct (IH evs s1) as (Hst' & Ht' & Hb'); [done|done|by rewrite Hst|done|].
      split_and!; [congruence|congruence|]. specialize (Hb c d c_not_module).
      unfold from_contract, only, on in Hb. rewrite !bool_decide_true in Hb by done.
      assert (sent_ibc (e :: evs) = sent_ibc [e] + sent_ibc evs) as -> by (destruct e; cbn; lia). lia.
    + rewrite filter_cons_False in Hown by done.
      assert (exists m, takes (from_contract (logAddress l) m) s s1) as [m (Hst & Ht & Hb)].
      { unfold PostTxProcessing in H1. cbn [forM] in H1. destruct (logTopics l) as [|topic topics] eqn:Et.
        - injection H1 as <-. apply nothing_takes.
        - destruct (appHandlers !! topic) as [h|] eqn:Eh; [|injection H1 as <-; apply nothing_takes].
          runs. by eapply handler_takes. }
      destruct (IH evs s1) as (Hst' & Ht' & Hb'); [done|done|by rewrite Hst|done|].
      split_and!; [congruence|by rewrite Ht', Ht|]. specialize (Hb c d c_not_module).
      unfold from_contract, on in Hb. rewrite bool_decide_false in Hb by done. lia.
Qed.

(** The calls of a transaction that reach the contract, in their order. *)
Fixpoint run_calls (calls : list (bytes * crc21Call (U := U))) (t : CRC21 R) : option (CRC21 R * list Event) :=
  match calls with
  | [] => Some (t, [])
  | (sender, call) :: calls =>
      '(t, ev) ← crc21_exec sender call t;
      '(t, evs) ← run_calls calls t;
      Some (t, ev ++ evs)
  end.

(** No transaction is signed by the module, and the contract does not call
    itself. *)
Definition caller_ok (p : bytes * crc21Call (U := U)) : Prop :=
  is_address p.1 /\ p.1 <> module_address /\ p.1 <> c /\ call_typed p.2.

Definition token_ok (t : CRC21 R) : Prop :=
  isSource t = false /\ forall a, isAuthorized (dsRest (tok t)) a = true -> a = module_address \/ a = c.

Lemma run_calls_supply calls t t' evs :
  Forall caller_ok calls -> token_ok t -> run_calls calls t = Some (t', evs) ->
  totalSupply (tok t') <= totalSupply (tok t) - sent_ibc evs /\ token_ok t' /\
  Forall (sent_by (fun a n => is_address a /\ uint256 n)) evs.
Proof.
  intros Hc. revert t evs. induction Hc as [|[s call] calls (Ha & Hm & Hs & Hty) Hc IH]; intros t evs [Hsrc Hau]; cbn.
  - intros [= <- <-]. cbn. split_and!; [lia|done|constructor].
  - destruct (crc21_exec s call t) as [[t1 ev]|] eqn:E1; cbn; [|done].
    destruct (run_calls calls t1) as [[t2 evs']|] eqn:E2; cbn; [|done]. intros [= <- <-]. cbn in *.
    apply user_call_supply in E1 as (Ht & He & Hau' & Hsrc' & Hsb); [|done|done| |done].
    2:{ destruct (isAuthorized _ s) eqn:E; [|done]. apply Hau in E as []; done. }
    destruct (IH t1 evs') as (Ht2 & Hok & Hsb2); [split; [done|]; intros a; rewrite Hau'; apply Hau|done|].
    destruct (sent_app ev evs') as [-> _]. split_and!; [lia|done|]. apply Forall_app. split; [|done].
    eapply Forall_impl; [exact Hsb|]. intros [] ; cbn; try done. by intros [-> ?].
Qed.

(** Tokens sent to another EVM chain are burnt, and nothing comes of it: the chain handles
    none of the events of the call. *)
Lemma evm_chain_unhandled sender rcp n chain fee x (t t' : CRC21 R) evs (s : Sys St W) :
  isSource t = false -> crc21_exec sender (SendToEvmChain (U := U) rcp n chain fee x) t = Some (t', evs) ->
  totalSupply (tok t') = totalSupply (tok t) - (n + fee) /\
  PostTxProcessing appHandlers (encodeEvent c <$> evs) s = Some (Ok tt, s).
Proof.
  intros Hs. unfold crc21_exec, withTok, send_to_evm_chain, takeTokens. rewrite Hs.
  destruct (add n fee) as [m|] eqn:Em; cbn; [|done]. apply add_inv in Em as ->.
  destruct (unsafe_burn sender (n + fee) (tok t)) as [[t1 e1]|] eqn:E; cbn; [|done].
  apply unsafe_burn_inv in E as (_ & [_ Ht] & _ & ->). intros [= <- <-]. cbn [tok]. split; [lia|].
  apply unhandled_logs. by repeat constructor.
Qed.

Lemma EVMModuleAddress_eq : EVMModuleAddress = module_address.
Proof.
  unfold EVMModuleAddress. rewrite BytesToAddress_id by apply NewModuleAddress_length.
  rewrite NewModuleAddress_spec. by vm_compute.
Qed.

Lemma logs_keep (ls : list Log) (w : W) :
  tokenAt (foldl (fun w l => AddLog l w) w ls) c = tokenAt w c /\
  forall a e, balance (foldl (fun w l => AddLog l w) w ls) a e = balance w a e.
Proof.
  revert w. induction ls as [|l ls IH]; intros w; [done|]. cbn. destruct (IH (AddLog l w)) as [-> Hb].
  destruct (AddLog_keeps l w) as [-> Hb']. split; [done|]. intros a e. by rewrite Hb.
Qed.

(** A successful call of the module runs the contract's function. *)
Lemma CallModule_runs method call a n (s s' : Sys St W) r t :
  moduleCall method a n = Some call -> is_address a -> uint256 n -> tokenAt (world s) c = Some t ->
  CallModuleCRC21 c method [AAddress a; AUint256 n] s = Some (Ok r, s') ->
  exists t' evs, crc21_exec module_address call t = Some (t', evs) /\ tokenAt (world s') c = Some t' /\
    (forall x e, balance (world s') x e = balance (world s) x e) /\ store s' = store s.
Proof.
  intros Hm Ha Hn Ht. unfold CallModuleCRC21, CallEVM. intros H. runs. destruct_pairs.
  destruct (resFailed _) eqn:Ef; runs. simplify_eq.
  match goal with H : ApplyMessage _ _ = _ |- _ =>
    eapply evm_runs in H as (t' & evs & Hx & Ht' & Hb & Hst); [|done..] end.
  rewrite EVMModuleAddress_eq in Hx. exists t', evs. split; [done|].
  destruct (inStateDB _); runs; [|done].
  match goal with |- context [foldl _ ?w ?ls] => destruct (logs_keep ls w) as [-> Hl] end.
  split_and!; [done| |done]. intros ? ?. by rewrite Hl.
Qed.

(** ** The invariant *)

Hypothesis d_ibc : IsValidIBCDenom d = true.

Definition backed (s : Sys St W) : Prop :=
  exists t, tokenAt (world s) c = Some t /\ token_ok t /\ totalSupply (tok t) <= balance (world s) c d.

(** The contract is mapped to no other denomination. *)
Definition mapped (s : Sys St W) : Prop := forall d', GetDenomByContract c (store s) = Some d' -> d' = d.

Lemma d_not_source : IsSourceCoin d = false.
Proof. unfold IsSourceCoin. destruct (denoms_disjoint d) as [H _]. by apply H. Qed.

(** Sending coins to the contract and minting tokens for them. *)
Definition mintFor (sender : bytes) (coin : Coin) : SE (Sys St W) unit :=
  coins ← orPanic (NewCoins [coin]);
  if IsSourceCoin (Denom coin) then
    _ ← onWorld (SendCoinsFromAccountToModule sender ModuleName coins);
    _ ← onWorld (BurnCoins ModuleName coins);
    _ ← CallModuleCRC21 c "transfer_from_cronos_module" [AAddress sender; AUint256 (Amount coin)];
    mret tt
  else
    _ ← onWorld (SendCoins sender c coins);
    _ ← CallModuleCRC21 c "mint_by_cronos_module" [AAddress sender; AUint256 (Amount coin)];
    mret tt.

Lemma mint_backed sender n (s s' : Sys St W) :
  sender <> c -> is_address sender -> uint256 n -> backed s ->
  mintFor sender (mkCoin d n) s = Some (Ok tt, s') -> backed s' /\ store s' = store s.
Proof.
  intros Hs Hsa Hn (t & Ht & [Hsrc Hau] & Hb). unfold mintFor. cbn [Denom Amount].
  rewrite d_not_source. intros H. runs.
  match goal with H : SendCoins _ _ _ _ = _ |- _ =>
    pose proof (SendCoins_tok _ _ _ _ _ c H) as Ht1; apply SendCoins_ok in H as [Hb1 _] end.
  match goal with H : NewCoins _ = Some _ |- _ => pose proof (single_amount_eq _ _ H) as Ha end. cbn in Ha.
  match goal with H : CallModuleCRC21 _ _ _ _ = _ |- _ =>
    eapply (CallModule_runs _ _ _ _ _ _ _ t) in H as (t' & evs & Hx & Ht' & Hb2 & Hst); [|done..|cbn; congruence] end.
  cbn in Hx. unfold mint_by_cronos_module in Hx. cbn in Hx.
  destruct (mint module_address sender n (tok t)) as [[t2 ev]|] eqn:Em; [|done]. cbn in Hx. injection Hx as <- <-.
  apply mint_inv in Em as (_ & [_ Hsup] & Hsame & _). split; [|done]. eexists. split; [exact Ht'|].
  split; [split; [done|]; intros a; cbn; rewrite Hsame; apply Hau|]. cbn [tok]. rewrite Hb2, Hsup. cbn [world].
  rewrite Hb1, Ha. unfold on. rewrite (bool_decide_false (c = sender)), (bool_decide_true (c = c)) by done. lia.
Qed.

Lemma convert_in_backed sender n auto (s s' : Sys St W) :
  sender <> c -> is_address sender -> uint256 n -> GetContractByDenom d (store s) = Some c -> backed s ->
  ConvertCoinFromNativeToCRC21 sender (mkCoin d n) auto s = Some (Ok tt, s') -> backed s' /\ store s' = store s.
Proof.
  intros Hs Hsa Hn Hc Hbk. unfold ConvertCoinFromNativeToCRC21. cbn [Denom].
  destruct (negb _); [done|]. intros (c' & s1 & H1 & H2)%bind_ok_inv.
  unfold contractFor in H1. revert H2. runs. rewrite Hc in *. runs. subst. by apply (mint_backed sender n s s').
Qed.

Lemma convert_out_backed receiver n (s s' : Sys St W) :
  is_address receiver -> uint256 n -> mapped s -> backed s ->
  ConvertCoinFromCRC21ToNative c receiver n s = Some (Ok tt, s') -> backed s' /\ store s' = store s.
Proof.
  intros Hr Hn Hmap (t & Ht & [Hsrc Hau] & Hb). unfold ConvertCoinFromCRC21ToNative. intros H. runs.
  destruct (GetDenomByContract c (store s)) as [d'|] eqn:Ed; [|done]. apply Hmap in Ed as ->.
  rewrite d_not_source in *. runs.
  match goal with H : newCoins _ _ _ = _ |- _ => destruct (newCoins_amount _ _ _ _ _ d H) as [Ha ->] end.
  rewrite bool_decide_true in Ha by done. cbn [world store] in *.
  match goal with H : SendCoins _ _ _ _ = _ |- _ =>
    pose proof (SendCoins_tok _ _ _ _ _ c H) as Ht1; apply SendCoins_ok in H as [Hb1 _] end.
  match goal with H : CallModuleCRC21 _ _ _ _ = _ |- _ =>
    eapply (CallModule_runs _ _ _ _ _ _ _ t) in H as (t' & evs & Hx & Ht' & Hb2 & Hst); [|done..|cbn; congruence] end.
  cbn in Hx. unfold burn_by_cronos_module in Hx. cbn in Hx.
  destruct (unsafe_burn receiver n (tok t)) as [[t2 ev]|] eqn:Em; [|done]. cbn in Hx. injection Hx as <- <-.
  apply unsafe_burn_inv in Em as (_ & [_ Hsup] & Hsame & _). split; [|done]. eexists. split; [exact Ht'|].
  split; [split; [done|]; intros a; cbn; rewrite Hsame; apply Hau|]. cbn [tok]. rewrite Hb2, Hsup. cbn [world].
  rewrite Hb1, Ha. unfold on, uint256 in *. rewrite (bool_decide_true (c = c)) by done. case_bool_decide; lia.
Qed.

(** A denomination without a contract: one is deployed first. *)
Lemma deploy_backed sender n (s s' : Sys St W) :
  sender <> c -> is_address sender -> uint256 n -> GetContractByDenom d (store s) = None ->
  c = CreateAddress EVMModuleAddress (GetNonce EVMModuleAddress (world s)) -> 0 <= balance (world s) c d ->
  ConvertCoinFromNativeToCRC21 sender (mkCoin d n) true s = Some (Ok tt, s') ->
  backed s' /\ store s' = SetAutoContractForDenom d c (store s).
Proof.
  intros Hs Hsa Hn Hc Ec Hpos. unfold ConvertCoinFromNativeToCRC21. cbn [Denom].
  destruct (negb _); [done|]. intros (c' & s1 & H1 & H2)%bind_ok_inv.
  unfold contractFor, DeployModuleCRC21, CallEVM in H1. revert H2. runs. rewrite Hc in *.
  cbn [negb] in *. runs. destruct_pairs. destruct (resFailed _) eqn:Ef; runs. simplify_eq. cbn [msgNonce] in *.
  match goal with H : ApplyMessage _ _ = _ |- _ =>
    eapply evm_creates in H as (Ht & Hb & Hst); [|done..] end.
  cbn [msgNonce] in Ht. rewrite <- Ec in *. intros Hmint.
  apply (mint_backed sender n) in Hmint as [Hbk Hst']; [|done..|].
  - split; [done|]. rewrite Hst'. cbn [store]. destruct (inStateDB _); runs; cbn [store]; congruence.
  - exists (newCRC21 c EVMModuleAddress d 0 false). cbn [world]. destruct (newToken_inv c EVMModuleAddress d) as (Hs0 & _ & Hau).
    split; [|split; [split; [done|]|]].
    + destruct (inStateDB _); runs; [|exact Ht].
      match goal with |- context [foldl _ ?w ?ls] => destruct (logs_keep ls w) as [-> _] end. exact Ht.
    + cbn. rewrite <- EVMModuleAddress_eq. apply Hau.
    + cbn [tok newCRC21]. rewrite Hs0. etransitivity; [exact Hpos|]. rewrite <- Hb.
      destruct (inStateDB _); runs; [|done].
      match goal with |- context [foldl _ ?w ?ls] => destruct (logs_keep ls w) as [_ ->] end. done.
Qed.

(** ** The life of the contract

    Coins are converted in and out by the keeper; transactions call the
    contract, and the hook then processes their logs (when it fails, the transaction
    is reverted); everything else leaves the contract alone and takes no coins from it. *)
Inductive bridge : Sys St W -> Sys St W -> Prop :=
| bridge_in sender n auto s s' :
    sender <> c -> is_address sender -> uint256 n -> GetContractByDenom d (store s) = Some c ->
    ConvertCoinFromNativeToCRC21 sender (mkCoin d n) auto s = Some (Ok tt, s') -> bridge s s'
| bridge_out receiver n s s' :
    is_address receiver -> uint256 n ->
    ConvertCoinFromCRC21ToNative c receiver n s = Some (Ok tt, s') -> bridge s s'
| bridge_tx calls t t' evs w1 logs s s' :
    Forall caller_ok calls -> tokenAt (world s) c = Some t -> run_calls calls t = Some (t', evs) ->
    tokenAt w1 c = Some t' -> balance (world s) c d <= balance w1 c d ->
    own_logs logs = encodeEvent c <$> evs ->
    PostTxProcessing appHandlers logs (mkSys (store s) w1) = Some (Ok tt, s') -> bridge s s'
| bridge_other s s' :
    tokenAt (world s') c = tokenAt (world s) c -> balance (world s) c d <= balance (world s') c d -> mapped s' ->
    bridge s s'.

Lemma bridge_keeps s s' : bridge s s' -> backed s -> mapped s -> backed s' /\ mapped s'.
Proof.
  intros [sender n auto|receiver n|calls t t' evs w1 logs|] Hb Hm.
  - by destruct (convert_in_backed sender n auto s0 s'0) as [? Hst]; [done..|]; unfold mapped; rewrite Hst.
  - by destruct (convert_out_backed receiver n s0 s'0) as [? Hst]; [done..|]; unfold mapped; rewrite Hst.
  - destruct Hb as (t0 & Ht0 & Hok & Hle). simplify_eq.
    match goal with H : run_calls _ _ = _ |- _ => apply run_calls_supply in H as (Hsup & Hok' & Hsb); [|done..] end.
    match goal with H : PostTxProcessing _ _ _ = _ |- _ => eapply PostTx_takes in H as (Hst & Htk & Hbal); [|done..] end.
    cbn [store world] in *. split; [|unfold mapped; by rewrite Hst].
    exists t'. split_and!; [congruence|done|lia].
  - destruct Hb as (t0 & Ht0 & Hok & Hle). split; [|done]. exists t0. split_and!; [congruence|done|lia].
Qed.

(** C2: Bridged tokens are backed: from the conversion that deploys the contract on, after
    any sequence of conversions in and out, of EVM transactions calling any of the
    contract's functions in any order with the hook processing their logs (among the logs of
    any other contracts), and of other activity, the tokens the contract has issued never
    exceed the native coins at its address. *)
Theorem crc21_backed sender n (s0 s1 s : Sys St W) :
  sender <> c -> is_address sender -> uint256 n -> GetContractByDenom d (store s0) = None ->
  c = CreateAddress EVMModuleAddress (GetNonce EVMModuleAddress (world s0)) -> 0 <= balance (world s0) c d ->
  ConvertCoinFromNativeToCRC21 sender (mkCoin d n) true s0 = Some (Ok tt, s1) -> rtc bridge s1 s ->
  exists t, tokenAt (world s) c = Some t /\ totalSupply (tok t) <= balance (world s) c d.
Proof.
  intros Hs Ha Hn Hc Ec Hpos Hrun Hr.
  assert (backed s1 /\ mapped s1) as H1.
  { destruct (deploy_backed sender n s0 s1) as [Hb Hst]; [done..|]. split; [done|].
    unfold mapped. rewrite Hst. destruct (SetAuto_views d c (store s0)) as (_ & _ & Hrev); [|done|].
    - intros E. rewrite E in d_ibc. done.
    - intros d'. rewrite Hrev, decide_True by done. by intros [= <-]. }
  assert (backed s /\ mapped s) as [(t & Ht & _ & Hle) _].
  { clear Hrun. induction Hr as [|x y z Hxy Hr IH]; [done|]. apply IH. destruct H1. by apply (bridge_keeps x y). }
  by exists t.
Qed.

End Backing.

(** ** The concrete chain *)

(** Strings in the data of an event: every character after a mark. *)
Fixpoint packString (b : bytes) : bytes :=
  match b with [] => [x00] | x :: b => x01 :: x :: packString b end.

Fixpoint unpackString (b : bytes) : bytes * bytes :=
  match b with
  | x01 :: x :: b => let '(s, rest) := unpackString b in (x :: s, rest)
  | _ :: rest => ([], rest)
  | [] => ([], [])
  end.

Lemma unpack_pack b rest : unpackString (packString b ++ rest) = (b, rest).
Proof. induction b as [|x b IH]; cbn; [done|]. by rewrite IH. Qed.

#[global] Instance plain_abi : EventABI := {
  SendToAccountID := [x01];
  SendToIbcID := [x02];
  SendToIbcV2ID := [x03];
  SendCroToIbcID := [x04];
  UnpackSendToAccount _ := Err "abi";
  UnpackSendToIbc _ := Err "abi";
  UnpackSendToIbcV2 data :=
    let '(r, x) := unpackString (drop 32 data) in Ok (string_of_bytes r, le_val (take 32 data), x);
  UnpackSendCroToIbc _ := Err "abi"
}.

#[global] Instance ledger_tokens : TokenWorld Ledger bytes := {
  tokenAt w c := lTok w !! c;
  encodeEvent c e :=
    match e with
    | SendToIbcEvent a ch r n x => mkLog c [[x03]; a; []] (le_bytes 32 n ++ packString (bytes_of_string r) ++ x)
    | _ => mkLog c [[x09]] []
    end
}.

Section ChainLaws.
#[local] Existing Instance plain_libs.
#[local] Existing Instance plain_libs_laws.
#[local] Existing Instance ledger_bank.
#[local] Existing Instance ledger_evm.
#[local] Existing Instance ledger_transfer.
#[local] Existing Instance ledger_laws.

Lemma ledgerSend_tok a b cs w w' : ledgerSend a b cs w = Some (Ok tt, w') -> lTok w' = lTok w.
Proof. unfold ledgerSend. destruct (enough a cs w); [|done]. by intros [= <-]. Qed.

Lemma ledgerMake_tok k a cs w w' : ledgerMake k a cs w = Some (Ok tt, w') -> lTok w' = lTok w.
Proof. unfold ledgerMake. destruct (_ || _); [|done]. by intros [= <-]. Qed.

Lemma le_val_32 n : uint256 n -> le_val (le_bytes 32 n) = n.
Proof. intros Hn. rewrite le_val_bytes. apply Z.mod_small. exact Hn. Qed.

Lemma decode_call method a n call :
  moduleCall method a n = Some call -> is_address a -> uint256 n ->
  decodeCall (methodCode method :: a ++ le_bytes 32 n) = Some call.
Proof.
  intros Hm Ha Hn. unfold decodeCall. rewrite take_app_length', drop_app_length', le_val_32 by done.
  revert Hm. unfold moduleCall, methodCode. repeat case_match; intros; simplify_eq; done.
Qed.

Lemma ledger_runs (method : string) (call : crc21Call (U := bytes * Z)) (a : bytes) (n : Z) (data : bytes) (msg : Message)
    (s s' : Sys (gmap bytes bytes) Ledger) (r : EVMResult) (c : bytes) (t : CRC21 bytes) :
  moduleCall method a n = Some call -> is_address a -> uint256 n ->
  data = methodCode method :: a ++ le_bytes 32 n ->
  msgFrom msg = EVMModuleAddress -> msgTo msg = Some c -> msgData msg = data ->
  lTok (world s) !! c = Some t -> ledgerApply msg s = Some (Ok r, s') -> resFailed r = false ->
  exists t' evs, crc21_exec EVMModuleAddress call t = Some (t', evs) /\ lTok (world s') !! c = Some t' /\
    lBal (world s') = lBal (world s) /\ store s' = store s.
Proof.
  intros Hm Ha Hn -> Hf Hto Hd Ht. unfold ledgerApply. rewrite Hto, Ht, Hd, Hf.
  rewrite (decode_call _ _ _ _ Hm Ha Hn).
  destruct (crc21_exec EVMModuleAddress call t) as [[t' evs]|] eqn:Ex; intros [= <- <-]; [|done].
  intros _. exists t', evs. cbn [world store setTok lTok lBal]. split_and!; [done| |done|done].
  by rewrite lookup_insert_eq.
Qed.

#[local] Instance ledger_bridge : BridgeLaws (gmap bytes bytes) Ledger bytes (bytes * Z).
Proof.
  split.
  - intros a b cs w w' c H. cbn. by rewrite (ledgerSend_tok _ _ _ _ _ H).
  - intros m b cs w w' c. unfold SendCoinsFromModuleToAccount, ledger_bank. case_bool_decide; [done|].
    intros Hm. cbn. by rewrite (ledgerSend_tok _ _ _ _ _ Hm).
  - intros a m cs w w' c H. cbn. by rewrite (ledgerSend_tok _ _ _ _ _ H).
  - intros m cs w w' c H. cbn. by rewrite (ledgerMake_tok _ _ _ _ _ H).
  - intros m cs w w' c H. cbn. by rewrite (ledgerMake_tok _ _ _ _ _ H).
  - intros msg acc w w'. unfold Transfer, ledger_transfer. intros Ht Hs. rewrite Hs in Ht.
    destruct (AccAddressFromBech32 (AccAddressString acc)) as [acc'|] eqn:Ea; [|done].
    apply plain_FromBech32_String in Ea as ->. split; [intros c; cbn; by rewrite (ledgerMake_tok _ _ _ _ _ Ht)|].
    apply ledgerMake_made in Ht as [Hb _]. intros a d. rewrite Hb. unfold on. case_bool_decide; lia.
  - done.
  - intros method call a n data msg s r s' c t Hm Ha Hn Hp Hf Hto _ Hd Ht Hrun Hfail. injection Hp as <-.
    destruct (ledger_runs method call a n (methodCode method :: a ++ le_bytes 32 n) msg s s' r c t) as (t' & evs & Hx & Ht' & Hb & Hst); [done..|].
    exists t', evs. split_and!; [done|done| |done]. intros x d. cbn. by rewrite Hb.
  - intros denom ctor msg s r s' Hp Hf Hto Hd. injection Hp as <-. unfold ApplyMessage, ledger_evm, ledgerApply.
    rewrite Hto, Hd, Hf. cbn [app]. intros [= <- <-] _. cbn [world store setTok].
    split_and!; [|done|done]. etransitivity; [apply lookup_insert_eq|]. by rewrite string_bytes.
  - intros c a ch r n x Ha Hn. eexists a, [], _. split; [reflexivity|]. split; [by apply toAddress_id|].
    unfold UnpackSendToIbcV2, plain_abi. rewrite drop_app_length', take_app_length' by (by rewrite length_le_bytes).
    by rewrite unpack_pack, string_bytes, le_val_32.
  - intros c e He. exists [x09], [], []. split; [by destruct e|]. set_solver.
  - done.
  - done.
Qed.

(** A holder converts ten vouchers, which deploys the contract, and sends three
    tokens back over IBC in a transaction. *)
Definition ex_denom : string := "ibc/AAAAAAAAAAAAAAAAAAAAAAAAAAAAAAAAAAAAAAAAAAAAAAAAAAAAAAAAAAAAAAAA".
Definition ex_contract : bytes := CreateAddress EVMModuleAddress 0.
Definition ex_s0 : Sys (gmap bytes bytes) Ledger :=
  mkSys (default ∅ (must (SetParams DefaultParams ∅)))
    (mkLedger {[(ex_holder, ex_denom) := 10]} {[ex_denom := 10]} 0 ∅).

Definition ex_calls : list (bytes * crc21Call (U := bytes * Z)) := [(ex_holder, SendToIbc "cosmos1abc" 3 0 [])].

(** Run the transaction and the hook, and look at what is left. *)
Definition tx_leaves (c : bytes) (calls : list (bytes * crc21Call (U := bytes * Z))) (d : string) (n : Z)
    (s : Sys (gmap bytes bytes) Ledger) : bool :=
  match lTok (world s) !! c with
  | Some t =>
      match run_calls calls t with
      | Some (t', evs) =>
          runs_to (PostTxProcessing appHandlers (encodeEvent c <$> evs) (mkSys (store s) (setTok c t' (world s))))
            (fun s => balance (world s) c d =? n)
      | None => false
      end
  | None => false
  end.

Lemma tx_leaves_bridge c calls d n s :
  Forall (caller_ok c) calls -> tx_leaves c calls d n s = true ->
  exists s', bridge c d s s' /\ balance (world s') c d = n.
Proof.
  intros Hc. unfold tx_leaves. destruct (lTok (world s) !! c) as [t|] eqn:Et; [|done].
  destruct (run_calls calls t) as [[t' evs]|] eqn:Er; [|done].
  intros (s' & Hr & Hn%Z.eqb_eq)%runs_to_inv. exists s'. split; [|done].
  eapply (bridge_tx c d calls t t' evs (setTok c t' (world s)) (encodeEvent c <$> evs)); try done.
  - apply lookup_insert_eq.
  - unfold own_logs. clear. induction evs as [|e evs IH]; [done|]. cbn [fmap list_fmap].
    rewrite filter_cons_True by (by destruct e). f_equal. exact IH.
Qed.

Lemma ex_calls_ok : Forall (caller_ok ex_contract) ex_calls.
Proof. apply Forall_cons_2; [|apply Forall_nil_2]. split_and!; [by vm_compute..|]. cbn. unfold uint256. lia. Qed.

Lemma crc21_backed_witness :
  exists (s1 s2 : Sys (gmap bytes bytes) Ledger), ConvertCoinFromNativeToCRC21 ex_holder (mkCoin ex_denom 10) true ex_s0 = Some (Ok tt, s1) /\
    balance (world s2) ex_contract ex_denom = 7 /\
    exists t, tokenAt (world s2) ex_contract = Some t /\
      totalSupply (tok t) <= balance (world s2) ex_contract ex_denom.
Proof.
  destruct (runs_to_inv (ConvertCoinFromNativeToCRC21 ex_holder (mkCoin ex_denom 10) true ex_s0)
    (tx_leaves ex_contract ex_calls ex_denom 7)) as (s1 & E1 & Ht); [vm_compute; reflexivity|].
  destruct (tx_leaves_bridge _ _ _ _ _ ex_calls_ok Ht) as (s2 & Hbr & Hn).
  exists s1, s2. split; [exact E1|]. split; [exact Hn|].
  eapply (crc21_backed (fun a => a = NewModuleAddress ModuleName) ex_contract ex_denom) with
    (sender := ex_holder) (n := 10) (s0 := ex_s0) (s1 := s1).
  - by vm_compute.
  - by vm_compute.
  - by vm_compute.
  - by vm_compute.
  - by vm_compute.
  - unfold uint256. lia.
  - by vm_compute.
  - vm_compute. reflexivity.
  - apply Z.leb_le. vm_compute. reflexivity.
  - exact E1.
  - apply rtc_once, Hbr.
Defined.

End ChainLaws.
