(* ===== verification/BlockList.v ===== *)
(** * Blocked addresses: [app/proposal.go], [app/block_address.go]

    Validators decrypt a list of addresses the admin stores on chain and keep
    transactions that involve them out of blocks, when they build a proposal and
    when they vote on one.  A second list, of the node's configuration, is
    checked when transactions enter the mempool. *)

From S2P Require Import Prelude Ctx CronosTypes CronosKeeper.
From Stdlib Require Import Strings.Byte.

Open Scope string_scope.
Open Scope Z_scope.
Open Scope list_scope.

(** ** What the code uses of other packages *)

(** A code authorization of EIP-7702: the address whose code is used, and the
    account that signed, which [Authority] recovers from the signature. *)
Record SetCodeAuthorization := mkAuth { authAddress : bytes; Authority : result bytes }.

(** An Ethereum transaction: its destination, none for the creation of a
    contract, and its authorizations. *)
Record EthTx := mkEthTx { ethTo : option bytes; SetCodeAuthorizations : list SetCodeAuthorization }.

Inductive TxMsg :=
| MsgEthereumTx (tx : EthTx)
| StoreBlockListMsg (m : MsgStoreBlockList)
| OtherMsg.

(** Transactions of the SDK.  [SigSigners] is [None] for a type that does not implement
    [SigVerifiableTx]. *)
Class TxLib (Tx : Type) := {
  TxDecoder : bytes -> result Tx;
  SigSigners : Tx -> option (result (list bytes));
  GetMsgs : Tx -> list TxMsg
}.

(** [address.Codec], and [sdk.AccAddress.String] next to it. *)
Class AddressCodec := {
  StringToBytes : string -> result bytes;
  BytesToString : bytes -> result string
}.

(** The application's codec agrees with [sdk.AccAddress]. *)
Class CodecLaws {L : Libs} {AC : AddressCodec} : Prop := {
  BytesToString_String a s : BytesToString a = Ok s -> s = AccAddressString a
}.

(** Decryption with an identity of the [age] package, which gives a reader, reading it to
    its end, and decoding the JSON document [BlockList]. *)
Class BlockListLib (Identity Reader : Type) := {
  age_Decrypt : bytes -> Identity -> result Reader;
  ReadAll : Reader -> result bytes;
  UnmarshalBlockList : bytes -> result (list string)
}.

(** The transaction selector of [baseapp] that [ExtTxSelector] extends. *)
Class TxSelector (S : Type) := {
  ParentSelect : Z -> Z -> bytes -> Z -> S -> S * bool;
  ParentSelectFast : list bytes -> S -> S * list bytes;
  SelectedTxs : S -> list bytes
}.

(** It takes the transaction it is given or leaves it, and the fast variant returns some of
    the given transactions. *)
Class TxSelectorLaws (S : Type) `{TxSelector S} : Prop := {
  ParentSelect_ok maxBytes maxGas tx gas s :
    SelectedTxs (ParentSelect maxBytes maxGas tx gas s).1 = SelectedTxs s \/
    SelectedTxs (ParentSelect maxBytes maxGas tx gas s).1 = SelectedTxs s ++ [tx];
  ParentSelectFast_ok txs s tx : tx ∈ (ParentSelectFast txs s).2 -> tx ∈ txs
}.

Section Proposal.
Context {L : Libs} {AC : AddressCodec} {Tx : Type} {TL : TxLib Tx} {Identity Reader : Type} {BL : BlockListLib Identity Reader}.

(** ** [ProposalHandler] *)

(** [blocklist] is a [map[string]struct{}]; a [nil] [lastBlockList] equals the empty slice. *)
Record ProposalHandler := mkHandler {
  identity : option Identity;
  blocklist : gset string;
  lastBlockList : bytes
}.

Definition NewProposalHandler (id : option Identity) : ProposalHandler := mkHandler id ∅ [].

Definition setLast (blob : bytes) (h : ProposalHandler) : ProposalHandler := mkHandler (identity h) (blocklist h) blob.
Definition setList (m : gset string) (h : ProposalHandler) : ProposalHandler := mkHandler (identity h) m (lastBlockList h).

(** [convert to map]: the addresses are decoded and encoded again. *)
Fixpoint convertAddresses (addresses : list string) (m : gset string) : result (gset string) :=
  match addresses with
  | [] => Ok m
  | s :: addresses =>
      addr ← StringToBytes s;
      encoded ← BytesToString addr;
      convertAddresses addresses ({[encoded]} ∪ m)
  end.

Definition SetBlockList (blob : bytes) : SE ProposalHandler unit :=
  id ← gets identity;
  match id with
  | None => mret tt
  | Some id =>
      last ← gets lastBlockList;
      if bytes_eqb last blob then mret tt
      else
        _ ← modify (setLast blob);
        if Nat.eqb (length blob) 0 then modify (setList ∅)
        else
          reader ← orErr (age_Decrypt blob id);
          data ← orErr (ReadAll reader);
          addresses ← orErr (UnmarshalBlockList data);
          m ← orErr (convertAddresses addresses ∅);
          modify (setList m)
  end.

(** [RefreshBlockList] of [app.go], run at the start and at the end of every block. *)
Definition RefreshBlockList {St} {KS : KVStore St} (st : St) : SE ProposalHandler unit :=
  SetBlockList (default [] (GetBlockList st)).

Definition ErrBlocked : error := "address is blocked".

(** Encode the address and look it up. *)
Definition checkAddress (h : ProposalHandler) (a : bytes) : result unit :=
  encoded ← BytesToString a; fail_if (bool_decide (encoded ∈ blocklist h)) ErrBlocked.

Fixpoint forEach {A} (f : A -> result unit) (l : list A) : result unit :=
  match l with
  | [] => Ok tt
  | x :: l => f x ;; forEach f l
  end.

Definition validateAuth (h : ProposalHandler) (auth : SetCodeAuthorization) : result unit :=
  (match Authority auth with
   | Ok addr => fail_if (bool_decide (AccAddressString addr ∈ blocklist h)) ErrBlocked
   | Err _ => Ok tt
   end) ;;
  checkAddress h (authAddress auth).

Definition validateMsg (h : ProposalHandler) (msg : TxMsg) : result unit :=
  match msg with
  | MsgEthereumTx ethTx =>
      (match ethTo ethTx with Some a => checkAddress h a | None => Ok tt end) ;;
      forEach (validateAuth h) (SetCodeAuthorizations ethTx)
  | _ => Ok tt
  end.

Definition ValidateTransaction (h : ProposalHandler) (tx : option Tx) (txBz : bytes) : result unit :=
  if bool_decide (blocklist h = ∅) then Ok tt
  else
    tx ← match tx with Some tx => Ok tx | None => TxDecoder txBz end;
    match SigSigners tx with
    | None => Err "tx does not implement SigVerifiableTx"
    | Some signers =>
        signers ← signers;
        forEach (checkAddress h) signers ;;
        forEach (validateMsg h) (GetMsgs tx)
    end.

Definition is_Ok {A} (r : result A) : bool := match r with Ok _ => true | Err _ => false end.

(** The status of the response: accept or reject. *)
Definition ProcessProposalHandler (h : ProposalHandler) (txs : list bytes) : bool :=
  if bool_decide (blocklist h = ∅) then true
  else forallb (fun txBz => is_Ok (ValidateTransaction h None txBz)) txs.

(** ** [ExtTxSelector] *)
Section Selector.
Context {S : Type} {TS : TxSelector S} (ValidateTx : option Tx -> bytes -> result unit).

(** The result says whether the block is full. *)
Definition SelectTxForProposal (maxTxBytes maxBlockGas : Z) (memTx : option Tx) (txBz : bytes) (gasWanted : Z) (s : S) : S * bool :=
  match ValidateTx memTx txBz with
  | Err _ => (s, false)
  | Ok _ => ParentSelect maxTxBytes maxBlockGas txBz gasWanted s
  end.

(** The positions of the transactions that are not valid. *)
Fixpoint invalidTxs (i : nat) (txs : list bytes) : list nat :=
  match txs with
  | [] => []
  | txBz :: txs =>
      match ValidateTx None txBz with
      | Ok _ => invalidTxs (1 + i) txs
      | Err _ => i :: invalidTxs (1 + i) txs
      end
  end.

(** The loop that copies the others, with its position in the list of positions. *)
Fixpoint dropInvalid (i offset : nat) (invalid : list nat) (txs : list bytes) : list bytes :=
  match txs with
  | [] => []
  | txBz :: txs =>
      if Nat.ltb offset (length invalid) && bool_decide (invalid !! offset = Some i)
      then dropInvalid (1 + i) (1 + offset) invalid txs
      else txBz :: dropInvalid (1 + i) offset invalid txs
  end.

Definition SelectTxForProposalFast (txs : list bytes) (s : S) : S * list bytes :=
  let invalid := invalidTxs 0 txs in
  let txs := if Nat.ltb 0 (length invalid) then dropInvalid 0 0 invalid txs else txs in
  ParentSelectFast txs s.
End Selector.

(** ** [BlockAddressesDecorator] *)
Section Decorator.
Context {St : Type} {KS : KVStore St} {W : Type} (blockedMap : gset string).

Definition checkBlocked (a : bytes) : result unit :=
  fail_if (bool_decide (AccAddressString a ∈ blockedMap)) ErrBlocked.

Definition anteAuth (auth : SetCodeAuthorization) : result unit :=
  (match Authority auth with Ok addr => checkBlocked addr | Err _ => Ok tt end) ;;
  checkBlocked (authAddress auth).

Definition anteMsg (msg : TxMsg) : result unit :=
  match msg with
  | MsgEthereumTx ethTx =>
      (match ethTo ethTx with Some a => checkBlocked a | None => Ok tt end) ;;
      forEach anteAuth (SetCodeAuthorizations ethTx)
  | _ => Ok tt
  end.

Definition anteAdmin (admin : string) (msg : TxMsg) : result unit :=
  match msg with
  | StoreBlockListMsg m => fail_if (bool_decide (admin <> blFrom m)) ErrUnauthorized
  | _ => Ok tt
  end.

Definition AnteHandle (isCheckTx : bool) (tx : Tx) (next : SE (Sys St W) unit) : SE (Sys St W) unit :=
  _ ← (if isCheckTx then
         _ ← match SigSigners tx with
             | Some signers => signers ← orErr signers; orErr (forEach checkBlocked signers)
             | None => mret tt
             end;
         _ ← orErr (forEach anteMsg (GetMsgs tx));
         params ← getStore GetParams;
         params ← orPanic params;
         orErr (forEach (anteAdmin (CronosAdmin params)) (GetMsgs tx))
       else mret tt);
  next.
End Decorator.
End Proposal.
Arguments ProposalHandler : clear implicits.

(** ** The list in force *)
Section Spec.
Context {L : Libs} {LL : LibsLaws} {AC : AddressCodec} {CL : CodecLaws} {Tx : Type} {TL : TxLib Tx}
  {Identity Reader : Type} {BL : BlockListLib Identity Reader}.

(** The addresses of a stored list; none when it cannot be decrypted or decoded. *)
Definition decodeList (id : Identity) (blob : bytes) : option (list bytes) :=
  if Nat.eqb (length blob) 0 then Some []
  else
    match
      reader ← age_Decrypt blob id;
      data ← ReadAll reader;
      addresses ← UnmarshalBlockList data;
      addrs ← mapM StringToBytes addresses;
      _ ← mapM BytesToString addrs;
      Ok addrs
    with
    | Ok addrs => Some addrs
    | Err _ => None
    end.

(** The last list that could be decoded counts. *)
Definition inForce (id : Identity) (blobs : list bytes) : list bytes :=
  default [] (last (omap (decodeList id) blobs)).

(** The handler after one refresh per block; an error is only logged. *)
Definition refresh (h : ProposalHandler Identity) (blob : bytes) : ProposalHandler Identity :=
  match SetBlockList blob h with Some (_, h) => h | None => h end.

Definition refreshes (id : Identity) (blobs : list bytes) : ProposalHandler Identity :=
  foldl refresh (NewProposalHandler (Some id)) blobs.

Definition encodable (a : bytes) : Prop := is_Ok (BytesToString a) = true.

(** The set of strings stands for the addresses. *)
Definition blocks (h : ProposalHandler Identity) (addrs : list bytes) : Prop :=
  Forall encodable addrs /\ forall e, e ∈ blocklist h <-> exists a, a ∈ addrs /\ BytesToString a = Ok e.

Definition ethTxs (tx : Tx) : list EthTx := omap (fun m => match m with MsgEthereumTx t => Some t | _ => None end) (GetMsgs tx).
Definition auths (tx : Tx) : list SetCodeAuthorization := t ← ethTxs tx; SetCodeAuthorizations t.

(** The addresses a transaction names, its signers apart, and those that signed an
    authorization in it. *)
Definition targets (tx : Tx) : list bytes := omap ethTo (ethTxs tx) ++ (authAddress <$> auths tx).
Definition authorities (tx : Tx) : list bytes :=
  omap (fun a => match Authority a with Ok x => Some x | Err _ => None end) (auths tx).

(** A transaction that has nothing to do with the given addresses. *)
Definition clean (addrs : list bytes) (txBz : bytes) : Prop :=
  exists tx signers, TxDecoder txBz = Ok tx /\ SigSigners tx = Some (Ok signers) /\
    Forall encodable (signers ++ targets tx) /\
    forall a, a ∈ signers ++ targets tx ++ authorities tx -> a ∉ addrs.

Lemma and_iff_distr (A B C D : Prop) : (A <-> C) -> (B <-> D) -> (A /\ B <-> C /\ D).
Proof. tauto. Qed.

Lemma forall_iff {A} (P Q : A -> Prop) : (forall x, P x <-> Q x) -> (forall x, P x) <-> (forall x, Q x).
Proof. intros H. split; intros Hp x; by apply H. Qed.

Lemma is_Ok_bind {A B} (r : result A) (k : A -> result B) :
  is_Ok (x ← r; k x) = match r with Ok x => is_Ok (k x) | Err _ => false end.
Proof. by destruct r. Qed.

Lemma is_Ok_fail_if b e : is_Ok (fail_if b e) = negb b.
Proof. by destruct b. Qed.

Lemma forEach_ok {A} (f : A -> result unit) l : is_Ok (forEach f l) = true <-> Forall (fun x => is_Ok (f x) = true) l.
Proof.
  induction l as [|x l IH]; cbn [forEach]; [by split; [constructor|]|]. rewrite is_Ok_bind, Forall_cons.
  destruct (f x) as [[]|e]; cbn; [rewrite IH|]; naive_solver.
Qed.

(** Lookups of encoded addresses are lookups of addresses. *)
Lemma blocked_string h addrs a : blocks h addrs -> AccAddressString a ∈ blocklist h <-> a ∈ addrs.
Proof.
  intros [He Hb]. rewrite Hb. split.
  - intros (b & Hin & E). apply BytesToString_String, AccAddressString_inj in E as ->. done.
  - intros Hin. rewrite Forall_forall in He. specialize (He a Hin). unfold encodable in He.
    destruct (BytesToString a) as [e|] eqn:E; [|done]. exists a. by rewrite <- (BytesToString_String a e).
Qed.

Lemma checkAddress_ok h addrs a :
  blocks h addrs -> is_Ok (checkAddress h a) = true <-> encodable a /\ a ∉ addrs.
Proof.
  intros Hb. unfold checkAddress, encodable. rewrite is_Ok_bind. destruct (BytesToString a) as [e|] eqn:E; [|naive_solver].
  apply BytesToString_String in E as ->. rewrite is_Ok_fail_if, negb_true_iff, bool_decide_eq_false.
  rewrite (blocked_string h addrs) by done. naive_solver.
Qed.

Lemma blocks_empty h addrs : blocks h addrs -> blocklist h = ∅ <-> addrs = [].
Proof.
  intros Hb. split.
  - intros E. destruct addrs as [|a addrs]; [done|].
    assert (AccAddressString a ∈ blocklist h) as H by (apply (blocked_string h (a :: addrs)); [done|constructor]).
    rewrite E in H. set_solver.
  - intros ->. apply set_eq. intros e. destruct Hb as [_ Hb]. rewrite Hb. set_solver.
Qed.

Lemma validateAuth_ok h addrs x : blocks h addrs -> is_Ok (validateAuth h x) = true <->
  (forall a, Authority x = Ok a -> a ∉ addrs) /\ encodable (authAddress x) /\ authAddress x ∉ addrs.
Proof.
  intros Hb. unfold validateAuth. rewrite is_Ok_bind. rewrite <- (checkAddress_ok h addrs) by done.
  destruct (Authority x) as [a|e]; [|naive_solver].
  destruct (fail_if _ _) as [[]|e] eqn:E; pose proof (f_equal is_Ok E) as E'; rewrite is_Ok_fail_if in E'; cbn in E'.
  - apply negb_true_iff, bool_decide_eq_false in E'. rewrite (blocked_string h addrs) in E' by done. naive_solver.
  - apply negb_false_iff, bool_decide_eq_true in E'. rewrite (blocked_string h addrs) in E' by done.
    split; [done|]. naive_solver.
Qed.

Lemma validateEth_ok h addrs (t : EthTx) : blocks h addrs -> is_Ok (validateMsg h (MsgEthereumTx t)) = true <->
  (forall a, ethTo t = Some a -> encodable a /\ a ∉ addrs) /\
  Forall (fun x => (forall a, Authority x = Ok a -> a ∉ addrs) /\ encodable (authAddress x) /\ authAddress x ∉ addrs)
    (SetCodeAuthorizations t).
Proof.
  intros Hb. unfold validateMsg. rewrite is_Ok_bind.
  rewrite <- (Forall_iff (fun x => is_Ok (validateAuth h x) = true)) by (intros x; by rewrite (validateAuth_ok h addrs)).
  rewrite <- forEach_ok. destruct (ethTo t) as [a|]; [|naive_solver].
  pose proof (checkAddress_ok h addrs a Hb) as Hc. destruct (checkAddress h a) as [[]|]; cbn in Hc; naive_solver.
Qed.

Lemma elem_auths tx x : x ∈ auths tx <-> exists t, t ∈ ethTxs tx /\ x ∈ SetCodeAuthorizations t.
Proof. unfold auths. rewrite list_elem_of_bind. naive_solver. Qed.

Lemma elem_ethTxs tx t : t ∈ ethTxs tx <-> MsgEthereumTx t ∈ GetMsgs tx.
Proof.
  unfold ethTxs. rewrite list_elem_of_omap. split.
  - intros ([] & Hin & E); naive_solver.
  - intros H. by exists (MsgEthereumTx t).
Qed.

(** What holds of every Ethereum message holds of the addresses of the transaction. *)
Definition eth_all (P Q : bytes -> Prop) (t : EthTx) : Prop :=
  (forall a, ethTo t = Some a -> P a) /\
  forall x, x ∈ SetCodeAuthorizations t -> (forall a, Authority x = Ok a -> Q a) /\ P (authAddress x).

Lemma eth_all_addresses (P Q : bytes -> Prop) tx :
  (forall t, t ∈ ethTxs tx -> eth_all P Q t) <-> (forall a, a ∈ targets tx -> P a) /\ (forall a, a ∈ authorities tx -> Q a).
Proof.
  unfold targets, authorities. split.
  - intros H. split; intros a.
    + rewrite elem_of_app, list_elem_of_omap, list_elem_of_fmap.
      intros [(t & Ht & E)|(x & -> & (t & Ht & Hx)%elem_auths)]; [by apply (H t Ht)|by apply (H t Ht)].
    + rewrite list_elem_of_omap. intros (x & (t & Ht & Hx)%elem_auths & E). destruct (H t Ht) as [_ H']. apply (H' x Hx).
      destruct (Authority x); by simplify_eq.
  - intros [H1 H2] t Ht. split.
    + intros a Ea. apply H1, elem_of_app. left. apply list_elem_of_omap. eauto.
    + intros x Hx. assert (x ∈ auths tx) as Hin by (apply elem_auths; eauto). split.
      * intros a E. apply H2, list_elem_of_omap. exists x. by rewrite E.
      * apply H1, elem_of_app. right. apply list_elem_of_fmap. eauto.
Qed.

Lemma forEach_eth (f : TxMsg -> result unit) (P Q : bytes -> Prop) tx :
  (forall t, is_Ok (f (MsgEthereumTx t)) = true <-> eth_all P Q t) ->
  (forall m, (forall t, m <> MsgEthereumTx t) -> f m = Ok tt) ->
  is_Ok (forEach f (GetMsgs tx)) = true <-> (forall a, a ∈ targets tx -> P a) /\ (forall a, a ∈ authorities tx -> Q a).
Proof.
  intros He Ho. rewrite forEach_ok, Forall_forall, <- eth_all_addresses. split.
  - intros H t Ht%elem_ethTxs%H. by apply He.
  - intros H m Hin. destruct m as [t|m|]; [|by rewrite Ho..]. apply He, H, elem_ethTxs, Hin.
Qed.

Lemma validateMsgs_ok h addrs tx : blocks h addrs -> is_Ok (forEach (validateMsg h) (GetMsgs tx)) = true <->
  (forall a, a ∈ targets tx -> encodable a /\ a ∉ addrs) /\ (forall a, a ∈ authorities tx -> a ∉ addrs).
Proof.
  intros Hb. apply forEach_eth; [|by intros [t|m|] Hm; [destruct (Hm t)|..]].
  intros t. rewrite (validateEth_ok h addrs) by done. unfold eth_all. by rewrite Forall_forall.
Qed.

(** Validation, of a transaction or of its bytes. *)
Lemma ValidateTransaction_ok h addrs tx txBz :
  blocks h addrs -> addrs <> [] -> (forall t, tx = Some t -> TxDecoder txBz = Ok t) ->
  is_Ok (ValidateTransaction h tx txBz) = true <-> clean addrs txBz.
Proof.
  intros Hb Hne Htx. unfold ValidateTransaction. rewrite bool_decide_false by by rewrite (blocks_empty h addrs).
  assert (match tx with Some t => Ok t | None => TxDecoder txBz end = TxDecoder txBz) as ->
    by (destruct tx; [symmetry; auto|done]).
  unfold clean. destruct (TxDecoder txBz) as [t|e]; cbn [mbind result_bind]; [|naive_solver].
  destruct (SigSigners t) as [[signers|e]|] eqn:Es; cbn [mbind result_bind]; [|naive_solver..].
  rewrite is_Ok_bind. trans (is_Ok (forEach (checkAddress h) signers) = true /\ is_Ok (forEach (validateMsg h) (GetMsgs t)) = true).
  { destruct (forEach (checkAddress h) signers) as [[]|]; naive_solver. }
  rewrite forEach_ok, (validateMsgs_ok h addrs), Forall_forall by done.
  assert (forall a, is_Ok (checkAddress h a) = true <-> encodable a /\ a ∉ addrs) as Hc by (intros a; by apply checkAddress_ok).
  split.
  - intros [Hs [H1 H2]]. exists t, signers. split_and!; [done..| |].
    + apply Forall_app. rewrite !Forall_forall. split; [intros a Ha; by apply Hc, Hs|intros a Ha; by apply H1].
    + intros a [Hin|[Hin|Hin]%elem_of_app]%elem_of_app; [by apply Hc, Hs|by apply H1|by apply H2].
  - intros (t' & signers' & [= <-] & E & [H1 H3]%Forall_app & H2). rewrite Es in E. simplify_eq.
    rewrite Forall_forall in H1, H3. split; [|split]; intros a Ha; rewrite ?Hc; (split || idtac); auto;
      apply H2; rewrite !elem_of_app; auto.
Qed.

Lemma Process_ok h addrs txs :
  blocks h addrs -> ProcessProposalHandler h txs = true <-> addrs = [] \/ Forall (clean addrs) txs.
Proof.
  intros Hb. unfold ProcessProposalHandler. case_bool_decide as E; rewrite (blocks_empty h addrs) in E by done; [naive_solver|].
  rewrite forallb_forall, Forall_forall. setoid_rewrite <- list_elem_of_In. split.
  - intros H. right. intros x Hx. by apply (ValidateTransaction_ok h addrs None), H.
  - intros [?|H] x Hx; [done|]. by apply (ValidateTransaction_ok h addrs None), H.
Qed.

(** ** Refreshes *)

Lemma convert_ok addresses m :
  match convertAddresses addresses m with
  | Ok m' => exists addrs, mapM StringToBytes addresses = Ok addrs /\ is_Ok (mapM BytesToString addrs) = true /\
      Forall encodable addrs /\ forall e, e ∈ m' <-> e ∈ m \/ exists a, a ∈ addrs /\ BytesToString a = Ok e
  | Err _ => is_Ok (addrs ← mapM StringToBytes addresses; mapM BytesToString addrs) = false
  end.
Proof.
  revert m. induction addresses as [|s addresses IH]; intros m; cbn [convertAddresses mapM].
  - exists []. split_and!; [done|done|constructor|set_solver].
  - destruct (StringToBytes s) as [a|e] eqn:Es; sbind; [|done].
    destruct (BytesToString a) as [e|err] eqn:Ea; sbind.
    + specialize (IH ({[e]} ∪ m)). destruct (convertAddresses addresses _) as [m'|err].
      * destruct IH as (addrs & E1 & E2 & He & Hm). exists (a :: addrs). rewrite E1. sbind. cbn [mapM]. rewrite Ea. sbind.
        split_and!; [done|by destruct (mapM BytesToString addrs)|constructor; [unfold encodable; by rewrite Ea|done]|].
        intros x. rewrite Hm, elem_of_union, elem_of_singleton. setoid_rewrite elem_of_cons. split.
        -- intros [[->|?]|(b & ? & ?)]; eauto.
        -- intros [?|(b & [->|?] & Hx)]; [auto| |eauto]. rewrite Ea in Hx. simplify_eq. auto.
      * destruct (mapM StringToBytes addresses) as [addrs|]; cbn in *; [|done]. rewrite Ea. cbn.
        by destruct (mapM BytesToString addrs).
    + destruct (mapM StringToBytes addresses) as [addrs|]; cbn; [|done]. by rewrite Ea.
Qed.

(** What a refresh leaves, whether it succeeds or not. *)
Definition refreshed (id : Identity) (blobs : list bytes) (h : ProposalHandler Identity) : Prop :=
  identity h = Some id /\ blocks h (inForce id blobs) /\ lastBlockList h = default [] (last blobs) /\
  forall addrs, decodeList id (lastBlockList h) = Some addrs -> inForce id blobs = addrs.

Lemma inForce_snoc id blobs blob :
  inForce id (blobs ++ [blob]) = default (inForce id blobs) (decodeList id blob).
Proof.
  unfold inForce. rewrite omap_app. cbn. destruct (decodeList id blob); cbn; [by rewrite last_snoc|by rewrite app_nil_r].
Qed.

Lemma SetBlockList_new id blob h :
  identity h = Some id -> lastBlockList h <> blob ->
  exists r m, SetBlockList blob h = Some (r, mkHandler (Some id) m blob) /\
    match decodeList id blob with
    | Some addrs => r = Ok tt /\ blocks (mkHandler (Some id) m blob) addrs
    | None => is_Ok r = false /\ m = blocklist h
    end.
Proof.
  intros Hid Hne. unfold SetBlockList, decodeList. sstate. rewrite Hid. sstate.
  rewrite (proj2 (bytes_eqb_neq _ _)) by done. sstate. destruct (Nat.eqb (length blob) 0).
  { unfold modify, setList, setLast. cbn. rewrite Hid. eexists _, ∅. split; [done|]. split; [done|]. split; [constructor|set_solver]. }
  unfold setLast. rewrite Hid.
  destruct (age_Decrypt blob id) as [reader|e]; [sstate; sbind|by eexists (Err e), _].
  destruct (ReadAll reader) as [data|e]; [sstate; sbind|by eexists (Err e), _].
  destruct (UnmarshalBlockList data) as [addresses|e]; [sstate; sbind|by eexists (Err e), _].
  pose proof (convert_ok addresses ∅) as Hc. destruct (convertAddresses addresses ∅) as [m|e]; [sstate|].
  - destruct Hc as (addrs & -> & H2 & He & Hm). cbn. destruct (mapM BytesToString addrs); [|done]. cbn.
    eexists _, m. split; [done|]. split; [done|]. split; [done|]. intros x. cbn. rewrite Hm. set_solver.
  - eexists _, _. split; [done|]. destruct (mapM StringToBytes addresses) as [addrs|]; cbn in *; [|done].
    by destruct (mapM BytesToString addrs).
Qed.

Lemma refresh_refreshed id blobs h blob : refreshed id blobs h -> refreshed id (blobs ++ [blob]) (refresh h blob).
Proof.
  intros (Hid & Hb & Hl & Hd). unfold refreshed. rewrite inForce_snoc, last_snoc. unfold refresh.
  destruct (decide (lastBlockList h = blob)) as [Eq|Hne].
  - assert (SetBlockList blob h = Some (Ok tt, h)) as ->.
    { unfold SetBlockList. sstate. rewrite Hid. sstate. rewrite (proj2 (bytes_eqb_eq _ _)) by done. done. }
    rewrite <- Eq. destruct (decodeList id (lastBlockList h)) as [addrs|] eqn:E; cbn.
    + pose proof (Hd addrs eq_refl) as <-. split_and!; [done..|]. by intros a [= <-].
    + done.
  - destruct (SetBlockList_new id blob h) as (r & m & -> & H); [done..|]. cbn.
    destruct (decodeList id blob) as [addrs|] eqn:E; cbn; split_and!; try done; [apply H|naive_solver|].
    destruct H as [_ ->]. done.
Qed.

Lemma refreshes_refreshed id blobs : refreshed id blobs (refreshes id blobs).
Proof.
  unfold refreshes. induction blobs as [|blob blobs IH] using rev_ind.
  - split_and!; [done| |done|by intros ? [= <-]]. split; [constructor|]. set_solver.
  - rewrite foldl_app. by apply refresh_refreshed.
Qed.

(** ** Selection *)

Lemma invalidTxs_drop (V : option Tx -> bytes -> result unit) txs i pre :
  dropInvalid i (length pre) (pre ++ invalidTxs V i txs) txs = filter (fun t => is_Ok (V None t) = true) txs.
Proof.
  revert i pre. induction txs as [|t txs IH]; intros i pre; cbn [dropInvalid invalidTxs]; [done|].
  destruct (V None t) as [[]|e] eqn:E.
  - rewrite filter_cons_True by by rewrite E. rewrite lookup_app_r, Nat.sub_diag by lia.
    assert (invalidTxs V (1 + i) txs !! 0%nat <> Some i) as Hn.
    { assert (forall j, (i < j)%nat -> invalidTxs V j txs !! 0%nat <> Some i) as H; [|apply H; lia].
      clear. induction txs as [|t txs IH]; intros j Hj; cbn; [done|]. destruct (V None t); [apply IH; lia|].
      cbn. intros [= ->]. lia. }
    rewrite (bool_decide_false _ Hn), andb_false_r. f_equal. apply IH.
  - rewrite filter_cons_False by by rewrite E. rewrite lookup_app_r, Nat.sub_diag by lia. cbn [lookup list_lookup].
    rewrite bool_decide_true by done. rewrite length_app. cbn [length].
    rewrite (proj2 (Nat.ltb_lt _ _)) by lia. cbn [andb].
    specialize (IH (1 + i)%nat (pre ++ [i])). rewrite length_app, <- app_assoc in IH. cbn in IH.
    by rewrite Nat.add_1_r in IH.
Qed.

Lemma dropInvalid_nil i offset (txs : list bytes) : dropInvalid i offset [] txs = txs.
Proof. revert i. induction txs as [|t txs IH]; intros i; cbn; [done|]. by rewrite IH. Qed.

Section Selection.
Context {S : Type} {TS : TxSelector S} {TSL : TxSelectorLaws S}.

(** The transactions of the mempool, offered one after the other. *)
Definition selectAll (h : ProposalHandler Identity) (maxTxBytes maxBlockGas : Z) (offers : list (option Tx * bytes * Z)) (s : S) : S :=
  foldl (fun s '(memTx, txBz, gasWanted) =>
    (SelectTxForProposal (ValidateTransaction h) maxTxBytes maxBlockGas memTx txBz gasWanted s).1) s offers.

Lemma select_valid h addrs maxBytes maxGas memTx txBz gas (s : S) :
  blocks h addrs -> addrs <> [] -> (forall t, memTx = Some t -> TxDecoder txBz = Ok t) -> Forall (clean addrs) (SelectedTxs s) ->
  Forall (clean addrs) (SelectedTxs (SelectTxForProposal (ValidateTransaction h) maxBytes maxGas memTx txBz gas s).1).
Proof.
  intros Hb Hne Hm Hs. unfold SelectTxForProposal. pose proof (ValidateTransaction_ok h addrs memTx txBz Hb Hne Hm) as Hv.
  destruct (ValidateTransaction h memTx txBz) as [[]|]; [|done].
  destruct (ParentSelect_ok maxBytes maxGas txBz gas s) as [->| ->]; [done|].
  apply Forall_app. split; [done|]. constructor; [by apply Hv|constructor].
Qed.

Lemma selectFast_valid h addrs txs (s : S) :
  blocks h addrs -> addrs <> [] -> Forall (clean addrs) (SelectTxForProposalFast (ValidateTransaction h) txs s).2.
Proof.
  intros Hb Hne. unfold SelectTxForProposalFast.
  assert ((if Nat.ltb 0 (length (invalidTxs (ValidateTransaction h) 0 txs))
           then dropInvalid 0 0 (invalidTxs (ValidateTransaction h) 0 txs) txs else txs)
          = filter (fun t => is_Ok (ValidateTransaction h None t) = true) txs) as ->.
  { pose proof (invalidTxs_drop (ValidateTransaction h) txs 0 []) as E. cbn in E.
    destruct (Nat.ltb_spec 0 (length (invalidTxs (ValidateTransaction h) 0 txs))) as [|Hz]; [done|].
    destruct (invalidTxs _ 0 txs) as [|] eqn:Ei; [|cbn in Hz; lia]. by rewrite <- E, dropInvalid_nil. }
  apply Forall_forall. intros t Ht%ParentSelectFast_ok. apply list_elem_of_filter in Ht as [Hv _].
  by apply (ValidateTransaction_ok h addrs None).
Qed.

(** C12: The block list is enforced.  After any sequence of refreshes, failed ones included,
    a validator accepts a proposal exactly when no list is in force or every transaction
    decodes and has no signer, destination, authorization target or authorization signer on
    the list in force, which is the last stored list that could be decrypted and decoded.
    And what its own selectors put into a proposal, one transaction at a time or the fast
    way, it accepts. *)
Theorem blocklist_enforced id blobs txs maxTxBytes maxBlockGas (offers : list (option Tx * bytes * Z)) (s : S) :
  SelectedTxs s = [] ->
  Forall (fun o => forall t, o.1.1 = Some t -> TxDecoder o.1.2 = Ok t) offers ->
  let h := refreshes id blobs in
  (ProcessProposalHandler h txs = true <-> inForce id blobs = [] \/ Forall (clean (inForce id blobs)) txs) /\
  ProcessProposalHandler h (SelectedTxs (selectAll h maxTxBytes maxBlockGas offers s)) = true /\
  ProcessProposalHandler h (SelectTxForProposalFast (ValidateTransaction h) txs s).2 = true.
Proof.
  intros Hs Ho h. destruct (refreshes_refreshed id blobs) as (_ & Hb & _). fold h in Hb. set (addrs := inForce id blobs) in *.
  split_and!; [by apply Process_ok|apply (Process_ok h addrs); [done|]..];
    (destruct (decide (addrs = [])) as [|Hne]; [by left|right]); [|by apply selectFast_valid].
  assert (Forall (clean addrs) (SelectedTxs s)) as H0 by (rewrite Hs; constructor). clear Hs. revert s H0.
  unfold selectAll. induction Ho as [|[[m b] g] offers Hm Ho IH]; intros s H0; cbn [foldl]; [done|].
  apply IH. by apply select_valid.
Qed.

End Selection.

(** ** The mempool *)

Lemma checkBlocked_ok (blockedMap : gset string) a :
  is_Ok (checkBlocked blockedMap a) = true <-> AccAddressString a ∉ blockedMap.
Proof. unfold checkBlocked. by rewrite is_Ok_fail_if, negb_true_iff, bool_decide_eq_false. Qed.

Section Mempool.
Context {St : Type} {KS : KVStore St} {KL : KVStoreLaws St} {W : Type}.

Definition admitted (blockedMap : gset string) (admin : string) (tx : Tx) : Prop :=
  (forall r, SigSigners tx = Some r -> exists signers, r = Ok signers /\ forall a, a ∈ signers -> AccAddressString a ∉ blockedMap) /\
  (forall a, a ∈ targets tx ++ authorities tx -> AccAddressString a ∉ blockedMap) /\
  (forall m, StoreBlockListMsg m ∈ GetMsgs tx -> blFrom m = admin).

Lemma anteMsgs_ok blockedMap tx : is_Ok (forEach (anteMsg blockedMap) (GetMsgs tx)) = true <->
  forall a, a ∈ targets tx ++ authorities tx -> AccAddressString a ∉ blockedMap.
Proof.
  rewrite (forEach_eth _ (fun a => AccAddressString a ∉ blockedMap) (fun a => AccAddressString a ∉ blockedMap)).
  - split; [intros [H1 H2] a [?|?]%elem_of_app; auto|intros H; split; intros a Ha; apply H, elem_of_app; auto].
  - intros t. unfold anteMsg, eth_all. rewrite is_Ok_bind.
    trans (is_Ok (match ethTo t with Some a => checkBlocked blockedMap a | None => Ok tt end) = true /\
           is_Ok (forEach (anteAuth blockedMap) (SetCodeAuthorizations t)) = true).
    { destruct (match ethTo t with Some a => _ | None => _ end) as [[]|]; naive_solver. }
    rewrite forEach_ok, Forall_forall. apply and_iff_distr.
    + destruct (ethTo t) as [a|]; [|done]. rewrite checkBlocked_ok. split; [by intros ? ? [= <-]|auto].
    + apply forall_iff. intros x. apply forall_iff. intros _. unfold anteAuth. rewrite is_Ok_bind, <- checkBlocked_ok.
      destruct (Authority x) as [a|]; [|split; [done|by intros []]].
      pose proof (checkBlocked_ok blockedMap a) as Ha. destruct (checkBlocked blockedMap a) as [[]|]; cbn in Ha |- *.
      * split; [intros H; split; [intros ? [= <-]; by apply Ha|done]|by intros []].
      * split; [done|]. intros [H _]. destruct (proj2 Ha (H a eq_refl)). done.
  - by intros [t|m|] Hm; [destruct (Hm t)|..].
Qed.

(** The checks, one after the other. *)
Definition anteAll (blockedMap : gset string) (admin : string) (tx : Tx) : result unit :=
  (match SigSigners tx with
   | Some signers => signers ← signers; forEach (checkBlocked blockedMap) signers
   | None => Ok tt
   end) ;;
  forEach (anteMsg blockedMap) (GetMsgs tx) ;;
  forEach (anteAdmin admin) (GetMsgs tx).

Lemma AnteHandle_run blockedMap tx (next : SE (Sys St W) unit) s p :
  GetParams (store s) = Some p ->
  AnteHandle blockedMap true tx next s =
  match anteAll blockedMap (CronosAdmin p) tx with Ok _ => next s | Err e => Some (Err e, s) end.
Proof.
  intros Hp. unfold AnteHandle, anteAll, getStore, compose, orErr, gets, orPanic, mbind, SE_bind, result_bind. cbn.
  destruct (SigSigners tx) as [[signers|e]|]; cbn; [|done|].
  1: destruct (forEach (checkBlocked blockedMap) signers) as [[]|]; [|done].
  all: destruct (forEach (anteMsg blockedMap) (GetMsgs tx)) as [[]|]; [|done].
  all: rewrite Hp; cbn; by destruct (forEach _ (GetMsgs tx)) as [[]|].
Qed.

Lemma anteAll_ok blockedMap admin tx : is_Ok (anteAll blockedMap admin tx) = true <-> admitted blockedMap admin tx.
Proof.
  unfold anteAll, admitted. rewrite <- anteMsgs_ok. rewrite is_Ok_bind.
  assert (is_Ok (forEach (anteAdmin admin) (GetMsgs tx)) = true <-> forall m, StoreBlockListMsg m ∈ GetMsgs tx -> blFrom m = admin) as Ha.
  { rewrite forEach_ok, Forall_forall. split.
    - intros H m Hm%H. cbn in Hm. rewrite is_Ok_fail_if, negb_true_iff, bool_decide_eq_false in Hm. by apply dec_stable in Hm.
    - intros H [t|m|] Hm; [done| |done]. cbn. rewrite is_Ok_fail_if, negb_true_iff, bool_decide_eq_false. intros []. symmetry. auto. }
  rewrite <- Ha. destruct (forEach (anteMsg blockedMap) (GetMsgs tx)) as [[]|]; cbn [mbind result_bind].
  2: { split; [by destruct (match SigSigners tx with Some _ => _ | None => _ end)|by intros (_ & ? & _)]. }
  destruct (SigSigners tx) as [[signers|e]|]; cbn [mbind result_bind].
  - trans (is_Ok (forEach (checkBlocked blockedMap) signers) = true /\ is_Ok (forEach (anteAdmin admin) (GetMsgs tx)) = true).
    { destruct (forEach (checkBlocked blockedMap) signers) as [[]|]; [split; [by split|by intros []]|split; [done|by intros []]]. }
    rewrite forEach_ok, Forall_forall. setoid_rewrite checkBlocked_ok. split.
    + intros [H1 H2]. split_and!; [|done|done]. intros r [= <-]. by exists signers.
    + intros (H1 & _ & H2). destruct (H1 _ eq_refl) as (? & [= <-] & Hs). done.
  - split; [done|]. intros (H1 & _). by destruct (H1 _ eq_refl) as (? & ? & _).
  - split; [done|by intros (_ & _ & ?)].
Qed.

(** A list the admin stored is in force after the next refresh. *)
Lemma stored_list_in_force id blobs h m blob addrs (s s' : Sys St W) :
  refreshed id blobs h -> StoreBlockList m s = Some (Ok tt, s') -> blBlob m = Some blob -> decodeList id blob = Some addrs ->
  exists h', RefreshBlockList (store s') h = Some (Ok tt, h') /\ blocks h' addrs.
Proof.
  intros (Hid & Hb & Hl & Hd) Hs Hm E.
  assert (GetBlockList (store s') = Some blob) as Hg.
  { revert Hs. unfold StoreBlockList, getStore, compose, putStore. rewrite Hm. sstate.
    destruct (GetParams (store s)) as [p|]; [|done]. sstate. case_bool_decide; [done|]. sstate. intros [= <-]. cbn.
    apply Get_Set_eq. }
  unfold RefreshBlockList. rewrite Hg. change (default [] (Some blob)) with blob. destruct (decide (lastBlockList h = blob)) as [Eb|Hne].
  - exists h. split; [|by rewrite <- (Hd addrs) by by rewrite Eb].
    unfold SetBlockList. sstate. rewrite Hid. sstate. by rewrite (proj2 (bytes_eqb_eq _ _)).
  - destruct (SetBlockList_new id blob h) as (r & l & -> & H); [done..|]. rewrite E in H. destruct H as [-> ?]. by eexists.
Qed.

End Mempool.
End Spec.

(** ** A concrete node

    A stored list holds one address after a marker byte, a transaction is the
    address of its signer. *)
Section Example.
#[local] Existing Instance plain_libs.
#[local] Existing Instance plain_libs_laws.

#[local] Instance ex_codec : AddressCodec := {|
  StringToBytes := AccAddressFromBech32;
  BytesToString a := Ok (AccAddressString a)
|}.

#[local] Instance ex_codec_laws : CodecLaws.
Proof. split. by intros a s [= <-]. Qed.

#[local] Instance ex_lists : BlockListLib unit bytes := {|
  age_Decrypt b _ := match b with x01 :: b => Ok b | _ => Err "no identity matched" end;
  ReadAll r := Ok r;
  UnmarshalBlockList b := Ok [AccAddressString b]
|}.

#[local] Instance ex_txs : TxLib bytes := {|
  TxDecoder b := Ok b;
  SigSigners tx := Some (Ok [tx]);
  GetMsgs tx := []
|}.

#[local] Instance ex_selector : TxSelector (list bytes) := {|
  ParentSelect _ _ tx _ s := (s ++ [tx], false);
  ParentSelectFast txs s := (s, txs);
  SelectedTxs s := s
|}.

#[local] Instance ex_selector_laws : TxSelectorLaws (list bytes).
Proof. split; [by right|done]. Qed.

Definition ex_blocked : bytes := repeat x07 20.
Definition ex_other : bytes := repeat x08 20.
Definition ex_blobs : list bytes := [x01 :: ex_blocked; [x02]].

(** The second list cannot be decrypted; the first stays in force. *)
Lemma blocklist_enforced_witness :
  let h := refreshes tt ex_blobs in
  ProcessProposalHandler h [ex_blocked; ex_other] = false /\
  (SelectTxForProposalFast (ValidateTransaction h) [ex_blocked; ex_other] []).2 = [ex_other] /\
  ProcessProposalHandler h (SelectTxForProposalFast (ValidateTransaction h) [ex_blocked; ex_other] []).2 = true.
Proof.
  intros h. split_and!; [by vm_compute..|].
  destruct (blocklist_enforced tt ex_blobs [ex_blocked; ex_other] 1000 1000 [(Some ex_other, ex_other, 1)] []) as (_ & _ & H);
    [done|by repeat constructor; intros t [= <-]|exact H].
Defined.

End Example.
