(* ===== verification/Precompiles.v ===== *)
(** * Precompiled contracts: [x/cronos/keeper/precompiles]

    Contracts of the EVM that are implemented by the chain: [bank.go], with which
    a contract manages native coins of a denomination of its own, and
    [relayer.go] with [utils.go], through which relayers send IBC messages.
    The EVM's state with its native actions, the ABI, and the IBC handlers are
    interfaces. *)

From S2P Require Import Prelude KV Binary Sha256 Proto Ctx CronosTypes CronosKeeper Crc21 CronosBridge CronosPeg.
From Stdlib Require Import Strings.Byte Strings.Ascii.

Open Scope string_scope.
Open Scope Z_scope.
Open Scope list_scope.

(** ** Interfaces *)

(** A Go slice: what it shows, and what its array holds beyond. *)
Record slice := mkSlice { shown : bytes; beyond : bytes }.

(** [s[:4]] and [s[4:]]; [None] is a panic. *)
Definition sliceTo4 (s : slice) : option bytes :=
  let all := shown s ++ beyond s in
  if (4 <=? length all)%nat then Some (take 4 all) else None.

Definition sliceFrom4 (s : slice) : option bytes :=
  if (4 <=? length (shown s))%nat then Some (drop 4 (shown s)) else None.

Inductive arg :=
  | ArgAddress (a : bytes) | ArgInt (z : Z) | ArgBytes (b : bytes) | ArgBool (b : bool) | ArgString (s : string) | ArgInt32 (z : Z).

(** [abi.ABI]: the methods of a contract by their identifiers, decoding of
    arguments, encoding of results. *)
Class PrecompileABI := {
  bankMethods : list (bytes * string);
  relayerMethods : list (bytes * string);
  Unpack : string -> bytes -> result (list arg);
  PackOutput : string -> arg -> result bytes
}.

Definition is_ok {A} (r : result A) : bool := match r with Ok _ => true | Err _ => false end.

(** Decoded arguments are of the types of the method; the methods that change
    something return a boolean. *)
Class ABILaws `{PrecompileABI} : Prop := {
  Unpack_address m b args i a : Unpack m b = Ok args -> args !! i = Some (ArgAddress a) -> is_address a;
  Pack_bool m b : m ∈ ["mint"; "burn"; "transfer"] -> is_ok (PackOutput m (ArgBool b)) = true
}.

Definition MethodById (methods : list (bytes * string)) (id : bytes) : result string :=
  match list_find (fun m => m.1 = id) methods with
  | Some (_, m) => Ok m.2
  | None => Err "no method with id"
  end.

(** Type assertions on the arguments; [None] is a panic. *)
Definition argAddress (args : list arg) (i : nat) : option bytes :=
  match args !! i with Some (ArgAddress a) => Some a | _ => None end.
Definition argInt (args : list arg) (i : nat) : option Z :=
  match args !! i with Some (ArgInt z) => Some z | _ => None end.
Definition argBytes (args : list arg) (i : nat) : option bytes :=
  match args !! i with Some (ArgBytes b) => Some b | _ => None end.
Definition argString (args : list arg) (i : nat) : option string :=
  match args !! i with Some (ArgString s) => Some s | _ => None end.
Definition argInt32 (args : list arg) (i : nat) : option Z :=
  match args !! i with Some (ArgInt32 z) => Some z | _ => None end.

(** The other methods of the bank that the precompile calls. *)
Class BankQueries (W : Type) := {
  BlockedAddr : bytes -> bool;
  IsSendEnabledCoins : Coins -> W -> result unit
}.

(** Balances and supplies are the same. *)
Definition same_bank `{BankKeeper W} (w w' : W) : Prop :=
  (forall a d, balance w' a d = balance w a d) /\ (forall d, supply w' d = supply w d).

(** [ExecuteNativeAction]: an action on the state of the chain from inside the EVM;
    the converter, named here, turns its events into logs. *)
Class ExtStateDB (W : Type) :=
  ExecuteNativeAction : forall A, bytes -> option string -> SE W A -> SE W A.
Arguments ExecuteNativeAction {W _ A} _ _ _ _.

(** The writes of a failed action are reverted; a successful one only adds logs. *)
Class ExtStateDBLaws (W : Type) `{ExtStateDB W} `{BankKeeper W} : Prop := {
  native_ok A c conv (m : SE W A) w x w' : ExecuteNativeAction c conv m w = Some (Ok x, w') ->
    exists w1, m w = Some (Ok x, w1) /\ same_bank w1 w';
  native_err A c conv (m : SE W A) w e w' : ExecuteNativeAction c conv m w = Some (Err e, w') -> w' = w
}.

(** ** The bank *)

Section Bank.
Context {L : Libs} {W : Type} {BK : BankKeeper W} {BQ : BankQueries W} {DB : ExtStateDB W} {ABI : PrecompileABI}.
(** The name of the EVM's module account. *)
Context (evmModule : string).

Definition bankContractAddress : bytes := BytesToAddress [byte_of_Z 100].

Definition EVMDenom (token : bytes) : string := "evm/" ++ AddressHex token.

(** The gas of a method in the table that [init] fills. *)
Definition bankGas (name : string) : Z :=
  if bool_decide (name = "mint") || bool_decide (name = "burn") then 200000
  else if bool_decide (name = "balanceOf") then 10000
  else if bool_decide (name = "transfer") then 150000
  else 0.

Definition BankRequiredGas (writeCostPerByte : Z) (input : slice) : option Z :=
  let baseCost := u64 (zlen (shown input) * writeCostPerByte) in
  id ← sliceTo4 input;
  Some (match MethodById bankMethods id with
        | Ok name => u64 (bankGas name + baseCost)
        | Err _ => baseCost
        end).

Definition checkBlockedAddr (addr : bytes) : result unit :=
  match AccAddressFromBech32 (AccAddressString addr) with
  | Err e => Err e
  | Ok to => if BlockedAddr to then Err "is not allowed to receive funds" else Ok tt
  end.

Definition unpackArgs (name : string) (input : slice) : SE W (list arg) :=
  rest ← orPanic (sliceFrom4 input);
  match Unpack name rest with
  | Ok args => mret args
  | Err _ => throw "fail to unpack input arguments"
  end.

Definition sendEnabled (c : Coin) : SE W unit :=
  r ← gets (IsSendEnabledCoins [c]); orErr r.

Definition BankRun (caller : bytes) (input : slice) (readonly : bool) : SE W bytes :=
  id ← orPanic (sliceTo4 input);
  name ← orErr (MethodById bankMethods id);
  if bool_decide (name = "mint") || bool_decide (name = "burn") then
    if readonly then throw "the method is not readonly"
    else
      args ← unpackArgs name input;
      addr ← orPanic (argAddress args 0);
      amount ← orPanic (argInt args 1);
      if amount <=? 0 then throw "invalid amount"
      else
        _ ← orErr (checkBlockedAddr addr);
        amt ← orPanic (NewCoin (EVMDenom caller) amount);
        _ ← ExecuteNativeAction bankContractAddress None (
              _ ← sendEnabled amt;
              coins ← orPanic (NewCoins [amt]);
              if bool_decide (name = "mint") then
                _ ← MintCoins evmModule coins; SendCoinsFromModuleToAccount evmModule addr coins
              else
                _ ← SendCoinsFromAccountToModule addr evmModule coins; BurnCoins evmModule coins);
        orErr (PackOutput name (ArgBool true))
  else if bool_decide (name = "balanceOf") then
    args ← unpackArgs name input;
    token ← orPanic (argAddress args 0);
    addr ← orPanic (argAddress args 1);
    b ← gets (fun w => balance w addr (EVMDenom token));
    orErr (PackOutput name (ArgInt b))
  else if bool_decide (name = "transfer") then
    if readonly then throw "the method is not readonly"
    else
      args ← unpackArgs name input;
      from ← orPanic (argAddress args 0);
      to ← orPanic (argAddress args 1);
      amount ← orPanic (argInt args 2);
      if amount <=? 0 then throw "invalid amount"
      else
        _ ← orErr (checkBlockedAddr to);
        amt ← orPanic (NewCoin (EVMDenom caller) amount);
        _ ← ExecuteNativeAction bankContractAddress None (
              _ ← sendEnabled amt;
              coins ← orPanic (NewCoins [amt]);
              SendCoins from to coins);
        orErr (PackOutput name (ArgBool true))
  else throw "unknown method".
End Bank.

(** ** The relayer *)

(** The remote procedures of the IBC keeper that the relayer calls, and the names
    they have in its services. *)
Module IbcKeeper.
Inductive rpc :=
    | CreateClient | UpdateClient | UpgradeClient | ConnectionOpenInit | ConnectionOpenTry
    | ConnectionOpenAck | ConnectionOpenConfirm | ChannelOpenInit | ChannelOpenTry
    | ChannelOpenAck | ChannelOpenConfirm | ChannelCloseInit | ChannelCloseConfirm | RecvPacket
    | Acknowledgement | Timeout | TimeoutOnClose.

Definition name (r : rpc) : string :=
  match r with
  | CreateClient => "CreateClient" | UpdateClient => "UpdateClient"
  | UpgradeClient => "UpgradeClient" | ConnectionOpenInit => "ConnectionOpenInit"
  | ConnectionOpenTry => "ConnectionOpenTry" | ConnectionOpenAck => "ConnectionOpenAck"
  | ConnectionOpenConfirm => "ConnectionOpenConfirm" | ChannelOpenInit => "ChannelOpenInit"
  | ChannelOpenTry => "ChannelOpenTry" | ChannelOpenAck => "ChannelOpenAck"
  | ChannelOpenConfirm => "ChannelOpenConfirm" | ChannelCloseInit => "ChannelCloseInit"
  | ChannelCloseConfirm => "ChannelCloseConfirm" | RecvPacket => "RecvPacket"
  | Acknowledgement => "Acknowledgement" | Timeout => "Timeout"
  | TimeoutOnClose => "TimeoutOnClose"
  end.
End IbcKeeper.

(** The handlers, and the codec of the messages and responses, whose Go types
    come with the handler. *)
Class IbcHandlers (W Msg Resp : Type) := {
  UnmarshalMsg : IbcKeeper.rpc -> bytes -> result Msg;
  GetMsgSigners : IbcKeeper.rpc -> Msg -> result (list bytes);
  IbcHandle : IbcKeeper.rpc -> Msg -> SE W Resp;
  MarshalResp : IbcKeeper.rpc -> Resp -> result bytes;
  IntrinsicGas : bytes -> Z;
  (** The packet of a [MsgRecvPacket] is of a token that comes back to its
      source; [None] when it cannot be decoded. *)
  returnsToSource : bytes -> option bool;
  DefaultTxSizeCostPerByte : Z
}.

Section Relayer.
Context {L : Libs} {W Msg Resp : Type} {DB : ExtStateDB W} {ABI : PrecompileABI} {IH : IbcHandlers W Msg Resp}.

Definition relayerContractAddress : bytes := BytesToAddress [byte_of_Z 101].

Definition GasWhenReceiverChainIsSource : Z := 51705.
Definition GasWhenReceiverChainIsNotSource : Z := 144025.

(** The gas of a method in the table that [init] fills. *)
Definition relayerGas (name : string) : Z :=
  match list_find (fun e => e.1 = name)
    [("createClient", 117462); ("updateClient", 111894); ("upgradeClient", 400000);
     ("connectionOpenInit", 19755); ("connectionOpenTry", 38468); ("connectionOpenAck", 29603);
     ("connectionOpenConfirm", 12865); ("channelOpenInit", 68701); ("channelOpenTry", 70562);
     ("channelOpenAck", 22127); ("channelOpenConfirm", 21190); ("channelCloseConfirm", 31199);
     ("recvPacket", GasWhenReceiverChainIsNotSource); ("acknowledgement", 61781); ("timeout", 104283);
     ("registerPayee", 38000); ("registerCounterpartyPayee", 37000)] with
  | Some (_, e) => e.2
  | None => 100000
  end.

(** [None] is a panic. *)
Definition RelayerRequiredGas (input : slice) : option Z :=
  let baseCost := u64 (zlen (shown input) * DefaultTxSizeCostPerByte) in
  id ← sliceTo4 input;
  name ← match MethodById relayerMethods id with Ok name => Some name | Err _ => None end;
  requiredGas ←
    (if bool_decide (name = "recvPacket") then
       rest ← sliceFrom4 input;
       args ← match Unpack name rest with Ok args => Some args | Err _ => None end;
       i ← argBytes args 0;
       src ← returnsToSource i;
       Some (if (src : bool) then GasWhenReceiverChainIsSource else relayerGas name)
     else Some (relayerGas name));
  let total := u64 (requiredGas + baseCost) in
  let intrinsicGas := IntrinsicGas (shown input) in
  Some (if total <? intrinsicGas then 0 else total - intrinsicGas).

(** The switch of [Run]: the handlers of the methods. *)
Definition dispatched : list (string * IbcKeeper.rpc) :=
  [("createClient", IbcKeeper.CreateClient); ("updateClient", IbcKeeper.UpdateClient);
   ("upgradeClient", IbcKeeper.UpgradeClient);
   ("connectionOpenInit", IbcKeeper.ConnectionOpenInit);
   ("connectionOpenTry", IbcKeeper.ConnectionOpenTry);
   ("connectionOpenAck", IbcKeeper.ConnectionOpenAck);
   ("connectionOpenConfirm", IbcKeeper.ConnectionOpenConfirm);
   ("channelOpenInit", IbcKeeper.ChannelOpenInit); ("channelOpenTry", IbcKeeper.ChannelOpenTry);
   ("channelOpenAck", IbcKeeper.ChannelOpenAck);
   ("channelOpenConfirm", IbcKeeper.ChannelOpenConfirm);
   ("channelCloseInit", IbcKeeper.ChannelCloseInit);
   ("channelCloseConfirm", IbcKeeper.ChannelCloseConfirm); ("recvPacket", IbcKeeper.RecvPacket);
   ("acknowledgement", IbcKeeper.Acknowledgement); ("timeout", IbcKeeper.Timeout);
   ("timeoutOnClose", IbcKeeper.TimeoutOnClose)].

Definition dispatch (name : string) : option IbcKeeper.rpc :=
  (fun e => e.2.2) <$> list_find (fun e => e.1 = name) dispatched.

(** [exec] with a handler *)
Definition exec (caller : bytes) (handler : IbcKeeper.rpc) (input : bytes) : SE W bytes :=
  msg ← orErr (UnmarshalMsg handler input);
  signers ← orErr (GetMsgSigners handler msg);
  match signers with
  | [signer] =>
      if negb (bool_decide (BytesToAddress signer = caller)) then throw "caller is not authenticated"
      else
        res ← ExecuteNativeAction relayerContractAddress (Some "RelayerConvertEvent") (IbcHandle handler msg);
        orErr (MarshalResp handler res)
  | _ => throw "don't support multi-signers message"
  end.

Definition RelayerRun (caller : bytes) (input : slice) (readonly : bool) : SE W bytes :=
  if readonly then throw "the method is not readonly"
  else if (length (shown input) <? 4)%nat then throw "input too short"
  else
    id ← orPanic (sliceTo4 input);
    name ← orErr (MethodById relayerMethods id);
    args ← unpackArgs name input;
    i ← orPanic (argBytes args 0);
    match dispatch name with
    | Some handler => exec caller handler i
    | None => throw "unknown method"
    end.
End Relayer.

(** ** Properties *)

Section Blocks.
Context {W A B : Type}.

(** The first call of a block. *)
Lemma orPanic_bind (x : option A) (k : A -> SE W B) w r w' :
  (orPanic x ≫= k) w = Some (r, w') -> exists a, x = Some a /\ k a w = Some (r, w').
Proof. intros E. apply SE_bind_inv in E. unfold orPanic in E. destruct x as [a|]; [|done]. by exists a. Qed.

Lemma orErr_bind (x : result A) (k : A -> SE W B) w r w' :
  (orErr x ≫= k) w = Some (r, w') ->
  (exists e, r = Err e /\ w' = w) \/ (exists a, x = Ok a /\ k a w = Some (r, w')).
Proof.
  intros E. apply SE_bind_inv in E. unfold orErr in E. destruct x as [a|e]; [right; by exists a|].
  left. exists e. by injection E as <- <-.
Qed.

Lemma unpack_bind `{PrecompileABI} name input (k : list arg -> SE W B) w r w' :
  (unpackArgs name input ≫= k) w = Some (r, w') ->
  (exists e, r = Err e /\ w' = w) \/
  (exists rest args, sliceFrom4 input = Some rest /\ Unpack name rest = Ok args /\ k args w = Some (r, w')).
Proof.
  intros E. unfold unpackArgs in E. apply SE_bind_inv in E. unfold mbind, SE_bind, orPanic in E.
  destruct (sliceFrom4 input) as [rest|]; [|done]. cbn [mbind option_bind] in E.
  destruct (Unpack name rest) as [args|e] eqn:Eu; rewrite ?Eu in E.
  - right. exists rest, args. split; [done|]. split; [done|exact E].
  - left. eexists. by injection E as <- <-.
Qed.
End Blocks.

(** Split off the calls of the block that [H] runs, as long as they only read; a
    goal about an error they return is left as it is. *)
Ltac peel H :=
  lazymatch type of H with
  | (orPanic _ ≫= _) _ = _ => apply orPanic_bind in H as (? & ? & H)
  | (orErr _ ≫= _) _ = _ => apply orErr_bind in H as [(? & -> & ->)|(? & ? & H)]; [done|]
  | (unpackArgs _ _ ≫= _) _ = _ => apply unpack_bind in H as [(? & -> & ->)|(? & ? & ? & ? & H)]; [done|]
  end.

Section BankProps.
Context {L : Libs} {LL : LibsLaws} {W : Type} {BK : BankKeeper W} {BQ : BankQueries W} {DB : ExtStateDB W}
  {DL : ExtStateDBLaws W} {ABI : PrecompileABI} {AL : ABILaws}.
Context (blocked : bytes -> Prop) {BL : BankLaws W blocked}.
Context (evmModule : string).

(** What a successful call does: coins of the caller's denomination are made in,
    destroyed in or moved to an account that is not blocked. *)
Definition bankEffect (caller : bytes) (name : string) (args : list arg) (readonly : bool) (out : bytes) (w w' : W) : Prop :=
  let d := EVMDenom caller in
  (name = "mint" /\ readonly = false /\ exists a n, argAddress args 0 = Some a /\ argInt args 1 = Some n /\
     0 < n /\ BlockedAddr a = false /\ made 1 a [mkCoin d n] w w') \/
  (name = "burn" /\ readonly = false /\ exists a n, argAddress args 0 = Some a /\ argInt args 1 = Some n /\
     0 < n /\ BlockedAddr a = false /\ made (-1) a [mkCoin d n] w w') \/
  (name = "transfer" /\ readonly = false /\ exists a b n, argAddress args 0 = Some a /\ argAddress args 1 = Some b /\
     argInt args 2 = Some n /\ 0 < n /\ BlockedAddr b = false /\ moved a b [mkCoin d n] w w') \/
  (name = "balanceOf" /\ w' = w /\ exists token a, argAddress args 0 = Some token /\ argAddress args 1 = Some a /\
     PackOutput name (ArgInt (balance w a (EVMDenom token))) = Ok out).

Lemma checkBlocked_inv a x : is_address a -> checkBlockedAddr a = Ok x -> BlockedAddr a = false.
Proof.
  intros Ha. unfold checkBlockedAddr. rewrite FromBech32_String by done. destruct (BlockedAddr a); [done|]. done.
Qed.

Lemma coins_of d n c cs : 0 < n -> NewCoin d n = Some c -> NewCoins [c] = Some cs -> cs = [mkCoin d n].
Proof.
  intros Hn [-> _]%NewCoin_inv [_ ->]%NewCoins_single. cbn [Amount]. by rewrite (proj2 (Z.eqb_neq _ _)) by lia.
Qed.

Lemma made_same k a cs (w w1 w' : W) : made k a cs w w1 -> same_bank w1 w' -> made k a cs w w'.
Proof. intros [Hb Hs] [Eb Es]. split; intros; by rewrite ?Eb, ?Es. Qed.

Lemma moved_same a b cs (w w1 w' : W) : moved a b cs w w1 -> same_bank w1 w' -> moved a b cs w w'.
Proof. intros [Hb Hs] [Eb Es]. split; intros; by rewrite ?Eb, ?Es. Qed.

(** Minting to the module account and sending on mints to the account. *)
Lemma mint_send m a cs (w w1 w2 : W) : made 1 m cs w w1 -> moved m a cs w1 w2 -> made 1 a cs w w2.
Proof.
  intros [Hb Hs] [Hb' Hs']. split; intros; rewrite ?Hb', ?Hb, ?Hs', ?Hs; [|lia]. unfold on. repeat case_bool_decide; lia.
Qed.

Lemma send_burn m a cs (w w1 w2 : W) : moved a m cs w w1 -> made (-1) m cs w1 w2 -> made (-1) a cs w w2.
Proof.
  intros [Hb Hs] [Hb' Hs']. split; intros; rewrite ?Hb', ?Hb, ?Hs', ?Hs; [|lia]. unfold on. repeat case_bool_decide; lia.
Qed.

Lemma argAddress_ok name rest args i a : Unpack name rest = Ok args -> argAddress args i = Some a -> is_address a.
Proof.
  intros E. unfold argAddress. destruct (args !! i) as [[]|] eqn:Ei; try done. intros [= <-]. by eapply Unpack_address.
Qed.

(** The end of a method that changes something: an action and the result. *)
Lemma action_end {A} name (m : SE W A) (w w' : W) r :
  name ∈ ["mint"; "burn"; "transfer"] ->
  (ExecuteNativeAction bankContractAddress None m ≫= fun _ => orErr (PackOutput name (ArgBool true))) w = Some (r, w') ->
  match r with
  | Err _ => w' = w
  | Ok _ => exists x w1, m w = Some (Ok x, w1) /\ same_bank w1 w'
  end.
Proof.
  intros Hn E. apply SE_bind_inv in E. destruct (ExecuteNativeAction _ _ m w) as [[[x|e] w1]|] eqn:Em; [| |done].
  - apply native_ok in Em as (w2 & E2 & Hs). pose proof (Pack_bool name true Hn) as Hp.
    unfold orErr in E. destruct (PackOutput name (ArgBool true)); [|done]. injection E as <- <-. by exists x, w2.
  - injection E as -> <-. by eapply native_err.
Qed.

Lemma bankMint_ok caller name a n c w w1 :
  0 < n -> NewCoin (EVMDenom caller) n = Some c ->
  (_ ← sendEnabled c;
   coins ← orPanic (NewCoins [c]);
   if bool_decide (name = "mint") then
     _ ← MintCoins evmModule coins; SendCoinsFromModuleToAccount evmModule a coins
   else
     _ ← SendCoinsFromAccountToModule a evmModule coins; BurnCoins evmModule coins) w = Some (Ok tt, w1) ->
  made (if bool_decide (name = "mint") then 1 else -1) a [mkCoin (EVMDenom caller) n] w w1.
Proof.
  intros Hn Hc E. unfold sendEnabled in E. runs.
  match goal with H : NewCoins _ = Some _ |- _ => pose proof (coins_of _ _ _ _ Hn Hc H) as -> end.
  case_bool_decide; runs.
  - eapply mint_send; [by eapply MintCoins_ok|]. by eapply ModuleToAccount_ok.
  - eapply send_burn; [by eapply AccountToModule_ok|]. by eapply BurnCoins_ok.
Qed.

(** The call as its documentation has it, on every branch. *)
Lemma BankRun_spec caller input readonly (w w' : W) r :
  BankRun evmModule caller input readonly w = Some (r, w') ->
  match r with
  | Err _ => w' = w
  | Ok out => exists id name rest args, sliceTo4 input = Some id /\ MethodById bankMethods id = Ok name /\
      sliceFrom4 input = Some rest /\ Unpack name rest = Ok args /\
      bankEffect caller name args readonly out w w'
  end.
Proof.
  unfold BankRun. intros E. peel E. peel E. rename x into id, x0 into name.
  destruct (bool_decide (name = "mint") || bool_decide (name = "burn")) eqn:Emb.
  - destruct readonly; [by injection E as <- <-|].
    peel E. peel E. peel E. rename x into rest, x0 into args, x1 into a, x2 into n. 
    destruct (Z.leb_spec n 0); [by injection E as <- <-|]. peel E. peel E.
    assert (name ∈ ["mint"; "burn"; "transfer"]) as Hin.
    { apply orb_prop in Emb as [Hb%bool_decide_eq_true|Hb%bool_decide_eq_true]; rewrite Hb; set_solver. }
    apply action_end in E; [|done]. destruct r as [out|]; [|done]. destruct E as ([] & w1 & E & Hs).
    eapply (bankMint_ok caller name a n) in E; [|lia|eassumption]. eapply made_same in E; [|exact Hs].
    exists id, name, rest, args. split_and!; try done. unfold bankEffect.
    assert (BlockedAddr a = false) as Hbl by (eapply checkBlocked_inv; [eapply argAddress_ok|]; eassumption).
    apply orb_prop in Emb as [Hb%bool_decide_eq_true|Hb%bool_decide_eq_true]; subst name; [left|right; left];
      (split; [done|split; [done|]]); exists a, n; split_and!; done || lia.
  - apply orb_false_iff in Emb as [_ _]. destruct (bool_decide_reflect (name = "balanceOf")) as [->|_].
    + peel E. peel E. peel E. apply SE_bind_inv in E. injection E as <- <-.
      destruct (PackOutput "balanceOf" _) as [out|] eqn:Ep; [|done].
      exists id, "balanceOf", x, x0. split_and!; try done. do 3 right. split; [done|]. split; [done|]. by exists x1, x2.
    + destruct (bool_decide_reflect (name = "transfer")) as [->|_]; [|by injection E as <- <-].
      destruct readonly; [by injection E as <- <-|].
      peel E. peel E. peel E. peel E. rename x into rest, x0 into args, x1 into a, x2 into b, x3 into n.
      destruct (Z.leb_spec n 0) as [|Hlt]; [by injection E as <- <-|]. peel E. peel E.
      apply action_end in E; [|set_solver]. destruct r as [out|]; [|done]. destruct E as ([] & w1 & E & Hs).
      unfold sendEnabled in E. runs.
      match goal with Hc : NewCoin _ _ = Some _, H : NewCoins _ = Some _ |- _ =>
        pose proof (coins_of _ _ _ _ Hlt Hc H) as -> end.
      exists id, "transfer", rest, args. split_and!; try done. right. right. left. split; [done|]. split; [done|].
      exists a, b, n. split_and!; try done; [eapply checkBlocked_inv; [eapply argAddress_ok|]; eassumption|].
      eapply moved_same; [by eapply SendCoins_ok|done].
Qed.

Lemma EVMDenom_inj a b : is_address a -> is_address b -> EVMDenom a = EVMDenom b -> a = b.
Proof.
  intros Ha Hb E. unfold EVMDenom in E. apply (inj (String.append "evm/")) in E.
  by rewrite <- (HexToAddress_Hex a), <- (HexToAddress_Hex b), E.
Qed.

Lemma amountOf_other d d' n : d' <> d -> amountOf d' [mkCoin d n] = 0.
Proof. intros Hd. cbn. by rewrite bool_decide_false. Qed.

(** C13: calling the bank precompile.  A call that fails leaves the state as it
    was.  A call that succeeds has done exactly what its method says, to an account
    that may receive funds: minted or burnt in it, or moved to it, coins of the
    caller's own denomination, or looked up a balance; a read-only call changes
    nothing.  So no balance and no supply of any other denomination changes, and
    the denominations of different contracts are different. *)
Theorem bank_precompile_isolated caller input readonly (w w' : W) r :
  is_address caller -> BankRun evmModule caller input readonly w = Some (r, w') ->
  match r with
  | Err _ => w' = w
  | Ok out => exists id name rest args, sliceTo4 input = Some id /\ MethodById bankMethods id = Ok name /\
      sliceFrom4 input = Some rest /\ Unpack name rest = Ok args /\
      bankEffect caller name args readonly out w w'
  end /\
  (readonly = true -> w' = w) /\
  (forall d, d <> EVMDenom caller -> (forall a, balance w' a d = balance w a d) /\ supply w' d = supply w d) /\
  (forall other, is_address other -> other <> caller -> EVMDenom other <> EVMDenom caller).
Proof.
  intros Hc E. pose proof (BankRun_spec caller input readonly w w' r E) as Hspec.
  split; [done|]. split; [|split].
  - intros ->. destruct r as [out|]; [|done]. destruct Hspec as (id & name & rest & args & _ & _ & _ & _ & Heff).
    by destruct Heff as [(_ & ? & _)|[(_ & ? & _)|[(_ & ? & _)|(_ & -> & _)]]].
  - intros d Hd. destruct r as [out|]; [|by subst w']. destruct Hspec as (id & name & rest & args & _ & _ & _ & _ & Heff).
    destruct Heff as [(_ & _ & a & n & _ & _ & _ & _ & Hm)|[(_ & _ & a & n & _ & _ & _ & _ & Hm)|
      [(_ & _ & a & b & n & _ & _ & _ & _ & _ & Hm)|(_ & -> & _)]]]; [..|done];
      destruct Hm as [Hb Hs]; (split; [intros x; rewrite Hb|rewrite Hs]); rewrite ?(amountOf_other (EVMDenom caller)) by done;
      unfold on; repeat case_bool_decide; lia.
  - intros other Ho Hne Eo. apply Hne. by apply EVMDenom_inj.
Qed.
End BankProps.

Section RelayerProps.
Context {L : Libs} {W Msg Resp : Type} {BK : BankKeeper W} {DB : ExtStateDB W} {DL : ExtStateDBLaws W}
  {ABI : PrecompileABI} {IH : IbcHandlers W Msg Resp}.

(** A name with a small first letter: the methods of the contract are the
    procedures of IBC in this spelling. *)
Definition lowerFirst (s : string) : string :=
  match s with
  | String a s =>
      let n := nat_of_ascii a in
      String (if (65 <=? n)%nat && (n <=? 90)%nat then ascii_of_nat (n + 32) else a) s
  | EmptyString => EmptyString
  end.

Lemma dispatch_name name handler : dispatch name = Some handler -> name = lowerFirst (IbcKeeper.name handler).
Proof.
  unfold dispatch. intros ((i & e) & (Hi & <- & _)%list_find_Some & ->)%fmap_Some. cbn.
  assert (Forall (fun e => e.1 = lowerFirst (IbcKeeper.name e.2)) dispatched) as Ht by (by repeat constructor).
  by eapply Forall_lookup_1 in Ht.
Qed.

(** C14: the relayer precompile changes the state only by handling, in a call that
    is not read-only, a message whose one signer is the caller, with the handler
    of the procedure of IBC that the method called is named after, whose response
    is what it returns.  In all other
    cases, a read-only call, an unknown method, a message signed by somebody else
    or by several, a failing handler, the call is an error and the state is as it
    was. *)
Theorem relayer_authenticated caller input readonly (w w' : W) r :
  RelayerRun caller input readonly w = Some (r, w') ->
  is_ok r = false /\ w' = w \/
  readonly = false /\ exists id name handler rest args i msg signer resp w1,
    sliceTo4 input = Some id /\ MethodById relayerMethods id = Ok name /\
    dispatch name = Some handler /\ name = lowerFirst (IbcKeeper.name handler) /\
    sliceFrom4 input = Some rest /\ Unpack name rest = Ok args /\ argBytes args 0 = Some i /\
    UnmarshalMsg handler i = Ok msg /\ GetMsgSigners handler msg = Ok [signer] /\ BytesToAddress signer = caller /\
    IbcHandle handler msg w = Some (Ok resp, w1) /\ same_bank w1 w' /\ r = MarshalResp handler resp.
Proof.
  unfold RelayerRun. intros E. destruct readonly; [left; by injection E as <- <-|].
  destruct (length (shown input) <? 4)%nat; [left; by injection E as <- <-|].
  apply orPanic_bind in E as (id & Hid & E). apply orErr_bind in E as [(? & -> & ->)|(name & Hname & E)]; [by left|].
  apply unpack_bind in E as [(? & -> & ->)|(rest & args & Hrest & Hun & E)]; [by left|].
  apply orPanic_bind in E as (i & Hi & E). 
  destruct (dispatch name) as [handler|] eqn:Hdis; [|left; by injection E as <- <-].
  unfold exec in E. apply orErr_bind in E as [(? & -> & ->)|(msg & Hmsg & E)]; [by left|].
  apply orErr_bind in E as [(? & -> & ->)|(signers & Hsig & E)]; [by left|].
  destruct signers as [|signer [|]]; [left; by injection E as <- <-| |left; by injection E as <- <-].
  case_bool_decide as Hcaller; [|left; by injection E as <- <-]. cbn [negb] in E. apply SE_bind_inv in E.
  destruct (ExecuteNativeAction _ _ _ w) as [[[resp|e] w1]|] eqn:Ea; [| |done].
  - right. split; [done|]. apply native_ok in Ea as (w2 & Ea & Hs). unfold orErr in E. injection E as <- <-.
    exists id, name, handler, rest, args, i, msg, signer, resp, w2. split_and!; try done. by apply dispatch_name.
  - left. injection E as -> ->. split; [done|]. by eapply native_err.
Qed.

(** The gas of an unknown method cannot be computed, although running it is only
    an error. *)
Lemma unknown_method_panics caller input id e (w : W) :
  sliceTo4 input = Some id -> MethodById relayerMethods id = Err e -> (4 <= length (shown input))%nat ->
  RelayerRequiredGas input = None /\ RelayerRun caller input false w = Some (Err e, w).
Proof.
  intros Hid Hm Hlen. split.
  - unfold RelayerRequiredGas. rewrite Hid. cbn [mbind option_bind]. by rewrite Hm.
  - unfold RelayerRun. rewrite (proj2 (Nat.ltb_ge _ _)), Hid by done. unfold orPanic, orErr, mbind, SE_bind.
    cbn [mbind option_bind]. by rewrite Hm.
Qed.
End RelayerProps.

(** ** A chain with the two contracts *)

Definition exAddr (b : byte) : bytes := replicate 20 b.

#[local] Instance exABI : PrecompileABI := {
  bankMethods := [([x01; x00; x00; x00], "mint"); ([x02; x00; x00; x00], "burn")];
  relayerMethods := [([x01; x00; x00; x00], "updateClient")];
  Unpack m b :=
    if bool_decide (m = "updateClient") then Ok [ArgBytes b]
    else if (20 <=? length b)%nat then Ok [ArgAddress (take 20 b); ArgInt (zlen (drop 20 b))] else Err "short input";
  PackOutput m a := Ok [x01]
}.

#[local] Instance exABI_laws : ABILaws.
Proof.
  split; [|done]. intros m b args i a E Hi. unfold Unpack, exABI in E. case_bool_decide.
  - injection E as <-. destruct i as [|[|]]; discriminate Hi.
  - destruct (Nat.leb_spec 20 (length b)); [|done]. injection E as <-.
    destruct i as [|[|[|]]]; [|discriminate Hi..]. injection Hi as <-. unfold is_address, AddressLength.
    rewrite length_take. lia.
Qed.

Section ExLedger.
#[local] Existing Instance plain_libs.
#[local] Existing Instance plain_libs_laws.
#[local] Existing Instance ledger_bank.
#[local] Existing Instance ledger_laws.

#[local] Instance exQueries : BankQueries Ledger := {|
  BlockedAddr a := bool_decide (a = NewModuleAddress ModuleName);
  IsSendEnabledCoins cs w := Ok tt
|}.

#[local] Instance exDB : ExtStateDB Ledger := fun A c conv m w =>
  match m w with Some (Err e, _) => Some (Err e, w) | r => r end.

#[local] Instance exDB_laws : ExtStateDBLaws Ledger.
Proof.
  split; intros A c conv m w; unfold ExecuteNativeAction, exDB.
  - intros x w'. destruct (m w) as [[[y|]]|]; [|done..]. intros [= -> ->]. by exists w'.
  - intros e w'. destruct (m w) as [[[y|]]|]; [done| |done]. by intros [= _ <-].
Qed.

Definition exWorld : Ledger := mkLedger ∅ ∅ 0 ∅.

(** The contract at [0x07...] mints three coins. *)
Definition exMint : slice := mkSlice ([x01; x00; x00; x00] ++ exAddr x09 ++ [x00; x00; x00]) [].

Lemma exMint_runs :
  match BankRun "evm" (exAddr x07) exMint false exWorld with
  | Some (Ok out, w) => (supply w (EVMDenom (exAddr x07)) =? 3) && (balance w (exAddr x09) (EVMDenom (exAddr x07)) =? 3)
  | _ => false
  end = true.
Proof. vm_compute. reflexivity. Qed.

Lemma bank_precompile_isolated_witness :
  exists out w', BankRun "evm" (exAddr x07) exMint false exWorld = Some (Ok out, w') /\
    supply w' (EVMDenom (exAddr x07)) = 3 /\ balance w' (exAddr x09) (EVMDenom (exAddr x07)) = 3 /\
    forall d, d <> EVMDenom (exAddr x07) -> supply w' d = supply exWorld d.
Proof.
  pose proof exMint_runs as Hr.
  pose proof (bank_precompile_isolated (fun a => a = NewModuleAddress ModuleName) "evm" (exAddr x07) exMint false exWorld) as Hs.
  destruct (BankRun "evm" (exAddr x07) exMint false exWorld) as [[[out|] w']|]; [|discriminate Hr..].
  apply andb_prop in Hr as [Hsup%Z.eqb_eq Hbal%Z.eqb_eq]. exists out, w'. split; [reflexivity|]. split; [exact Hsup|].
  split; [exact Hbal|]. intros d Hd. apply (Hs w' (Ok out) eq_refl eq_refl). exact Hd.
Defined.

(** A handler that counts the messages; a message is its signer. *)
#[local] Instance exIbc : IbcHandlers Ledger bytes unit := {|
  UnmarshalMsg m b := Ok b;
  GetMsgSigners m msg := Ok [msg];
  IbcHandle m msg := modify (fun w => mkLedger (lBal w) (lSup w) (lNonce w + 1) (lTok w));
  MarshalResp m r := Ok [];
  IntrinsicGas b := 0;
  returnsToSource b := Some false;
  DefaultTxSizeCostPerByte := 10
|}.

Definition exRelay : slice := mkSlice ([x01; x00; x00; x00] ++ exAddr x07) [].

Lemma relayer_authenticated_witness :
  exists w', RelayerRun (exAddr x07) exRelay false exWorld = Some (Ok [], w') /\
    exists id name handler msg signer, sliceTo4 exRelay = Some id /\ MethodById relayerMethods id = Ok name /\
      dispatch name = Some handler /\
      GetMsgSigners handler msg = Ok [signer] /\ BytesToAddress signer = exAddr x07.
Proof.
  eexists. split; [vm_compute; reflexivity|].
  edestruct (relayer_authenticated (exAddr x07) exRelay false exWorld) as [[_ Hw]|(_ & id & name & handler & rest & args & i & msg & signer & H)];
    [vm_compute; reflexivity|discriminate Hw|].
  destruct H as (resp & w1 & Hid & Hname & Hd & _ & _ & _ & _ & _ & Hsig & Hs & _). by exists id, name, handler, msg, signer.
Defined.
End ExLedger.
