(* ===== verification/Ica.v ===== *)
(** * The precompiled contract of interchain accounts: [x/cronos/keeper/precompiles/ica.go]

    Contracts register accounts on other chains and submit messages for them.  The
    controller of interchain accounts is an interface, as are the EVM's state and
    the ABI, which [Precompiles] has. *)

From S2P Require Import Prelude KV Binary Sha256 Proto Ctx CronosTypes CronosKeeper Crc21 CronosBridge CronosPeg Precompiles.
From stdpp Require Import pretty.
From Stdlib Require Import Strings.Byte.

Open Scope string_scope.
Open Scope Z_scope.
Open Scope list_scope.

(** [MsgSendTx] with its packet data, of the type [EXECUTE_TX]. *)
Record MsgSendTx := mkSendTx {
  txOwner : string; txConnection : string; txTimeout : Z; txData : bytes; txMemo : string
}.

(** The controller's message server and queries, and the event manager. *)
Class IcaController (W : Type) := {
  RegisterInterchainAccount : string -> string -> string -> Z -> SE W unit;
  InterchainAccount : string -> string -> W -> result (option string);
  (** The sequence of the response; [None] is a nil response. *)
  SendTx : MsgSendTx -> SE W (option Z);
  NewControllerPortID : string -> result string;
  GetActiveChannelID : string -> string -> W -> option string;
  EmitEvent : string -> list (string * string) -> W -> W;
  AttributeKeySrcChannel : string
}.

(** The methods of the contract. *)
Class IcaABI := icaMethods : list (bytes * string).

(** The results of the methods that change something can be encoded. *)
Class IcaABILaws `{PrecompileABI} : Prop := {
  Pack_registered : is_ok (PackOutput "registerAccount" (ArgBool true)) = true;
  Pack_sequence n : is_ok (PackOutput "submitMsgs" (ArgInt n)) = true
}.

Section Ica.
Context {L : Libs} {St W : Type} {KS : KVStore St} {DB : ExtStateDB W} {ABI : PrecompileABI} {IA : IcaABI} {IC : IcaController W}.

Definition icaContractAddress : bytes := BytesToAddress [byte_of_Z 102].

(** The gas of a method in the table that [init] fills. *)
Definition icaGas (name : string) : Z :=
  if bool_decide (name = "registerAccount") then 300000
  else if bool_decide (name = "queryAccount") then 100000
  else if bool_decide (name = "submitMsgs") then 300000
  else 0.

(** [st] is the module's store in the context of the contract. *)
Definition IcaRequiredGas (writeCostPerByte : Z) (st : St) (input : slice) : option Z :=
  let baseCost := u64 (zlen (shown input) * writeCostPerByte) in
  id ← sliceTo4 input;
  match MethodById icaMethods id with
  | Ok name =>
      requiredGas ←
        (if bool_decide (name = "submitMsgs") then
           p ← GetParams st; Some (u64 (icaGas name + MaxCallbackGas p))
         else Some (icaGas name));
      Some (u64 (requiredGas + baseCost))
  | Err _ => Some baseCost
  end.

Definition quoted (s : string) : string := string_of_bytes [x22] +:+ s +:+ string_of_bytes [x22].

(** The memo that names the contract to call back. *)
Definition callbackMemo (caller : bytes) : string :=
  "{" +:+ quoted "src_callback" +:+ ": {" +:+ quoted "address" +:+ ": " +:+ quoted (AddressHex caller) +:+ "}}".

(** The action of [submitMsgs]: the sequence that it leaves in [seq]. *)
Definition submitAction (msg : MsgSendTx) : SE W Z :=
  response ← SendTx msg;
  match response with
  | None => mret 0
  | Some seq =>
      portID ← orErr (NewControllerPortID (txOwner msg));
      channel ← gets (GetActiveChannelID (txConnection msg) portID);
      match channel with
      | None => throw "failed to retrieve active channel"
      | Some activeChannelID =>
          _ ← modify (EmitEvent "submit_msgs_result"
                [(AttributeKeySrcChannel, activeChannelID); ("seq", pretty seq)]);
          mret seq
      end
  end.

Definition IcaRun (caller : bytes) (input : slice) (readonly : bool) : SE W bytes :=
  id ← orPanic (sliceTo4 input);
  name ← orErr (MethodById icaMethods id);
  let owner := AccAddressString caller in
  if bool_decide (name = "registerAccount") then
    if readonly then throw "the method is not readonly"
    else
      args ← unpackArgs name input;
      connectionID ← orPanic (argString args 0);
      version ← orPanic (argString args 1);
      ordering ← orPanic (argInt32 args 2);
      _ ← ExecuteNativeAction icaContractAddress (Some "IcaConvertEvent")
            (RegisterInterchainAccount owner connectionID version ordering);
      orErr (PackOutput name (ArgBool true))
  else if bool_decide (name = "queryAccount") then
    args ← unpackArgs name input;
    connectionID ← orPanic (argString args 0);
    account ← orPanic (argAddress args 1);
    r ← gets (InterchainAccount (AccAddressString account) connectionID);
    response ← orErr r;
    orErr (PackOutput name (ArgString (default EmptyString response)))
  else if bool_decide (name = "submitMsgs") then
    if readonly then throw "the method is not readonly"
    else
      args ← unpackArgs name input;
      connectionID ← orPanic (argString args 0);
      data ← orPanic (argBytes args 1);
      timeout ← orPanic (argInt args 2);
      seq ← ExecuteNativeAction icaContractAddress (Some "IcaConvertEvent")
              (submitAction (mkSendTx owner connectionID (u64 (Z.abs timeout)) data (callbackMemo caller)));
      orErr (PackOutput name (ArgInt seq))
  else throw "unknown method".
End Ica.

(** ** Properties *)

Section IcaProps.
Context {L : Libs} {LL : LibsLaws} {St W : Type} {BK : BankKeeper W} {DB : ExtStateDB W} {DL : ExtStateDBLaws W}
  {ABI : PrecompileABI} {IA : IcaABI} {IL : IcaABILaws} {IC : IcaController W}.

(** What a successful call does.  The owner of an account that is registered or used
    is the caller. *)
Definition icaEffect (caller : bytes) (name : string) (args : list arg) (readonly : bool) (out : bytes) (w w' : W) : Prop :=
  let owner := AccAddressString caller in
  (name = "registerAccount" /\ readonly = false /\ exists conn version ordering w1,
     argString args 0 = Some conn /\ argString args 1 = Some version /\ argInt32 args 2 = Some ordering /\
     RegisterInterchainAccount owner conn version ordering w = Some (Ok tt, w1) /\ same_bank w1 w') \/
  (name = "queryAccount" /\ w' = w /\ exists conn account resp,
     argString args 0 = Some conn /\ argAddress args 1 = Some account /\
     InterchainAccount (AccAddressString account) conn w = Ok resp /\
     PackOutput name (ArgString (default EmptyString resp)) = Ok out) \/
  (name = "submitMsgs" /\ readonly = false /\ exists conn data timeout resp w1 w2,
     argString args 0 = Some conn /\ argBytes args 1 = Some data /\ argInt args 2 = Some timeout /\
     SendTx (mkSendTx owner conn (u64 (Z.abs timeout)) data (callbackMemo caller)) w = Some (Ok resp, w1) /\
     match resp with
     | None => w2 = w1
     | Some seq => exists port channel, NewControllerPortID owner = Ok port /\
         GetActiveChannelID conn port w1 = Some channel /\
         w2 = EmitEvent "submit_msgs_result" [(AttributeKeySrcChannel, channel); ("seq", pretty seq)] w1
     end /\
     same_bank w2 w' /\ PackOutput name (ArgInt (default 0 resp)) = Ok out).

(** The end of a method that changes something: an action and its result. *)
Lemma native_end {A} name (f : A -> arg) (m : SE W A) (w w' : W) r :
  (forall x, is_ok (PackOutput name (f x)) = true) ->
  (ExecuteNativeAction icaContractAddress (Some "IcaConvertEvent") m ≫= fun x => orErr (PackOutput name (f x))) w = Some (r, w') ->
  match r with
  | Err _ => w' = w
  | Ok out => exists x w1, m w = Some (Ok x, w1) /\ same_bank w1 w' /\ PackOutput name (f x) = Ok out
  end.
Proof.
  intros Hp E. apply SE_bind_inv in E. destruct (ExecuteNativeAction _ _ m w) as [[[x|e] w1]|] eqn:Em; [| |done].
  - apply native_ok in Em as (w2 & E2 & Hs). specialize (Hp x). unfold orErr in E.
    destruct (PackOutput name (f x)) as [out|] eqn:Eo; [|done]. injection E as <- <-. by exists x, w2.
  - injection E as -> <-. by eapply native_err.
Qed.

Lemma submitAction_ok msg seq (w w2 : W) :
  submitAction msg w = Some (Ok seq, w2) ->
  exists resp w1, SendTx msg w = Some (Ok resp, w1) /\ seq = default 0 resp /\
    match resp with
    | None => w2 = w1
    | Some n => exists port channel, NewControllerPortID (txOwner msg) = Ok port /\
        GetActiveChannelID (txConnection msg) port w1 = Some channel /\
        w2 = EmitEvent "submit_msgs_result" [(AttributeKeySrcChannel, channel); ("seq", pretty n)] w1
    end.
Proof.
  unfold submitAction. intros E. apply SE_bind_inv in E.
  destruct (SendTx msg w) as [[[resp|e] w1]|]; [|done..]. exists resp, w1. split; [done|].
  destruct resp as [n|]; [|by injection E as <- <-].
  apply orErr_bind in E as [(? & ? & _)|(port & Hport & E)]; [done|]. apply SE_bind_inv in E. cbn in E.
  destruct (GetActiveChannelID _ _ w1) as [channel|] eqn:Ec; [|done]. apply SE_bind_inv in E. cbn in E.
  injection E as <- <-. split; [done|]. by exists port, channel.
Qed.

(** The call on every branch. *)
Lemma IcaRun_spec caller input readonly (w w' : W) r :
  IcaRun caller input readonly w = Some (r, w') ->
  match r with
  | Err _ => w' = w
  | Ok out => exists id name rest args, sliceTo4 input = Some id /\ MethodById icaMethods id = Ok name /\
      sliceFrom4 input = Some rest /\ Unpack name rest = Ok args /\
      icaEffect caller name args readonly out w w'
  end.
Proof.
  unfold IcaRun. intros E. peel E. peel E. rename x into id, x0 into name.
  destruct (bool_decide_reflect (name = "registerAccount")) as [->|_]; [|
    destruct (bool_decide_reflect (name = "queryAccount")) as [->|_]; [|
    destruct (bool_decide_reflect (name = "submitMsgs")) as [->|_]; [|by injection E as <- <-]]].
  - destruct readonly; [by injection E as <- <-|]. peel E. peel E. peel E. peel E.
    apply (native_end "registerAccount" (fun _ => ArgBool true)) in E; [|intros _; apply Pack_registered].
    destruct r as [out|]; [|done]. destruct E as ([] & w1 & E & Hs & _).
    exists id, "registerAccount", x, x0. split_and!; try done. left. split; [done|]. split; [done|]. by exists x1, x2, x3, w1.
  - peel E. peel E. peel E. apply SE_bind_inv in E. cbn [gets] in E. peel E. injection E as <- <-.
    destruct (PackOutput "queryAccount" _) as [out|] eqn:Ep; [|done].
    exists id, "queryAccount", x, x0. split_and!; try done. right. left. split; [done|]. split; [done|]. by exists x1, x2, x3.
  - destruct readonly; [by injection E as <- <-|]. peel E. peel E. peel E. peel E.
    apply (native_end "submitMsgs" ArgInt) in E; [|apply Pack_sequence].
    destruct r as [out|]; [|done]. destruct E as (seq & w2 & E & Hs & Ho). 
    apply submitAction_ok in E as (resp & w1 & Et & -> & Hr).
    exists id, "submitMsgs", x, x0. split_and!; try done. right. right. split; [done|]. split; [done|].
    by exists x1, x2, x3, resp, w1, w2.
Qed.

(** C15: calling the precompile of interchain accounts.  A call that fails leaves
    the state as it was, and so does a read-only call.  A call that succeeds
    registered an account owned by the caller, answered a query, or sent the
    caller's messages, to be answered to the caller, from the caller's account,
    announced on the account's active channel and returned the sequence of the
    packet; and no other caller is the owner of these accounts. *)
Theorem ica_authenticated caller input readonly (w w' : W) r :
  IcaRun caller input readonly w = Some (r, w') ->
  match r with
  | Err _ => w' = w
  | Ok out => exists id name rest args, sliceTo4 input = Some id /\ MethodById icaMethods id = Ok name /\
      sliceFrom4 input = Some rest /\ Unpack name rest = Ok args /\
      icaEffect caller name args readonly out w w'
  end /\
  (readonly = true -> w' = w) /\
  (forall other, AccAddressString other = AccAddressString caller -> other = caller).
Proof.
  intros E. pose proof (IcaRun_spec caller input readonly w w' r E) as Hspec. split; [done|]. split.
  - intros ->. destruct r as [out|]; [|done]. destruct Hspec as (id & name & rest & args & _ & _ & _ & _ & Heff).
    by destruct Heff as [(_ & ? & _)|[(_ & -> & _)|(_ & ? & _)]].
  - intros other. apply AccAddressString_inj.
Qed.
End IcaProps.

(** ** A chain with the contract *)

Section IcaExample.
#[local] Existing Instance plain_libs.
#[local] Existing Instance plain_libs_laws.
#[local] Existing Instance ledger_bank.
#[local] Existing Instance exDB.
#[local] Existing Instance exDB_laws.

(** The input of [submitMsgs] is the data of the messages. *)
#[local] Instance icaExABI : PrecompileABI := {|
  bankMethods := []; relayerMethods := [];
  Unpack m b := Ok [ArgString "connection-0"; ArgBytes b; ArgInt 60];
  PackOutput m a := match a with ArgInt n => Ok [byte_of_Z n] | _ => Ok [x01] end
|}.

#[local] Instance icaExMethods : IcaABI := [([x03; x00; x00; x00], "submitMsgs")].

#[local] Instance icaExABI_laws : IcaABILaws.
Proof. by split. Qed.

Definition bump (n : Z) (w : Ledger) : Ledger := mkLedger (lBal w) (lSup w) (lNonce w + n) (lTok w).

(** A controller that counts the packets, and the events in thousands. *)
#[local] Instance icaExController : IcaController Ledger := {|
  RegisterInterchainAccount owner conn version ordering := modify (bump 1);
  InterchainAccount owner conn w := Ok None;
  SendTx msg w := Some (Ok (Some (lNonce w + 1)), bump 1 w);
  NewControllerPortID owner := Ok ("icacontroller-" +:+ owner);
  GetActiveChannelID conn port w := Some "channel-0";
  EmitEvent ty attrs w := bump 1000 w;
  AttributeKeySrcChannel := "packet_src_channel"
|}.

Definition exSubmit : slice := mkSlice [x03; x00; x00; x00; x0a] [].

Lemma ica_authenticated_witness :
  exists out w', IcaRun (exAddr x07) exSubmit false exWorld = Some (Ok out, w') /\ out = [x01] /\ lNonce w' = 1001 /\
    exists name args, icaEffect (exAddr x07) name args false out exWorld w'.
Proof.
  destruct (ica_authenticated (exAddr x07) exSubmit false exWorld (bump 1000 (bump 1 exWorld)) (Ok [x01]))
    as [(id & name & rest & args & _ & _ & _ & _ & Heff) _]; [reflexivity|].
  exists [x01], (bump 1000 (bump 1 exWorld)). split; [reflexivity|]. split; [reflexivity|]. split; [reflexivity|].
  exists name, args. exact Heff.
Defined.
End IcaExample.
