(* ===== verification/E2ee.v ===== *)
(** * The registry of encryption keys: [x/e2ee]

    [keeper/keeper.go], [types/keys.go], [types/msg.go], [types/genesis.go]: a
    key of the [age] package for each account, over the key/value store of the
    module. *)

From S2P Require Import Prelude KV Binary Sha256 Proto Ctx CronosTypes BlockList.
From Stdlib Require Import Strings.Byte.

Open Scope string_scope.
Open Scope Z_scope.
Open Scope list_scope.

(** [age.ParseX25519Recipient] *)
Class AgeKeys := ParseX25519Recipient : string -> result unit.

(** The codec of addresses reads back what it prints, and accepts no empty
    address. *)
Class CodecRoundtrip `{AddressCodec} : Prop := {
  String_to_bytes a s : a <> [] -> BytesToString a = Ok s -> StringToBytes s = Ok a;
  StringToBytes_nonempty s a : StringToBytes s = Ok a -> a <> []
}.

Record EncryptionKeyEntry := mkEntry { entryAddress : string; entryKey : string }.

Section E2ee.
Context {L : Libs} {AC : AddressCodec} {AK : AgeKeys} {St : Type} {KS : KVStore St}.

Definition KeyPrefixEncryptionKey : bytes := [x01].

Definition KeyPrefix (addr : bytes) : bytes := x01 :: addr.

(** ** Validation *)

Definition ValidateRecipientKey (key : string) : result unit := ParseX25519Recipient key.

Definition ValidateBasic (m : EncryptionKeyEntry) : result unit :=
  match AccAddressFromBech32 (entryAddress m) with
  | Err _ => Err "invalid address"
  | Ok _ => ValidateRecipientKey (entryKey m)
  end.

Definition EntryValidate (e : EncryptionKeyEntry) : result unit :=
  match AccAddressFromBech32 (entryAddress e) with
  | Err err => Err err
  | Ok _ => ValidateRecipientKey (entryKey e)
  end.

Fixpoint GenesisValidate (keys : list EncryptionKeyEntry) : result unit :=
  match keys with
  | [] => Ok tt
  | e :: keys => match EntryValidate e with Err err => Err err | Ok _ => GenesisValidate keys end
  end.

(** ** The keeper *)

Definition registerEncryptionKey (address : string) (key : bytes) : SE St unit :=
  bz ← orErr (StringToBytes address);
  modify (SetKey (KeyPrefix bz) key).

Definition RegisterEncryptionKey (req : EncryptionKeyEntry) : SE St unit :=
  registerEncryptionKey (entryAddress req) (bytes_of_string (entryKey req)).

Definition InitGenesis (keys : list EncryptionKeyEntry) : SE St unit :=
  forM keys (fun e => registerEncryptionKey (entryAddress e) (bytes_of_string (entryKey e))).

Fixpoint exportKeys (l : kvs) : result (list EncryptionKeyEntry) :=
  match l with
  | [] => Ok []
  | (k, v) :: l =>
      match BytesToString k with
      | Err e => Err e
      | Ok address =>
          match exportKeys l with
          | Err e => Err e
          | Ok keys => Ok (mkEntry address (string_of_bytes v) :: keys)
          end
      end
  end.

Definition ExportGenesis : SE St (list EncryptionKeyEntry) :=
  l ← gets (PrefixIterator KeyPrefixEncryptionKey); orErr (exportKeys l).

(** A missing key is the empty string. *)
Definition Key (address : string) : SE St string :=
  bz ← orErr (StringToBytes address);
  v ← gets (Get (KeyPrefix bz));
  mret (string_of_bytes (default [] v)).

Fixpoint Keys (addresses : list string) : SE St (list string) :=
  match addresses with
  | [] => mret []
  | a :: addresses =>
      bz ← orErr (StringToBytes a);
      v ← gets (Get (KeyPrefix bz));
      rest ← Keys addresses;
      mret (string_of_bytes (default [] v) :: rest)
  end.
End E2ee.

(** ** Properties *)

Section Props.
Context {L : Libs} {AC : AddressCodec} {CR : CodecRoundtrip} {AK : AgeKeys} {St : Type} {KS : KVStore St} {KL : KVStoreLaws St}.

(** No key is registered for the empty address. *)
Definition registry_ok (st : St) : Prop := Get (KeyPrefix []) st = None.

(** Registering a key replaces the key of that account and no other. *)
Lemma RegisterEncryptionKey_spec req st a :
  registry_ok st -> StringToBytes (entryAddress req) = Ok a ->
  exists st', RegisterEncryptionKey req st = Some (Ok tt, st') /\ registry_ok st' /\
    Key (entryAddress req) st' = Some (Ok (entryKey req), st') /\
    forall k, k <> KeyPrefix a -> Get k st' = Get k st.
Proof.
  intros Hok Ea. exists (SetKey (KeyPrefix a) (bytes_of_string (entryKey req)) st).
  unfold RegisterEncryptionKey, registerEncryptionKey, Key, orErr. rewrite Ea. split; [done|]. split; [|split].
  - unfold registry_ok. rewrite Get_Set_ne; [done|]. intros [= <-]. by apply StringToBytes_nonempty in Ea.
  - unfold mbind, SE_bind, gets. rewrite Get_Set_eq. cbn [from_option id]. by rewrite string_bytes.
  - intros k Hk. by apply Get_Set_ne.
Qed.

(** The keys of an exported genesis, written one after the other. *)
Definition setKeys (l : kvs) (st : St) : St := foldl (fun st p => SetKey (KeyPrefix p.1) p.2 st) st l.

Lemma InitGenesis_exported l gs st :
  (forall k v, (k, v) ∈ l -> k <> []) -> exportKeys l = Ok gs -> InitGenesis gs st = Some (Ok tt, setKeys l st).
Proof.
  revert gs st. induction l as [|[k v] l IH]; intros gs st Hne E; cbn [exportKeys] in E.
  { injection E as <-. done. }
  destruct (BytesToString k) as [address|] eqn:Ek; [|done]. destruct (exportKeys l) as [keys|] eqn:El; [|done].
  injection E as <-. unfold InitGenesis. cbn [forM].
  rewrite (SE_bind_ok _ _ _ tt (SetKey (KeyPrefix k) v st)).
  - apply IH; [|done]. intros k' v' Hin. apply (Hne k' v'). by right.
  - unfold registerEncryptionKey. cbn [entryAddress entryKey]. rewrite (String_to_bytes k address); [|apply (Hne k v); by left|done].
    by rewrite String.list_byte_of_string_of_list_byte.
Qed.

Lemma setKeys_other l st k : (forall a v, (a, v) ∈ l -> k <> KeyPrefix a) -> Get k (setKeys l st) = Get k st.
Proof.
  revert st. induction l as [|[a v] l IH]; intros st Hk; [done|]. cbn [setKeys foldl fst snd].
  fold (setKeys l (SetKey (KeyPrefix a) v st)). rewrite IH by (intros a' v' Hin; apply (Hk a' v'); by right).
  apply Get_Set_ne. apply (Hk a v). by left.
Qed.

Lemma setKeys_get l st a v : NoDup (keys l) -> (a, v) ∈ l -> Get (KeyPrefix a) (setKeys l st) = Some v.
Proof.
  revert st. induction l as [|[b u] l IH]; intros st Hnd Hin; [by apply not_elem_of_nil in Hin|].
  cbn in Hnd. apply NoDup_cons in Hnd as [Hn Hnd]. cbn [setKeys foldl fst snd].
  apply elem_of_cons in Hin as [[= -> ->]|Hin]; [|by apply IH].
  fold (setKeys l (SetKey (KeyPrefix b) u st)). rewrite setKeys_other; [by apply Get_Set_eq|].
  intros b' v' Hin [= ->]. apply Hn. by apply (list_elem_of_fmap_2 fst) in Hin.
Qed.

(** C25: the exported genesis state of the key registry, imported into an empty
    store, restores the key of every account, and exporting again gives the same
    genesis state; the other entries of the store are left alone. *)
Theorem e2ee_genesis_roundtrip (st st0 : St) gs :
  registry_ok st -> ExportGenesis st = Some (Ok gs, st) -> PrefixIterator KeyPrefixEncryptionKey st0 = [] ->
  exists st', InitGenesis gs st0 = Some (Ok tt, st') /\
    (forall a, Get (KeyPrefix a) st' = Get (KeyPrefix a) st) /\
    ExportGenesis st' = Some (Ok gs, st') /\
    (forall k, hd_error k <> Some x01 -> Get k st' = Get k st0).
Proof.
  intros Hok E H0. set (l := PrefixIterator KeyPrefixEncryptionKey st).
  assert (exportKeys l = Ok gs) as El by (by injection E).
  assert (forall k v, (k, v) ∈ l <-> Get (KeyPrefix k) st = Some v) as Hl by (intros; apply PrefixIterator_spec).
  pose proof (PrefixIterator_sorted KeyPrefixEncryptionKey st) as Hs. fold l in Hs.
  exists (setKeys l st0). split.
  { apply InitGenesis_exported; [|done]. intros k v Hin ->. apply Hl in Hin. unfold registry_ok in Hok. congruence. }
  assert (forall a, Get (KeyPrefix a) (setKeys l st0) = Get (KeyPrefix a) st) as Hget.
  { intros a. destruct (Get (KeyPrefix a) st) as [v|] eqn:Ea.
    - apply setKeys_get; [by apply sorted_NoDup|]. by apply Hl.
    - rewrite setKeys_other.
      + destruct (Get (KeyPrefix a) st0) as [v|] eqn:E0; [|done]. apply (PrefixIterator_spec KeyPrefixEncryptionKey) in E0.
        rewrite H0 in E0. by apply not_elem_of_nil in E0.
      + intros b v Hin [= ->]. apply Hl in Hin. congruence. }
  split; [done|]. split.
  - unfold ExportGenesis. unfold mbind, SE_bind, gets, orErr. rewrite (kv_sorted_ext _ l); [by rewrite El|..].
    + apply PrefixIterator_sorted.
    + done.
    + intros [k v]. rewrite Hl, PrefixIterator_spec. change (KeyPrefixEncryptionKey ++ k) with (KeyPrefix k). by rewrite Hget.
  - intros k Hk. apply setKeys_other. by intros a v _ ->.
Qed.
End Props.

(** A store with the key of one account. *)
Section Example.
#[local] Existing Instance plain_libs.
#[local] Existing Instance plain_libs_laws.

#[local] Instance e2ee_codec : AddressCodec := {|
  StringToBytes := AccAddressFromBech32;
  BytesToString a := Ok (AccAddressString a)
|}.

#[local] Instance e2ee_codec_laws : CodecRoundtrip.
Proof.
  split.
  - intros [|x a] s Hne; [done|]. intros E. injection E as <-.
    change (match trimPrefix "crc1" ("crc1" +:+ hex_encode (x :: a)) ≫= hex_decode with
            | Some (y :: b) => Ok (y :: b) | _ => Err "invalid Bech32 address" end = Ok (x :: a)).
    rewrite trimPrefix_app. change (Some ?y ≫= hex_decode) with (hex_decode y). by rewrite hex_decode_encode.
  - intros s a E. exact (proj2 (FromBech32_nonempty s a E)).
Qed.

Definition exRegistry : gmap bytes bytes := {[ KeyPrefix [x07] := [x61; x67; x65] ]}.
Definition exGenesis : list EncryptionKeyEntry := [mkEntry (AccAddressString [x07]) "age"].

Lemma exRegistry_exported : exportKeys (PrefixIterator KeyPrefixEncryptionKey exRegistry) = Ok exGenesis.
Proof. vm_compute. reflexivity. Qed.

Lemma e2ee_genesis_roundtrip_witness :
  exists st', InitGenesis exGenesis (∅ : gmap bytes bytes) = Some (Ok tt, st') /\
    Get (KeyPrefix [x07]) st' = Some [x61; x67; x65] /\ ExportGenesis st' = Some (Ok exGenesis, st').
Proof.
  destruct (e2ee_genesis_roundtrip exRegistry ∅ exGenesis) as (st' & Ei & Hget & Ee & _).
  - reflexivity.
  - unfold ExportGenesis, mbind, SE_bind, gets, orErr. by rewrite exRegistry_exported.
  - reflexivity.
  - exists st'. split; [exact Ei|]. split; [|exact Ee]. rewrite Hget. reflexivity.
Defined.
End Example.
